(* ===== verification/_CoqProject ===== *)
-Q . S2P
Prelude.v
Types.v
Std.v
Float.v
Proto.v
Fsm.v
Clock.v
Visibility.v
PortRights.v
Tree.v
Topology.v
TaskGraph.v
Scheduling.v
Dispatch.v
Resource.v
Gate.v
Workspace.v
Integration.v
Migration.v
Orchestrator.v
Handler.v
Taxonomy.v
Permissions.v
Trail.v
FileTrail.v
Index.v
Stores.v
Recovery.v
Compaction.v
Resilience.v
Tools.v
Llm.v
SerdeJson.v
Providers.v
Security.v
Config.v
Auth.v
Runtime.v
Serving.v
Console.v
Api.v
Launch.v
Monitor.v
Oversight.v
Accounts.v
Catalog.v
Agents.v
