(* ===== verification/Prelude.v ===== *)
(** * Verification of the WACP protocol runtime and its console

    WACP runs agents in workspaces under a coordinator; people supervise them through a
    console.  The crates under [src/wacp/crates] and [src/wacp-console/crates] split the
    system as follows, and this library models those marked with a file.

    - wacp-types: identifiers, enumerations and records ([Types]).
    - wacp-fsm: the workspace, envelope and task lifecycles ([Fsm]).
    - wacp-clock: the hybrid logical clock ([Clock]).
    - wacp-taxonomy and wacp-permissions: what roles exist and what each may do
      ([Taxonomy], [Permissions]).
    - wacp-workspace: the state of a workspace and the actor that owns it
      ([Workspace]).
    - wacp-coordinator: the structures over all workspaces and tasks.  [Tree],
      [Visibility] (with the escalation router), [PortRights] and [Topology], which
      ties the four together; [TaskGraph], [Scheduling] and [Dispatch], which decide
      what runs; [Resource] and [Gate], timers, budgets and approvals; [Integration]
      and [Migration]; [Orchestrator], the event loop that owns the tree, the
      task graph, the migrations and the handles of the actors; and [Handler], the
      requests of agents and operators over these structures, and the event bus.
    - wacp-trail and wacp-recovery: the hash-chained audit trail and its stores in
      memory ([Trail]) and in segment files ([FileTrail]), the index over it ([Index]),
      the files of checkpoints and snapshots ([Stores]), the movement of segments
      between tiers and their compaction ([Compaction]), and the reconstruction of
      state from the trail after a crash ([Recovery]).
    - wacp-tools: circuit breaker and concurrency limiter ([Resilience]); descriptors,
      packages, execution, sandbox policy and the registry that combines them ([Tools]).
    - wacp-llm: rate limits, errors, retry and cost ([Llm]); messages, stream parsers, the
      wire formats of two providers and the canned one ([Providers]).
    - wacp-security: content filter, secrets and audit records ([Security]).
    - wacp-transport: the authenticators and the limiter of failed logins ([Auth]).
    - wacp-runtime: the configuration ([Config]), and the process that owns coordinator,
      gates, index and checkpoints, fans events out to subscribers and serves agents,
      operators and planners ([Runtime], with its theory in [Serving]).  [Proto] has
      the messages and enums of [src/wacp/proto] and the conversions to them.
    - console-core, console-db and console-api: the lifecycle of sessions, roles and the
      SQL they are stored by ([Console]); the saga that launches a session over the
      runtime's API and the recovery at startup ([Launch]); the monitor that follows a
      running session over four streams ([Monitor]); the errors, cookies and audit entries
      of the API and requests as programs ([Api]); the routes through which people
      answer gates and escalations and list what is pending ([Oversight]); users, logins
      and tokens ([Accounts]); the index of roles, tools and verticals ([Catalog]); and
      the profiles of agents ([Agents]).
    - wacp-sdk, wacp-coordinator-sdk, wacp-proto, the HTTP clients of wacp-llm, the
      servers of wacp-transport and the rest of the console: not modelled, see below.

    A goal goes from the console ([Launch]) to the runtime ([Runtime], calling
    [Orchestrator], [TaskGraph] and [Tree]) to an actor ([Workspace]); the actor's events
    come back through [Runtime]'s streams to [Monitor], and the answers of people through
    [Oversight] and [Runtime] to the actor.  [Serving] and [Oversight] hold the theorems
    that cross these borders.

    [Std] holds the pieces of Rust's standard library that several files use: durations,
    strings as bytes with character boundaries, UTF-8 validation, hexadecimal, the order
    of texts.  [SerdeJson] has the values of serde_json.

    ** Conventions

    A struct is a record and an enum an inductive type, each in a module of the
    source's name with its operations, so [tree.rs]'s [WorkspaceTree::insert] is
    [WorkspaceTree.insert].  An operation that changes its receiver returns the new
    receiver beside its result; an early return keeps the changes made before it.
    [Result] is [result]; [option] at the outside of a result stands for a panic or,
    in the traversals of [Tree], [Scheduling] and [Handler], for exhausted fuel; theorems
    show that the fuel is enough, and when code panics.  A panic under a [Mutex] poisons it.  Unsigned integers are [Z] with the wrapping of the release
    profile written out ([wrap64], [wrap32]); budgets use IEEE binary64 ([Float]).
    Identifiers are strings.  Hash maps are [gmap string]; the order in which one is
    iterated comes from the class [HashOrder], of which only that it enumerates the
    entries is known, so the theorems hold for every order.  Channels are lists of
    messages in order; the actor's biased [select!] takes commands before messages.
    Instants are nanoseconds and an operation that reads the clock takes the instant; an
    instant too early to represent is a panic ([Std.instant_sub]).
    Code outside the repository is a parameter: SHA-256 in [Trail], serde_json in
    [Recovery], the YAML and JSON deserialisers in [Taxonomy], the tokio semaphore in
    [Resilience], the JSON Schema library in [Tools], the random generator in [Llm],
    zstd in [Compaction], the YAML parser and the file system in [Config], digests,
    base64 and random tokens in [Auth], the text of JSON in [Runtime], the runtime, the
    clock and the faults of the database in [Launch], dates in [Monitor], base64 in
    [Oversight], regular expressions in [Security], JSON text in [SerdeJson], Argon2 and
    dates in [Accounts], YAML and the decimal text of floats in [Agents].  A request of the
    console in [Accounts] and [Agents] is the sequence of its statements, each of which
    may fail or be preceded by those of other requests; its clock readings and random
    values are inputs.  SQL statements are functions on the rows of a table.  A subscriber of a
    stream is a bounded queue.  Histories are lists of operations folded over the initial
    state; concurrent calls of the limiter are a step relation over the points where a
    call can be interleaved with others.  Files are byte lists: in [FileTrail] a write
    may stop after any byte, in [Compaction] any operation may fail.

    ** What is shown

    - [Fsm]: terminal states, the only ways to Closed and Integrated, termination of
      envelope lifecycles.  [Clock]: encoding round trip and order, and exactly when
      [recv] and [now] are strict.
    - [Tree]: every reachable tree is rooted and acyclic with exact indices; the
      traversals terminate and are exact; what a failure cascade changes.
      [PortRights]: the indices agree, sends are validated exactly, dead rights stay
      dead.  [Visibility]: the queries agree.  [Topology]: the four structures stay
      consistent, and the rights are those of a register kept along the history
      ([PortRights.Register]); creation connects; termination expires exactly the rights of the
      workspaces it reports, and which failed descendants it misses.
    - [TaskGraph]: counters count unfinished dependencies, so the dispatchable tasks
      are the right ones; reports are exact; what a refused addition leaves behind.
      [Scheduling]: cancellation terminates and cancels exactly the reachable open
      tasks.  [Dispatch]: capacity, invariants and what each action guarantees; what a
      second round does to a bound task.
    - [Resource]: a timer measures time in timer-active states and fires at its limit;
      which dimensions a budget check names.  [Gate]: ids are fresh and the first
      response wins.  [Integration]: one at a time in order; the conflicts of each
      strategy and their resolution.
    - [Workspace]: along every run of the actor the announced changes are a path of the
      lifecycle, termination is last, checkpoints chain; the inbox refines one queue
      per priority; what a snapshot loses, how far a checkpoint gate holds, and that
      deliveries are not deduplicated.  [Orchestrator]: a completed migration leaves
      the coordinator as it was and the actor as it would be without it, whatever
      messages, envelopes, grants and budgets arrived meanwhile.
    - [Taxonomy]: which definitions load and what they give, without privilege
      escalation.  [Permissions]: every decision, and single-use rights.
    - [Trail]: two verified trails with one head are equal unless they exhibit a break
      of the hash; the in-memory store is an append-only log and satisfies
      [TrailStorageLaws].  [Recovery], proved against those laws: what is recovered,
      that snapshots are only an optimisation, and when they panic.  [FileTrail]: the
      file store satisfies the laws too; over every history with crashes exactly the
      entries written in full survive, and each receipt reads its entry back, so that
      recovery from it is recovery from memory; what a failed append does to the next.  [Compaction]: a cycle, whatever fails in it,
      loses only what is past its retention; which segments move; what merging keeps
      and loses; that a trail with moved segments is not recovered.
    - [Handler]: which tasks a snapshot lists; which envelope requests are accepted
      and the ids they get; a changed byte changes a checkpoint's hash; every
      subscriber gets the events after its subscription.
    - [Resilience]: the breaker refines one that remembers every failure, and when it
      panics; when it admits calls again; how many invocations run and wait.  [Tools]: registered tools
      are well-formed; what an execution returns on every path; a probe that is not
      reported disables its tool for good.  [Llm]: requests and tokens per window, by
      the number of requests in flight at once,
      when a refused request is admitted, bounds of the retry delay, the longest
      matching price, exact costs.  [Providers]: the stream of the canned provider adds up
      to its answer; how an assistant turn is read back from both wire formats; what a
      stream of the
      Anthropic protocol adds up to.  [Security]: the result of the filter under every
      policy, and which secrets a scan reports.
    - [Config]: which configuration is loaded, as a relation between file, environment
      and result.  [Auth]: which tokens are accepted after any history, and whom the
      limiter blocks.  [Index] and [Stores]: what is read back after any history of
      writes, interrupted ones included.
    - [Serving]: every request of the runtime returns, ids are fresh until the counters
      wrap; a submitted goal has a running workspace whose agent is told its context;
      how a checkpoint gate travels from agent to operator to actor; that tasks with
      open dependencies are never offered, and that a restart hides the new trail.
    - [Console]: sessions move along their lifecycle under any interleaving of queries.
      [Launch]: the launch is a saga that leaves all workspaces or none, but for the
      failures that leave a session stuck; what recovery makes of every session.
    - [Monitor]: what is pending, exactly; at most one change of the session, from
      active; how long a driver reconnects.  [Oversight]: following the pages of a
      listing shows every item once; who can answer which gate; which events of the
      runtime end a session, and that none of its trail entries resolves anything.
    - [Accounts]: the tables stay well formed however requests interleave and fail; who is
      let in, exactly; a login, whichever of its statements fail, opens the session that the
      cookies it sets name; a revoked token stays
      dead; requests in sequence keep an active admin, overlapping ones need not; what a
      lockout and a password change leave open.
    - [Catalog]: what the index holds, and that its references resolve.
    - [Agents]: which profiles are valid, that requests in sequence keep the history of a
      profile, that a profile exported as YAML is imported as it was, and that two updates
      of a profile at the same time can leave it without a current version.

    ** Fuel

    [WorkspaceTree.descendants] and [parent_chain] get one unit per node plus one: on
    an acyclic tree each node is visited once.  [SchedulingOps.cancel_task] gets one
    more than the number of tasks: each level cancels a task that stays cancelled.
    [Tree.tree_traversals_exact] and [Scheduling.cancel_task_exact] show both are
    enough.  [RequestHandler.visit] gets one unit per entry that can be pushed on its
    stack ([Handler.task_snapshot_exact]).  The scans of [FileTrail] get the length of
    the file: each turn of the loop consumes at least 36 bytes.

    ** Not modelled

    Of the console: the routes of sessions other than oversight, settings, search and
    discovery, the WebSocket endpoint and the OpenAPI data.  The gRPC, REST and WebSocket
    servers, the HTTP clients of wacp-llm, the SDKs over generated stubs, tool discovery,
    the start of the processes and the Python and TypeScript packages.  Bounded
    channels between runtime and actors are unbounded lists here, so a deadlock of the
    two loops would not show.  Plain getters that nothing in the models calls have no
    definition.  Helpers that translate part of the lines of another definition, and
    small types and functions, are not listed in the source map, which names at most six
    hundred definitions.
    [Coordinator::capture_snapshot] only serialises and has no definition. *)

From stdpp Require Export base tactics numbers list gmap strings pretty fin_maps sorting.
From Stdlib Require Export ZArith Lia.

#[global] Open Scope Z_scope.

(** ** Results

    Rust's [Result<T, E>].  Operations that mutate their receiver and can fail
    return the new state beside the result, so a mutation made before an early
    return stays visible. *)

Inductive result (A E : Type) : Type :=
| Ok (a : A)
| Err (e : E).

Arguments Ok {A E} a.
Arguments Err {A E} e.

Definition is_ok {A E} (r : result A E) : bool :=
  match r with Ok _ => true | Err _ => false end.

Definition result_map_err {A E F} (f : E → F) (r : result A E) : result A F :=
  match r with Ok a => Ok a | Err e => Err (f e) end.

Definition ok_or {A E} (o : option A) (e : E) : result A E :=
  match o with Some a => Ok a | None => Err e end.

Declare Scope wacp_scope.
Delimit Scope wacp_scope with wacp.
#[global] Open Scope wacp_scope.

(** Rust's [let x = e?;] *)
Notation "'let?' x ':=' e 'in' k" :=
  (match e with Ok x => k | Err err => Err err end)
  (at level 10, x name, e at level 100, k at level 200) : wacp_scope.

(** A [for] loop whose body may return an error. *)
Fixpoint for_each {A E} (f : A → result unit E) (l : list A) : result unit E :=
  match l with
  | [] => Ok tt
  | x :: l => let? _ := f x in for_each f l
  end.

Definition ensure {E} (b : bool) (e : E) : result unit E := if b then Ok tt else Err e.

Lemma let_ok {E} (r : result unit E) k : (let? _ := r in k) = Ok tt ↔ r = Ok tt ∧ k = Ok tt.
Proof. destruct r as [[]|]; naive_solver. Qed.

Lemma ensure_ok {E} b (e : E) : ensure b e = Ok tt ↔ Is_true b.
Proof. by destruct b. Qed.

Lemma for_each_ok {A E} (f : A → result unit E) l :
  for_each f l = Ok tt ↔ Forall (λ x, f x = Ok tt) l.
Proof.
  induction l as [|x l IH]; cbn [for_each]; [by rewrite Forall_nil|].
  by rewrite let_ok, Forall_cons, IH.
Qed.

(** ** Field assignment

    Rust's [r.f = v] is [r <| f := v |>], [r.f.g = v] is [r <| f; g := v |>], and
    [r <| f ::= g |>] applies [g] to the field.  A record opts in with its eta-expansion; the setter of
    a projection is that expansion with the projection replaced. *)

Class Settable (R : Type) := eta : R → R.
Class Setter {R A : Type} (proj : R → A) := set : (A → A) → R → R.
Arguments set {R A} proj {_} f r.

Ltac build_setter :=
  match goal with
  | |- @Setter ?R ?A ?proj =>
      let e := eval hnf in (@eta R _) in
      match eval pattern proj in e with
      | ?f _ => let b := eval cbv beta in (λ (g : A → A), f (λ r, g (proj r))) in exact b
      end
  end.

#[global] Hint Extern 1 (Setter _) => build_setter : typeclass_instances.

Notation "r <| f ::= g |>" := (set f g r) (at level 1, f at level 9, left associativity) : wacp_scope.
Notation "r <| f := v |>" := (set f (λ _, v) r) (at level 1, f at level 9, left associativity) : wacp_scope.
Notation "r <| f ; g := v |>" := (set f (set g (λ _, v)) r)
  (at level 1, f, g at level 9, left associativity) : wacp_scope.
Notation "r <| f ; g ; h := v |>" := (set f (set g (set h (λ _, v))) r)
  (at level 1, f, g, h at level 9, left associativity) : wacp_scope.

(** ** Machine integers

    Unsigned integers are [Z] values in range.  The shipped binaries are built
    in the release profile, where [+] wraps, so [wrap64] is written wherever the
    source adds two [u64] without a saturating or checked method. *)

Definition u16_max : Z := 65535.
Definition u32_max : Z := 4294967295.
Definition u64_max : Z := 18446744073709551615.

Definition is_u16 (z : Z) : Prop := 0 ≤ z ≤ u16_max.
Definition is_u64 (z : Z) : Prop := 0 ≤ z ≤ u64_max.

Definition wrap32 (z : Z) : Z := z mod (u32_max + 1).
Definition wrap64 (z : Z) : Z := z mod (u64_max + 1).

Definition saturating_sub (a b : Z) : Z := Z.max 0 (a - b).
Definition saturating_add16 (a b : Z) : Z := Z.min u16_max (a + b).

Lemma wrap64_small z : is_u64 z → wrap64 z = z.
Proof. unfold is_u64, wrap64, u64_max. intros. apply Z.mod_small. lia. Qed.

Lemma wrap64_range z : is_u64 (wrap64 z).
Proof.
  unfold is_u64, wrap64. pose proof (Z.mod_pos_bound z (u64_max + 1)) as Hb.
  unfold u64_max in *. lia.
Qed.

Lemma wrap64_add a b : wrap64 (wrap64 a + b) = wrap64 (a + b).
Proof. unfold wrap64. apply Zplus_mod_idemp_l. Qed.

Lemma wrap64_sub a b : wrap64 (wrap64 a - b) = wrap64 (a - b).
Proof. unfold wrap64. apply Zminus_mod_idemp_l. Qed.

Lemma wrap32_small z : 0 ≤ z ≤ u32_max → wrap32 z = z.
Proof. unfold wrap32, u32_max. intros. apply Z.mod_small. lia. Qed.

(** [solve_range] closes arithmetic goals about the machine-integer bounds. *)
Ltac unfold_range :=
  unfold is_u64, is_u16, saturating_sub, saturating_add16, u64_max, u32_max, u16_max in *.
Ltac solve_range := unfold_range; lia.

(** ** Strings

    [format!("pfx-{}", n)] for an unsigned [n]; identifiers are generated this
    way everywhere in the coordinator. *)

Definition format_id (pfx : string) (n : Z) : string := pfx +:+ pretty (Z.to_N n).

Lemma format_id_inj pfx m n :
  0 ≤ m → 0 ≤ n → format_id pfx m = format_id pfx n → m = n.
Proof.
  unfold format_id. intros Hm Hn Heq.
  apply (inj (String.app pfx)) in Heq. apply (inj pretty) in Heq. lia.
Qed.

(** [str::as_bytes] on ASCII text; a byte is a [Z] in [0, 255]. *)
Fixpoint as_bytes (s : string) : list Z :=
  match s with
  | EmptyString => []
  | String c s => Z.of_N (Ascii.N_of_ascii c) :: as_bytes s
  end.

(** ** Hash maps

    A [HashMap<String, V>] is a [gmap string V]: identifiers are newtypes over
    [String] and every map of the coordinator is keyed by one.  Iteration order
    of a Rust hash map is unspecified, so code that iterates takes the order from
    a [HashOrder], about which only this is known: it enumerates the entries. *)

Class HashOrder : Type := {
  hash_iter : ∀ {V : Type}, gmap string V → list (string * V);
  hash_iter_perm : ∀ {V : Type} (m : gmap string V), hash_iter m ≡ₚ map_to_list m;
}.

Definition values `{HashOrder} {V} (m : gmap string V) : list V := (hash_iter m).*2.

(** A [HashSet<String>] is a [HashMap<String, ()>] and iterates like one. *)
Definition set_iter `{HashOrder} (s : gset string) : list string := (hash_iter (gset_to_gmap tt s)).*1.

(** Rust's [entry(k).or_default().push(x)] *)
Definition push_entry `{Countable K} {A} (k : K) (x : A) (m : gmap K (list A)) : gmap K (list A) :=
  <[k := default [] (m !! k) ++ [x]]> m.

(** An order to compute with. *)
Definition canonical_order : HashOrder :=
  {| hash_iter := λ V m, map_to_list m; hash_iter_perm := λ V m, Permutation_refl _ |}.

Section hash_order.
Context `{HashOrder} {V : Type}.
Implicit Types m : gmap string V.

Lemma elem_of_hash_iter m k v : (k, v) ∈ hash_iter m ↔ m !! k = Some v.
Proof. rewrite (hash_iter_perm m). apply elem_of_map_to_list. Qed.

Lemma elem_of_values m v : v ∈ values m ↔ ∃ k, m !! k = Some v.
Proof.
  unfold values. rewrite list_elem_of_fmap. split.
  - intros ([k v'] & -> & Hin). exists k. by apply elem_of_hash_iter.
  - intros [k Hk]. exists (k, v). split; [done|]. by apply elem_of_hash_iter.
Qed.

Lemma hash_iter_NoDup m : NoDup (hash_iter m).*1.
Proof. rewrite (hash_iter_perm m). apply NoDup_fst_map_to_list. Qed.

Lemma length_hash_iter m : length (hash_iter m) = size m.
Proof. rewrite (hash_iter_perm m). by rewrite length_map_to_list. Qed.

End hash_order.

Lemma elem_of_set_iter `{HashOrder} (s : gset string) x : x ∈ set_iter s ↔ x ∈ s.
Proof.
  unfold set_iter. rewrite list_elem_of_fmap. split.
  - intros ([k v] & -> & Hin). apply elem_of_hash_iter, lookup_gset_to_gmap_Some in Hin. by destruct Hin.
  - intros Hx. exists (x, tt). split; [done|]. by apply elem_of_hash_iter, lookup_gset_to_gmap_Some.
Qed.

Lemma set_iter_NoDup `{HashOrder} (s : gset string) : NoDup (set_iter s).
Proof. apply hash_iter_NoDup. Qed.

(** ** Lists *)

Lemma fold_left_inv {A B} (P : A → Prop) (f : A → B → A) l a :
  (∀ a b, b ∈ l → P a → P (f a b)) → P a → P (fold_left f l a).
Proof.
  revert a. induction l as [|b l IH]; intros a Hf Ha; [done|]. cbn.
  apply IH; [|apply Hf; [left|done]]. intros a' b' Hb'. apply Hf. by right.
Qed.

Lemma list_filter_none {A} (P : A → Prop) `{∀ x, Decision (P x)} (l : list A) :
  (∀ x, x ∈ l → ¬ P x) → filter P l = [].
Proof.
  induction l as [|x l IH]; intros Hl; [done|]. rewrite filter_cons_False by (apply Hl; left).
  apply IH. intros y Hy. apply Hl. by right.
Qed.

Lemma list_filter_id {A} (P : A → Prop) `{∀ x, Decision (P x)} (l : list A) :
  (∀ x, x ∈ l → P x) → filter P l = l.
Proof.
  induction l as [|x l IH]; intros Hl; [done|]. rewrite filter_cons_True by (apply Hl; left).
  f_equal. apply IH. intros y Hy. apply Hl. by right.
Qed.

Lemma StronglySorted_sublist (l l' : list Z) :
  l `sublist_of` l' → StronglySorted Z.le l' → StronglySorted Z.le l.
Proof.
  induction 1 as [|x l l' Hsub IH|x l l' Hsub IH]; [done| |]; intros [Hx Hs]%StronglySorted_cons; [|auto].
  apply StronglySorted_cons. split; [|auto]. rewrite Forall_forall in Hx |- *.
  intros y Hy. by apply Hx, (sublist_subseteq _ _ Hsub).
Qed.

(** ** Hints *)

Create HintDb wacp discriminated.

(** ** Index maps

    Several components keep [HashMap<String, Vec<Id>>] indices next to a primary
    table; [idx m k] reads one the way [get(k).cloned().unwrap_or_default()] does. *)

Definition idx `{Countable K} {A} (m : gmap K (list A)) (k : K) : list A := default [] (m !! k).

(** [if let Some(v) = m.get_mut(k) { v.retain(p) }] *)
Definition retain_at `{Countable K} {A} (p : A → Prop) `{∀ x, Decision (p x)} (k : K)
    (m : gmap K (list A)) : gmap K (list A) :=
  match m !! k with Some l => <[k := filter p l]> m | None => m end.

Section index_maps.
Context `{Countable K} {A : Type}.
Implicit Types m : gmap K (list A).

Lemma idx_insert m k l k' :
  idx (<[k := l]> m) k' = if decide (k = k') then l else idx m k'.
Proof. unfold idx. rewrite lookup_insert. by case_decide. Qed.

Lemma idx_push_entry m k x k' :
  idx (push_entry k x m) k' = if decide (k = k') then idx m k ++ [x] else idx m k'.
Proof. unfold push_entry. by rewrite idx_insert. Qed.

Lemma idx_empty k : idx (∅ : gmap K (list A)) k = [].
Proof. unfold idx. by rewrite lookup_empty. Qed.

Lemma idx_retain_at (p : A → Prop) `{∀ x, Decision (p x)} k m k' :
  idx (retain_at p k m) k' = if decide (k = k') then filter p (idx m k') else idx m k'.
Proof.
  unfold retain_at. case_decide as Hk; [subst k'|].
  - destruct (m !! k) eqn:Hm.
    + rewrite idx_insert. unfold idx. rewrite Hm. by rewrite decide_True.
    + unfold idx. by rewrite Hm.
  - destruct (m !! k); [|done]. rewrite idx_insert. by rewrite decide_False.
Qed.
End index_maps.

(** Membership in a list extended at the end. *)
Lemma elem_of_snoc {A} (l : list A) x y : x ∈ l ++ [y] ↔ x ∈ l ∨ x = y.
Proof. by rewrite elem_of_app, list_elem_of_singleton. Qed.

Lemma NoDup_snoc {A} (l : list A) x : NoDup (l ++ [x]) ↔ NoDup l ∧ x ∉ l.
Proof. rewrite NoDup_app. pose proof (NoDup_singleton x). set_solver. Qed.

Create Rewrite HintDb idx.
#[global] Hint Rewrite @idx_insert @idx_push_entry @idx_empty @idx_retain_at @elem_of_snoc : idx.

(** ** Histories

    [since start ends ops]: [start] happened and no operation after it ends it. *)
Definition since {A} (start : A) (ends : A → Prop) (ops : list A) : Prop :=
  ∃ before after, ops = before ++ start :: after ∧ Forall (λ op, ¬ ends op) after.

Lemma since_nil {A} (start : A) ends : ¬ since start ends [].
Proof. by intros ([|] & ? & ? & _). Qed.

Lemma since_snoc {A} (start : A) ends ops op :
  since start ends (ops ++ [op]) ↔ op = start ∨ ¬ ends op ∧ since start ends ops.
Proof.
  unfold since. split.
  - intros (before & after & Heq & Hall).
    destruct after as [|op' after _] using rev_ind.
    + apply app_inj_tail in Heq as [_ ->]. by left.
    + rewrite app_comm_cons, app_assoc in Heq. apply app_inj_tail in Heq as [-> <-].
      apply Forall_app in Hall as [Hall Hop]. rewrite Forall_singleton in Hop.
      right. split; [done|]. exists before, after. by split.
  - intros [->|(Hop & before & after & -> & Hall)].
    + exists ops, []. split; [done|constructor].
    + exists before, (after ++ [op]). rewrite <-app_assoc. split; [done|].
      apply Forall_app. rewrite Forall_singleton. by split.
Qed.

Lemma since_never {A} (x : A) ops : since x (λ _, False) ops ↔ x ∈ ops.
Proof.
  rewrite list_elem_of_lookup. unfold since. split.
  - intros (l & l' & -> & _). exists (length l). by rewrite list_lookup_middle.
  - intros [i Hi]. exists (take i ops), (drop (S i) ops). split; [by rewrite take_drop_middle|].
    apply Forall_true. naive_solver.
Qed.

(** A part of the state that one kind of operation adds to and another removes from. *)
Lemma history_exact {A Op} (items : list Op → list A) (adds ends : Op → Prop) (x : A) :
  items [] = [] → (∀ ops op, x ∈ items (ops ++ [op]) ↔ adds op ∨ x ∈ items ops ∧ ¬ ends op) →
  ∀ ops, x ∈ items ops ↔ ∃ op, adds op ∧ since op ends ops.
Proof.
  intros Hnil Hsnoc ops. induction ops as [|op ops IH] using rev_ind.
  - rewrite Hnil. split; [by intros ?%elem_of_nil|]. intros (op & _ & []%since_nil).
  - rewrite Hsnoc, IH. setoid_rewrite since_snoc. naive_solver.
Qed.
