(* ===== verification/Types.v ===== *)
(** * Protocol types (crate wacp-types)

    The closed enumerations and plain records every other component uses.  Each
    enumeration is a module whose type is [t], so its constructors read as in the
    source ([WorkspaceState.Idle]); each record keeps the source's fields, prefixed
    by the record's name.  Identifiers are newtypes over [String] and are strings
    here; payloads are lists of bytes. *)

From S2P Require Import Prelude.
From Corelib Require Export SpecFloat.

(** ** Identifiers *)

Abbreviation WorkspaceId := string (only parsing).
Abbreviation EnvelopeId := string (only parsing).
Abbreviation CheckpointId := string (only parsing).
Abbreviation TaskId := string (only parsing).
Abbreviation TrailEntryId := string (only parsing).
Abbreviation UserId := string (only parsing).
Abbreviation GateId := string (only parsing).
Abbreviation EscalationId := string (only parsing).

(** ** Enumerations *)

Module SignalType.
Inductive t : Set :=
| Ready | Started | Blocked | Checkpoint | Complete | Failed | Integrate
| Acknowledged | Escalation | Suspend | Migrate.

#[global] Instance eq_dec : EqDecision t.
Proof. solve_decision. Defined.
End SignalType.

Module WorkspaceState.
Inductive t : Set :=
| Idle | Active | Blocked | Suspended | Migrating | Integrating | Conflicted
| Closed | Failed.

#[global] Instance eq_dec : EqDecision t.
Proof. solve_decision. Defined.

Definition is_terminal (s : t) : bool :=
  match s with Closed | Failed => true | _ => false end.

(** The derived [Debug] name. *)
Definition debug (s : t) : string :=
  match s with
  | Idle => "Idle" | Active => "Active" | Blocked => "Blocked"
  | Suspended => "Suspended" | Migrating => "Migrating"
  | Integrating => "Integrating" | Conflicted => "Conflicted"
  | Closed => "Closed" | Failed => "Failed"
  end.
End WorkspaceState.

Module EnvelopeState.
Inductive t : Set := Created | Validated | Delivered | Acknowledged | Rejected.

#[global] Instance eq_dec : EqDecision t.
Proof. solve_decision. Defined.

Definition debug (s : t) : string :=
  match s with
  | Created => "Created" | Validated => "Validated" | Delivered => "Delivered"
  | Acknowledged => "Acknowledged" | Rejected => "Rejected"
  end.
End EnvelopeState.

Module TaskStatus.
Inductive t : Set :=
| Draft | Pending | Assigned | InProgress | Completed | Failed | Integrated
| Cancelled.

#[global] Instance eq_dec : EqDecision t.
Proof. solve_decision. Defined.

Definition debug (s : t) : string :=
  match s with
  | Draft => "Draft" | Pending => "Pending" | Assigned => "Assigned"
  | InProgress => "InProgress" | Completed => "Completed" | Failed => "Failed"
  | Integrated => "Integrated" | Cancelled => "Cancelled"
  end.
End TaskStatus.

Module CheckpointStatus.
Inductive t : Set := Provisional | Final.

#[global] Instance eq_dec : EqDecision t.
Proof. solve_decision. Defined.
End CheckpointStatus.

Module Confidence.
Inductive t : Set := High | Medium | Low.

#[global] Instance eq_dec : EqDecision t.
Proof. solve_decision. Defined.
End Confidence.

Module EnvelopePriority.
Inductive t : Set := Normal | Urgent | Blocking.

#[global] Instance eq_dec : EqDecision t.
Proof. solve_decision. Defined.
End EnvelopePriority.

Module EnvelopeOrigin.
Inductive t : Set := Agent | Human.

#[global] Instance eq_dec : EqDecision t.
Proof. solve_decision. Defined.
End EnvelopeOrigin.

Module BaseRole.
Inductive t : Set := Coordinator | Worker | Observer.

#[global] Instance eq_dec : EqDecision t.
Proof. solve_decision. Defined.
End BaseRole.

Module MergeStrategy.
Inductive t : Set := Direct | Layered | Evaluated.

#[global] Instance eq_dec : EqDecision t.
Proof. solve_decision. Defined.
End MergeStrategy.

Module IntegrationMode.
Inductive t : Set := Normal | Salvage.

#[global] Instance eq_dec : EqDecision t.
Proof. solve_decision. Defined.
End IntegrationMode.

Module ConflictType.
Inductive t : Set :=
| ContentOverlap | SemanticContradiction | DependencyViolation | ConstraintBreach.

#[global] Instance eq_dec : EqDecision t.
Proof. solve_decision. Defined.
End ConflictType.

Module ResolutionStrategy.
Inductive t : Set := CoordinatorResolve | Escalate | AgentRework.

#[global] Instance eq_dec : EqDecision t.
Proof. solve_decision. Defined.
End ResolutionStrategy.

Module PortRightType.
Inductive t : Set := Send | Receive | SendOnce.

#[global] Instance eq_dec : EqDecision t.
Proof. solve_decision. Defined.
End PortRightType.

Module GateType.
Inductive t : Set :=
| TaskApproval | WorkspaceCreate | EnvelopeDelivery | Integration
| ConflictResolution | WorkspaceAbort | CheckpointApproval.

#[global] Instance eq_dec : EqDecision t.
Proof. solve_decision. Defined.
End GateType.

Module GateDecision.
Inductive t : Set := Approve | Reject | Modify.

#[global] Instance eq_dec : EqDecision t.
Proof. solve_decision. Defined.
End GateDecision.

Module Originator.
Inductive t : Set := System | User (user_id : UserId).

#[global] Instance eq_dec : EqDecision t.
Proof. solve_decision. Defined.

#[global] Instance countable : Countable t.
Proof.
  apply (inj_countable' (λ o, match o with System => None | User u => Some u end)
           (λ o, match o with None => System | Some u => User u end)).
  by intros [].
Defined.
End Originator.

(** ** Records *)

Record Envelope := {
  env_id : EnvelopeId;
  env_from_workspace : WorkspaceId;
  env_to_workspace : WorkspaceId;
  env_envelope_type : string;
  env_payload : list Z;
  env_in_reply_to : option EnvelopeId;
  env_timestamp : Z;
  env_priority : EnvelopePriority.t;
  env_origin : EnvelopeOrigin.t;
  env_state : EnvelopeState.t;
}.

Record PortRight := {
  pr_right_type : PortRightType.t;
  pr_holder : WorkspaceId;
  pr_target : WorkspaceId;
}.

#[global] Instance port_right_eq_dec : EqDecision PortRight.
Proof. solve_decision. Defined.

Record Signal := {
  sig_signal_type : SignalType.t;
  sig_workspace_id : WorkspaceId;
  sig_timestamp : Z;
  sig_reason : option string;
  sig_context : option (list Z);
}.

Record Task := {
  task_id : TaskId;
  task_name : string;
  task_description : string;
  task_depends_on : list TaskId;
  task_parent_task : option TaskId;
  task_status : TaskStatus.t;
  task_workspace_ref : option WorkspaceId;
  task_workspace_history : list WorkspaceId;
  task_checkpoint_ref : option CheckpointId;
}.

Record ResourceUsage := {
  usage_tokens : Z;
  usage_wall_time_ms : Z;
  usage_storage_bytes : Z;
  usage_network_bytes : Z;
  usage_cost_micros : Z;
}.

Definition ResourceUsage_default : ResourceUsage := {|
  usage_tokens := 0; usage_wall_time_ms := 0; usage_storage_bytes := 0;
  usage_network_bytes := 0; usage_cost_micros := 0 |}.

(** [warning_threshold] is an [f32]: an IEEE 754 datum of precision 24. *)
Record ResourceBudget := {
  budget_max_tokens : option Z;
  budget_max_wall_time_ms : option Z;
  budget_max_storage_bytes : option Z;
  budget_max_network_bytes : option Z;
  budget_max_cost_micros : option Z;
  budget_warning_threshold : spec_float;
}.

(** [0.8_f32] is 13421773 * 2^-24. *)
Definition ResourceBudget_default : ResourceBudget := {|
  budget_max_tokens := None; budget_max_wall_time_ms := None;
  budget_max_storage_bytes := None; budget_max_network_bytes := None;
  budget_max_cost_micros := None;
  budget_warning_threshold := S754_finite false 13421773 (-24) |}.

Record Checkpoint := {
  cp_id : CheckpointId;
  cp_workspace_id : WorkspaceId;
  cp_checkpoint_type : string;
  cp_payload : list Z;
  cp_content_hash : string;
  cp_intent : string;
  cp_parent_checkpoint : option CheckpointId;
  cp_status : CheckpointStatus.t;
  cp_confidence : Confidence.t;
  cp_timestamp : Z;
  cp_resource_usage : option ResourceUsage;
}.

Record GateEvent := {
  ge_gate_id : GateId;
  ge_gate_type : GateType.t;
  ge_subject : list Z;
  ge_workspace_id : WorkspaceId;
  ge_task_id : option TaskId;
  ge_timeout_ms : Z;
  ge_fallback_action : string;
  ge_created_at : Z;
}.

Record EscalationEvent := {
  esc_escalation_id : EscalationId;
  esc_workspace_id : WorkspaceId;
  esc_owner : UserId;
  esc_context : list Z;
  esc_created_at : Z;
}.

(** ** Field updates used by several components *)

Definition task_with_status (s : TaskStatus.t) (t : Task) : Task := {|
  task_id := task_id t; task_name := task_name t;
  task_description := task_description t; task_depends_on := task_depends_on t;
  task_parent_task := task_parent_task t; task_status := s;
  task_workspace_ref := task_workspace_ref t;
  task_workspace_history := task_workspace_history t;
  task_checkpoint_ref := task_checkpoint_ref t |}.

Definition task_with_parent (p : option TaskId) (t : Task) : Task := {|
  task_id := task_id t; task_name := task_name t;
  task_description := task_description t; task_depends_on := task_depends_on t;
  task_parent_task := p; task_status := task_status t;
  task_workspace_ref := task_workspace_ref t;
  task_workspace_history := task_workspace_history t;
  task_checkpoint_ref := task_checkpoint_ref t |}.

Definition task_with_workspace (w : option WorkspaceId) (h : list WorkspaceId) (t : Task) : Task := {|
  task_id := task_id t; task_name := task_name t;
  task_description := task_description t; task_depends_on := task_depends_on t;
  task_parent_task := task_parent_task t; task_status := task_status t;
  task_workspace_ref := w; task_workspace_history := h;
  task_checkpoint_ref := task_checkpoint_ref t |}.

(** The derived [Debug] names are distinct, so printing a state loses nothing. *)
#[global] Instance workspace_debug_inj : Inj (=) (=) WorkspaceState.debug.
Proof. by intros [] []. Qed.

#[global] Instance task_debug_inj : Inj (=) (=) TaskStatus.debug.
Proof. by intros [] []. Qed.
