(* ===== verification/Std.v ===== *)
(** * Pieces of Rust's standard library

    What the tool and model crates use of [std::time] and [str], beyond the
    prelude: instants and durations with the text of a duration, UTF-8 boundaries
    and slices, character classes, [split] and integer parsing. *)

From Stdlib Require Import Ascii.
From S2P Require Import Prelude.

(** ** Time

    An [Instant] is a number of nanoseconds on the monotonic clock and a [Duration]
    a number of nanoseconds.  [duration_since] saturates at zero. *)

Definition duration_since (now earlier : Z) : Z := saturating_sub now earlier.

(** Subtracting a duration from an instant panics when the result cannot be represented:
    an instant holds its seconds as an [i64]. *)
Definition instant_min : Z := - 2 ^ 63 * 1000000000.

Definition instant_sub (t d : Z) : option Z := if instant_min <=? t - d then Some (t - d) else None.

Lemma instant_sub_Some t d : instant_min ≤ t - d → instant_sub t d = Some (t - d).
Proof. unfold instant_sub. by intros ->%Z.leb_le. Qed.

Definition from_secs (s : Z) : Z := s * 1000000000.
Definition from_millis (ms : Z) : Z := ms * 1000000.

Lemma duration_since_ge now t d : 0 < d → d ≤ duration_since now t ↔ t + d ≤ now.
Proof. unfold duration_since, saturating_sub. lia. Qed.

(** The [Debug] text of a duration: the largest unit with a nonzero integer part
    and the fraction without its trailing zeros. *)
Fixpoint frac_digits (fuel : nat) (frac divisor : Z) : string :=
  match fuel with
  | O => ""
  | S fuel =>
      if 0 <? frac
      then pretty (Z.to_N (frac / divisor)) +:+ frac_digits fuel (frac mod divisor) (divisor / 10)
      else ""
  end.

Definition fmt_decimal (int frac divisor : Z) (unit : string) : string :=
  pretty (Z.to_N int) +:+ (if 0 <? frac then "." else "") +:+ frac_digits 9 frac divisor +:+ unit.

Definition duration_debug (d : Z) : string :=
  if 1000000000 <=? d then fmt_decimal (d / 1000000000) (d mod 1000000000) 100000000 "s"
  else if 1000000 <=? d then fmt_decimal (d / 1000000) (d mod 1000000) 100000 "ms"
  else if 1000 <=? d then fmt_decimal (d / 1000) (d mod 1000) 100 "µs"
  else fmt_decimal d 0 1 "ns".

(** ** Text

    A [str] is its UTF-8 bytes.  Slicing at a byte that continues a character
    panics, which is [None] here. *)

Definition str_len (s : string) : Z := Z.of_nat (String.length s).

Definition is_continuation (c : Ascii.ascii) : bool :=
  let b := Z.of_N (Ascii.N_of_ascii c) in (128 <=? b) && (b <? 192).

Definition is_char_boundary (s : string) (n : nat) : bool :=
  match String.get n s with
  | Some c => negb (is_continuation c)
  | None => Nat.eqb n (String.length s)
  end.

(** [&s[..n]] *)
Definition slice_to (s : string) (n : nat) : option string :=
  if is_char_boundary s n then Some (String.substring 0 n s) else None.

(** [format!("{}...", &s[..4093])] when the text is longer than 4096 bytes. *)
Definition truncate_4096 (s : string) : option string :=
  if 4096 <? str_len s then
    match slice_to s 4093 with Some p => Some (p +:+ "...") | None => None end
  else Some s.

Fixpoint chars (s : string) : list Ascii.ascii :=
  match s with EmptyString => [] | String c s => c :: chars s end.

Definition char_code (c : Ascii.ascii) : Z := Z.of_N (Ascii.N_of_ascii c).

Definition is_ascii_lowercase (c : Ascii.ascii) : bool := (97 <=? char_code c) && (char_code c <=? 122).
Definition is_ascii_digit (c : Ascii.ascii) : bool := (48 <=? char_code c) && (char_code c <=? 57).

(** [str::split] on one ASCII character: the pieces between its occurrences. *)
Fixpoint split_on (sep : Ascii.ascii) (s : string) : list string :=
  match s with
  | EmptyString => [""]
  | String c s =>
      if decide (c = sep) then "" :: split_on sep s
      else match split_on sep s with
           | p :: ps => String c p :: ps
           | [] => [String c ""]
           end
  end.

(** The digits of an unsigned integer, most significant first. *)
Fixpoint parse_digits (acc : Z) (l : list Ascii.ascii) : option Z :=
  match l with
  | [] => Some acc
  | c :: l => if is_ascii_digit c then parse_digits (acc * 10 + (char_code c - 48)) l else None
  end.

(** [str::parse] for an unsigned type with the given maximum: an optional plus sign,
    at least one digit, in range. *)
Definition parse_uint (max : Z) (s : string) : option Z :=
  let digits := match chars s with
                | [] => []
                | c :: l => if decide (c = "+"%char) then l else c :: l
                end in
  match digits with
  | [] => None
  | _ =>
      match parse_digits 0 digits with
      | Some n => if n <=? max then Some n else None
      | None => None
      end
  end.

Definition parse_u32 : string → option Z := parse_uint u32_max.
Definition parse_u64 : string → option Z := parse_uint u64_max.

Definition starts_with (pfx s : string) : bool := String.prefix pfx s.

(** [str::strip_prefix] *)
Definition strip_prefix (pfx s : string) : option string :=
  if starts_with pfx s
  then Some (String.substring (String.length pfx) (String.length s - String.length pfx) s)
  else None.

(** [str::strip_suffix] *)
Definition strip_suffix (sfx s : string) : option string :=
  let n := (String.length s - String.length sfx)%nat in
  if bool_decide (String.substring n (String.length sfx) s = sfx)
  then Some (String.substring 0 n s)
  else None.

(** [format!("{n:0width}")] *)
Fixpoint zeros (n : nat) : string := match n with O => "" | S n => String "0"%char (zeros n) end.
Definition zero_pad (width : nat) (n : Z) : string :=
  let s := pretty (Z.to_N n) in zeros (width - String.length s) +:+ s.

Definition is_empty (s : string) : bool := match s with EmptyString => true | _ => false end.

Lemma parse_digits_nonneg l acc n : 0 ≤ acc → parse_digits acc l = Some n → 0 ≤ n.
Proof.
  revert acc. induction l as [|c l IH]; cbn; intros acc Hacc; [congruence|].
  destruct (is_ascii_digit c) eqn:Hc; [|done]. apply IH.
  unfold is_ascii_digit in Hc. apply andb_prop in Hc as [H1%Z.leb_le _]. lia.
Qed.

Lemma parse_uint_range max s n : parse_uint max s = Some n → 0 ≤ n ≤ max.
Proof.
  unfold parse_uint. destruct (match chars s with [] => [] | _ => _ end) as [|c l]; [done|].
  destruct (parse_digits 0 (c :: l)) as [m|] eqn:Hm; [|done].
  apply parse_digits_nonneg in Hm; [|done].
  destruct (Z.leb_spec m max); [|done]. intros [= <-]. lia.
Qed.

(** [format!("{byte:02x}")] of each byte, collected *)
Definition hex_digit (n : Z) : string :=
  default "" (["0"; "1"; "2"; "3"; "4"; "5"; "6"; "7"; "8"; "9"; "a"; "b"; "c"; "d"; "e"; "f"]
                !! Z.to_nat n).

Fixpoint hex_encode (bytes : list Z) : string :=
  match bytes with
  | [] => ""
  | b :: bytes => hex_digit (b / 16) +:+ hex_digit (b mod 16) +:+ hex_encode bytes
  end.

(** [x as i64] of a [u64], and back *)
Definition as_i64 (z : Z) : Z := if z <=? 9223372036854775807 then z else z - (u64_max + 1).
Definition as_u64 (z : Z) : Z := wrap64 z.

Lemma is_empty_spec s : is_empty s = false ↔ s ≠ "".
Proof. by destruct s. Qed.

Lemma str_len_nonneg s : 0 ≤ str_len s.
Proof. unfold str_len. lia. Qed.

Lemma length_chars s : length (chars s) = String.length s.
Proof. induction s; cbn; congruence. Qed.

Lemma str_len_app s1 s2 : str_len (s1 +:+ s2) = str_len s1 + str_len s2.
Proof.
  unfold str_len. rewrite <-Nat2Z.inj_add. f_equal.
  induction s1 as [|c s1 IH]; [done|]. exact (f_equal S IH).
Qed.

Lemma length_substring_0 n s :
  (n ≤ String.length s)%nat → String.length (String.substring 0 n s) = n.
Proof.
  revert n. induction s as [|c s IH]; intros [|n] Hn; cbn in *; try done; [lia|].
  f_equal. apply IH. lia.
Qed.

(** Truncation keeps the text within 4096 bytes, unless it panics. *)
Lemma truncate_4096_len s s' : truncate_4096 s = Some s' → str_len s' ≤ 4096.
Proof.
  unfold truncate_4096. destruct (Z.ltb_spec 4096 (str_len s)) as [Hlt|Hle]; [|congruence].
  unfold slice_to. destruct is_char_boundary; [|congruence]. intros [= <-].
  rewrite str_len_app. unfold str_len in *. rewrite length_substring_0 by lia. cbn. lia.
Qed.

Lemma as_i64_inj a b : is_u64 a → is_u64 b → as_i64 a = as_i64 b → a = b.
Proof.
  unfold is_u64, as_i64, u64_max. intros ??. destruct (Z.leb_spec a 9223372036854775807),
    (Z.leb_spec b 9223372036854775807); lia.
Qed.

Lemma as_u64_i64 a : is_u64 a → as_u64 (as_i64 a) = a.
Proof.
  intros Ha. unfold as_u64, as_i64. destruct (Z.leb_spec a 9223372036854775807); [by apply wrap64_small|].
  unfold wrap64. rewrite <-(Z_mod_plus_full _ 1). replace (_ + _) with a by lia. by apply wrap64_small.
Qed.

Lemma substring_all s : String.substring 0 (String.length s) s = s.
Proof. induction s as [|c s IH]; cbn; congruence. Qed.

Lemma substring_app_l s1 s2 : String.substring 0 (String.length s1) (s1 +:+ s2) = s1.
Proof. induction s1 as [|c s1 IH]; cbn; [by destruct s2|]. exact (f_equal (String c) IH). Qed.

Lemma substring_app_r s1 s2 : String.substring (String.length s1) (String.length s2) (s1 +:+ s2) = s2.
Proof. induction s1 as [|c s1 IH]; cbn; [apply substring_all|done]. Qed.

Lemma length_string_app s1 s2 : String.length (s1 +:+ s2) = (String.length s1 + String.length s2)%nat.
Proof. induction s1 as [|c s1 IH]; [done|]. exact (f_equal S IH). Qed.

Lemma strip_prefix_app pfx s : strip_prefix pfx (pfx +:+ s) = Some s.
Proof.
  unfold strip_prefix, starts_with.
  assert (String.prefix pfx (pfx +:+ s) = true) as ->.
  { apply String.prefix_correct. apply substring_app_l. }
  rewrite length_string_app. replace (_ + _ - _)%nat with (String.length s) by lia.
  by rewrite substring_app_r.
Qed.

Lemma strip_suffix_app sfx s : strip_suffix sfx (s +:+ sfx) = Some s.
Proof.
  unfold strip_suffix. rewrite length_string_app. replace (_ + _ - _)%nat with (String.length s) by lia.
  rewrite substring_app_r, bool_decide_true by done. by rewrite substring_app_l.
Qed.

Lemma chars_app s1 s2 : chars (s1 +:+ s2) = chars s1 ++ chars s2.
Proof. induction s1 as [|c s1 IH]; [done|]. exact (f_equal (cons c) IH). Qed.

Lemma pretty_char_digit d : (d < 10)%N →
  is_ascii_digit (pretty_N_char d) = true ∧ char_code (pretty_N_char d) - 48 = Z.of_N d.
Proof.
  intros Hd. assert (d ∈ [0; 1; 2; 3; 4; 5; 6; 7; 8; 9]%N) as Hin.
  { destruct d as [|[[[[]|[]|]|[[]|[]|]|]|[[[]|[]|]|[[]|[]|]|]|]]; cbn; try lia; set_solver. }
  repeat (apply elem_of_cons in Hin as [->|Hin]; [by vm_compute|]). by apply elem_of_nil in Hin.
Qed.

Lemma parse_pretty_go x s : parse_digits 0 (chars (pretty_N_go x s)) = parse_digits (Z.of_N x) (chars s).
Proof.
  revert s. induction (N.lt_wf_0 x) as [x _ IH]. intros s. destruct (decide (x = 0)%N) as [->|Hx]; [done|].
  rewrite pretty_N_go_step by lia. rewrite IH by (apply N.div_lt; lia). cbn [chars parse_digits].
  destruct (pretty_char_digit (x `mod` 10)) as [-> ->]; [by apply N.mod_lt|]. f_equal.
  rewrite N2Z.inj_div, N2Z.inj_mod. pose proof (Z.div_mod (Z.of_N x) 10). lia.
Qed.

Lemma parse_zero_pad width n : is_u64 n → parse_u64 (zero_pad width n) = Some n.
Proof.
  intros Hn.
  assert (Hp : parse_digits 0 (chars (pretty (Z.to_N n))) = Some n).
  { destruct (decide (Z.to_N n = 0%N)) as [Hz|Hz].
    - rewrite Hz. unfold is_u64 in Hn. assert (n = 0) as -> by lia. done.
    - unfold pretty, pretty_N. rewrite decide_False by done. rewrite parse_pretty_go.
      unfold is_u64 in Hn. cbn. by rewrite Z2N.id by lia. }
  assert (Hz : parse_digits 0 (chars (zero_pad width n)) = Some n).
  { unfold zero_pad. rewrite chars_app. set (k := (_ - _)%nat). clearbody k.
    induction k as [|k IH]; [done|]. exact IH. }
  assert (Hne : chars (zero_pad width n) ≠ []).
  { unfold zero_pad. rewrite chars_app. intros [_ Hnil]%app_nil. revert Hnil.
    unfold pretty, pretty_N. case_decide as Hd; [done|]. intros Hnil.
    assert (Hlen : parse_digits 0 (chars (pretty_N_go (Z.to_N n) "")) = Some n).
    { rewrite parse_pretty_go. unfold is_u64 in Hn. cbn. by rewrite Z2N.id by lia. }
    rewrite Hnil in Hlen. cbn in Hlen. injection Hlen as <-. done. }
  unfold parse_u64, parse_uint. destruct (chars (zero_pad width n)) as [|c l]; [done|].
  cbn [parse_digits] in Hz. destruct (is_ascii_digit c) eqn:Hc; [|done].
  rewrite decide_False by (intros ->; done). cbn [parse_digits]. rewrite Hc, Hz.
  destruct (Z.leb_spec n u64_max); [done|]. unfold is_u64 in Hn. lia.
Qed.

Lemma hex_digit_range d : 0 ≤ d < 16 → d ∈ [0;1;2;3;4;5;6;7;8;9;10;11;12;13;14;15].
Proof. intros Hd. destruct d as [|[[[[]|[]|]|[[]|[]|]|]|[[[]|[]|]|[[]|[]|]|]|]|]; try lia; set_solver. Qed.

Lemma hex_digit_inj a b s s' :
  0 ≤ a < 16 → 0 ≤ b < 16 → hex_digit a +:+ s = hex_digit b +:+ s' → a = b ∧ s = s'.
Proof.
  intros Ha%hex_digit_range Hb%hex_digit_range.
  repeat (apply elem_of_cons in Ha as [->|Ha]; [
    repeat (apply elem_of_cons in Hb as [->|Hb]; [by (intros [=]; split)|]); by apply elem_of_nil in Hb|]).
  by apply elem_of_nil in Ha.
Qed.

Lemma hex_digit_nonempty d s : 0 ≤ d < 16 → hex_digit d +:+ s ≠ "".
Proof.
  intros Hd%hex_digit_range. repeat (apply elem_of_cons in Hd as [->|Hd]; [done|]). by apply elem_of_nil in Hd.
Qed.

Lemma hex_encode_inj l l' :
  Forall (λ b, 0 ≤ b < 256) l → Forall (λ b, 0 ≤ b < 256) l' → hex_encode l = hex_encode l' → l = l'.
Proof.
  assert (Hdiv : ∀ b, 0 ≤ b < 256 → 0 ≤ b / 16 < 16 ∧ 0 ≤ b mod 16 < 16).
  { intros b Hb. pose proof (Z.div_lt_upper_bound b 16 16). pose proof (Z.div_pos b 16).
    pose proof (Z.mod_pos_bound b 16). lia. }
  intros Hl. revert l'. induction Hl as [|b l Hb Hl IH]; intros l' Hl'; destruct Hl' as [|b' l' Hb' Hl']; cbn.
  - done.
  - intros Heq. by destruct (hex_digit_nonempty (b' / 16) (hex_digit (b' mod 16) +:+ hex_encode l') (proj1 (Hdiv b' Hb'))).
  - intros Heq. by destruct (hex_digit_nonempty (b / 16) (hex_digit (b mod 16) +:+ hex_encode l) (proj1 (Hdiv b Hb))).
  - intros Heq. destruct (Hdiv b Hb), (Hdiv b' Hb').
    apply hex_digit_inj in Heq as [Hq Heq]; [|done..]. apply hex_digit_inj in Heq as [Hr Heq]; [|done..].
    f_equal; [|by apply IH]. rewrite (Z.div_mod b 16), (Z.div_mod b' 16) by lia. lia.
Qed.

Lemma length_hex_encode l : Forall (λ b, 0 ≤ b < 256) l → String.length (hex_encode l) = (2 * length l)%nat.
Proof.
  assert (Hone : ∀ d, 0 ≤ d < 16 → String.length (hex_digit d) = 1%nat).
  { intros d Hd%hex_digit_range. repeat (apply elem_of_cons in Hd as [->|Hd]; [done|]). by apply elem_of_nil in Hd. }
  intros Hl. induction Hl as [|b l Hb _ IH]; [done|]. cbn [hex_encode]. rewrite !length_string_app, IH, !Hone.
  - cbn. lia.
  - pose proof (Z.mod_pos_bound b 16). lia.
  - pose proof (Z.div_lt_upper_bound b 16 16). pose proof (Z.div_pos b 16). lia.
Qed.

(** ** UTF-8

    The bytes of a well-formed character at the front of a slice, or the maximal
    ill-formed prefix: how many bytes and whether they are a character. *)

Definition is_cont_byte (b : Z) : bool := (128 <=? b) && (b <=? 191).

Definition second_byte_ok (b0 b1 : Z) : bool :=
  if b0 =? 224 then (160 <=? b1) && (b1 <=? 191)
  else if b0 =? 237 then (128 <=? b1) && (b1 <=? 159)
  else if b0 =? 240 then (144 <=? b1) && (b1 <=? 191)
  else if b0 =? 244 then (128 <=? b1) && (b1 <=? 143)
  else is_cont_byte b1.

Definition utf8_prefix (bs : list Z) : nat * bool :=
  let get i := default 0 (bs !! i) in
  let b0 := get 0%nat in
  if b0 <? 128 then (1%nat, true)
  else if (194 <=? b0) && (b0 <=? 223) then
    if is_cont_byte (get 1%nat) then (2%nat, true) else (1%nat, false)
  else if (224 <=? b0) && (b0 <=? 239) then
    if negb (second_byte_ok b0 (get 1%nat)) then (1%nat, false)
    else if is_cont_byte (get 2%nat) then (3%nat, true) else (2%nat, false)
  else if (240 <=? b0) && (b0 <=? 244) then
    if negb (second_byte_ok b0 (get 1%nat)) then (1%nat, false)
    else if negb (is_cont_byte (get 2%nat)) then (2%nat, false)
    else if is_cont_byte (get 3%nat) then (4%nat, true) else (3%nat, false)
  else (1%nat, false).

Definition string_of_bytes (bs : list Z) : string :=
  foldr (λ b s, String (Ascii.ascii_of_N (Z.to_N b)) s) "" bs.

(** The slice cut into characters and ill-formed parts; a part per byte is enough. *)
Fixpoint utf8_chunks (fuel : nat) (bs : list Z) : list (list Z * bool) :=
  match fuel, bs with
  | S fuel, _ :: _ => let '(n, ok) := utf8_prefix bs in (take n bs, ok) :: utf8_chunks fuel (drop n bs)
  | _, _ => []
  end.

(** [String::from_utf8_lossy] writes U+FFFD for every ill-formed part. *)
Definition from_utf8_lossy (bs : list Z) : string :=
  string_of_bytes (mjoin ((λ c : list Z * bool, if c.2 then c.1 else [239; 191; 189]) <$> utf8_chunks (length bs) bs)).

(** [String::from_utf8] *)
Definition from_utf8 (bs : list Z) : option string :=
  if forallb snd (utf8_chunks (length bs) bs) then Some (string_of_bytes bs) else None.

Lemma utf8_prefix_pos bs : (1 ≤ (utf8_prefix bs).1)%nat.
Proof. unfold utf8_prefix. repeat case_match; cbn; lia. Qed.

(** The parts make up the slice. *)
Lemma utf8_chunks_join bs fuel : (length bs ≤ fuel)%nat → mjoin (utf8_chunks fuel bs).*1 = bs.
Proof.
  revert bs. induction fuel as [|fuel IH]; intros [|b bs] Hlen; cbn [length] in *; try done; [lia|].
  cbn [utf8_chunks]. pose proof (utf8_prefix_pos (b :: bs)). destruct (utf8_prefix (b :: bs)) as [n ok].
  cbn [fst] in *. rewrite fmap_cons. cbn [mjoin list_join fst].
  unfold mjoin in IH. rewrite IH.
  - apply take_drop.
  - rewrite length_drop. cbn [length]. lia.
Qed.

Lemma from_utf8_lossy_valid bs s : from_utf8 bs = Some s → from_utf8_lossy bs = s.
Proof.
  unfold from_utf8, from_utf8_lossy. destruct (forallb _ _) eqn:Hall; [|done]. intros [= <-]. f_equal.
  rewrite <-(utf8_chunks_join bs (length bs)) at 3 by done. f_equal. apply list_fmap_ext.
  intros i [c ok] Hi. apply list_elem_of_lookup_2, list_elem_of_In in Hi. rewrite forallb_forall in Hall.
  apply Hall in Hi. cbn in *. by rewrite Hi.
Qed.

Lemma string_of_as_bytes s : string_of_bytes (as_bytes s) = s.
Proof.
  induction s as [|c s IH]; [done|]. cbn. f_equal; [|exact IH]. by rewrite N2Z.id, Ascii.ascii_N_embedding.
Qed.

(** ** Searching and trimming *)

(** [str::contains] with a string pattern. *)
Fixpoint str_contains (s pat : string) : bool :=
  String.prefix pat s || match s with EmptyString => false | String _ s => str_contains s pat end.

(** [str::trim]: the encodings of the characters with the property White_Space. *)
Definition white_space : list (list Z) :=
  [[9]; [10]; [11]; [12]; [13]; [32]; [194; 133]; [194; 160]; [225; 154; 128];
   [226; 128; 128]; [226; 128; 129]; [226; 128; 130]; [226; 128; 131]; [226; 128; 132]; [226; 128; 133];
   [226; 128; 134]; [226; 128; 135]; [226; 128; 136]; [226; 128; 137]; [226; 128; 138];
   [226; 128; 168]; [226; 128; 169]; [226; 128; 175]; [226; 129; 159]; [227; 128; 128]].

Fixpoint strip_bytes (pfx l : list Z) : option (list Z) :=
  match pfx, l with
  | [], _ => Some l
  | x :: pfx, y :: l => if x =? y then strip_bytes pfx l else None
  | _ :: _, [] => None
  end.

Fixpoint strip_white (fuel : nat) (encodings : list (list Z)) (l : list Z) : list Z :=
  match fuel with
  | O => l
  | S fuel =>
      match head (omap (λ w, strip_bytes w l) encodings) with
      | Some l' => strip_white fuel encodings l'
      | None => l
      end
  end.

Definition trim (s : list Z) : list Z :=
  let s := strip_white (length s) white_space s in
  reverse (strip_white (length s) (reverse <$> white_space) (reverse s)).

Definition trim_str (s : string) : string := string_of_bytes (trim (as_bytes s)).

(** [str::split_once] on one ASCII character. *)
Fixpoint split_once (sep : Ascii.ascii) (s : string) : option (string * string) :=
  match s with
  | EmptyString => None
  | String c s =>
      if decide (c = sep) then Some ("", s)
      else (λ kv, (String c kv.1, kv.2)) <$> split_once sep s
  end.

(** ** The order of texts *)

(** The comparison of bytes: byte by byte, a prefix first. *)
Fixpoint blob_le (a b : list Z) : bool :=
  match a, b with
  | [], _ => true
  | _ :: _, [] => false
  | x :: a, y :: b => (x <? y) || ((x =? y) && blob_le a b)
  end.

(** The order of [str]: byte by byte. *)
Definition str_le (a b : string) : bool := blob_le (as_bytes a) (as_bytes b).
Definition str_lt (a b : string) : bool := negb (str_le b a).

Lemma blob_le_refl a : blob_le a a = true.
Proof. induction a as [|x a IH]; cbn; [done|]. rewrite Z.ltb_irrefl, Z.eqb_refl. done. Qed.

Lemma blob_le_total a b : blob_le a b = true ∨ blob_le b a = true.
Proof.
  revert b. induction a as [|x a IH]; intros [|y b]; cbn; [auto..|].
  destruct (Z.ltb_spec x y), (Z.ltb_spec y x), (Z.eqb_spec x y), (Z.eqb_spec y x); cbn; auto; lia.
Qed.

Lemma blob_le_trans a b c : blob_le a b = true → blob_le b c = true → blob_le a c = true.
Proof.
  revert b c. induction a as [|x a IH]; intros [|y b] [|z c]; cbn; try done.
  destruct (Z.ltb_spec x y), (Z.ltb_spec y z), (Z.ltb_spec x z), (Z.eqb_spec x y), (Z.eqb_spec y z), (Z.eqb_spec x z);
    cbn; try done; try lia. apply IH.
Qed.

Lemma blob_le_antisymm a b : blob_le a b = true → blob_le b a = true → a = b.
Proof.
  revert b. induction a as [|x a IH]; intros [|y b]; cbn; try done.
  destruct (Z.ltb_spec x y), (Z.ltb_spec y x), (Z.eqb_spec x y), (Z.eqb_spec y x); cbn; try done; try lia.
  intros. subst. f_equal. auto.
Qed.

Lemma as_bytes_inj a b : as_bytes a = as_bytes b → a = b.
Proof. intros Heq. by rewrite <-(string_of_as_bytes a), Heq, string_of_as_bytes. Qed.

Definition text_le (a b : string) : Prop := str_le a b = true.
#[export] Instance text_le_dec : RelDecision text_le. Proof. intros a b. unfold text_le. apply _. Defined.
#[export] Instance text_le_total : Total text_le. Proof. intros a b. apply blob_le_total. Qed.
#[export] Instance text_le_trans : Transitive text_le. Proof. intros a b c. apply blob_le_trans. Qed.
#[export] Instance text_le_antisymm : AntiSymm (=) text_le.
Proof. intros a b Hab Hba. by apply as_bytes_inj, blob_le_antisymm. Qed.

(** [Vec<String>::sort] *)
Definition sort_texts (l : list string) : list string := merge_sort text_le l.

(** [Vec::dedup]: of equal neighbours, the first. *)
Fixpoint dedup (l : list string) : list string :=
  match l with
  | x :: (y :: _) as rest => if bool_decide (x = y) then dedup rest else x :: dedup rest
  | l => l
  end.

(** Sorting forgets the order. *)
Lemma sort_texts_perm l l' : l ≡ₚ l' → sort_texts l = sort_texts l'.
Proof.
  intros Hp. apply (StronglySorted_unique text_le); [apply StronglySorted_merge_sort; apply _..|].
  unfold sort_texts. by rewrite !merge_sort_Permutation.
Qed.

Lemma elem_of_dedup l x : x ∈ dedup l ↔ x ∈ l.
Proof.
  induction l as [|a [|b l] IH]; [done|done|]. cbn [dedup]. case_bool_decide as Hab.
  - rewrite IH. subst. set_solver.
  - rewrite !elem_of_cons, IH, elem_of_cons. done.
Qed.

(** ** Durations

    [Duration * u32] panics past the largest duration. *)
Definition DURATION_MAX : Z := from_secs u64_max + 999999999.
Definition duration_mul (d k : Z) : option Z := if d * k <=? DURATION_MAX then Some (d * k) else None.

(** ** Texts without separators or white space *)

Lemma split_on_app sep s t :
  sep ∉ chars s → split_on sep (s +:+ String sep t) = s :: split_on sep t.
Proof.
  induction s as [|c s IH]; intros Hs.
  - change ("" +:+ String sep t) with (String sep t). cbn -[decide]. by rewrite decide_True.
  - change (String c s +:+ String sep t) with (String c (s +:+ String sep t)). cbn -[decide] in *.
    rewrite decide_False by set_solver. by rewrite IH by set_solver.
Qed.

Lemma split_on_single sep s : sep ∉ chars s → split_on sep s = [s].
Proof.
  induction s as [|c s IH]; cbn -[decide]; intros Hs; [done|].
  rewrite decide_False by set_solver. by rewrite IH by set_solver.
Qed.

(** Printable ASCII other than the space. *)
Definition visible (c : Ascii.ascii) : Prop := 33 ≤ char_code c ≤ 126.

Lemma as_bytes_visible s : Forall visible (chars s) → Forall (λ b, 33 ≤ b ≤ 126) (as_bytes s).
Proof. induction s as [|c s IH]; cbn; intros Hs; [constructor|]. apply Forall_cons in Hs as [Hc Hs]. constructor; auto. Qed.

(** No white space begins, or ends, with such a character. *)
Definition no_visible (encodings : list (list Z)) : Prop :=
  Forall (λ w, match w with x :: _ => ¬ 33 ≤ x ≤ 126 | [] => False end) encodings.

Lemma strip_white_visible fuel encodings l :
  no_visible encodings → Forall (λ b, 33 ≤ b ≤ 126) l → strip_white fuel encodings l = l.
Proof.
  intros He Hl. destruct fuel as [|fuel]; [done|]. cbn [strip_white].
  replace (omap _ encodings) with (@nil (list Z)); [done|].
  induction He as [|[|x w] ws Hw _ IH]; [done..|]. destruct Hl as [|b l Hb Hl]; [exact IH|]. cbn in *.
  destruct (Z.eqb_spec x b) as [->|]; [by destruct Hw|]. exact IH.
Qed.

Lemma trim_visible l : Forall (λ b, 33 ≤ b ≤ 126) l → trim l = l.
Proof.
  intros Hl. unfold trim. rewrite (strip_white_visible _ white_space) by (done || (repeat constructor; lia)).
  rewrite strip_white_visible; [apply reverse_involutive| |by apply Forall_reverse].
  vm_compute. repeat constructor; intros []; congruence.
Qed.

Lemma trim_str_visible s : Forall visible (chars s) → trim_str s = s.
Proof. intros Hs. unfold trim_str. rewrite trim_visible by (by apply as_bytes_visible). apply string_of_as_bytes. Qed.

Lemma trim_str_space s : Forall visible (chars s) → trim_str (" " +:+ s) = s.
Proof. intros Hs. transitivity (trim_str s); [reflexivity|by apply trim_str_visible]. Qed.
