(* ===== verification/Float.v ===== *)
(** * IEEE arithmetic

    The few floating-point operations the code performs on Rust's [f32] and [f64],
    over the standard library's [spec_float]: conversion from [u64], widening,
    multiplication and addition in binary64, comparison, the saturating cast back to
    [u64], and [str::parse::<f32>]. *)

From Stdlib Require Import Ascii.
From Corelib Require Export SpecFloat.
From S2P Require Import Prelude Std.

Definition f64_of_Z (z : Z) : spec_float := binary_normalize 53 1024 z 0 false.

(** [u64 as f64]: round to nearest even. *)
Definition f64_of_u64 (n : Z) : spec_float := f64_of_Z n.

(** [f32 as f64] is exact. *)
Definition f64_of_f32 (x : spec_float) : spec_float :=
  match x with
  | S754_finite s m e => binary_normalize 53 1024 (if s then Z.neg m else Z.pos m) e s
  | _ => x
  end.

Definition f64_mul : spec_float → spec_float → spec_float := SFmul 53 1024.
Definition f64_add : spec_float → spec_float → spec_float := SFadd 53 1024.

(** Rust's [>=] on floats: false when an operand is NaN. *)
Definition f64_ge (x y : spec_float) : bool :=
  match SFcompare x y with Some Gt | Some Eq => true | _ => false end.

(** [f64 as u64]: truncate toward zero, saturate, NaN is 0. *)
Definition f64_to_u64 (x : spec_float) : Z :=
  match x with
  | S754_zero _ | S754_nan => 0
  | S754_infinity s => if s then 0 else u64_max
  | S754_finite true _ _ => 0
  | S754_finite false m e =>
      Z.min u64_max (if 0 <=? e then Z.pos m * 2 ^ e else Z.pos m / 2 ^ (- e))
  end.

Lemma f64_to_u64_range x : is_u64 (f64_to_u64 x).
Proof.
  unfold f64_to_u64, is_u64. destruct x as [s|s| |[] m e]; try destruct s; try solve_range.
  destruct (Z.leb_spec 0 e) as [He|He]; split; try apply Z.le_min_l; apply Z.min_glb; try solve_range.
  apply Z.div_pos; [lia|]. apply Z.pow_pos_nonneg; lia.
Qed.

(** Rust's [<=] and [>] on floats: false when an operand is NaN. *)
Definition f32_le (x y : spec_float) : bool :=
  match SFcompare x y with Some Lt | Some Eq => true | _ => false end.
Definition f32_gt (x y : spec_float) : bool :=
  match SFcompare x y with Some Gt => true | _ => false end.

(** Comparison is total away from NaN. *)
Lemma SFcompare_some x y : x ≠ S754_nan → y ≠ S754_nan → ∃ c, SFcompare x y = Some c.
Proof.
  intros Hx Hy. unfold SFcompare.
  destruct x, y; repeat case_match; try done; by eexists.
Qed.

Lemma f32_nan_dec x : x = S754_nan ∨ x ≠ S754_nan.
Proof. destruct x; by (left + right). Qed.

Definition f32_of_Z (z : Z) : spec_float := binary_normalize 24 128 z 0 false.

(** ** [str::parse::<f32>]

    An optional sign, then [inf], [infinity] or [nan] in any case, or digits with an
    optional point and an optional exponent; the value is rounded once, to nearest
    even, from the exact quotient. *)

Fixpoint take_digits (acc : Z) (n : nat) (l : list Ascii.ascii) : Z * nat * list Ascii.ascii :=
  match l with
  | c :: l' =>
      if is_ascii_digit c then take_digits (acc * 10 + (char_code c - 48)) (S n) l' else (acc, n, l)
  | [] => (acc, n, [])
  end.

Definition take_sign (l : list Ascii.ascii) : bool * list Ascii.ascii :=
  match l with
  | c :: l' =>
      if decide (c = "-"%char) then (true, l') else if decide (c = "+"%char) then (false, l') else (false, l)
  | [] => (false, [])
  end.

Definition ascii_lower (c : Ascii.ascii) : Ascii.ascii :=
  let n := char_code c in
  if (65 <=? n) && (n <=? 90) then Ascii.ascii_of_N (Z.to_N (n + 32)) else c.

Definition f32_of_decimal (neg : bool) (m e : Z) : spec_float :=
  match m * 10 ^ Z.max e 0, 10 ^ Z.max (- e) 0 with
  | Z.pos a, Z.pos b => SFdiv 24 128 (S754_finite neg a 0) (S754_finite false b 0)
  | _, _ => S754_zero neg
  end.

Definition parse_f32_number (neg : bool) (l : list Ascii.ascii) : option spec_float :=
  let '(i, ni, l) := take_digits 0 0 l in
  let '(m, nf, l) :=
    match l with
    | c :: r => if decide (c = "."%char) then take_digits i 0 r else (i, O, l)
    | [] => (i, O, [])
    end in
  if Nat.eqb (ni + nf) 0 then None
  else match l with
       | [] => Some (f32_of_decimal neg m (- Z.of_nat nf))
       | c :: r =>
           if decide (ascii_lower c = "e"%char) then
             let '(eneg, r) := take_sign r in
             match take_digits 0 0 r with
             | (_, O, _) | (_, _, _ :: _) => None
             | (x, _, []) => Some (f32_of_decimal neg m ((if eneg then - x else x) - Z.of_nat nf))
             end
           else None
       end.

Definition parse_f32 (s : string) : option spec_float :=
  let '(neg, l) := take_sign (chars s) in
  let word := ascii_lower <$> l in
  if decide (word = chars "inf") then Some (S754_infinity neg)
  else if decide (word = chars "infinity") then Some (S754_infinity neg)
  else if decide (word = chars "nan") then Some S754_nan
  else parse_f32_number neg l.

(** [f64 as f32]: round to nearest even. *)
Definition f32_of_f64 (x : spec_float) : spec_float :=
  match x with
  | S754_finite s m e => binary_normalize 24 128 (if s then Z.neg m else Z.pos m) e s
  | _ => x
  end.
