(* ===== verification/Proto.v ===== *)
(** * Wire types (wacp/proto, wacp-runtime: conversions.rs)

    The protocol-buffer enumerations and messages that the runtime's services and the
    console exchange, and the conversions between them and the types of the protocol
    crates.  An enumeration is carried as its 32-bit discriminant: [to_i32] is the
    cast, [try_from] the generated conversion back, and reading a field through its
    getter takes an unknown discriminant for the default, UNSPECIFIED.  The theorem
    shows that what the runtime sends is read back as what was meant. *)

From S2P Require Import Prelude Types.

(** A generated enumeration: its constructors in the order of their discriminants. *)
Class ProtoEnum (E : Type) := {
  proto_eq_dec :: EqDecision E;
  discriminants : list E;
}.

Definition try_from (E : Type) `{ProtoEnum E} (z : Z) : option E :=
  if z <? 0 then None else discriminants !! Z.to_nat z.

(** [x as i32] *)
Definition to_i32 {E} `{ProtoEnum E} (x : E) : Z :=
  match list_find (eq x) discriminants with
  | Some (i, _) => Z.of_nat i
  | None => -1
  end.

Module ProtoSignalType.
Inductive t : Set :=
| Unspecified | Ready | Started | Blocked | Checkpoint | Complete | Failed | Integrate
| Acknowledged | Escalation | Suspend | Migrate.
#[global] Instance t_dec : EqDecision t. Proof. solve_decision. Defined.
#[global] Instance enum : ProtoEnum t := {| discriminants :=
  [Unspecified; Ready; Started; Blocked; Checkpoint; Complete; Failed; Integrate;
   Acknowledged; Escalation; Suspend; Migrate] |}.
End ProtoSignalType.

Module ProtoWorkspaceState.
Inductive t : Set :=
| Unspecified | Idle | Active | Blocked | Suspended | Migrating | Integrating | Conflicted | Closed | Failed.
#[global] Instance t_dec : EqDecision t. Proof. solve_decision. Defined.
#[global] Instance enum : ProtoEnum t := {| discriminants :=
  [Unspecified; Idle; Active; Blocked; Suspended; Migrating; Integrating; Conflicted; Closed; Failed] |}.

(** The getter of a field of this type. *)
Definition get (z : Z) : t := default Unspecified (try_from t z).
End ProtoWorkspaceState.

Module ProtoTaskStatus.
Inductive t : Set :=
| Unspecified | Draft | Pending | Assigned | InProgress | Completed | Failed | Integrated | Cancelled.
#[global] Instance t_dec : EqDecision t. Proof. solve_decision. Defined.
#[global] Instance enum : ProtoEnum t := {| discriminants :=
  [Unspecified; Draft; Pending; Assigned; InProgress; Completed; Failed; Integrated; Cancelled] |}.
End ProtoTaskStatus.

Module ProtoCheckpointStatus.
Inductive t : Set := Unspecified | Provisional | Final.
#[global] Instance t_dec : EqDecision t. Proof. solve_decision. Defined.
#[global] Instance enum : ProtoEnum t := {| discriminants := [Unspecified; Provisional; Final] |}.
End ProtoCheckpointStatus.

Module ProtoConfidence.
Inductive t : Set := Unspecified | High | Medium | Low.
#[global] Instance t_dec : EqDecision t. Proof. solve_decision. Defined.
#[global] Instance enum : ProtoEnum t := {| discriminants := [Unspecified; High; Medium; Low] |}.
End ProtoConfidence.

Module ProtoEnvelopePriority.
Inductive t : Set := Unspecified | Normal | Urgent | Blocking.
#[global] Instance t_dec : EqDecision t. Proof. solve_decision. Defined.
#[global] Instance enum : ProtoEnum t := {| discriminants := [Unspecified; Normal; Urgent; Blocking] |}.
End ProtoEnvelopePriority.

Module ProtoEnvelopeOrigin.
Inductive t : Set := Unspecified | Agent | Human.
#[global] Instance t_dec : EqDecision t. Proof. solve_decision. Defined.
#[global] Instance enum : ProtoEnum t := {| discriminants := [Unspecified; Agent; Human] |}.
End ProtoEnvelopeOrigin.

Module ProtoGateDecision.
Inductive t : Set := Unspecified | Approve | Reject | Modify.
#[global] Instance t_dec : EqDecision t. Proof. solve_decision. Defined.
#[global] Instance enum : ProtoEnum t := {| discriminants := [Unspecified; Approve; Reject; Modify] |}.
End ProtoGateDecision.

Module ProtoGateType.
Inductive t : Set :=
| Unspecified | TaskApproval | WorkspaceCreate | EnvelopeDelivery | Integration | ConflictResolution
| WorkspaceAbort | CheckpointApproval.
#[global] Instance t_dec : EqDecision t. Proof. solve_decision. Defined.
#[global] Instance enum : ProtoEnum t := {| discriminants :=
  [Unspecified; TaskApproval; WorkspaceCreate; EnvelopeDelivery; Integration; ConflictResolution;
   WorkspaceAbort; CheckpointApproval] |}.

Definition get (z : Z) : t := default Unspecified (try_from t z).
End ProtoGateType.

(** ** Statuses of a call (tonic) *)

Module Code.
Inductive t : Set :=
| Ok | Cancelled | Unknown | InvalidArgument | DeadlineExceeded | NotFound | AlreadyExists
| PermissionDenied | ResourceExhausted | FailedPrecondition | Aborted | OutOfRange | Unimplemented
| Internal | Unavailable | DataLoss | Unauthenticated.
#[global] Instance t_dec : EqDecision t. Proof. solve_decision. Defined.
End Code.

Module Status.
Record t : Type := mk { code : Code.t; message : string }.
End Status.

(** ** Messages *)

Module ProtoTimestamp.
Record t : Type := mk { physical_us : Z; logical : Z }.
End ProtoTimestamp.

Module ProtoEnvelope.
Record t : Type := mk {
  id : string;
  from_workspace : string;
  to_workspace : string;
  type : string;
  payload : list Z;
  in_reply_to : string;
  timestamp : option ProtoTimestamp.t;
  priority : Z;
  origin : Z;
}.
End ProtoEnvelope.

Module ProtoTrailEntry.
Record t : Type := mk {
  id : string;
  timestamp : option ProtoTimestamp.t;
  workspace_id : string;
  actor : string;
  event_type : string;
  body : list Z;
  sequence_number : Z;
  chain_hash : list Z;
}.
End ProtoTrailEntry.

Module ProtoGateEvent.
Record t : Type := mk {
  gate_id : string;
  type : Z;
  subject : list Z;
  workspace_id : string;
  task_id : string;
  timeout_ms : Z;
  fallback_action : string;
  created_at : option ProtoTimestamp.t;
}.
End ProtoGateEvent.

Module ProtoEscalationEvent.
Record t : Type := mk {
  escalation_id : string;
  workspace_id : string;
  owner : string;
  context : list Z;
  created_at : option ProtoTimestamp.t;
}.
End ProtoEscalationEvent.

Module ProtoWorkspaceStateChange.
Record t : Type := mk {
  workspace_id : string;
  previous : Z;
  current : Z;
  trigger : string;
  timestamp : option ProtoTimestamp.t;
}.
End ProtoWorkspaceStateChange.

Module ProtoSignalEvent.
Record t : Type := mk {
  workspace_id : string;
  signal_type : Z;
  reason : string;
  context : list Z;
  timestamp : Z;
}.
End ProtoSignalEvent.

Module ProtoResourceBudget.
Record t : Type := mk {
  max_tokens : Z;
  max_wall_time_ms : Z;
  max_storage_bytes : Z;
  max_network_bytes : Z;
  max_cost_micros : Z;
  warning_threshold : spec_float;
}.
End ProtoResourceBudget.

Module ProtoWorkspaceView.
Record t : Type := mk {
  id : string;
  state : Z;
  role : string;
  parent : string;
  owner : string;
  originator : string;
  task_id : string;
  current_usage : option ResourceUsage;
  budget : option ProtoResourceBudget.t;
  checkpoint_count : Z;
  created_at : option ProtoTimestamp.t;
  last_activity : option ProtoTimestamp.t;
}.
End ProtoWorkspaceView.

(** The request id of a call is a fresh UUID that only comes back in its answer; it is
    left out where the answer carries nothing else. *)
Module TaskDefinition.
Record t : Type := mk {
  name : string;
  description : string;
  depends_on : list string;
  role : string;
  directive_payload : list Z;
  tools : list string;
}.
End TaskDefinition.

Module DispatchRequest.
Record t : Type := mk {
  task_id : string;
  role : string;
  directive_payload : list Z;
  tools : list string;
  budget : option ProtoResourceBudget.t;
}.
End DispatchRequest.

(** ** Conversions *)

Definition envelope_priority_to_proto (p : EnvelopePriority.t) : ProtoEnvelopePriority.t :=
  match p with
  | EnvelopePriority.Normal => ProtoEnvelopePriority.Normal
  | EnvelopePriority.Urgent => ProtoEnvelopePriority.Urgent
  | EnvelopePriority.Blocking => ProtoEnvelopePriority.Blocking
  end.

Definition envelope_origin_to_proto (o : EnvelopeOrigin.t) : ProtoEnvelopeOrigin.t :=
  match o with
  | EnvelopeOrigin.Agent => ProtoEnvelopeOrigin.Agent
  | EnvelopeOrigin.Human => ProtoEnvelopeOrigin.Human
  end.

Definition envelope_to_proto (envelope : Envelope) : ProtoEnvelope.t :=
  ProtoEnvelope.mk (env_id envelope) (env_from_workspace envelope) (env_to_workspace envelope)
    (env_envelope_type envelope) (env_payload envelope) (default "" (env_in_reply_to envelope)) None
    (to_i32 (envelope_priority_to_proto (env_priority envelope)))
    (to_i32 (envelope_origin_to_proto (env_origin envelope))).

Definition proto_to_checkpoint_status (s : ProtoCheckpointStatus.t) : CheckpointStatus.t :=
  match s with
  | ProtoCheckpointStatus.Unspecified | ProtoCheckpointStatus.Provisional => CheckpointStatus.Provisional
  | ProtoCheckpointStatus.Final => CheckpointStatus.Final
  end.

Definition proto_to_confidence (c : ProtoConfidence.t) : Confidence.t :=
  match c with
  | ProtoConfidence.Unspecified | ProtoConfidence.High => Confidence.High
  | ProtoConfidence.Medium => Confidence.Medium
  | ProtoConfidence.Low => Confidence.Low
  end.

Definition proto_to_signal_type (t : ProtoSignalType.t) : SignalType.t :=
  match t with
  | ProtoSignalType.Unspecified | ProtoSignalType.Ready => SignalType.Ready
  | ProtoSignalType.Started => SignalType.Started
  | ProtoSignalType.Blocked => SignalType.Blocked
  | ProtoSignalType.Checkpoint => SignalType.Checkpoint
  | ProtoSignalType.Complete => SignalType.Complete
  | ProtoSignalType.Failed => SignalType.Failed
  | ProtoSignalType.Integrate => SignalType.Integrate
  | ProtoSignalType.Acknowledged => SignalType.Acknowledged
  | ProtoSignalType.Escalation => SignalType.Escalation
  | ProtoSignalType.Suspend => SignalType.Suspend
  | ProtoSignalType.Migrate => SignalType.Migrate
  end.

Definition gate_type_to_proto (gt : GateType.t) : ProtoGateType.t :=
  match gt with
  | GateType.TaskApproval => ProtoGateType.TaskApproval
  | GateType.WorkspaceCreate => ProtoGateType.WorkspaceCreate
  | GateType.EnvelopeDelivery => ProtoGateType.EnvelopeDelivery
  | GateType.Integration => ProtoGateType.Integration
  | GateType.ConflictResolution => ProtoGateType.ConflictResolution
  | GateType.WorkspaceAbort => ProtoGateType.WorkspaceAbort
  | GateType.CheckpointApproval => ProtoGateType.CheckpointApproval
  end.

Definition workspace_state_to_proto (ws : WorkspaceState.t) : ProtoWorkspaceState.t :=
  match ws with
  | WorkspaceState.Idle => ProtoWorkspaceState.Idle
  | WorkspaceState.Active => ProtoWorkspaceState.Active
  | WorkspaceState.Blocked => ProtoWorkspaceState.Blocked
  | WorkspaceState.Suspended => ProtoWorkspaceState.Suspended
  | WorkspaceState.Migrating => ProtoWorkspaceState.Migrating
  | WorkspaceState.Integrating => ProtoWorkspaceState.Integrating
  | WorkspaceState.Conflicted => ProtoWorkspaceState.Conflicted
  | WorkspaceState.Closed => ProtoWorkspaceState.Closed
  | WorkspaceState.Failed => ProtoWorkspaceState.Failed
  end.

Definition signal_type_to_proto (st : SignalType.t) : ProtoSignalType.t :=
  match st with
  | SignalType.Ready => ProtoSignalType.Ready
  | SignalType.Started => ProtoSignalType.Started
  | SignalType.Blocked => ProtoSignalType.Blocked
  | SignalType.Checkpoint => ProtoSignalType.Checkpoint
  | SignalType.Complete => ProtoSignalType.Complete
  | SignalType.Failed => ProtoSignalType.Failed
  | SignalType.Integrate => ProtoSignalType.Integrate
  | SignalType.Acknowledged => ProtoSignalType.Acknowledged
  | SignalType.Escalation => ProtoSignalType.Escalation
  | SignalType.Suspend => ProtoSignalType.Suspend
  | SignalType.Migrate => ProtoSignalType.Migrate
  end.

Definition task_status_to_proto (ts : TaskStatus.t) : ProtoTaskStatus.t :=
  match ts with
  | TaskStatus.Draft => ProtoTaskStatus.Draft
  | TaskStatus.Pending => ProtoTaskStatus.Pending
  | TaskStatus.Assigned => ProtoTaskStatus.Assigned
  | TaskStatus.InProgress => ProtoTaskStatus.InProgress
  | TaskStatus.Completed => ProtoTaskStatus.Completed
  | TaskStatus.Failed => ProtoTaskStatus.Failed
  | TaskStatus.Integrated => ProtoTaskStatus.Integrated
  | TaskStatus.Cancelled => ProtoTaskStatus.Cancelled
  end.

Definition budget_to_proto (budget : ResourceBudget) : ProtoResourceBudget.t :=
  ProtoResourceBudget.mk (default 0 (budget_max_tokens budget)) (default 0 (budget_max_wall_time_ms budget))
    (default 0 (budget_max_storage_bytes budget)) (default 0 (budget_max_network_bytes budget))
    (default 0 (budget_max_cost_micros budget)) (budget_warning_threshold budget).

(** ** Theory *)

Section Enums.
Context {E : Type} `{ProtoEnum E}.

(** An enumeration all of whose constructors have a discriminant of their own. *)
Definition enumerates : Prop := NoDup (discriminants (E := E)) ∧ ∀ x : E, x ∈ discriminants.

Lemma try_from_to_i32 (x : E) : enumerates → try_from E (to_i32 x) = Some x.
Proof.
  intros [Hnd Hall]. unfold try_from, to_i32.
  destruct (list_find_elem_of (eq x) discriminants x (Hall x) eq_refl) as [[i y] Hf]. rewrite Hf.
  apply list_find_Some in Hf as (Hi & <- & _).
  destruct (Z.ltb_spec (Z.of_nat i) 0); [lia|]. by rewrite Nat2Z.id.
Qed.

Lemma to_i32_try_from z (x : E) : enumerates → try_from E z = Some x → to_i32 x = z.
Proof.
  intros [Hnd Hall]. unfold try_from, to_i32. destruct (Z.ltb_spec z 0); [done|]. intros Hx.
  destruct (list_find_elem_of (eq x) discriminants x (Hall x) eq_refl) as [[i y] Hf]. rewrite Hf.
  apply list_find_Some in Hf as (Hi & <- & _).
  rewrite (NoDup_lookup _ _ _ _ Hnd Hi Hx). lia.
Qed.
End Enums.

Ltac enumerates := split; [repeat constructor; set_solver|intros []; set_solver].

Lemma signal_types : enumerates (E := ProtoSignalType.t). Proof. enumerates. Qed.
Lemma workspace_states : enumerates (E := ProtoWorkspaceState.t). Proof. enumerates. Qed.
Lemma gate_types : enumerates (E := ProtoGateType.t). Proof. enumerates. Qed.
Lemma checkpoint_statuses : enumerates (E := ProtoCheckpointStatus.t). Proof. enumerates. Qed.

(** A state the runtime sends is the state the client reads. *)
Lemma workspace_state_wire ws :
  ProtoWorkspaceState.get (to_i32 (workspace_state_to_proto ws)) = workspace_state_to_proto ws.
Proof. unfold ProtoWorkspaceState.get. by rewrite try_from_to_i32 by apply workspace_states. Qed.

Lemma gate_type_wire gt : ProtoGateType.get (to_i32 (gate_type_to_proto gt)) = gate_type_to_proto gt.
Proof. unfold ProtoGateType.get. by rewrite try_from_to_i32 by apply gate_types. Qed.

Lemma signal_type_wire st :
  proto_to_signal_type <$> try_from ProtoSignalType.t (to_i32 (signal_type_to_proto st)) = Some st.
Proof. rewrite try_from_to_i32 by apply signal_types. by destruct st. Qed.
