(* ===== verification/Fsm.v ===== *)
(** * State machines (crate wacp-fsm)

    The [StateMachine] trait is a class with one operation; the workspace,
    envelope and task lifecycles are its instances.  [run] closes an instance
    under successful transitions, and the theorems are about every run of it. *)

From S2P Require Import Prelude Types.

Inductive TransitionError : Set :=
| IllegalTransition (state trigger : string)
| TerminalState (state : string).

(** The [Display] text of an error. *)
Definition transition_error_display (e : TransitionError) : string :=
  match e with
  | IllegalTransition state trigger => "illegal transition: " +:+ state +:+ " + " +:+ trigger
  | TerminalState state => "terminal state: " +:+ state +:+ " rejects all triggers"
  end.

(** The trait, with the derived [Debug] text of the associated types. *)
Class StateMachine (State Trigger : Type) := {
  transition : State → Trigger → result State TransitionError;
}.

(** ** Workspace lifecycle *)

Module WorkspaceTrigger.
Inductive t : Set :=
| AgentReady | AgentStarted | AgentBlocked | AgentComplete | AgentFailed
| ReceiveFirstEnvelope | CoordinatorAbort | CoordinatorSuspend
| CoordinatorResume | CoordinatorMigrate | MigrationSucceeded
| MigrationSucceededBlocked | MigrationFailed
| IntegrationSucceeded | IntegrationFailed | ConflictDetected
| ConflictResolved | ConflictUnresolvable
| TimeoutExceeded | BudgetExceeded | CreationError.

#[global] Instance eq_dec : EqDecision t.
Proof. solve_decision. Defined.

Definition debug (x : t) : string :=
  match x with
  | AgentReady => "AgentReady" | AgentStarted => "AgentStarted"
  | AgentBlocked => "AgentBlocked" | AgentComplete => "AgentComplete"
  | AgentFailed => "AgentFailed" | ReceiveFirstEnvelope => "ReceiveFirstEnvelope"
  | CoordinatorAbort => "CoordinatorAbort" | CoordinatorSuspend => "CoordinatorSuspend"
  | CoordinatorResume => "CoordinatorResume" | CoordinatorMigrate => "CoordinatorMigrate"
  | MigrationSucceeded => "MigrationSucceeded"
  | MigrationSucceededBlocked => "MigrationSucceededBlocked"
  | MigrationFailed => "MigrationFailed" | IntegrationSucceeded => "IntegrationSucceeded"
  | IntegrationFailed => "IntegrationFailed" | ConflictDetected => "ConflictDetected"
  | ConflictResolved => "ConflictResolved" | ConflictUnresolvable => "ConflictUnresolvable"
  | TimeoutExceeded => "TimeoutExceeded" | BudgetExceeded => "BudgetExceeded"
  | CreationError => "CreationError"
  end.
End WorkspaceTrigger.

Module WorkspaceFsm.
Import WorkspaceState WorkspaceTrigger.

Definition transition (state : WorkspaceState.t) (trigger : WorkspaceTrigger.t)
    : result WorkspaceState.t TransitionError :=
  if is_terminal state then Err (TerminalState (WorkspaceState.debug state)) else
  match state, trigger with
  | Idle, ReceiveFirstEnvelope => Ok Active
  | Idle, (CreationError | TimeoutExceeded | CoordinatorAbort | BudgetExceeded) => Ok Failed
  | Active, AgentBlocked => Ok Blocked
  | Active, CoordinatorMigrate => Ok Migrating
  | Active, CoordinatorSuspend => Ok Suspended
  | Active, AgentComplete => Ok Integrating
  | Active, (AgentFailed | CoordinatorAbort | TimeoutExceeded | BudgetExceeded) => Ok Failed
  | Blocked, AgentStarted => Ok Active
  | Blocked, CoordinatorMigrate => Ok Migrating
  | Blocked, CoordinatorSuspend => Ok Suspended
  | Blocked, (CoordinatorAbort | TimeoutExceeded | BudgetExceeded) => Ok Failed
  | Migrating, MigrationSucceeded => Ok Active
  | Migrating, MigrationSucceededBlocked => Ok Blocked
  | Migrating, (MigrationFailed | CoordinatorAbort) => Ok Failed
  | Suspended, CoordinatorResume => Ok Active
  | Suspended, CoordinatorAbort => Ok Failed
  | Integrating, IntegrationSucceeded => Ok Closed
  | Integrating, ConflictDetected => Ok Conflicted
  | Integrating, IntegrationFailed => Ok Failed
  | Conflicted, ConflictResolved => Ok Closed
  | Conflicted, ConflictUnresolvable => Ok Failed
  | _, _ => Err (IllegalTransition (WorkspaceState.debug state) (WorkspaceTrigger.debug trigger))
  end.
End WorkspaceFsm.

#[global] Instance workspace_fsm : StateMachine WorkspaceState.t WorkspaceTrigger.t :=
  {| transition := WorkspaceFsm.transition |}.

(** ** Envelope lifecycle *)

Module EnvelopeTrigger.
Inductive t : Set := Submit | ValidationPassed | ValidationFailed | Deliver | Acknowledge.

Definition debug (x : t) : string :=
  match x with
  | Submit => "Submit" | ValidationPassed => "ValidationPassed"
  | ValidationFailed => "ValidationFailed" | Deliver => "Deliver"
  | Acknowledge => "Acknowledge"
  end.
End EnvelopeTrigger.

Module EnvelopeFsm.
Import EnvelopeState EnvelopeTrigger.

Definition transition (state : EnvelopeState.t) (trigger : EnvelopeTrigger.t)
    : result EnvelopeState.t TransitionError :=
  match state with
  | Acknowledged | Rejected => Err (TerminalState (EnvelopeState.debug state))
  | _ =>
    match state, trigger with
    | Created, ValidationPassed => Ok Validated
    | Created, ValidationFailed => Ok Rejected
    | Validated, Deliver => Ok Delivered
    | Delivered, Acknowledge => Ok Acknowledged
    | _, _ => Err (IllegalTransition (EnvelopeState.debug state) (EnvelopeTrigger.debug trigger))
    end
  end.
End EnvelopeFsm.

#[global] Instance envelope_fsm : StateMachine EnvelopeState.t EnvelopeTrigger.t :=
  {| transition := EnvelopeFsm.transition |}.

(** ** Task lifecycle *)

Module TaskTrigger.
Inductive t : Set := Approve | Assign | Start | Complete | Fail | Integrate | Cancel.

Definition debug (x : t) : string :=
  match x with
  | Approve => "Approve" | Assign => "Assign" | Start => "Start"
  | Complete => "Complete" | Fail => "Fail" | Integrate => "Integrate"
  | Cancel => "Cancel"
  end.
End TaskTrigger.

Module TaskFsm.
Import TaskStatus TaskTrigger.

Definition transition (state : TaskStatus.t) (trigger : TaskTrigger.t)
    : result TaskStatus.t TransitionError :=
  match state with
  | Integrated | Cancelled => Err (TerminalState (TaskStatus.debug state))
  | _ =>
    match state, trigger with
    | Draft, Approve => Ok Pending
    | Draft, Cancel => Ok Cancelled
    | Pending, Assign => Ok Assigned
    | Pending, Cancel => Ok Cancelled
    | Assigned, Start => Ok InProgress
    | Assigned, Cancel => Ok Cancelled
    | InProgress, TaskTrigger.Complete => Ok Completed
    | InProgress, TaskTrigger.Fail => Ok Failed
    | InProgress, Cancel => Ok Cancelled
    | Completed, Integrate => Ok Integrated
    | Completed, TaskTrigger.Fail => Ok Failed
    | Failed, Assign => Ok Assigned
    | _, _ => Err (IllegalTransition (TaskStatus.debug state) (TaskTrigger.debug trigger))
    end
  end.
End TaskFsm.

#[global] Instance task_fsm : StateMachine TaskStatus.t TaskTrigger.t :=
  {| transition := TaskFsm.transition |}.

(** ** Runs

    A caller applies triggers one after another; a refused trigger leaves the
    state alone (the workspace actor and the task graph both do this). *)

Section runs.
Context {St T : Type} `{StateMachine St T}.

Definition apply_trigger (s : St) (t : T) : St :=
  match transition s t with Ok s' => s' | Err _ => s end.

Definition run (s : St) (ts : list T) : St := fold_left apply_trigger ts s.

Fixpoint accepted (s : St) (ts : list T) : nat :=
  match ts with
  | [] => 0%nat
  | t :: ts =>
      match transition s t with
      | Ok s' => S (accepted s' ts)
      | Err _ => accepted s ts
      end
  end.

Lemma run_app s ts1 ts2 : run s (ts1 ++ ts2) = run (run s ts1) ts2.
Proof. apply fold_left_app. Qed.

(** A provenance table gives, for each state, the trigger sequences one of which
    every run into that state must contain in order. *)
Lemma run_provenance (prov : St → list (list T)) s0 :
  [] ∈ prov s0 →
  (∀ s t s' l, transition s t = Ok s' → l ∈ prov s →
     ∃ l', l' ∈ prov s' ∧ l' `sublist_of` (l ++ [t])) →
  ∀ ts, ∃ l, l ∈ prov (run s0 ts) ∧ l `sublist_of` ts.
Proof.
  intros H0 Hstep ts. induction ts as [|t ts (l & Hl & Hsub)] using rev_ind.
  { exists []. split; [exact H0|constructor]. }
  rewrite run_app. cbn. unfold apply_trigger.
  destruct (transition (run s0 ts) t) as [s'|e] eqn:Ht.
  - destruct (Hstep _ _ _ _ Ht Hl) as (l' & Hl' & Hsub'). exists l'. split; [exact Hl'|].
    etrans; [exact Hsub'|]. by apply sublist_app.
  - exists l. split; [exact Hl|]. by apply sublist_inserts_r.
Qed.

(** A rank that every transition raises bounds the accepted triggers. *)
Lemma accepted_bounded (rank : St → nat) (bound : nat) :
  (∀ s, (rank s ≤ bound)%nat) →
  (∀ s t s', transition s t = Ok s' → (rank s < rank s')%nat) →
  ∀ ts s, (rank s + accepted s ts ≤ bound)%nat.
Proof.
  intros Hb Hr. induction ts as [|t ts IH]; intros s; cbn.
  { rewrite Nat.add_0_r. apply Hb. }
  destruct (transition s t) as [s'|e] eqn:Ht; [|apply IH].
  specialize (Hr _ _ _ Ht). specialize (IH s'). lia.
Qed.
End runs.

(** [fsm_cases] decides a statement about all states and triggers of a machine. *)
Ltac fsm_cases :=
  repeat match goal with
  | s : WorkspaceState.t |- _ => destruct s
  | s : EnvelopeState.t |- _ => destruct s
  | s : TaskStatus.t |- _ => destruct s
  | t : WorkspaceTrigger.t |- _ => destruct t
  | t : EnvelopeTrigger.t |- _ => destruct t
  | t : TaskTrigger.t |- _ => destruct t
  end; try discriminate.

Definition workspace_provenance (s : WorkspaceState.t) : list (list WorkspaceTrigger.t) :=
  let first := WorkspaceTrigger.ReceiveFirstEnvelope in
  let complete := WorkspaceTrigger.AgentComplete in
  match s with
  | WorkspaceState.Idle | WorkspaceState.Failed => [[]]
  | WorkspaceState.Active | WorkspaceState.Blocked | WorkspaceState.Suspended
  | WorkspaceState.Migrating => [[first]]
  | WorkspaceState.Integrating => [[first; complete]]
  | WorkspaceState.Conflicted => [[first; complete; WorkspaceTrigger.ConflictDetected]]
  | WorkspaceState.Closed =>
      [[first; complete; WorkspaceTrigger.IntegrationSucceeded];
       [first; complete; WorkspaceTrigger.ConflictDetected; WorkspaceTrigger.ConflictResolved]]
  end.

Definition task_provenance (s : TaskStatus.t) : list (list TaskTrigger.t) :=
  let started := [TaskTrigger.Approve; TaskTrigger.Assign; TaskTrigger.Start] in
  match s with
  | TaskStatus.Draft => [[]]
  | TaskStatus.Pending => [[TaskTrigger.Approve]]
  | TaskStatus.Assigned => [[TaskTrigger.Approve; TaskTrigger.Assign]]
  | TaskStatus.InProgress | TaskStatus.Failed => [started]
  | TaskStatus.Completed => [started ++ [TaskTrigger.Complete]]
  | TaskStatus.Integrated => [started ++ [TaskTrigger.Complete; TaskTrigger.Integrate]]
  | TaskStatus.Cancelled => [[TaskTrigger.Cancel]]
  end.

(** Closes [l `sublist_of` l'] for concrete lists. *)
Ltac solve_sublist :=
  repeat first
    [ apply sublist_nil_l | apply sublist_skip | apply sublist_cons ].

Lemma workspace_provenance_step s t s' l :
  transition s t = Ok s' → l ∈ workspace_provenance s →
  ∃ l', l' ∈ workspace_provenance s' ∧ l' `sublist_of` (l ++ [t]).
Proof.
  intros Ht Hl. fsm_cases; cbn in Hl;
    repeat (apply elem_of_cons in Hl as [->|Hl]); try (by apply not_elem_of_nil in Hl);
    first [ by (eexists; split; [left|cbn; solve_sublist])
          | by (eexists; split; [right; left|cbn; solve_sublist]) ].
Qed.

Lemma task_provenance_step s t s' l :
  transition s t = Ok s' → l ∈ task_provenance s →
  ∃ l', l' ∈ task_provenance s' ∧ l' `sublist_of` (l ++ [t]).
Proof.
  intros Ht Hl. fsm_cases; cbn in Hl;
    repeat (apply elem_of_cons in Hl as [->|Hl]); try (by apply not_elem_of_nil in Hl);
    by (eexists; split; [left|cbn; solve_sublist]).
Qed.

(** ** Properties *)

(**  Terminal workspace states are absorbing and are the only ones that are:
    a state rejects every trigger with [TerminalState] exactly when it is Closed
    or Failed, no run leaves it, and every other state accepts some trigger that
    fails the workspace and can be driven to Closed by at most three triggers. *)
Theorem workspace_terminal_states (s : WorkspaceState.t) :
  if WorkspaceState.is_terminal s
  then (∀ t, WorkspaceFsm.transition s t = Err (TerminalState (WorkspaceState.debug s)))
       ∧ ∀ ts, run s ts = s
  else (∃ t, WorkspaceFsm.transition s t = Ok WorkspaceState.Failed)
       ∧ ∃ ts, (length ts ≤ 3)%nat ∧ run s ts = WorkspaceState.Closed.
Proof.
  destruct (WorkspaceState.is_terminal s) eqn:Hs.
  - assert (∀ t, WorkspaceFsm.transition s t = Err (TerminalState (WorkspaceState.debug s)))
      as Herr by (intros t; unfold WorkspaceFsm.transition; by rewrite Hs).
    split; [exact Herr|]. induction ts as [|t ts IH]; [done|].
    cbn. unfold apply_trigger at 2. cbn. by rewrite Herr.
  - split.
    + destruct s; try discriminate; first
        [ by exists WorkspaceTrigger.CoordinatorAbort
        | by exists WorkspaceTrigger.IntegrationFailed
        | by exists WorkspaceTrigger.ConflictUnresolvable ].
    + pose (finish := [WorkspaceTrigger.AgentComplete; WorkspaceTrigger.IntegrationSucceeded]).
      destruct s; try discriminate.
      * by exists (WorkspaceTrigger.ReceiveFirstEnvelope :: finish).
      * exists finish. split; [cbn; lia|done].
      * by exists (WorkspaceTrigger.AgentStarted :: finish).
      * by exists (WorkspaceTrigger.CoordinatorResume :: finish).
      * by exists (WorkspaceTrigger.MigrationSucceeded :: finish).
      * exists [WorkspaceTrigger.IntegrationSucceeded]. split; [cbn; lia|done].
      * exists [WorkspaceTrigger.ConflictResolved]. split; [cbn; lia|done].
Qed.

(**  A workspace is Closed only through integration: whatever triggers arrive,
    a run from Idle that ends in Closed received its first envelope, then the
    agent's completion, then either a successful integration or a detected and
    later resolved conflict, in that order. *)
Theorem workspace_closed_through_integration (ts : list WorkspaceTrigger.t) :
  run WorkspaceState.Idle ts = WorkspaceState.Closed →
  [WorkspaceTrigger.ReceiveFirstEnvelope; WorkspaceTrigger.AgentComplete;
   WorkspaceTrigger.IntegrationSucceeded] `sublist_of` ts
  ∨ [WorkspaceTrigger.ReceiveFirstEnvelope; WorkspaceTrigger.AgentComplete;
     WorkspaceTrigger.ConflictDetected; WorkspaceTrigger.ConflictResolved] `sublist_of` ts.
Proof.
  intros Hrun.
  destruct (run_provenance workspace_provenance WorkspaceState.Idle) with (ts := ts)
    as (l & Hl & Hsub); [by left|apply workspace_provenance_step|].
  rewrite Hrun in Hl. cbn in Hl.
  apply elem_of_cons in Hl as [-> | ->%list_elem_of_singleton]; auto.
Qed.

Lemma workspace_closed_through_integration_witness :
  run WorkspaceState.Idle
    [WorkspaceTrigger.AgentStarted; WorkspaceTrigger.ReceiveFirstEnvelope;
     WorkspaceTrigger.AgentComplete; WorkspaceTrigger.IntegrationSucceeded]
    = WorkspaceState.Closed
  ∧ ([WorkspaceTrigger.ReceiveFirstEnvelope; WorkspaceTrigger.AgentComplete;
      WorkspaceTrigger.IntegrationSucceeded] `sublist_of`
     [WorkspaceTrigger.AgentStarted; WorkspaceTrigger.ReceiveFirstEnvelope;
      WorkspaceTrigger.AgentComplete; WorkspaceTrigger.IntegrationSucceeded]
    ∨ [WorkspaceTrigger.ReceiveFirstEnvelope; WorkspaceTrigger.AgentComplete;
       WorkspaceTrigger.ConflictDetected; WorkspaceTrigger.ConflictResolved] `sublist_of`
      [WorkspaceTrigger.AgentStarted; WorkspaceTrigger.ReceiveFirstEnvelope;
       WorkspaceTrigger.AgentComplete; WorkspaceTrigger.IntegrationSucceeded]).
Proof. split; [reflexivity|]. apply workspace_closed_through_integration. reflexivity. Defined.

(**  A task is Integrated only after it was approved, assigned, started,
    completed and integrated in that order, however often it failed and was
    reassigned in between; and a Cancelled task was cancelled. *)
Theorem task_integrated_provenance (ts : list TaskTrigger.t) :
  match run TaskStatus.Draft ts with
  | TaskStatus.Integrated =>
      [TaskTrigger.Approve; TaskTrigger.Assign; TaskTrigger.Start;
       TaskTrigger.Complete; TaskTrigger.Integrate] `sublist_of` ts
  | TaskStatus.Cancelled => TaskTrigger.Cancel ∈ ts
  | _ => True
  end.
Proof.
  destruct (run_provenance task_provenance TaskStatus.Draft) with (ts := ts)
    as (l & Hl & Hsub); [by left|apply task_provenance_step|].
  destruct (run TaskStatus.Draft ts); try done; cbn in Hl;
    apply list_elem_of_singleton in Hl as ->; [done|by apply singleton_sublist_l].
Qed.

(**  An envelope makes at most three lifecycle transitions, and is delivered
    only after its validation passed. *)
Theorem envelope_runs_bounded (ts : list EnvelopeTrigger.t) :
  (accepted EnvelopeState.Created ts ≤ 3)%nat
  ∧ (run EnvelopeState.Created ts ∈ [EnvelopeState.Delivered; EnvelopeState.Acknowledged] →
     [EnvelopeTrigger.ValidationPassed; EnvelopeTrigger.Deliver] `sublist_of` ts).
Proof.
  split.
  - refine (accepted_bounded (λ s, match s with
      | EnvelopeState.Created => 0 | EnvelopeState.Validated => 1
      | EnvelopeState.Delivered => 2 | _ => 3 end)%nat 3 _ _ ts EnvelopeState.Created).
    + intros []; lia.
    + intros s t s' Ht. fsm_cases; lia.
  - intros Hrun.
    destruct (run_provenance (λ s, match s with
        | EnvelopeState.Validated => [[EnvelopeTrigger.ValidationPassed]]
        | EnvelopeState.Delivered | EnvelopeState.Acknowledged =>
            [[EnvelopeTrigger.ValidationPassed; EnvelopeTrigger.Deliver]]
        | _ => [[]] end) EnvelopeState.Created) with (ts := ts) as (l & Hl & Hsub).
    + by left.
    + intros s t s' l Ht Hl. fsm_cases; apply list_elem_of_singleton in Hl as ->;
        by (eexists; split; [left|cbn; solve_sublist]).
    + destruct (run EnvelopeState.Created ts); set_solver.
Qed.
