(* ===== verification/Clock.v ===== *)
(** * Hybrid logical clock (crate wacp-clock)

    Timestamps pair 64-bit physical microseconds with a 16-bit logical counter.
    The time source is outside the model: [now] and [recv] take the reading
    [now_us()] returned.  The theorems give the order, the encoding, and exactly
    when the clock is strictly monotone. *)

From S2P Require Import Prelude.

(** ** Timestamps (timestamp.rs) *)

Module Timestamp.
Record t := Mk { physical_us : Z; logical : Z }.

#[global] Instance eq_dec : EqDecision t.
Proof. solve_decision. Defined.

Definition ZERO : t := Mk 0 0.

Definition new (physical_us logical : Z) : t := Mk physical_us logical.

(** [u64::to_be_bytes] and [u16::to_be_bytes]: the [n] low bytes, high one first. *)
Fixpoint to_be_bytes (n : nat) (z : Z) : list Z :=
  match n with
  | O => []
  | S n => Z.land (Z.shiftr z (8 * Z.of_nat n)) 255 :: to_be_bytes n z
  end.

Definition from_be_bytes (bs : list Z) : Z :=
  fold_left (λ acc b, Z.lor (Z.shiftl acc 8) b) bs 0.

Definition to_bytes (ts : t) : list Z :=
  to_be_bytes 8 (physical_us ts) ++ to_be_bytes 2 (logical ts).

Definition from_bytes (bytes : list Z) : t :=
  Mk (from_be_bytes (take 8 bytes)) (from_be_bytes (take 2 (drop 8 bytes))).

Definition succ (ts : t) : t :=
  if logical ts =? u16_max
  then Mk (wrap64 (physical_us ts + 1)) 0
  else Mk (physical_us ts) (logical ts + 1).

Definition cmp (a b : t) : comparison :=
  match physical_us a ?= physical_us b with
  | Eq => logical a ?= logical b
  | c => c
  end.

(** The values the Rust fields can hold. *)
Definition wf (ts : t) : Prop := is_u64 (physical_us ts) ∧ is_u16 (logical ts).

Definition lt (a b : t) : Prop := cmp a b = Lt.
Definition le (a b : t) : Prop := cmp a b ≠ Gt.

(** The order as an arithmetic condition. *)
Lemma lt_iff a b :
  lt a b ↔ physical_us a < physical_us b
           ∨ physical_us a = physical_us b ∧ logical a < logical b.
Proof.
  unfold lt, cmp. destruct (Z.compare_spec (physical_us a) (physical_us b));
    rewrite ?Z.compare_lt_iff; split; intros; first [discriminate|reflexivity|lia|exfalso; lia].
Qed.

Lemma le_iff a b :
  le a b ↔ physical_us a < physical_us b
           ∨ physical_us a = physical_us b ∧ logical a ≤ logical b.
Proof.
  unfold le, cmp. destruct (Z.compare_spec (physical_us a) (physical_us b));
    rewrite ?Z.compare_le_iff; split; intros; first [discriminate|congruence|lia|exfalso; lia].
Qed.

#[global] Instance lt_trans : Transitive lt.
Proof. intros a b c. rewrite !lt_iff. lia. Qed.

#[global] Instance lt_irrefl : Irreflexive lt.
Proof. intros a. unfold complement. rewrite lt_iff. lia. Qed.
End Timestamp.

(** ** Time source for tests (time_source.rs) *)

Module ManualTimeSource.
Record t := Mk { now : Z }.

Definition new (initial_us : Z) : t := Mk initial_us.
Definition set (s : t) (us : Z) : t := Mk us.
Definition advance (s : t) (delta_us : Z) : t := Mk (wrap64 (now s + delta_us)).
Definition now_us (s : t) : Z := now s.
End ManualTimeSource.

(** ** The clock (lib.rs) *)

Module Clock.
Import Timestamp.

Record t := Mk { last : Timestamp.t }.

Definition new : t := Mk ZERO.
Definition with_initial (initial : Timestamp.t) : t := Mk initial.

Definition now (physical : Z) (c : t) : t * Timestamp.t :=
  let ts :=
    if physical_us (last c) <? physical
    then Timestamp.new physical 0
    else Timestamp.new (physical_us (last c)) (saturating_add16 (logical (last c)) 1) in
  (Mk ts, ts).

Definition send (physical : Z) (c : t) : t * Timestamp.t := now physical c.

Definition recv (local_physical : Z) (remote : Timestamp.t) (c : t) : t * Timestamp.t :=
  let l := last c in
  let max_physical := Z.max (Z.max local_physical (physical_us l)) (physical_us remote) in
  let logical :=
    if (physical_us l <? max_physical) && (physical_us remote <? max_physical) then 0
    else if (max_physical =? physical_us l) && (max_physical =? physical_us remote) then
      saturating_add16 (Z.max (logical l) (logical remote)) 1
    else if max_physical =? physical_us l then saturating_add16 (logical l) 1
    else saturating_add16 (logical remote) 1 in
  let ts := Timestamp.new max_physical logical in
  (Mk ts, ts).

(** A burst of local events, given the time source's successive readings. *)
Fixpoint now_many (readings : list Z) (c : t) : t * list Timestamp.t :=
  match readings with
  | [] => (c, [])
  | p :: readings =>
      let '(c, ts) := now p c in
      let '(c, tss) := now_many readings c in
      (c, ts :: tss)
  end.
End Clock.

(** ** Encoding lemmas *)

Section encoding.
Import Timestamp.

(** Lexicographic comparison of byte strings of equal length. *)
Fixpoint lex_compare (a b : list Z) : comparison :=
  match a, b with
  | [], [] => Eq
  | [], _ => Lt
  | _, [] => Gt
  | x :: a, y :: b => match x ?= y with Eq => lex_compare a b | c => c end
  end.

Lemma length_to_be_bytes n z : length (to_be_bytes n z) = n.
Proof. induction n; cbn; congruence. Qed.

Lemma byte_of n z :
  Z.land (Z.shiftr z (8 * Z.of_nat n)) 255 = (z / 256 ^ Z.of_nat n) mod 256.
Proof.
  change 255 with (Z.ones 8). rewrite Z.land_ones, Z.shiftr_div_pow2 by lia.
  by rewrite Z.pow_mul_r by lia.
Qed.

(** Splitting the [n+1] low bytes into the high byte and the rest. *)
Lemma mod_pow_succ n z :
  z mod 256 ^ Z.of_nat (S n)
  = ((z / 256 ^ Z.of_nat n) mod 256) * 256 ^ Z.of_nat n + z mod 256 ^ Z.of_nat n.
Proof.
  rewrite Nat2Z.inj_succ, Z.pow_succ_r, (Z.mul_comm 256) by lia.
  rewrite Z.rem_mul_r by (try apply Z.pow_nonzero; lia). ring.
Qed.

Lemma lex_compare_be n a b :
  lex_compare (to_be_bytes n a) (to_be_bytes n b)
  = (a mod 256 ^ Z.of_nat n ?= b mod 256 ^ Z.of_nat n).
Proof.
  induction n as [|n IH]; cbn -[Z.of_nat Z.pow].
  { change (Z.of_nat 0) with 0. by rewrite !Z.pow_0_r, !Z.mod_1_r. }
  rewrite !byte_of, IH, !mod_pow_succ.
  set (x := (a / 256 ^ Z.of_nat n) mod 256). set (y := (b / 256 ^ Z.of_nat n) mod 256).
  assert (0 < 256 ^ Z.of_nat n) as Hpos by (apply Z.pow_pos_nonneg; lia).
  pose proof (Z.mod_pos_bound a _ Hpos). pose proof (Z.mod_pos_bound b _ Hpos).
  destruct (Z.compare_spec x y) as [->|Hlt|Hgt]; symmetry.
  - rewrite Z.add_compare_mono_l. reflexivity.
  - apply Z.compare_lt_iff. nia.
  - apply Z.compare_gt_iff. nia.
Qed.

Lemma lex_compare_app a1 a2 b1 b2 :
  length a1 = length b1 →
  lex_compare (a1 ++ a2) (b1 ++ b2)
  = match lex_compare a1 b1 with Eq => lex_compare a2 b2 | c => c end.
Proof.
  revert b1. induction a1 as [|x a1 IH]; intros [|y b1] Hlen; try discriminate; cbn; [done|].
  destruct (x ?= y); [apply IH|..]; cbn in Hlen; congruence.
Qed.

Lemma fold_be_bytes n z acc :
  0 ≤ acc →
  fold_left (λ acc b, Z.lor (Z.shiftl acc 8) b) (to_be_bytes n z) acc
  = acc * 256 ^ Z.of_nat n + z mod 256 ^ Z.of_nat n.
Proof.
  revert acc. induction n as [|n IH]; intros acc Hacc; cbn -[Z.of_nat Z.pow].
  { change (Z.of_nat 0) with 0. rewrite Z.pow_0_r, Z.mod_1_r. lia. }
  rewrite byte_of. set (d := (z / 256 ^ Z.of_nat n) mod 256).
  assert (0 ≤ d < 256) as Hd by (apply Z.mod_pos_bound; lia).
  assert (Z.lor (Z.shiftl acc 8) d = acc * 256 + d) as ->.
  { rewrite Z.shiftl_mul_pow2 by lia. change (2 ^ 8) with 256.
    rewrite <-Z.add_lor_land. replace (Z.land (acc * 256) d) with 0; [lia|].
    symmetry. apply Z.bits_inj'. intros i Hi. rewrite Z.land_spec, Z.bits_0.
    change 256 with (2 ^ 8). destruct (Z.ltb_spec i 8).
    - by rewrite Z.mul_pow2_bits_low.
    - rewrite (Z.bits_above_log2 d i), andb_false_r; [done|lia|].
      destruct (Z.eq_dec d 0) as [->|]; [cbn; lia|].
      apply Z.log2_lt_pow2; [lia|]. apply Z.lt_le_trans with 256; [lia|].
      change 256 with (2 ^ 8). apply Z.pow_le_mono_r; lia. }
  rewrite IH, mod_pow_succ by lia. fold d.
  rewrite Nat2Z.inj_succ, Z.pow_succ_r by lia. ring.
Qed.
End encoding.

(** ** Clock lemmas *)

Section clock.
Import Timestamp.

(** The logical counter [recv] continues from when the physical part is tied. *)
Definition top_logical (l r : Timestamp.t) : Z :=
  if physical_us l =? physical_us r then Z.max (logical l) (logical r)
  else if physical_us r <? physical_us l then logical l else logical r.

Lemma now_spec p c :
  (Clock.now p c).1 = Clock.Mk (Clock.now p c).2
  ∧ (Clock.now p c).2
    = if physical_us (Clock.last c) <? p then Mk p 0
      else Mk (physical_us (Clock.last c)) (saturating_add16 (logical (Clock.last c)) 1).
Proof. done. Qed.

(** What [recv] returns, by the arithmetic of its inputs. *)
Lemma recv_spec p r c :
  let l := Clock.last c in
  let top := Z.max (physical_us l) (physical_us r) in
  (Clock.recv p r c).2
  = if top <? p then Mk p 0 else Mk top (saturating_add16 (top_logical l r) 1).
Proof.
  cbn. unfold Clock.recv, top_logical, Timestamp.new. cbn.
  set (l := Clock.last c). destruct l as [lp ll]. destruct r as [rp rl]. cbn.
  repeat match goal with
  | |- context [?a <? ?b] => destruct (Z.ltb_spec a b)
  | |- context [?a =? ?b] => destruct (Z.eqb_spec a b)
  end; cbn; try lia; f_equal; lia.
Qed.

Lemma now_le p c : wf (Clock.last c) → le (Clock.last c) (Clock.now p c).2.
Proof.
  intros [_ Hl]. rewrite (proj2 (now_spec p c)), le_iff.
  destruct (Z.ltb_spec (physical_us (Clock.last c)) p); cbn; solve_range.
Qed.

Lemma now_lt p c :
  logical (Clock.last c) < u16_max → lt (Clock.last c) (Clock.now p c).2.
Proof.
  intros Hl. rewrite (proj2 (now_spec p c)), lt_iff.
  destruct (Z.ltb_spec (physical_us (Clock.last c)) p); cbn; solve_range.
Qed.

Lemma now_logical p c :
  0 ≤ logical (Clock.last c) →
  logical (Clock.now p c).2 ≤ logical (Clock.last c) + 1
  ∧ 0 ≤ logical (Clock.now p c).2.
Proof.
  intros Hl. rewrite (proj2 (now_spec p c)).
  destruct (Z.ltb_spec (physical_us (Clock.last c)) p); cbn; solve_range.
Qed.

Lemma now_many_gt ps c ts :
  0 ≤ logical (Clock.last c) →
  logical (Clock.last c) + Z.of_nat (length ps) ≤ u16_max →
  ts ∈ (Clock.now_many ps c).2 → lt (Clock.last c) ts.
Proof.
  revert c. induction ps as [|p ps IH]; intros c H0 Hb; cbn [Clock.now_many].
  { by intros ?%elem_of_nil. }
  pose proof (now_lt p c ltac:(cbn [length] in Hb; lia)) as Hlt.
  pose proof (now_logical p c H0) as Hlog.
  destruct (Clock.now p c) as [c1 t1] eqn:Hnow.
  assert (Clock.last c1 = t1) as Hc1 by (by injection Hnow as <- <-). cbn in Hlt, Hlog.
  destruct (Clock.now_many ps c1) as [c2 tss] eqn:Hm. cbn.
  intros [->|Hin]%elem_of_cons; [done|].
  trans t1; [exact Hlt|]. rewrite <-Hc1 in *. cbn [length] in Hb.
  apply IH; [lia|lia|]. by rewrite Hm.
Qed.
End clock.

(** ** Properties *)

(**  The 10-byte big-endian encoding is lossless and order-preserving:
    decoding it gives the timestamp back, and comparing encodings byte by byte
    gives the same answer as comparing timestamps. *)
Theorem timestamp_encoding (a b : Timestamp.t) :
  Timestamp.wf a → Timestamp.wf b →
  Timestamp.from_bytes (Timestamp.to_bytes a) = a
  ∧ length (Timestamp.to_bytes a) = 10%nat
  ∧ lex_compare (Timestamp.to_bytes a) (Timestamp.to_bytes b) = Timestamp.cmp a b.
Proof.
  destruct a as [ap al], b as [bp bl]. intros [Hap Hal] [Hbp Hbl].
  cbn [Timestamp.physical_us Timestamp.logical] in *. split; [|split].
  - unfold Timestamp.from_bytes, Timestamp.to_bytes. cbn [Timestamp.physical_us Timestamp.logical].
    rewrite take_app_length', drop_app_length', take_ge
      by (rewrite ?length_to_be_bytes; lia).
    unfold Timestamp.from_be_bytes. rewrite !fold_be_bytes by lia.
    f_equal; rewrite Z.mod_small; unfold_range; lia.
  - unfold Timestamp.to_bytes. by rewrite length_app, !length_to_be_bytes.
  - unfold Timestamp.to_bytes, Timestamp.cmp. cbn [Timestamp.physical_us Timestamp.logical].
    rewrite lex_compare_app by (by rewrite !length_to_be_bytes).
    rewrite !lex_compare_be, !Z.mod_small; [done|unfold_range; lia..].
Qed.

Lemma timestamp_encoding_witness :
  Timestamp.from_bytes (Timestamp.to_bytes (Timestamp.Mk 1700000000000001 65535))
    = Timestamp.Mk 1700000000000001 65535
  ∧ length (Timestamp.to_bytes (Timestamp.Mk 1700000000000001 65535)) = 10%nat
  ∧ lex_compare (Timestamp.to_bytes (Timestamp.Mk 1700000000000001 65535))
      (Timestamp.to_bytes (Timestamp.Mk 1700000000000002 0))
    = Timestamp.cmp (Timestamp.Mk 1700000000000001 65535) (Timestamp.Mk 1700000000000002 0).
Proof. apply timestamp_encoding; split; cbn; solve_range. Defined.

(**  [recv] never moves the clock back, and its result is strictly after both
    the local head and the remote timestamp exactly when physical time passed
    both or the logical counter it continues from is not yet 65535; on a
    saturated counter the result equals its predecessor, against the comment that
    promises strict order. *)
Theorem recv_strict_unless_saturated (p : Z) (remote : Timestamp.t) (c : Clock.t) :
  Timestamp.wf (Clock.last c) → Timestamp.wf remote →
  let res := (Clock.recv p remote c).2 in
  Timestamp.le (Clock.last c) res ∧ Timestamp.le remote res
  ∧ (Timestamp.lt (Clock.last c) res ∧ Timestamp.lt remote res ↔
     Z.max (Timestamp.physical_us (Clock.last c)) (Timestamp.physical_us remote) < p
     ∨ top_logical (Clock.last c) remote < u16_max).
Proof.
  intros [Hlp Hll] [Hrp Hrl]. cbn zeta. rewrite recv_spec.
  rewrite !Timestamp.le_iff, !Timestamp.lt_iff. unfold top_logical.
  destruct (Clock.last c) as [lp ll], remote as [rp rl]. cbn in *.
  repeat match goal with
  | |- context [?a <? ?b] => destruct (Z.ltb_spec a b)
  | |- context [?a =? ?b] => destruct (Z.eqb_spec a b)
  end; cbn; solve_range.
Qed.

Lemma recv_strict_unless_saturated_witness :
  let c := Clock.with_initial (Timestamp.Mk 10 65535) in
  let remote := Timestamp.Mk 10 7 in
  let res := (Clock.recv 9 remote c).2 in
  Timestamp.le (Clock.last c) res ∧ Timestamp.le remote res
  ∧ (Timestamp.lt (Clock.last c) res ∧ Timestamp.lt remote res ↔
     Z.max (Timestamp.physical_us (Clock.last c)) (Timestamp.physical_us remote) < 9
     ∨ top_logical (Clock.last c) remote < u16_max).
Proof. apply recv_strict_unless_saturated; split; cbn; solve_range. Defined.

(**  A burst of local events gets strictly increasing timestamps, whatever the
    time source returns (also when it stalls or runs backwards), as long as the
    burst is too short to saturate the 16-bit logical counter. *)
Theorem now_burst_strictly_increasing (ps : list Z) (c : Clock.t) :
  Timestamp.wf (Clock.last c) →
  Timestamp.logical (Clock.last c) + Z.of_nat (length ps) ≤ u16_max →
  StronglySorted Timestamp.lt (Clock.last c :: (Clock.now_many ps c).2).
Proof.
  intros [_ [H0 _]]. revert c H0. induction ps as [|p ps IH]; intros c H0 Hb.
  { by repeat constructor. }
  constructor; [|by apply Forall_forall; intros ts; apply now_many_gt].
  cbn [Clock.now_many]. pose proof (now_logical p c H0) as Hlog.
  destruct (Clock.now p c) as [c1 t1] eqn:Hnow.
  assert (Clock.last c1 = t1) as <- by (by injection Hnow as <- <-). cbn in Hlog.
  destruct (Clock.now_many ps c1) as [c2 tss] eqn:Hm.
  specialize (IH c1 (proj2 Hlog)). rewrite Hm in IH. apply IH. cbn [length] in Hb. lia.
Qed.

Lemma now_burst_strictly_increasing_witness :
  StronglySorted Timestamp.lt
    (Timestamp.Mk 5 65532 :: (Clock.now_many [4; 5; 3] (Clock.with_initial (Timestamp.Mk 5 65532))).2).
Proof.
  apply (now_burst_strictly_increasing [4; 5; 3] (Clock.with_initial (Timestamp.Mk 5 65532)));
    [split; cbn|cbn]; solve_range.
Defined.

(**  [succ] is the immediate successor: below the largest timestamp its result
    is later and nothing lies strictly between. *)
Theorem succ_immediate (a b : Timestamp.t) :
  Timestamp.wf a → Timestamp.wf b →
  Timestamp.physical_us a < u64_max ∨ Timestamp.logical a < u16_max →
  Timestamp.wf (Timestamp.succ a)
  ∧ Timestamp.lt a (Timestamp.succ a)
  ∧ (Timestamp.lt a b ↔ Timestamp.le (Timestamp.succ a) b).
Proof.
  intros [Hap Hal] [Hbp Hbl] Hmax. unfold Timestamp.succ, Timestamp.wf.
  rewrite !Timestamp.lt_iff, !Timestamp.le_iff.
  destruct (Z.eqb_spec (Timestamp.logical a) u16_max); cbn;
    rewrite ?wrap64_small by solve_range; solve_range.
Qed.

Lemma succ_immediate_witness :
  Timestamp.wf (Timestamp.succ (Timestamp.Mk 3 65535))
  ∧ Timestamp.lt (Timestamp.Mk 3 65535) (Timestamp.succ (Timestamp.Mk 3 65535))
  ∧ (Timestamp.lt (Timestamp.Mk 3 65535) (Timestamp.Mk 4 0)
     ↔ Timestamp.le (Timestamp.succ (Timestamp.Mk 3 65535)) (Timestamp.Mk 4 0)).
Proof. apply succ_immediate; [split|split|left]; cbn; solve_range. Defined.
