(* ===== verification/Visibility.v ===== *)
(** * Visibility graph and escalation routing (wacp-coordinator: visibility.rs, ownership.rs)

    [A -> B] means workspace A can read B.  The graph keeps a forward and a
    reverse index; the theorems show that the two never disagree, that grants only
    add edges, and what each grant adds.  The escalation router maps a workspace
    to its owning user. *)

From S2P Require Import Prelude Types.

Inductive VisibilityError : Set := GrantorCannotSee (target : WorkspaceId).

Module VisibilityGraph.
Record t := Mk {
  can_see_map : gmap string (gset WorkspaceId);
  seen_by : gmap string (gset WorkspaceId);
}.

Definition new : t := Mk ∅ ∅.

(** The set stored under a key, as [get(..).cloned().unwrap_or_default()] reads it. *)
Definition edges (m : gmap string (gset WorkspaceId)) (k : string) : gset WorkspaceId :=
  default ∅ (m !! k).

Definition register (g : t) (id : WorkspaceId) : t :=
  Mk (<[id := edges (can_see_map g) id]> (can_see_map g))
     (<[id := edges (seen_by g) id]> (seen_by g)).

Definition grant (g : t) (viewer target : WorkspaceId) : t * bool :=
  if decide (viewer = target) then (g, false) else
  let seen := edges (can_see_map g) viewer in
  let newly_inserted := bool_decide (target ∉ seen) in
  let forward := <[viewer := {[target]} ∪ seen]> (can_see_map g) in
  let reverse :=
    if newly_inserted
    then <[target := {[viewer]} ∪ edges (seen_by g) target]> (seen_by g)
    else seen_by g in
  (Mk forward reverse, newly_inserted).

Definition can_see (g : t) (viewer target : WorkspaceId) : bool :=
  if decide (viewer = target) then true
  else bool_decide (target ∈ edges (can_see_map g) viewer).

Definition grant_checked (g : t) (viewer target grantor : WorkspaceId)
    : t * result bool VisibilityError :=
  if can_see g grantor target
  then let '(g', newly) := grant g viewer target in (g', Ok newly)
  else (g, Err (GrantorCannotSee target)).

Definition visible_to (g : t) (viewer : WorkspaceId) : gset WorkspaceId :=
  {[viewer]} ∪ edges (can_see_map g) viewer.

Definition who_can_see (g : t) (target : WorkspaceId) : gset WorkspaceId :=
  {[target]} ∪ edges (seen_by g) target.

End VisibilityGraph.

Module EscalationRouter.
Definition t : Type := gmap string UserId.

Definition new : t := ∅.
Definition register (r : t) (id : WorkspaceId) (owner : UserId) : t := <[id := owner]> r.
Definition update (r : t) (id : WorkspaceId) (new_owner : UserId) : t := <[id := new_owner]> r.
Definition route (r : t) (id : WorkspaceId) : option UserId := r !! id.
Definition remove (r : t) (id : WorkspaceId) : t := delete id r.
End EscalationRouter.

Definition resolve_owner (parent_owner : UserId) (explicit : option UserId) : UserId :=
  default parent_owner explicit.

(** [None] is the panic on an injection without an injector. *)
Definition resolve_originator (parent_originator : Originator.t) (is_injection : bool)
    (injector : option UserId) : option Originator.t :=
  if is_injection
  then match injector with Some u => Some (Originator.User u) | None => None end
  else Some parent_originator.

(** ** Histories: every graph is built by the public mutators. *)

Inductive vis_op : Set :=
| VRegister (id : WorkspaceId)
| VGrant (viewer target : WorkspaceId)
| VGrantChecked (viewer target grantor : WorkspaceId).

Definition vis_step (g : VisibilityGraph.t) (o : vis_op) : VisibilityGraph.t :=
  match o with
  | VRegister id => VisibilityGraph.register g id
  | VGrant v w => (VisibilityGraph.grant g v w).1
  | VGrantChecked v w r => (VisibilityGraph.grant_checked g v w r).1
  end.

Definition vis_run (ops : list vis_op) : VisibilityGraph.t :=
  fold_left vis_step ops VisibilityGraph.new.

Section visibility.
Import VisibilityGraph.
Implicit Types g : VisibilityGraph.t.

(** The reverse index is the transpose of the forward one, and no self edge is stored. *)
Definition consistent g : Prop :=
  (∀ v w, w ∈ edges (can_see_map g) v ↔ v ∈ edges (seen_by g) w)
  ∧ (∀ v, v ∉ edges (can_see_map g) v).

Lemma edges_insert m k s k' :
  edges (<[k := s]> m) k' = if decide (k = k') then s else edges m k'.
Proof. unfold edges. rewrite lookup_insert. by case_decide. Qed.

Lemma edges_register_forward g id v :
  edges (can_see_map (register g id)) v = edges (can_see_map g) v.
Proof. cbn. rewrite edges_insert. case_decide; naive_solver. Qed.

Lemma edges_register_reverse g id v :
  edges (seen_by (register g id)) v = edges (seen_by g) v.
Proof. cbn. rewrite edges_insert. case_decide; naive_solver. Qed.

(** The forward edges after a grant. *)
Lemma edges_grant g v w x y :
  y ∈ edges (can_see_map (grant g v w).1) x
  ↔ y ∈ edges (can_see_map g) x ∨ x = v ∧ y = w ∧ v ≠ w.
Proof.
  unfold grant. case_decide as Hvw; cbn; [naive_solver|].
  rewrite edges_insert. case_decide; subst; set_solver.
Qed.

Lemma consistent_new : consistent new.
Proof. split; unfold edges; cbn; intros *; rewrite ?lookup_empty; set_solver. Qed.

Lemma consistent_register g id : consistent g → consistent (register g id).
Proof.
  intros [Hadj Hself]. split; intros *;
    rewrite !edges_register_forward, ?edges_register_reverse; naive_solver.
Qed.

Lemma consistent_grant g v w : consistent g → consistent (grant g v w).1.
Proof.
  intros [Hadj Hself]. split.
  - intros x y. rewrite edges_grant. unfold grant. case_decide as Hvw; [naive_solver|].
    case_bool_decide as Hnew; cbn.
    + rewrite edges_insert. case_decide as Hwy; [subst y|]; rewrite ?Hadj; set_solver.
    + rewrite <-Hadj. naive_solver.
  - intros x. rewrite edges_grant. naive_solver.
Qed.

Lemma grant_checked_state g v w r :
  (grant_checked g v w r).1 = if can_see g r w then (grant g v w).1 else g.
Proof. unfold grant_checked. destruct (can_see g r w); [|done]. by destruct (grant g v w). Qed.

Lemma consistent_step g o : consistent g → consistent (vis_step g o).
Proof.
  destruct o; cbn; auto using consistent_register, consistent_grant.
  intros Hg. rewrite grant_checked_state. destruct (can_see _ _ _); auto using consistent_grant.
Qed.

Lemma consistent_run ops : consistent (vis_run ops).
Proof.
  induction ops as [|o ops IH] using rev_ind; [apply consistent_new|].
  unfold vis_run. rewrite fold_left_app. by apply consistent_step.
Qed.

Lemma can_see_iff g v w : can_see g v w = true ↔ v = w ∨ w ∈ edges (can_see_map g) v.
Proof. unfold can_see. case_decide; [naive_solver|]. rewrite bool_decide_eq_true. naive_solver. Qed.

Lemma can_see_register g id v w : can_see (register g id) v w = can_see g v w.
Proof. unfold can_see. by rewrite edges_register_forward. Qed.
End visibility.

(** ** Properties *)

(**  Whatever sequence of registrations and grants built the graph, the three
    queries agree: [can_see v w], membership of [w] in [visible_to v], and
    membership of [v] in [who_can_see w] are the same relation, which is reflexive. *)
Theorem visibility_queries_agree (ops : list vis_op) (v w : WorkspaceId) :
  let g := vis_run ops in
  (VisibilityGraph.can_see g v w = true ↔ w ∈ VisibilityGraph.visible_to g v)
  ∧ (w ∈ VisibilityGraph.visible_to g v ↔ v ∈ VisibilityGraph.who_can_see g w)
  ∧ VisibilityGraph.can_see g v v = true.
Proof.
  intros g. destruct (consistent_run ops) as [Hadj Hself]. fold g in Hadj, Hself.
  rewrite !can_see_iff. unfold VisibilityGraph.visible_to, VisibilityGraph.who_can_see.
  rewrite !elem_of_union, !elem_of_singleton, Hadj. naive_solver.
Qed.

(**  A grant adds exactly the edge it names, and a checked grant adds it only
    when the grantor sees the target; the returned flag says whether the edge is
    new, and a refused grant changes nothing.  So visibility only grows. *)
Theorem grant_checked_effect (g : VisibilityGraph.t) (v w r : WorkspaceId) :
  let '(g', res) := VisibilityGraph.grant_checked g v w r in
  (∀ x y, VisibilityGraph.can_see g' x y = true ↔
     VisibilityGraph.can_see g x y = true
     ∨ x = v ∧ y = w ∧ VisibilityGraph.can_see g r w = true)
  ∧ res = (if VisibilityGraph.can_see g r w
           then Ok (negb (VisibilityGraph.can_see g v w))
           else Err (GrantorCannotSee w))
  ∧ (VisibilityGraph.can_see g r w = false → g' = g).
Proof.
  destruct (VisibilityGraph.grant_checked g v w r) as [g' res] eqn:Hgc.
  pose proof (grant_checked_state g v w r) as Hst. rewrite Hgc in Hst. cbn in Hst.
  assert (res = if VisibilityGraph.can_see g r w
                then Ok (negb (VisibilityGraph.can_see g v w)) else Err (GrantorCannotSee w)) as Hres.
  { revert Hgc. unfold VisibilityGraph.grant_checked.
    destruct (VisibilityGraph.can_see g r w); [|congruence].
    unfold VisibilityGraph.grant, VisibilityGraph.can_see. case_decide; cbn; [by intros [= _ <-]|].
    intros [= _ <-]. by rewrite bool_decide_not. }
  split; [|split; [exact Hres|]].
  - intros x y. rewrite Hst, !can_see_iff.
    destruct (VisibilityGraph.can_see g r w) eqn:Hsee.
    + rewrite edges_grant. apply can_see_iff in Hsee.
      destruct (decide (v = w)); naive_solver.
    + apply not_true_iff_false in Hsee. rewrite can_see_iff in Hsee. naive_solver.
  - intros Hno. by rewrite Hno in Hst.
Qed.
