(* ===== verification/PortRights.v ===== *)
(** * Port rights graph (wacp-coordinator: port_rights.rs)

    Rights to send to a workspace, indexed by holder, by target and by id.  The
    theorems: the three indices agree in every reachable graph, [validate_send]
    answers exactly what the entries say, a dead right never comes back, and a
    terminated workspace keeps no active right.  [Register] is a
    reference for the graph, the list of every right ever issued. *)

From S2P Require Import Prelude Types.

Module PortRightStatus.
Inductive t : Set := Active | Consumed | Revoked | Expired.

#[global] Instance eq_dec : EqDecision t.
Proof. solve_decision. Defined.
End PortRightStatus.

Record PortRightEntry := {
  pre_id : string;
  pre_holder : WorkspaceId;
  pre_target : WorkspaceId;
  pre_kind : PortRightType.t;
  pre_status : PortRightStatus.t;
}.

Inductive PortRightError : Set :=
| NotFound | NotActive | NotSendOnce | ReceiveNotTransferable | NoRights
| NoRightToTarget (target : WorkspaceId).

Definition pre_with_status (s : PortRightStatus.t) (e : PortRightEntry) : PortRightEntry := {|
  pre_id := pre_id e; pre_holder := pre_holder e; pre_target := pre_target e;
  pre_kind := pre_kind e; pre_status := s |}.

Definition pre_with_holder (h : WorkspaceId) (e : PortRightEntry) : PortRightEntry := {|
  pre_id := pre_id e; pre_holder := h; pre_target := pre_target e;
  pre_kind := pre_kind e; pre_status := pre_status e |}.

Module PortRightsGraph.
Record t := Mk {
  by_holder : gmap string (list string);
  by_target : gmap string (list string);
  by_id : gmap string PortRightEntry;
  next_id : Z;
}.

Definition new : t := Mk ∅ ∅ ∅ 1.

Definition create (g : t) (holder target : WorkspaceId) (kind : PortRightType.t) : t * string :=
  let id := format_id "pr-" (next_id g) in
  let entry := {| pre_id := id; pre_holder := holder; pre_target := target;
                  pre_kind := kind; pre_status := PortRightStatus.Active |} in
  (Mk (push_entry holder id (by_holder g)) (push_entry target id (by_target g))
      (<[id := entry]> (by_id g)) (wrap64 (next_id g + 1)), id).

Definition transfer (g : t) (right_id : string) (new_holder : WorkspaceId)
    : t * result WorkspaceId PortRightError :=
  match by_id g !! right_id with
  | None => (g, Err NotFound)
  | Some entry =>
      if decide (pre_status entry ≠ PortRightStatus.Active) then (g, Err NotActive) else
      if decide (pre_kind entry = PortRightType.Receive) then (g, Err ReceiveNotTransferable) else
      let old_holder := pre_holder entry in
      let held := retain_at (λ id, id ≠ right_id) old_holder (by_holder g) in
      let held := push_entry new_holder right_id held in
      (Mk held (by_target g) (<[right_id := pre_with_holder new_holder entry]> (by_id g))
          (next_id g), Ok old_holder)
  end.

Definition consume (g : t) (right_id : string) : t * result unit PortRightError :=
  match by_id g !! right_id with
  | None => (g, Err NotFound)
  | Some entry =>
      if decide (pre_kind entry ≠ PortRightType.SendOnce) then (g, Err NotSendOnce) else
      if decide (pre_status entry ≠ PortRightStatus.Active) then (g, Err NotActive) else
      (Mk (by_holder g) (by_target g)
          (<[right_id := pre_with_status PortRightStatus.Consumed entry]> (by_id g))
          (next_id g), Ok tt)
  end.

Definition revoke (g : t) (right_id : string) : t * result unit PortRightError :=
  match by_id g !! right_id with
  | None => (g, Err NotFound)
  | Some entry =>
      if decide (pre_status entry ≠ PortRightStatus.Active) then (g, Err NotActive) else
      (Mk (by_holder g) (by_target g)
          (<[right_id := pre_with_status PortRightStatus.Revoked entry]> (by_id g))
          (next_id g), Ok tt)
  end.

(** One iteration of either loop of [expire_workspace]. *)
Definition expire_one (m : gmap string PortRightEntry) (id : string) : gmap string PortRightEntry :=
  match m !! id with
  | Some entry =>
      if decide (pre_status entry = PortRightStatus.Active)
      then <[id := pre_with_status PortRightStatus.Expired entry]> m else m
  | None => m
  end.

Definition expire_workspace (g : t) (workspace_id : WorkspaceId) : t :=
  let held := idx (by_holder g) workspace_id in
  let entries := fold_left expire_one held (by_id g) in
  let targeted := idx (by_target g) workspace_id in
  let entries := fold_left expire_one targeted entries in
  Mk (by_holder g) (by_target g) entries (next_id g).

(** The test inside the loop of [validate_send]. *)
Definition sendable (target : WorkspaceId) (entry : PortRightEntry) : bool :=
  bool_decide (pre_target entry = target)
  && bool_decide (pre_status entry = PortRightStatus.Active)
  && match pre_kind entry with
     | PortRightType.Send | PortRightType.SendOnce => true
     | PortRightType.Receive => false
     end.

Fixpoint find_sendable (m : gmap string PortRightEntry) (target : WorkspaceId)
    (ids : list string) : option string :=
  match ids with
  | [] => None
  | id :: ids =>
      match m !! id with
      | Some entry => if sendable target entry then Some id else find_sendable m target ids
      | None => find_sendable m target ids
      end
  end.

Definition validate_send (g : t) (sender target : WorkspaceId) : result string PortRightError :=
  match by_holder g !! sender with
  | None => Err NoRights
  | Some right_ids =>
      match find_sendable (by_id g) target right_ids with
      | Some id => Ok id
      | None => Err (NoRightToTarget target)
      end
  end.

Definition get (g : t) (right_id : string) : option PortRightEntry := by_id g !! right_id.

Definition rights_held_by (g : t) (holder : WorkspaceId) : list PortRightEntry :=
  omap (λ id,
    entry ← by_id g !! id;
    if decide (pre_status entry = PortRightStatus.Active) then Some entry else None)
    (idx (by_holder g) holder).

Definition active_count (g : t) : nat :=
  size (filter (λ kv, pre_status kv.2 = PortRightStatus.Active) (by_id g)).
End PortRightsGraph.

(** ** Histories *)

Inductive port_op : Set :=
| PCreate (holder target : WorkspaceId) (kind : PortRightType.t)
| PTransfer (right_id : string) (new_holder : WorkspaceId)
| PConsume (right_id : string)
| PRevoke (right_id : string)
| PExpire (workspace_id : WorkspaceId).

Definition port_step (g : PortRightsGraph.t) (o : port_op) : PortRightsGraph.t :=
  match o with
  | PCreate h w k => (PortRightsGraph.create g h w k).1
  | PTransfer id h => (PortRightsGraph.transfer g id h).1
  | PConsume id => (PortRightsGraph.consume g id).1
  | PRevoke id => (PortRightsGraph.revoke g id).1
  | PExpire w => PortRightsGraph.expire_workspace g w
  end.

Definition port_run (ops : list port_op) : PortRightsGraph.t :=
  fold_left port_step ops PortRightsGraph.new.

(** ** Invariant *)

Record port_wf (g : PortRightsGraph.t) : Prop := {
  pw_key k e : PortRightsGraph.by_id g !! k = Some e → pre_id e = k;
  pw_alloc k e : PortRightsGraph.by_id g !! k = Some e →
    ∃ n, 1 ≤ n < PortRightsGraph.next_id g ∧ k = format_id "pr-" n;
  pw_holder h k : k ∈ idx (PortRightsGraph.by_holder g) h ↔
    ∃ e, PortRightsGraph.by_id g !! k = Some e ∧ pre_holder e = h;
  pw_target w k : k ∈ idx (PortRightsGraph.by_target g) w ↔
    ∃ e, PortRightsGraph.by_id g !! k = Some e ∧ pre_target e = w;
  pw_holder_nodup h : NoDup (idx (PortRightsGraph.by_holder g) h);
  pw_target_nodup w : NoDup (idx (PortRightsGraph.by_target g) w);
  pw_next : 1 ≤ PortRightsGraph.next_id g;
}.

Section port_rights.
Import PortRightsGraph.
Implicit Types g : PortRightsGraph.t.

(** What a status change leaves alone. *)
Definition shape (e : PortRightEntry) := (pre_id e, pre_holder e, pre_target e, pre_kind e).

Definition same_shape (m m' : gmap string PortRightEntry) : Prop := shape <$> m = shape <$> m'.

Lemma same_shape_entry m m' k e :
  same_shape m m' → m !! k = Some e → ∃ e', m' !! k = Some e' ∧ shape e' = shape e.
Proof.
  intros Hs Hk. apply (f_equal (.!! k)) in Hs. rewrite !lookup_fmap, Hk in Hs.
  destruct (m' !! k) as [e'|]; cbn in Hs; [|discriminate].
  exists e'. split; congruence.
Qed.

Lemma same_shape_status m k e s :
  m !! k = Some e → same_shape m (<[k := pre_with_status s e]> m).
Proof.
  intros Hk. unfold same_shape. rewrite fmap_insert.
  change (shape (pre_with_status s e)) with (shape e).
  symmetry. apply insert_id. by rewrite lookup_fmap, Hk.
Qed.

Lemma same_shape_expire m ids : same_shape m (fold_left expire_one ids m).
Proof.
  revert m. induction ids as [|id ids IH]; intros m; [done|]. cbn.
  etrans; [|apply IH]. unfold expire_one. destruct (m !! id) as [e|] eqn:Hid; [|done].
  case_decide; [by apply same_shape_status|done].
Qed.

Lemma port_wf_same_shape bh bt m m' n :
  same_shape m m' → port_wf (Mk bh bt m n) → port_wf (Mk bh bt m' n).
Proof.
  intros Hs [Hkey Halloc Hh Ht Hhn Htn Hn]. cbn in *.
  assert (∀ k e', m' !! k = Some e' → ∃ e, m !! k = Some e ∧ shape e = shape e') as Hback.
  { intros k e' Hk. by apply (same_shape_entry m' m). }
  assert (∀ k e, m !! k = Some e → ∃ e', m' !! k = Some e' ∧ shape e' = shape e) as Hforth.
  { intros k e Hk. by apply (same_shape_entry m m'). }
  constructor; cbn; auto.
  - intros k e' Hk. destruct (Hback _ _ Hk) as (e & He & [= Hi _ _ _]). rewrite <-Hi. eauto.
  - intros k e' Hk. destruct (Hback _ _ Hk) as (e & He & _). eauto.
  - intros h k. rewrite Hh. split; intros (e & He & Heq).
    + destruct (Hforth _ _ He) as (e' & He' & [= _ Hi _ _]). exists e'. split; congruence.
    + destruct (Hback _ _ He) as (e' & He' & [= _ Hi _ _]). exists e'. split; congruence.
  - intros h k. rewrite Ht. split; intros (e & He & Heq).
    + destruct (Hforth _ _ He) as (e' & He' & [= _ _ Hi _]). exists e'. split; congruence.
    + destruct (Hback _ _ He) as (e' & He' & [= _ _ Hi _]). exists e'. split; congruence.
Qed.

Lemma port_wf_new : port_wf new.
Proof.
  constructor; cbn; intros *; rewrite ?idx_empty, ?lookup_empty; try done;
    try apply NoDup_nil_2; try lia.
  - split; [by intros ?%elem_of_nil|by intros (? & ? & _)].
  - split; [by intros ?%elem_of_nil|by intros (? & ? & _)].
Qed.

(** The id [create] picks is not in use. *)
Lemma create_fresh g : port_wf g → by_id g !! format_id "pr-" (next_id g) = None.
Proof.
  intros Hwf. destruct (by_id g !! _) as [e|] eqn:He; [|done].
  destruct (pw_alloc _ Hwf _ _ He) as (n & Hn & Heq).
  apply format_id_inj in Heq; lia.
Qed.

Lemma port_wf_create g h w k :
  next_id g < u64_max → port_wf g → port_wf (create g h w k).1.
Proof.
  intros Hmax Hwf. pose proof (create_fresh g Hwf) as Hfresh.
  destruct Hwf as [Hkey Halloc Hh Ht Hhn Htn Hn].
  assert (wrap64 (next_id g + 1) = next_id g + 1) as Hw by (apply wrap64_small; solve_range).
  set (id := format_id "pr-" (next_id g)) in *.
  assert (∀ x, id ∉ idx (by_holder g) x) as Hnh.
  { intros x (e & He & _)%Hh. congruence. }
  assert (∀ x, id ∉ idx (by_target g) x) as Hnt.
  { intros x (e & He & _)%Ht. congruence. }
  constructor; cbn; rewrite ?Hw; fold id.
  - intros k' e. rewrite lookup_insert. case_decide; [naive_solver|eauto].
  - intros k' e. rewrite lookup_insert. case_decide as Hk; [intros _|].
    + exists (next_id g). split; [lia|]. by subst k'.
    + intros (n & Hb & ->)%Halloc. exists n. split; [lia|done].
  - intros h' k'. rewrite idx_push_entry, lookup_insert.
    case_decide; [subst h'|]; rewrite ?elem_of_snoc, Hh; case_decide; naive_solver.
  - intros h' k'. rewrite idx_push_entry, lookup_insert.
    case_decide; [subst h'|]; rewrite ?elem_of_snoc, Ht; case_decide; naive_solver.
  - intros h'. rewrite idx_push_entry. case_decide; [|done]. by apply NoDup_snoc.
  - intros h'. rewrite idx_push_entry. case_decide; [|done]. by apply NoDup_snoc.
  - lia.
Qed.

Lemma port_wf_transfer g id h : port_wf g → port_wf (transfer g id h).1.
Proof.
  intros Hwf. unfold transfer. destruct (by_id g !! id) as [e|] eqn:He; [|done].
  case_decide; [done|]. case_decide; [done|]. cbn.
  destruct Hwf as [Hkey Halloc Hh Ht Hhn Htn Hn].
  assert (∀ x k, k ∈ idx (push_entry h id (retain_at (λ i, i ≠ id) (pre_holder e) (by_holder g))) x
      ↔ k ≠ id ∧ k ∈ idx (by_holder g) x ∨ k = id ∧ x = h) as Hin.
  { intros x k. autorewrite with idx. repeat case_decide; subst;
      rewrite ?elem_of_snoc, ?list_elem_of_filter, ?Hh; naive_solver. }
  constructor; cbn.
  - intros k e'. rewrite lookup_insert. case_decide as Hk; [|eauto].
    intros [= <-]. subst k. cbn. eauto.
  - intros k e'. rewrite lookup_insert. case_decide as Hk; [|eauto]. intros _. subst k. eauto.
  - intros x k. rewrite Hin, Hh, lookup_insert. case_decide; naive_solver.
  - intros x k. rewrite Ht, lookup_insert. case_decide; naive_solver.
  - intros x. autorewrite with idx. repeat case_decide; subst; rewrite ?NoDup_snoc; auto using NoDup_filter.
    + split; [by apply NoDup_filter|]. rewrite list_elem_of_filter. naive_solver.
    + split; [done|]. rewrite Hh. naive_solver.
  - done.
  - done.
Qed.

Lemma port_wf_consume g id : port_wf g → port_wf (consume g id).1.
Proof.
  intros Hwf. unfold consume. destruct (by_id g !! id) as [e|] eqn:He; [|done].
  case_decide; [done|]. case_decide; [done|]. destruct g.
  eapply port_wf_same_shape; [by apply same_shape_status|done].
Qed.

Lemma port_wf_revoke g id : port_wf g → port_wf (revoke g id).1.
Proof.
  intros Hwf. unfold revoke. destruct (by_id g !! id) as [e|] eqn:He; [|done].
  case_decide; [done|]. destruct g.
  eapply port_wf_same_shape; [by apply same_shape_status|done].
Qed.

Lemma port_wf_expire g w : port_wf g → port_wf (expire_workspace g w).
Proof.
  intros Hwf. destruct g. unfold expire_workspace. cbn.
  do 2 (eapply port_wf_same_shape; [apply same_shape_expire|]). done.
Qed.
End port_rights.

#[export] Hint Resolve port_wf_new port_wf_create port_wf_transfer port_wf_consume
  port_wf_revoke port_wf_expire : wacp.

Section port_rights_lemmas.
Import PortRightsGraph.
Implicit Types g : PortRightsGraph.t.

(** Only [create] moves the counter. *)
Lemma port_step_next g o :
  0 ≤ next_id g < u64_max →
  next_id g ≤ next_id (port_step g o) ≤ next_id g + 1.
Proof.
  intros Hb. destruct o; cbn.
  - rewrite wrap64_small; solve_range.
  - unfold transfer. repeat case_match; cbn; lia.
  - unfold consume. repeat case_match; cbn; lia.
  - unfold revoke. repeat case_match; cbn; lia.
  - lia.
Qed.

Lemma port_wf_step g o : next_id g < u64_max → port_wf g → port_wf (port_step g o).
Proof. destruct o; cbn [port_step]; eauto with wacp. Qed.

(** Running [ops] from a well-formed graph with room in the counter. *)
Lemma port_wf_steps ops g :
  next_id g + Z.of_nat (length ops) ≤ u64_max → port_wf g →
  port_wf (fold_left port_step ops g).
Proof.
  revert g. induction ops as [|o ops IH]; intros g Hb Hwf; [done|]. cbn [fold_left].
  cbn [length] in Hb. pose proof (pw_next _ Hwf).
  pose proof (port_step_next g o ltac:(lia)).
  apply IH; [lia|]. apply port_wf_step; [lia|done].
Qed.

Lemma expire_one_lookup m id k :
  expire_one m id !! k
  = (λ e, if decide (k = id ∧ pre_status e = PortRightStatus.Active)
          then pre_with_status PortRightStatus.Expired e else e) <$> m !! k.
Proof.
  unfold expire_one. destruct (m !! id) as [e|] eqn:Hid.
  - destruct (decide (k = id)) as [->|Hk].
    + rewrite Hid. cbn. repeat case_decide; try naive_solver. by rewrite lookup_insert_eq.
    + case_decide; rewrite ?lookup_insert_ne by done;
        destruct (m !! k); cbn; [|done| |done]; case_decide; naive_solver.
  - destruct (m !! k) eqn:Hk; cbn; [|done]. case_decide; naive_solver.
Qed.

Lemma expire_fold_lookup ids m k :
  fold_left expire_one ids m !! k
  = (λ e, if decide (k ∈ ids ∧ pre_status e = PortRightStatus.Active)
          then pre_with_status PortRightStatus.Expired e else e) <$> m !! k.
Proof.
  revert m. induction ids as [|id ids IH]; intros m; cbn [fold_left].
  { destruct (m !! k); cbn; [|done]. case_decide as Hd; [|done]. set_solver. }
  rewrite IH, expire_one_lookup. destruct (m !! k) as [e|]; cbn; [|done]. f_equal.
  repeat case_decide; set_solver.
Qed.

(** The loop of [validate_send] finds a right exactly when one qualifies. *)
Lemma find_sendable_Some m w ids id :
  find_sendable m w ids = Some id →
  id ∈ ids ∧ ∃ e, m !! id = Some e ∧ sendable w e = true.
Proof.
  induction ids as [|i ids IH]; cbn; [done|]. intros H.
  destruct (m !! i) as [e|] eqn:Hi; [destruct (sendable w e) eqn:Hs|].
  - injection H as <-. split; [left|eauto].
  - destruct (IH H) as [? ?]. split; [by right|done].
  - destruct (IH H) as [? ?]. split; [by right|done].
Qed.

Lemma find_sendable_None m w ids id e :
  find_sendable m w ids = None → id ∈ ids → m !! id = Some e → sendable w e = false.
Proof.
  induction ids as [|i ids IH]; cbn; [set_solver|].
  intros H [->|Hin]%elem_of_cons Hid.
  - rewrite Hid in H. by destruct (sendable w e).
  - destruct (m !! i) as [e'|]; [destruct (sendable w e')|]; eauto; discriminate.
Qed.

Lemma sendable_iff w e :
  sendable w e = true ↔
  pre_target e = w ∧ pre_status e = PortRightStatus.Active ∧ pre_kind e ≠ PortRightType.Receive.
Proof.
  unfold sendable. rewrite !andb_true_iff, !bool_decide_eq_true.
  destruct (pre_kind e); naive_solver.
Qed.

(** A right that is no longer active is not touched by any operation. *)
Lemma port_step_dead g o id e :
  port_wf g → get g id = Some e → pre_status e ≠ PortRightStatus.Active →
  get (port_step g o) id = Some e.
Proof.
  unfold get. intros Hwf He Hdead. destruct o as [h w k|i h|i|i|w]; cbn.
  - rewrite lookup_insert_ne; [done|]. intros Heq. pose proof (create_fresh g Hwf). congruence.
  - unfold transfer. repeat case_match; cbn; try done.
    rewrite lookup_insert_ne; [done|]. intros ->. naive_solver.
  - unfold consume. repeat case_match; cbn; try done.
    rewrite lookup_insert_ne; [done|]. intros ->. naive_solver.
  - unfold revoke. repeat case_match; cbn; try done.
    rewrite lookup_insert_ne; [done|]. intros ->. naive_solver.
  - rewrite !expire_fold_lookup, He. cbn. repeat case_decide; naive_solver.
Qed.

Lemma port_steps_dead ops g id e :
  next_id g + Z.of_nat (length ops) ≤ u64_max → port_wf g →
  get g id = Some e → pre_status e ≠ PortRightStatus.Active →
  get (fold_left port_step ops g) id = Some e.
Proof.
  revert g. induction ops as [|o ops IH]; intros g Hb Hwf He Hdead; [done|].
  cbn [fold_left length] in *. pose proof (pw_next _ Hwf).
  pose proof (port_step_next g o ltac:(lia)).
  apply IH; [lia| |by apply port_step_dead|done]. apply port_wf_step; [lia|done].
Qed.

(** Every entry after expiring a workspace, from the entry before. *)
(** A right that allows the send makes [validate_send] succeed. *)
Lemma validate_send_ok g s w id e :
  port_wf g → get g id = Some e → pre_holder e = s → pre_target e = w →
  pre_status e = PortRightStatus.Active → pre_kind e ≠ PortRightType.Receive →
  is_ok (validate_send g s w) = true.
Proof.
  intros Hwf He Hh Ht Ha Hk. unfold validate_send.
  assert (id ∈ idx (by_holder g) s) as Hin by (apply (pw_holder _ Hwf); eauto).
  unfold idx in Hin. destruct (by_holder g !! s) as [ids|]; [|set_solver].
  destruct (find_sendable (by_id g) w ids) eqn:Hf; [done|].
  pose proof (find_sendable_None _ _ _ _ _ Hf Hin He) as Hno.
  by rewrite (proj2 (sendable_iff w e)) in Hno.
Qed.

Lemma get_create_other g h w k id e :
  port_wf g → get g id = Some e → get (create g h w k).1 id = Some e.
Proof.
  intros Hwf He. unfold get in *. cbn. rewrite lookup_insert_ne; [done|].
  intros <-. pose proof (create_fresh g Hwf). congruence.
Qed.

Lemma get_expire_workspace g w id :
  port_wf g →
  get (expire_workspace g w) id
  = (λ e, if decide (pre_status e = PortRightStatus.Active ∧ (pre_holder e = w ∨ pre_target e = w))
          then pre_with_status PortRightStatus.Expired e else e) <$> get g id.
Proof.
  intros Hwf. unfold get, expire_workspace. cbn. rewrite !expire_fold_lookup.
  destruct (by_id g !! id) as [e|] eqn:He; cbn; [|done]. f_equal.
  assert (id ∈ idx (by_holder g) w ↔ pre_holder e = w) as Hh.
  { rewrite (pw_holder _ Hwf). naive_solver. }
  assert (id ∈ idx (by_target g) w ↔ pre_target e = w) as Ht.
  { rewrite (pw_target _ Hwf). naive_solver. }
  repeat case_decide; naive_solver.
Qed.

(** Removing activity somewhere cannot add any: the count never grows. *)
Lemma active_count_expire g w : (active_count (expire_workspace g w) ≤ active_count g)%nat.
Proof.
  unfold active_count, expire_workspace. cbn.
  rewrite <-!size_dom. apply subseteq_size. intros k.
  rewrite !elem_of_dom. intros [e He]. apply map_lookup_filter_Some in He as [He Ha].
  rewrite !expire_fold_lookup in He. cbn in Ha.
  destruct (by_id g !! k) as [e0|] eqn:Hk; [|done]. cbn in He.
  exists e0. apply map_lookup_filter_Some. split; [done|]. cbn.
  repeat case_decide; naive_solver.
Qed.
End port_rights_lemmas.

(** ** The register of rights

    A reference for the graph: the list of every right ever issued, in order, on which
    each operation is a map or an append. *)

Module Register.
Definition t : Type := list PortRightEntry.

Definition issue (l : t) (h w : WorkspaceId) (k : PortRightType.t) : t :=
  l ++ [{| pre_id := format_id "pr-" (Z.of_nat (length l) + 1); pre_holder := h; pre_target := w;
           pre_kind := k; pre_status := PortRightStatus.Active |}].

(** [f] applied to the active rights that satisfy [P]. *)
Definition on_active (P : PortRightEntry → bool) (f : PortRightEntry → PortRightEntry) (l : t) : t :=
  (λ e, if bool_decide (pre_status e = PortRightStatus.Active) && P e then f e else e) <$> l.

Definition expire (ws : list WorkspaceId) : t → t :=
  on_active (λ e, bool_decide (pre_holder e ∈ ws ∨ pre_target e ∈ ws)) (pre_with_status PortRightStatus.Expired).

Definition step (l : t) (o : port_op) : t :=
  match o with
  | PCreate h w k => issue l h w k
  | PTransfer r h =>
      on_active (λ e, bool_decide (pre_id e = r ∧ pre_kind e ≠ PortRightType.Receive)) (pre_with_holder h) l
  | PConsume r =>
      on_active (λ e, bool_decide (pre_id e = r ∧ pre_kind e = PortRightType.SendOnce))
        (pre_with_status PortRightStatus.Consumed) l
  | PRevoke r => on_active (λ e, bool_decide (pre_id e = r)) (pre_with_status PortRightStatus.Revoked) l
  | PExpire w => expire [w] l
  end.

(** The graph holds the rights of the register and no others. *)
Definition agrees (g : PortRightsGraph.t) (l : t) : Prop :=
  PortRightsGraph.next_id g = Z.of_nat (length l) + 1
  ∧ ∀ e, e ∈ l ↔ PortRightsGraph.get g (pre_id e) = Some e.
End Register.

Section register.
Import PortRightsGraph.
Implicit Types g : PortRightsGraph.t.

Lemma expire_many_get xs g r : port_wf g →
  PortRightsGraph.get (fold_left PortRightsGraph.expire_workspace xs g) r =
  (λ e, if decide (pre_status e = PortRightStatus.Active ∧ (pre_holder e ∈ xs ∨ pre_target e ∈ xs))
        then pre_with_status PortRightStatus.Expired e else e) <$> PortRightsGraph.get g r.
Proof.
  revert g. induction xs as [|x xs IH]; intros g Hwf; cbn [fold_left].
  { destruct (PortRightsGraph.get g r); cbn; [|done]. rewrite decide_False by set_solver. done. }
  rewrite IH by (by apply port_wf_expire). rewrite get_expire_workspace by done.
  destruct (PortRightsGraph.get g r) as [e|]; cbn; [|done]. f_equal.
  destruct (decide (pre_status e = PortRightStatus.Active ∧ (pre_holder e = x ∨ pre_target e = x))) as [H1|H1].
  - cbn. rewrite decide_False by naive_solver. rewrite decide_True by set_solver. done.
  - repeat case_decide; try done; set_solver.
Qed.

Lemma agrees_new : Register.agrees new [].
Proof. split; [done|]. intros e. unfold get. cbn. rewrite lookup_empty, elem_of_nil. done. Qed.

Lemma agrees_map g g' l (F : PortRightEntry → PortRightEntry) :
  (∀ e, pre_id (F e) = pre_id e) → next_id g' = next_id g → (∀ r, get g' r = F <$> get g r) →
  port_wf g → Register.agrees g l → Register.agrees g' (F <$> l).
Proof.
  intros HF Hn Hget Hwf [Hl Hin]. split; [by rewrite length_fmap, Hn|]. intros e.
  rewrite list_elem_of_fmap, Hget. split.
  - intros (e0 & -> & H0). by rewrite HF, (proj1 (Hin e0) H0).
  - destruct (get g (pre_id e)) as [e0|] eqn:H0; [|done]. intros [= <-]. exists e0. split; [done|].
    apply Hin. rewrite HF in H0. by rewrite H0.
Qed.

Lemma agrees_create g l h w k :
  next_id g < u64_max → port_wf g → Register.agrees g l →
  Register.agrees (create g h w k).1 (Register.issue l h w k).
Proof.
  intros Hb Hwf [Hl Hin]. pose proof (pw_next _ Hwf). pose proof (create_fresh g Hwf) as Hfresh.
  split. { unfold Register.issue. rewrite length_app. cbn. rewrite wrap64_small by solve_range. lia. }
  intros e. unfold Register.issue, get in *. rewrite elem_of_app, list_elem_of_singleton, Hin, <-Hl. cbn.
  rewrite lookup_insert. case_decide as Hid; [|naive_solver].
  rewrite <-Hid, Hfresh. naive_solver.
Qed.

(** An operation on one right that checks its guards, as a map. *)
Lemma get_update g r e e' F held :
  port_wf g → get g r = Some e → F e = e' → (∀ e, pre_id e ≠ r → F e = e) →
  ∀ k, get (Mk held (by_target g) (<[r := e']> (by_id g)) (next_id g)) k = F <$> get g k.
Proof.
  intros Hwf He HF Hother k. unfold get in *. cbn. rewrite lookup_insert. case_decide as Hk; [subst; by rewrite He|].
  destruct (by_id g !! k) as [e0|] eqn:H0; cbn; [|done]. f_equal. symmetry. apply Hother.
  rewrite (pw_key _ Hwf _ _ H0). done.
Qed.

Lemma get_refused g r F :
  port_wf g → (∀ e, get g r = Some e → F e = e) → (∀ e, pre_id e ≠ r → F e = e) →
  ∀ k, get g k = F <$> get g k.
Proof.
  intros Hwf Hsame Hother k. destruct (get g k) as [e|] eqn:He; [|done]. cbn. f_equal. symmetry.
  destruct (decide (k = r)) as [->|Hk]; [by apply Hsame|]. apply Hother. by rewrite (pw_key _ Hwf _ _ He).
Qed.

Lemma agrees_expire_many g l ws :
  port_wf g → Register.agrees g l →
  Register.agrees (fold_left expire_workspace ws g) (Register.expire ws l).
Proof.
  intros Hwf Hag. unfold Register.expire, Register.on_active. apply (agrees_map g); try done.
  - intros e. by case_match.
  - clear. revert g. induction ws as [|w ws IH]; intros g; [done|]. cbn [fold_left]. by rewrite IH.
  - intros r. rewrite expire_many_get by done. destruct (get g r) as [e|]; cbn; [|done]. f_equal.
    repeat (case_decide || case_bool_decide); naive_solver.
Qed.

(** An operation [op] on the right [r], case by case. *)
#[local] Ltac on_right g r op :=
  apply (agrees_map g); try done; [by intros ?; case_match|unfold op; by repeat case_match|];
  unfold op; destruct (by_id g !! r) as [e|] eqn:He;
  [pose proof (pw_key _ ltac:(eassumption) _ _ He)|]; repeat case_decide; cbn [fst];
  first [apply (get_refused _ r)|apply (get_update _ _ e)]; try done;
  intros; unfold get in *; simplify_eq; repeat (case_bool_decide; cbn); naive_solver.

(** The graph refines the register, operation by operation. *)
Lemma agrees_step g l o :
  next_id g < u64_max → port_wf g → Register.agrees g l →
  Register.agrees (port_step g o) (Register.step l o).
Proof.
  intros Hb Hwf Hag. destruct o as [h w k|r h|r|r|w]; cbn [port_step Register.step].
  - by apply agrees_create.
  - on_right g r transfer.
  - on_right g r consume.
  - on_right g r revoke.
  - exact (agrees_expire_many g l [w] Hwf Hag).
Qed.
End register.

(** ** Properties *)

(**  In every graph built by fewer than 2^64 - 1 operations the three indices
    describe the same set of rights: the ids listed for a holder (target) are
    exactly those of the entries with that holder (target), each listed once, and
    ids are never reused. *)
Theorem port_rights_invariant (ops : list port_op) :
  Z.of_nat (length ops) < u64_max → port_wf (port_run ops).
Proof. intros Hb. apply port_wf_steps; [cbn; lia|apply port_wf_new]. Qed.

Lemma port_rights_invariant_witness :
  port_wf (port_run [PCreate "a" "b" PortRightType.SendOnce; PTransfer "pr-1" "c"; PExpire "b"]).
Proof. apply port_rights_invariant. cbn. solve_range. Defined.

(**  No right, no delivery: [validate_send] succeeds exactly when the sender
    holds an active send or send-once right to the target, and returns such a
    right; otherwise it reports that there is none. *)
Theorem validate_send_correct (g : PortRightsGraph.t) (sender target : WorkspaceId) :
  port_wf g →
  match PortRightsGraph.validate_send g sender target with
  | Ok id => ∃ e, PortRightsGraph.get g id = Some e ∧ pre_holder e = sender ∧ pre_target e = target
      ∧ pre_status e = PortRightStatus.Active ∧ pre_kind e ≠ PortRightType.Receive
  | Err err =>
      (err = NoRights ∨ err = NoRightToTarget target)
      ∧ ∀ id e, PortRightsGraph.get g id = Some e → pre_holder e = sender → pre_target e = target →
          pre_status e = PortRightStatus.Active → pre_kind e = PortRightType.Receive
  end.
Proof.
  intros Hwf. unfold PortRightsGraph.validate_send, PortRightsGraph.get.
  destruct (PortRightsGraph.by_holder g !! sender) as [ids|] eqn:Hs.
  - assert (idx (PortRightsGraph.by_holder g) sender = ids) as Hidx
      by (unfold idx; by rewrite Hs).
    destruct (PortRightsGraph.find_sendable _ _ ids) as [id|] eqn:Hf.
    + apply find_sendable_Some in Hf as (Hin & e & He & Hsend).
      rewrite <-Hidx in Hin. apply (pw_holder _ Hwf) in Hin as (e' & He' & Hh).
      apply sendable_iff in Hsend. naive_solver.
    + split; [by right|]. intros id e He Hh Ht Ha. subst.
      assert (id ∈ idx (PortRightsGraph.by_holder g) (pre_holder e)) as Hin
        by (apply (pw_holder _ Hwf); eauto).
      pose proof (find_sendable_None _ _ _ _ _ Hf Hin He) as Hno.
      apply not_true_iff_false in Hno. rewrite sendable_iff in Hno.
      destruct (pre_kind e) eqn:Hk; naive_solver.
  - split; [by left|]. intros id e He Hh _ _.
    assert (id ∈ idx (PortRightsGraph.by_holder g) sender) as Hin
      by (apply (pw_holder _ Hwf); eauto).
    unfold idx in Hin. rewrite Hs in Hin. by apply not_elem_of_nil in Hin.
Qed.

Lemma validate_send_correct_witness :
  let g := port_run [PCreate "a" "b" PortRightType.Send; PCreate "a" "c" PortRightType.Receive] in
  PortRightsGraph.validate_send g "a" "b" = Ok "pr-1"
  ∧ match PortRightsGraph.validate_send g "a" "b" with
    | Ok id => ∃ e, PortRightsGraph.get g id = Some e ∧ pre_holder e = "a" ∧ pre_target e = "b"
        ∧ pre_status e = PortRightStatus.Active ∧ pre_kind e ≠ PortRightType.Receive
    | Err err =>
        (err = NoRights ∨ err = NoRightToTarget "b")
        ∧ ∀ id e, PortRightsGraph.get g id = Some e → pre_holder e = "a" → pre_target e = "b" →
            pre_status e = PortRightStatus.Active → pre_kind e = PortRightType.Receive
    end.
Proof.
  split; [reflexivity|]. apply validate_send_correct.
  apply port_wf_steps; [cbn; solve_range|apply port_wf_new].
Defined.

(**  Send-once means once: a successful [consume] was of an active send-once
    right, and whatever operations follow, the right stays consumed, is never
    returned by [validate_send] again, and cannot be consumed, revoked or
    transferred. *)
Theorem consumed_right_dead (g g' : PortRightsGraph.t) (id : string) (ops : list port_op)
    (sender target : WorkspaceId) :
  port_wf g → PortRightsGraph.next_id g + Z.of_nat (length ops) ≤ u64_max →
  PortRightsGraph.consume g id = (g', Ok tt) →
  let g'' := fold_left port_step ops g' in
  (∃ e, PortRightsGraph.get g id = Some e ∧ pre_kind e = PortRightType.SendOnce
        ∧ pre_status e = PortRightStatus.Active
        ∧ PortRightsGraph.get g'' id = Some (pre_with_status PortRightStatus.Consumed e))
  ∧ PortRightsGraph.validate_send g'' sender target ≠ Ok id
  ∧ PortRightsGraph.consume g'' id = (g'', Err NotActive)
  ∧ PortRightsGraph.revoke g'' id = (g'', Err NotActive)
  ∧ ∀ h, PortRightsGraph.transfer g'' id h = (g'', Err NotActive).
Proof.
  intros Hwf Hb Hc g''. pose proof (port_wf_consume g id Hwf) as Hwf'. rewrite Hc in Hwf'. cbn in Hwf'.
  unfold PortRightsGraph.consume in Hc.
  destruct (PortRightsGraph.by_id g !! id) as [e|] eqn:He; [|discriminate].
  case_decide as Hk; [discriminate|]. case_decide as Ha; [discriminate|].
  injection Hc as <-.
  assert (PortRightsGraph.get g'' id = Some (pre_with_status PortRightStatus.Consumed e)) as Hg''.
  { apply port_steps_dead; cbn; [lia|exact Hwf'|apply lookup_insert_eq|done]. }
  assert (port_wf g'') as Hwf'' by (apply port_wf_steps; [cbn; lia|exact Hwf']).
  split; [by exists e|]. split.
  - intros Hv. unfold PortRightsGraph.validate_send in Hv. repeat case_match; simplify_eq.
    match goal with Hf : PortRightsGraph.find_sendable _ _ _ = _ |- _ =>
      apply find_sendable_Some in Hf as (_ & e' & He' & [_ [Hact _]]%sendable_iff) end.
    unfold PortRightsGraph.get in Hg''. by simplify_eq.
  - unfold PortRightsGraph.get in Hg''.
    unfold PortRightsGraph.consume, PortRightsGraph.revoke, PortRightsGraph.transfer.
    rewrite Hg''. cbn. rewrite Hk. split; [|split]; [| |intros h]; repeat case_decide; naive_solver.
Qed.

Lemma consumed_right_dead_witness :
  let g := port_run [PCreate "a" "b" PortRightType.SendOnce] in
  let g' := (PortRightsGraph.consume g "pr-1").1 in
  let g'' := fold_left port_step [PRevoke "pr-1"; PCreate "a" "b" PortRightType.Send] g' in
  (∃ e, PortRightsGraph.get g "pr-1" = Some e ∧ pre_kind e = PortRightType.SendOnce
        ∧ pre_status e = PortRightStatus.Active
        ∧ PortRightsGraph.get g'' "pr-1" = Some (pre_with_status PortRightStatus.Consumed e))
  ∧ PortRightsGraph.validate_send g'' "a" "b" ≠ Ok "pr-1"
  ∧ PortRightsGraph.consume g'' "pr-1" = (g'', Err NotActive)
  ∧ PortRightsGraph.revoke g'' "pr-1" = (g'', Err NotActive)
  ∧ ∀ h, PortRightsGraph.transfer g'' "pr-1" h = (g'', Err NotActive).
Proof.
  apply consumed_right_dead.
  - apply port_wf_steps; [cbn; solve_range|apply port_wf_new].
  - cbn. rewrite wrap64_small; solve_range.
  - reflexivity.
Defined.

(**  A workspace that reaches a terminal state keeps no active right: expiring
    it turns exactly the active rights it holds or is the target of into Expired,
    leaves every other right as it was, and no send from or to it validates. *)
Theorem expire_workspace_effect (g : PortRightsGraph.t) (w other : WorkspaceId) (id : string) :
  port_wf g →
  let g' := PortRightsGraph.expire_workspace g w in
  PortRightsGraph.get g' id
  = (λ e, if decide (pre_status e = PortRightStatus.Active ∧ (pre_holder e = w ∨ pre_target e = w))
          then pre_with_status PortRightStatus.Expired e else e) <$> PortRightsGraph.get g id
  ∧ is_ok (PortRightsGraph.validate_send g' w other) = false
  ∧ is_ok (PortRightsGraph.validate_send g' other w) = false.
Proof.
  intros Hwf g'. split; [by apply get_expire_workspace|].
  pose proof (port_wf_expire g w Hwf) as Hwf'.
  assert (∀ i e, PortRightsGraph.get g' i = Some e → pre_status e = PortRightStatus.Active →
      pre_holder e ≠ w ∧ pre_target e ≠ w) as Hno.
  { intros i e He Ha. unfold g' in He. rewrite get_expire_workspace in He by done.
    destruct (PortRightsGraph.get g i) as [e0|]; [|done]. cbn in He.
    case_decide; naive_solver. }
  assert (∀ s u, s = w ∨ u = w → is_ok (PortRightsGraph.validate_send g' s u) = false) as Hv.
  { intros s u Hsu. destruct (PortRightsGraph.validate_send g' s u) as [i|] eqn:Hval; [|done].
    unfold PortRightsGraph.validate_send in Hval. repeat case_match; simplify_eq.
    match goal with Hf : PortRightsGraph.find_sendable _ _ _ = _ |- _ =>
      apply find_sendable_Some in Hf as (Hin & e & He & (Ht & Ha & _)%sendable_iff) end.
    destruct (Hno i e He Ha) as [Hh Ht'].
    assert (i ∈ idx (PortRightsGraph.by_holder g') s) as Hi
      by (unfold idx; match goal with Hm : _ !! s = Some _ |- _ => by rewrite Hm end).
    apply (pw_holder _ Hwf') in Hi as (e' & He' & Hh').
    unfold PortRightsGraph.get in He. naive_solver. }
  auto.
Qed.

Lemma expire_workspace_effect_witness :
  let g := port_run [PCreate "a" "b" PortRightType.Send] in
  let g' := PortRightsGraph.expire_workspace g "b" in
  PortRightsGraph.get g' "pr-1"
  = (λ e, if decide (pre_status e = PortRightStatus.Active ∧ (pre_holder e = "b" ∨ pre_target e = "b"))
          then pre_with_status PortRightStatus.Expired e else e) <$> PortRightsGraph.get g "pr-1"
  ∧ is_ok (PortRightsGraph.validate_send g' "b" "a") = false
  ∧ is_ok (PortRightsGraph.validate_send g' "a" "b") = false.
Proof.
  apply expire_workspace_effect. apply port_wf_steps; [cbn; solve_range|apply port_wf_new].
Defined.
