(* ===== verification/Tree.v ===== *)
(** * Workspace tree (wacp-coordinator: tree.rs)

    A flat table of nodes with parent and children links, an originator index and
    an owner index.  Traversals loop in the source until their queue is empty;
    here they take fuel and return [None] when it runs out.  On a well-formed tree
    one unit per node plus one is enough, because each node is visited once, and
    the theorems show the traversals return. *)

From S2P Require Import Prelude Types.

Inductive TreeError : Set :=
| ParentNotFound (parent : string)
| DuplicateNode (id : string)
| NodeNotFound (id : string)
| SameOwner.

Record WorkspaceNode := {
  node_id : WorkspaceId;
  node_parent : option WorkspaceId;
  node_children : list WorkspaceId;
  node_owner : UserId;
  node_originator : Originator.t;
  node_status : WorkspaceState.t;
  node_task_id : option TaskId;
}.

Definition node_with_status (s : WorkspaceState.t) (n : WorkspaceNode) : WorkspaceNode := {|
  node_id := node_id n; node_parent := node_parent n; node_children := node_children n;
  node_owner := node_owner n; node_originator := node_originator n;
  node_status := s; node_task_id := node_task_id n |}.

Definition node_with_owner (o : UserId) (n : WorkspaceNode) : WorkspaceNode := {|
  node_id := node_id n; node_parent := node_parent n; node_children := node_children n;
  node_owner := o; node_originator := node_originator n;
  node_status := node_status n; node_task_id := node_task_id n |}.

Definition node_with_parent (p : option WorkspaceId) (n : WorkspaceNode) : WorkspaceNode := {|
  node_id := node_id n; node_parent := p; node_children := node_children n;
  node_owner := node_owner n; node_originator := node_originator n;
  node_status := node_status n; node_task_id := node_task_id n |}.

Definition node_with_children (cs : list WorkspaceId) (n : WorkspaceNode) : WorkspaceNode := {|
  node_id := node_id n; node_parent := node_parent n; node_children := cs;
  node_owner := node_owner n; node_originator := node_originator n;
  node_status := node_status n; node_task_id := node_task_id n |}.

Module WorkspaceTree.
Record t := Mk {
  nodes : gmap string WorkspaceNode;
  root : WorkspaceId;
  originator_index : gmap Originator.t (list WorkspaceId);
  owner_index : gmap UserId (list WorkspaceId);
}.

Definition with_nodes (ns : gmap string WorkspaceNode) (self : t) : t :=
  Mk ns (root self) (originator_index self) (owner_index self).

Definition new (root_id : WorkspaceId) (owner : UserId) : t :=
  let node := {| node_id := root_id; node_parent := None; node_children := [];
                 node_owner := owner; node_originator := Originator.System;
                 node_status := WorkspaceState.Active; node_task_id := None |} in
  Mk {[root_id := node]} root_id (push_entry Originator.System root_id ∅)
     (push_entry owner root_id ∅).

Definition insert (self : t) (node : WorkspaceNode) : t * result unit TreeError :=
  match nodes self !! node_id node with
  | Some _ => (self, Err (DuplicateNode (node_id node)))
  | None =>
      match node_parent node with
      | None => (self, Err (ParentNotFound "None"))
      | Some parent =>
          match nodes self !! parent with
          | None => (self, Err (ParentNotFound parent))
          | Some _ =>
              let ns := <[node_id node := node]> (nodes self) in
              let ns := alter (λ p, node_with_children (node_children p ++ [node_id node]) p)
                          parent ns in
              (Mk ns (root self)
                 (push_entry (node_originator node) (node_id node) (originator_index self))
                 (push_entry (node_owner node) (node_id node) (owner_index self)), Ok tt)
          end
      end
  end.

Definition get (self : t) (id : WorkspaceId) : option WorkspaceNode := nodes self !! id.

Definition children_of (ns : gmap string WorkspaceNode) (id : WorkspaceId) : list WorkspaceId :=
  match ns !! id with Some n => node_children n | None => [] end.

Definition children (self : t) (id : WorkspaceId) : list WorkspaceId := children_of (nodes self) id.

Definition siblings (self : t) (id : WorkspaceId) : list WorkspaceId :=
  match nodes self !! id with
  | None => []
  | Some node =>
      match node_parent node with
      | None => []
      | Some parent => filter (λ c, c ≠ id) (children_of (nodes self) parent)
      end
  end.

(** The breadth-first loop: pop a node, append its children to result and queue. *)
Fixpoint bfs (fuel : nat) (ns : gmap string WorkspaceNode) (queue result : list WorkspaceId)
    : option (list WorkspaceId) :=
  match queue with
  | [] => Some result
  | current :: queue =>
      match fuel with
      | O => None
      | S fuel =>
          bfs fuel ns (queue ++ children_of ns current) (result ++ children_of ns current)
      end
  end.

Definition descendants (self : t) (id : WorkspaceId) : option (list WorkspaceId) :=
  bfs (S (size (nodes self))) (nodes self) [id] [].

Fixpoint climb (fuel : nat) (ns : gmap string WorkspaceNode) (current : WorkspaceId)
    : option (list WorkspaceId) :=
  match ns !! current with
  | None => Some []
  | Some node =>
      match node_parent node with
      | None => Some []
      | Some parent =>
          match fuel with
          | O => None
          | S fuel => chain ← climb fuel ns parent; Some (parent :: chain)
          end
      end
  end.

Definition parent_chain (self : t) (id : WorkspaceId) : option (list WorkspaceId) :=
  climb (size (nodes self)) (nodes self) id.

Definition by_originator (self : t) (o : Originator.t) : list WorkspaceId := idx (originator_index self) o.

Definition by_owner (self : t) (owner : UserId) : list WorkspaceId := idx (owner_index self) owner.

Definition causal_descendants (self : t) (id : WorkspaceId) (o : Originator.t)
    : option (list WorkspaceId) :=
  desc ← descendants self id;
  Some (filter (λ d, d ∈ by_originator self o) desc).

Definition transfer_owner (self : t) (id : WorkspaceId) (new_owner : UserId)
    : t * result UserId TreeError :=
  match nodes self !! id with
  | None => (self, Err (NodeNotFound id))
  | Some node =>
      if decide (node_owner node = new_owner) then (self, Err SameOwner) else
      let old_owner := node_owner node in
      let owners := retain_at (λ w, w ≠ id) old_owner (owner_index self) in
      let owners := push_entry new_owner id owners in
      (Mk (<[id := node_with_owner new_owner node]> (nodes self)) (root self) (originator_index self) owners,
       Ok old_owner)
  end.

Definition update_status (self : t) (id : WorkspaceId) (s : WorkspaceState.t) : t :=
  with_nodes (alter (node_with_status s) id (nodes self)) self.

Definition reparent (self : t) (child new_parent : WorkspaceId) : t :=
  let ns := nodes self in
  let ns :=
    match ns !! child with
    | Some node =>
        match node_parent node with
        | Some old_parent =>
            alter (λ p, node_with_children (filter (λ c, c ≠ child) (node_children p)) p)
              old_parent ns
        | None => ns
        end
    | None => ns
    end in
  let ns := alter (node_with_parent (Some new_parent)) child ns in
  let ns :=
    alter (λ p, if decide (child ∈ node_children p) then p
                else node_with_children (node_children p ++ [child]) p) new_parent ns in
  with_nodes ns self.

(** One iteration of the loop of [cascade_failure]. *)
Definition cascade_step (owner : UserId) (acc : t * list WorkspaceId)
    (child_id : WorkspaceId) : t * list WorkspaceId :=
  let '(self, reparented) := acc in
  match nodes self !! child_id with
  | None => (self, reparented)
  | Some n =>
      if decide (node_owner n = owner)
      then (with_nodes (alter (node_with_status WorkspaceState.Failed) child_id (nodes self)) self, reparented)
      else (reparent self child_id (root self), reparented ++ [child_id])
  end.

Definition cascade_failure (self : t) (id : WorkspaceId) : option (t * list WorkspaceId) :=
  match nodes self !! id with
  | None => Some (self, [])
  | Some n =>
      let self := update_status self id WorkspaceState.Failed in
      desc ← descendants self id;
      Some (fold_left (cascade_step (node_owner n)) desc (self, []))
  end.

Definition causal_impact (self : t) (user_id : UserId) : list WorkspaceId :=
  filter (λ id, match nodes self !! id with
                | Some n => negb (WorkspaceState.is_terminal (node_status n))
                | None => false
                end = true) (by_originator self (Originator.User user_id)).

Definition is_causal_boundary (self : t) (id : WorkspaceId) : bool :=
  match nodes self !! id with
  | None => false
  | Some node =>
      match node_parent node with
      | None => false
      | Some parent_id =>
          match nodes self !! parent_id with
          | None => false
          | Some parent => bool_decide (node_originator node ≠ node_originator parent)
          end
      end
  end.

Definition active_workspaces `{HashOrder} (self : t) : list WorkspaceId :=
  node_id <$> filter (λ n, WorkspaceState.is_terminal (node_status n) = false) (values (nodes self)).
End WorkspaceTree.

(** ** Well-formed trees *)

Abbreviation children_of := WorkspaceTree.children_of.

Definition edge (ns : gmap string WorkspaceNode) (p c : WorkspaceId) : Prop := c ∈ children_of ns p.

(** [desc ns a d]: [d] is below [a]. *)
Definition desc (ns : gmap string WorkspaceNode) : WorkspaceId → WorkspaceId → Prop := tc (edge ns).

(** Parent and children links describe one rooted tree.  The rank rules out
    cycles. *)
Record forest_wf (ns : gmap string WorkspaceNode) (root : WorkspaceId) : Prop := {
  fw_id : ∀ k n, ns !! k = Some n → node_id n = k;
  fw_root : ∃ n, ns !! root = Some n ∧ node_parent n = None;
  fw_parent : ∀ k n, ns !! k = Some n → k ≠ root → node_parent n ≠ None;
  fw_link : ∀ p c, edge ns p c ↔ ∃ n, ns !! c = Some n ∧ node_parent n = Some p;
  fw_nodup : ∀ p, NoDup (children_of ns p);
  fw_rank : ∃ rank : WorkspaceId → nat, ∀ p c, edge ns p c → (rank p < rank c)%nat;
}.

(** The two indices list exactly the nodes with the indexed attribute. *)
Record index_wf {K} `{Countable K} (ns : gmap string WorkspaceNode) (attr : WorkspaceNode → K)
    (m : gmap K (list WorkspaceId)) : Prop := {
  iw_exact : ∀ a k, k ∈ idx m a ↔ ∃ n, ns !! k = Some n ∧ attr n = a;
  iw_nodup : ∀ a, NoDup (idx m a);
}.

Record tree_wf (t : WorkspaceTree.t) : Prop := {
  tw_forest : forest_wf (WorkspaceTree.nodes t) (WorkspaceTree.root t);
  tw_owner : index_wf (WorkspaceTree.nodes t) node_owner (WorkspaceTree.owner_index t);
  tw_originator : index_wf (WorkspaceTree.nodes t) node_originator (WorkspaceTree.originator_index t);
}.

Implicit Types ns : gmap string WorkspaceNode.

(** The part of a node the links consist of. *)
Definition links (n : WorkspaceNode) : WorkspaceId * option WorkspaceId * list WorkspaceId :=
  (node_id n, node_parent n, node_children n).

Lemma children_of_links ns ns' p : links <$> ns = links <$> ns' → children_of ns p = children_of ns' p.
Proof.
  intros Heq. apply (f_equal (.!! p)) in Heq. rewrite !lookup_fmap in Heq.
  unfold children_of. unfold links in Heq. by destruct (ns !! p), (ns' !! p); simplify_eq/=.
Qed.

Lemma lookup_links ns ns' k n :
  links <$> ns = links <$> ns' → ns' !! k = Some n → ∃ n', ns !! k = Some n' ∧ links n' = links n.
Proof.
  intros Heq Hk. apply (f_equal (.!! k)) in Heq. rewrite !lookup_fmap, Hk in Heq.
  destruct (ns !! k) as [n'|]; [|done]. exists n'. by apply (inj Some) in Heq.
Qed.

Lemma forest_wf_links ns ns' r : links <$> ns = links <$> ns' → forest_wf ns r → forest_wf ns' r.
Proof.
  intros Heq [Hid [n0 [Hr Hp]] Hpar Hlink Hnd [rank Hrank]].
  assert (∀ p c, edge ns' p c ↔ edge ns p c) as He.
  { intros. unfold edge. by rewrite (children_of_links _ _ _ Heq). }
  split.
  - intros k n Hk. destruct (lookup_links _ _ _ _ Heq Hk) as (n' & Hk' & Hl).
    apply Hid in Hk'. unfold links in Hl. by simplify_eq.
  - destruct (lookup_links _ _ _ _ (eq_sym Heq) Hr) as (n' & Hk' & Hl).
    unfold links in Hl. exists n'. split; [done|congruence].
  - intros k n Hk Hne. destruct (lookup_links _ _ _ _ Heq Hk) as (n' & Hk' & Hl).
    apply Hpar in Hk'; [|done]. unfold links in Hl. congruence.
  - intros p c. rewrite He, Hlink. split; intros (n & Hn & Hpn).
    + destruct (lookup_links _ _ _ _ (eq_sym Heq) Hn) as (n' & ? & Hl).
      exists n'. split; [done|]. unfold links in Hl. congruence.
    + destruct (lookup_links _ _ _ _ Heq Hn) as (n' & ? & Hl).
      exists n'. split; [done|]. unfold links in Hl. congruence.
  - intros p. rewrite <- (children_of_links _ _ p Heq). apply Hnd.
  - exists rank. intros p c Hpc. by apply Hrank, He.
Qed.

Lemma links_alter ns f k :
  (∀ n, links (f n) = links n) → links <$> alter f k ns = links <$> ns.
Proof.
  intros Hf. apply map_eq. intros j. rewrite !lookup_fmap, lookup_alter.
  case_decide; [subst|done]. destruct (ns !! j); cbn; [by rewrite Hf|done].
Qed.

Section forest.
Context (ns : gmap string WorkspaceNode) (root : WorkspaceId) (Hwf : forest_wf ns root).

Lemma edge_in p c : edge ns p c → is_Some (ns !! p) ∧ is_Some (ns !! c).
Proof.
  intros Hpc. split.
  - unfold edge, WorkspaceTree.children_of in Hpc. destruct (ns !! p); [done|set_solver].
  - apply (fw_link _ _ Hwf) in Hpc as (n & -> & _). done.
Qed.

Lemma edge_unique p q c : edge ns p c → edge ns q c → p = q.
Proof.
  intros (n & Hn & Hp)%(fw_link _ _ Hwf) (m & Hm & Hq)%(fw_link _ _ Hwf). congruence.
Qed.

Lemma desc_rank : ∃ rank : WorkspaceId → nat, ∀ a d, desc ns a d → (rank a < rank d)%nat.
Proof.
  destruct (fw_rank _ _ Hwf) as [rank Hrank]. exists rank.
  induction 1 as [a d Hpc|a b d Hpc _ IH]; [by apply Hrank|]. specialize (Hrank _ _ Hpc). lia.
Qed.

Lemma desc_irrefl a : ¬ desc ns a a.
Proof. destruct desc_rank as [rank Hr]. intros H%Hr. lia. Qed.

Lemma desc_in a d : desc ns a d → is_Some (ns !! a) ∧ is_Some (ns !! d).
Proof. induction 1 as [a d H|a b d H _ IH]; apply edge_in in H; naive_solver. Qed.

Lemma edge_root c : ¬ edge ns c root.
Proof.
  intros (n & Hn & Hp)%(fw_link _ _ Hwf). destruct (fw_root _ _ Hwf) as (m & ? & ?). congruence.
Qed.

Lemma desc_last a d : desc ns a d → ∃ b, (b = a ∨ desc ns a b) ∧ edge ns b d.
Proof. revert d. apply tc_ind_r; naive_solver. Qed.

Lemma desc_root a : ¬ desc ns a root.
Proof. intros (b & _ & H)%desc_last. by apply edge_root in H. Qed.

Lemma parent_edge k n : ns !! k = Some n → k ≠ root → ∃ p, node_parent n = Some p ∧ edge ns p k.
Proof.
  intros Hk Hne. destruct (node_parent n) as [p|] eqn:Hp.
  - exists p. split; [done|]. apply (fw_link _ _ Hwf). eauto.
  - by destruct (fw_parent _ _ Hwf k n).
Qed.

Lemma root_above k : is_Some (ns !! k) → k ≠ root → desc ns root k.
Proof.
  destruct (fw_rank _ _ Hwf) as [rank Hrank].
  remember (rank k) as r eqn:Hr. revert k Hr.
  induction r as [r IH] using lt_wf_ind. intros k -> [n Hk] Hne.
  destruct (parent_edge k n Hk Hne) as (p & _ & Hpk).
  destruct (decide (p = root)) as [->|Hp]; [by apply tc_once|].
  eapply tc_r; [|exact Hpk]. eapply IH; eauto. by apply edge_in in Hpk as [? _].
Qed.

(** *** Breadth-first search *)

(** After visiting [V] with [Q] queued, the result lists the children of [V]. *)
Record bfs_inv (id : WorkspaceId) (V Q R : list WorkspaceId) : Prop := {
  bi_split : id :: R = V ++ Q;
  bi_nodup : NoDup (id :: R);
  bi_children : ∀ c, c ∈ R ↔ ∃ v, v ∈ V ∧ edge ns v c;
  bi_desc : ∀ c, c ∈ R → desc ns id c;
}.

Lemma bfs_inv_step id V x Q R :
  bfs_inv id V (x :: Q) R → bfs_inv id (V ++ [x]) (Q ++ children_of ns x) (R ++ children_of ns x).
Proof.
  intros [Hs Hnd Hch Hd].
  assert (x = id ∨ desc ns id x) as Hx.
  { assert (x ∈ id :: R) as Hin by (rewrite Hs; set_solver).
    apply elem_of_cons in Hin as [?|?]; auto. }
  assert (∀ c, edge ns x c → desc ns id c) as Hxc.
  { intros c Hc. destruct Hx as [->|Hx]; [by apply tc_once|by eapply tc_r]. }
  split.
  - by rewrite <- app_assoc, app_comm_cons, Hs, <- app_assoc.
  - rewrite app_comm_cons, NoDup_app. split_and!; [done| |apply (fw_nodup _ _ Hwf)].
    intros c [-> | Hc]%elem_of_cons Hxe; [by eapply desc_irrefl, Hxc|].
    apply Hch in Hc as (v & Hv & Hvc). assert (v = x) as -> by (by eapply edge_unique).
    rewrite Hs, NoDup_app in Hnd. destruct Hnd as (_ & Hdis & _). eapply Hdis; set_solver.
  - intros c. rewrite elem_of_app, Hch. split.
    + intros [(v & ? & ?)|?]; [exists v|exists x]; set_solver.
    + intros (v & [Hv | ->]%elem_of_snoc & Hvc); [left; eauto|by right].
  - intros c [Hc|Hc]%elem_of_app; [by apply Hd|by apply Hxc].
Qed.

Lemma bfs_inv_bound id V Q R : bfs_inv id V Q R → (length V + length Q ≤ S (size ns))%nat.
Proof.
  intros [Hs Hnd _ Hd]. rewrite <- length_app, <- Hs. cbn [length]. apply le_n_S.
  apply NoDup_cons in Hnd as [_ Hnd]. rewrite <- (size_dom (D := gset string)), <- (size_list_to_set (C := gset string) R) by done.
  apply subseteq_size. intros c Hc%elem_of_list_to_set. apply elem_of_dom, (desc_in id). by apply Hd.
Qed.

Lemma bfs_spec id fuel V Q R :
  bfs_inv id V Q R → (S (size ns) ≤ fuel + length V)%nat →
  ∃ D, WorkspaceTree.bfs fuel ns Q R = Some D ∧ NoDup (id :: D) ∧ ∀ c, c ∈ D ↔ desc ns id c.
Proof.
  revert V Q R. induction fuel as [|fuel IH]; intros V [|x Q] R Hinv Hfuel.
  1, 3: exists R; destruct Hinv as [Hs Hnd Hch Hd]; split; [done|]; split; [done|];
    intros c; split; [apply Hd|]; revert c; rewrite app_nil_r in Hs; apply tc_ind_r;
    [intros; apply Hch; exists id|intros y z _ Hyz Hy; apply Hch; exists y]; rewrite <- Hs; set_solver.
  - apply bfs_inv_bound in Hinv. cbn [length] in *. lia.
  - eapply IH; [by apply bfs_inv_step|]. rewrite length_app. cbn. lia.
Qed.
End forest.

(** [descendants] returns, and lists exactly the nodes below [id], once each. *)
Lemma descendants_spec t id :
  forest_wf (WorkspaceTree.nodes t) (WorkspaceTree.root t) →
  ∃ D, WorkspaceTree.descendants t id = Some D ∧ NoDup (id :: D) ∧
       ∀ c, c ∈ D ↔ desc (WorkspaceTree.nodes t) id c.
Proof.
  intros Hwf. eapply (bfs_spec _ _ Hwf id _ []); [|lia].
  split; [done|apply NoDup_singleton|set_solver|set_solver].
Qed.

(** *** Walking up *)

Lemma climb_spec ns root fuel (X : gset string) k :
  forest_wf ns root → is_Some (ns !! k) → (∀ x, x ∈ X → desc ns k x) →
  (size ns ≤ fuel + size X)%nat →
  ∃ chain, WorkspaceTree.climb fuel ns k = Some chain ∧
    (∀ a, a ∈ chain ↔ desc ns a k) ∧ last (k :: chain) = Some root.
Proof.
  intros Hwf. revert X k. induction fuel as [|fuel IH]; intros X k [n Hk] HX Hfuel.
  all: cbn; rewrite Hk; destruct (decide (k = root)) as [->|Hne].
  1, 3: destruct (fw_root _ _ Hwf) as (m & ? & Hp); simplify_eq; rewrite Hp; exists []; split_and!; [done| |done];
    intros a; split; [set_solver|intros H; by apply (desc_root _ _ Hwf) in H].
  - exfalso. assert (k ∉ X) as Hfresh by (intros ?%HX; by eapply desc_irrefl).
    assert (size ({[k]} ∪ X) ≤ size ns)%nat as Hs.
    { rewrite <- (size_dom (D := gset string)). apply subseteq_size. intros x.
      rewrite elem_of_union, elem_of_singleton, elem_of_dom.
      intros [-> | Hx%HX]; [by eexists|]. by apply (desc_in _ _ Hwf) in Hx as [_ ?]. }
    rewrite size_union, size_singleton in Hs by set_solver. lia.
  - destruct (parent_edge _ _ Hwf _ _ Hk Hne) as (p & Hp & Hpk).
    destruct (IH ({[k]} ∪ X) p) as (chain & Hc & Hin & Hlast).
    + by apply (edge_in _ _ Hwf) in Hpk as [? _].
    + intros x [->%elem_of_singleton|Hx%HX]%elem_of_union; [by apply tc_once|by eapply tc_l].
    + rewrite size_union, size_singleton; [lia|].
      intros x ->%elem_of_singleton Hx%HX. by eapply desc_irrefl.
    + exists (p :: chain). rewrite Hp, Hc. split_and!; [done| |exact Hlast].
      intros a. rewrite elem_of_cons, Hin. split.
      * intros [->|Ha]; [by apply tc_once|by eapply tc_r].
      * intros (b & Hb & Hbk)%desc_last. assert (b = p) as -> by (by eapply edge_unique). naive_solver.
Qed.

(** ** Preservation *)

Lemma children_of_lookup ns k n : ns !! k = Some n → children_of ns k = node_children n.
Proof. unfold children_of. by intros ->. Qed.

Lemma forest_wf_new root owner :
  forest_wf (WorkspaceTree.nodes (WorkspaceTree.new root owner)) root.
Proof.
  cbn. set (n := Build_WorkspaceNode _ _ _ _ _ _ _).
  assert (∀ p, children_of {[root := n]} p = []) as Hch.
  { intros p. unfold children_of. destruct ({[root := n]} !! p) eqn:Hl; [|done].
    by apply lookup_singleton_Some in Hl as [_ <-]. }
  assert (∀ p c, ¬ edge {[root := n]} p c) as He.
  { intros p c. unfold edge. rewrite Hch. apply not_elem_of_nil. }
  split.
  - intros k m [<- <-]%lookup_singleton_Some. done.
  - exists n. by rewrite lookup_singleton_eq.
  - by intros k m [<- _]%lookup_singleton_Some.
  - intros p c. split; [by intros ?%He|].
    by intros (m & [<- <-]%lookup_singleton_Some & ?).
  - intros p. rewrite Hch. constructor.
  - exists (λ _, 0%nat). by intros p c ?%He.
Qed.

Section index.
Context `{Countable K} (attr : WorkspaceNode → K).

Lemma index_wf_empty : index_wf ∅ attr ∅.
Proof.
  split; intros a; rewrite idx_empty; [|constructor].
  intros k. rewrite elem_of_nil. split; [done|]. by intros (n & ? & _); simplify_map_eq.
Qed.

Lemma index_wf_push ns m k n :
  index_wf ns attr m → ns !! k = None → index_wf (<[k := n]> ns) attr (push_entry (attr n) k m).
Proof.
  intros [Hex Hnd] Hfresh.
  assert (∀ a, k ∉ idx m a) as Hk by (intros a (? & ? & _)%Hex; congruence).
  split; intros a; rewrite idx_push_entry.
  - intros j. rewrite lookup_insert. case_decide; [subst a|]; rewrite ?elem_of_snoc, Hex.
    + split; [intros [(n' & Hj & ?)| ->]|].
      * rewrite decide_False by congruence. eauto.
      * rewrite decide_True by done. eauto.
      * intros (n' & Hj & ?). case_decide; [by right|left; eauto].
    + case_decide; subst; [|done]. rewrite Hfresh.
      split; intros (n' & ? & ?); simplify_eq.
  - case_decide; [subst a; apply NoDup_snoc; auto|apply Hnd].
Qed.

Lemma index_wf_attr ns ns' m : attr <$> ns = attr <$> ns' → index_wf ns attr m → index_wf ns' attr m.
Proof.
  intros Heq [Hex Hnd]. split; [|done]. intros a k. rewrite Hex.
  apply (f_equal (.!! k)) in Heq. rewrite !lookup_fmap in Heq.
  destruct (ns !! k), (ns' !! k); naive_solver.
Qed.

Lemma attr_alter ns f k : (∀ n, attr (f n) = attr n) → attr <$> alter f k ns = attr <$> ns.
Proof.
  intros Hf. apply map_eq. intros j. rewrite !lookup_fmap, lookup_alter.
  case_decide; [subst|done]. destruct (ns !! j); cbn; [by rewrite Hf|done].
Qed.
End index.

Lemma tree_wf_new root owner : tree_wf (WorkspaceTree.new root owner).
Proof.
  split; [apply forest_wf_new| |]; cbn; rewrite <- insert_empty.
  - by apply (index_wf_push node_owner _ _ _ (Build_WorkspaceNode _ _ _ _ _ _ _)), lookup_empty;
      apply index_wf_empty.
  - by apply (index_wf_push node_originator _ _ _ (Build_WorkspaceNode _ _ _ _ _ _ _)), lookup_empty;
      apply index_wf_empty.
Qed.

(** Adding a leaf. *)
Lemma children_of_add ns k n q nq p :
  ns !! k = None → node_children n = [] → ns !! q = Some nq →
  children_of (alter (λ p, node_with_children (node_children p ++ [k]) p) q (<[k := n]> ns)) p =
  if decide (p = q) then children_of ns q ++ [k] else children_of ns p.
Proof.
  intros Hk Hn Hq. unfold children_of. rewrite lookup_alter, !lookup_insert.
  assert (k ≠ q) by congruence.
  repeat case_decide; simplify_eq/=; rewrite ?Hq, ?Hk; try done.
Qed.

Section add_leaf.
Context (ns : gmap string WorkspaceNode) (root k q : WorkspaceId) (n nq : WorkspaceNode).
Context (Hwf : forest_wf ns root) (Hk : ns !! k = None) (Hid : node_id n = k).
Context (Hn : node_children n = []) (Hp : node_parent n = Some q) (Hq : ns !! q = Some nq).
#[local] Abbreviation ns' :=
  (alter (λ p, node_with_children (node_children p ++ [k]) p) q (<[k := n]> ns)).

Lemma add_leaf_inv j m : ns' !! j = Some m → (j = k ∧ m = n) ∨
  j ≠ k ∧ ∃ m0, ns !! j = Some m0 ∧ node_id m = node_id m0 ∧ node_parent m = node_parent m0.
Proof using Hwf Hk Hid Hn Hp Hq.
  assert (k ≠ q) by congruence. rewrite lookup_alter, !lookup_insert.
  repeat case_decide; subst; cbn; try done; rewrite ?Hq; intros Hm; simplify_eq/=;
    first [by left|right; split; [done|]; by eauto|right; split; [done|]; by exists nq].
Qed.

Lemma add_leaf_lookup j m0 : ns !! j = Some m0 →
  ∃ m, ns' !! j = Some m ∧ node_parent m = node_parent m0.
Proof using Hwf Hk Hid Hn Hp Hq.
  assert (k ≠ q) by congruence. intros Hj. rewrite lookup_alter, !lookup_insert.
  repeat case_decide; subst; cbn; simplify_eq/=; rewrite ?Hq; eauto.
Qed.

Lemma add_leaf_edge p c : edge ns' p c ↔ edge ns p c ∨ (p = q ∧ c = k).
Proof using Hwf Hk Hid Hn Hp Hq.
  unfold edge. rewrite (children_of_add _ _ _ _ nq) by done.
  case_decide; [rewrite elem_of_snoc|]; naive_solver.
Qed.

Lemma forest_wf_add : forest_wf ns' root.
Proof using Hwf Hk Hid Hn Hp Hq.
  assert (k ≠ q) as Hkq by congruence.
  assert (ns' !! k = Some n) as Hk' by (by rewrite lookup_alter_ne, lookup_insert_eq).
  split.
  - intros j m [[-> ->]|(_ & m0 & Hj & -> & _)]%add_leaf_inv; [done|by eapply fw_id].
  - destruct (fw_root _ _ Hwf) as (m0 & Hr & Hpr). destruct (add_leaf_lookup _ _ Hr) as (m & ? & ?).
    exists m. split; [done|congruence].
  - intros j m [[-> ->]|(_ & m0 & Hj & _ & ->)]%add_leaf_inv Hne; [by rewrite Hp|by eapply fw_parent].
  - intros p c. rewrite add_leaf_edge, (fw_link _ _ Hwf). split.
    + intros [(m0 & Hc & Hpc)|[-> ->]]; [|by eauto].
      destruct (add_leaf_lookup _ _ Hc) as (m & ? & ?). exists m. split; [done|congruence].
    + intros (m & [[-> ->]|(_ & m0 & Hc & _ & Heq)]%add_leaf_inv & Hpm); [right; naive_solver|].
      left. exists m0. split; [done|congruence].
  - intros p. rewrite (children_of_add _ _ _ _ nq) by done.
    case_decide; [apply NoDup_snoc; split|]; try apply (fw_nodup _ _ Hwf).
    intros [_ [? ?]]%(edge_in _ _ Hwf). congruence.
  - destruct (fw_rank _ _ Hwf) as [rank Hrank].
    exists (λ x, if decide (x = k) then S (rank q) else rank x).
    intros p c [Hpc|[-> ->]]%add_leaf_edge.
    + pose proof (edge_in _ _ Hwf _ _ Hpc) as [[? ?] [? ?]].
      rewrite !decide_False by congruence. by apply Hrank.
    + rewrite decide_False by done. rewrite decide_True by done. lia.
Qed.
End add_leaf.

Lemma tree_wf_insert t n :
  node_children n = [] → tree_wf t → tree_wf (WorkspaceTree.insert t n).1.
Proof.
  intros Hn Hwf. unfold WorkspaceTree.insert.
  destruct (WorkspaceTree.nodes t !! node_id n) eqn:Hfresh; [done|].
  destruct (node_parent n) as [q|] eqn:Hp; [|done].
  destruct (WorkspaceTree.nodes t !! q) as [nq|] eqn:Hq; [|done].
  destruct Hwf as [Hf Ho Hg]. split; cbn.
  - by eapply forest_wf_add.
  - eapply index_wf_attr; [symmetry; by apply attr_alter|]. by apply index_wf_push.
  - eapply index_wf_attr; [symmetry; by apply attr_alter|]. by apply index_wf_push.
Qed.

Lemma tree_wf_update_status t id s : tree_wf t → tree_wf (WorkspaceTree.update_status t id s).
Proof.
  intros [Hf Ho Hg]. split; cbn.
  - by eapply forest_wf_links; [symmetry; apply links_alter|].
  - by eapply index_wf_attr; [symmetry; apply attr_alter|].
  - by eapply index_wf_attr; [symmetry; apply attr_alter|].
Qed.

Lemma index_wf_transfer ns m id n o :
  index_wf ns node_owner m → ns !! id = Some n → node_owner n ≠ o →
  index_wf (<[id := node_with_owner o n]> ns) node_owner
    (push_entry o id (retain_at (λ w, w ≠ id) (node_owner n) m)).
Proof.
  intros [Hex Hnd] Hid Ho.
  assert (id ∉ idx m o) as Hfr by (intros (? & ? & ?)%Hex; congruence).
  split; intros a; rewrite idx_push_entry, !idx_retain_at.
  - intros k. rewrite (decide_False (P := node_owner n = o)) by done. rewrite lookup_insert.
    case_decide; [subst a|case_decide; [subst a|]]; rewrite ?elem_of_snoc, ?list_elem_of_filter, Hex;
      case_decide; subst; naive_solver.
  - rewrite (decide_False (P := node_owner n = o)) by done.
    case_decide; [subst a; by apply NoDup_snoc|].
    case_decide; [by apply NoDup_filter|done].
Qed.

Lemma tree_wf_transfer_owner t id o : tree_wf t → tree_wf (WorkspaceTree.transfer_owner t id o).1.
Proof.
  intros [Hf Ho Hg]. unfold WorkspaceTree.transfer_owner.
  destruct (WorkspaceTree.nodes t !! id) as [n|] eqn:Hid; [|done].
  case_decide as Hne; [done|].
  assert (<[id := node_with_owner o n]> (WorkspaceTree.nodes t) =
          alter (node_with_owner o) id (WorkspaceTree.nodes t)) as Halt.
  { apply map_eq. intros j. rewrite lookup_insert, lookup_alter. case_decide; [|done].
    subst. by rewrite Hid. }
  split; cbn [fst WorkspaceTree.nodes WorkspaceTree.root WorkspaceTree.owner_index WorkspaceTree.originator_index].
  - rewrite Halt. by eapply forest_wf_links; [symmetry; apply links_alter|].
  - by apply index_wf_transfer.
  - rewrite Halt. by eapply index_wf_attr; [symmetry; apply attr_alter|].
Qed.

(** *** Moving a node under the root *)

Definition moved (c old new : WorkspaceId) (k : WorkspaceId) (n : WorkspaceNode) : WorkspaceNode :=
  let n := if decide (k = old)
           then node_with_children (filter (λ x, x ≠ c) (node_children n)) n else n in
  let n := if decide (k = c) then node_with_parent (Some new) n else n in
  if decide (k = new)
  then if decide (c ∈ node_children n) then n else node_with_children (node_children n ++ [c]) n
  else n.

Lemma lookup_reparent t c new n old k :
  WorkspaceTree.nodes t !! c = Some n → node_parent n = Some old →
  WorkspaceTree.nodes (WorkspaceTree.reparent t c new) !! k =
  moved c old new k <$> WorkspaceTree.nodes t !! k.
Proof.
  intros Hc Hp. unfold WorkspaceTree.reparent. rewrite Hc, Hp. cbn.
  rewrite !lookup_alter. unfold moved.
  destruct (WorkspaceTree.nodes t !! k) eqn:Hk; repeat case_decide; subst; rewrite ?Hk; done.
Qed.

(** Everything but the links survives a move. *)
Lemma moved_attrs c old new k n :
  node_id (moved c old new k n) = node_id n ∧
  node_owner (moved c old new k n) = node_owner n ∧
  node_originator (moved c old new k n) = node_originator n ∧
  node_status (moved c old new k n) = node_status n ∧
  node_task_id (moved c old new k n) = node_task_id n ∧
  node_parent (moved c old new k n) = (if decide (k = c) then Some new else node_parent n).
Proof. unfold moved. repeat case_decide; done. Qed.

Lemma moved_children c old new k n x :
  x ∈ node_children (moved c old new k n) ↔
  (x = c ∧ (k = new ∨ k ≠ old ∧ c ∈ node_children n)) ∨ (x ≠ c ∧ x ∈ node_children n).
Proof.
  unfold moved. repeat case_decide; cbn in *;
    rewrite ?elem_of_snoc, ?list_elem_of_filter in *; destruct (decide (x = c)); naive_solver.
Qed.

Lemma moved_nodup c old new k n :
  NoDup (node_children n) → NoDup (node_children (moved c old new k n)).
Proof.
  intros Hnd. unfold moved. repeat case_decide; cbn in *; rewrite ?NoDup_snoc;
    auto using NoDup_filter.
Qed.

Section move.
Context (t : WorkspaceTree.t) (c : WorkspaceId) (n : WorkspaceNode).
Context (Hwf : forest_wf (WorkspaceTree.nodes t) (WorkspaceTree.root t)).
Context (Hc : WorkspaceTree.nodes t !! c = Some n) (Hroot : c ≠ WorkspaceTree.root t).
#[local] Abbreviation ns := (WorkspaceTree.nodes t).
#[local] Abbreviation ns' := (WorkspaceTree.nodes (WorkspaceTree.reparent t c (WorkspaceTree.root t))).

Lemma reparent_lookup : ∃ old, edge ns old c ∧
  ∀ k, ns' !! k = moved c old (WorkspaceTree.root t) k <$> ns !! k.
Proof using Hwf Hc Hroot.
  destruct (parent_edge _ _ Hwf _ _ Hc Hroot) as (old & Hp & He). exists old.
  split; [done|]. intros k. by eapply lookup_reparent.
Qed.

Lemma reparent_edge p x :
  edge ns' p x ↔ (x = c ∧ p = WorkspaceTree.root t) ∨ (x ≠ c ∧ edge ns p x).
Proof using Hwf Hc Hroot.
  destruct reparent_lookup as (old & He & Hl). unfold edge at 1, WorkspaceTree.children_of.
  rewrite Hl. destruct (ns !! p) as [m|] eqn:Hp; cbn.
  - rewrite moved_children. unfold edge. rewrite (children_of_lookup _ _ _ Hp).
    split; [|naive_solver]. intros [[-> [?|[Hne Hin]]]|?]; [naive_solver| |naive_solver].
    destruct Hne. eapply edge_unique; [done| |done].
    unfold edge. by rewrite (children_of_lookup _ _ _ Hp).
  - rewrite elem_of_nil. split; [done|]. destruct (fw_root _ _ Hwf) as (r & Hr & _).
    intros [[-> ->]|[_ Hpx]]; [congruence|].
    apply (edge_in _ _ Hwf) in Hpx as [[? ?] _]. congruence.
Qed.

Lemma reparent_forest : forest_wf ns' (WorkspaceTree.root t).
Proof using Hwf Hc Hroot.
  destruct reparent_lookup as (old & He & Hl).
  assert (∀ k m', ns' !! k = Some m' → ∃ m, ns !! k = Some m ∧ m' = moved c old (WorkspaceTree.root t) k m)
    as Hinv by (intros k m'; rewrite Hl, fmap_Some; eauto).
  split.
  - intros k m' (m & Hk & ->)%Hinv. rewrite (proj1 (moved_attrs _ _ _ _ _)). by eapply fw_id.
  - destruct (fw_root _ _ Hwf) as (r & Hr & Hrp). eexists. rewrite Hl. rewrite Hr.
    split; [done|]. destruct (moved_attrs c old (WorkspaceTree.root t) (WorkspaceTree.root t) r)
      as (_ & _ & _ & _ & _ & ->). by rewrite decide_False.
  - intros k m' (m & Hk & ->)%Hinv Hne.
    destruct (moved_attrs c old (WorkspaceTree.root t) k m) as (_ & _ & _ & _ & _ & ->).
    case_decide; [done|by eapply fw_parent].
  - intros p x. rewrite reparent_edge, (fw_link _ _ Hwf). split.
    + intros [[-> ->]|(Hne & m & Hm & Hpm)]; eexists; rewrite Hl; [rewrite Hc|rewrite Hm];
        (split; [done|]); match goal with |- node_parent (moved ?c ?o ?r ?k ?m) = _ =>
          destruct (moved_attrs c o r k m) as (_ & _ & _ & _ & _ & ->) end; by case_decide.
    + intros (m' & (m & Hm & ->)%Hinv & Hpm). revert Hpm.
      destruct (moved_attrs c old (WorkspaceTree.root t) x m) as (_ & _ & _ & _ & _ & ->).
      case_decide; [intros [= <-]; by left|right; eauto].
  - intros p. unfold children_of. destruct (ns' !! p) as [m'|] eqn:Hp; [|constructor].
    apply Hinv in Hp as (m & Hm & ->). apply moved_nodup.
    rewrite <- (children_of_lookup _ _ _ Hm). by eapply fw_nodup.
  - destruct (desc_rank _ _ Hwf) as [rank Hrank]. exists rank.
    intros p x [[-> ->]|[_ Hpx]]%reparent_edge; apply Hrank; [|by apply tc_once].
    by eapply root_above.
Qed.
End move.

(** ** Failure cascades *)

(** [m'] is node [m] after the cascade of owner [o] has processed the nodes [P]. *)
Record cascaded (root : WorkspaceId) (o : UserId) (P : list WorkspaceId) (k : WorkspaceId)
    (m m' : WorkspaceNode) : Prop := {
  ca_id : node_id m' = node_id m;
  ca_owner : node_owner m' = node_owner m;
  ca_originator : node_originator m' = node_originator m;
  ca_task : node_task_id m' = node_task_id m;
  ca_status : node_status m' =
    if decide (k ∈ P ∧ node_owner m = o) then WorkspaceState.Failed else node_status m;
  ca_parent : node_parent m' =
    if decide (k ∈ P ∧ node_owner m ≠ o) then Some root else node_parent m;
}.

Definition foreign ns (o : UserId) (k : WorkspaceId) : Prop := node_owner <$> ns !! k ≠ Some o.

#[global] Instance foreign_dec ns o k : Decision (foreign ns o k).
Proof. unfold foreign. apply _. Defined.

Record cascade_inv (t0 : WorkspaceTree.t) (o : UserId) (P : list WorkspaceId)
    (acc : WorkspaceTree.t * list WorkspaceId) : Prop := {
  ci_root : WorkspaceTree.root acc.1 = WorkspaceTree.root t0;
  ci_owner : WorkspaceTree.owner_index acc.1 = WorkspaceTree.owner_index t0;
  ci_originator : WorkspaceTree.originator_index acc.1 = WorkspaceTree.originator_index t0;
  ci_forest : forest_wf (WorkspaceTree.nodes acc.1) (WorkspaceTree.root t0);
  ci_nodes : ∀ k, option_Forall2 (cascaded (WorkspaceTree.root t0) o P k)
    (WorkspaceTree.nodes t0 !! k) (WorkspaceTree.nodes acc.1 !! k);
  ci_reparented : acc.2 = filter (foreign (WorkspaceTree.nodes t0) o) P;
}.

Lemma cascaded_other root o P k x m m' :
  k ≠ x → cascaded root o P k m m' → cascaded root o (P ++ [x]) k m m'.
Proof.
  intros Hne [? ? ? ? Hs Hp]. split; try done.
  - rewrite Hs. repeat case_decide; try done; set_solver.
  - rewrite Hp. repeat case_decide; try done; set_solver.
Qed.

(** The node just processed, by owner. *)
Lemma cascaded_same root o P x m m' :
  node_owner m = o → cascaded root o P x m m' →
  cascaded root o (P ++ [x]) x m (node_with_status WorkspaceState.Failed m').
Proof.
  intros <- [? ? ? ? Hs Hp]. split; try done; cbn.
  - rewrite decide_True; [done|]. set_solver.
  - rewrite Hp, !decide_False by naive_solver. done.
Qed.

Lemma cascaded_foreign root o P x m m' old :
  x ∉ P → node_owner m ≠ o → cascaded root o P x m m' →
  cascaded root o (P ++ [x]) x m (moved x old root x m').
Proof.
  intros Hx Ho [? ? ? ? Hs Hp].
  destruct (moved_attrs x old root x m') as (? & ? & ? & Hs' & ? & Hp'). split; try congruence.
  - rewrite Hs', Hs, !decide_False by naive_solver. done.
  - rewrite Hp', decide_True, decide_True by set_solver. done.
Qed.

Lemma cascaded_moved root o P k x m m' old :
  k ≠ x → cascaded root o P k m m' → cascaded root o (P ++ [x]) k m (moved x old root k m').
Proof.
  intros Hne Hc. apply cascaded_other with (x := x) in Hc; [|done]. destruct Hc as [? ? ? ? ? ?].
  destruct (moved_attrs x old root k m') as (? & ? & ? & ? & ? & Hp').
  rewrite decide_False in Hp' by done. split; congruence.
Qed.

Lemma cascade_step_inv t0 o P x acc :
  cascade_inv t0 o P acc → x ∉ P → x ≠ WorkspaceTree.root t0 →
  is_Some (WorkspaceTree.nodes t0 !! x) →
  cascade_inv t0 o (P ++ [x]) (WorkspaceTree.cascade_step o acc x).
Proof.
  destruct acc as [t rep]. intros [Hr Ho Hg Hf Hn Hrep] HxP Hxr [m Hm]. cbn [fst snd] in *.
  pose proof (Hn x) as Hx. rewrite Hm in Hx. inversion Hx as [? m' Hcas Heq1 Heq2|]; subst; clear Hx.
  symmetry in Heq2. unfold WorkspaceTree.cascade_step. rewrite Heq2, (ca_owner _ _ _ _ _ _ Hcas).
  case_decide as Hown; split; cbn [fst snd]; try done.
  - cbn. by eapply forest_wf_links; [symmetry; apply links_alter|].
  - intros k. cbn. rewrite lookup_alter. case_decide as Hk; [subst k|].
    + rewrite Hm, Heq2. constructor. by apply cascaded_same.
    + specialize (Hn k). inversion Hn; constructor. by apply cascaded_other.
  - rewrite filter_app, filter_cons_False, filter_nil, app_nil_r; [done|].
    unfold foreign. rewrite Hm. cbn. naive_solver.
  - rewrite <- Hr in *. by eapply reparent_forest.
  - rewrite <- Hr in *. destruct (reparent_lookup _ _ _ Hf Heq2 Hxr) as (old & _ & Hl).
    intros k. rewrite Hl. destruct (decide (k = x)) as [->|Hk].
    + rewrite Hm, Heq2. constructor. by apply cascaded_foreign.
    + specialize (Hn k). inversion Hn; constructor. by apply cascaded_moved.
  - rewrite filter_app, filter_cons_True, filter_nil; [done|].
    unfold foreign. rewrite Hm. cbn. naive_solver.
Qed.

Lemma cascade_fold_inv t0 o D P acc :
  cascade_inv t0 o P acc → NoDup (P ++ D) →
  (∀ x, x ∈ D → x ≠ WorkspaceTree.root t0 ∧ is_Some (WorkspaceTree.nodes t0 !! x)) →
  cascade_inv t0 o (P ++ D) (fold_left (WorkspaceTree.cascade_step o) D acc).
Proof.
  revert P acc. induction D as [|x D IH]; intros P acc Hinv Hnd HD; cbn; [by rewrite app_nil_r|].
  change (x :: D) with ([x] ++ D) in *. rewrite app_assoc in *.
  destruct (HD x) as [? ?]; [set_solver|].
  apply IH; [|done|set_solver]. apply cascade_step_inv; try done.
  apply NoDup_app in Hnd as (Hnd & _). by apply NoDup_snoc in Hnd as [_ ?].
Qed.

Lemma cascade_inv_wf t0 o P acc : tree_wf t0 → cascade_inv t0 o P acc → tree_wf acc.1.
Proof.
  intros [_ Hio Hig] [Hr Ho Hg Hf Hn _].
  split; [by rewrite Hr|rewrite Ho|rewrite Hg]; (eapply index_wf_attr; [|done]);
    apply map_eq; intros k; rewrite !lookup_fmap; destruct (Hn k) as [? ? []|]; cbn; congruence.
Qed.

Lemma bfs_ext fuel ns ns' Q R :
  (∀ p, children_of ns p = children_of ns' p) →
  WorkspaceTree.bfs fuel ns Q R = WorkspaceTree.bfs fuel ns' Q R.
Proof.
  intros Heq. revert Q R. induction fuel as [|fuel IH]; intros [|x Q] R; cbn; try done.
  by rewrite Heq, IH.
Qed.

Lemma descendants_update_status t id s k :
  WorkspaceTree.descendants (WorkspaceTree.update_status t id s) k = WorkspaceTree.descendants t k.
Proof.
  unfold WorkspaceTree.descendants. cbn [WorkspaceTree.update_status WorkspaceTree.with_nodes WorkspaceTree.nodes].
  rewrite <- !(size_dom (D := gset string)), dom_alter_L.
  apply bfs_ext. intros p. by apply children_of_links, links_alter.
Qed.

Lemma cascade_failure_inv t id n :
  tree_wf t → WorkspaceTree.nodes t !! id = Some n →
  ∃ D t' rep, WorkspaceTree.descendants t id = Some D ∧ NoDup D ∧
    WorkspaceTree.cascade_failure t id = Some (t', rep) ∧ tree_wf t' ∧
    cascade_inv (WorkspaceTree.update_status t id WorkspaceState.Failed) (node_owner n) D (t', rep).
Proof.
  intros Hwf Hid. unfold WorkspaceTree.cascade_failure. rewrite Hid.
  set (t0 := WorkspaceTree.update_status t id WorkspaceState.Failed).
  assert (tree_wf t0) as Hwf0 by (by apply tree_wf_update_status).
  destruct (descendants_spec t0 id (tw_forest _ Hwf0)) as (D & HD & Hnd & Hdesc).
  apply NoDup_cons in Hnd as [_ Hnd].
  assert (cascade_inv t0 (node_owner n) D
    (fold_left (WorkspaceTree.cascade_step (node_owner n)) D (t0, []))) as Hinv.
  { apply (cascade_fold_inv _ _ _ []); [|done|].
    - split; cbn [fst snd]; try done; [apply (tw_forest _ Hwf0)|].
      intros k. destruct (WorkspaceTree.nodes t0 !! k); constructor.
      split; try done; rewrite decide_False by set_solver; done.
    - intros x Hx%Hdesc. split.
      + intros ->. by eapply desc_root in Hx; [|apply (tw_forest _ Hwf0)].
      + by eapply desc_in in Hx as [_ ?]; [|apply (tw_forest _ Hwf0)]. }
  exists D. rewrite HD. cbn.
  destruct (fold_left _ D _) as [t' rep]. exists t', rep.
  pose proof (cascade_inv_wf _ _ _ _ Hwf0 Hinv).
  unfold t0 in HD. rewrite descendants_update_status in HD. done.
Qed.

(** What is still below the failed node afterwards has failed with it. *)
Lemma cascade_remaining t0 o D id acc k :
  tree_wf t0 → cascade_inv t0 o D acc → (∀ c, c ∈ D ↔ desc (WorkspaceTree.nodes t0) id c) →
  id ≠ WorkspaceTree.root t0 → desc (WorkspaceTree.nodes acc.1) id k →
  desc (WorkspaceTree.nodes t0) id k ∧ ∃ m', WorkspaceTree.nodes acc.1 !! k = Some m' ∧
    node_owner m' = o ∧ node_status m' = WorkspaceState.Failed.
Proof.
  intros Hwf Hinv HD Hroot. pose proof (tw_forest _ Hwf) as Hf.
  assert (∀ y k, (y = id ∨ desc (WorkspaceTree.nodes t0) id y) → edge (WorkspaceTree.nodes acc.1) y k →
    desc (WorkspaceTree.nodes t0) id k ∧ ∃ m', WorkspaceTree.nodes acc.1 !! k = Some m' ∧
    node_owner m' = o ∧ node_status m' = WorkspaceState.Failed) as Hstep.
  { intros y z Hy (m' & Hz & Hp)%(fw_link _ _ (ci_forest _ _ _ _ Hinv)).
    pose proof (ci_nodes _ _ _ _ Hinv z) as Hn. rewrite Hz in Hn.
    inversion Hn as [m ? [_ Ho _ _ Hs Hpar] Hm|]; subst. rewrite Hp in Hpar.
    case_decide as Hfor.
    - injection Hpar as ->. destruct Hy as [?|Hy]; [done|]. by apply (desc_root _ _ Hf) in Hy.
    - assert (desc (WorkspaceTree.nodes t0) id z) as Hz0.
      { assert (edge (WorkspaceTree.nodes t0) y z) as He by (apply (fw_link _ _ Hf); eauto).
        destruct Hy as [->|Hy]; [by apply tc_once|by eapply tc_r]. }
      split; [done|]. exists m'. split; [done|]. apply HD in Hz0.
      assert (node_owner m = o) as Hmo by (destruct (decide (node_owner m = o)); tauto).
      rewrite decide_True in Hs by done. split; congruence. }
  intros Hk. revert k Hk. apply tc_ind_r; [intros k Hk; eapply Hstep; eauto|].
  intros y z _ Hyz [Hy _]. eapply Hstep; eauto.
Qed.

Lemma cascaded_view root o D id (rep : list WorkspaceId) k m m' :
  cascaded root o D k (if decide (k = id) then node_with_status WorkspaceState.Failed m else m) m' →
  (k ∈ rep ↔ k ∈ D ∧ node_owner m ≠ o) →
  node_owner m' = node_owner m ∧ node_originator m' = node_originator m ∧
  node_status m' = (if decide (k = id ∨ k ∈ D ∧ node_owner m = o)
                    then WorkspaceState.Failed else node_status m) ∧
  node_parent m' = (if decide (k ∈ rep) then Some root else node_parent m).
Proof.
  intros [_ Ho Hg _ Hs Hp] Hin.
  destruct (decide (k = id)); cbn in *; rewrite Ho, Hg, Hs, Hp; (split_and!; [done..| |]);
    clear Ho Hg Hs Hp; repeat case_decide; try done; exfalso; tauto.
Qed.

(** ** Histories *)

Inductive tree_op :=
| TInsert (id parent : WorkspaceId) (owner : UserId) (o : Originator.t) (s : WorkspaceState.t)
    (task : option TaskId)
| TTransferOwner (id : WorkspaceId) (o : UserId)
| TUpdateStatus (id : WorkspaceId) (s : WorkspaceState.t)
| TCascadeFailure (id : WorkspaceId).

Definition leaf (id parent : WorkspaceId) (owner : UserId) (o : Originator.t) (s : WorkspaceState.t)
    (task : option TaskId) : WorkspaceNode := {|
  node_id := id; node_parent := Some parent; node_children := []; node_owner := owner;
  node_originator := o; node_status := s; node_task_id := task |}.

Definition tree_step (t : WorkspaceTree.t) (op : tree_op) : option WorkspaceTree.t :=
  match op with
  | TInsert id p u o s task => Some (WorkspaceTree.insert t (leaf id p u o s task)).1
  | TTransferOwner id u => Some (WorkspaceTree.transfer_owner t id u).1
  | TUpdateStatus id s => Some (WorkspaceTree.update_status t id s)
  | TCascadeFailure id => fst <$> WorkspaceTree.cascade_failure t id
  end.

Fixpoint tree_run (t : WorkspaceTree.t) (ops : list tree_op) : option WorkspaceTree.t :=
  match ops with
  | [] => Some t
  | op :: ops => t' ← tree_step t op; tree_run t' ops
  end.

Lemma tree_step_wf t op : tree_wf t →
  ∃ t', tree_step t op = Some t' ∧ tree_wf t' ∧ WorkspaceTree.root t' = WorkspaceTree.root t.
Proof.
  intros Hwf. destruct op as [id p u o s task|id u|id s|id]; cbn.
  - eexists. split; [done|]. split; [by apply tree_wf_insert|].
    unfold WorkspaceTree.insert. cbn. by repeat case_match.
  - eexists. split; [done|]. split; [by apply tree_wf_transfer_owner|].
    unfold WorkspaceTree.transfer_owner. by repeat case_match.
  - eexists. split; [done|]. split; [by apply tree_wf_update_status|done].
  - destruct (WorkspaceTree.nodes t !! id) as [n|] eqn:Hid.
    + destruct (cascade_failure_inv t id n) as (D & t' & rep & _ & _ & -> & ? & [Hr _ _ _ _ _]); try done.
      by exists t'.
    + exists t. unfold WorkspaceTree.cascade_failure. by rewrite Hid.
Qed.

Lemma tree_run_wf t ops : tree_wf t →
  ∃ t', tree_run t ops = Some t' ∧ tree_wf t' ∧ WorkspaceTree.root t' = WorkspaceTree.root t.
Proof.
  revert t. induction ops as [|op ops IH]; intros t Hwf; cbn; [by exists t|].
  destruct (tree_step_wf t op Hwf) as (t1 & -> & Hwf1 & Hr1). cbn.
  destruct (IH _ Hwf1) as (t2 & ? & ? & ?). exists t2. split_and!; [done..|congruence].
Qed.

(** ** Properties *)

(** C1. In every tree reached from a fresh one by inserting leaves, transferring
    ownership, updating statuses and cascading failures (all of which return):
    the owner and originator queries list exactly the matching nodes, parent and
    children links agree, no node is below itself, and every other node is below
    the root. *)
Theorem reachable_tree_consistent r u ops :
  ∃ t, tree_run (WorkspaceTree.new r u) ops = Some t ∧
    let ns := WorkspaceTree.nodes t in
    WorkspaceTree.root t = r ∧
    (∀ o k, k ∈ WorkspaceTree.by_owner t o ↔ node_owner <$> ns !! k = Some o) ∧
    (∀ o k, k ∈ WorkspaceTree.by_originator t o ↔ node_originator <$> ns !! k = Some o) ∧
    (∀ p c, c ∈ WorkspaceTree.children t p ↔ ns !! c ≫= node_parent = Some p) ∧
    (∀ a, ¬ desc ns a a) ∧
    (∀ k, is_Some (ns !! k) → k = r ∨ desc ns r k).
Proof.
  destruct (tree_run_wf _ ops (tree_wf_new r u)) as (t & Ht & [Hf Ho Hg] & Hr).
  exists t. cbn in *. split_and!; try done.
  - intros o k. rewrite fmap_Some. etrans; [apply Ho|]. naive_solver.
  - intros o k. rewrite fmap_Some. etrans; [apply Hg|]. naive_solver.
  - intros p c. rewrite bind_Some. apply (fw_link _ _ Hf).
  - intros a. by eapply desc_irrefl.
  - intros k Hk. destruct (decide (k = r)) as [->|Hne]; [by left|right].
    rewrite <- Hr in *. by eapply root_above.
Qed.

(** On a well-formed tree the traversals return and are exact: [descendants]
    lists each node below [id] once, [parent_chain] lists the nodes above it and
    ends at the root, and [causal_descendants] keeps the descendants of the given
    originator. *)
Theorem tree_traversals_exact t id o :
  tree_wf t → is_Some (WorkspaceTree.get t id) →
  let ns := WorkspaceTree.nodes t in
  (∃ D, WorkspaceTree.descendants t id = Some D ∧ NoDup D ∧ ∀ c, c ∈ D ↔ desc ns id c) ∧
  (∃ chain, WorkspaceTree.parent_chain t id = Some chain ∧ (∀ a, a ∈ chain ↔ desc ns a id) ∧
     last (id :: chain) = Some (WorkspaceTree.root t)) ∧
  (∃ C, WorkspaceTree.causal_descendants t id o = Some C ∧
     ∀ c, c ∈ C ↔ desc ns id c ∧ node_originator <$> ns !! c = Some o).
Proof.
  intros [Hf _ Hg] Hid ns. destruct (descendants_spec t id Hf) as (D & HD & Hnd & Hdesc).
  apply NoDup_cons in Hnd as [_ Hnd]. split_and!.
  - by exists D.
  - eapply (climb_spec _ _ _ ∅); [done..|set_solver|]. rewrite size_empty. lia.
  - unfold WorkspaceTree.causal_descendants. rewrite HD. eexists. split; [done|].
    intros c. rewrite list_elem_of_filter, Hdesc, fmap_Some. unfold WorkspaceTree.by_originator.
    rewrite (iw_exact _ _ _ Hg). naive_solver.
Qed.

(** [cascade_failure] on a well-formed tree returns a well-formed tree.  It
    fails the node and its descendants of the same owner, moves every descendant
    of another owner under the root and reports exactly those, and leaves status,
    parent, owner and originator of all other nodes alone. *)
Theorem cascade_failure_effect t id n :
  tree_wf t → WorkspaceTree.get t id = Some n →
  ∃ D t' rep, WorkspaceTree.descendants t id = Some D ∧
    WorkspaceTree.cascade_failure t id = Some (t', rep) ∧ tree_wf t' ∧
    rep = filter (foreign (WorkspaceTree.nodes t) (node_owner n)) D ∧
    ∀ k m, WorkspaceTree.get t k = Some m → ∃ m', WorkspaceTree.get t' k = Some m' ∧
      node_owner m' = node_owner m ∧ node_originator m' = node_originator m ∧
      node_status m' = (if decide (k = id ∨ k ∈ D ∧ node_owner m = node_owner n)
                        then WorkspaceState.Failed else node_status m) ∧
      node_parent m' = (if decide (k ∈ rep) then Some (WorkspaceTree.root t) else node_parent m).
Proof.
  intros Hwf Hid. destruct (cascade_failure_inv t id n Hwf Hid) as (D & t' & rep & HD & _ & Hc & Hwf' & Hinv).
  exists D, t', rep. destruct Hinv as [_ _ _ _ Hn Hrep]. cbn in Hrep, Hn.
  assert (∀ k, foreign (alter (node_with_status WorkspaceState.Failed) id (WorkspaceTree.nodes t))
    (node_owner n) k ↔ foreign (WorkspaceTree.nodes t) (node_owner n) k) as Hfor.
  { intros k. unfold foreign. rewrite lookup_alter. case_decide; [subst|done].
    by destruct (WorkspaceTree.nodes t !! k). }
  assert (rep = filter (foreign (WorkspaceTree.nodes t) (node_owner n)) D) as Hrep'.
  { rewrite Hrep. by apply list_filter_iff. }
  split_and!; try done. intros k m Hk. unfold WorkspaceTree.get in *. specialize (Hn k).
  assert (k ∈ rep ↔ k ∈ D ∧ node_owner m ≠ node_owner n) as Hin.
  { rewrite Hrep', list_elem_of_filter. unfold foreign. rewrite Hk. cbn.
    split; intros [? ?]; split; congruence. }
  assert (option_Forall2 (cascaded (WorkspaceTree.root t) (node_owner n) D k)
    (Some (if decide (k = id) then node_with_status WorkspaceState.Failed m else m))
    (WorkspaceTree.nodes t' !! k)) as Hn'.
  { revert Hn. rewrite lookup_alter. repeat case_decide; subst; rewrite ?Hk; done. }
  destruct (WorkspaceTree.nodes t' !! k) as [m'|]; [|by inversion Hn'].
  exists m'. split; [done|]. apply cascaded_view; [by inversion Hn'|done].
Qed.

Definition sample_ops : list tree_op :=
  [TInsert "a" "root" "alice" (Originator.User "alice") WorkspaceState.Active None;
   TInsert "b" "a" "alice" (Originator.User "alice") WorkspaceState.Active None;
   TInsert "c" "a" "bob" Originator.System WorkspaceState.Active None;
   TInsert "d" "c" "alice" Originator.System WorkspaceState.Blocked None].

Definition sample_tree : WorkspaceTree.t :=
  default (WorkspaceTree.new "root" "op") (tree_run (WorkspaceTree.new "root" "op") sample_ops).

Lemma sample_tree_wf : tree_wf sample_tree.
Proof.
  unfold sample_tree. destruct (tree_run_wf _ sample_ops (tree_wf_new "root" "op")) as (t & -> & ? & _).
  done.
Qed.

Lemma tree_traversals_exact_witness :
  WorkspaceTree.descendants sample_tree "a" = Some ["b"; "c"; "d"] ∧
  ∃ C, WorkspaceTree.causal_descendants sample_tree "a" Originator.System = Some C ∧
    ∀ c, c ∈ C ↔ desc (WorkspaceTree.nodes sample_tree) "a" c ∧
      node_originator <$> WorkspaceTree.nodes sample_tree !! c = Some Originator.System.
Proof.
  split; [by vm_compute|].
  apply (tree_traversals_exact sample_tree "a" Originator.System sample_tree_wf).
  vm_compute. by eexists.
Defined.

Lemma cascade_failure_effect_witness :
  ∃ D t' rep, WorkspaceTree.descendants sample_tree "a" = Some D ∧
    WorkspaceTree.cascade_failure sample_tree "a" = Some (t', rep) ∧
    rep = filter (foreign (WorkspaceTree.nodes sample_tree) "alice") D.
Proof.
  destruct (WorkspaceTree.get sample_tree "a") as [n|] eqn:Hn; [|by vm_compute in Hn].
  destruct (cascade_failure_effect sample_tree "a" n sample_tree_wf Hn) as (D & t' & rep & HD & Hc & _ & Hrep & _).
  assert (node_owner n = "alice") as Ho by (vm_compute in Hn; by injection Hn as <-).
  rewrite Ho in Hrep. exists D, t', rep. exact (conj HD (conj Hc Hrep)).
Defined.
