(* ===== verification/Topology.v ===== *)
(** * Topology set (wacp-coordinator: topology.rs)

    The workspace tree, the visibility graph, the escalation router and the port
    rights graph, with the compound operations that update them together.  The
    theorems show that the four structures stay consistent with each other, that the port
    rights are those the history entitles to, and what a termination does to them. *)

From S2P Require Import Prelude Types Visibility PortRights Tree.

Record CreateWorkspaceParams := {
  cw_id : WorkspaceId;
  cw_parent : WorkspaceId;
  cw_owner : UserId;
  cw_originator : Originator.t;
  cw_status : WorkspaceState.t;
  cw_task_id : option TaskId;
}.

(** [rights_expired] is a difference of two [usize] counts; it is kept in [Z], so
    an underflow would show as a negative number. *)
Record CascadeEffect := {
  ce_failed : list WorkspaceId;
  ce_reparented : list WorkspaceId;
  ce_rights_expired : Z;
}.

Module TopologySet.
Record t := Mk {
  tree : WorkspaceTree.t;
  visibility : VisibilityGraph.t;
  escalation : EscalationRouter.t;
  port_rights : PortRightsGraph.t;
}.

Definition new (root_id : WorkspaceId) (root_owner : UserId) : t :=
  Mk (WorkspaceTree.new root_id root_owner)
     (VisibilityGraph.register VisibilityGraph.new root_id)
     (EscalationRouter.register EscalationRouter.new root_id root_owner)
     PortRightsGraph.new.

(** The three rights a new workspace starts with. *)
Definition create_rights (g : PortRightsGraph.t) (parent id : WorkspaceId) : PortRightsGraph.t :=
  let g := (PortRightsGraph.create g parent id PortRightType.Send).1 in
  let g := (PortRightsGraph.create g id parent PortRightType.Send).1 in
  (PortRightsGraph.create g id id PortRightType.Receive).1.

Definition create_workspace (self : t) (params : CreateWorkspaceParams)
    : t * result unit TreeError :=
  let node := {| node_id := cw_id params; node_parent := Some (cw_parent params);
                 node_children := []; node_owner := cw_owner params;
                 node_originator := cw_originator params; node_status := cw_status params;
                 node_task_id := cw_task_id params |} in
  match WorkspaceTree.insert (tree self) node with
  | (tree', Err e) => (Mk tree' (visibility self) (escalation self) (port_rights self), Err e)
  | (tree', Ok _) =>
      let vis := VisibilityGraph.register (visibility self) (cw_id params) in
      let vis := (VisibilityGraph.grant vis (WorkspaceTree.root tree') (cw_id params)).1 in
      let esc := EscalationRouter.register (escalation self) (cw_id params) (cw_owner params) in
      let ports := create_rights (port_rights self) (cw_parent params) (cw_id params) in
      (Mk tree' vis esc ports, Ok tt)
  end.

(** Expire one workspace's rights and count what expired. *)
Definition expire_counted (ports : PortRightsGraph.t) (id : WorkspaceId) : PortRightsGraph.t * Z :=
  let before := PortRightsGraph.active_count ports in
  let ports := PortRightsGraph.expire_workspace ports id in
  (ports, Z.of_nat before - Z.of_nat (PortRightsGraph.active_count ports)).

(** One iteration of the loop over the remaining descendants. *)
Definition expire_step (tree : WorkspaceTree.t) (acc : PortRightsGraph.t * Z * list WorkspaceId)
    (desc_id : WorkspaceId) : PortRightsGraph.t * Z * list WorkspaceId :=
  let '(ports, expired, failed) := acc in
  match WorkspaceTree.get tree desc_id with
  | Some node =>
      if decide (node_status node = WorkspaceState.Failed)
      then let '(ports, n) := expire_counted ports desc_id in
           (ports, expired + n, failed ++ [desc_id])
      else acc
  | None => acc
  end.

Definition terminate_workspace (self : t) (id : WorkspaceId) (status : WorkspaceState.t)
    : option (t * CascadeEffect) :=
  let tree1 := WorkspaceTree.update_status (tree self) id status in
  let '(ports, expired) := expire_counted (port_rights self) id in
  if decide (status = WorkspaceState.Failed) then
    '(tree2, reparented) ← WorkspaceTree.cascade_failure tree1 id;
    descendants ← WorkspaceTree.descendants tree2 id;
    let '(ports, expired, failed) := fold_left (expire_step tree2) descendants (ports, expired, []) in
    Some (Mk tree2 (visibility self) (escalation self) ports,
          {| ce_failed := failed; ce_reparented := reparented; ce_rights_expired := expired |})
  else
    Some (Mk tree1 (visibility self) (escalation self) ports,
          {| ce_failed := []; ce_reparented := []; ce_rights_expired := expired |}).

Definition transfer_ownership (self : t) (id : WorkspaceId) (new_owner : UserId)
    : t * result UserId TreeError :=
  match WorkspaceTree.transfer_owner (tree self) id new_owner with
  | (tree', Err e) => (Mk tree' (visibility self) (escalation self) (port_rights self), Err e)
  | (tree', Ok old_owner) =>
      (Mk tree' (visibility self) (EscalationRouter.update (escalation self) id new_owner)
          (port_rights self), Ok old_owner)
  end.
End TopologySet.

(** ** Invariant *)

(** Some right, whatever became of it, lets [w] receive. *)
Definition receives (g : PortRightsGraph.t) (w : WorkspaceId) : Prop :=
  ∃ r e, PortRightsGraph.get g r = Some e ∧ pre_holder e = w ∧ pre_target e = w
         ∧ pre_kind e = PortRightType.Receive.

(** Receive rights are not transferred, so a port operation leaves [receives] alone. *)
Lemma receives_step g o w : port_wf g → receives g w → receives (port_step g o) w.
Proof.
  intros Hwf (r & e & He & Hh & Ht & Hk).
  destruct o as [h t k|i h|i|i|x]; cbn [port_step].
  - exists r, e. split_and!; try done. by apply get_create_other.
  - exists r, e. split_and!; try done. unfold PortRightsGraph.get, PortRightsGraph.transfer in *.
    repeat case_match; cbn; try done. rewrite lookup_insert_ne; [done|]. intros ->. naive_solver.
  - exists r, e. split_and!; try done. unfold PortRightsGraph.get, PortRightsGraph.consume in *.
    repeat case_match; cbn; try done. rewrite lookup_insert_ne; [done|]. intros ->. simplify_eq.
    match goal with Hn : ¬ pre_kind e ≠ _ |- _ => apply Hn; by rewrite Hk end.
  - unfold PortRightsGraph.revoke. destruct (PortRightsGraph.by_id g !! i) as [e0|] eqn:Hi; [|by exists r, e].
    case_decide; [by exists r, e|]. cbn [fst]. unfold receives, PortRightsGraph.get in *. cbn.
    destruct (decide (i = r)) as [->|Hne].
    + rewrite Hi in He. injection He as ->. exists r. rewrite lookup_insert_eq. by eexists.
    + exists r, e. by rewrite lookup_insert_ne.
  - exists r. rewrite get_expire_workspace, He by done. eexists. split; [done|]. by case_decide.
Qed.

Lemma receives_steps g os w :
  PortRightsGraph.next_id g + Z.of_nat (length os) ≤ u64_max → port_wf g → receives g w →
  receives (fold_left port_step os g) w.
Proof.
  revert g. induction os as [|o os IH]; intros g Hb Hwf Hr; [done|]. cbn [fold_left length] in *.
  pose proof (pw_next _ Hwf). pose proof (port_step_next g o ltac:(lia)).
  apply IH; [lia|by apply port_wf_step; [lia|]|by apply receives_step].
Qed.

(** The compound operations on rights as sequences of port operations. *)
Definition create_ops (p id : WorkspaceId) : list port_op :=
  [PCreate p id PortRightType.Send; PCreate id p PortRightType.Send; PCreate id id PortRightType.Receive].

Lemma create_rights_ops g p id : TopologySet.create_rights g p id = fold_left port_step (create_ops p id) g.
Proof. done. Qed.

Lemma receives_created g w : receives (PortRightsGraph.create g w w PortRightType.Receive).1 w.
Proof.
  eexists _, _. unfold PortRightsGraph.get. cbn. rewrite lookup_insert_eq. done.
Qed.

Record topo_wf (s : TopologySet.t) : Prop := {
  to_tree : tree_wf (TopologySet.tree s);
  to_ports : port_wf (TopologySet.port_rights s);
  to_vis : consistent (TopologySet.visibility s);
  to_route : ∀ k, EscalationRouter.route (TopologySet.escalation s) k
                  = node_owner <$> WorkspaceTree.get (TopologySet.tree s) k;
  to_root_sees : ∀ k, is_Some (WorkspaceTree.get (TopologySet.tree s) k) →
    VisibilityGraph.can_see (TopologySet.visibility s) (WorkspaceTree.root (TopologySet.tree s)) k = true;
  to_receives : ∀ k, is_Some (WorkspaceTree.get (TopologySet.tree s) k) →
    k ≠ WorkspaceTree.root (TopologySet.tree s) → receives (TopologySet.port_rights s) k;
}.

Lemma route_register r k u j :
  EscalationRouter.route (EscalationRouter.register r k u) j =
  if decide (k = j) then Some u else EscalationRouter.route r j.
Proof. exact (lookup_insert (M := gmap string) r k j u). Qed.

Lemma topo_wf_new r u : topo_wf (TopologySet.new r u).
Proof.
  split.
  - apply tree_wf_new.
  - apply port_wf_new.
  - apply consistent_register, consistent_new.
  - intros k. cbn [TopologySet.new TopologySet.escalation]. rewrite route_register.
    unfold WorkspaceTree.get. cbn [TopologySet.new TopologySet.tree WorkspaceTree.new WorkspaceTree.nodes].
    rewrite lookup_singleton. by case_decide.
  - intros k [n Hk]. unfold WorkspaceTree.get in Hk.
    cbn [TopologySet.new TopologySet.tree WorkspaceTree.new WorkspaceTree.nodes] in Hk.
    apply lookup_singleton_Some in Hk as [<- _]. apply can_see_iff. by left.
  - intros k [n Hk] Hne. unfold WorkspaceTree.get in Hk.
    cbn [TopologySet.new TopologySet.tree WorkspaceTree.new WorkspaceTree.nodes] in Hk.
    by apply lookup_singleton_Some in Hk as [<- _].
Qed.

(** What a successful insertion adds. *)
Lemma insert_Ok t n t' a :
  WorkspaceTree.insert t n = (t', Ok a) →
  WorkspaceTree.nodes t !! node_id n = None ∧ WorkspaceTree.root t' = WorkspaceTree.root t ∧
  ∀ k, node_owner <$> WorkspaceTree.nodes t' !! k =
       if decide (k = node_id n) then Some (node_owner n) else node_owner <$> WorkspaceTree.nodes t !! k.
Proof.
  unfold WorkspaceTree.insert. repeat case_match; intros [= <-]. cbn. split_and!; [done..|].
  intros k. rewrite <- !lookup_fmap, attr_alter by done. rewrite fmap_insert, lookup_insert.
  repeat case_decide; naive_solver.
Qed.

Lemma next_id_create g h w k :
  0 ≤ PortRightsGraph.next_id g < u64_max →
  PortRightsGraph.next_id (PortRightsGraph.create g h w k).1 = PortRightsGraph.next_id g + 1.
Proof. intros. cbn. rewrite wrap64_small; solve_range. Qed.

Lemma create_rights_wf g p id :
  PortRightsGraph.next_id g + 3 ≤ u64_max → port_wf g →
  port_wf (TopologySet.create_rights g p id) ∧
  PortRightsGraph.next_id (TopologySet.create_rights g p id) = PortRightsGraph.next_id g + 3.
Proof.
  intros Hb Hwf. pose proof (pw_next _ Hwf). unfold TopologySet.create_rights.
  assert (∀ g h w k, PortRightsGraph.next_id g < u64_max → port_wf g →
    port_wf (PortRightsGraph.create g h w k).1 ∧
    PortRightsGraph.next_id (PortRightsGraph.create g h w k).1 = PortRightsGraph.next_id g + 1) as Hc.
  { intros g' h w k Hb' Hwf'. pose proof (pw_next _ Hwf').
    split; [by apply port_wf_create|apply next_id_create; lia]. }
  destruct (Hc g p id PortRightType.Send) as [Hwf1 Hn1]; [lia|done|].
  destruct (Hc (PortRightsGraph.create g p id PortRightType.Send).1 id p PortRightType.Send) as [Hwf2 Hn2];
    [lia|done|].
  match goal with |- port_wf (PortRightsGraph.create ?g _ _ ?k).1 ∧ _ =>
    destruct (Hc g id id k) as [Hwf3 Hn3]; [lia|done|] end.
  split; [done|lia].
Qed.

Lemma topo_wf_create s params :
  PortRightsGraph.next_id (TopologySet.port_rights s) + 3 ≤ u64_max →
  topo_wf s → topo_wf (TopologySet.create_workspace s params).1.
Proof.
  intros Hb [Ht Hp Hv Hr Hs Hrc]. unfold TopologySet.create_workspace. set (n := Build_WorkspaceNode _ _ _ _ _ _ _).
  pose proof (tree_wf_insert (TopologySet.tree s) n eq_refl Ht) as Ht'.
  destruct (WorkspaceTree.insert (TopologySet.tree s) n) as [t' [a|e]] eqn:Hins; cbn [fst] in *.
  - destruct (insert_Ok _ _ _ _ Hins) as (Hfresh & Hroot & Howner).
    split; cbn [TopologySet.tree TopologySet.visibility TopologySet.escalation TopologySet.port_rights].
    + done.
    + by apply create_rights_wf.
    + by apply consistent_grant, consistent_register.
    + intros k. unfold WorkspaceTree.get. rewrite Howner, route_register, Hr.
      repeat case_decide; naive_solver.
    + intros k [m Hk]. apply can_see_iff. rewrite edges_grant, edges_register_forward, Hroot.
      specialize (Howner k). unfold WorkspaceTree.get in Hk. rewrite Hk in Howner.
      case_decide as Hkid; [subst k; cbn; destruct (decide (WorkspaceTree.root (TopologySet.tree s) = cw_id params)); tauto|].
      destruct (WorkspaceTree.nodes (TopologySet.tree s) !! k) eqn:Hk0; [|done].
      specialize (Hs k ltac:(eexists; exact Hk0)). apply can_see_iff in Hs. tauto.
    + intros k [m Hk] Hne. rewrite Hroot in Hne. specialize (Howner k). unfold WorkspaceTree.get in Hk.
      rewrite Hk in Howner. case_decide as Hkid; [subst k; apply receives_created|].
      rewrite create_rights_ops. apply receives_steps; [cbn; lia|done|]. apply Hrc; [|done].
      unfold WorkspaceTree.get. by destruct (WorkspaceTree.nodes (TopologySet.tree s) !! k).
  - assert (t' = TopologySet.tree s) as ->; [|done].
    unfold WorkspaceTree.insert in Hins. repeat case_match; by simplify_eq.
Qed.

Lemma topo_wf_transfer s id u : topo_wf s → topo_wf (TopologySet.transfer_ownership s id u).1.
Proof.
  intros [Ht Hp Hv Hr Hs Hrc]. unfold TopologySet.transfer_ownership.
  pose proof (tree_wf_transfer_owner (TopologySet.tree s) id u Ht) as Ht'. revert Ht'.
  unfold WorkspaceTree.transfer_owner. unfold WorkspaceTree.get in *.
  destruct (WorkspaceTree.nodes (TopologySet.tree s) !! id) as [n|] eqn:Hid; [|done].
  case_decide; [done|]. cbn [fst]. intros Ht'. split; try done.
  - intros k. unfold WorkspaceTree.get. cbn. etrans; [apply route_register|].
    rewrite lookup_insert, Hr. by repeat case_decide.
  - intros k [m Hk]. apply Hs. revert Hk. unfold WorkspaceTree.get. cbn.
    rewrite lookup_insert. case_decide; subst; eauto.
  - intros k [m Hk] Hne. apply Hrc; [|done]. revert Hk. unfold WorkspaceTree.get. cbn.
    rewrite lookup_insert. case_decide; subst; eauto.
Qed.

(** The first two rights of a new workspace, as stored. *)
Lemma create_rights_get g p id :
  PortRightsGraph.next_id g + 3 ≤ u64_max → port_wf g →
  ∃ i1 i2,
    PortRightsGraph.get (TopologySet.create_rights g p id) i1
      = Some (Build_PortRightEntry i1 p id PortRightType.Send PortRightStatus.Active) ∧
    PortRightsGraph.get (TopologySet.create_rights g p id) i2
      = Some (Build_PortRightEntry i2 id p PortRightType.Send PortRightStatus.Active).
Proof.
  intros Hb Hwf. pose proof (pw_next _ Hwf). unfold TopologySet.create_rights.
  pose proof (port_wf_create g p id PortRightType.Send ltac:(lia) Hwf) as Hwf1.
  pose proof (next_id_create g p id PortRightType.Send ltac:(lia)) as Hn1.
  set (g1 := (PortRightsGraph.create g p id PortRightType.Send).1) in *.
  pose proof (port_wf_create g1 id p PortRightType.Send ltac:(lia) Hwf1) as Hwf2.
  set (g2 := (PortRightsGraph.create g1 id p PortRightType.Send).1) in *.
  exists (format_id "pr-" (PortRightsGraph.next_id g)), (format_id "pr-" (PortRightsGraph.next_id g1)).
  split.
  - apply get_create_other; [done|]. apply get_create_other; [done|].
    unfold PortRightsGraph.get, g1. cbn. by rewrite lookup_insert_eq.
  - apply get_create_other; [done|]. unfold PortRightsGraph.get, g2. cbn. by rewrite lookup_insert_eq.
Qed.

(** *** Termination *)

Definition failed_in (t : WorkspaceTree.t) (k : WorkspaceId) : Prop :=
  node_status <$> WorkspaceTree.get t k = Some WorkspaceState.Failed.

#[global] Instance failed_in_dec t k : Decision (failed_in t k).
Proof. unfold failed_in. apply _. Defined.

Lemma expire_many_wf xs g : port_wf g →
  port_wf (fold_left PortRightsGraph.expire_workspace xs g) ∧
  PortRightsGraph.next_id (fold_left PortRightsGraph.expire_workspace xs g) = PortRightsGraph.next_id g ∧
  (PortRightsGraph.active_count (fold_left PortRightsGraph.expire_workspace xs g)
     ≤ PortRightsGraph.active_count g)%nat.
Proof.
  revert g. induction xs as [|x xs IH]; intros g Hwf; cbn [fold_left]; [done|].
  destruct (IH (PortRightsGraph.expire_workspace g x)) as (? & Hn & Hc); [by apply port_wf_expire|].
  pose proof (active_count_expire g x). split_and!; [done|by rewrite Hn|lia].
Qed.

Lemma expire_step_fold t D g n F :
  fold_left (TopologySet.expire_step t) D (g, n, F) =
  let g' := fold_left PortRightsGraph.expire_workspace (filter (failed_in t) D) g in
  (g', n + (Z.of_nat (PortRightsGraph.active_count g) - Z.of_nat (PortRightsGraph.active_count g')),
   F ++ filter (failed_in t) D).
Proof.
  revert g n F. induction D as [|d D IH]; intros g n F; cbn [fold_left].
  { cbn. rewrite app_nil_r. do 2 f_equal. lia. }
  unfold TopologySet.expire_step at 2. destruct (decide (failed_in t d)) as [Hf|Hf].
  - rewrite filter_cons_True by done. unfold failed_in in Hf.
    destruct (WorkspaceTree.get t d) as [m|]; [|done]. injection Hf as Hf.
    rewrite decide_True by done. cbn. rewrite IH. cbn. rewrite <- app_assoc. do 2 f_equal. lia.
  - rewrite filter_cons_False by done. unfold failed_in in Hf.
    destruct (WorkspaceTree.get t d) as [m|]; [|apply IH].
    rewrite decide_False; [apply IH|]. intros Hs. apply Hf. cbn. by rewrite Hs.
Qed.

Lemma cascade_owner t0 o P acc k :
  cascade_inv t0 o P acc →
  node_owner <$> WorkspaceTree.nodes acc.1 !! k = node_owner <$> WorkspaceTree.nodes t0 !! k.
Proof. intros [_ _ _ _ Hn _]. destruct (Hn k) as [? ? []|]; cbn; congruence. Qed.

(** The tree part of a termination with status [Failed]. *)
Lemma cascade_total t id : tree_wf t →
  ∃ t' rep, WorkspaceTree.cascade_failure t id = Some (t', rep) ∧ tree_wf t' ∧
    WorkspaceTree.root t' = WorkspaceTree.root t ∧
    ∀ k, node_owner <$> WorkspaceTree.nodes t' !! k = node_owner <$> WorkspaceTree.nodes t !! k.
Proof.
  intros Hwf. destruct (WorkspaceTree.nodes t !! id) as [n|] eqn:Hid.
  - destruct (cascade_failure_inv t id n Hwf Hid) as (D & t' & rep & _ & _ & Hc & Hwf' & Hinv).
    exists t', rep. split_and!; [done..|apply Hinv|].
    intros k. etrans; [apply (cascade_owner _ _ _ _ k Hinv)|]. cbn.
    rewrite <- !lookup_fmap. by rewrite attr_alter.
  - exists t, []. unfold WorkspaceTree.cascade_failure. by rewrite Hid.
Qed.

Lemma failed_after_cascade t id n t' rep :
  tree_wf t → WorkspaceTree.get t id = Some n → id ≠ WorkspaceTree.root t →
  WorkspaceTree.cascade_failure (WorkspaceTree.update_status t id WorkspaceState.Failed) id
    = Some (t', rep) →
  failed_in t' id ∧ ∀ k, desc (WorkspaceTree.nodes t') id k → failed_in t' k.
Proof.
  intros Hwf Hid Hroot Hc.
  set (t1 := WorkspaceTree.update_status t id WorkspaceState.Failed) in *.
  assert (tree_wf t1) as Hwf1 by (by apply tree_wf_update_status).
  set (n1 := node_with_status WorkspaceState.Failed n).
  assert (WorkspaceTree.nodes t1 !! id = Some n1) as Hid1.
  { cbn. unfold WorkspaceTree.get in Hid. by rewrite lookup_alter_eq, Hid. }
  destruct (cascade_failure_inv t1 id n1 Hwf1 Hid1) as (D & t2 & rep2 & HD & _ & Hc2 & _ & Hinv).
  rewrite Hc in Hc2. injection Hc2 as <- <-.
  set (t0 := WorkspaceTree.update_status t1 id WorkspaceState.Failed) in *.
  assert (tree_wf t0) as Hwf0 by (by apply tree_wf_update_status).
  unfold failed_in, WorkspaceTree.get. split.
  - pose proof (ci_nodes _ _ _ _ Hinv id) as Hn. cbn [fst] in Hn.
    assert (WorkspaceTree.nodes t0 !! id = Some n1) as Hid0.
    { cbn. rewrite !lookup_alter_eq. unfold WorkspaceTree.get in Hid. by rewrite Hid. }
    rewrite Hid0 in Hn. inversion Hn as [m m' [_ _ _ _ Hs _] Hm Hm'|]. subst. cbn. rewrite Hs.
    by case_decide.
  - intros k Hk. destruct (descendants_spec t0 id (tw_forest _ Hwf0)) as (D0 & HD0 & _ & Hdesc).
    unfold t0 in HD0. rewrite descendants_update_status, HD in HD0. injection HD0 as <-.
    destruct (cascade_remaining t0 _ D id (t', rep) k Hwf0 Hinv Hdesc Hroot Hk) as (_ & m' & Hm' & _ & Hs).
    cbn in Hm'. rewrite Hm'. cbn. by rewrite Hs.
Qed.

Lemma receives_expire_many ws g w :
  port_wf g → receives g w → receives (fold_left PortRightsGraph.expire_workspace ws g) w.
Proof.
  revert g. induction ws as [|x ws IH]; intros g Hwf Hr; [done|]. cbn [fold_left].
  apply IH; [by apply port_wf_expire|]. by apply (receives_step g (PExpire x)).
Qed.

Lemma topo_wf_tree s t' ws :
  let ports := fold_left PortRightsGraph.expire_workspace ws (TopologySet.port_rights s) in
  topo_wf s → tree_wf t' →
  WorkspaceTree.root t' = WorkspaceTree.root (TopologySet.tree s) →
  (∀ k, node_owner <$> WorkspaceTree.nodes t' !! k = node_owner <$> WorkspaceTree.nodes (TopologySet.tree s) !! k) →
  topo_wf (TopologySet.Mk t' (TopologySet.visibility s) (TopologySet.escalation s) ports).
Proof.
  intros ports [Ht Hp Hv Hr Hs Hrc] Ht' Hroot Ho.
  assert (∀ k, is_Some (WorkspaceTree.get t' k) → is_Some (WorkspaceTree.get (TopologySet.tree s) k)) as Hold.
  { intros k [m Hk]. unfold WorkspaceTree.get in *. specialize (Ho k). rewrite Hk in Ho.
    destruct (_ !! k); [done|discriminate]. }
  split; cbn; try done.
  - by apply expire_many_wf.
  - intros k. rewrite Hr. symmetry. apply Ho.
  - intros k Hk. rewrite Hroot. by apply Hs, Hold.
  - intros k Hk Hne. rewrite Hroot in Hne. by apply receives_expire_many, Hrc; [|apply Hold|].
Qed.

(** [terminate_workspace] returns a consistent topology; the port rights of the
    terminated workspace and of the reported failed ones expire, no others. *)
Lemma terminate_spec s id st : topo_wf s →
  ∃ s' eff, TopologySet.terminate_workspace s id st = Some (s', eff) ∧ topo_wf s' ∧
    TopologySet.port_rights s' =
      fold_left PortRightsGraph.expire_workspace (id :: ce_failed eff) (TopologySet.port_rights s) ∧
    ce_rights_expired eff = Z.of_nat (PortRightsGraph.active_count (TopologySet.port_rights s))
      - Z.of_nat (PortRightsGraph.active_count (TopologySet.port_rights s')) ∧
    (if decide (st = WorkspaceState.Failed)
     then ∃ D, WorkspaceTree.cascade_failure (WorkspaceTree.update_status (TopologySet.tree s) id st) id
                 = Some (TopologySet.tree s', ce_reparented eff) ∧
          WorkspaceTree.descendants (TopologySet.tree s') id = Some D ∧
          ce_failed eff = filter (failed_in (TopologySet.tree s')) D
     else TopologySet.tree s' = WorkspaceTree.update_status (TopologySet.tree s) id st ∧
          ce_failed eff = [] ∧ ce_reparented eff = []).
Proof.
  intros Hwf. pose proof Hwf as [Ht Hp _ _ _ _]. unfold TopologySet.terminate_workspace, TopologySet.expire_counted.
  pose proof (tree_wf_update_status _ id st Ht) as Ht1.
  assert (∀ k, node_owner <$> WorkspaceTree.nodes (WorkspaceTree.update_status (TopologySet.tree s) id st) !! k
    = node_owner <$> WorkspaceTree.nodes (TopologySet.tree s) !! k) as Ho1.
  { intros k. cbn. rewrite <- !lookup_fmap. by rewrite attr_alter. }
  case_decide as Hst.
  - destruct (cascade_total _ id Ht1) as (t2 & rep & Hc & Ht2 & Hr2 & Ho2). rewrite Hc. cbn [mbind option_bind].
    destruct (descendants_spec t2 id (tw_forest _ Ht2)) as (D & HD & _ & _). rewrite HD.
    cbn [mbind option_bind]. rewrite expire_step_fold.
    do 2 eexists. split; [done|].
    cbn [ce_failed ce_reparented ce_rights_expired TopologySet.port_rights TopologySet.tree fold_left app].
    split_and!; [|done|lia|by exists D].
    apply (topo_wf_tree s t2 (id :: filter (failed_in t2) D)); try done. by intros k; rewrite Ho2.
  - do 2 eexists. split; [done|].
    split_and!; try done. by apply (topo_wf_tree s _ [id]).
Qed.

(** ** Histories

    The compound operations interleaved with direct use of the visibility and port
    rights structures, as the coordinator's handlers do. *)

Inductive topo_op :=
| OCreate (params : CreateWorkspaceParams)
| OTerminate (id : WorkspaceId) (st : WorkspaceState.t)
| OTransfer (id : WorkspaceId) (u : UserId)
| OVis (o : vis_op)
| OPort (o : port_op).

Definition topo_step (s : TopologySet.t) (op : topo_op) : option TopologySet.t :=
  match op with
  | OCreate params => Some (TopologySet.create_workspace s params).1
  | OTerminate id st => fst <$> TopologySet.terminate_workspace s id st
  | OTransfer id u => Some (TopologySet.transfer_ownership s id u).1
  | OVis o => Some (TopologySet.Mk (TopologySet.tree s) (vis_step (TopologySet.visibility s) o)
                      (TopologySet.escalation s) (TopologySet.port_rights s))
  | OPort o => Some (TopologySet.Mk (TopologySet.tree s) (TopologySet.visibility s)
                       (TopologySet.escalation s) (port_step (TopologySet.port_rights s) o))
  end.

Fixpoint topo_run (s : TopologySet.t) (ops : list topo_op) : option TopologySet.t :=
  match ops with
  | [] => Some s
  | op :: ops => s' ← topo_step s op; topo_run s' ops
  end.

Lemma can_see_step g o v w :
  VisibilityGraph.can_see g v w = true → VisibilityGraph.can_see (vis_step g o) v w = true.
Proof.
  assert (∀ g x y, VisibilityGraph.can_see g v w = true →
    VisibilityGraph.can_see (VisibilityGraph.grant g x y).1 v w = true) as Hg.
  { intros g' x y. rewrite !can_see_iff, edges_grant. naive_solver. }
  intros Hs. destruct o; cbn [vis_step]; [by rewrite can_see_register|by apply Hg|].
  rewrite grant_checked_state. case_match; auto.
Qed.

Lemma create_next s params :
  PortRightsGraph.next_id (TopologySet.port_rights s) + 3 ≤ u64_max → topo_wf s →
  PortRightsGraph.next_id (TopologySet.port_rights (TopologySet.create_workspace s params).1)
    ≤ PortRightsGraph.next_id (TopologySet.port_rights s) + 3.
Proof.
  intros Hb [_ Hp _ _ _ _]. unfold TopologySet.create_workspace.
  destruct (WorkspaceTree.insert _ _) as [t' [a|e]];
    cbn [fst TopologySet.port_rights]; [|lia].
  destruct (create_rights_wf (TopologySet.port_rights s) (cw_parent params) (cw_id params)) as [_ ->];
    [lia|done|lia].
Qed.

Lemma topo_step_wf s op :
  PortRightsGraph.next_id (TopologySet.port_rights s) + 3 ≤ u64_max → topo_wf s →
  ∃ s', topo_step s op = Some s' ∧ topo_wf s' ∧
    PortRightsGraph.next_id (TopologySet.port_rights s')
      ≤ PortRightsGraph.next_id (TopologySet.port_rights s) + 3.
Proof.
  intros Hb Hwf. pose proof Hwf as [Ht Hp Hv Hr Hs Hrc]. pose proof (pw_next _ Hp).
  destruct op as [params|id st|id u|o|o]; cbn [topo_step].
  - eexists. split_and!; [done|by apply topo_wf_create|by apply create_next].
  - destruct (terminate_spec s id st Hwf) as (s' & eff & -> & Hwf' & Hports & _).
    exists s'. split_and!; [done..|]. rewrite Hports.
    destruct (expire_many_wf (id :: ce_failed eff) (TopologySet.port_rights s)) as (_ & -> & _); [done|lia].
  - eexists. split_and!; [done|by apply topo_wf_transfer|].
    unfold TopologySet.transfer_ownership. by destruct (WorkspaceTree.transfer_owner _ _ _) as [? []]; cbn; lia.
  - eexists. split_and!; [done| |cbn; lia]. split; cbn; try done; [by apply consistent_step|].
    intros k Hk. by apply can_see_step, Hs.
  - eexists. split_and!; [done| |].
    { split; cbn; try done; [apply port_wf_step; [lia|done]|]. intros k Hk Hne. by apply receives_step, Hrc. }
    cbn. pose proof (port_step_next (TopologySet.port_rights s) o). lia.
Qed.

(** ** What the history entitles to

    The register of rights that a history should leave, from the operations and the trees
    they went through: a workspace that is created gets its three rights, and a
    termination expires those of the workspace and, on failure, of the failed ones left
    below it. *)

Definition accepted (t : WorkspaceTree.t) (params : CreateWorkspaceParams) : bool :=
  bool_decide (WorkspaceTree.get t (cw_id params) = None ∧ is_Some (WorkspaceTree.get t (cw_parent params))).

Definition ended (t' : WorkspaceTree.t) (id : WorkspaceId) (st : WorkspaceState.t) : list WorkspaceId :=
  id :: if decide (st = WorkspaceState.Failed)
        then filter (failed_in t') (default [] (WorkspaceTree.descendants t' id)) else [].

Definition rights_after (t t' : WorkspaceTree.t) (op : topo_op) (l : Register.t) : Register.t :=
  match op with
  | OCreate params =>
      if accepted t params then fold_left Register.step (create_ops (cw_parent params) (cw_id params)) l else l
  | OTerminate id st => Register.expire (ended t' id st) l
  | OTransfer _ _ | OVis _ => l
  | OPort o => Register.step l o
  end.

Fixpoint rights_of (s : TopologySet.t) (ops : list topo_op) (l : Register.t) : Register.t :=
  match ops with
  | [] => l
  | op :: ops =>
      match topo_step s op with
      | Some s' => rights_of s' ops (rights_after (TopologySet.tree s) (TopologySet.tree s') op l)
      | None => l
      end
  end.

Lemma agrees_steps g l os :
  PortRightsGraph.next_id g + Z.of_nat (length os) ≤ u64_max → port_wf g → Register.agrees g l →
  Register.agrees (fold_left port_step os g) (fold_left Register.step os l).
Proof.
  revert g l. induction os as [|o os IH]; intros g l Hb Hwf Hag; [done|]. cbn [fold_left length] in *.
  pose proof (pw_next _ Hwf). pose proof (port_step_next g o ltac:(lia)).
  apply IH; [lia|by apply port_wf_step; [lia|]|by apply agrees_step; [lia|..]].
Qed.

Lemma insert_accepted t params n :
  node_id n = cw_id params → node_parent n = Some (cw_parent params) →
  is_ok (WorkspaceTree.insert t n).2 = accepted t params.
Proof.
  intros Hid Hpar. unfold WorkspaceTree.insert, accepted, WorkspaceTree.get. rewrite Hid, Hpar.
  destruct (WorkspaceTree.nodes t !! cw_id params); cbn [snd is_ok]; [by rewrite bool_decide_false by naive_solver|].
  destruct (WorkspaceTree.nodes t !! cw_parent params); cbn [snd is_ok].
  - by rewrite bool_decide_true by eauto.
  - rewrite bool_decide_false; [done|]. intros [_ [? ?]]. done.
Qed.

Lemma rights_after_agrees s op s' l :
  PortRightsGraph.next_id (TopologySet.port_rights s) + 3 ≤ u64_max → topo_wf s →
  topo_step s op = Some s' → Register.agrees (TopologySet.port_rights s) l →
  Register.agrees (TopologySet.port_rights s')
    (rights_after (TopologySet.tree s) (TopologySet.tree s') op l).
Proof.
  intros Hb Hwf Hstep Hag. pose proof (to_ports _ Hwf) as Hp.
  destruct op as [params|id st|id u|o|o]; cbn [topo_step rights_after] in *.
  - injection Hstep as <-. unfold TopologySet.create_workspace. set (n := Build_WorkspaceNode _ _ _ _ _ _ _).
    rewrite <-(insert_accepted (TopologySet.tree s) params n) by done.
    destruct (WorkspaceTree.insert (TopologySet.tree s) n) as [t' [a|e]]; cbn [fst snd is_ok]; [|done].
    cbn [TopologySet.port_rights]. rewrite create_rights_ops. by apply agrees_steps; [cbn; lia|..].
  - destruct (terminate_spec s id st Hwf) as (s1 & eff & Ht & _ & Hports & _ & Hcase).
    rewrite Ht in Hstep. injection Hstep as ->. cbn [fst].
    assert (ended (TopologySet.tree s') id st = id :: ce_failed eff) as ->.
    { unfold ended. f_equal. case_decide; [|by destruct Hcase as (_ & -> & _)].
      destruct Hcase as (D & _ & -> & ->). done. }
    rewrite Hports. by apply agrees_expire_many.
  - injection Hstep as <-. unfold TopologySet.transfer_ownership.
    by destruct (WorkspaceTree.transfer_owner _ _ _) as [? []].
  - by injection Hstep as <-.
  - injection Hstep as <-. cbn. apply agrees_step; [lia|done..].
Qed.

Lemma topo_run_rights s ops s' l :
  PortRightsGraph.next_id (TopologySet.port_rights s) + 3 * Z.of_nat (length ops) ≤ u64_max →
  topo_wf s → topo_run s ops = Some s' → Register.agrees (TopologySet.port_rights s) l →
  Register.agrees (TopologySet.port_rights s') (rights_of s ops l).
Proof.
  revert s l. induction ops as [|op ops IH]; intros s l Hb Hwf; cbn [topo_run rights_of]; [by intros [= <-]|].
  cbn [length] in Hb. destruct (topo_step_wf s op) as (s1 & Hs1 & Hwf1 & Hn1); [lia|done|].
  rewrite Hs1. cbn. intros Hrun Hag. apply IH; [lia|done..|]. apply rights_after_agrees; [lia|done..].
Qed.

Lemma topo_run_wf s ops :
  PortRightsGraph.next_id (TopologySet.port_rights s) + 3 * Z.of_nat (length ops) ≤ u64_max →
  topo_wf s → ∃ s', topo_run s ops = Some s' ∧ topo_wf s'.
Proof.
  revert s. induction ops as [|op ops IH]; intros s Hb Hwf; cbn [topo_run]; [by exists s|].
  cbn [length] in Hb.
  destruct (topo_step_wf s op) as (s1 & -> & Hwf1 & Hn1); [lia|done|]. cbn. apply IH; [lia|done].
Qed.

(** ** Properties *)

(** C4. Along every history of compound operations, grants and port operations that is
    short enough not to exhaust the 2^64 ids of rights (three for each operation), the
    structures stay consistent with each other: the tree and port rights invariants hold,
    the router sends every workspace to its owner in the tree and knows no other
    workspace, the root sees every workspace, every workspace but the root has a right to
    receive, and the rights are exactly those the history entitles to: three for each
    workspace created and those of the port operations, moved, used and revoked as these
    say, and expired exactly when one of their ends was terminated or expired by a port
    operation, or was below a failed workspace and failed after the cascade. *)
Theorem topology_invariant r u ops :
  3 * Z.of_nat (length ops) < u64_max →
  ∃ s, topo_run (TopologySet.new r u) ops = Some s ∧ topo_wf s ∧
    Register.agrees (TopologySet.port_rights s) (rights_of (TopologySet.new r u) ops []).
Proof.
  intros Hb. destruct (topo_run_wf (TopologySet.new r u) ops) as (s & Hs & Hwf); [cbn; lia|apply topo_wf_new|].
  exists s. split_and!; [done..|]. eapply topo_run_rights; [cbn; lia|apply topo_wf_new|done|apply agrees_new].
Qed.

Definition sample_create (id parent owner : string) : topo_op :=
  OCreate {| cw_id := id; cw_parent := parent; cw_owner := owner;
             cw_originator := Originator.System; cw_status := WorkspaceState.Active;
             cw_task_id := None |}.

Definition sample_topo_ops : list topo_op :=
  [sample_create "a" "root" "alice"; sample_create "b" "a" "alice";
   sample_create "c" "a" "bob"; sample_create "d" "c" "alice"].

Lemma topology_invariant_witness :
  ∃ s, topo_run (TopologySet.new "root" "op") (sample_topo_ops ++ [OTerminate "a" WorkspaceState.Failed]) = Some s ∧ topo_wf s ∧
    Register.agrees (TopologySet.port_rights s) (rights_of (TopologySet.new "root" "op") (sample_topo_ops ++ [OTerminate "a" WorkspaceState.Failed]) []).
Proof. apply topology_invariant. vm_compute. done. Defined.

(** Creating a workspace under an existing parent connects it: it can send
    to its parent and its parent to it, the root sees it, and escalations from it
    reach its owner.  Creation is refused exactly for a known id or an unknown
    parent, and then nothing changes. *)
Theorem create_workspace_connects s p :
  topo_wf s → PortRightsGraph.next_id (TopologySet.port_rights s) + 3 ≤ u64_max →
  let '(s', r) := TopologySet.create_workspace s p in
  match r with
  | Err e => s' = s ∧ (is_Some (WorkspaceTree.get (TopologySet.tree s) (cw_id p)) ∧ e = DuplicateNode (cw_id p)
      ∨ WorkspaceTree.get (TopologySet.tree s) (cw_id p) = None ∧
        WorkspaceTree.get (TopologySet.tree s) (cw_parent p) = None ∧ e = ParentNotFound (cw_parent p))
  | Ok _ =>
      is_ok (PortRightsGraph.validate_send (TopologySet.port_rights s') (cw_parent p) (cw_id p)) = true ∧
      is_ok (PortRightsGraph.validate_send (TopologySet.port_rights s') (cw_id p) (cw_parent p)) = true ∧
      VisibilityGraph.can_see (TopologySet.visibility s')
        (WorkspaceTree.root (TopologySet.tree s')) (cw_id p) = true ∧
      EscalationRouter.route (TopologySet.escalation s') (cw_id p) = Some (cw_owner p)
  end.
Proof.
  intros Hwf Hb. pose proof (topo_wf_create s p Hb Hwf) as Hwf'. destruct Hwf as [_ Hp _ _ _ _].
  revert Hwf'. unfold TopologySet.create_workspace. set (n := Build_WorkspaceNode _ _ _ _ _ _ _).
  destruct (WorkspaceTree.insert (TopologySet.tree s) n) as [t' [a|e]] eqn:Hins.
  - intros [Ht' _ _ Hr' Hs' _]. destruct (insert_Ok _ _ _ _ Hins) as (_ & _ & Ho). specialize (Ho (cw_id p)).
    rewrite decide_True in Ho by done.
    destruct (create_rights_wf (TopologySet.port_rights s) (cw_parent p) (cw_id p) Hb Hp) as [Hports _].
    destruct (create_rights_get (TopologySet.port_rights s) (cw_parent p) (cw_id p) Hb Hp)
      as (i1 & i2 & H1 & H2).
    split_and!; [by apply (validate_send_ok _ _ _ _ _ Hports H1)
      |by apply (validate_send_ok _ _ _ _ _ Hports H2)| |by etrans; [apply Hr'|exact Ho]].
    apply Hs'. cbn. unfold WorkspaceTree.get. by destruct (WorkspaceTree.nodes t' !! cw_id p).
  - intros _. revert Hins. unfold WorkspaceTree.insert, WorkspaceTree.get, n. cbn.
    repeat case_match; intros; simplify_eq; (split; [by destruct s|]); [left|right]; by eauto.
Qed.

Definition sample_topo : TopologySet.t :=
  default (TopologySet.new "root" "op") (topo_run (TopologySet.new "root" "op") sample_topo_ops).

Lemma sample_topo_wf : topo_wf sample_topo.
Proof.
  unfold sample_topo. destruct (topo_run_wf (TopologySet.new "root" "op") sample_topo_ops) as (s & -> & ?);
    [by vm_compute|apply topo_wf_new|done].
Qed.

Lemma create_workspace_connects_witness :
  let p := {| cw_id := "e"; cw_parent := "b"; cw_owner := "carol";
              cw_originator := Originator.User "carol"; cw_status := WorkspaceState.Idle;
              cw_task_id := Some "t1" |} in
  let '(s', r) := TopologySet.create_workspace sample_topo p in
  match r with
  | Ok _ => is_ok (PortRightsGraph.validate_send (TopologySet.port_rights s') "e" "b") = true
  | Err _ => False
  end.
Proof.
  intros p.
  pose proof (create_workspace_connects sample_topo p sample_topo_wf ltac:(by vm_compute)) as H.
  destruct (TopologySet.create_workspace sample_topo p) as [s' [a|e]] eqn:Hc.
  - apply H.
  - by vm_compute in Hc.
Defined.

(** Terminating a workspace other than the root as failed: afterwards the
    reported workspaces are exactly those still below it, all of them are failed
    in the tree, exactly the active rights held by or targeting the workspace or a
    reported one expire, and the reported number is how many active rights went. *)
Theorem terminate_failed_effect s id n :
  topo_wf s → WorkspaceTree.get (TopologySet.tree s) id = Some n →
  id ≠ WorkspaceTree.root (TopologySet.tree s) →
  ∃ s' eff, TopologySet.terminate_workspace s id WorkspaceState.Failed = Some (s', eff) ∧
    (∀ k, k ∈ ce_failed eff ↔ desc (WorkspaceTree.nodes (TopologySet.tree s')) id k) ∧
    (∀ k, k ∈ id :: ce_failed eff → failed_in (TopologySet.tree s') k) ∧
    (∀ r, PortRightsGraph.get (TopologySet.port_rights s') r =
       (λ e, if decide (pre_status e = PortRightStatus.Active ∧
                        (pre_holder e ∈ id :: ce_failed eff ∨ pre_target e ∈ id :: ce_failed eff))
             then pre_with_status PortRightStatus.Expired e else e)
       <$> PortRightsGraph.get (TopologySet.port_rights s) r) ∧
    Z.of_nat (PortRightsGraph.active_count (TopologySet.port_rights s))
      = ce_rights_expired eff + Z.of_nat (PortRightsGraph.active_count (TopologySet.port_rights s')) ∧
    0 ≤ ce_rights_expired eff.
Proof.
  intros Hwf Hid Hroot. pose proof Hwf as [Ht Hp _ _ _ _].
  destruct (terminate_spec s id WorkspaceState.Failed Hwf) as (s' & eff & Hterm & Hwf' & Hports & Hn & Hcase).
  rewrite decide_True in Hcase by done. destruct Hcase as (D & Hc & HD & Hfailed).
  exists s', eff. split; [done|].
  destruct (failed_after_cascade (TopologySet.tree s) id n (TopologySet.tree s') (ce_reparented eff))
    as [Hself Hrem]; [done..|].
  destruct (descendants_spec (TopologySet.tree s') id (tw_forest _ (to_tree _ Hwf'))) as (D' & HD' & _ & Hin).
  rewrite HD in HD'. injection HD' as <-. split_and!.
  - intros k. rewrite Hfailed, list_elem_of_filter, Hin. naive_solver.
  - intros k [-> | Hk]%elem_of_cons; [done|]. rewrite Hfailed, list_elem_of_filter in Hk. apply Hk.
  - intros r. rewrite Hports. by apply expire_many_get.
  - lia.
  - rewrite Hn, Hports. destruct (expire_many_wf (id :: ce_failed eff) _ Hp) as (_ & _ & Hle).
    clear - Hle. lia.
Qed.

Lemma terminate_failed_effect_witness :
  ∃ s' eff, TopologySet.terminate_workspace sample_topo "a" WorkspaceState.Failed = Some (s', eff) ∧
    ∀ k, k ∈ ce_failed eff ↔ desc (WorkspaceTree.nodes (TopologySet.tree s')) "a" k.
Proof.
  destruct (WorkspaceTree.get (TopologySet.tree sample_topo) "a") as [n|] eqn:Hn; [|by vm_compute in Hn].
  assert (WorkspaceTree.root (TopologySet.tree sample_topo) = "root") as Hr by (vm_compute; done).
  destruct (terminate_failed_effect sample_topo "a" n sample_topo_wf Hn) as (s' & eff & Hs & Hk & _).
  { rewrite Hr. discriminate. }
  exists s', eff. exact (conj Hs Hk).
Defined.

(** The outcome of a failed termination that concerns one workspace: its status in
    the tree, whether the effect reports it, and whether it may still send. *)
Definition after_failure (s : TopologySet.t) (id w target : WorkspaceId)
    : option (option WorkspaceState.t * bool * bool) :=
  '(s', eff) ← TopologySet.terminate_workspace s id WorkspaceState.Failed;
  Some (node_status <$> WorkspaceTree.get (TopologySet.tree s') w,
        bool_decide (w ∈ ce_failed eff),
        is_ok (PortRightsGraph.validate_send (TopologySet.port_rights s') w target)).

(** The rights of some failed workspaces survive.  When [alice]'s workspace
    [a] fails, its descendant [d] of the same owner sits below [bob]'s workspace
    [c].  The cascade marks [d] failed and moves [c] away first, so [d] is no
    longer below [a]: it is not reported and can still send to [c]. *)
Theorem failed_descendant_keeps_rights :
  after_failure sample_topo "a" "d" "c" = Some (Some WorkspaceState.Failed, false, true) ∧
  after_failure sample_topo "a" "b" "a" = Some (Some WorkspaceState.Failed, true, false).
Proof. vm_compute. done. Qed.
