(* ===== verification/TaskGraph.v ===== *)
(** * Task graph (wacp-coordinator: task_graph.rs)

    Tasks with dependency counters, forward edges and workspace bindings.  The
    theorems show that, when every addition succeeds and every task that becomes
    terminal is reported once, the counter of a task is the number of its
    unfinished dependencies, so the dispatchable tasks are exactly the pending ones
    with finished dependencies; that bindings are one-to-one; and what a refused
    addition leaves behind. *)

From S2P Require Import Prelude Types Fsm.

Inductive GraphError : Set :=
| DependencyNotFound (dep : string)
| DuplicateTask (id : string)
| TaskNotFound (id : string)
| GTransition (e : TransitionError)
| WorkspaceAlreadyBound (w : WorkspaceId)
| TaskAlreadyBound (t : TaskId).

(** [matches!(status, Integrated | Cancelled)] *)
Definition task_done (s : TaskStatus.t) : bool :=
  match s with TaskStatus.Integrated | TaskStatus.Cancelled => true | _ => false end.

Module TaskGraph.
Record t := Mk {
  tasks : gmap string Task;
  remaining_deps : gmap string Z;
  forward : gmap string (list TaskId);
  task_workspace : gmap string WorkspaceId;
  workspace_task : gmap string TaskId;
}.

Definition new : t := Mk ∅ ∅ ∅ ∅ ∅.

(** The dependency loop of [add_task]: forward edges are pushed while the
    dependencies are validated. *)
Fixpoint add_deps (tasks : gmap string Task) (id : TaskId) (deps : list TaskId)
    (fwd : gmap string (list TaskId)) (remaining : Z)
    : gmap string (list TaskId) * result Z GraphError :=
  match deps with
  | [] => (fwd, Ok remaining)
  | dep :: deps =>
      match tasks !! dep with
      | None => (fwd, Err (DependencyNotFound dep))
      | Some dep_task =>
          let fwd := push_entry dep id fwd in
          let remaining :=
            if task_done (task_status dep_task) then remaining else wrap32 (remaining + 1) in
          add_deps tasks id deps fwd remaining
      end
  end.

Definition add_task (self : t) (task : Task) : t * result unit GraphError :=
  let id := task_id task in
  match tasks self !! id with
  | Some _ => (self, Err (DuplicateTask id))
  | None =>
      match add_deps (tasks self) id (task_depends_on task) (forward self) 0 with
      | (fwd, Err e) =>
          (Mk (tasks self) (remaining_deps self) fwd (task_workspace self) (workspace_task self), Err e)
      | (fwd, Ok remaining) =>
          (Mk (<[id := task]> (tasks self)) (<[id := remaining]> (remaining_deps self)) fwd
              (task_workspace self) (workspace_task self), Ok tt)
      end
  end.

Definition get (self : t) (id : TaskId) : option Task := tasks self !! id.

Definition with_tasks (ts : gmap string Task) (self : t) : t :=
  Mk ts (remaining_deps self) (forward self) (task_workspace self) (workspace_task self).

Definition transition (self : t) (id : TaskId) (trigger : TaskTrigger.t)
    : t * result TaskStatus.t GraphError :=
  match tasks self !! id with
  | None => (self, Err (TaskNotFound id))
  | Some task =>
      match TaskFsm.transition (task_status task) trigger with
      | Err e => (self, Err (GTransition e))
      | Ok new_status =>
          (with_tasks (<[id := task_with_status new_status task]> (tasks self)) self, Ok new_status)
      end
  end.

(** One iteration of the loop of [mark_completed]. *)
Definition count_down (acc : gmap string Z * list TaskId) (dep_id : TaskId)
    : gmap string Z * list TaskId :=
  let '(counts, newly_ready) := acc in
  match counts !! dep_id with
  | None => acc
  | Some count =>
      let count := saturating_sub count 1 in
      (<[dep_id := count]> counts,
       if count =? 0 then newly_ready ++ [dep_id] else newly_ready)
  end.

Definition mark_completed (self : t) (id : TaskId) : t * list TaskId :=
  let dependents := idx (forward self) id in
  let '(counts, newly_ready) := fold_left count_down dependents (remaining_deps self, []) in
  (Mk (tasks self) counts (forward self) (task_workspace self) (workspace_task self), newly_ready).

Definition mark_failed (self : t) (id : TaskId) : list TaskId := idx (forward self) id.

Definition bind (self : t) (task_id : TaskId) (workspace_id : WorkspaceId)
    : t * result unit GraphError :=
  match tasks self !! task_id with
  | None => (self, Err (TaskNotFound task_id))
  | Some task =>
      match task_workspace_ref task with
      | Some _ => (self, Err (TaskAlreadyBound task_id))
      | None =>
          match workspace_task self !! workspace_id with
          | Some _ => (self, Err (WorkspaceAlreadyBound workspace_id))
          | None =>
              let task := task_with_workspace (Some workspace_id)
                            (task_workspace_history task ++ [workspace_id]) task in
              (Mk (<[task_id := task]> (tasks self)) (remaining_deps self) (forward self)
                  (<[task_id := workspace_id]> (task_workspace self))
                  (<[workspace_id := task_id]> (workspace_task self)), Ok tt)
          end
      end
  end.

Definition unbind (self : t) (task_id : TaskId) : t :=
  match tasks self !! task_id with
  | None => self
  | Some task =>
      let wt := match task_workspace_ref task with
                | Some ws => delete ws (workspace_task self)
                | None => workspace_task self
                end in
      Mk (<[task_id := task_with_workspace None (task_workspace_history task) task]> (tasks self))
         (remaining_deps self) (forward self) (delete task_id (task_workspace self)) wt
  end.

Definition task_for_workspace (self : t) (workspace_id : WorkspaceId) : option TaskId :=
  workspace_task self !! workspace_id.

Definition is_dispatchable (self : t) (task : Task) : bool :=
  bool_decide (task_status task = TaskStatus.Pending)
  && (default 0 (remaining_deps self !! task_id task) =? 0).

Definition dispatchable `{HashOrder} (self : t) : list TaskId :=
  task_id <$> filter (λ task, is_dispatchable self task = true) (values (tasks self)).

Definition is_complete `{HashOrder} (self : t) : bool :=
  forallb (λ task, task_done (task_status task)) (values (tasks self)).

Definition dependents (self : t) (id : TaskId) : list TaskId := idx (forward self) id.

Definition roots `{HashOrder} (self : t) : list TaskId :=
  task_id <$> filter (λ task, task_parent_task task = None) (values (tasks self)).

Definition remaining (self : t) (id : TaskId) : option Z := remaining_deps self !! id.
End TaskGraph.

(** ** Histories under the notification protocol

    A client reports a task with [mark_completed] when a transition makes it
    [Integrated] or [Cancelled]. *)

Inductive graph_op :=
| GAdd (task : Task)
| GMove (id : TaskId) (trigger : TaskTrigger.t)
| GBind (id : TaskId) (w : WorkspaceId)
| GUnbind (id : TaskId).

(** A transition followed by the report it calls for, and the newly ready tasks. *)
Definition move (g : TaskGraph.t) (id : TaskId) (trigger : TaskTrigger.t) : TaskGraph.t * list TaskId :=
  match TaskGraph.transition g id trigger with
  | (g, Ok s) => if task_done s then TaskGraph.mark_completed g id else (g, [])
  | (g, Err _) => (g, [])
  end.

(** [None]: an addition was refused. *)
Definition graph_step (g : TaskGraph.t) (op : graph_op) : option TaskGraph.t :=
  match op with
  | GAdd task =>
      match TaskGraph.add_task g task with
      | (g, Ok _) => Some g
      | (_, Err _) => None
      end
  | GMove id trigger => Some (move g id trigger).1
  | GBind id w => Some (TaskGraph.bind g id w).1
  | GUnbind id => Some (TaskGraph.unbind g id)
  end.

Fixpoint graph_run (g : TaskGraph.t) (ops : list graph_op) : option TaskGraph.t :=
  match ops with
  | [] => Some g
  | op :: ops => g' ← graph_step g op; graph_run g' ops
  end.

(** Tasks as clients add them: not yet bound, with at most [u32::MAX] dependencies. *)
Definition fresh_task (task : Task) : Prop :=
  task_workspace_ref task = None ∧ Z.of_nat (length (task_depends_on task)) ≤ u32_max.

Definition op_ok (op : graph_op) : Prop :=
  match op with GAdd task => fresh_task task | _ => True end.

(** ** Counting *)

Implicit Types ts : gmap string Task.

Definition occ (x : string) (l : list string) : nat := length (filter (λ y, y = x) l).

Definition finished (ts : gmap string Task) (d : TaskId) : bool :=
  match ts !! d with Some task => task_done (task_status task) | None => false end.

(** Number of unfinished dependencies, with multiplicity. *)
Definition open_deps (ts : gmap string Task) (task : Task) : nat :=
  length (filter (λ d, finished ts d = false) (task_depends_on task)).

Lemma occ_cons x y l : occ x (y :: l) = ((if decide (y = x) then 1 else 0) + occ x l)%nat.
Proof. unfold occ. rewrite filter_cons. by case_decide. Qed.

Lemma occ_app x l k : occ x (l ++ k) = (occ x l + occ x k)%nat.
Proof. unfold occ. by rewrite filter_app, length_app. Qed.

Lemma occ_zero x l : occ x l = 0%nat ↔ x ∉ l.
Proof.
  induction l as [|y l IH]; [cbn; set_solver|]. rewrite occ_cons, not_elem_of_cons.
  case_decide; naive_solver lia.
Qed.

Lemma occ_pos x l : (0 < occ x l)%nat ↔ x ∈ l.
Proof.
  destruct (decide (x ∈ l)) as [Hin|Hin].
  - split; [done|]. intros _. destruct (occ x l) eqn:Ho; [|lia]. by apply occ_zero in Ho.
  - apply occ_zero in Hin as Ho. split; [lia|done].
Qed.

(** Finishing [id] removes its occurrences from the open dependencies. *)
Lemma open_deps_finish ts ts' id task :
  finished ts id = false → finished ts' id = true →
  (∀ d, d ≠ id → finished ts' d = finished ts d) →
  open_deps ts task = (open_deps ts' task + occ id (task_depends_on task))%nat.
Proof.
  intros Hid Hid' Hother. unfold open_deps, occ.
  induction (task_depends_on task) as [|d l IH]; [done|]. rewrite !filter_cons.
  destruct (decide (d = id)) as [->|Hd]; [|pose proof (Hother d Hd)];
    repeat case_decide; cbn [length]; try congruence; lia.
Qed.

Lemma open_deps_ext ts ts' task :
  (∀ d, d ∈ task_depends_on task → finished ts' d = finished ts d) →
  open_deps ts' task = open_deps ts task.
Proof.
  unfold open_deps. induction (task_depends_on task) as [|d l IH]; intros Hext; [done|].
  rewrite !filter_cons. pose proof (Hext d ltac:(set_solver)).
  assert (∀ d, d ∈ l → finished ts' d = finished ts d) as Hl by set_solver. specialize (IH Hl).
  repeat case_decide; cbn [length]; congruence.
Qed.

Lemma open_deps_zero ts task :
  open_deps ts task = 0%nat ↔ ∀ d, d ∈ task_depends_on task → finished ts d = true.
Proof.
  unfold open_deps. rewrite length_zero_iff_nil. split.
  - intros Hnil d Hd. destruct (finished ts d) eqn:Hf; [done|].
    assert (d ∈ filter (λ d, finished ts d = false) (task_depends_on task)) as Hin
      by (by apply list_elem_of_filter).
    rewrite Hnil in Hin. set_solver.
  - intros Hall. destruct (filter _ _) as [|d l] eqn:Hf; [done|].
    assert (d ∈ d :: l) as Hin by set_solver. rewrite <- Hf in Hin.
    apply list_elem_of_filter in Hin as [Hno Hin]. apply Hall in Hin. congruence.
Qed.

(** ** Invariant *)

(** Dependencies exist and form no cycle; the counters and the forward edges
    agree with them. *)
Record deps_wf (ts : gmap string Task) (counts : gmap string Z) (fwd : gmap string (list TaskId))
    : Prop := {
  dw_key : ∀ k t, ts !! k = Some t → task_id t = k;
  dw_deps : ∀ k t d, ts !! k = Some t → d ∈ task_depends_on t → is_Some (ts !! d);
  dw_count : ∀ k, counts !! k = (λ t, Z.of_nat (open_deps ts t)) <$> ts !! k;
  dw_forward : ∀ d k, occ k (idx fwd d) =
    default 0%nat ((λ t, occ d (task_depends_on t)) <$> ts !! k);
  dw_rank : ∃ rank : TaskId → nat, ∀ k t d,
    ts !! k = Some t → d ∈ task_depends_on t → (rank d < rank k)%nat;
}.

(** The two binding maps and the tasks' own references say the same. *)
Record bind_wf (ts : gmap string Task) (tw : gmap string WorkspaceId) (wt : gmap string TaskId)
    : Prop := {
  bw_ref : ∀ k, tw !! k = ts !! k ≫= task_workspace_ref;
  bw_back : ∀ k w, wt !! w = Some k ↔ tw !! k = Some w;
}.

Record graph_wf (g : TaskGraph.t) : Prop := {
  gw_deps : deps_wf (TaskGraph.tasks g) (TaskGraph.remaining_deps g) (TaskGraph.forward g);
  gw_bind : bind_wf (TaskGraph.tasks g) (TaskGraph.task_workspace g) (TaskGraph.workspace_task g);
}.

Lemma graph_wf_new : graph_wf TaskGraph.new.
Proof.
  split; split; cbn; intros *; rewrite ?lookup_empty, ?idx_empty; try done.
  by exists (λ _, 0%nat).
Qed.

(** The part of a task the dependency invariant reads. *)
Definition core (t : Task) : TaskId * list TaskId * bool :=
  (task_id t, task_depends_on t, task_done (task_status t)).

Lemma finished_core ts ts' d : core <$> ts = core <$> ts' → finished ts' d = finished ts d.
Proof.
  intros Heq. apply (f_equal (.!! d)) in Heq. rewrite !lookup_fmap in Heq. unfold finished, core in *.
  destruct (ts !! d), (ts' !! d); cbn in Heq; congruence.
Qed.

Lemma lookup_core ts ts' k t' :
  core <$> ts = core <$> ts' → ts' !! k = Some t' → ∃ t, ts !! k = Some t ∧ core t = core t'.
Proof.
  intros Heq Hk. apply (f_equal (.!! k)) in Heq. rewrite !lookup_fmap, Hk in Heq.
  destruct (ts !! k) as [t|]; [|done]. exists t. by apply (inj Some) in Heq.
Qed.

Lemma deps_wf_core ts ts' counts fwd :
  core <$> ts = core <$> ts' → deps_wf ts counts fwd → deps_wf ts' counts fwd.
Proof.
  intros Heq [Hk Hd Hc Hf [rank Hr]].
  assert (∀ k t', ts' !! k = Some t' → ∃ t, ts !! k = Some t ∧ core t = core t') as Hl
    by eauto using lookup_core.
  assert (∀ k, option_Forall2 (λ t t', core t = core t') (ts !! k) (ts' !! k)) as Hrel.
  { intros k. apply (f_equal (.!! k)) in Heq. rewrite !lookup_fmap in Heq.
    destruct (ts !! k), (ts' !! k); try discriminate; constructor. by apply (inj Some) in Heq. }
  unfold core in *. split.
  - intros k t' (t & Ht%Hk & ?)%Hl. congruence.
  - intros k t' d (t & Ht & Hcore)%Hl Hin.
    destruct (Hd k t d) as [td Htd]; [done|congruence|]. destruct (Hrel d); [done|congruence].
  - intros k. rewrite Hc. destruct (Hrel k) as [t t' Hcore|]; [|done]. cbn. do 2 f_equal.
    unfold open_deps. replace (task_depends_on t') with (task_depends_on t) by congruence.
    fold (open_deps ts t). symmetry. apply open_deps_ext. intros d _. by apply finished_core.
  - intros d k. rewrite Hf. destruct (Hrel k); cbn; congruence.
  - exists rank. intros k t' d (t & Ht & ?)%Hl Hin. eapply Hr; [done|congruence].
Qed.

Lemma add_deps_ok ts id deps fwd r fwd' r' :
  TaskGraph.add_deps ts id deps fwd r = (fwd', Ok r') →
  0 ≤ r → r + Z.of_nat (length deps) ≤ u32_max →
  (∀ d, d ∈ deps → is_Some (ts !! d)) ∧
  r' = r + Z.of_nat (length (filter (λ d, finished ts d = false) deps)) ∧
  ∀ d k, occ k (idx fwd' d) = (occ k (idx fwd d) + if decide (k = id) then occ d deps else 0)%nat.
Proof.
  revert fwd r. induction deps as [|d0 deps IH]; intros fwd r Hadd Hr Hb; cbn in Hadd.
  { injection Hadd as <- <-. split_and!; [set_solver|cbn; lia|]. intros d k. cbn. case_decide; lia. }
  cbn [length] in Hb. destruct (ts !! d0) as [dt|] eqn:Hd0; [|done].
  assert (finished ts d0 = task_done (task_status dt)) as Hf by (unfold finished; by rewrite Hd0).
  rewrite filter_cons.
  apply IH in Hadd as (Hin & -> & Hocc); clear IH.
  - split_and!.
    + intros d [-> | Hd]%elem_of_cons; [by rewrite Hd0|by apply Hin].
    + destruct (task_done (task_status dt)).
      * rewrite decide_False by congruence. lia.
      * rewrite decide_True by done. rewrite wrap32_small by solve_range. cbn [length]. lia.
    + intros d k. rewrite Hocc, idx_push_entry, occ_cons.
      destruct (decide (d0 = d)) as [->|]; rewrite ?occ_app, ?occ_cons;
        destruct (decide (k = id)) as [->|]; rewrite ?decide_True by done; cbn; try lia.
      rewrite decide_False by done. lia.
  - destruct (task_done _); [lia|]. rewrite wrap32_small; solve_range.
  - destruct (task_done _); [lia|]. rewrite wrap32_small; solve_range.
Qed.

Lemma deps_wf_add ts counts fwd task fwd' r :
  deps_wf ts counts fwd → ts !! task_id task = None →
  Z.of_nat (length (task_depends_on task)) ≤ u32_max →
  TaskGraph.add_deps ts (task_id task) (task_depends_on task) fwd 0 = (fwd', Ok r) →
  deps_wf (<[task_id task := task]> ts) (<[task_id task := r]> counts) fwd'.
Proof.
  intros [Hk Hd Hc Hf [rank Hr]] Hfresh Hlen Hadd.
  apply add_deps_ok in Hadd as (Hin & -> & Hocc); [|lia..].
  set (id := task_id task) in *.
  assert (∀ d, d ∈ task_depends_on task → d ≠ id) as Hne by (intros d [? ?]%Hin ->; congruence).
  assert (∀ d, d ≠ id → finished (<[id := task]> ts) d = finished ts d) as Hfin
    by (intros d ?; unfold finished; by rewrite lookup_insert_ne).
  assert (∀ k t d, ts !! k = Some t → d ∈ task_depends_on t → d ≠ id) as Hold
    by (intros k t d ? [? ?]%(Hd k t d) ->; congruence).
  split.
  - intros k t. rewrite lookup_insert. case_decide; [by intros [= <-]|by apply Hk].
  - intros k t d. rewrite lookup_insert. case_decide; [intros [= <-] Hx|intros Hx1 Hx2];
      rewrite lookup_insert_ne; eauto; apply not_eq_sym; eauto.
  - intros k. rewrite !lookup_insert. case_decide as Hkid; cbn.
    + do 2 f_equal. unfold open_deps. cbn. fold (open_deps ts task).
      rewrite <- (open_deps_ext ts (<[id := task]> ts)); [done|]. auto.
    + rewrite Hc. destruct (ts !! k) as [t|] eqn:Ht; [|done]. cbn. do 2 f_equal. symmetry.
      apply open_deps_ext. eauto.
  - intros d k. rewrite Hocc, Hf, lookup_insert. case_decide as Hkid; subst; cbn.
    + rewrite decide_True by done. rewrite Hfresh. done.
    + rewrite decide_False by done. lia.
  - exists (λ x, if decide (x = id) then S (max_list (rank <$> task_depends_on task)) else rank x).
    intros k t d. rewrite lookup_insert. case_decide as Hkid; [intros [= <-] Hx|intros Hx1 Hx2].
    + subst k. rewrite decide_False by auto. rewrite decide_True by done.
      apply Nat.lt_succ_r, max_list_elem_of_le, list_elem_of_fmap. eauto.
    + rewrite !decide_False by eauto. eauto.
Qed.

(** ** Counting down *)

(** When no counter is exhausted early, [mark_completed] subtracts the number of
    edges and reports once each task whose counter was exactly that number. *)
Lemma count_down_fold l counts acc :
  (∀ k, k ∈ l → ∃ c, counts !! k = Some c ∧ Z.of_nat (occ k l) ≤ c) →
  ∃ counts' ready, fold_left TaskGraph.count_down l (counts, acc) = (counts', acc ++ ready) ∧
    (∀ k, counts' !! k = (λ c, c - Z.of_nat (occ k l)) <$> counts !! k) ∧ NoDup ready ∧
    (∀ k, k ∈ ready ↔ k ∈ l ∧ counts !! k = Some (Z.of_nat (occ k l))).
Proof.
  revert counts acc. induction l as [|x l IH]; intros counts acc Hl.
  { exists counts, []. rewrite app_nil_r. split_and!; [done| |constructor|set_solver].
    intros k. destruct (counts !! k); cbn; [|done]. f_equal. lia. }
  destruct (Hl x) as (c & Hc & Hle); [set_solver|]. rewrite occ_cons, decide_True in Hle by done.
  cbn [fold_left]. unfold TaskGraph.count_down at 2. rewrite Hc.
  assert (saturating_sub c 1 = c - 1) as -> by solve_range.
  set (counts1 := <[x := c - 1]> counts).
  assert (∀ k, k ≠ x → occ k (x :: l) = occ k l) as Hocc.
  { intros k Hk. rewrite occ_cons, decide_False by done. lia. }
  destruct (IH counts1 (if c - 1 =? 0 then acc ++ [x] else acc)) as (counts' & ready & Heq & Hcounts & Hnd & Hin).
  { intros k Hk. unfold counts1. rewrite lookup_insert. case_decide as Hkx.
    - subst k. exists (c - 1). split; [done|]. lia.
    - destruct (Hl k) as (c' & Hc' & Hle'); [set_solver|]. exists c'. rewrite Hocc in Hle' by done. done. }
  exists counts', (if c - 1 =? 0 then x :: ready else ready).
  assert (∀ k, counts1 !! k = if decide (k = x) then Some (c - 1) else counts !! k) as Hl1.
  { intros k. unfold counts1. rewrite lookup_insert. repeat case_decide; congruence. }
  split_and!.
  - rewrite Heq. destruct (c - 1 =? 0); [|done]. by rewrite <- app_assoc.
  - intros k. rewrite Hcounts, Hl1. case_decide as Hkx; [subst k|by rewrite Hocc].
    rewrite Hc, occ_cons, decide_True by done. cbn. f_equal. lia.
  - destruct (Z.eqb_spec (c - 1) 0); [|done]. constructor; [|done].
    rewrite Hin. intros [Hx%occ_pos _]. lia.
  - intros k. assert (k ∈ (if c - 1 =? 0 then x :: ready else ready) ↔
      (c - 1 = 0 ∧ k = x) ∨ k ∈ ready) as ->.
    { destruct (Z.eqb_spec (c - 1) 0); rewrite ?elem_of_cons; naive_solver. }
    rewrite Hin, Hl1, elem_of_cons. destruct (decide (k = x)) as [->|Hkx].
    + rewrite Hc, occ_cons, decide_True by done. rewrite <- occ_pos. split.
      * intros [[Hz _]|[Hpos Hx]]; (split; [by left|]); f_equal; [|injection Hx; lia].
        destruct (occ x l); [lia|]. lia.
      * intros [_ Hx]. injection Hx as Hx. destruct (occ x l) eqn:Ho; [left; split; [lia|done]|].
        right. split; [lia|]. f_equal. lia.
    + rewrite Hocc by done. naive_solver.
Qed.

(** Finishing a task: the counters become the open dependencies again, and the
    report names each dependent whose dependencies are now all finished. *)
Lemma mark_completed_finish ts counts fwd id task s l tw wt :
  deps_wf ts counts fwd → ts !! id = Some task → task_done (task_status task) = false →
  task_done s = true →
  let ts' := <[id := task_with_status s task]> ts in
  TaskGraph.mark_completed (TaskGraph.Mk ts' counts fwd tw wt) id = l →
  ∃ counts' ready, l = (TaskGraph.Mk ts' counts' fwd tw wt, ready) ∧
    deps_wf ts' counts' fwd ∧ NoDup ready ∧
    ∀ k, k ∈ ready ↔ ∃ t, ts' !! k = Some t ∧ id ∈ task_depends_on t ∧
      ∀ d, d ∈ task_depends_on t → finished ts' d = true.
Proof.
  intros Hwf Htask Hopen Hdone ts' <-. destruct Hwf as [Hk Hd Hc Hf [rank Hr]].
  assert (∀ k, option_Forall2 (λ t t', task_id t' = task_id t ∧ task_depends_on t' = task_depends_on t)
    (ts !! k) (ts' !! k)) as Hrel.
  { intros k. unfold ts'. rewrite lookup_insert. case_decide; [subst; rewrite Htask; by constructor|].
    destruct (ts !! k); by constructor. }
  assert (∀ t, open_deps ts t = open_deps ts' t + occ id (task_depends_on t))%nat as Hfin.
  { intros t. apply open_deps_finish; unfold finished, ts'.
    - by rewrite Htask.
    - by rewrite lookup_insert_eq.
    - intros d Hd'. by rewrite lookup_insert_ne. }
  assert (∀ k, occ k (idx fwd id) = default 0%nat ((λ t, occ id (task_depends_on t)) <$> ts' !! k)) as Hf'.
  { intros k. rewrite Hf. destruct (Hrel k) as [t t' [_ Heq]|]; cbn; congruence. }
  assert (∀ k t', ts' !! k = Some t' →
    counts !! k = Some (Z.of_nat (open_deps ts' t' + occ k (idx fwd id)))) as Hcnt.
  { intros k t' Hk'. rewrite Hc, Hf', Hk'. pose proof (Hrel k) as Hx. rewrite Hk' in Hx.
    inversion Hx as [t ? [_ Heq] Ht|]; subst. cbn. rewrite Hfin, Heq.
    unfold open_deps. by rewrite Heq. }
  assert (∀ k, k ∈ idx fwd id → ∃ t', ts' !! k = Some t' ∧ id ∈ task_depends_on t') as Hex.
  { intros k Hin%occ_pos. rewrite Hf' in Hin. destruct (ts' !! k) as [t'|]; cbn in Hin; [|lia].
    apply occ_pos in Hin. eauto. }
  unfold TaskGraph.mark_completed. cbn [TaskGraph.forward TaskGraph.remaining_deps TaskGraph.tasks].
  destruct (count_down_fold (idx fwd id) counts []) as (counts' & ready & -> & Hcounts' & Hnd & Hin).
  { intros k Hin. destruct (Hex k Hin) as (t' & Ht' & _). eexists. split; [by apply Hcnt|lia]. }
  exists counts', ready. split_and!; [done| |done|].
  - split; [| |intros k; rewrite Hcounts'| |].
    + intros k t' Ht'. pose proof (Hrel k) as Hx. rewrite Ht' in Hx.
      inversion Hx as [t ? [? _] Ht|]; subst. rewrite <- (Hk k t); done.
    + intros k t' d Ht' Hin'. pose proof (Hrel k) as Hx. rewrite Ht' in Hx.
      inversion Hx as [t ? [_ Heq] Ht|]; subst. rewrite Heq in Hin'.
      destruct (Hd k t d) as [td Htd]; [done..|]. pose proof (Hrel d) as Hy. rewrite Htd in Hy.
      by inversion Hy.
    + destruct (ts' !! k) as [t'|] eqn:Ht'; [rewrite (Hcnt k t' Ht'); cbn; f_equal; lia|].
      rewrite Hc. pose proof (Hrel k) as Hx. rewrite Ht' in Hx. by inversion Hx.
    + intros d k. rewrite Hf. pose proof (Hrel k) as Hx.
      destruct Hx as [t t' [_ Heq]|]; cbn; congruence.
    + exists rank. intros k t' d Ht'. pose proof (Hrel k) as Hx. rewrite Ht' in Hx.
      inversion Hx as [t ? [_ Heq] Ht|]; subst. rewrite Heq. by apply Hr.
  - intros k. rewrite Hin. split.
    + intros [Hkin Hck]. destruct (Hex k Hkin) as (t' & Ht' & Hdep). exists t'. split_and!; [done..|].
      apply open_deps_zero. rewrite (Hcnt k t' Ht') in Hck. injection Hck. lia.
    + intros (t' & Ht' & Hdep & Hall). apply open_deps_zero in Hall.
      rewrite (Hcnt k t' Ht'), Hall. split; [|done].
      apply occ_pos. rewrite Hf', Ht'. cbn. by apply occ_pos.
Qed.

(** ** Preservation *)

Lemma core_insert ts k t t' :
  ts !! k = Some t → core t = core t' → core <$> ts = core <$> <[k := t']> ts.
Proof.
  intros Hk Hc. rewrite fmap_insert, <- Hc. symmetry. apply insert_id. by rewrite lookup_fmap, Hk.
Qed.

Lemma bind_wf_status ts tw wt k t s :
  ts !! k = Some t → bind_wf ts tw wt → bind_wf (<[k := task_with_status s t]> ts) tw wt.
Proof.
  intros Hk [Href Hback]. split; [|done]. intros j. rewrite Href, lookup_insert.
  case_decide; [subst; by rewrite Hk|done].
Qed.

Lemma fsm_done_source s trigger s' :
  TaskFsm.transition s trigger = Ok s' → task_done s = false.
Proof. by destruct s, trigger. Qed.

Lemma graph_wf_add g task g' a :
  fresh_task task → graph_wf g → TaskGraph.add_task g task = (g', Ok a) → graph_wf g'.
Proof.
  intros [Href Hlen] [Hd [Hr Hb]]. unfold TaskGraph.add_task.
  destruct (TaskGraph.tasks g !! task_id task) eqn:Hfresh; [done|].
  destruct (TaskGraph.add_deps _ _ _ _ _) as [fwd [r|e]] eqn:Hadd; [|done]. intros [= <-].
  split; cbn; [by eapply deps_wf_add|]. split; [|done].
  intros k. rewrite Hr, lookup_insert. case_decide; [subst; rewrite Hfresh; cbn; by rewrite Href|done].
Qed.

(** One step of the notification protocol: statuses move by the FSM, and when the
    task becomes terminal the report is exact. *)
Lemma move_spec g id trigger : graph_wf g →
  graph_wf (move g id trigger).1 ∧
  match TaskGraph.tasks g !! id with
  | Some t => match TaskFsm.transition (task_status t) trigger with
    | Ok s => TaskGraph.tasks (move g id trigger).1 = <[id := task_with_status s t]> (TaskGraph.tasks g)
    | Err _ => move g id trigger = (g, [])
    end
  | None => move g id trigger = (g, [])
  end ∧
  NoDup (move g id trigger).2 ∧
  ∀ k, k ∈ (move g id trigger).2 ↔ finished (TaskGraph.tasks g) id = false ∧
    finished (TaskGraph.tasks (move g id trigger).1) id = true ∧
    ∃ t, TaskGraph.tasks (move g id trigger).1 !! k = Some t ∧ id ∈ task_depends_on t ∧
      ∀ d, d ∈ task_depends_on t → finished (TaskGraph.tasks (move g id trigger).1) d = true.
Proof.
  intros Hwf. pose proof Hwf as [Hd Hb]. unfold move, TaskGraph.transition.
  assert (∀ k, (k ∈ [] ↔ finished (TaskGraph.tasks g) id = false ∧ finished (TaskGraph.tasks g) id = true ∧
    ∃ t, TaskGraph.tasks g !! k = Some t ∧ id ∈ task_depends_on t ∧
      ∀ d, d ∈ task_depends_on t → finished (TaskGraph.tasks g) d = true)) as Hsame.
  { intros k. rewrite elem_of_nil. split; [done|]. intros (? & ? & _). congruence. }
  destruct (TaskGraph.tasks g !! id) as [t|] eqn:Ht; cbn; [|split_and!; eauto using NoDup_nil_2].
  destruct (TaskFsm.transition (task_status t) trigger) as [s|e] eqn:Hs;
    [|cbn; split_and!; eauto using NoDup_nil_2].
  apply fsm_done_source in Hs as Hopen.
  assert (finished (TaskGraph.tasks g) id = false) as Hfin by (unfold finished; by rewrite Ht).
  assert (finished (<[id := task_with_status s t]> (TaskGraph.tasks g)) id = task_done s) as Hfin'
    by (unfold finished; by rewrite lookup_insert_eq).
  destruct (task_done s) eqn:Hdone.
  - unfold TaskGraph.with_tasks.
    destruct (mark_completed_finish _ _ _ id t s _ (TaskGraph.task_workspace g) (TaskGraph.workspace_task g)
      Hd Ht Hopen Hdone eq_refl) as (counts' & ready & -> & Hd' & Hnd & Hin).
    cbn. split_and!; [split; [done|by apply bind_wf_status]|done|done|].
    intros k. rewrite Hin. naive_solver.
  - cbn. split_and!; [|done|constructor|].
    + split; [|by apply bind_wf_status]. eapply deps_wf_core; [|done]. eapply core_insert; [done|].
      unfold core. cbn. congruence.
    + intros k. rewrite elem_of_nil. split; [done|]. intros (_ & ? & _). congruence.
Qed.

Lemma graph_wf_bind g id w : graph_wf g → graph_wf (TaskGraph.bind g id w).1.
Proof.
  intros [Hd [Hr Hb]]. unfold TaskGraph.bind.
  destruct (TaskGraph.tasks g !! id) as [t|] eqn:Ht; [|done].
  destruct (task_workspace_ref t) eqn:Href; [done|].
  destruct (TaskGraph.workspace_task g !! w) eqn:Hw; [done|]. split; cbn.
  - eapply deps_wf_core; [|done]. by eapply core_insert.
  - split.
    + intros k. rewrite !lookup_insert. by case_decide.
    + intros k w'. rewrite !lookup_insert. pose proof (Hr id) as Hid. rewrite Ht in Hid. cbn in Hid.
      case_decide; case_decide; subst.
      * split; intros; congruence.
      * rewrite <- Hb. split; intros; congruence.
      * rewrite Hb. split; intros; congruence.
      * apply Hb.
Qed.

Lemma graph_wf_unbind g id : graph_wf g → graph_wf (TaskGraph.unbind g id).
Proof.
  intros [Hd [Hr Hb]]. unfold TaskGraph.unbind.
  destruct (TaskGraph.tasks g !! id) as [t|] eqn:Ht; [|done]. split; cbn.
  - eapply deps_wf_core; [|done]. by eapply core_insert.
  - pose proof (Hr id) as Hid. rewrite Ht in Hid. cbn in Hid. split.
    + intros k. rewrite lookup_insert, lookup_delete. by case_decide.
    + intros k w. rewrite lookup_delete. destruct (task_workspace_ref t) as [ws|] eqn:Href.
      * rewrite lookup_delete. case_decide; case_decide; subst; [done|..].
        -- rewrite <- Hb. apply Hb in Hid. split; intros; congruence.
        -- rewrite Hb. split; intros; congruence.
        -- apply Hb.
      * case_decide; subst; rewrite Hb; [split; intros; congruence|done].
Qed.

Lemma graph_step_wf g op g' : op_ok op → graph_wf g → graph_step g op = Some g' → graph_wf g'.
Proof.
  intros Hok Hwf. destruct op as [task|id trigger|id w|id]; cbn.
  - destruct (TaskGraph.add_task g task) as [g1 [a|e]] eqn:Hadd; [|done]. intros [= <-].
    by eapply graph_wf_add.
  - intros [= <-]. by apply move_spec.
  - intros [= <-]. by apply graph_wf_bind.
  - intros [= <-]. by apply graph_wf_unbind.
Qed.

Lemma graph_run_wf ops g g' :
  Forall op_ok ops → graph_wf g → graph_run g ops = Some g' → graph_wf g'.
Proof.
  intros Hok. revert g. induction Hok as [|op ops Hop _ IH]; intros g Hwf; cbn; [by intros [= <-]|].
  destruct (graph_step g op) as [g1|] eqn:Hs; [|done]. cbn. intros Hrun.
  eapply IH; [|done]. by eapply graph_step_wf.
Qed.

Lemma is_dispatchable_iff g k t :
  graph_wf g → TaskGraph.get g k = Some t →
  TaskGraph.is_dispatchable g t = true ↔
  task_status t = TaskStatus.Pending ∧
    ∀ d, d ∈ task_depends_on t → finished (TaskGraph.tasks g) d = true.
Proof.
  intros [[Hk _ Hc _ _] _] Ht. unfold TaskGraph.get in Ht. unfold TaskGraph.is_dispatchable.
  rewrite andb_true_iff, bool_decide_eq_true, (Hk _ _ Ht), Hc, Ht, Z.eqb_eq, <- open_deps_zero.
  cbn. split; intros [? ?]; (split; [done|lia]).
Qed.

(** ** Properties *)

(** C10. In every graph built by additions that succeed, transitions reported when
    they finish a task, bindings and unbindings: the counter of a task is the
    number of its unfinished dependencies; the dispatchable tasks are exactly the
    pending ones whose dependencies are all integrated or cancelled; the graph is
    complete exactly when every task is; no task depends on itself through others;
    and tasks and workspaces are bound one-to-one. *)
Theorem readiness_exact `{HashOrder} ops g :
  Forall op_ok ops → graph_run TaskGraph.new ops = Some g →
  (∀ k, TaskGraph.remaining g k = (λ t, Z.of_nat (open_deps (TaskGraph.tasks g) t)) <$> TaskGraph.get g k) ∧
  (∀ k, k ∈ TaskGraph.dispatchable g ↔ ∃ t, TaskGraph.get g k = Some t ∧
     task_status t = TaskStatus.Pending ∧
     ∀ d, d ∈ task_depends_on t → ∃ dt, TaskGraph.get g d = Some dt ∧ task_done (task_status dt) = true) ∧
  (TaskGraph.is_complete g = true ↔ ∀ k t, TaskGraph.get g k = Some t → task_done (task_status t) = true) ∧
  (∀ k, ¬ tc (λ d k, ∃ t, TaskGraph.get g k = Some t ∧ d ∈ task_depends_on t) k k) ∧
  (∀ k w, TaskGraph.task_for_workspace g w = Some k ↔
     ∃ t, TaskGraph.get g k = Some t ∧ task_workspace_ref t = Some w).
Proof.
  intros Hok Hrun. assert (graph_wf g) as Hwf by eauto using graph_run_wf, graph_wf_new.
  pose proof Hwf as [[Hk Hd Hc Hf [rank Hr]] [Href Hback]]. split_and!.
  - apply Hc.
  - intros k. unfold TaskGraph.dispatchable. rewrite list_elem_of_fmap. split.
    + intros (t & -> & [Hdisp Hin]%list_elem_of_filter). apply elem_of_values in Hin as [k' Hk'].
      rewrite (Hk _ _ Hk'). exists t. apply (is_dispatchable_iff g k') in Hdisp as [Hp Hall]; [|done..].
      split_and!; [done..|]. intros d Hin. specialize (Hall d Hin). unfold finished, TaskGraph.get in *.
      destruct (TaskGraph.tasks g !! d); [eauto|done].
    + intros (t & Ht & Hp & Hall). exists t. split; [by rewrite (Hk _ _ Ht)|].
      apply list_elem_of_filter. split; [|apply elem_of_values; eauto].
      apply (is_dispatchable_iff g k); [done..|]. split; [done|]. intros d Hin.
      destruct (Hall d Hin) as (dt & Hdt & ?). unfold finished, TaskGraph.get in *. by rewrite Hdt.
  - unfold TaskGraph.is_complete. rewrite forallb_forall. setoid_rewrite <- list_elem_of_In.
    setoid_rewrite elem_of_values. unfold TaskGraph.get. naive_solver.
  - intros k Hk'. assert (∀ a b, tc (λ d k, ∃ t, TaskGraph.get g k = Some t ∧ d ∈ task_depends_on t) a b →
      (rank a < rank b)%nat) as Hrank; [|apply Hrank in Hk'; lia].
    induction 1 as [a b (t & Ht & Hin)|a b c (t & Ht & Hin) _ IH]; [by eapply Hr|].
    specialize (Hr _ _ _ Ht Hin). lia.
  - intros k w. unfold TaskGraph.task_for_workspace. rewrite Hback, Href, bind_Some. done.
Qed.

Definition sample_task (id : TaskId) (deps : list TaskId) (s : TaskStatus.t) : Task := {|
  task_id := id; task_name := id; task_description := ""; task_depends_on := deps;
  task_parent_task := None; task_status := s; task_workspace_ref := None;
  task_workspace_history := []; task_checkpoint_ref := None |}.

Definition sample_graph_ops : list graph_op :=
  [GAdd (sample_task "a" [] TaskStatus.Pending); GAdd (sample_task "b" [] TaskStatus.Pending);
   GAdd (sample_task "c" ["a"; "b"; "a"] TaskStatus.Pending); GMove "a" TaskTrigger.Cancel;
   GBind "b" "ws-1"; GMove "b" TaskTrigger.Cancel].

Lemma readiness_exact_witness :
  ∃ g, graph_run TaskGraph.new sample_graph_ops = Some g ∧
    ∀ k, TaskGraph.remaining g k
         = (λ t, Z.of_nat (open_deps (TaskGraph.tasks g) t)) <$> TaskGraph.get g k.
Proof.
  destruct (graph_run TaskGraph.new sample_graph_ops) as [g|] eqn:Hg; [|by vm_compute in Hg].
  exists g. split; [done|]. apply (@readiness_exact canonical_order sample_graph_ops g); [|done].
  repeat constructor; vm_compute; done.
Defined.

(** Reporting is exact: a transition followed by its report changes only the
    status the FSM allows, and names each task that thereby has all dependencies
    finished, once, and no other. *)
Theorem completion_report_exact g id trigger :
  graph_wf g →
  let '(g', ready) := move g id trigger in
  NoDup ready ∧
  (∀ k, k ∈ ready ↔ finished (TaskGraph.tasks g) id = false ∧ finished (TaskGraph.tasks g') id = true ∧
     ∃ t, TaskGraph.get g' k = Some t ∧ id ∈ task_depends_on t ∧
       ∀ d, d ∈ task_depends_on t → finished (TaskGraph.tasks g') d = true) ∧
  (∀ k, k ≠ id → TaskGraph.get g' k = TaskGraph.get g k) ∧
  task_status <$> TaskGraph.get g' id =
    (λ t, match TaskFsm.transition (task_status t) trigger with Ok s => s | Err _ => task_status t end)
    <$> TaskGraph.get g id.
Proof.
  intros Hwf. destruct (move_spec g id trigger Hwf) as (_ & Htasks & Hnd & Hin).
  destruct (move g id trigger) as [g' ready] eqn:Hm. cbn [fst snd] in *. unfold TaskGraph.get.
  split_and!; [done..| |].
  - intros k Hk. repeat case_match; simplify_eq; rewrite ?Htasks, ?lookup_insert_ne; done.
  - destruct (TaskGraph.tasks g !! id) as [t|] eqn:Ht; [|by injection Htasks as -> ->; rewrite Ht].
    cbn. destruct (TaskFsm.transition (task_status t) trigger);
      [by rewrite Htasks, lookup_insert_eq|by injection Htasks as -> ->; rewrite Ht].
Qed.

Lemma completion_report_exact_witness :
  let g := default TaskGraph.new (graph_run TaskGraph.new (take 5 sample_graph_ops)) in
  (move g "b" TaskTrigger.Cancel).2 = ["c"] ∧ NoDup (move g "b" TaskTrigger.Cancel).2.
Proof.
  intros g. split; [by vm_compute|].
  assert (graph_wf g) as Hwf.
  { apply (graph_run_wf (take 5 sample_graph_ops) TaskGraph.new); [|apply graph_wf_new|by vm_compute].
    repeat constructor; vm_compute; done. }
  pose proof (completion_report_exact g "b" TaskTrigger.Cancel Hwf) as H.
  destruct (move g "b" TaskTrigger.Cancel) as [g' ready]. apply H.
Defined.

(** Add a task whose second dependency is missing (refused), add the missing task,
    add the first again, then finish only the first dependency. *)
Definition refused_then_retried : TaskGraph.t * list TaskId :=
  let g := (TaskGraph.add_task TaskGraph.new (sample_task "a" [] TaskStatus.Pending)).1 in
  let job := sample_task "job" ["a"; "b"] TaskStatus.Pending in
  let g := (TaskGraph.add_task g job).1 in
  let g := (TaskGraph.add_task g (sample_task "b" [] TaskStatus.Pending)).1 in
  let g := (TaskGraph.add_task g job).1 in
  move g "a" TaskTrigger.Cancel.

(** A refused addition is not undone: the forward edges pushed before the
    missing dependency was noticed stay.  When the addition is retried after the
    dependency exists, one finished dependency counts twice, and the task is
    reported ready and dispatchable while its other dependency is still pending. *)
Theorem refused_addition_leaks_edges :
  let '(g, ready) := refused_then_retried in
  idx (TaskGraph.forward g) "a" = ["job"; "job"] ∧ ready = ["job"] ∧
  @TaskGraph.dispatchable canonical_order g = ["job"; "b"] ∧
  task_status <$> TaskGraph.get g "b" = Some TaskStatus.Pending.
Proof. vm_compute. done. Qed.
