(* ===== verification/Scheduling.v ===== *)
(** * Scheduling operations (wacp-coordinator: scheduling.rs)

    Context assembly, retry policy, cancellation cascades and subtask insertion.
    The cancellation recursion takes fuel; one more than the number of tasks is
    enough because every level cancels a task that no later level can cancel
    again.  The main theorem characterises the cancelled set as reachability. *)

From S2P Require Import Prelude Types Fsm TaskGraph.

Record DependencyOutput := {
  do_task_id : TaskId;
  do_task_name : string;
  do_checkpoint_ref : CheckpointId;
}.

Record RetryPolicy := {
  rp_max_attempts : Z;
  rp_retry_on_timeout : bool;
  rp_retry_on_budget : bool;
  rp_retry_on_agent_failure : bool;
}.

Definition RetryPolicy_default : RetryPolicy := {|
  rp_max_attempts := 1; rp_retry_on_timeout := false; rp_retry_on_budget := false;
  rp_retry_on_agent_failure := true |}.

Module SchedulingOps.
Definition dependency_output (graph : TaskGraph.t) (dep_id : TaskId) : option DependencyOutput :=
  dep ← TaskGraph.get graph dep_id;
  match task_status dep with
  | TaskStatus.Completed | TaskStatus.Integrated =>
      cp ← task_checkpoint_ref dep;
      Some {| do_task_id := dep_id; do_task_name := task_name dep; do_checkpoint_ref := cp |}
  | _ => None
  end.

Definition assemble_context (graph : TaskGraph.t) (task_id : TaskId) : list DependencyOutput :=
  match TaskGraph.get graph task_id with
  | None => []
  | Some task => omap (dependency_output graph) (task_depends_on task)
  end.

Definition should_retry (policy : RetryPolicy) (task : Task) (reason : string) : bool :=
  if rp_max_attempts policy =? 0 then false else
  let attempts := wrap32 (Z.of_nat (length (task_workspace_history task))) in
  if rp_max_attempts policy <=? attempts then false else
  if decide (reason = "timeout") then rp_retry_on_timeout policy
  else if decide (reason = "budget_exceeded") then rp_retry_on_budget policy
  else rp_retry_on_agent_failure policy.

Definition prepare_retry (graph : TaskGraph.t) (task_id : TaskId) : TaskGraph.t :=
  TaskGraph.unbind graph task_id.

(** [matches!(dep.status, Draft | Pending)] *)
Definition open_status (s : TaskStatus.t) : bool :=
  match s with TaskStatus.Draft | TaskStatus.Pending => true | _ => false end.

(** One iteration of the loop over the dependents. *)
Definition cancel_dependent (rec : TaskGraph.t → TaskId → option (TaskGraph.t * list TaskId))
    (acc : option (TaskGraph.t * list TaskId)) (dep_id : TaskId)
    : option (TaskGraph.t * list TaskId) :=
  '(graph, cancelled) ← acc;
  match TaskGraph.get graph dep_id with
  | Some dep =>
      if open_status (task_status dep)
      then '(graph, sub) ← rec graph dep_id; Some (graph, cancelled ++ sub)
      else Some (graph, cancelled)
  | None => Some (graph, cancelled)
  end.

Fixpoint cancel (fuel : nat) (graph : TaskGraph.t) (task_id : TaskId)
    : option (TaskGraph.t * list TaskId) :=
  match fuel with
  | O => None
  | S fuel =>
      match TaskGraph.transition graph task_id TaskTrigger.Cancel with
      | (graph, Err _) => Some (graph, [])
      | (graph, Ok _) =>
          fold_left (cancel_dependent (cancel fuel)) (TaskGraph.mark_failed graph task_id)
            (Some (graph, [task_id]))
      end
  end.

Definition cancel_task (graph : TaskGraph.t) (task_id : TaskId)
    : option (TaskGraph.t * list TaskId) :=
  cancel (S (size (TaskGraph.tasks graph))) graph task_id.

Fixpoint add_all (graph : TaskGraph.t) (parent : TaskId) (subtasks : list Task) (ids : list TaskId)
    : TaskGraph.t * result (list TaskId) GraphError :=
  match subtasks with
  | [] => (graph, Ok ids)
  | task :: rest =>
      let task := task_with_parent (Some parent) task in
      match TaskGraph.add_task graph task with
      | (graph, Err e) => (graph, Err e)
      | (graph, Ok _) => add_all graph parent rest (ids ++ [task_id task])
      end
  end.

Definition add_subtasks (graph : TaskGraph.t) (parent_task_id : TaskId) (subtasks : list Task)
    : TaskGraph.t * result (list TaskId) GraphError :=
  match TaskGraph.get graph parent_task_id with
  | None => (graph, Err (TaskNotFound parent_task_id))
  | Some _ => add_all graph parent_task_id subtasks []
  end.
End SchedulingOps.

(** ** Cancellation *)

Section cancellation.
Import TaskGraph SchedulingOps.
Implicit Types g : TaskGraph.t.

(** Status [s] accepts the [Cancel] trigger. *)
Definition can_cancel (s : TaskStatus.t) : bool := is_ok (TaskFsm.transition s TaskTrigger.Cancel).

(** [g'] is [g] with exactly the tasks [cs] cancelled; each could be. *)
Record cancels g (cs : list TaskId) g' : Prop := {
  cn_tasks : ∀ k, tasks g' !! k =
    if decide (k ∈ cs) then task_with_status TaskStatus.Cancelled <$> tasks g !! k else tasks g !! k;
  cn_rest : remaining_deps g' = remaining_deps g ∧ forward g' = forward g ∧
    task_workspace g' = task_workspace g ∧ workspace_task g' = workspace_task g;
  cn_nodup : NoDup cs;
  cn_legal : ∀ k, k ∈ cs → ∃ t, tasks g !! k = Some t ∧ can_cancel (task_status t) = true;
}.

Lemma cancels_nil g : cancels g [] g.
Proof.
  split; [|done|constructor|set_solver]. intros k. by rewrite decide_False by set_solver.
Qed.

Lemma cancels_one g id t :
  tasks g !! id = Some t → can_cancel (task_status t) = true →
  cancels g [id] (with_tasks (<[id := task_with_status TaskStatus.Cancelled t]> (tasks g)) g).
Proof.
  intros Ht Hc. split; cbn; [|done|apply NoDup_singleton|].
  - intros k. rewrite lookup_insert. destruct (decide (k = id)) as [->|Hk].
    + rewrite !decide_True by set_solver. by rewrite Ht.
    + rewrite !decide_False by set_solver. done.
  - intros k ->%list_elem_of_singleton. eauto.
Qed.

Lemma cancels_trans g cs g1 cs' g2 :
  cancels g cs g1 → cancels g1 cs' g2 → cancels g (cs ++ cs') g2.
Proof.
  intros [Ht1 Hr1 Hn1 Hl1] [Ht2 Hr2 Hn2 Hl2].
  assert (∀ k, k ∈ cs' → k ∉ cs) as Hdis.
  { intros k (t & Hk & Hc)%Hl2 Hcs. rewrite Ht1, decide_True in Hk by done.
    destruct (tasks g !! k); [|done]. by injection Hk as <-. }
  split.
  - intros k. rewrite Ht2, Ht1. repeat case_decide; set_solver.
  - destruct Hr1 as (? & ? & ? & ?), Hr2 as (? & ? & ? & ?). split_and!; congruence.
  - apply NoDup_app. split_and!; [done| |done]. set_solver.
  - intros k [Hk|Hk]%elem_of_app; [by apply Hl1|].
    destruct (Hl2 k Hk) as (t & Htk & Hc). rewrite Ht1, decide_False in Htk by auto. eauto.
Qed.

Definition is_open g (k : TaskId) : bool :=
  match tasks g !! k with
  | Some t => bool_decide (task_status t = TaskStatus.Draft ∨ task_status t = TaskStatus.Pending)
  | None => false
  end.

Lemma open_status_spec s : open_status s = bool_decide (s = TaskStatus.Draft ∨ s = TaskStatus.Pending).
Proof. by destruct s. Qed.

(** [b] depends on [a] and is still [Draft] or [Pending]. *)
Definition cascade_edge g (a b : TaskId) : Prop := b ∈ idx (forward g) a ∧ is_open g b = true.

Definition cancellable g : nat :=
  size (filter (λ kv, can_cancel (task_status kv.2) = true) (tasks g)).

Lemma cancels_open g cs g' k : cancels g cs g' → is_open g' k = true ↔ is_open g k = true ∧ k ∉ cs.
Proof.
  intros [Ht _ _ _]. unfold is_open. rewrite Ht. case_decide; destruct (tasks g !! k); cbn; naive_solver.
Qed.

Lemma cancels_edge g cs g' a b : cancels g cs g' → cascade_edge g' a b → cascade_edge g a b.
Proof.
  intros Hc [Hin Hop]. apply (cancels_open _ _ _ _ Hc) in Hop as [Hop _]. split; [|done].
  destruct Hc as [_ (_ & <- & _) _ _]. done.
Qed.

Lemma cancels_count g cs g' id :
  cancels g cs g' → id ∈ cs → (cancellable g' < cancellable g)%nat.
Proof.
  intros [Ht _ _ Hl] Hid. unfold cancellable. rewrite <- !(size_dom (D := gset string)).
  apply subset_size. destruct (Hl id Hid) as (t & Hidt & Hct). split.
  - intros k. rewrite !elem_of_dom. intros [t' [Hk Hc]%map_lookup_filter_Some].
    rewrite Ht in Hk. case_decide as Hin.
    + destruct (tasks g !! k); [|done]. injection Hk as <-. done.
    + exists t'. by apply map_lookup_filter_Some.
  - intros Hsub. assert (id ∈ dom (filter (λ kv, can_cancel (task_status kv.2) = true) (tasks g))) as Hin.
    { apply elem_of_dom. exists t. by apply map_lookup_filter_Some. }
    apply Hsub, elem_of_dom in Hin as [t' [Hk Hc]%map_lookup_filter_Some].
    rewrite Ht, decide_True, Hidt in Hk by done. by injection Hk as <-.
Qed.

(** What one call returns on [g]: the cancelled tasks are reached from [id] along
    open dependents, and none of their dependents stays open. *)
Record cancel_result g (id : TaskId) (cs : list TaskId) g' : Prop := {
  cr_cancels : cancels g cs g';
  cr_start : cs = [] ∧ can_cancel <$> (task_status <$> tasks g !! id) ≠ Some true ∨ head cs = Some id;
  cr_sound : ∀ k, k ∈ cs → rtc (cascade_edge g) id k;
  cr_closed : ∀ a b, a ∈ cs → b ∈ idx (forward g) a → is_open g' b = false;
}.

(** The same for a loop that has treated the dependents [done] of [id]. *)
Record cancel_loop g (id : TaskId) (dn cs : list TaskId) g' : Prop := {
  cl_cancels : cancels g cs g';
  cl_start : head cs = Some id;
  cl_sound : ∀ k, k ∈ cs → rtc (cascade_edge g) id k;
  cl_closed : ∀ a b, a ∈ cs → a ≠ id → b ∈ idx (forward g) a → is_open g' b = false;
  cl_done : ∀ b, b ∈ dn → is_open g' b = false;
}.

Lemma head_app_l (l k : list TaskId) x : head l = Some x → head (l ++ k) = Some x.
Proof. by destruct l. Qed.

Lemma not_open_mono g cs g' b : cancels g cs g' → is_open g b = false → is_open g' b = false.
Proof.
  intros Hc Hb. destruct (is_open g' b) eqn:Ho; [|done].
  apply (cancels_open _ _ _ _ Hc) in Ho as [Ho _]. congruence.
Qed.

Lemma cancel_loop_step g id dn cs g1 d sub g2 :
  cancel_loop g id dn cs g1 → d ∈ idx (forward g) id → is_open g1 d = true →
  cancel_result g1 d sub g2 → cancel_loop g id (dn ++ [d]) (cs ++ sub) g2.
Proof.
  intros [Hc Hs Hso Hcl Hdn] Hd Hop [Hc2 Hs2 Hso2 Hcl2].
  assert (is_open g2 d = false) as Hd2.
  { destruct (is_open g2 d) eqn:Ho; [|done]. apply (cancels_open _ _ _ _ Hc2) in Ho as [_ Hnin].
    destruct Hs2 as [[-> Hno]|Hhd].
    - destruct Hno. unfold is_open in Hop. destruct (tasks g1 !! d) as [t|]; [|done].
      cbn in *. unfold can_cancel. by destruct (task_status t).
    - destruct sub as [|? sub]; [done|]. injection Hhd as ->. set_solver. }
  pose proof (cn_rest _ _ _ Hc) as (_ & Hf & _).
  split.
  - by eapply cancels_trans.
  - by apply head_app_l.
  - intros k [Hk|Hk]%elem_of_app; [by apply Hso|].
    apply (cancels_open _ _ _ _ Hc) in Hop as [Hop _]. eapply rtc_l; [by split|].
    apply Hso2 in Hk. clear -Hk Hc. induction Hk as [|x y z Hxy _ IH]; [done|].
    eapply rtc_l; [by eapply cancels_edge|done].
  - intros a b [Ha|Ha]%elem_of_app Hne Hb.
    + eapply not_open_mono; [done|]. by eapply Hcl.
    + eapply Hcl2; [done|]. by rewrite Hf.
  - intros b [Hb | ->]%elem_of_snoc; [|done]. eapply not_open_mono; [done|]. by apply Hdn.
Qed.

Lemma cancel_loop_fold fuel g id L dn cs g1 :
  (∀ g d, (cancellable g < fuel)%nat → ∃ g' sub, cancel fuel g d = Some (g', sub) ∧ cancel_result g d sub g') →
  (cancellable g ≤ fuel)%nat → (∀ d, d ∈ L → d ∈ idx (forward g) id) →
  cancel_loop g id dn cs g1 →
  ∃ g' cs', fold_left (cancel_dependent (cancel fuel)) L (Some (g1, cs)) = Some (g', cs') ∧
    cancel_loop g id (dn ++ L) cs' g'.
Proof.
  intros IH Hfuel. revert dn cs g1. induction L as [|d L IHL]; intros dn cs g1 HL Hloop; cbn [fold_left].
  { rewrite app_nil_r. eauto. }
  assert (dn ++ d :: L = (dn ++ [d]) ++ L) as -> by (by rewrite <- app_assoc).
  assert (∃ g2 cs2, cancel_dependent (cancel fuel) (Some (g1, cs)) d = Some (g2, cs2) ∧
    cancel_loop g id (dn ++ [d]) cs2 g2) as (g2 & cs2 & -> & Hloop2).
  { unfold cancel_dependent, get. cbn [mbind option_bind].
    destruct (is_open g1 d) eqn:Hop.
    - unfold is_open in Hop. destruct (tasks g1 !! d) as [t|] eqn:Ht; [|done].
      rewrite open_status_spec, Hop.
      assert (cancellable g1 < cancellable g)%nat as Hlt.
      { eapply cancels_count; [apply Hloop|]. pose proof (cl_start _ _ _ _ _ Hloop) as Hhd.
        destruct cs; [done|]. injection Hhd as ->. left. }
      destruct (IH g1 d) as (g2 & sub & -> & Hres); [lia|]. cbn. do 2 eexists. split; [done|].
      eapply cancel_loop_step; [done| |by unfold is_open; rewrite Ht|done]. apply HL. set_solver.
    - exists g1, cs. split.
      + unfold is_open in Hop. destruct (tasks g1 !! d); [by rewrite open_status_spec, Hop|done].
      + destruct Hloop as [? ? ? ? Hdn]. split; try done. intros b [Hb| ->]%elem_of_snoc; auto. }
  apply IHL; [set_solver|done].
Qed.

Lemma cancel_spec fuel g id : (cancellable g < fuel)%nat →
  ∃ g' cs, cancel fuel g id = Some (g', cs) ∧ cancel_result g id cs g'.
Proof.
  revert g id. induction fuel as [|fuel IH]; intros g id Hfuel; [lia|]. cbn [cancel].
  assert (can_cancel <$> (task_status <$> tasks g !! id) ≠ Some true → cancel_result g id [] g) as Hstop.
  { intros Hno. split; [apply cancels_nil|by left|set_solver..]. }
  unfold transition. destruct (tasks g !! id) as [t|] eqn:Ht; [|by do 2 eexists; split; [|apply Hstop]].
  destruct (TaskFsm.transition (task_status t) TaskTrigger.Cancel) as [s|e] eqn:Hs.
  - assert (s = TaskStatus.Cancelled) as -> by (by destruct (task_status t); simplify_eq/=).
    set (g1 := with_tasks _ g). unfold mark_failed. change (forward g1) with (forward g).
    assert (can_cancel (task_status t) = true) as Hct by (unfold can_cancel; by rewrite Hs).
    destruct (cancel_loop_fold fuel g id (idx (forward g) id) [] [id] g1) as (g' & cs & Hfold & Hloop);
      [done|lia|done| |].
    { split; [by apply cancels_one|done| |set_solver|set_solver].
      intros k ->%list_elem_of_singleton. done. }
    exists g', cs. split; [done|]. destruct Hloop as [Hc Hst Hso Hcl Hdn].
    split; [done|by right|done|]. intros a b Ha Hb. destruct (decide (a = id)) as [->|]; [by apply Hdn|].
    by eapply Hcl.
  - exists g, []. split; [done|]. apply Hstop. cbn. unfold can_cancel. by rewrite Hs.
Qed.

Lemma cancellable_le g : (cancellable g ≤ size (tasks g))%nat.
Proof.
  unfold cancellable. rewrite <- !(size_dom (D := gset string)). apply subseteq_size, dom_filter_subseteq.
Qed.
End cancellation.

(** ** Properties *)

(** C9. [cancel_task] returns, and cancels exactly the tasks reachable from the
    given one through dependents that are still draft or pending, each once; all
    other tasks keep their state.  It does nothing when the task itself cannot be
    cancelled.  In a graph with exact edges, no task left draft or pending depends
    on a cancelled one, so the readiness counters of those tasks need no update. *)
Theorem cancel_task_exact g id :
  ∃ g' cs, SchedulingOps.cancel_task g id = Some (g', cs) ∧ NoDup cs ∧
    (∀ k, k ∈ cs ↔ can_cancel <$> (task_status <$> TaskGraph.get g id) = Some true ∧
       rtc (cascade_edge g) id k) ∧
    (∀ k, TaskGraph.get g' k =
       if decide (k ∈ cs) then task_with_status TaskStatus.Cancelled <$> TaskGraph.get g k
       else TaskGraph.get g k) ∧
    (graph_wf g → ∀ k t d, TaskGraph.get g' k = Some t → is_open g' k = true →
       d ∈ task_depends_on t → d ∉ cs).
Proof.
  unfold SchedulingOps.cancel_task. pose proof (cancellable_le g).
  destruct (cancel_spec (S (size (TaskGraph.tasks g))) g id) as (g' & cs & Hc & [Hcan Hst Hso Hcl]); [lia|].
  exists g', cs. split_and!; [done|apply Hcan| |apply Hcan|].
  - intros k. unfold TaskGraph.get. destruct Hst as [[-> Hno]|Hhd].
    + rewrite elem_of_nil. naive_solver.
    + assert (id ∈ cs) as Hid by (destruct cs; [done|]; injection Hhd as ->; left).
      destruct (cn_legal _ _ _ Hcan id Hid) as (t & Ht & Hct). rewrite Ht. cbn. rewrite Hct.
      split; [auto|]. intros [_ Hrtc]. clear Hso Hhd Ht Hct Hc. induction Hrtc as [|x y z [Hin Hop] _ IH]; [done|].
      apply IH. destruct (decide (y ∈ cs)) as [|Hy]; [done|].
      assert (is_open g' y = true) as Ho by (by apply (cancels_open _ _ _ _ Hcan)).
      rewrite (Hcl x y Hid Hin) in Ho. done.
  - intros [Hwf _] k t d Hk Hop Hd Hcs. unfold TaskGraph.get in Hk.
    rewrite (Hcl d k Hcs) in Hop; [done|]. apply occ_pos. rewrite (dw_forward _ _ _ Hwf).
    rewrite (cn_tasks _ _ _ Hcan) in Hk.
    case_decide; destruct (TaskGraph.tasks g !! k) as [t0|]; simplify_eq/=; by apply occ_pos.
Qed.
