(* ===== verification/Dispatch.v ===== *)
(** * Dispatcher (wacp-coordinator: dispatch.rs)

    Takes the dispatchable tasks, creates a workspace for each while capacity
    lasts, and binds the task to it.  The theorems show the capacity bound, that
    the topology and task graph invariants survive, and what every reported action
    guarantees; the last one shows what happens to a task that is already bound. *)

From S2P Require Import Prelude Types Float Fsm Visibility PortRights Tree Topology TaskGraph.

Record DispatchConfig := {
  dc_max_concurrent_workspaces : option Z;
  dc_default_budget : ResourceBudget;
  dc_budget_margin : spec_float;
}.

(** [0.2_f32] is 13421773 * 2^-26. *)
Definition DispatchConfig_default : DispatchConfig := {|
  dc_max_concurrent_workspaces := None; dc_default_budget := ResourceBudget_default;
  dc_budget_margin := S754_finite false 13421773 (-26) |}.

Record DispatchAction := {
  da_task_id : TaskId;
  da_workspace_id : WorkspaceId;
  da_parent : WorkspaceId;
  da_budget : ResourceBudget;
}.

Module Dispatcher.
Record t := Mk {
  config : DispatchConfig;
  next_ws_id : Z;
}.

Definition new (config : DispatchConfig) : t := Mk config 1.

Definition select_parent (graph : TaskGraph.t) (task : Task) (root : WorkspaceId) : WorkspaceId :=
  default root
    (parent_task_id ← task_parent_task task;
     parent_task ← TaskGraph.get graph parent_task_id;
     task_workspace_ref parent_task).

Definition allocate_budget (self : t) (base : ResourceBudget) : ResourceBudget :=
  let scale := f64_add (f64_of_Z 1) (f64_of_f32 (dc_budget_margin (config self))) in
  let scaled v := f64_to_u64 (f64_mul (f64_of_u64 v) scale) in
  {| budget_max_tokens := scaled <$> budget_max_tokens base;
     budget_max_wall_time_ms := scaled <$> budget_max_wall_time_ms base;
     budget_max_storage_bytes := scaled <$> budget_max_storage_bytes base;
     budget_max_network_bytes := scaled <$> budget_max_network_bytes base;
     budget_max_cost_micros := scaled <$> budget_max_cost_micros base;
     budget_warning_threshold := budget_warning_threshold base |}.

Definition has_capacity `{HashOrder} (topo : TopologySet.t) (max : option Z) : bool :=
  match max with
  | None => true
  | Some limit =>
      let active := Z.of_nat (length (WorkspaceTree.active_workspaces (TopologySet.tree topo))) in
      let worker_count := if 0 <? active then active - 1 else 0 in
      worker_count <? limit
  end.

Definition generate_workspace_id (self : t) : t * WorkspaceId :=
  (Mk (config self) (wrap64 (next_ws_id self + 1)), format_id "ws-" (next_ws_id self)).

(** The owner given to dispatched workspaces. *)
Definition root_owner (topo : TopologySet.t) : UserId :=
  match WorkspaceTree.get (TopologySet.tree topo) (WorkspaceTree.root (TopologySet.tree topo)) with
  | Some n => node_owner n
  | None => "system"
  end.

Fixpoint dispatch_loop `{HashOrder} (self : t) (graph : TaskGraph.t) (topo : TopologySet.t)
    (ids : list TaskId) (actions : list DispatchAction)
    : t * TaskGraph.t * TopologySet.t * list DispatchAction :=
  match ids with
  | [] => (self, graph, topo, actions)
  | task_id :: ids =>
      if negb (has_capacity topo (dc_max_concurrent_workspaces (config self)))
      then (self, graph, topo, actions) else
      match TaskGraph.get graph task_id with
      | None => dispatch_loop self graph topo ids actions
      | Some task =>
          let parent := select_parent graph task (WorkspaceTree.root (TopologySet.tree topo)) in
          let budget := allocate_budget self (dc_default_budget (config self)) in
          let '(self, workspace_id) := generate_workspace_id self in
          let params := {| cw_id := workspace_id; cw_parent := parent; cw_owner := root_owner topo;
                           cw_originator := Originator.System; cw_status := WorkspaceState.Idle;
                           cw_task_id := Some task_id |} in
          match TopologySet.create_workspace topo params with
          | (topo, Err _) => dispatch_loop self graph topo ids actions
          | (topo, Ok _) =>
              match TaskGraph.bind graph task_id workspace_id with
              | (graph, Err _) => dispatch_loop self graph topo ids actions
              | (graph, Ok _) =>
                  dispatch_loop self graph topo ids
                    (actions ++ [{| da_task_id := task_id; da_workspace_id := workspace_id;
                                    da_parent := parent; da_budget := budget |}])
              end
          end
      end
  end.

Definition try_dispatch `{HashOrder} (self : t) (graph : TaskGraph.t) (topo : TopologySet.t)
    : t * TaskGraph.t * TopologySet.t * list DispatchAction :=
  dispatch_loop self graph topo (TaskGraph.dispatchable graph) [].
End Dispatcher.

(** ** Capacity *)

Definition live_count (sm : gmap string WorkspaceState.t) : nat :=
  size (filter (λ kv, WorkspaceState.is_terminal kv.2 = false) sm).

Lemma length_filter_map_to_list {V} (P : V → Prop) `{∀ v, Decision (P v)} (m : gmap string V) :
  length (filter P (map_to_list m).*2) = size (filter (λ kv, P kv.2) m).
Proof.
  induction m as [|k v m Hk IH] using map_ind.
  { by rewrite map_to_list_empty, map_filter_empty, map_size_empty. }
  rewrite (map_to_list_insert m k v Hk), fmap_cons, filter_cons. cbn [snd]. case_decide as Hp.
  - rewrite map_filter_insert_True by done. rewrite map_size_insert_None; [cbn; by rewrite IH|].
    apply map_lookup_filter_None. by left.
  - rewrite map_filter_insert_False, delete_id by done. done.
Qed.

Lemma length_filter_values `{HashOrder} {V} (P : V → Prop) `{∀ v, Decision (P v)} (m : gmap string V) :
  length (filter P (values m)) = size (filter (λ kv, P kv.2) m).
Proof. unfold values. rewrite (hash_iter_perm m). apply length_filter_map_to_list. Qed.

Lemma live_count_insert sm k s :
  sm !! k = None → WorkspaceState.is_terminal s = false →
  live_count (<[k := s]> sm) = S (live_count sm).
Proof.
  intros Hk Hs. unfold live_count. rewrite map_filter_insert_True by done.
  apply map_size_insert_None, map_lookup_filter_None. by left.
Qed.

Lemma active_workspaces_length `{HashOrder} t :
  length (WorkspaceTree.active_workspaces t) = live_count (node_status <$> WorkspaceTree.nodes t).
Proof.
  unfold WorkspaceTree.active_workspaces, live_count. rewrite length_fmap, length_filter_values.
  rewrite map_filter_fmap, map_size_fmap. done.
Qed.

(** ** The loop *)

Lemma create_effect topo p topo' a :
  TopologySet.create_workspace topo p = (topo', Ok a) →
  WorkspaceTree.get (TopologySet.tree topo) (cw_id p) = None ∧
  WorkspaceTree.root (TopologySet.tree topo') = WorkspaceTree.root (TopologySet.tree topo) ∧
  node_status <$> WorkspaceTree.nodes (TopologySet.tree topo') =
    <[cw_id p := cw_status p]> (node_status <$> WorkspaceTree.nodes (TopologySet.tree topo)) ∧
  (∃ n, WorkspaceTree.get (TopologySet.tree topo') (cw_id p) = Some n ∧
     node_parent n = Some (cw_parent p) ∧ node_task_id n = cw_task_id p ∧ node_status n = cw_status p) ∧
  (∀ k n, WorkspaceTree.get (TopologySet.tree topo) k = Some n →
     ∃ n', WorkspaceTree.get (TopologySet.tree topo') k = Some n' ∧ node_parent n' = node_parent n ∧
       node_task_id n' = node_task_id n ∧ node_status n' = node_status n).
Proof.
  unfold TopologySet.create_workspace, WorkspaceTree.insert, WorkspaceTree.get. cbn.
  destruct (WorkspaceTree.nodes (TopologySet.tree topo) !! cw_id p) eqn:Hfresh; [done|].
  destruct (WorkspaceTree.nodes (TopologySet.tree topo) !! cw_parent p) as [np|] eqn:Hp; [|done].
  intros [= <- _]. cbn. assert (cw_parent p ≠ cw_id p) as Hne by congruence. split_and!; [done..| | |].
  - rewrite attr_alter by done. by rewrite fmap_insert.
  - rewrite lookup_alter_ne by done. rewrite lookup_insert_eq. by eexists.
  - intros k n Hk. rewrite lookup_alter, !lookup_insert.
    repeat case_decide; subst; simplify_eq; rewrite ?Hp; by eexists.
Qed.

(** What a reported action guarantees: the workspace exists, idle, under the chosen
    parent and for the task, and the task is bound to it. *)
Definition action_ok (graph : TaskGraph.t) (topo : TopologySet.t) (a : DispatchAction) : Prop :=
  (∃ n, WorkspaceTree.get (TopologySet.tree topo) (da_workspace_id a) = Some n ∧
     node_parent n = Some (da_parent a) ∧ node_task_id n = Some (da_task_id a) ∧
     node_status n = WorkspaceState.Idle) ∧
  TaskGraph.get graph (da_task_id a) ≫= task_workspace_ref = Some (da_workspace_id a).

Lemma action_ok_create graph topo p topo' r a :
  TopologySet.create_workspace topo p = (topo', Ok r) → action_ok graph topo a → action_ok graph topo' a.
Proof.
  intros Hc [(n & Hn & Hp & Ht & Hs) Hg]. split; [|done].
  destruct (create_effect _ _ _ _ Hc) as (_ & _ & _ & _ & Hold).
  destruct (Hold _ _ Hn) as (n' & ? & ? & ? & ?). exists n'. split_and!; congruence.
Qed.

Lemma action_ok_bind graph topo id w a :
  action_ok graph topo a → action_ok (TaskGraph.bind graph id w).1 topo a.
Proof.
  intros [Hn Hg]. split; [done|]. unfold TaskGraph.bind, TaskGraph.get in *.
  repeat case_match; cbn; try done. rewrite lookup_insert. case_decide as Heq; [|done].
  rewrite <- Heq in Hg. simplify_option_eq.
Qed.

Lemma create_err topo p topo' e :
  TopologySet.create_workspace topo p = (topo', Err e) → topo' = topo.
Proof.
  unfold TopologySet.create_workspace. destruct (WorkspaceTree.insert _ _) as [t' [a|e']] eqn:Hins; [done|].
  intros [= <- _]. assert (t' = TopologySet.tree topo) as ->; [|by destruct topo].
  unfold WorkspaceTree.insert in Hins. repeat case_match; by simplify_eq.
Qed.

Lemma bind_ok graph id w graph' r :
  TaskGraph.bind graph id w = (graph', Ok r) →
  TaskGraph.get graph' id ≫= task_workspace_ref = Some w.
Proof.
  unfold TaskGraph.bind, TaskGraph.get. repeat case_match; intros [= <- _]. cbn.
  by rewrite lookup_insert_eq.
Qed.

Definition live (topo : TopologySet.t) : Z :=
  Z.of_nat (live_count (node_status <$> WorkspaceTree.nodes (TopologySet.tree topo))).

Lemma live_create topo p topo' r :
  TopologySet.create_workspace topo p = (topo', Ok r) →
  WorkspaceState.is_terminal (cw_status p) = false → live topo' = live topo + 1.
Proof.
  intros Hc Hs. destruct (create_effect _ _ _ _ Hc) as (Hfresh & _ & Hst & _).
  unfold live. rewrite Hst, live_count_insert; [lia| |done].
  unfold WorkspaceTree.get in Hfresh. by rewrite lookup_fmap, Hfresh.
Qed.

Lemma has_capacity_live `{HashOrder} topo limit :
  Dispatcher.has_capacity topo (Some limit) = true → live topo ≤ Z.max 0 limit.
Proof.
  unfold Dispatcher.has_capacity. rewrite active_workspaces_length. fold (live topo).
  destruct (Z.ltb_spec 0 (live topo)); rewrite Z.ltb_lt; lia.
Qed.

(** The loop invariant, relative to the state [topo0] the dispatch started from. *)
Record dispatch_inv (topo0 : TopologySet.t) (max : option Z) (graph : TaskGraph.t)
    (topo : TopologySet.t) (actions : list DispatchAction) : Prop := {
  di_topo : topo_wf topo;
  di_graph : graph_wf graph;
  di_actions : Forall (action_ok graph topo) actions;
  di_distinct : NoDup (da_workspace_id <$> actions);
  di_capacity : ∀ limit, max = Some limit → live topo ≤ Z.max (live topo0) (Z.max 0 limit + 1);
}.

Lemma dispatch_inv_step `{HashOrder} topo0 max graph topo actions p topo' graph' r id b budget :
  dispatch_inv topo0 max graph topo actions →
  PortRightsGraph.next_id (TopologySet.port_rights topo) + 3 ≤ u64_max →
  Dispatcher.has_capacity topo max = true →
  cw_status p = WorkspaceState.Idle → cw_task_id p = Some id →
  TopologySet.create_workspace topo p = (topo', Ok r) →
  TaskGraph.bind graph id (cw_id p) = (graph', b) →
  dispatch_inv topo0 max graph' topo'
    (match b with
     | Ok _ => actions ++ [{| da_task_id := id; da_workspace_id := cw_id p;
                              da_parent := cw_parent p; da_budget := budget |}]
     | Err _ => actions
     end).
Proof.
  intros [Ht Hg Hact Hnd Hcap] Hb Hmax Hst Htask Hc Hbind.
  destruct (create_effect _ _ _ _ Hc) as (Hfresh & _ & _ & (n & Hn & Hnp & Hnt & Hns) & _).
  assert (graph' = (TaskGraph.bind graph id (cw_id p)).1) as Hg' by (by rewrite Hbind).
  assert (Forall (action_ok graph' topo') actions) as Hact'.
  { eapply Forall_impl; [exact Hact|]. intros a Ha. cbn. rewrite Hg'. apply action_ok_bind.
    by eapply action_ok_create. }
  split.
  - replace topo' with (TopologySet.create_workspace topo p).1 by (by rewrite Hc).
    by apply topo_wf_create.
  - rewrite Hg'. by apply graph_wf_bind.
  - destruct b as [u|e]; [|done]. apply Forall_app. split; [done|]. constructor; [|constructor].
    split; [exists n; split_and!; [exact Hn|exact Hnp|by rewrite Hnt|by rewrite Hns]|].
    by eapply bind_ok.
  - destruct b as [u|e]; [|done]. rewrite fmap_app. cbn. apply NoDup_snoc. split; [done|].
    intros (a & Heq & Ha)%list_elem_of_fmap. rewrite Forall_forall in Hact.
    destruct (Hact a Ha) as [(m & Hm & _) _]. congruence.
  - intros limit ->. rewrite (live_create _ _ _ _ Hc) by (by rewrite Hst).
    apply has_capacity_live in Hmax. lia.
Qed.

Lemma create_next_le topo p topo' r :
  topo_wf topo → PortRightsGraph.next_id (TopologySet.port_rights topo) + 3 ≤ u64_max →
  TopologySet.create_workspace topo p = (topo', r) →
  PortRightsGraph.next_id (TopologySet.port_rights topo')
    ≤ PortRightsGraph.next_id (TopologySet.port_rights topo) + 3.
Proof. intros Hwf Hb Hc. pose proof (create_next topo p Hb Hwf) as Hn. by rewrite Hc in Hn. Qed.

Lemma dispatch_loop_inv `{HashOrder} topo0 ids self graph topo actions :
  let max := dc_max_concurrent_workspaces (Dispatcher.config self) in
  dispatch_inv topo0 max graph topo actions →
  PortRightsGraph.next_id (TopologySet.port_rights topo) + 3 * Z.of_nat (length ids) ≤ u64_max →
  let '(_, graph', topo', actions') := Dispatcher.dispatch_loop self graph topo ids actions in
  dispatch_inv topo0 max graph' topo' actions' ∧
  ∀ a, a ∈ actions' → a ∈ actions ∨ da_task_id a ∈ ids.
Proof.
  revert self graph topo actions. induction ids as [|id ids IH]; intros self graph topo actions max Hinv Hb;
    cbn [Dispatcher.dispatch_loop]; [split; [done|]; by left|]. cbn [length] in Hb.
  fold max. destruct (Dispatcher.has_capacity topo max) eqn:Hcap; cbn [negb]; [|split; [done|]; by left].
  assert (∀ self' graph' topo' actions',
    dc_max_concurrent_workspaces (Dispatcher.config self') = max → dispatch_inv topo0 max graph' topo' actions' →
    PortRightsGraph.next_id (TopologySet.port_rights topo') + 3 * Z.of_nat (length ids) ≤ u64_max →
    (∀ a, a ∈ actions' → a ∈ actions ∨ da_task_id a ∈ id :: ids) →
    let '(_, graph'', topo'', actions'') := Dispatcher.dispatch_loop self' graph' topo' ids actions' in
    dispatch_inv topo0 max graph'' topo'' actions'' ∧
    ∀ a, a ∈ actions'' → a ∈ actions ∨ da_task_id a ∈ id :: ids) as Hnext.
  { intros self' graph' topo' actions' Hmax Hinv' Hb' Hmem. specialize (IH self' graph' topo' actions').
    rewrite Hmax in IH. specialize (IH Hinv' Hb').
    destruct (Dispatcher.dispatch_loop self' graph' topo' ids actions') as [[[? ?] ?] ?].
    split; [apply IH|]. intros a [Ha|Ha]%IH; [by apply Hmem|right; by right]. }
  destruct (TaskGraph.get graph id) as [task|]; [|apply Hnext; [done..|lia|by left]].
  unfold Dispatcher.generate_workspace_id. set (p := Build_CreateWorkspaceParams _ _ _ _ _ _).
  destruct (TopologySet.create_workspace topo p) as [topo' [r|e]] eqn:Hc.
  - pose proof (create_next_le _ _ _ _ (di_topo _ _ _ _ _ Hinv) ltac:(lia) Hc) as Hn.
    destruct (TaskGraph.bind graph id (format_id "ws-" (Dispatcher.next_ws_id self))) as [graph' b] eqn:Hbind.
    pose proof (dispatch_inv_step topo0 max graph topo actions p topo' graph' r id b
      (Dispatcher.allocate_budget self (dc_default_budget (Dispatcher.config self)))
      Hinv ltac:(lia) Hcap eq_refl eq_refl Hc Hbind) as Hinv'.
    destruct b as [u|e]; (apply Hnext; [done|done|lia|]); [|by left].
    intros a [Ha | ->]%elem_of_snoc; [by left|right; left].
  - apply create_err in Hc as ->. apply Hnext; [done..|lia|by left].
Qed.

Lemma dispatchable_length `{HashOrder} graph :
  (length (TaskGraph.dispatchable graph) ≤ size (TaskGraph.tasks graph))%nat.
Proof.
  unfold TaskGraph.dispatchable. rewrite length_fmap, length_filter_values.
  rewrite <- !(size_dom (D := gset string)). apply subseteq_size, dom_filter_subseteq.
Qed.

(** ** Properties *)

(** A dispatch round keeps the topology and task graph invariants; every
    action it reports is for a task that was dispatchable, whose new idle workspace
    sits under the chosen parent and is bound to the task; no workspace is reported
    twice; and the number of non-terminal workspaces never exceeds the configured
    limit of workers beside the root, unless it did before. *)
Theorem try_dispatch_effect `{HashOrder} self graph topo :
  topo_wf topo → graph_wf graph →
  PortRightsGraph.next_id (TopologySet.port_rights topo)
    + 3 * Z.of_nat (size (TaskGraph.tasks graph)) ≤ u64_max →
  let '(_, graph', topo', actions) := Dispatcher.try_dispatch self graph topo in
  topo_wf topo' ∧ graph_wf graph' ∧ NoDup (da_workspace_id <$> actions) ∧
  (∀ a, a ∈ actions → action_ok graph' topo' a ∧ da_task_id a ∈ TaskGraph.dispatchable graph) ∧
  (∀ limit, dc_max_concurrent_workspaces (Dispatcher.config self) = Some limit → 0 ≤ limit →
     live topo' ≤ Z.max (live topo) (limit + 1)).
Proof.
  intros Ht Hg Hb. unfold Dispatcher.try_dispatch.
  pose proof (dispatchable_length graph) as Hlen.
  pose proof (dispatch_loop_inv topo (TaskGraph.dispatchable graph) self graph topo []) as Hloop.
  cbn zeta in Hloop. destruct (Dispatcher.dispatch_loop _ _ _ _ _) as [[[self' graph'] topo'] actions].
  destruct Hloop as [[Ht' Hg' Hact Hnd Hcap] Hmem]; [|lia|].
  { split; [done|done|constructor|constructor|]. intros. lia. }
  rewrite Forall_forall in Hact. split_and!; [done..| |].
  - intros a Ha. split; [by apply Hact|]. destruct (Hmem a Ha) as [?|?]; [set_solver|done].
  - intros limit Hmax Hpos. specialize (Hcap limit Hmax). lia.
Qed.

Definition sample_dispatch_ops : list graph_op :=
  [GAdd (sample_task "t1" [] TaskStatus.Pending); GAdd (sample_task "t2" ["t1"] TaskStatus.Pending)].

Definition sample_dispatch_graph : TaskGraph.t :=
  default TaskGraph.new (graph_run TaskGraph.new sample_dispatch_ops).

Lemma try_dispatch_effect_witness :
  let self := Dispatcher.new {| dc_max_concurrent_workspaces := Some 1;
    dc_default_budget := ResourceBudget_default; dc_budget_margin := S754_finite false 13421773 (-26) |} in
  let topo := TopologySet.new "root" "op" in
  let '(_, graph', topo', actions) :=
    @Dispatcher.try_dispatch canonical_order self sample_dispatch_graph topo in
  da_task_id <$> actions = ["t1"] ∧ live topo' ≤ Z.max (live topo) 2.
Proof.
  intros self topo.
  assert (graph_wf sample_dispatch_graph) as Hg.
  { apply (graph_run_wf sample_dispatch_ops TaskGraph.new); [|apply graph_wf_new|vm_compute; reflexivity].
    repeat constructor; vm_compute; done. }
  pose proof (@try_dispatch_effect canonical_order self sample_dispatch_graph topo (topo_wf_new "root" "op") Hg
    ltac:(vm_compute; discriminate)) as H.
  assert ((da_task_id <$> (@Dispatcher.try_dispatch canonical_order self sample_dispatch_graph topo).2) = ["t1"]) as Hids
    by (vm_compute; reflexivity).
  destruct (Dispatcher.try_dispatch self sample_dispatch_graph topo) as [[[self' graph'] topo'] actions].
  split; [exact Hids|]. destruct H as (_ & _ & _ & _ & Hcap). apply (Hcap 1 eq_refl). lia.
Defined.

(** Two dispatch rounds in a row over one pending task: the tasks of the actions of
    each round, and the number of live workspaces after each. *)
Definition two_rounds : list TaskId * Z * list TaskId * Z :=
  let graph := default TaskGraph.new
    (graph_run TaskGraph.new [GAdd (sample_task "t1" [] TaskStatus.Pending)]) in
  let '(d1, g1, topo1, a1) := @Dispatcher.try_dispatch canonical_order
    (Dispatcher.new DispatchConfig_default) graph (TopologySet.new "root" "op") in
  let '(_, _, topo2, a2) := @Dispatcher.try_dispatch canonical_order d1 g1 topo1 in
  (da_task_id <$> a1, live topo1, da_task_id <$> a2, live topo2).

(** Dispatching binds a task but leaves it pending, so the next round takes it
    again: it creates a second workspace, finds the task already bound, reports no
    action, and leaves the workspace it created in the topology. *)
Theorem second_round_leaks_workspace : two_rounds = (["t1"], 2, [], 3).
Proof. vm_compute. reflexivity. Qed.
