(* ===== verification/Resource.v ===== *)
(** * Resource enforcement (wacp-coordinator: resource.rs)

    Per-workspace timers, budget checks and the liveness monitor.  The theorems
    show that a timer measures exactly the time spent in timer-active states and
    fires at its limit, which dimensions a budget check reports, and when a
    workspace counts as inactive. *)

From S2P Require Import Prelude Types Float.

(** ** Timeouts *)

Definition is_timer_active (state : WorkspaceState.t) : bool :=
  match state with
  | WorkspaceState.Active | WorkspaceState.Blocked | WorkspaceState.Conflicted => true
  | _ => false
  end.

Record TimeoutEntry := {
  te_elapsed_ms : Z;
  te_limit_ms : Z;
  te_running : bool;
  te_last_resume_ms : Z;
}.

Definition entry_elapsed (entry : TimeoutEntry) (now_ms : Z) : Z :=
  if te_running entry
  then wrap64 (te_elapsed_ms entry + saturating_sub now_ms (te_last_resume_ms entry))
  else te_elapsed_ms entry.

Module TimeoutTracker.
Record t := Mk { entries : gmap string TimeoutEntry }.

Definition new : t := Mk ∅.

Definition register (self : t) (id : WorkspaceId) (limit_ms : Z) : t :=
  Mk (<[id := {| te_elapsed_ms := 0; te_limit_ms := limit_ms; te_running := false;
                 te_last_resume_ms := 0 |}]> (entries self)).

(** The change made to the entry. *)
Definition change (entry : TimeoutEntry) (new_state : WorkspaceState.t) (now_ms : Z) : TimeoutEntry :=
  let should_run := is_timer_active new_state in
  if should_run && negb (te_running entry) then
    {| te_elapsed_ms := te_elapsed_ms entry; te_limit_ms := te_limit_ms entry;
       te_running := true; te_last_resume_ms := now_ms |}
  else if negb should_run && te_running entry then
    {| te_elapsed_ms := wrap64 (te_elapsed_ms entry + saturating_sub now_ms (te_last_resume_ms entry));
       te_limit_ms := te_limit_ms entry; te_running := false;
       te_last_resume_ms := te_last_resume_ms entry |}
  else entry.

Definition on_state_change (self : t) (id : WorkspaceId) (new_state : WorkspaceState.t) (now_ms : Z) : t :=
  match entries self !! id with
  | None => self
  | Some entry => Mk (<[id := change entry new_state now_ms]> (entries self))
  end.

Definition extend (self : t) (id : WorkspaceId) (additional_ms : Z) : t :=
  Mk (alter (λ entry, {| te_elapsed_ms := te_elapsed_ms entry;
                         te_limit_ms := wrap64 (te_limit_ms entry + additional_ms);
                         te_running := te_running entry;
                         te_last_resume_ms := te_last_resume_ms entry |}) id (entries self)).

Definition elapsed_ms (self : t) (id : WorkspaceId) (now_ms : Z) : Z :=
  match entries self !! id with
  | Some entry => entry_elapsed entry now_ms
  | None => 0
  end.

Definition check_expired `{HashOrder} (self : t) (now_ms : Z) : list WorkspaceId :=
  omap (λ '(id, entry),
    if te_limit_ms entry =? 0 then None
    else if te_limit_ms entry <=? entry_elapsed entry now_ms then Some id else None)
    (hash_iter (entries self)).

Definition remove (self : t) (id : WorkspaceId) : t := Mk (delete id (entries self)).
End TimeoutTracker.

(** ** Budgets *)

Inductive BudgetCheckResult : Set :=
| BudgetOk
| Warning (dims : list string)
| Exceeded (dims : list string).

Module BudgetEnforcer.
Definition check_dim (name : string) (used : Z) (limit : option Z) (threshold : spec_float)
    (acc : list string * list string) : list string * list string :=
  let '(warnings, exceeded) := acc in
  match limit with
  | Some limit =>
      if 0 <? limit then
        if limit <=? used then (warnings, exceeded ++ [name])
        else if f64_ge (f64_of_u64 used) (f64_mul (f64_of_u64 limit) (f64_of_f32 threshold))
        then (warnings ++ [name], exceeded)
        else acc
      else acc
  | None => acc
  end.

Definition check (usage : ResourceUsage) (budget : ResourceBudget) : BudgetCheckResult :=
  let threshold := budget_warning_threshold budget in
  let acc := check_dim "tokens" (usage_tokens usage) (budget_max_tokens budget) threshold ([], []) in
  let acc := check_dim "wall_time_ms" (usage_wall_time_ms usage) (budget_max_wall_time_ms budget) threshold acc in
  let acc := check_dim "storage_bytes" (usage_storage_bytes usage) (budget_max_storage_bytes budget) threshold acc in
  let acc := check_dim "network_bytes" (usage_network_bytes usage) (budget_max_network_bytes budget) threshold acc in
  let '(warnings, exceeded) :=
    check_dim "cost_micros" (usage_cost_micros usage) (budget_max_cost_micros budget) threshold acc in
  match exceeded with
  | _ :: _ => Exceeded exceeded
  | [] => match warnings with _ :: _ => Warning warnings | [] => BudgetOk end
  end.

Definition increase_dim (cur add : option Z) : option Z :=
  match cur, add with Some c, Some a => Some (wrap64 (c + a)) | _, _ => cur end.

Definition increase_budget (budget additional : ResourceBudget) : ResourceBudget := {|
  budget_max_tokens := increase_dim (budget_max_tokens budget) (budget_max_tokens additional);
  budget_max_wall_time_ms :=
    increase_dim (budget_max_wall_time_ms budget) (budget_max_wall_time_ms additional);
  budget_max_storage_bytes :=
    increase_dim (budget_max_storage_bytes budget) (budget_max_storage_bytes additional);
  budget_max_network_bytes :=
    increase_dim (budget_max_network_bytes budget) (budget_max_network_bytes additional);
  budget_max_cost_micros :=
    increase_dim (budget_max_cost_micros budget) (budget_max_cost_micros additional);
  budget_warning_threshold := budget_warning_threshold budget |}.
End BudgetEnforcer.

(** ** Liveness *)

Module LivenessMonitor.
Record t := Mk {
  last_activity : gmap string Z;
  interval_ms : Z;
}.

Definition new (interval_ms : Z) : t := Mk ∅ interval_ms.

Definition register (self : t) (id : WorkspaceId) (now_ms : Z) : t :=
  Mk (<[id := now_ms]> (last_activity self)) (interval_ms self).

Definition record_activity (self : t) (id : WorkspaceId) (now_ms : Z) : t :=
  Mk (<[id := now_ms]> (last_activity self)) (interval_ms self).

Definition check_inactive `{HashOrder} (self : t) (now_ms : Z) : list WorkspaceId :=
  if interval_ms self =? 0 then [] else
  omap (λ '(id, last),
    if interval_ms self <=? saturating_sub now_ms last then Some id else None)
    (hash_iter (last_activity self)).

Definition remove (self : t) (id : WorkspaceId) : t :=
  Mk (delete id (last_activity self)) (interval_ms self).

Definition reset_activity (self : t) (workspace_id : WorkspaceId) (now_ms : Z) : t :=
  Mk (alter (λ _, now_ms) workspace_id (last_activity self)) (interval_ms self).

Definition is_enabled (self : t) : bool := 0 <? interval_ms self.
End LivenessMonitor.

(** ** Timer semantics *)

(** A state change of a workspace at a time. *)
Definition change_event : Type := WorkspaceId * WorkspaceState.t * Z.

Definition run_changes (tracker : TimeoutTracker.t) (events : list change_event) : TimeoutTracker.t :=
  fold_left (λ tr '(id, s, now), TimeoutTracker.on_state_change tr id s now) events tracker.

Definition events_of (id : WorkspaceId) (events : list change_event) : list (WorkspaceState.t * Z) :=
  omap (λ '(i, s, now), if decide (i = id) then Some (s, now) else None) events.

Definition next_time (events : list (WorkspaceState.t * Z)) (now : Z) : Z :=
  match events with [] => now | (_, t) :: _ => t end.

(** The time spent in timer-active states: each event's state lasts until the next
    event, the last one until [now]. *)
Fixpoint active_time (events : list (WorkspaceState.t * Z)) (now : Z) : Z :=
  match events with
  | [] => 0
  | (s, t) :: rest => (if is_timer_active s then next_time rest now - t else 0) + active_time rest now
  end.

(** Event times do not decrease from [from] to [now]. *)
Fixpoint ordered (from : Z) (events : list (WorkspaceState.t * Z)) (now : Z) : bool :=
  match events with
  | [] => from <=? now
  | (_, t) :: rest => (from <=? t) && ordered t rest now
  end.

Lemma run_changes_lookup events tr id :
  TimeoutTracker.entries (run_changes tr events) !! id =
  (λ e, fold_left (λ e '(s, now), TimeoutTracker.change e s now) (events_of id events) e)
  <$> TimeoutTracker.entries tr !! id.
Proof.
  revert tr. induction events as [|[[i s] now] events IH]; intros tr.
  { cbn. by destruct (TimeoutTracker.entries tr !! id). }
  cbn [run_changes fold_left]. fold (run_changes (TimeoutTracker.on_state_change tr i s now) events).
  rewrite IH. cbn [events_of omap list_omap]. unfold TimeoutTracker.on_state_change.
  destruct (decide (i = id)) as [->|Hne].
  - destruct (TimeoutTracker.entries tr !! id) as [e|] eqn:He; [|by rewrite He].
    cbn [TimeoutTracker.entries]. rewrite lookup_insert_eq. done.
  - destruct (TimeoutTracker.entries tr !! i) as [e|] eqn:He; [|done].
    cbn [TimeoutTracker.entries]. by rewrite lookup_insert_ne.
Qed.

(** Elapsed time an entry will show after more events. *)
Definition expected (e : TimeoutEntry) (events : list (WorkspaceState.t * Z)) (now : Z) : Z :=
  te_elapsed_ms e + (if te_running e then next_time events now - te_last_resume_ms e else 0)
  + active_time events now.

(** An entry as of time [from]: nothing in it exceeds the time passed. *)
Definition entry_ok (e : TimeoutEntry) (from : Z) : Prop :=
  0 ≤ te_elapsed_ms e ∧
  if te_running e then te_last_resume_ms e ≤ from ∧ te_elapsed_ms e + (from - te_last_resume_ms e) ≤ from
  else te_elapsed_ms e ≤ from.

Lemma change_ok e s from t :
  entry_ok e from → from ≤ t ≤ u64_max → entry_ok (TimeoutTracker.change e s t) t.
Proof.
  unfold entry_ok, TimeoutTracker.change. intros [H0 H1] Ht.
  destruct (is_timer_active s), (te_running e) eqn:Hr; cbn; rewrite ?Hr; try lia.
  rewrite wrap64_small; solve_range.
Qed.

Lemma change_expected e s from t rest now :
  entry_ok e from → from ≤ t ≤ u64_max →
  expected (TimeoutTracker.change e s t) rest now = expected e ((s, t) :: rest) now.
Proof.
  unfold entry_ok, TimeoutTracker.change, expected. intros [H0 H1] Ht.
  destruct (is_timer_active s) eqn:Hs, (te_running e) eqn:Hr; cbn; rewrite ?Hr, ?Hs; try lia.
  rewrite wrap64_small; solve_range.
Qed.

Lemma ordered_le events from now : ordered from events now = true → from ≤ now.
Proof.
  revert from. induction events as [|[s t] events IH]; intros from; cbn; [lia|].
  rewrite andb_true_iff. intros [? ?%IH]. lia.
Qed.

Lemma fold_change_elapsed events e from now :
  entry_ok e from → ordered from events now = true → now ≤ u64_max →
  entry_elapsed (fold_left (λ e '(s, t), TimeoutTracker.change e s t) events e) now = expected e events now.
Proof.
  revert e from. induction events as [|[s t] events IH]; intros e from Hok Hord Hnow.
  - unfold expected, entry_elapsed. cbn in *. destruct Hok as [H0 H1].
    destruct (te_running e); [|lia]. rewrite wrap64_small; solve_range.
  - cbn in Hord. apply andb_true_iff in Hord as [Hle Hord].
    pose proof (ordered_le _ _ _ Hord). cbn [fold_left]. 
    rewrite (IH _ t); [|eapply change_ok; [done|lia]|done|done]. eapply change_expected; [done|lia].
Qed.

Lemma fold_change_limit events e :
  te_limit_ms (fold_left (λ e '(s, t), TimeoutTracker.change e s t) events e) = te_limit_ms e.
Proof.
  revert e. induction events as [|[s t] events IH]; intros e; [done|]. cbn [fold_left]. rewrite IH.
  unfold TimeoutTracker.change. by repeat case_match.
Qed.

(** Membership in a filtered iteration of a hash map. *)
Lemma elem_of_omap_iter `{HashOrder} {V} (f : string * V → option string) (m : gmap string V) k :
  (∀ k v k', f (k, v) = Some k' → k' = k) →
  k ∈ omap f (hash_iter m) ↔ ∃ v, m !! k = Some v ∧ f (k, v) = Some k.
Proof.
  intros Hf. rewrite list_elem_of_omap. split.
  - intros ([k' v] & Hin & Hfk). pose proof (Hf _ _ _ Hfk) as ->.
    apply elem_of_hash_iter in Hin. eauto.
  - intros (v & Hk & Hfk). exists (k, v). split; [by apply elem_of_hash_iter|done].
Qed.

(** ** Budget semantics *)

(** The five dimensions in the order they are checked. *)
Definition dimensions (usage : ResourceUsage) (budget : ResourceBudget) : list (string * Z * option Z) :=
  [("tokens", usage_tokens usage, budget_max_tokens budget);
   ("wall_time_ms", usage_wall_time_ms usage, budget_max_wall_time_ms budget);
   ("storage_bytes", usage_storage_bytes usage, budget_max_storage_bytes budget);
   ("network_bytes", usage_network_bytes usage, budget_max_network_bytes budget);
   ("cost_micros", usage_cost_micros usage, budget_max_cost_micros budget)].

Definition over_limit (d : string * Z * option Z) : bool :=
  match d with (_, used, Some limit) => (0 <? limit) && (limit <=? used) | _ => false end.

Definition near_limit (threshold : spec_float) (d : string * Z * option Z) : bool :=
  match d with
  | (_, used, Some limit) => (0 <? limit) && (used <? limit)
      && f64_ge (f64_of_u64 used) (f64_mul (f64_of_u64 limit) (f64_of_f32 threshold))
  | _ => false
  end.

Definition exceeded_dims (usage : ResourceUsage) (budget : ResourceBudget) : list string :=
  (filter (λ d, over_limit d = true) (dimensions usage budget)).*1.*1.

Definition warned_dims (usage : ResourceUsage) (budget : ResourceBudget) : list string :=
  (filter (λ d, near_limit (budget_warning_threshold budget) d = true) (dimensions usage budget)).*1.*1.

Lemma check_dim_spec name used limit threshold w e :
  BudgetEnforcer.check_dim name used limit threshold (w, e) =
  (w ++ (if near_limit threshold (name, used, limit) then [name] else []),
   e ++ (if over_limit (name, used, limit) then [name] else [])).
Proof.
  unfold BudgetEnforcer.check_dim, near_limit, over_limit.
  destruct limit as [l|]; [|by rewrite !app_nil_r].
  destruct (0 <? l); cbn; [|by rewrite !app_nil_r].
  destruct (Z.leb_spec l used), (Z.ltb_spec used l); try lia; cbn; [by rewrite app_nil_r|].
  destruct (f64_ge _ _); cbn; by rewrite ?app_nil_r.
Qed.

Lemma names_filter {A} (name : A → string) (p : A → bool) (d : A) (l : list A) :
  name <$> filter (λ d, p d = true) (d :: l) =
  (if p d then [name d] else []) ++ (name <$> filter (λ d, p d = true) l).
Proof.
  rewrite filter_cons. destruct (p d) eqn:Hp.
  - by rewrite decide_True.
  - by rewrite decide_False by congruence.
Qed.

Lemma check_spec usage budget :
  BudgetEnforcer.check usage budget =
  match exceeded_dims usage budget with
  | (_ :: _) as ds => Exceeded ds
  | [] => match warned_dims usage budget with (_ :: _) as ds => Warning ds | [] => BudgetOk end
  end.
Proof.
  unfold BudgetEnforcer.check. rewrite !check_dim_spec. cbn [app].
  assert (∀ (p : string * Z * option Z → bool) a b c d e,
    (filter (λ d, p d = true) [a; b; c; d; e]).*1.*1 =
    ((((if p a then [a.1.1] else []) ++ (if p b then [b.1.1] else [])) ++
       (if p c then [c.1.1] else [])) ++ (if p d then [d.1.1] else [])) ++ (if p e then [e.1.1] else []))
    as Hf.
  { intros p a b c d e. rewrite <- list_fmap_compose, !names_filter. cbn. by rewrite app_nil_r, !app_assoc. }
  unfold exceeded_dims, warned_dims, dimensions. rewrite !Hf. cbn [fst].
  match goal with |- match ?e with [] => match ?w with [] => _ | _ :: _ => _ end | _ :: _ => _ end = _ =>
    by destruct e, w end.
Qed.

(** The limit is a real one and the sum fits in 64 bits. *)
Definition dim_room (cur add : option Z) : Prop :=
  match cur, add with Some c, Some a => 0 < c ∧ 0 ≤ a ∧ c + a ≤ u64_max | _, _ => True end.

Definition room (budget additional : ResourceBudget) : Prop :=
  dim_room (budget_max_tokens budget) (budget_max_tokens additional) ∧
  dim_room (budget_max_wall_time_ms budget) (budget_max_wall_time_ms additional) ∧
  dim_room (budget_max_storage_bytes budget) (budget_max_storage_bytes additional) ∧
  dim_room (budget_max_network_bytes budget) (budget_max_network_bytes additional) ∧
  dim_room (budget_max_cost_micros budget) (budget_max_cost_micros additional).

Lemma increase_over_limit name used cur add :
  dim_room cur add →
  over_limit (name, used, BudgetEnforcer.increase_dim cur add) = true → over_limit (name, used, cur) = true.
Proof.
  unfold dim_room, BudgetEnforcer.increase_dim, over_limit. destruct cur as [c|], add as [a|]; cbn; try done.
  intros (H0 & Ha & Hs). rewrite wrap64_small by solve_range.
  rewrite !andb_true_iff, !Z.ltb_lt, !Z.leb_le. lia.
Qed.

(** ** Properties *)

(** A timer shows exactly the time its workspace spent in timer-active states
    since it was registered, whatever happens to other workspaces, and the
    workspace is reported as expired exactly when it has a limit and that time
    reached it. *)
Theorem timeout_exact `{HashOrder} tracker id limit events now :
  let tracker' := run_changes (TimeoutTracker.register tracker id limit) events in
  let spent := active_time (events_of id events) now in
  ordered 0 (events_of id events) now = true → now ≤ u64_max →
  TimeoutTracker.elapsed_ms tracker' id now = spent ∧
  (id ∈ TimeoutTracker.check_expired tracker' now ↔ limit ≠ 0 ∧ limit ≤ spent).
Proof.
  intros tr' spent Hord Hnow.
  set (e0 := {| te_elapsed_ms := 0; te_limit_ms := limit; te_running := false; te_last_resume_ms := 0 |}).
  set (e := fold_left (λ e '(s, t), TimeoutTracker.change e s t) (events_of id events) e0).
  assert (TimeoutTracker.entries tr' !! id = Some e) as He.
  { unfold tr'. rewrite run_changes_lookup. cbn. by rewrite lookup_insert_eq. }
  assert (entry_elapsed e now = spent) as Hel.
  { unfold e. rewrite (fold_change_elapsed _ _ 0); [|unfold entry_ok, e0; cbn; lia|exact Hord|done].
    unfold expected, spent. cbn. lia. }
  assert (te_limit_ms e = limit) as Hlim by apply fold_change_limit.
  unfold TimeoutTracker.elapsed_ms, TimeoutTracker.check_expired. rewrite He. split; [done|].
  rewrite elem_of_omap_iter by (intros *; repeat case_match; naive_solver).
  split.
  - intros (e' & He' & Hf). rewrite He in He'. injection He' as <-. rewrite Hlim, Hel in Hf.
    destruct (Z.eqb_spec limit 0); [done|]. destruct (Z.leb_spec limit spent); [done|done].
  - intros [Hne Hle]. exists e. split; [done|]. rewrite Hlim, Hel.
    destruct (Z.eqb_spec limit 0); [done|]. destruct (Z.leb_spec limit spent); [done|lia].
Qed.

Lemma timeout_exact_witness :
  let events := [("a", WorkspaceState.Active, 10); ("b", WorkspaceState.Active, 12);
                 ("a", WorkspaceState.Blocked, 15); ("a", WorkspaceState.Suspended, 20);
                 ("a", WorkspaceState.Active, 50)] in
  let tracker := run_changes (TimeoutTracker.register TimeoutTracker.new "a" 12) events in
  TimeoutTracker.elapsed_ms tracker "a" 52 = 12 ∧
  ("a" ∈ @TimeoutTracker.check_expired canonical_order tracker 52 ↔ 12 ≠ 0 ∧ 12 ≤ 12).
Proof.
  intros events tracker.
  destruct (@timeout_exact canonical_order TimeoutTracker.new "a" 12 events 52) as [H1 H2];
    [vm_compute; reflexivity|solve_range|].
  split; [exact H1|exact H2].
Defined.

(** A budget check reports every dimension at or over a non-zero limit as
    exceeded; only if there is none, every dimension below its limit but at or over
    the warning threshold in binary64 as a warning; and otherwise nothing.
    Increasing a budget whose limits are non-zero and have room exceeds no further
    dimension. *)
Theorem budget_check_exact usage budget :
  BudgetEnforcer.check usage budget =
    match exceeded_dims usage budget with
    | (_ :: _) as ds => Exceeded ds
    | [] => match warned_dims usage budget with (_ :: _) as ds => Warning ds | [] => BudgetOk end
    end ∧
  ∀ additional d, room budget additional →
    d ∈ exceeded_dims usage (BudgetEnforcer.increase_budget budget additional) →
    d ∈ exceeded_dims usage budget.
Proof.
  split; [apply check_spec|]. intros additional d (R1 & R2 & R3 & R4 & R5).
  unfold exceeded_dims. rewrite <- !list_fmap_compose. unfold dimensions.
  rewrite !names_filter. cbn [compose fst BudgetEnforcer.increase_budget budget_max_tokens
    budget_max_wall_time_ms budget_max_storage_bytes budget_max_network_bytes budget_max_cost_micros].
  assert (∀ name used cur add, dim_room cur add →
    d ∈ (if over_limit (name, used, BudgetEnforcer.increase_dim cur add) then [name] else []) →
    d ∈ (if over_limit (name, used, cur) then [name] else [])) as Hdim.
  { intros name used cur add Hr. destruct (over_limit (name, used, BudgetEnforcer.increase_dim cur add)) eqn:Ho;
      [|set_solver]. by rewrite (increase_over_limit name used cur add Hr Ho). }
  rewrite !elem_of_app. intuition eauto.
Qed.
