(* ===== verification/Gate.v ===== *)
(** * Approval gates (wacp-coordinator: gate.rs)

    Task and checkpoint gates with one id counter.  The theorems show that gate ids
    are never reused and that, over any interleaving of human responses and
    timeouts, each gate is answered at most once: the first response wins. *)

From S2P Require Import Prelude Types.

Module GateFallback.
Inductive t : Set := AutoApprove | Cancel.

(** The text put into the gate event. *)
Definition action (fb : t) : string :=
  match fb with AutoApprove => "auto_approve" | Cancel => "cancel" end.
End GateFallback.

Record PendingGate := {
  pg_gate_id : GateId;
  pg_task_id : TaskId;
  pg_task_name : string;
  pg_timeout_ms : Z;
  pg_fallback : GateFallback.t;
  pg_created_at : Z;
}.

Record PendingCheckpointGate := {
  pcg_gate_id : GateId;
  pcg_workspace_id : WorkspaceId;
  pcg_checkpoint_id : CheckpointId;
  pcg_checkpoint_type : string;
  pcg_timeout_ms : Z;
  pcg_fallback : GateFallback.t;
  pcg_created_at : Z;
}.

Inductive GateResolution : Set :=
| Approved (source : string)
| Rejected.

Module GateController.
Record t := Mk {
  pending : gmap string PendingGate;
  pending_checkpoints : gmap string PendingCheckpointGate;
  next_id : Z;
  default_timeout_ms : Z;
  default_fallback : GateFallback.t;
}.

Definition new (default_timeout_ms : Z) (default_fallback : GateFallback.t) : t :=
  Mk ∅ ∅ 1 default_timeout_ms default_fallback.

Definition open_gate (self : t) (task_id : TaskId) (task_name task_description : string)
    (timeout_ms : option Z) (fallback : option GateFallback.t) : t * GateEvent :=
  let gate_id := format_id "gate-" (next_id self) in
  let timeout := default (default_timeout_ms self) timeout_ms in
  let fb := default (default_fallback self) fallback in
  let gate := {| pg_gate_id := gate_id; pg_task_id := task_id; pg_task_name := task_name;
                 pg_timeout_ms := timeout; pg_fallback := fb; pg_created_at := 0 |} in
  (Mk (<[gate_id := gate]> (pending self)) (pending_checkpoints self) (wrap64 (next_id self + 1))
      (default_timeout_ms self) (default_fallback self),
   {| ge_gate_id := gate_id; ge_gate_type := GateType.TaskApproval;
      ge_subject := as_bytes task_description; ge_workspace_id := "";
      ge_task_id := Some task_id; ge_timeout_ms := timeout;
      ge_fallback_action := GateFallback.action fb; ge_created_at := 0 |}).

Definition resolve (self : t) (gate_id : GateId) (decision : GateDecision.t)
    : t * option GateResolution :=
  match pending self !! gate_id with
  | None => (self, None)
  | Some _ =>
      (Mk (delete gate_id (pending self)) (pending_checkpoints self) (next_id self)
          (default_timeout_ms self) (default_fallback self),
       Some (match decision with
             | GateDecision.Approve | GateDecision.Modify => Approved "human"
             | GateDecision.Reject => Rejected
             end))
  end.

Definition timeout (self : t) (gate_id : GateId) : t * option GateResolution :=
  match pending self !! gate_id with
  | None => (self, None)
  | Some gate =>
      (Mk (delete gate_id (pending self)) (pending_checkpoints self) (next_id self)
          (default_timeout_ms self) (default_fallback self),
       Some (match pg_fallback gate with
             | GateFallback.AutoApprove => Approved "timeout_auto_approve"
             | GateFallback.Cancel => Rejected
             end))
  end.

Definition open_checkpoint_gate (self : t) (workspace_id : WorkspaceId) (checkpoint_id : CheckpointId)
    (checkpoint_type : string) (timeout_ms : option Z) (fallback : option GateFallback.t)
    : t * GateEvent :=
  let gate_id := format_id "gate-" (next_id self) in
  let timeout := default (default_timeout_ms self) timeout_ms in
  let fb := default (default_fallback self) fallback in
  let gate := {| pcg_gate_id := gate_id; pcg_workspace_id := workspace_id;
                 pcg_checkpoint_id := checkpoint_id; pcg_checkpoint_type := checkpoint_type;
                 pcg_timeout_ms := timeout; pcg_fallback := fb; pcg_created_at := 0 |} in
  (Mk (pending self) (<[gate_id := gate]> (pending_checkpoints self)) (wrap64 (next_id self + 1))
      (default_timeout_ms self) (default_fallback self),
   {| ge_gate_id := gate_id; ge_gate_type := GateType.CheckpointApproval;
      ge_subject := as_bytes checkpoint_id; ge_workspace_id := workspace_id;
      ge_task_id := None; ge_timeout_ms := timeout;
      ge_fallback_action := GateFallback.action fb; ge_created_at := 0 |}).

Definition resolve_checkpoint (self : t) (gate_id : GateId) : t * option PendingCheckpointGate :=
  (Mk (pending self) (delete gate_id (pending_checkpoints self)) (next_id self)
      (default_timeout_ms self) (default_fallback self),
   pending_checkpoints self !! gate_id).

End GateController.

(** ** Histories *)

Inductive gate_op :=
| OpenTask (task_id : TaskId) (name desc : string) (timeout_ms : option Z)
    (fallback : option GateFallback.t)
| OpenCheckpoint (w : WorkspaceId) (cp : CheckpointId) (ty : string) (timeout_ms : option Z)
    (fallback : option GateFallback.t)
| Respond (gate_id : GateId) (decision : GateDecision.t)
| Expire (gate_id : GateId)
| RespondCheckpoint (gate_id : GateId).

(** What happened: a gate was opened, a gate was answered, or nothing. *)
Inductive gate_obs := Opened (gate_id : GateId) | Answered (gate_id : GateId) | Nothing.

Definition answered {A} (gate_id : GateId) (r : option A) : gate_obs :=
  match r with Some _ => Answered gate_id | None => Nothing end.

Definition gate_step (c : GateController.t) (op : gate_op) : GateController.t * gate_obs :=
  match op with
  | OpenTask task name desc tm fb =>
      let '(c, ev) := GateController.open_gate c task name desc tm fb in (c, Opened (ge_gate_id ev))
  | OpenCheckpoint w cp ty tm fb =>
      let '(c, ev) := GateController.open_checkpoint_gate c w cp ty tm fb in (c, Opened (ge_gate_id ev))
  | Respond id d => let '(c, r) := GateController.resolve c id d in (c, answered id r)
  | Expire id => let '(c, r) := GateController.timeout c id in (c, answered id r)
  | RespondCheckpoint id => let '(c, r) := GateController.resolve_checkpoint c id in (c, answered id r)
  end.

(** The observations of a run, in order. *)
Fixpoint gate_trace (c : GateController.t) (ops : list gate_op) : list gate_obs :=
  match ops with
  | [] => []
  | op :: ops => let '(c, o) := gate_step c op in o :: gate_trace c ops
  end.

Definition opened_ids (trace : list gate_obs) : list GateId :=
  omap (λ o, match o with Opened id => Some id | _ => None end) trace.

Definition answered_ids (trace : list gate_obs) : list GateId :=
  omap (λ o, match o with Answered id => Some id | _ => None end) trace.

(** ** Invariant *)

Definition waiting (c : GateController.t) (k : GateId) : Prop :=
  is_Some (GateController.pending c !! k) ∨ is_Some (GateController.pending_checkpoints c !! k).

(** With the ids opened and answered so far: a gate waits in one table only, and
    only while it is opened and unanswered. *)
Record gate_inv (c : GateController.t) (opened answered : list GateId) : Prop := {
  gi_next : 1 ≤ GateController.next_id c;
  gi_ids : ∀ k, k ∈ opened → ∃ n, 1 ≤ n < GateController.next_id c ∧ k = format_id "gate-" n;
  gi_waiting : ∀ k, waiting c k → k ∈ opened ∧ k ∉ answered;
  gi_excl : ∀ k, is_Some (GateController.pending c !! k) →
    GateController.pending_checkpoints c !! k = None;
  gi_opened : NoDup opened;
  gi_answered : NoDup answered;
  gi_sub : ∀ k, k ∈ answered → k ∈ opened;
}.

Lemma gate_inv_new tm fb : gate_inv (GateController.new tm fb) [] [].
Proof.
  split; cbn; [lia|set_solver| |done|constructor|constructor|set_solver].
  intros k [[? Hk]|[? Hk]]; cbn in Hk; by rewrite lookup_empty in Hk.
Qed.

Lemma gate_fresh c opened ans :
  gate_inv c opened ans → format_id "gate-" (GateController.next_id c) ∉ opened.
Proof.
  intros Hinv Hin. destruct (gi_ids _ _ _ Hinv _ Hin) as (n & Hn & Heq).
  pose proof (gi_next _ _ _ Hinv). apply format_id_inj in Heq; lia.
Qed.

(** Opening adds the fresh id to one of the tables. *)
Lemma gate_inv_open c opened ans id pend pcs :
  gate_inv c opened ans → GateController.next_id c < u64_max →
  id = format_id "gate-" (GateController.next_id c) →
  (∃ g, pend = <[id := g]> (GateController.pending c) ∧ pcs = GateController.pending_checkpoints c) ∨
  (∃ g, pend = GateController.pending c ∧ pcs = <[id := g]> (GateController.pending_checkpoints c)) →
  gate_inv (GateController.Mk pend pcs (wrap64 (GateController.next_id c + 1))
    (GateController.default_timeout_ms c) (GateController.default_fallback c)) (opened ++ [id]) ans.
Proof.
  intros Hinv Hb -> Htab. pose proof (gate_fresh _ _ _ Hinv) as Hfresh.
  destruct Hinv as [Hnext Hids Hwait Hexcl Hop Hans Hsub].
  rewrite wrap64_small by solve_range. set (id := format_id _ _) in *.
  assert (∀ k, is_Some (pend !! k) ∨ is_Some (pcs !! k) → k = id ∨ waiting c k) as Hw.
  { intros k. unfold waiting. destruct Htab as [(g & -> & ->)|(g & -> & ->)];
      rewrite lookup_insert; case_decide; naive_solver. }
  assert (GateController.pending c !! id = None ∧ GateController.pending_checkpoints c !! id = None) as [Hn1 Hn2].
  { split; apply eq_None_not_Some; intros Hs; apply Hfresh, Hwait; [by left|by right]. }
  split; cbn.
  - lia.
  - intros k [(n & ? & ?)%Hids | ->]%elem_of_snoc; [exists n; split; [lia|done]|].
    exists (GateController.next_id c). split; [lia|done].
  - intros k [-> | [Hk1 Hk2]%Hwait]%Hw; rewrite elem_of_snoc; [|tauto].
    split; [by right|]. intros ?%Hsub. done.
  - intros k. destruct Htab as [(g & -> & ->)|(g & -> & ->)]; rewrite lookup_insert; case_decide; subst.
    + done.
    + apply Hexcl.
    + rewrite Hn1. by intros [? ?].
    + apply Hexcl.
  - by apply NoDup_snoc.
  - done.
  - intros k Hk. rewrite elem_of_snoc. auto.
Qed.

(** Answering removes the id from its table. *)
Lemma gate_inv_answer c opened ans id :
  gate_inv c opened ans → waiting c id →
  gate_inv (GateController.Mk (delete id (GateController.pending c))
    (delete id (GateController.pending_checkpoints c)) (GateController.next_id c)
    (GateController.default_timeout_ms c) (GateController.default_fallback c)) opened (ans ++ [id]).
Proof.
  intros [Hnext Hids Hwait Hexcl Hop Hans Hsub] Hid. destruct (Hwait id Hid) as [Hid1 Hid2].
  split; cbn; try done.
  - unfold waiting. cbn. intros k. rewrite !lookup_delete. case_decide; [by intros [[]|[]]|].
    intros [H1 H2]%Hwait. rewrite elem_of_snoc. split; [done|]. intros [?| ->]; tauto.
  - intros k. rewrite !lookup_delete. case_decide; [done|]. apply Hexcl.
  - by apply NoDup_snoc.
  - intros k [?| ->]%elem_of_snoc; auto.
Qed.

Definition obs_opened (o : gate_obs) : list GateId := match o with Opened id => [id] | _ => [] end.
Definition obs_answered (o : gate_obs) : list GateId := match o with Answered id => [id] | _ => [] end.

Lemma gate_step_inv c opened ans op :
  gate_inv c opened ans → GateController.next_id c < u64_max →
  let '(c', o) := gate_step c op in
  gate_inv c' (opened ++ obs_opened o) (ans ++ obs_answered o) ∧
  GateController.next_id c' ≤ GateController.next_id c + 1.
Proof.
  intros Hinv Hb. pose proof (gi_next _ _ _ Hinv).
  assert (∀ id, GateController.pending c !! id = None → delete id (GateController.pending c) = GateController.pending c)
    as Hd1 by (intros; by apply delete_id).
  assert (∀ id, is_Some (GateController.pending c !! id) →
    delete id (GateController.pending_checkpoints c) = GateController.pending_checkpoints c) as Hd2.
  { intros id Hs. apply delete_id. by eapply gi_excl. }
  destruct op as [task name desc tm fb|w cp ty tm fb|id d|id|id]; cbn.
  - rewrite app_nil_r. split; [|rewrite wrap64_small; solve_range].
    eapply gate_inv_open; [done..|]. left. eauto.
  - rewrite app_nil_r. split; [|rewrite wrap64_small; solve_range].
    eapply gate_inv_open; [done..|]. right. eauto.
  - unfold GateController.resolve. destruct (GateController.pending c !! id) eqn:Hp; cbn; rewrite ?app_nil_r; [|split; [done|lia]].
    split; [|cbn; lia]. pose proof (gate_inv_answer c opened ans id Hinv ltac:(left; eauto)) as Ha.
    by rewrite Hd2 in Ha by eauto.
  - unfold GateController.timeout. destruct (GateController.pending c !! id) eqn:Hp; cbn; rewrite ?app_nil_r; [|split; [done|lia]].
    split; [|cbn; lia]. pose proof (gate_inv_answer c opened ans id Hinv ltac:(left; eauto)) as Ha.
    by rewrite Hd2 in Ha by eauto.
  - split; [|lia]. destruct (GateController.pending_checkpoints c !! id) eqn:Hp; cbn; rewrite ?app_nil_r.
    + pose proof (gate_inv_answer c opened ans id Hinv ltac:(right; eauto)) as Ha.
      rewrite Hd1 in Ha; [done|]. destruct (GateController.pending c !! id) eqn:Hq; [|done].
      rewrite (gi_excl _ _ _ Hinv id) in Hp by eauto. done.
    + rewrite delete_id by done. by destruct c.
Qed.

Lemma gate_trace_inv ops c opened ans :
  gate_inv c opened ans → GateController.next_id c + Z.of_nat (length ops) ≤ u64_max →
  NoDup (opened ++ opened_ids (gate_trace c ops)) ∧
  NoDup (ans ++ answered_ids (gate_trace c ops)) ∧
  ∀ k, k ∈ ans ++ answered_ids (gate_trace c ops) → k ∈ opened ++ opened_ids (gate_trace c ops).
Proof.
  revert c opened ans. induction ops as [|op ops IH]; intros c opened ans Hinv Hb; cbn [gate_trace].
  { cbn. rewrite !app_nil_r. destruct Hinv; auto. }
  cbn [length] in Hb. pose proof (gate_step_inv c opened ans op Hinv ltac:(lia)) as Hstep.
  destruct (gate_step c op) as [c' o]. destruct Hstep as [Hinv' Hn].
  specialize (IH _ _ _ Hinv' ltac:(lia)). rewrite <- !app_assoc in IH.
  destruct o; cbn in *; exact IH.
Qed.

(** ** Properties *)

(** Over any sequence of openings, human responses and timeouts, task and
    checkpoint gates together get distinct ids, only opened gates are answered, and
    no gate is answered twice: after the first response every other one gets
    nothing. *)
Theorem first_response_wins tm fb ops :
  Z.of_nat (length ops) < u64_max →
  let trace := gate_trace (GateController.new tm fb) ops in
  NoDup (opened_ids trace) ∧ NoDup (answered_ids trace) ∧
  ∀ k, k ∈ answered_ids trace → k ∈ opened_ids trace.
Proof.
  intros Hb trace. apply (gate_trace_inv ops _ [] []); [apply gate_inv_new|cbn; lia].
Qed.

Lemma first_response_wins_witness :
  let ops := [OpenTask "t" "n" "d" None None; OpenCheckpoint "w" "cp" "ty" None None;
              Respond "gate-1" GateDecision.Reject; Expire "gate-1"; RespondCheckpoint "gate-2";
              Respond "gate-2" GateDecision.Approve] in
  let trace := gate_trace (GateController.new 1000 GateFallback.AutoApprove) ops in
  opened_ids trace = ["gate-1"; "gate-2"] ∧ answered_ids trace = ["gate-1"; "gate-2"] ∧
  NoDup (answered_ids trace).
Proof.
  intros ops trace. split; [vm_compute; reflexivity|]. split; [vm_compute; reflexivity|].
  apply (first_response_wins 1000 GateFallback.AutoApprove ops). vm_compute. reflexivity.
Defined.
