(* ===== verification/Workspace.v ===== *)
(** * Workspace state and actor (wacp-workspace: state.rs, actor.rs)

    The nine-component workspace state and the actor that owns it.  The actor's
    two channels are the lists of messages still to be received; a handler returns
    the new actor and the events it sends.  The theorems show that the status only
    moves along the lifecycle FSM and every move is announced, that the inbox is
    ordered by priority and arrival, that checkpoints form a chain, and how far a
    checkpoint gate holds an agent back. *)

From S2P Require Import Prelude Types Fsm.

Record WorkspaceConfig := {
  wc_id : WorkspaceId;
  wc_role : string;
  wc_base_role : BaseRole.t;
  wc_parent : WorkspaceId;
  wc_owner : UserId;
  wc_originator : Originator.t;
  wc_directive : Envelope;
  wc_context : list Z;
  wc_visibility : gset string;
  wc_authority : gset string;
  wc_delegate : bool;
  wc_budget : option ResourceBudget;
}.

Record ResourceMeter := {
  rm_usage : ResourceUsage;
  rm_budget : option ResourceBudget;
}.

Record MigrationSnapshot := {
  ms_inbox : list Envelope;
  ms_working_memory : list Z;
  ms_checkpoint_register : list Checkpoint;
  ms_resource_meter : ResourceMeter;
  ms_trail_sequence : Z;
  ms_delivered_envelope_ids : gset string;
}.

Record ArchivedWorkspace := {
  aw_id : WorkspaceId;
  aw_terminal_state : WorkspaceState.t;
  aw_role : string;
  aw_parent : WorkspaceId;
  aw_owner : UserId;
  aw_originator : Originator.t;
  aw_directive : Envelope;
  aw_context : list Z;
  aw_checkpoints : list Checkpoint;
  aw_final_usage : ResourceUsage;
  aw_visibility : gset string;
  aw_authority : gset string;
}.

Definition priority_rank (p : EnvelopePriority.t) : Z :=
  match p with
  | EnvelopePriority.Blocking => 2
  | EnvelopePriority.Urgent => 1
  | EnvelopePriority.Normal => 0
  end.

(** The struct [WorkspaceState] of state.rs (the enum of that name is in Types). *)
Module WsState.
Record t := Mk {
  id : WorkspaceId;
  status : WorkspaceState.t;
  role : string;
  base_role : BaseRole.t;
  parent : WorkspaceId;
  owner : UserId;
  originator : Originator.t;
  delegate : bool;
  directive : Envelope;
  inbox : list Envelope;
  context : list Z;
  working_memory : list Z;
  checkpoint_register : list Checkpoint;
  resource_meter : ResourceMeter;
  trail_sequence : Z;
  visibility_set : gset string;
  authority_set : gset string;
  delivered_envelope_ids : gset string;
}.

Definition new (config : WorkspaceConfig) : t := {|
  id := wc_id config; status := WorkspaceState.Idle; role := wc_role config;
  base_role := wc_base_role config; parent := wc_parent config; owner := wc_owner config;
  originator := wc_originator config; delegate := wc_delegate config;
  directive := wc_directive config; inbox := []; context := wc_context config;
  working_memory := []; checkpoint_register := [];
  resource_meter := {| rm_usage := ResourceUsage_default; rm_budget := wc_budget config |};
  trail_sequence := 0; visibility_set := wc_visibility config;
  authority_set := wc_authority config; delivered_envelope_ids := ∅ |}.

Definition with_status (s : WorkspaceState.t) (self : t) : t :=
  Mk (id self) s (role self) (base_role self) (parent self) (owner self) (originator self)
     (delegate self) (directive self) (inbox self) (context self) (working_memory self)
     (checkpoint_register self) (resource_meter self) (trail_sequence self)
     (visibility_set self) (authority_set self) (delivered_envelope_ids self).

Definition with_inbox (q : list Envelope) (seen : gset string) (self : t) : t :=
  Mk (id self) (status self) (role self) (base_role self) (parent self) (owner self)
     (originator self) (delegate self) (directive self) q (context self) (working_memory self)
     (checkpoint_register self) (resource_meter self) (trail_sequence self)
     (visibility_set self) (authority_set self) seen.

Definition with_visibility (v : gset string) (self : t) : t :=
  Mk (id self) (status self) (role self) (base_role self) (parent self) (owner self)
     (originator self) (delegate self) (directive self) (inbox self) (context self)
     (working_memory self) (checkpoint_register self) (resource_meter self) (trail_sequence self)
     v (authority_set self) (delivered_envelope_ids self).

Definition with_checkpoints (cps : list Checkpoint) (m : ResourceMeter) (self : t) : t :=
  Mk (id self) (status self) (role self) (base_role self) (parent self) (owner self)
     (originator self) (delegate self) (directive self) (inbox self) (context self)
     (working_memory self) cps m (trail_sequence self)
     (visibility_set self) (authority_set self) (delivered_envelope_ids self).

Definition grant_visibility (self : t) (resources : list string) : t :=
  with_visibility (fold_left (λ s r, {[r]} ∪ s) resources (visibility_set self)) self.

(** [iter().position(...)] then [insert(pos, envelope)]. *)
Fixpoint insert_by_priority (envelope : Envelope) (q : list Envelope) : list Envelope :=
  match q with
  | [] => [envelope]
  | e :: q =>
      if priority_rank (env_priority e) <? priority_rank (env_priority envelope)
      then envelope :: e :: q else e :: insert_by_priority envelope q
  end.

Definition push_inbox (self : t) (envelope : Envelope) : t :=
  with_inbox (insert_by_priority envelope (inbox self)) (delivered_envelope_ids self) self.

Definition pop_inbox (self : t) : t * option Envelope :=
  match inbox self with
  | [] => (self, None)
  | envelope :: q =>
      (with_inbox q ({[env_id envelope]} ∪ delivered_envelope_ids self) self, Some envelope)
  end.

Definition is_envelope_delivered (self : t) (id : string) : bool :=
  bool_decide (id ∈ delivered_envelope_ids self).

Definition push_checkpoint (self : t) (cp : Checkpoint) : t :=
  with_checkpoints (checkpoint_register self ++ [cp]) (resource_meter self) self.

Definition last_checkpoint (self : t) : option Checkpoint := last (checkpoint_register self).

Definition capture_snapshot (self : t) : MigrationSnapshot := {|
  ms_inbox := inbox self; ms_working_memory := working_memory self;
  ms_checkpoint_register := checkpoint_register self; ms_resource_meter := resource_meter self;
  ms_trail_sequence := trail_sequence self;
  ms_delivered_envelope_ids := delivered_envelope_ids self |}.

Definition restore_from_snapshot (config : WorkspaceConfig) (snapshot : MigrationSnapshot)
    (restore_status : WorkspaceState.t) : t := {|
  id := wc_id config; status := restore_status; role := wc_role config;
  base_role := wc_base_role config; parent := wc_parent config; owner := wc_owner config;
  originator := wc_originator config; delegate := wc_delegate config;
  directive := wc_directive config; inbox := ms_inbox snapshot; context := wc_context config;
  working_memory := ms_working_memory snapshot;
  checkpoint_register := ms_checkpoint_register snapshot;
  resource_meter := ms_resource_meter snapshot; trail_sequence := ms_trail_sequence snapshot;
  visibility_set := wc_visibility config; authority_set := wc_authority config;
  delivered_envelope_ids := ms_delivered_envelope_ids snapshot |}.

Definition archive (self : t) : ArchivedWorkspace := {|
  aw_id := id self; aw_terminal_state := status self; aw_role := role self;
  aw_parent := parent self; aw_owner := owner self; aw_originator := originator self;
  aw_directive := directive self; aw_context := context self;
  aw_checkpoints := checkpoint_register self; aw_final_usage := rm_usage (resource_meter self);
  aw_visibility := visibility_set self; aw_authority := authority_set self |}.
End WsState.

(** ** Messages *)

Inductive CoordinatorCommand :=
| Abort | Suspend | Resume | MigrateBegin
| MigrationComplete (restore_blocked : bool)
| MigrationFailedCmd
| IntegrationSucceededCmd | IntegrationFailedCmd
| ConflictDetectedCmd | ConflictResolvedCmd | ConflictUnresolvableCmd
| GrantVisibility (resources : list string)
| UpdateBudget (budget : ResourceBudget)
| DeliverEnvelope (envelope : Envelope)
| GracefulTermination (grace_period_ms : Z)
| CheckpointApproved (checkpoint_id : string)
| CheckpointRejected (checkpoint_id : string).

Inductive AgentMessage :=
| EmitSignal (signal_type : SignalType.t) (reason : option string) (context : option (list Z))
| CreateCheckpoint (checkpoint_type : string) (payload : list Z) (content_hash intent : string)
    (status : CheckpointStatus.t) (confidence : Confidence.t) (resource_usage : option ResourceUsage).

Inductive WorkspaceEvent :=
| EvSignal (s : Signal)
| StateChanged (workspace_id : WorkspaceId) (from to : WorkspaceState.t)
| Terminated (archived : ArchivedWorkspace)
| CheckpointCreated (cp : Checkpoint)
| EvMigrationSnapshot (workspace_id : WorkspaceId) (snapshot : MigrationSnapshot)
| EvError (workspace_id : WorkspaceId) (message : string).

Module WorkspaceActor.
Record t := Mk {
  state : WsState.t;
  first_envelope_received : bool;
}.

(** The actor as [spawn] starts it. *)
Definition spawn (config : WorkspaceConfig) : t := Mk (WsState.new config) false.

Definition with_state (s : WsState.t) (self : t) : t := Mk s (first_envelope_received self).

Definition transition (self : t) (trigger : WorkspaceTrigger.t) : t * list WorkspaceEvent :=
  let from := WsState.status (state self) in
  match WorkspaceFsm.transition from trigger with
  | Ok to =>
      (with_state (WsState.with_status to (state self)) self,
       [StateChanged (WsState.id (state self)) from to])
  | Err e => (self, [EvError (WsState.id (state self)) (transition_error_display e)])
  end.

Definition handle_coordinator_cmd (self : t) (cmd : CoordinatorCommand) : t * list WorkspaceEvent :=
  match cmd with
  | Abort => transition self WorkspaceTrigger.CoordinatorAbort
  | Suspend => transition self WorkspaceTrigger.CoordinatorSuspend
  | Resume => transition self WorkspaceTrigger.CoordinatorResume
  | MigrateBegin =>
      let '(self, events) := transition self WorkspaceTrigger.CoordinatorMigrate in
      if decide (WsState.status (state self) = WorkspaceState.Migrating)
      then (self, events ++ [EvMigrationSnapshot (WsState.id (state self))
                               (WsState.capture_snapshot (state self))])
      else (self, events)
  | MigrationComplete restore_blocked =>
      transition self (if restore_blocked then WorkspaceTrigger.MigrationSucceededBlocked
                       else WorkspaceTrigger.MigrationSucceeded)
  | MigrationFailedCmd => transition self WorkspaceTrigger.MigrationFailed
  | IntegrationSucceededCmd => transition self WorkspaceTrigger.IntegrationSucceeded
  | IntegrationFailedCmd => transition self WorkspaceTrigger.IntegrationFailed
  | ConflictDetectedCmd => transition self WorkspaceTrigger.ConflictDetected
  | ConflictResolvedCmd => transition self WorkspaceTrigger.ConflictResolved
  | ConflictUnresolvableCmd => transition self WorkspaceTrigger.ConflictUnresolvable
  | GrantVisibility resources => (with_state (WsState.grant_visibility (state self) resources) self, [])
  | UpdateBudget budget =>
      (with_state (WsState.with_checkpoints (WsState.checkpoint_register (state self))
         {| rm_usage := rm_usage (WsState.resource_meter (state self)); rm_budget := Some budget |}
         (state self)) self, [])
  | DeliverEnvelope envelope =>
      if WsState.is_envelope_delivered (state self) (env_id envelope) then (self, []) else
      let '(self, events) :=
        if negb (first_envelope_received self)
           && bool_decide (WsState.status (state self) = WorkspaceState.Idle)
        then transition (Mk (state self) true) WorkspaceTrigger.ReceiveFirstEnvelope
        else (self, []) in
      (with_state (WsState.push_inbox (state self) envelope) self, events)
  | GracefulTermination _ => (self, [])
  | CheckpointApproved _ => transition self WorkspaceTrigger.AgentStarted
  | CheckpointRejected _ => transition self WorkspaceTrigger.CoordinatorAbort
  end.

Definition handle_create_checkpoint (self : t) (checkpoint_type : string) (payload : list Z)
    (content_hash intent : string) (status : CheckpointStatus.t) (confidence : Confidence.t)
    (resource_usage : option ResourceUsage) : t * list WorkspaceEvent :=
  let st := state self in
  let cp := {| cp_id := format_id "cp-" (Z.of_nat (length (WsState.checkpoint_register st)));
               cp_workspace_id := WsState.id st; cp_checkpoint_type := checkpoint_type;
               cp_payload := payload; cp_content_hash := content_hash; cp_intent := intent;
               cp_parent_checkpoint := cp_id <$> WsState.last_checkpoint st; cp_status := status;
               cp_confidence := confidence; cp_timestamp := 0; cp_resource_usage := resource_usage |} in
  let usage := rm_usage (WsState.resource_meter st) in
  let meter := {| rm_usage := {| usage_tokens := usage_tokens usage;
                                 usage_wall_time_ms := usage_wall_time_ms usage;
                                 usage_storage_bytes :=
                                   wrap64 (usage_storage_bytes usage + Z.of_nat (length payload));
                                 usage_network_bytes := usage_network_bytes usage;
                                 usage_cost_micros := usage_cost_micros usage |};
                  rm_budget := rm_budget (WsState.resource_meter st) |} in
  let st := WsState.with_checkpoints (WsState.checkpoint_register st) meter st in
  let self := with_state (WsState.push_checkpoint st cp) self in
  let signal := {| sig_signal_type := SignalType.Checkpoint; sig_workspace_id := WsState.id st;
                   sig_timestamp := 0; sig_reason := None; sig_context := None |} in
  let events := [CheckpointCreated cp; EvSignal signal] in
  if decide (status = CheckpointStatus.Provisional)
  then let '(self, more) := transition self WorkspaceTrigger.AgentBlocked in (self, events ++ more)
  else (self, events).

(** The trigger an emitted signal stands for. *)
Definition signal_trigger (s : SignalType.t) : option WorkspaceTrigger.t :=
  match s with
  | SignalType.Started => Some WorkspaceTrigger.AgentStarted
  | SignalType.Blocked => Some WorkspaceTrigger.AgentBlocked
  | SignalType.Complete => Some WorkspaceTrigger.AgentComplete
  | SignalType.Failed => Some WorkspaceTrigger.AgentFailed
  | _ => None
  end.

Definition handle_agent_msg (self : t) (msg : AgentMessage) : t * list WorkspaceEvent :=
  if decide (WsState.status (state self) = WorkspaceState.Migrating) then (self, []) else
  match msg with
  | EmitSignal signal_type reason context =>
      let '(self, events) :=
        match signal_trigger signal_type with
        | Some trigger => transition self trigger
        | None => (self, [])
        end in
      (self, events ++ [EvSignal {| sig_signal_type := signal_type;
                                    sig_workspace_id := WsState.id (state self);
                                    sig_timestamp := 0; sig_reason := reason;
                                    sig_context := context |}])
  | CreateCheckpoint ty payload hash intent status confidence usage =>
      handle_create_checkpoint self ty payload hash intent status confidence usage
  end.

(** The biased [select!]: a waiting command is taken before a waiting message. *)
Definition select (commands : list CoordinatorCommand) (messages : list AgentMessage)
    : option ((CoordinatorCommand + AgentMessage) * list CoordinatorCommand * list AgentMessage) :=
  match commands, messages with
  | cmd :: commands, _ => Some (inl cmd, commands, messages)
  | [], msg :: messages => Some (inr msg, [], messages)
  | [], [] => None
  end.

(** The actor task: the actor, its two channels and whether [run] has returned. *)
Record task := MkTask {
  actor : t;
  coordinator_rx : list CoordinatorCommand;
  agent_rx : list AgentMessage;
  stopped : bool;
}.

(** One turn of the loop of [run].  A terminal state is archived and ends the loop;
    with both channels empty the actor waits.  The state left behind when the loop has
    ended is not read again.  The arm of the [select!] for two closed
    channels, which ends the loop without an event, is left out. *)
Definition turn (k : task) : task * list WorkspaceEvent :=
  if stopped k then (k, []) else
  if WorkspaceState.is_terminal (WsState.status (state (actor k)))
  then (MkTask (actor k) (coordinator_rx k) (agent_rx k) true,
        [Terminated (WsState.archive (state (actor k)))])
  else
    match select (coordinator_rx k) (agent_rx k) with
    | Some (inl cmd, commands, messages) =>
        let '(self, events) := handle_coordinator_cmd (actor k) cmd in
        (MkTask self commands messages false, events)
    | Some (inr msg, commands, messages) =>
        let '(self, events) := handle_agent_msg (actor k) msg in
        (MkTask self commands messages false, events)
    | None => (k, [])
    end.

(** What can happen to the task: a sender puts something into a channel, or the
    loop takes a turn. *)
Inductive action :=
| SendCommand (cmd : CoordinatorCommand)
| SendMessage (msg : AgentMessage)
| Turn.

Definition step (k : task) (a : action) : task * list WorkspaceEvent :=
  match a with
  | SendCommand cmd => (MkTask (actor k) (coordinator_rx k ++ [cmd]) (agent_rx k) (stopped k), [])
  | SendMessage msg => (MkTask (actor k) (coordinator_rx k) (agent_rx k ++ [msg]) (stopped k), [])
  | Turn => turn k
  end.

Fixpoint run (k : task) (script : list action) : task * list WorkspaceEvent :=
  match script with
  | [] => (k, [])
  | a :: script =>
      let '(k, events) := step k a in
      let '(k, rest) := run k script in
      (k, events ++ rest)
  end.
End WorkspaceActor.

(** ** Lifecycle *)

Definition changes (events : list WorkspaceEvent) : list (WorkspaceState.t * WorkspaceState.t) :=
  omap (λ e, match e with StateChanged _ from to => Some (from, to) | _ => None end) events.

Definition terminations (events : list WorkspaceEvent) : list ArchivedWorkspace :=
  omap (λ e, match e with Terminated a => Some a | _ => None end) events.

(** [path s l s']: the announced changes [l] lead from [s] to [s'], each by a
    transition of the FSM. *)
Inductive path : WorkspaceState.t → list (WorkspaceState.t * WorkspaceState.t) → WorkspaceState.t → Prop :=
| path_nil s : path s [] s
| path_cons s s1 s' l trigger :
    WorkspaceFsm.transition s trigger = Ok s1 → path s1 l s' → path s ((s, s1) :: l) s'.

Lemma path_app s l s1 l' s' : path s l s1 → path s1 l' s' → path s (l ++ l') s'.
Proof. induction 1; [done|]. intros. econstructor; eauto. Qed.

(** Checkpoint [i] is called [cp-i] and names its predecessor as parent. *)
Definition chained (cps : list Checkpoint) : Prop :=
  ∀ i cp, cps !! i = Some cp → cp_id cp = format_id "cp-" (Z.of_nat i) ∧
    cp_parent_checkpoint cp = match i with O => None | S j => Some (format_id "cp-" (Z.of_nat j)) end.

(** The components fixed at creation. *)
Definition fixed (s : WsState.t) :=
  (WsState.id s, WsState.role s, WsState.base_role s, WsState.parent s, WsState.owner s,
   WsState.originator s, WsState.delegate s, WsState.directive s, WsState.context s,
   WsState.authority_set s).

(** What a handler may do to the actor: announced FSM moves, a chained register
    that only grows, and the fixed components untouched. *)
Record handled (a : WorkspaceActor.t) (events : list WorkspaceEvent) (a' : WorkspaceActor.t) : Prop := {
  h_path : path (WsState.status (WorkspaceActor.state a)) (changes events)
             (WsState.status (WorkspaceActor.state a'));
  h_term : terminations events = [];
  h_chain : chained (WsState.checkpoint_register (WorkspaceActor.state a)) →
            chained (WsState.checkpoint_register (WorkspaceActor.state a'));
  h_grow : WsState.checkpoint_register (WorkspaceActor.state a)
             `prefix_of` WsState.checkpoint_register (WorkspaceActor.state a');
  h_fixed : fixed (WorkspaceActor.state a') = fixed (WorkspaceActor.state a) ∧
    WsState.visibility_set (WorkspaceActor.state a) ⊆ WsState.visibility_set (WorkspaceActor.state a');
  h_seen : WsState.delivered_envelope_ids (WorkspaceActor.state a')
             = WsState.delivered_envelope_ids (WorkspaceActor.state a);
}.

Lemma handled_refl a : handled a [] a.
Proof. split; [constructor|done..]. Qed.

Lemma handled_trans a e1 a1 e2 a2 :
  handled a e1 a1 → handled a1 e2 a2 → handled a (e1 ++ e2) a2.
Proof.
  intros [P1 T1 C1 G1 F1 S1] [P2 T2 C2 G2 F2 S2]. split.
  - unfold changes. rewrite omap_app. by eapply path_app.
  - unfold terminations in *. by rewrite omap_app, T1, T2.
  - auto.
  - by etrans.
  - destruct F1, F2. split; [congruence|set_solver].
  - congruence.
Qed.

Lemma handled_transition a trigger :
  let '(a', events) := WorkspaceActor.transition a trigger in handled a events a'.
Proof.
  unfold WorkspaceActor.transition.
  destruct (WorkspaceFsm.transition _ trigger) as [to|e] eqn:Hs; split; cbn; try done.
  - econstructor; [done|constructor].
  - constructor.
Qed.

(** Events other than status changes and terminations do not matter. *)
Lemma handled_silent a e : 
  changes [e] = [] → terminations [e] = [] → handled a [e] a.
Proof. intros Hc Ht. split; [rewrite Hc; constructor|done..]. Qed.

(** Updates of the inbox, the visibility set or the meter. *)
Lemma handled_update a a' :
  WsState.status (WorkspaceActor.state a') = WsState.status (WorkspaceActor.state a) →
  WsState.checkpoint_register (WorkspaceActor.state a') = WsState.checkpoint_register (WorkspaceActor.state a) →
  fixed (WorkspaceActor.state a') = fixed (WorkspaceActor.state a) →
  WsState.visibility_set (WorkspaceActor.state a) ⊆ WsState.visibility_set (WorkspaceActor.state a') →
  WsState.delivered_envelope_ids (WorkspaceActor.state a')
    = WsState.delivered_envelope_ids (WorkspaceActor.state a) →
  handled a [] a'.
Proof.
  intros Hs Hc ? ? ?. split; [rewrite Hs; constructor|done|by rewrite Hc|by rewrite Hc|done|done].
Qed.

Lemma fold_grant_subseteq resources (s : gset string) :
  s ⊆ fold_left (λ s r, {[r]} ∪ s) resources s.
Proof. revert s. induction resources as [|r rs IH]; intros s; cbn; [done|]. etrans; [|apply IH]. set_solver. Qed.

Lemma handled_cmd a cmd :
  let '(a', events) := WorkspaceActor.handle_coordinator_cmd a cmd in handled a events a'.
Proof.
  destruct cmd; cbn [WorkspaceActor.handle_coordinator_cmd];
    try apply handled_transition; try apply handled_refl.
  - pose proof (handled_transition a WorkspaceTrigger.CoordinatorMigrate) as Ht.
    destruct (WorkspaceActor.transition a _) as [a' events]. case_decide; [|done].
    eapply handled_trans; [done|]. by apply handled_silent.
  - apply handled_update; try done. cbn. apply fold_grant_subseteq.
  - by apply handled_update.
  - destruct (WsState.is_envelope_delivered _ _); [apply handled_refl|].
    set (b := negb _ && _). clearbody b. destruct b.
    + pose proof (handled_transition (WorkspaceActor.Mk (WorkspaceActor.state a) true)
        WorkspaceTrigger.ReceiveFirstEnvelope) as Ht.
      destruct (WorkspaceActor.transition _ _) as [a' events].
      rewrite <- (app_nil_r events). apply (handled_trans _ _ a').
      * by destruct Ht.
      * by apply handled_update.
    + by apply handled_update.
Qed.

Lemma chained_snoc cps cp :
  chained cps → cp_id cp = format_id "cp-" (Z.of_nat (length cps)) →
  cp_parent_checkpoint cp = cp_id <$> last cps → chained (cps ++ [cp]).
Proof.
  intros Hch Hid Hpar i x Hx. apply lookup_app_Some in Hx as [Hx|[Hle Hx]]; [by apply Hch|].
  apply list_lookup_singleton_Some in Hx as [Hi ->].
  assert (i = length cps) as -> by lia. split; [done|]. rewrite Hpar, last_lookup.
  destruct (length cps) as [|j] eqn:Hlen; cbn.
  - by destruct cps.
  - destruct (lookup_lt_is_Some_2 cps j) as [y Hy]; [lia|]. rewrite Hy. cbn.
    by rewrite (proj1 (Hch j y Hy)).
Qed.

Lemma handled_checkpoint a ty payload hash intent status confidence usage :
  let '(a', events) :=
    WorkspaceActor.handle_create_checkpoint a ty payload hash intent status confidence usage in
  handled a events a'.
Proof.
  unfold WorkspaceActor.handle_create_checkpoint. set (cp := Build_Checkpoint _ _ _ _ _ _ _ _ _ _ _).
  match goal with |- context [WorkspaceActor.with_state ?s a] => set (a1 := WorkspaceActor.with_state s a) end.
  match goal with |- context [EvSignal ?s] => set (sg := s) end.
  assert (handled a [CheckpointCreated cp; EvSignal sg] a1) as Ha1.
  { split; cbn; [constructor|done| |by eexists|done|done]. intros Hch. by apply chained_snoc. }
  case_decide; [|exact Ha1].
  pose proof (handled_transition a1 WorkspaceTrigger.AgentBlocked) as Ht.
  destruct (WorkspaceActor.transition a1 _) as [a' more]. by eapply handled_trans.
Qed.

Lemma handled_msg a msg :
  let '(a', events) := WorkspaceActor.handle_agent_msg a msg in handled a events a'.
Proof.
  unfold WorkspaceActor.handle_agent_msg. case_decide; [apply handled_refl|].
  destruct msg as [s reason context|]; [|apply handled_checkpoint].
  assert (let '(a', events) := match WorkspaceActor.signal_trigger s with
     | Some trigger => WorkspaceActor.transition a trigger | None => (a, []) end in handled a events a') as Ht.
  { destruct (WorkspaceActor.signal_trigger s); [apply handled_transition|apply handled_refl]. }
  destruct (match WorkspaceActor.signal_trigger s with Some _ => _ | None => _ end) as [a' events].
  eapply handled_trans; [done|]. by apply handled_silent.
Qed.

(** The invariant of the actor task, relative to the events sent so far. *)
Record task_inv (a0 : WorkspaceActor.t) (events : list WorkspaceEvent) (k : WorkspaceActor.task) : Prop := {
  ti_path : path (WsState.status (WorkspaceActor.state a0)) (changes events)
    (WsState.status (WorkspaceActor.state (WorkspaceActor.actor k)));
  ti_chain : chained (WsState.checkpoint_register (WorkspaceActor.state (WorkspaceActor.actor k)));
  ti_fixed : fixed (WorkspaceActor.state (WorkspaceActor.actor k)) = fixed (WorkspaceActor.state a0) ∧
    WsState.visibility_set (WorkspaceActor.state a0)
      ⊆ WsState.visibility_set (WorkspaceActor.state (WorkspaceActor.actor k));
  ti_seen : WsState.delivered_envelope_ids (WorkspaceActor.state (WorkspaceActor.actor k))
      = WsState.delivered_envelope_ids (WorkspaceActor.state a0);
  ti_term : if WorkspaceActor.stopped k
    then WorkspaceState.is_terminal (WsState.status (WorkspaceActor.state (WorkspaceActor.actor k))) = true ∧
      ∃ before, events = before ++ [Terminated (WsState.archive (WorkspaceActor.state (WorkspaceActor.actor k)))] ∧
        terminations before = []
    else terminations events = [];
}.

Lemma task_inv_handled a0 events k a' cs ms more :
  task_inv a0 events k → WorkspaceActor.stopped k = false → handled (WorkspaceActor.actor k) more a' →
  task_inv a0 (events ++ more) (WorkspaceActor.MkTask a' cs ms false).
Proof.
  intros [Hp Hc Hf Hse Ht] Hs [P T C G F S]. rewrite Hs in Ht. split; cbn.
  - unfold changes. rewrite omap_app. by eapply path_app.
  - auto.
  - destruct Hf, F. split; [congruence|set_solver].
  - congruence.
  - unfold terminations in *. by rewrite omap_app, Ht, T.
Qed.

Lemma task_inv_step a0 events k act :
  task_inv a0 events k →
  let '(k', more) := WorkspaceActor.step k act in task_inv a0 (events ++ more) k'.
Proof.
  intros Hinv. destruct act as [cmd|msg|]; cbn [WorkspaceActor.step].
  - rewrite app_nil_r. by destruct Hinv.
  - rewrite app_nil_r. by destruct Hinv.
  - unfold WorkspaceActor.turn. destruct (WorkspaceActor.stopped k) eqn:Hs; [by rewrite app_nil_r|].
    destruct (WorkspaceState.is_terminal _) eqn:Hterm.
    + destruct Hinv as [Hp Hc Hf Hse Ht]. rewrite Hs in Ht. split; cbn; [|done|done|done|].
      * unfold changes. rewrite omap_app. by rewrite app_nil_r.
      * split; [done|]. by exists events.
    + destruct (WorkspaceActor.select _ _) as [[[[cmd|msg] cs] ms]|]; [| |by rewrite app_nil_r].
      * pose proof (handled_cmd (WorkspaceActor.actor k) cmd) as Hh.
        destruct (WorkspaceActor.handle_coordinator_cmd _ _). by eapply task_inv_handled.
      * pose proof (handled_msg (WorkspaceActor.actor k) msg) as Hh.
        destruct (WorkspaceActor.handle_agent_msg _ _). by eapply task_inv_handled.
Qed.

Lemma task_inv_run a0 script events k :
  task_inv a0 events k →
  let '(k', more) := WorkspaceActor.run k script in task_inv a0 (events ++ more) k'.
Proof.
  revert events k. induction script as [|act script IH]; intros events k Hinv; cbn; [by rewrite app_nil_r|].
  pose proof (task_inv_step a0 events k act Hinv) as Hstep.
  destruct (WorkspaceActor.step k act) as [k1 e1]. specialize (IH _ _ Hstep).
  destruct (WorkspaceActor.run k1 script) as [k2 e2]. by rewrite app_assoc.
Qed.

(** ** The inbox as three queues *)

(** The specification: one FIFO queue per priority, served in priority order. *)
Record queues := { q_blocking : list Envelope; q_urgent : list Envelope; q_normal : list Envelope }.

Definition enqueue (q : queues) (e : Envelope) : queues :=
  match env_priority e with
  | EnvelopePriority.Blocking =>
      {| q_blocking := q_blocking q ++ [e]; q_urgent := q_urgent q; q_normal := q_normal q |}
  | EnvelopePriority.Urgent =>
      {| q_blocking := q_blocking q; q_urgent := q_urgent q ++ [e]; q_normal := q_normal q |}
  | EnvelopePriority.Normal =>
      {| q_blocking := q_blocking q; q_urgent := q_urgent q; q_normal := q_normal q ++ [e] |}
  end.

Definition dequeue (q : queues) : queues * option Envelope :=
  match q_blocking q, q_urgent q, q_normal q with
  | e :: b, u, n => ({| q_blocking := b; q_urgent := u; q_normal := n |}, Some e)
  | [], e :: u, n => ({| q_blocking := []; q_urgent := u; q_normal := n |}, Some e)
  | [], [], e :: n => ({| q_blocking := []; q_urgent := []; q_normal := n |}, Some e)
  | [], [], [] => (q, None)
  end.

Inductive inbox_op := Push (e : Envelope) | Pop.

(** The envelopes popped by a sequence of operations, on either side. *)
Fixpoint inbox_run (s : WsState.t) (ops : list inbox_op) : WsState.t * list (option Envelope) :=
  match ops with
  | [] => (s, [])
  | Push e :: ops => inbox_run (WsState.push_inbox s e) ops
  | Pop :: ops =>
      let '(s, r) := WsState.pop_inbox s in
      let '(s, rest) := inbox_run s ops in (s, r :: rest)
  end.

Fixpoint queues_run (q : queues) (ops : list inbox_op) : queues * list (option Envelope) :=
  match ops with
  | [] => (q, [])
  | Push e :: ops => queues_run (enqueue q e) ops
  | Pop :: ops =>
      let '(q, r) := dequeue q in
      let '(q, rest) := queues_run q ops in (q, r :: rest)
  end.

(** Each queue holds its own priority only. *)
Definition queues_wf (q : queues) : Prop :=
  Forall (λ e, env_priority e = EnvelopePriority.Blocking) (q_blocking q) ∧
  Forall (λ e, env_priority e = EnvelopePriority.Urgent) (q_urgent q) ∧
  Forall (λ e, env_priority e = EnvelopePriority.Normal) (q_normal q).

Definition refines (s : WsState.t) (q : queues) : Prop :=
  queues_wf q ∧ WsState.inbox s = q_blocking q ++ q_urgent q ++ q_normal q.

Lemma insert_skip p e l k :
  Forall (λ x, env_priority x = p) l → priority_rank (env_priority e) ≤ priority_rank p →
  WsState.insert_by_priority e (l ++ k) = l ++ WsState.insert_by_priority e k.
Proof.
  intros Hl Hle. induction Hl as [|x l Hx _ IH]; [done|]. cbn. rewrite Hx.
  destruct (Z.ltb_spec (priority_rank p) (priority_rank (env_priority e))); [lia|]. by rewrite IH.
Qed.

Lemma insert_here e l :
  Forall (λ x, priority_rank (env_priority x) < priority_rank (env_priority e)) l →
  WsState.insert_by_priority e l = e :: l.
Proof. destruct 1 as [|x l Hx _]; cbn; [done|]. by rewrite (proj2 (Z.ltb_lt _ _) Hx). Qed.

Lemma insert_permutation e l : WsState.insert_by_priority e l ≡ₚ e :: l.
Proof.
  induction l as [|x l IH]; cbn; [done|]. case_match; [done|]. rewrite IH. apply Permutation_swap.
Qed.

Lemma refines_push s q e : refines s q → refines (WsState.push_inbox s e) (enqueue q e).
Proof.
  intros [(Hb & Hu & Hn) Hs]. unfold refines, queues_wf, WsState.push_inbox, enqueue. cbn. rewrite Hs.
  assert (∀ p l, Forall (λ x, env_priority x = p) l → env_priority e = p →
    Forall (λ x, env_priority x = p) (l ++ [e])) as Happ.
  { intros p l Hl He. apply Forall_app. by auto. }
  assert (∀ p l, Forall (λ x, env_priority x = p) l → priority_rank p < priority_rank (env_priority e) →
    Forall (λ x, priority_rank (env_priority x) < priority_rank (env_priority e)) l) as Hlt.
  { intros p l Hl Hp. eapply Forall_impl; [exact Hl|]. cbn. by intros x ->. }
  destruct (env_priority e) eqn:He; cbn; (split; [by auto|]).
  - rewrite (insert_skip _ e _ _ Hb) by (rewrite He; cbn; lia). f_equal.
    rewrite (insert_skip _ e _ _ Hu) by (rewrite He; cbn; lia). f_equal.
    rewrite <- (app_nil_r (q_normal q)) at 1. by rewrite (insert_skip _ e _ _ Hn) by (rewrite He; cbn; lia).
  - rewrite (insert_skip _ e _ _ Hb) by (rewrite He; cbn; lia). f_equal.
    rewrite (insert_skip _ e _ _ Hu) by (rewrite He; cbn; lia). rewrite <- app_assoc. f_equal.
    apply insert_here. rewrite He. by eapply Hlt.
  - rewrite (insert_skip _ e _ _ Hb) by (rewrite He; cbn; lia). rewrite <- app_assoc. f_equal.
    apply insert_here. rewrite He. apply Forall_app. split; [by eapply (Hlt _ _ Hu)|by eapply (Hlt _ _ Hn)].
Qed.

Lemma refines_pop s q : refines s q →
  let '(s', r) := WsState.pop_inbox s in let '(q', r') := dequeue q in refines s' q' ∧ r = r'.
Proof.
  intros [(Hb & Hu & Hn) Hs]. unfold WsState.pop_inbox, dequeue, refines, queues_wf. rewrite Hs.
  destruct q as [[|b bs] [|u us] [|n ns]]; cbn in *; 
    repeat match goal with H : Forall _ (_ :: _) |- _ => apply Forall_cons in H as [? ?] end;
    split_and!; auto.
Qed.

Lemma refines_run ops s q : refines s q →
  refines (inbox_run s ops).1 (queues_run q ops).1 ∧ (inbox_run s ops).2 = (queues_run q ops).2.
Proof.
  revert s q. induction ops as [|[e|] ops IH]; intros s q Hr; cbn; [done|by apply IH, refines_push|].
  pose proof (refines_pop s q Hr) as Hp.
  destruct (WsState.pop_inbox s) as [s1 r], (dequeue q) as [q1 r']. destruct Hp as [Hr1 ->].
  specialize (IH s1 q1 Hr1). destruct (inbox_run s1 ops), (queues_run q1 ops). cbn in *.
  destruct IH as [? ->]. done.
Qed.

Definition fresh_task_of (config : WorkspaceConfig) : WorkspaceActor.task :=
  WorkspaceActor.MkTask (WorkspaceActor.spawn config) [] [] false.

Lemma task_inv_spawn config :
  task_inv (WorkspaceActor.spawn config) [] (fresh_task_of config).
Proof. split; cbn; [constructor| |done..]. by intros i cp ?. Qed.

(** ** Properties *)

(** C11. Whatever the coordinator and the agent send, in any order and timing: the
    announced state changes form a path of the lifecycle FSM from idle to the
    current status; a termination is announced at most once, as the very last
    event, with the archive of a terminal state; checkpoints are numbered in order,
    each naming its predecessor as parent; and what was fixed at creation stays. *)
Theorem actor_lifecycle config script :
  let '(k, events) := WorkspaceActor.run (fresh_task_of config) script in
  let s := WorkspaceActor.state (WorkspaceActor.actor k) in
  path WorkspaceState.Idle (changes events) (WsState.status s) ∧
  (terminations events = [] ∨
   ∃ before, events = before ++ [Terminated (WsState.archive s)] ∧ terminations before = [] ∧
     WorkspaceState.is_terminal (WsState.status s) = true) ∧
  chained (WsState.checkpoint_register s) ∧
  fixed s = fixed (WsState.new config) ∧ wc_visibility config ⊆ WsState.visibility_set s.
Proof.
  pose proof (task_inv_run _ script [] _ (task_inv_spawn config)) as Hinv.
  destruct (WorkspaceActor.run _ script) as [k events]. cbn [app] in Hinv.
  destruct Hinv as [Hp Hc [Hf Hv] _ Ht]. split_and!; try done.
  destruct (WorkspaceActor.stopped k); [right|by left]. naive_solver.
Qed.

(** C13. The inbox refines three FIFO queues, one per priority, served blocking
    first, then urgent, then normal: for every sequence of pushes and pops both
    return the same envelopes, so no envelope is lost, duplicated or overtaken by
    a later one of its own or a lower priority. *)
Theorem inbox_refines_queues config ops :
  let q0 := {| q_blocking := []; q_urgent := []; q_normal := [] |} in
  let '(s, popped) := inbox_run (WsState.new config) ops in
  let '(q, popped') := queues_run q0 ops in
  popped = popped' ∧ WsState.inbox s = q_blocking q ++ q_urgent q ++ q_normal q.
Proof.
  intros q0. destruct (refines_run ops (WsState.new config) q0) as [[_ Hs] Hp].
  { split; [|done]. split_and!; constructor. }
  destruct (inbox_run _ ops), (queues_run q0 ops). done.
Qed.

(** Restoring an actor's state from its snapshot and its creation config gives
    the state back, except that the visibility set is the one of the config: what
    was granted since creation is lost. *)
Theorem restore_loses_granted_visibility config script :
  let '(k, _) := WorkspaceActor.run (fresh_task_of config) script in
  let s := WorkspaceActor.state (WorkspaceActor.actor k) in
  WsState.restore_from_snapshot config (WsState.capture_snapshot s) (WsState.status s)
  = WsState.with_visibility (wc_visibility config) s.
Proof.
  pose proof (task_inv_run _ script [] _ (task_inv_spawn config)) as Hinv.
  destruct (WorkspaceActor.run _ script) as [k events]. destruct Hinv as [_ _ [Hf _] _ _].
  unfold fixed in Hf. cbn in Hf. injection Hf as H1 H2 H3 H4 H5 H6 H7 H8 H9 H10.
  unfold WsState.restore_from_snapshot, WsState.with_visibility, WsState.capture_snapshot. cbn.
  by rewrite H1, H2, H3, H4, H5, H6, H7, H8, H9, H10.
Qed.

(** The gate of a provisional checkpoint does not hold the agent: the workspace
    blocks, but the agent's own [Started] signal makes it active again without any
    decision.  Conversely a rejection that finds the workspace active is not
    refused as an illegal transition: it fails the workspace. *)
Theorem checkpoint_gate_not_enforced a ty payload hash intent confidence usage reason context id :
  WsState.status (WorkspaceActor.state a) = WorkspaceState.Active →
  let blocked := (WorkspaceActor.handle_agent_msg a
    (CreateCheckpoint ty payload hash intent CheckpointStatus.Provisional confidence usage)).1 in
  WsState.status (WorkspaceActor.state blocked) = WorkspaceState.Blocked ∧
  WsState.status (WorkspaceActor.state
    (WorkspaceActor.handle_agent_msg blocked (EmitSignal SignalType.Started reason context)).1)
    = WorkspaceState.Active ∧
  WsState.status (WorkspaceActor.state
    (WorkspaceActor.handle_coordinator_cmd a (CheckpointRejected id)).1) = WorkspaceState.Failed.
Proof.
  intros Ha. unfold WorkspaceActor.handle_agent_msg, WorkspaceActor.handle_create_checkpoint,
    WorkspaceActor.handle_coordinator_cmd, WorkspaceActor.transition. rewrite Ha. cbn. rewrite Ha. done.
Qed.

Definition sample_envelope (id : EnvelopeId) (p : EnvelopePriority.t) : Envelope := {|
  env_id := id; env_from_workspace := "a"; env_to_workspace := "b"; env_envelope_type := "task";
  env_payload := []; env_in_reply_to := None; env_timestamp := 0; env_priority := p;
  env_origin := EnvelopeOrigin.Agent; env_state := EnvelopeState.Created |}.

Definition sample_config : WorkspaceConfig := {|
  wc_id := "ws-1"; wc_role := "worker"; wc_base_role := BaseRole.Worker; wc_parent := "root";
  wc_owner := "alice"; wc_originator := Originator.System;
  wc_directive := sample_envelope "e0" EnvelopePriority.Normal; wc_context := [];
  wc_visibility := {["doc"]}; wc_authority := ∅; wc_delegate := false; wc_budget := None |}.

Lemma checkpoint_gate_not_enforced_witness :
  let a := (WorkspaceActor.handle_coordinator_cmd (WorkspaceActor.spawn sample_config)
              (DeliverEnvelope (sample_envelope "e1" EnvelopePriority.Urgent))).1 in
  WsState.status (WorkspaceActor.state a) = WorkspaceState.Active ∧
  WsState.status (WorkspaceActor.state
    (WorkspaceActor.handle_coordinator_cmd a (CheckpointRejected "cp-0")).1) = WorkspaceState.Failed.
Proof.
  intros a. assert (WsState.status (WorkspaceActor.state a) = WorkspaceState.Active) as Ha
    by (vm_compute; reflexivity).
  split; [exact Ha|].
  apply (checkpoint_gate_not_enforced a "design" [] "h" "i" Confidence.High None None None "cp-0" Ha).
Defined.

(** The actor never recognises a duplicate: nothing it does pops its inbox, so
    no envelope id is ever recorded as delivered, and delivering an envelope that is
    already waiting puts a second copy into the inbox. *)
Theorem actor_never_deduplicates config script e :
  let '(k, _) := WorkspaceActor.run (fresh_task_of config) script in
  let a := WorkspaceActor.actor k in
  WsState.is_envelope_delivered (WorkspaceActor.state a) (env_id e) = false ∧
  WsState.inbox (WorkspaceActor.state (WorkspaceActor.handle_coordinator_cmd a (DeliverEnvelope e)).1)
  ≡ₚ e :: WsState.inbox (WorkspaceActor.state a).
Proof.
  pose proof (task_inv_run _ script [] _ (task_inv_spawn config)) as Hinv.
  destruct (WorkspaceActor.run _ script) as [k events]. destruct Hinv as [_ _ _ Hse _]. cbn zeta.
  assert (WsState.is_envelope_delivered (WorkspaceActor.state (WorkspaceActor.actor k)) (env_id e) = false) as Hd.
  { unfold WsState.is_envelope_delivered. rewrite Hse. by rewrite bool_decide_eq_false_2 by set_solver. }
  split; [done|]. cbn [WorkspaceActor.handle_coordinator_cmd]. rewrite Hd.
  set (b := negb _ && _). clearbody b.
  assert (∀ a tr, WsState.inbox (WorkspaceActor.state (WorkspaceActor.transition a tr).1)
    = WsState.inbox (WorkspaceActor.state a)) as Hin.
  { intros a tr. unfold WorkspaceActor.transition. by destruct (WorkspaceFsm.transition _ _). }
  destruct b; [|apply insert_permutation].
  specialize (Hin (WorkspaceActor.Mk (WorkspaceActor.state (WorkspaceActor.actor k)) true)
    WorkspaceTrigger.ReceiveFirstEnvelope).
  destruct (WorkspaceActor.transition _ _) as [a' evs]. cbn in *. rewrite insert_permutation, Hin. done.
Qed.
