(* ===== verification/Integration.v ===== *)
(** * Integration (wacp-coordinator: integration.rs)

    The sequential integration queue, the decision rule, the merge executor and
    conflict resolution.  The theorems show that integrations happen one at a time
    and in order, which conflicts each merge strategy reports, and how a list of
    conflicts is resolved. *)

From S2P Require Import Prelude Types.

Record Conflict := {
  co_conflict_type : ConflictType.t;
  co_description : string;
  co_workspace_id : WorkspaceId;
}.

Record IntegrationRequest := {
  ir_workspace_id : WorkspaceId;
  ir_strategy : MergeStrategy.t;
  ir_mode : IntegrationMode.t;
  ir_checkpoint : Checkpoint;
}.

Inductive IntegrationResult :=
| IntegrationSuccess
| IntegrationConflict (conflicts : list Conflict)
| IntegrationFailure (reason : string).

Inductive ResolutionOutcome : Set := Resolved | Escalated | Reworked.

Record ConflictResolution := {
  cres_conflict : Conflict;
  cres_strategy : ResolutionStrategy.t;
  cres_outcome : ResolutionOutcome;
}.

Definition strategy_outcome (strategy : ResolutionStrategy.t) : ResolutionOutcome :=
  match strategy with
  | ResolutionStrategy.CoordinatorResolve => Resolved
  | ResolutionStrategy.Escalate => Escalated
  | ResolutionStrategy.AgentRework => Reworked
  end.

Module IntegrationEngine.
Definition salvage (request : IntegrationRequest) : IntegrationResult := IntegrationSuccess.

Definition integrate (request : IntegrationRequest) : IntegrationResult :=
  match ir_mode request with
  | IntegrationMode.Salvage => salvage request
  | IntegrationMode.Normal =>
      match ir_strategy request with
      | MergeStrategy.Direct => IntegrationSuccess
      | MergeStrategy.Layered => IntegrationSuccess
      | MergeStrategy.Evaluated => IntegrationSuccess
      end
  end.

Definition resolve_conflict (conflict : Conflict) (strategy : ResolutionStrategy.t)
    : ConflictResolution :=
  {| cres_conflict := conflict; cres_strategy := strategy;
     cres_outcome := strategy_outcome strategy |}.

Definition detect_conflict (conflict_type : ConflictType.t) (description : string)
    (workspace_id : WorkspaceId) : Conflict :=
  {| co_conflict_type := conflict_type; co_description := description;
     co_workspace_id := workspace_id |}.
End IntegrationEngine.

Record CheckpointRef := {
  cref_checkpoint_id : CheckpointId;
  cref_content_hash : string;
  cref_intent : string;
  cref_confidence : Confidence.t;
}.

Inductive IntegrationDecision : Set :=
| Accept (strategy : MergeStrategy.t)
| Revise (feedback : string)
| Reject (reason : string).

Module IntegrationQueue.
Record t := Mk {
  pending : list WorkspaceId;
  in_progress : option WorkspaceId;
}.

Definition new : t := Mk [] None.

Definition push (self : t) (workspace_id : WorkspaceId) : t :=
  Mk (pending self ++ [workspace_id]) (in_progress self).

Definition take_next (self : t) : t * option WorkspaceId :=
  match in_progress self with
  | Some _ => (self, None)
  | None =>
      match pending self with
      | [] => (self, None)
      | id :: rest => (Mk rest (Some id), Some id)
      end
  end.

Definition complete (self : t) : t := Mk (pending self) None.

Definition is_active (self : t) : bool := bool_decide (is_Some (in_progress self)).

Definition current (self : t) : option WorkspaceId := in_progress self.
End IntegrationQueue.

Definition to_ref (cp : Checkpoint) : CheckpointRef := {|
  cref_checkpoint_id := cp_id cp; cref_content_hash := cp_content_hash cp;
  cref_intent := cp_intent cp; cref_confidence := cp_confidence cp |}.

Module IntegrationPipeline.
Definition find_final_checkpoint (checkpoints : list Checkpoint) : option CheckpointRef :=
  to_ref <$> head (filter (λ c, cp_status c = CheckpointStatus.Final) (reverse checkpoints)).

Definition select_strategy (confidence : Confidence.t) : MergeStrategy.t :=
  match confidence with
  | Confidence.High => MergeStrategy.Direct
  | Confidence.Medium => MergeStrategy.Layered
  | Confidence.Low => MergeStrategy.Evaluated
  end.

Definition decide_integration (checkpoint : CheckpointRef) : IntegrationDecision :=
  match cref_confidence checkpoint with
  | Confidence.Low => Revise "Checkpoint confidence is low; please verify and resubmit"
  | c => Accept (select_strategy c)
  end.
End IntegrationPipeline.

Record MergeContext := {
  mc_source_id : WorkspaceId;
  mc_target_id : WorkspaceId;
  mc_source_resources : gset string;
  mc_parent_resources : gset string;
  mc_checkpoint : CheckpointRef;
}.

Inductive MergeResult :=
| MergeSuccess
| MergeConflicts (conflicts : list Conflict).

Module MergeExecutor.
Definition merge_direct (ctx : MergeContext) : MergeResult := MergeSuccess.

(** The conflicts for the resources changed on both sides, described by [describe]. *)
Definition overlap_conflicts `{HashOrder} (describe : string → string) (ctx : MergeContext)
    : list Conflict :=
  (λ resource, {| co_conflict_type := ConflictType.ContentOverlap;
                  co_description := describe resource; co_workspace_id := mc_source_id ctx |})
  <$> set_iter (mc_source_resources ctx ∩ mc_parent_resources ctx).

Definition report (conflicts : list Conflict) : MergeResult :=
  match conflicts with [] => MergeSuccess | _ => MergeConflicts conflicts end.

Definition merge_layered `{HashOrder} (ctx : MergeContext) : MergeResult :=
  report (overlap_conflicts (λ resource,
    "Resource '" +:+ resource +:+ "' modified by both source and prior integration") ctx).

Definition merge_evaluated `{HashOrder} (ctx : MergeContext) : MergeResult :=
  report (overlap_conflicts (λ resource, "Resource '" +:+ resource +:+ "' modified by both") ctx).

Definition execute `{HashOrder} (strategy : MergeStrategy.t) (ctx : MergeContext) : MergeResult :=
  match strategy with
  | MergeStrategy.Direct => merge_direct ctx
  | MergeStrategy.Layered => merge_layered ctx
  | MergeStrategy.Evaluated => merge_evaluated ctx
  end.
End MergeExecutor.

Inductive ConflictResolutionResult :=
| AllResolved (resolutions : list ConflictResolution)
| PendingHuman (resolutions : list ConflictResolution)
| Rework (resolutions : list ConflictResolution).

Module ConflictResolver.
Definition select_strategy (conflict_type : ConflictType.t) : ResolutionStrategy.t :=
  match conflict_type with
  | ConflictType.ContentOverlap => ResolutionStrategy.CoordinatorResolve
  | ConflictType.SemanticContradiction => ResolutionStrategy.Escalate
  | ConflictType.DependencyViolation => ResolutionStrategy.AgentRework
  | ConflictType.ConstraintBreach => ResolutionStrategy.Escalate
  end.

Definition resolve_one (conflict : Conflict) (strategy : ResolutionStrategy.t) : ConflictResolution :=
  {| cres_conflict := conflict; cres_strategy := strategy;
     cres_outcome := strategy_outcome strategy |}.

Fixpoint resolve_loop (conflicts : list Conflict) (resolutions : list ConflictResolution)
    : ConflictResolutionResult :=
  match conflicts with
  | [] => AllResolved resolutions
  | conflict :: rest =>
      let strategy := select_strategy (co_conflict_type conflict) in
      let resolutions := resolutions ++ [resolve_one conflict strategy] in
      match strategy with
      | ResolutionStrategy.CoordinatorResolve => resolve_loop rest resolutions
      | ResolutionStrategy.Escalate => PendingHuman resolutions
      | ResolutionStrategy.AgentRework => Rework resolutions
      end
  end.

Definition resolve_all (conflicts : list Conflict) : ConflictResolutionResult :=
  resolve_loop conflicts [].
End ConflictResolver.

Module SalvageIntegration.
Definition select_checkpoint (checkpoints : list Checkpoint) : option CheckpointRef :=
  match head (filter (λ c, cp_status c = CheckpointStatus.Final) (reverse checkpoints)) with
  | Some cp => Some (to_ref cp)
  | None => to_ref <$> last checkpoints
  end.

Definition execute `{HashOrder} (ctx : MergeContext) : MergeResult := MergeExecutor.merge_evaluated ctx.

Definition apply_confidence_guardrail (cp : CheckpointRef) : CheckpointRef := {|
  cref_checkpoint_id := cref_checkpoint_id cp; cref_content_hash := cref_content_hash cp;
  cref_intent := cref_intent cp; cref_confidence := Confidence.Low |}.

Definition is_applicable (checkpoints : list Checkpoint) : bool :=
  match checkpoints with [] => false | _ => true end.
End SalvageIntegration.

(** ** The queue *)

Inductive queue_op := QPush (id : WorkspaceId) | QTake | QComplete.

(** The workspaces handed out by a sequence of operations. *)
Fixpoint queue_run (q : IntegrationQueue.t) (ops : list queue_op) : IntegrationQueue.t * list WorkspaceId :=
  match ops with
  | [] => (q, [])
  | QPush id :: ops => queue_run (IntegrationQueue.push q id) ops
  | QTake :: ops =>
      let '(q, r) := IntegrationQueue.take_next q in
      let '(q, taken) := queue_run q ops in
      (q, option_list r ++ taken)
  | QComplete :: ops => queue_run (IntegrationQueue.complete q) ops
  end.

Definition pushed_ids (ops : list queue_op) : list WorkspaceId :=
  omap (λ op, match op with QPush id => Some id | _ => None end) ops.

Lemma queue_run_fifo ops q :
  IntegrationQueue.pending q ++ pushed_ids ops
  = (queue_run q ops).2 ++ IntegrationQueue.pending (queue_run q ops).1.
Proof.
  revert q. induction ops as [|[id| |] ops IH]; intros q; cbn [queue_run].
  - cbn. by rewrite app_nil_r.
  - change (pushed_ids (QPush id :: ops)) with (id :: pushed_ids ops).
    rewrite <- IH. cbn. by rewrite <- app_assoc.
  - change (pushed_ids (QTake :: ops)) with (pushed_ids ops). unfold IntegrationQueue.take_next.
    destruct (IntegrationQueue.in_progress q) as [w|], (IntegrationQueue.pending q) as [|id rest] eqn:Hp;
      match goal with |- context [queue_run ?q ops] => specialize (IH q) end;
      cbn [IntegrationQueue.pending] in IH; rewrite ?Hp in IH;
      destruct (queue_run _ ops); cbn in *; by rewrite IH.
  - apply (IH (IntegrationQueue.complete q)).
Qed.

Lemma queue_run_exclusive ops q :
  QComplete ∉ ops →
  (length (queue_run q ops).2 ≤ if IntegrationQueue.is_active q then 0 else 1)%nat.
Proof.
  revert q. induction ops as [|[id| |] ops IH]; intros q Hno; cbn [queue_run].
  - cbn. lia.
  - apply (IH (IntegrationQueue.push q id)). set_solver.
  - assert (QComplete ∉ ops) as Hno' by set_solver.
    unfold IntegrationQueue.take_next, IntegrationQueue.is_active in *.
    destruct (IntegrationQueue.in_progress q) as [w|] eqn:Hq; [|destruct (IntegrationQueue.pending q) as [|id rest]];
      match goal with |- context [queue_run ?q ops] => specialize (IH q Hno') end;
      cbn [IntegrationQueue.in_progress] in IH; rewrite ?Hq in IH; cbn in IH;
      destruct (queue_run _ ops); cbn in *; lia.
  - set_solver.
Qed.

(** ** Resolution *)

Definition is_overlap (c : Conflict) : bool :=
  match co_conflict_type c with ConflictType.ContentOverlap => true | _ => false end.

Definition resolved (c : Conflict) : ConflictResolution :=
  ConflictResolver.resolve_one c (ConflictResolver.select_strategy (co_conflict_type c)).

Lemma resolve_loop_overlaps cs rest acc :
  Forall (λ c, is_overlap c = true) cs →
  ConflictResolver.resolve_loop (cs ++ rest) acc
  = ConflictResolver.resolve_loop rest (acc ++ (resolved <$> cs)).
Proof.
  intros Hcs. revert acc. induction Hcs as [|c cs Hc _ IH]; intros acc; cbn; [by rewrite app_nil_r|].
  assert (co_conflict_type c = ConflictType.ContentOverlap) as Ht
    by (unfold is_overlap in Hc; by destruct (co_conflict_type c)).
  assert (resolved c = ConflictResolver.resolve_one c ResolutionStrategy.CoordinatorResolve) as ->
    by (unfold resolved; by rewrite Ht).
  rewrite Ht. cbn. by rewrite IH, <- app_assoc.
Qed.

Lemma overlap_conflicts_spec `{HashOrder} describe ctx :
  let cs := MergeExecutor.overlap_conflicts describe ctx in
  length cs = size (mc_source_resources ctx ∩ mc_parent_resources ctx) ∧
  Forall (λ c, is_overlap c = true ∧ co_workspace_id c = mc_source_id ctx) cs ∧
  co_description <$> cs = describe <$> set_iter (mc_source_resources ctx ∩ mc_parent_resources ctx).
Proof.
  cbn zeta. unfold MergeExecutor.overlap_conflicts. split_and!.
  - rewrite length_fmap. unfold set_iter. rewrite length_fmap, length_hash_iter.
    rewrite <- (size_dom (D := gset string)). by rewrite dom_gset_to_gmap.
  - apply Forall_fmap, Forall_true. done.
  - by rewrite <- list_fmap_compose.
Qed.

Lemma report_spec cs :
  MergeExecutor.report cs = MergeSuccess ∧ cs = [] ∨ MergeExecutor.report cs = MergeConflicts cs ∧ cs ≠ [].
Proof. destruct cs; [by left|by right]. Qed.

(** The changed resources of both sides. *)
Abbreviation overlap ctx := (mc_source_resources ctx ∩ mc_parent_resources ctx).

Lemma merge_report `{HashOrder} describe ctx :
  match MergeExecutor.report (MergeExecutor.overlap_conflicts describe ctx) with
  | MergeSuccess => overlap ctx = ∅
  | MergeConflicts cs => overlap ctx ≠ ∅ ∧ length cs = size (overlap ctx) ∧
      Forall (λ c, is_overlap c = true ∧ co_workspace_id c = mc_source_id ctx) cs ∧
      ConflictResolver.resolve_all cs = AllResolved (resolved <$> cs)
  end.
Proof.
  destruct (overlap_conflicts_spec describe ctx) as (Hlen & Hall & _).
  set (cs := MergeExecutor.overlap_conflicts describe ctx) in *. clearbody cs.
  destruct (report_spec cs) as [[-> Hnil]|[-> Hne]].
  - rewrite Hnil in Hlen. apply leibniz_equiv, size_empty_iff. done.
  - split_and!; [|done|done|].
    + intros Hempty. rewrite Hempty, size_empty in Hlen. by destruct cs.
    + unfold ConflictResolver.resolve_all. rewrite <- (app_nil_r cs) at 1.
      rewrite resolve_loop_overlaps; [done|]. eapply Forall_impl; [exact Hall|]. by intros ? [? _].
Qed.

(** ** Properties *)

(** The integration queue hands out workspaces in the order they were pushed,
    each once and none lost, and never hands out a second one before the current
    integration is completed. *)
Theorem integration_queue_sequential ops :
  (let '(q, taken) := queue_run IntegrationQueue.new ops in
   pushed_ids ops = taken ++ IntegrationQueue.pending q) ∧
  (∀ q, QComplete ∉ ops →
     (length (queue_run q ops).2 ≤ if IntegrationQueue.is_active q then 0 else 1)%nat).
Proof.
  split.
  - pose proof (queue_run_fifo ops IntegrationQueue.new) as Hf.
    by destruct (queue_run IntegrationQueue.new ops).
  - intros q. apply queue_run_exclusive.
Qed.

(** A merge other than a direct one reports one content-overlap conflict of
    the source workspace per resource changed on both sides, or succeeds when there
    is none; a direct merge always succeeds.  The reported conflicts are all
    resolved by the coordinator.  In general resolution works through the leading
    overlaps and stops at the first other conflict, with rework for a dependency
    violation and a human decision otherwise. *)
Theorem merge_conflicts_exact `{HashOrder} strategy ctx :
  (match MergeExecutor.execute strategy ctx with
   | MergeSuccess => strategy = MergeStrategy.Direct ∨ overlap ctx = ∅
   | MergeConflicts cs => strategy ≠ MergeStrategy.Direct ∧ length cs = size (overlap ctx) ∧
       Forall (λ c, is_overlap c = true ∧ co_workspace_id c = mc_source_id ctx) cs ∧
       ConflictResolver.resolve_all cs = AllResolved (resolved <$> cs)
   end) ∧
  (strategy ≠ MergeStrategy.Direct → overlap ctx ≠ ∅ → MergeExecutor.execute strategy ctx ≠ MergeSuccess) ∧
  (∀ cs c rest, Forall (λ c, is_overlap c = true) cs → is_overlap c = false →
     ConflictResolver.resolve_all (cs ++ c :: rest) =
     match co_conflict_type c with
     | ConflictType.DependencyViolation => Rework (resolved <$> (cs ++ [c]))
     | _ => PendingHuman (resolved <$> (cs ++ [c]))
     end).
Proof.
  split_and!.
  - destruct strategy; cbn; [by left| |]; unfold MergeExecutor.merge_layered, MergeExecutor.merge_evaluated;
      match goal with |- context [MergeExecutor.overlap_conflicts ?d ctx] => pose proof (merge_report d ctx) as Hm end;
      case_match; naive_solver.
  - intros Hne Hov Hs. destruct strategy; [done| |]; cbn in Hs;
      unfold MergeExecutor.merge_layered, MergeExecutor.merge_evaluated in Hs;
      match type of Hs with context [MergeExecutor.overlap_conflicts ?d ctx] => pose proof (merge_report d ctx) as Hm end;
      by rewrite Hs in Hm.
  - intros cs c rest Hcs Hc. unfold ConflictResolver.resolve_all. rewrite resolve_loop_overlaps by done.
    rewrite fmap_app. cbn. change (resolved c) with
      (ConflictResolver.resolve_one c (ConflictResolver.select_strategy (co_conflict_type c))).
    unfold is_overlap in Hc. by destruct (co_conflict_type c).
Qed.
