(* ===== verification/Migration.v ===== *)
(** * Migration tracking (wacp-coordinator: migration.rs)

    The table of active agent migrations with its preconditions, snapshots,
    timeouts and trail events. *)

From S2P Require Import Prelude Types Workspace.

Record AgentRef := {
  ar_agent_type : string;
  ar_config : option (list Z);
}.

Record MigrationRequest := {
  mr_workspace_id : WorkspaceId;
  mr_new_agent : AgentRef;
  mr_reason : string;
}.

Record MigrationContext := {
  mx_workspace_id : WorkspaceId;
  mx_pre_migration_state : WorkspaceState.t;
  mx_old_agent : string;
  mx_new_agent : AgentRef;
  mx_reason : string;
  mx_snapshot : option MigrationSnapshot;
  mx_started_at_ms : Z;
}.

Inductive MigrationError :=
| WorkspaceNotFound (id : string)
| InvalidState (s : WorkspaceState.t)
| AlreadyMigrating (id : string)
| NotMigrating (id : string)
| SnapshotAlreadySet (id : string).

Record MigrationStartedEvent := {
  mse_workspace_id : WorkspaceId; mse_old_agent : string; mse_new_agent : string;
  mse_reason : string; mse_pre_migration_state : string;
}.

Record MigrationCompletedEvent := {
  mce_workspace_id : WorkspaceId; mce_old_agent : string; mce_new_agent : string;
  mce_duration_ms : Z; mce_restored_state : string;
}.

Record MigrationFailedEvent := {
  mfe_workspace_id : WorkspaceId; mfe_old_agent : string; mfe_new_agent : string;
  mfe_reason : string; mfe_error : string; mfe_failed_at_step : Z; mfe_duration_ms : Z;
}.

Definition mx_with_snapshot (s : MigrationSnapshot) (ctx : MigrationContext) : MigrationContext := {|
  mx_workspace_id := mx_workspace_id ctx; mx_pre_migration_state := mx_pre_migration_state ctx;
  mx_old_agent := mx_old_agent ctx; mx_new_agent := mx_new_agent ctx; mx_reason := mx_reason ctx;
  mx_snapshot := Some s; mx_started_at_ms := mx_started_at_ms ctx |}.

Module MigrationCoordinator.
Record t := Mk {
  active : gmap string MigrationContext;
  timeout_ms : Z;
}.

Definition new (timeout_ms : Z) : t := Mk ∅ timeout_ms.

Definition start (self : t) (request : MigrationRequest) (current_state : WorkspaceState.t)
    (old_agent : string) (now_ms : Z) : t * result MigrationContext MigrationError :=
  match current_state with
  | WorkspaceState.Active | WorkspaceState.Blocked =>
      let ws_key := mr_workspace_id request in
      match active self !! ws_key with
      | Some _ => (self, Err (AlreadyMigrating ws_key))
      | None =>
          let ctx := {| mx_workspace_id := mr_workspace_id request;
                        mx_pre_migration_state := current_state; mx_old_agent := old_agent;
                        mx_new_agent := mr_new_agent request; mx_reason := mr_reason request;
                        mx_snapshot := None; mx_started_at_ms := now_ms |} in
          (Mk (<[ws_key := ctx]> (active self)) (timeout_ms self), Ok ctx)
      end
  | _ => (self, Err (InvalidState current_state))
  end.

Definition get (self : t) (workspace_id : string) : option MigrationContext :=
  active self !! workspace_id.

Definition set_snapshot (self : t) (workspace_id : string) (snapshot : MigrationSnapshot)
    : t * result unit MigrationError :=
  match active self !! workspace_id with
  | None => (self, Err (NotMigrating workspace_id))
  | Some ctx =>
      match mx_snapshot ctx with
      | Some _ => (self, Err (SnapshotAlreadySet workspace_id))
      | None =>
          (Mk (<[workspace_id := mx_with_snapshot snapshot ctx]> (active self)) (timeout_ms self), Ok tt)
      end
  end.

Definition complete (self : t) (workspace_id : string) : t * result MigrationContext MigrationError :=
  (Mk (delete workspace_id (active self)) (timeout_ms self),
   ok_or (active self !! workspace_id) (NotMigrating workspace_id)).

Definition fail (self : t) (workspace_id : string) (error : string) (step : Z)
    : t * result MigrationContext MigrationError :=
  (Mk (delete workspace_id (active self)) (timeout_ms self),
   ok_or (active self !! workspace_id) (NotMigrating workspace_id)).

Definition check_timeouts `{HashOrder} (self : t) (now_ms : Z) : list WorkspaceId :=
  mx_workspace_id <$>
    filter (λ ctx, timeout_ms self ≤ saturating_sub now_ms (mx_started_at_ms ctx)) (values (active self)).

Definition is_migrating (self : t) (workspace_id : string) : bool :=
  bool_decide (is_Some (active self !! workspace_id)).

Definition expected_agent (self : t) (workspace_id : string) : option AgentRef :=
  mx_new_agent <$> active self !! workspace_id.

Definition started_event (ctx : MigrationContext) : MigrationStartedEvent := {|
  mse_workspace_id := mx_workspace_id ctx; mse_old_agent := mx_old_agent ctx;
  mse_new_agent := ar_agent_type (mx_new_agent ctx); mse_reason := mx_reason ctx;
  mse_pre_migration_state := WorkspaceState.debug (mx_pre_migration_state ctx) |}.

Definition completed_event (ctx : MigrationContext) (now_ms : Z) : MigrationCompletedEvent := {|
  mce_workspace_id := mx_workspace_id ctx; mce_old_agent := mx_old_agent ctx;
  mce_new_agent := ar_agent_type (mx_new_agent ctx);
  mce_duration_ms := saturating_sub now_ms (mx_started_at_ms ctx);
  mce_restored_state := WorkspaceState.debug (mx_pre_migration_state ctx) |}.

Definition failed_event (ctx : MigrationContext) (error : string) (step now_ms : Z)
    : MigrationFailedEvent := {|
  mfe_workspace_id := mx_workspace_id ctx; mfe_old_agent := mx_old_agent ctx;
  mfe_new_agent := ar_agent_type (mx_new_agent ctx); mfe_reason := mx_reason ctx;
  mfe_error := error; mfe_failed_at_step := step;
  mfe_duration_ms := saturating_sub now_ms (mx_started_at_ms ctx) |}.
End MigrationCoordinator.
