(* ===== verification/Orchestrator.v ===== *)
(** * Coordinator event loop (wacp-coordinator: orchestrator.rs)

    The coordinator owns the tree, the task graph, the migration table and a handle
    per workspace actor.  Sending through a handle appends to [outbox], the commands
    in the order the coordinator sent them; a handle whose actor is gone refuses.
    The theorem follows one migration through coordinator and actor, with what arrives at
    the actor in between. *)

From S2P Require Import Prelude Types Fsm Tree TaskGraph Integration Workspace Migration.

(** A handle; its two senders are represented by whether the actor still receives. *)
Record WorkspaceHandle := {
  wh_id : WorkspaceId;
  wh_open : bool;
}.

Record DispatchRequest := {
  dr_task_id : TaskId;
  dr_config : WorkspaceConfig;
}.

Module Coordinator.
Record t := Mk {
  tree : WorkspaceTree.t;
  task_graph : TaskGraph.t;
  migration : MigrationCoordinator.t;
  workspace_handles : gmap string WorkspaceHandle;
  last_checkpoint : gmap string Checkpoint;
  outbox : list (WorkspaceId * CoordinatorCommand);
}.

Definition new (root_id : WorkspaceId) (owner : UserId) : t :=
  Mk (WorkspaceTree.new root_id owner) TaskGraph.new (MigrationCoordinator.new 60000) ∅ ∅ [].

Definition with_tree (tr : WorkspaceTree.t) (self : t) : t :=
  Mk tr (task_graph self) (migration self) (workspace_handles self) (last_checkpoint self) (outbox self).

Definition with_migration (m : MigrationCoordinator.t) (self : t) : t :=
  Mk (tree self) (task_graph self) m (workspace_handles self) (last_checkpoint self) (outbox self).

Definition dispatch (self : t) (request : DispatchRequest) : t :=
  let config := dr_config request in
  let ws_id := wc_id config in
  let node := {| node_id := ws_id; node_parent := Some (wc_parent config); node_children := [];
                 node_owner := wc_owner config; node_originator := wc_originator config;
                 node_status := WorkspaceState.Idle; node_task_id := Some (dr_task_id request) |} in
  Mk (WorkspaceTree.insert (tree self) node).1 (task_graph self) (migration self)
     (<[ws_id := {| wh_id := ws_id; wh_open := true |}]> (workspace_handles self))
     (last_checkpoint self) (outbox self).

(** [handle.coordinator_tx.send(cmd).await.is_ok()] *)
Definition send (self : t) (handle : WorkspaceHandle) (cmd : CoordinatorCommand) : t * bool :=
  if wh_open handle
  then (Mk (tree self) (task_graph self) (migration self) (workspace_handles self)
           (last_checkpoint self) (outbox self ++ [(wh_id handle, cmd)]), true)
  else (self, false).

Definition send_to (self : t) (id : WorkspaceId) (cmd : CoordinatorCommand) : t * bool :=
  match workspace_handles self !! id with
  | Some handle => send self handle cmd
  | None => (self, false)
  end.

Definition integration_command (checkpoint : option Checkpoint) (workspace_id : WorkspaceId)
    : CoordinatorCommand :=
  match checkpoint with
  | Some checkpoint =>
      match IntegrationEngine.integrate
              {| ir_workspace_id := workspace_id; ir_strategy := MergeStrategy.Direct;
                 ir_mode := IntegrationMode.Normal; ir_checkpoint := checkpoint |} with
      | IntegrationSuccess => IntegrationSucceededCmd
      | IntegrationConflict _ => ConflictDetectedCmd
      | IntegrationFailure _ => IntegrationFailedCmd
      end
  | None => IntegrationSucceededCmd
  end.

Definition auto_integrate (self : t) (workspace_id : WorkspaceId) : t :=
  match workspace_handles self !! workspace_id with
  | None => self
  | Some handle =>
      (send self handle (integration_command (last_checkpoint self !! workspace_id) workspace_id)).1
  end.

(** [None]: the traversal of a failure cascade ran out of fuel. *)
Definition handle_event (self : t) (event : WorkspaceEvent) : option t :=
  match event with
  | StateChanged workspace_id _ to =>
      let self := with_tree (WorkspaceTree.update_status (tree self) workspace_id to) self in
      self ← (if decide (to = WorkspaceState.Failed)
              then '(tr, _) ← WorkspaceTree.cascade_failure (tree self) workspace_id;
                   Some (with_tree tr self)
              else Some self);
      Some (if decide (to = WorkspaceState.Integrating) then auto_integrate self workspace_id else self)
  | CheckpointCreated cp =>
      Some (Mk (tree self) (task_graph self) (migration self) (workspace_handles self)
               (<[cp_workspace_id cp := cp]> (last_checkpoint self)) (outbox self))
  | Terminated archived =>
      Some (Mk (WorkspaceTree.update_status (tree self) (aw_id archived) (aw_terminal_state archived))
               (task_graph self) (migration self) (delete (aw_id archived) (workspace_handles self))
               (delete (aw_id archived) (last_checkpoint self)) (outbox self))
  | EvMigrationSnapshot workspace_id snapshot =>
      Some (with_migration (MigrationCoordinator.set_snapshot (migration self) workspace_id snapshot).1 self)
  | EvSignal _ | EvError _ _ => Some self
  end.

Definition route_envelope (self : t) (to : WorkspaceId) (envelope : Envelope) : t * bool :=
  send_to self to (DeliverEnvelope envelope).

Definition abort_workspace (self : t) (id : WorkspaceId) : t * bool := send_to self id Abort.

Definition handle (self : t) (id : WorkspaceId) : option WorkspaceHandle :=
  workspace_handles self !! id.

Definition start_migration (self : t) (request : MigrationRequest) (old_agent : string) (now_ms : Z)
    : t * result unit MigrationError :=
  let ws_id := mr_workspace_id request in
  match WorkspaceTree.get (tree self) ws_id with
  | None => (self, Err (WorkspaceNotFound ws_id))
  | Some node =>
      match MigrationCoordinator.start (migration self) request (node_status node) old_agent now_ms with
      | (m, Err e) => (with_migration m self, Err e)
      | (m, Ok _) => ((send_to (with_migration m self) ws_id MigrateBegin).1, Ok tt)
      end
  end.

Definition complete_migration (self : t) (workspace_id : WorkspaceId) : t * option MigrationContext :=
  match MigrationCoordinator.get (migration self) workspace_id with
  | None => (self, None)
  | Some ctx =>
      let restore_blocked := bool_decide (mx_pre_migration_state ctx = WorkspaceState.Blocked) in
      let self := (send_to self workspace_id (MigrationComplete restore_blocked)).1 in
      let '(m, r) := MigrationCoordinator.complete (migration self) workspace_id in
      (with_migration m self, match r with Ok ctx => Some ctx | Err _ => None end)
  end.

Definition fail_migration (self : t) (workspace_id : WorkspaceId) (error : string) (step : Z)
    : t * option MigrationContext :=
  let '(m, r) := MigrationCoordinator.fail (migration self) workspace_id error step in
  let self := with_migration m self in
  match r with
  | Err _ => (self, None)
  | Ok ctx => ((send_to self workspace_id MigrationFailedCmd).1, Some ctx)
  end.
End Coordinator.

(** ** A migration from start to end *)

(** The coordinator receives the events an actor sent, in order. *)
Definition receive (self : Coordinator.t) (events : list WorkspaceEvent) : option Coordinator.t :=
  foldl (λ c e, c ← c; Coordinator.handle_event c e) (Some self) events.

(** The actor receives the commands sent to it. *)
Definition deliver (a : WorkspaceActor.t) (commands : list CoordinatorCommand)
    : WorkspaceActor.t * list WorkspaceEvent :=
  foldl (λ '(a, events) cmd,
           let '(a, more) := WorkspaceActor.handle_coordinator_cmd a cmd in (a, events ++ more))
    (a, []) commands.

Definition sent_to (ws : WorkspaceId) (before after : Coordinator.t) : list CoordinatorCommand :=
  snd <$> filter (λ m, m.1 = ws) (drop (length (Coordinator.outbox before)) (Coordinator.outbox after)).

(** Coordinator and actor agree on the workspace: the tree node has the actor's
    status and the handle reaches the actor. *)
Record in_step (c : Coordinator.t) (a : WorkspaceActor.t) (ws : WorkspaceId) : Prop := {
  is_id : WsState.id (WorkspaceActor.state a) = ws;
  is_handle : Coordinator.workspace_handles c !! ws = Some {| wh_id := ws; wh_open := true |};
  is_status : node_status <$> WorkspaceTree.get (Coordinator.tree c) ws
              = Some (WsState.status (WorkspaceActor.state a));
}.

Lemma get_update_status tr ws s :
  node_status <$> WorkspaceTree.get (WorkspaceTree.update_status tr ws s) ws
  = (λ _, s) <$> WorkspaceTree.get tr ws.
Proof.
  unfold WorkspaceTree.get, WorkspaceTree.update_status; cbn. rewrite lookup_alter_eq.
  by destruct (WorkspaceTree.nodes tr !! ws).
Qed.

Lemma handle_event_status c ws from to :
  to ≠ WorkspaceState.Failed → to ≠ WorkspaceState.Integrating →
  Coordinator.handle_event c (StateChanged ws from to)
  = Some (Coordinator.with_tree (WorkspaceTree.update_status (Coordinator.tree c) ws to) c).
Proof.
  intros ??. unfold Coordinator.handle_event.
  rewrite (decide_False (P := to = WorkspaceState.Failed)) by done. cbn [mbind option_bind].
  by rewrite (decide_False (P := to = WorkspaceState.Integrating)) by done.
Qed.

Lemma sent_to_one ws before after m :
  Coordinator.outbox after = Coordinator.outbox before ++ [(ws, m)] → sent_to ws before after = [m].
Proof. intros E. unfold sent_to. by rewrite E, drop_app_length, filter_cons_True, filter_nil. Qed.

(** What reaches the actor while it migrates: messages of the agent, and commands from
    whoever holds its handle. *)
Inductive meanwhile :=
| FromAgent (m : AgentMessage)
| FromHandle (cmd : CoordinatorCommand).

Definition arrive (a : WorkspaceActor.t) (x : meanwhile) : WorkspaceActor.t * list WorkspaceEvent :=
  match x with
  | FromAgent m => WorkspaceActor.handle_agent_msg a m
  | FromHandle cmd => WorkspaceActor.handle_coordinator_cmd a cmd
  end.

Definition arrive_all (a : WorkspaceActor.t) (xs : list meanwhile) : WorkspaceActor.t * list WorkspaceEvent :=
  foldl (λ '(a, events) x, let '(a, more) := arrive a x in (a, events ++ more)) (a, []) xs.

Definition commands_of (xs : list meanwhile) : list CoordinatorCommand :=
  omap (λ x, match x with FromHandle cmd => Some cmd | FromAgent _ => None end) xs.

(** The commands that are not about the lifecycle. *)
Definition passive (cmd : CoordinatorCommand) : bool :=
  match cmd with
  | GrantVisibility _ | UpdateBudget _ | DeliverEnvelope _ | GracefulTermination _ => true
  | _ => false
  end.

(** Start, what arrives meanwhile, then completion; every command reaches the actor and
    every event the coordinator. *)
Definition run_migration (c : Coordinator.t) (a : WorkspaceActor.t) (request : MigrationRequest)
    (old_agent : string) (now_ms : Z) (xs : list meanwhile)
    : option (Coordinator.t * WorkspaceActor.t * option MigrationContext) :=
  let ws := mr_workspace_id request in
  let c1 := (Coordinator.start_migration c request old_agent now_ms).1 in
  let '(a1, events) := deliver a (sent_to ws c c1) in
  c2 ← receive c1 events;
  let '(a2, events) := arrive_all a1 xs in
  c3 ← receive c2 events;
  let '(c4, ctx) := Coordinator.complete_migration c3 ws in
  let '(a3, events) := deliver a2 (sent_to ws c3 c4) in
  c5 ← receive c4 events;
  Some (c5, a3, ctx).

Definition away (a : WorkspaceActor.t) : WorkspaceActor.t :=
  WorkspaceActor.with_state (WsState.with_status WorkspaceState.Migrating (WorkspaceActor.state a)) a.

(** A passive command does the same to a workspace that is away, and is answered by
    nothing but that. *)
Lemma passive_away a cmd :
  passive cmd = true → WsState.status (WorkspaceActor.state a) ≠ WorkspaceState.Idle →
  let a' := (WorkspaceActor.handle_coordinator_cmd a cmd).1 in
  WorkspaceActor.handle_coordinator_cmd a cmd = (a', [])
  ∧ WorkspaceActor.handle_coordinator_cmd (away a) cmd = (away a', [])
  ∧ WsState.status (WorkspaceActor.state a') = WsState.status (WorkspaceActor.state a)
  ∧ WsState.id (WorkspaceActor.state a') = WsState.id (WorkspaceActor.state a).
Proof.
  destruct a as [st first]. intros Hp Hs. destruct cmd; try done. cbn in Hs.
  unfold WorkspaceActor.handle_coordinator_cmd. cbn [WorkspaceActor.state WorkspaceActor.first_envelope_received away
    WorkspaceActor.with_state].
  change (WsState.is_envelope_delivered (WsState.with_status WorkspaceState.Migrating st) (env_id envelope))
    with (WsState.is_envelope_delivered st (env_id envelope)).
  destruct (WsState.is_envelope_delivered st (env_id envelope)); [done|].
  rewrite (bool_decide_false (WsState.status st = WorkspaceState.Idle)) by done. rewrite !andb_false_r. done.
Qed.

(** While the workspace is away the agent is not heard, and passive commands take effect
    as if it were there. *)
Lemma arrive_all_away xs a events :
  Forall (λ cmd, passive cmd = true) (commands_of xs) →
  WsState.status (WorkspaceActor.state a) ≠ WorkspaceState.Idle →
  let a' := (deliver a (commands_of xs)).1 in
  foldl (λ '(a, events) x, let '(a, more) := arrive a x in (a, events ++ more)) (away a, events) xs = (away a', events)
  ∧ WsState.status (WorkspaceActor.state a') = WsState.status (WorkspaceActor.state a)
  ∧ WsState.id (WorkspaceActor.state a') = WsState.id (WorkspaceActor.state a).
Proof.
  revert a events. induction xs as [|[m|cmd] xs IH]; intros a events Hp Hs; [done|..]; cbn [foldl arrive].
  - unfold WorkspaceActor.handle_agent_msg. rewrite decide_True by done. rewrite app_nil_r. by apply IH.
  - apply Forall_cons in Hp as [Hc Hp]. destruct (passive_away a cmd Hc Hs) as (Hh & -> & Hst & Hid).
    rewrite app_nil_r. set (a1 := (WorkspaceActor.handle_coordinator_cmd a cmd).1) in *.
    destruct (IH a1 events Hp) as (-> & Hst' & Hid'); [by rewrite Hst|].
    assert (Hd : (deliver a (commands_of (FromHandle cmd :: xs))).1 = (deliver a1 (commands_of xs)).1).
    { change (commands_of (FromHandle cmd :: xs)) with (cmd :: commands_of xs). unfold deliver. cbn [foldl]. by rewrite Hh. }
    rewrite Hd. split_and!; [done|congruence..].
Qed.

Lemma active_or_blocked s :
  s ∈ [WorkspaceState.Active; WorkspaceState.Blocked] →
  s = WorkspaceState.Active ∨ s = WorkspaceState.Blocked.
Proof. set_solver. Qed.

Lemma start_migration_ok c a ws request old_agent now_ms :
  in_step c a ws → mr_workspace_id request = ws →
  WsState.status (WorkspaceActor.state a) ∈ [WorkspaceState.Active; WorkspaceState.Blocked] →
  MigrationCoordinator.active (Coordinator.migration c) !! ws = None →
  Coordinator.start_migration c request old_agent now_ms
  = (Coordinator.Mk (Coordinator.tree c) (Coordinator.task_graph c)
       (MigrationCoordinator.Mk
          (<[ws := {| mx_workspace_id := ws;
                      mx_pre_migration_state := WsState.status (WorkspaceActor.state a);
                      mx_old_agent := old_agent; mx_new_agent := mr_new_agent request;
                      mx_reason := mr_reason request; mx_snapshot := None;
                      mx_started_at_ms := now_ms |}]> (MigrationCoordinator.active (Coordinator.migration c)))
          (MigrationCoordinator.timeout_ms (Coordinator.migration c)))
       (Coordinator.workspace_handles c) (Coordinator.last_checkpoint c)
       (Coordinator.outbox c ++ [(ws, MigrateBegin)]), Ok tt).
Proof.
  intros [Hid Hh Hs] <- Hst Hm. unfold Coordinator.start_migration.
  destruct (WorkspaceTree.get _ _) as [n|]; cbn in Hs; [|done].
  injection Hs as Hs. rewrite Hs. unfold MigrationCoordinator.start. rewrite Hm.
  unfold Coordinator.send_to, Coordinator.send.
  cbn [Coordinator.workspace_handles Coordinator.with_migration]. rewrite Hh.
  by apply active_or_blocked in Hst as [-> | ->].
Qed.

(** Taking the snapshot event and the status change into the coordinator. *)
Lemma receive_migrating c ws from ctx snapshot :
  MigrationCoordinator.active (Coordinator.migration c) !! ws = Some ctx → mx_snapshot ctx = None →
  receive c [StateChanged ws from WorkspaceState.Migrating; EvMigrationSnapshot ws snapshot]
  = Some (Coordinator.Mk
            (WorkspaceTree.update_status (Coordinator.tree c) ws WorkspaceState.Migrating)
            (Coordinator.task_graph c)
            (MigrationCoordinator.Mk
               (<[ws := mx_with_snapshot snapshot ctx]> (MigrationCoordinator.active (Coordinator.migration c)))
               (MigrationCoordinator.timeout_ms (Coordinator.migration c)))
            (Coordinator.workspace_handles c) (Coordinator.last_checkpoint c) (Coordinator.outbox c)).
Proof.
  intros Hc Hs. unfold receive. cbn [foldl mbind option_bind].
  rewrite handle_event_status by done. cbn [mbind option_bind Coordinator.handle_event].
  unfold MigrationCoordinator.set_snapshot. cbn [Coordinator.migration Coordinator.with_tree].
  by rewrite Hc, Hs.
Qed.

Lemma complete_migration_ok c ws ctx :
  MigrationCoordinator.active (Coordinator.migration c) !! ws = Some ctx →
  Coordinator.workspace_handles c !! ws = Some {| wh_id := ws; wh_open := true |} →
  Coordinator.complete_migration c ws
  = (Coordinator.Mk (Coordinator.tree c) (Coordinator.task_graph c)
       (MigrationCoordinator.Mk (delete ws (MigrationCoordinator.active (Coordinator.migration c)))
          (MigrationCoordinator.timeout_ms (Coordinator.migration c)))
       (Coordinator.workspace_handles c) (Coordinator.last_checkpoint c)
       (Coordinator.outbox c
          ++ [(ws, MigrationComplete (bool_decide (mx_pre_migration_state ctx = WorkspaceState.Blocked)))]),
     Some ctx).
Proof.
  intros Hc Hh. unfold Coordinator.complete_migration, MigrationCoordinator.get. rewrite Hc.
  unfold Coordinator.send_to. rewrite Hh. cbn.  by rewrite Hc.
Qed.

Lemma update_status_twice tr ws s s' :
  WorkspaceTree.update_status (WorkspaceTree.update_status tr ws s) ws s'
  = WorkspaceTree.update_status tr ws s'.
Proof.
  unfold WorkspaceTree.update_status, WorkspaceTree.with_nodes. cbn. f_equal.
  apply map_eq. intros k. destruct (decide (ws = k)) as [-> | Hk].
  - rewrite !lookup_alter_eq. by destruct (_ !! k).
  - by rewrite !lookup_alter_ne.
Qed.

(** The actor's side: out to Migrating with a snapshot, and back. *)
Lemma actor_migrates a :
  WsState.status (WorkspaceActor.state a) ∈ [WorkspaceState.Active; WorkspaceState.Blocked] →
  let st := WorkspaceActor.state a in
  let s := WsState.status st in
  deliver a [MigrateBegin]
  = (away a, [StateChanged (WsState.id st) s WorkspaceState.Migrating;
            EvMigrationSnapshot (WsState.id st) (WsState.capture_snapshot st)])
  ∧ deliver (away a) [MigrationComplete (bool_decide (s = WorkspaceState.Blocked))]
    = (a, [StateChanged (WsState.id st) WorkspaceState.Migrating s]).
Proof.
  destruct a as [st fst]. cbn [WorkspaceActor.state].
  intros [Hs | Hs]%active_or_blocked; destruct st; cbn in Hs; subst; done.
Qed.

Lemma update_status_same tr ws s :
  node_status <$> WorkspaceTree.get tr ws = Some s → WorkspaceTree.update_status tr ws s = tr.
Proof.
  unfold WorkspaceTree.get, WorkspaceTree.update_status, WorkspaceTree.with_nodes. intros Hs.
  destruct tr as [nodes]. cbn in *. f_equal. apply map_eq. intros k. destruct (decide (ws = k)) as [-> | Hk].
  - rewrite lookup_alter_eq. destruct (nodes !! k) as [n|]; [|done]. injection Hs as <-. by destruct n.
  - by rewrite lookup_alter_ne.
Qed.

(** What a completed migration leaves of the coordinator: everything but the two commands
    it sent. *)
Definition as_before (c c' : Coordinator.t) (sent : list (WorkspaceId * CoordinatorCommand)) : Prop :=
  c' = Coordinator.Mk (Coordinator.tree c) (Coordinator.task_graph c) (Coordinator.migration c)
         (Coordinator.workspace_handles c) (Coordinator.last_checkpoint c) (Coordinator.outbox c ++ sent).

(** C14. A migration is transparent to the workspace: when an active or blocked workspace
    that is not already migrating is migrated and the migration completes, the actor ends
    in the state it would have had without the migration, whatever the old agent sent in
    between and with every envelope, grant and budget that arrived; lifecycle commands
    that arrive in between are not considered.  The coordinator is as it was, its whole
    tree, task graph, handles and migration table included, but for the two commands sent;
    and the context handed back carries the snapshot of the state before the migration,
    without what arrived in between, and the agent requested. *)
Theorem migration_round_trip (c : Coordinator.t) (a : WorkspaceActor.t) (request : MigrationRequest)
    (old_agent : string) (now_ms : Z) (xs : list meanwhile) :
  let ws := mr_workspace_id request in
  let status := WsState.status (WorkspaceActor.state a) in
  in_step c a ws →
  status ∈ [WorkspaceState.Active; WorkspaceState.Blocked] →
  MigrationCoordinator.is_migrating (Coordinator.migration c) ws = false →
  Forall (λ cmd, passive cmd = true) (commands_of xs) →
  ∃ c' a' ctx,
    run_migration c a request old_agent now_ms xs = Some (c', a', Some ctx)
    ∧ a' = (deliver a (commands_of xs)).1 ∧ in_step c' a' ws
    ∧ as_before c c' [(ws, MigrateBegin); (ws, MigrationComplete (bool_decide (status = WorkspaceState.Blocked)))]
    ∧ ctx = {| mx_workspace_id := ws; mx_pre_migration_state := status; mx_old_agent := old_agent;
               mx_new_agent := mr_new_agent request; mx_reason := mr_reason request;
               mx_snapshot := Some (WsState.capture_snapshot (WorkspaceActor.state a));
               mx_started_at_ms := now_ms |}.
Proof.
  intros ws status Hin Hst Hm Hp.
  assert (Hn : MigrationCoordinator.active (Coordinator.migration c) !! ws = None).
  { unfold MigrationCoordinator.is_migrating in Hm. by apply bool_decide_eq_false, eq_None_not_Some in Hm. }
  unfold run_migration. rewrite (start_migration_ok c a ws) by done. cbn [fst].
  destruct (actor_migrates a Hst) as [Hout _].
  rewrite (sent_to_one _ _ _ MigrateBegin) by done. rewrite Hout, (is_id _ _ _ Hin).
  erewrite receive_migrating; [|apply lookup_insert_eq|done]. cbn [mbind option_bind].
  destruct (arrive_all_away xs a [] Hp) as (Hall & Hst' & Hid').
  { fold status. apply active_or_blocked in Hst as [E | E]; by rewrite E. }
  unfold arrive_all. rewrite Hall. set (a' := (deliver a (commands_of xs)).1) in *.
  cbn [receive foldl mbind option_bind].
  erewrite complete_migration_ok; [|apply lookup_insert_eq|apply (is_handle _ _ _ Hin)].
  erewrite sent_to_one by done. cbn [mx_with_snapshot mx_pre_migration_state].
  destruct (actor_migrates a') as [_ Hback]; [by rewrite Hst'|]. rewrite Hst', Hid', (is_id _ _ _ Hin) in Hback.
  rewrite Hback. cbn [receive foldl mbind option_bind].
  rewrite handle_event_status by (fold status; apply active_or_blocked in Hst as [E | E]; by rewrite E).
  cbn [mbind option_bind]. do 3 eexists. split; [done|]. split; [done|].
  unfold Coordinator.with_tree, as_before. cbn -[WorkspaceTree.update_status].
  rewrite update_status_twice, (update_status_same _ _ _ (is_status _ _ _ Hin)), !delete_insert_eq, delete_id by done.
  split_and!; [|by rewrite <-app_assoc; destruct (Coordinator.migration c)|done].
  split; cbn; [by rewrite Hid', (is_id _ _ _ Hin)|apply Hin|by rewrite Hst'; apply Hin].
Qed.

Definition sample_coordinator : Coordinator.t :=
  default (Coordinator.new "root" "alice")
    (Coordinator.handle_event
       (Coordinator.dispatch (Coordinator.new "root" "alice")
          {| dr_task_id := "t1"; dr_config := sample_config |})
       (StateChanged "ws-1" WorkspaceState.Idle WorkspaceState.Active)).

Definition sample_actor : WorkspaceActor.t :=
  (WorkspaceActor.handle_coordinator_cmd (WorkspaceActor.spawn sample_config)
     (DeliverEnvelope (sample_envelope "e1" EnvelopePriority.Urgent))).1.

Definition sample_migration : MigrationRequest := {|
  mr_workspace_id := "ws-1"; mr_new_agent := {| ar_agent_type := "b"; ar_config := None |};
  mr_reason := "upgrade" |}.

Definition sample_meanwhile : list meanwhile :=
  [FromAgent (EmitSignal SignalType.Complete None None);
   FromHandle (DeliverEnvelope (sample_envelope "e2" EnvelopePriority.Normal))].

Lemma migration_round_trip_witness :
  in_step sample_coordinator sample_actor "ws-1"
  ∧ ∃ c' a' ctx, run_migration sample_coordinator sample_actor sample_migration "a" 5 sample_meanwhile
                 = Some (c', a', Some ctx)
                 ∧ length (WsState.inbox (WorkspaceActor.state a')) = 2%nat.
Proof.
  assert (Hin : in_step sample_coordinator sample_actor "ws-1") by (split; vm_compute; reflexivity).
  split; [exact Hin|].
  destruct (migration_round_trip sample_coordinator sample_actor sample_migration "a" 5 sample_meanwhile Hin)
    as (c' & a' & ctx & E & Ha & _).
  - vm_compute. left.
  - vm_compute. reflexivity.
  - repeat constructor.
  - exists c', a', ctx. split; [exact E|]. rewrite Ha. vm_compute. reflexivity.
Defined.
