(* ===== verification/Handler.v ===== *)
(** * Request handlers and coordinator events (wacp-coordinator: handler.rs, events.rs)

    The agent and highway requests over the coordinator's state, and the event bus.
    The theorems say when sends are accepted and that their ids are new, what the
    task-graph snapshot contains and that building it terminates, who may bind a
    migrating workspace, and what a checkpoint's content hash detects. *)

From S2P Require Import Prelude Types Fsm Visibility PortRights Tree Topology TaskGraph Resource Gate.
From S2P Require Import Workspace Integration Migration.

(** ** Results *)

Record BindResult := {
  br_workspace_id : WorkspaceId;
  br_state : WorkspaceState.t;
  br_role : string;
  br_owner : UserId;
  br_originator : Originator.t;
  br_parent : option WorkspaceId;
  br_task_id : option TaskId;
}.

Record CreateCheckpointResult := {
  ccr_checkpoint_id : CheckpointId;
  ccr_content_hash : string;
}.

Record WorkspaceView := {
  wv_id : WorkspaceId;
  wv_state : WorkspaceState.t;
  wv_parent : option WorkspaceId;
  wv_owner : UserId;
  wv_originator : Originator.t;
  wv_task_id : option TaskId;
}.

Record TaskView := {
  tv_id : TaskId;
  tv_name : string;
  tv_status : TaskStatus.t;
  tv_workspace_ref : option WorkspaceId;
  tv_depends_on : list TaskId;
  tv_parent_task : option TaskId;
}.

Inductive HandlerError :=
| HWorkspaceNotFound (id : WorkspaceId)
| HTaskNotFound (id : TaskId)
| PermissionDenied (why : string)
| NoSendRight (target : WorkspaceId)
| GateNotFound.

Definition task_view (task : Task) : TaskView := {|
  tv_id := task_id task; tv_name := task_name task; tv_status := task_status task;
  tv_workspace_ref := task_workspace_ref task; tv_depends_on := task_depends_on task;
  tv_parent_task := task_parent_task task |}.

(** ** The content hash *)

(** One byte: [h ^= b; h = h.wrapping_mul(0x100000001b3)]. *)
Definition hash_byte (h b : Z) : Z := wrap64 (Z.lxor h b * 1099511628211).

Definition md5_like_hash (data : list Z) : Z := fold_left hash_byte data 14695981039346656037.

(** [format!("{:x}", n)] of a [u64]. *)
Definition hex_char (d : Z) : Ascii.ascii :=
  Ascii.ascii_of_N (Z.to_N (if d <? 10 then 48 + d else 87 + d)).

Fixpoint hex_digits (fuel : nat) (n : Z) (acc : string) : string :=
  match fuel with
  | O => acc
  | S fuel => if n =? 0 then acc else hex_digits fuel (n / 16) (String (hex_char (n mod 16)) acc)
  end.

Definition lower_hex (n : Z) : string := if n =? 0 then "0" else hex_digits 16 n "".

(** ** Handlers *)

Module RequestHandler.
Record t := Mk {
  topology : TopologySet.t;
  task_graph : TaskGraph.t;
  gate_controller : GateController.t;
  integration_queue : IntegrationQueue.t;
  timeout_tracker : TimeoutTracker.t;
  liveness_monitor : LivenessMonitor.t;
  migration : MigrationCoordinator.t;
  next_envelope_id : Z;
  next_checkpoint_id : Z;
}.

Definition workspace (self : t) (id : WorkspaceId) : option WorkspaceNode :=
  WorkspaceTree.get (TopologySet.tree (topology self)) id.

Definition with_counters (env cp : Z) (self : t) : t :=
  Mk (topology self) (task_graph self) (gate_controller self) (integration_queue self)
     (timeout_tracker self) (liveness_monitor self) (migration self) env cp.

Definition with_gates (gates : GateController.t) (self : t) : t :=
  Mk (topology self) (task_graph self) gates (integration_queue self)
     (timeout_tracker self) (liveness_monitor self) (migration self)
     (next_envelope_id self) (next_checkpoint_id self).

Definition handle_bind (self : t) (workspace_id : WorkspaceId) (agent_identity : option string)
    : result BindResult HandlerError :=
  let? node := ok_or (workspace self workspace_id) (HWorkspaceNotFound workspace_id) in
  let refused :=
    bool_decide (node_status node = WorkspaceState.Migrating)
    && match MigrationCoordinator.expected_agent (migration self) workspace_id with
       | Some expected => negb (bool_decide (agent_identity = Some (ar_agent_type expected)))
       | None => false
       end in
  if refused then Err (PermissionDenied "migration: agent identity mismatch")
  else Ok {| br_workspace_id := node_id node; br_state := node_status node; br_role := "";
             br_owner := node_owner node; br_originator := node_originator node;
             br_parent := node_parent node; br_task_id := node_task_id node |}.

(** The id taken from the counter. *)
Definition take_envelope_id (self : t) : t * EnvelopeId :=
  (with_counters (wrap64 (next_envelope_id self + 1)) (next_checkpoint_id self) self,
   format_id "env-" (next_envelope_id self)).

Definition handle_send_envelope (self : t) (from_workspace to_workspace : WorkspaceId)
    : t * result EnvelopeId HandlerError :=
  match workspace self from_workspace with
  | None => (self, Err (HWorkspaceNotFound from_workspace))
  | Some _ =>
      match workspace self to_workspace with
      | None => (self, Err (HWorkspaceNotFound to_workspace))
      | Some _ =>
          match PortRightsGraph.validate_send (TopologySet.port_rights (topology self))
                  from_workspace to_workspace with
          | Err _ => (self, Err (NoSendRight to_workspace))
          | Ok _ => let '(self, id) := take_envelope_id self in (self, Ok id)
          end
      end
  end.

Definition handle_emit_signal (self : t) (workspace_id : WorkspaceId) : result bool HandlerError :=
  match workspace self workspace_id with
  | None => Err (HWorkspaceNotFound workspace_id)
  | Some _ => Ok true
  end.

Definition handle_create_checkpoint (self : t) (workspace_id : WorkspaceId) (payload : list Z)
    : t * result CreateCheckpointResult HandlerError :=
  match workspace self workspace_id with
  | None => (self, Err (HWorkspaceNotFound workspace_id))
  | Some _ =>
      (with_counters (next_envelope_id self) (wrap64 (next_checkpoint_id self + 1)) self,
       Ok {| ccr_checkpoint_id := format_id "cp-" (next_checkpoint_id self);
             ccr_content_hash := lower_hex (md5_like_hash payload) |})
  end.

Definition handle_get_workspace (self : t) (workspace_id : WorkspaceId) : result WorkspaceView HandlerError :=
  let? node := ok_or (workspace self workspace_id) (HWorkspaceNotFound workspace_id) in
  Ok {| wv_id := node_id node; wv_state := node_status node; wv_parent := node_parent node;
        wv_owner := node_owner node; wv_originator := node_originator node;
        wv_task_id := node_task_id node |}.

(** The loop over the queue; [None] is exhausted fuel. *)
Fixpoint visit (fuel : nat) (g : TaskGraph.t) (visited : gset string) (queue : list TaskId)
    (tasks : list TaskView) : option (list TaskView) :=
  match queue with
  | [] => Some tasks
  | tid :: queue =>
      match fuel with
      | O => None
      | S fuel =>
          if decide (tid ∈ visited) then visit fuel g visited queue tasks
          else
            let visited := {[tid]} ∪ visited in
            match TaskGraph.get g tid with
            | Some task =>
                visit fuel g visited (queue ++ TaskGraph.dependents g tid) (tasks ++ [task_view task])
            | None => visit fuel g visited queue tasks
            end
      end
  end.

(** Each task is expanded once, so the queue never holds more than the roots and all
    dependents. *)
Definition visit_fuel `{HashOrder} (g : TaskGraph.t) : nat :=
  length (TaskGraph.roots g)
  + sum_list_with (λ tid, length (TaskGraph.dependents g tid)) (map_to_list (TaskGraph.tasks g)).*1.

Definition handle_get_task_graph `{HashOrder} (self : t) : option (list TaskView) :=
  visit (visit_fuel (task_graph self)) (task_graph self) ∅ (TaskGraph.roots (task_graph self)) [].

Definition handle_inject_envelope (self : t) (to_workspace : WorkspaceId)
    : t * result EnvelopeId HandlerError :=
  match workspace self to_workspace with
  | None => (self, Err (HWorkspaceNotFound to_workspace))
  | Some _ => let '(self, id) := take_envelope_id self in (self, Ok id)
  end.

Definition handle_gate_response (self : t) (gate_id : GateId) (decision : GateDecision.t)
    : t * result (option GateResolution) HandlerError :=
  let '(gates, r) := GateController.resolve (gate_controller self) gate_id decision in
  (with_gates gates self, Ok r).
End RequestHandler.

(** ** Events *)

Inductive CoordinatorEvent :=
| TrailEntryEvent (workspace_id : option WorkspaceId) (event_type : string) (sequence : Z)
| GateOpened (e : GateEvent)
| EscalationRaised (e : EscalationEvent)
| WorkspaceStateChanged (workspace_id : WorkspaceId) (from to : WorkspaceState.t)
| TaskStatusChanged (task_id : TaskId) (from to : TaskStatus.t).

Module EventBus.
(** A subscriber is represented by the events its callback was called with. *)
Record t := Mk {
  subscribers : list (list CoordinatorEvent);
  buffer : list CoordinatorEvent;
  buffering : bool;
}.

Definition new (buffering : bool) : t := Mk [] [] buffering.

Definition subscribe (self : t) : t := Mk (subscribers self ++ [[]]) (buffer self) (buffering self).

Definition emit (self : t) (event : CoordinatorEvent) : t :=
  Mk ((λ received, received ++ [event]) <$> subscribers self)
     (if buffering self then buffer self ++ [event] else buffer self) (buffering self).

Definition drain (self : t) : t * list CoordinatorEvent :=
  (Mk (subscribers self) [] (buffering self), buffer self).
End EventBus.

(** ** Delivery of events *)

Inductive bus_op := Subscribe | Emit (e : CoordinatorEvent) | Drain.

(** The bus after a history, and the events drained on the way. *)
Fixpoint bus_run (b : EventBus.t) (ops : list bus_op) : EventBus.t * list CoordinatorEvent :=
  match ops with
  | [] => (b, [])
  | Subscribe :: ops => bus_run (EventBus.subscribe b) ops
  | Emit e :: ops => bus_run (EventBus.emit b e) ops
  | Drain :: ops =>
      let (b', events) := EventBus.drain b in
      let (b'', later) := bus_run b' ops in (b'', events ++ later)
  end.

Definition emitted : list bus_op → list CoordinatorEvent :=
  omap (λ o, match o with Emit e => Some e | Subscribe | Drain => None end).

(** For each subscription of a history, the events emitted after it. *)
Fixpoint deliveries (ops : list bus_op) : list (list CoordinatorEvent) :=
  match ops with
  | [] => []
  | Subscribe :: ops => emitted ops :: deliveries ops
  | (Emit _ | Drain) :: ops => deliveries ops
  end.

(** Every subscriber gets, in order and once each, the events emitted after its
    subscription; a buffering bus hands out every event, once, and another one none. *)
Lemma events_delivered b ops :
  let (b', drained) := bus_run b ops in
  EventBus.subscribers b'
  = ((λ received, received ++ emitted ops) <$> EventBus.subscribers b) ++ deliveries ops
  ∧ drained ++ EventBus.buffer b'
    = EventBus.buffer b ++ if EventBus.buffering b then emitted ops else [].
Proof.
  revert b. induction ops as [|[|e|] ops IH]; intros b; cbn [bus_run].
  - rewrite app_nil_r. split; [|by destruct (EventBus.buffering b); rewrite app_nil_r].
    rewrite <-(list_fmap_id (EventBus.subscribers b)) at 1. apply list_fmap_ext. intros _ l _. by rewrite app_nil_r.
  - specialize (IH (EventBus.subscribe b)). destruct (bus_run _ ops) as [b' drained]. destruct IH as [-> ->].
    cbn. rewrite fmap_app, <-app_assoc. done.
  - specialize (IH (EventBus.emit b e)). destruct (bus_run _ ops) as [b' drained]. destruct IH as [-> ->].
    cbn. split; [|by destruct (EventBus.buffering b); rewrite <-?app_assoc].
    f_equal. rewrite <-list_fmap_compose. apply list_fmap_ext. intros _ l _. cbn. by rewrite <-app_assoc.
  - cbn. specialize (IH (EventBus.Mk (EventBus.subscribers b) [] (EventBus.buffering b))).
    destruct (bus_run _ ops) as [b' drained]. destruct IH as [-> IH]. split; [done|].
    rewrite <-app_assoc, IH. done.
Qed.

(** ** The task-graph snapshot *)

Section snapshot.
Context `{HashOrder} (g : TaskGraph.t).

(** The tasks the loop reaches: those without a parent task, and dependents of
    reached tasks. *)
Inductive listed : TaskId → Prop :=
| listed_root x : x ∈ TaskGraph.roots g → listed x
| listed_dependent x y : listed x → is_Some (TaskGraph.get g x) → y ∈ TaskGraph.dependents g x → listed y.

Definition views (ids : list TaskId) : list TaskView := omap (λ x, task_view <$> TaskGraph.get g x) ids.

(** What is still to be pushed: the dependents of the tasks not visited. *)
Definition to_push (visited : gset string) (keys : list TaskId) : nat :=
  sum_list_with (λ k, if decide (k ∈ visited) then 0%nat else length (TaskGraph.dependents g k)) keys.

Lemma to_push_other visited tid keys : tid ∉ keys → to_push ({[tid]} ∪ visited) keys = to_push visited keys.
Proof.
  unfold to_push. induction keys as [|k keys IH]; cbn; [done|]. rewrite not_elem_of_cons. intros [Hk Hks].
  rewrite (IH Hks). f_equal. destruct (decide (k ∈ visited)).
  - rewrite decide_True by set_solver. done.
  - rewrite decide_False by set_solver. done.
Qed.

Lemma to_push_visit visited tid keys :
  NoDup keys → tid ∈ keys → tid ∉ visited →
  to_push visited keys = (length (TaskGraph.dependents g tid) + to_push ({[tid]} ∪ visited) keys)%nat.
Proof.
  induction 1 as [|k keys Hk Hnd IH]; intros Hin Hv; [set_solver|]. unfold to_push in *. cbn.
  destruct (decide (k = tid)) as [->|Hne].
  - rewrite decide_False, decide_True by set_solver.
    pose proof (to_push_other visited tid keys Hk) as Ho. unfold to_push in Ho. rewrite Ho. lia.
  - rewrite IH by set_solver. destruct (decide (k ∈ visited)).
    + rewrite decide_True by set_solver. lia.
    + rewrite decide_False by set_solver. lia.
Qed.

Record visit_inv (visited : gset string) (queue ids : list TaskId) : Prop := {
  vi_nodup : NoDup ids;
  vi_ids : ∀ x, x ∈ ids ↔ x ∈ visited ∧ is_Some (TaskGraph.get g x);
  vi_sound : ∀ x, x ∈ visited ∨ x ∈ queue → listed x;
  vi_roots : ∀ x, x ∈ TaskGraph.roots g → x ∈ visited ∨ x ∈ queue;
  vi_closed : ∀ x y, x ∈ visited → is_Some (TaskGraph.get g x) → y ∈ TaskGraph.dependents g x →
    y ∈ visited ∨ y ∈ queue;
}.

Definition keys : list TaskId := (map_to_list (TaskGraph.tasks g)).*1.

Lemma elem_of_keys x : x ∈ keys ↔ is_Some (TaskGraph.get g x).
Proof.
  unfold keys, TaskGraph.get. rewrite list_elem_of_fmap. split.
  - intros ([k t] & -> & Hin). apply elem_of_map_to_list in Hin. cbn. by eexists.
  - intros [t Ht]. exists (x, t). split; [done|]. by apply elem_of_map_to_list.
Qed.

Lemma visit_inv_seen visited queue ids tid :
  tid ∈ visited → visit_inv visited (tid :: queue) ids → visit_inv visited queue ids.
Proof.
  intros Hv [Hnd Hids Hs Hr Hc]. split; [done|done|..].
  - intros x Hx. apply Hs. set_solver.
  - intros x Hx. apply Hr in Hx. set_solver.
  - intros x y Hx Hp Hy. specialize (Hc x y Hx Hp Hy). set_solver.
Qed.

Lemma visit_inv_absent visited queue ids tid :
  TaskGraph.get g tid = None → visit_inv visited (tid :: queue) ids →
  visit_inv ({[tid]} ∪ visited) queue ids.
Proof.
  intros Hn [Hnd Hids Hs Hr Hc]. split; [done|..].
  - intros x. rewrite Hids, elem_of_union, elem_of_singleton. split; [naive_solver|].
    intros [[->|Hx] Hp]; [|done]. rewrite Hn in Hp. by destruct Hp.
  - intros x Hx. apply Hs. set_solver.
  - intros x Hx. apply Hr in Hx. set_solver.
  - intros x y Hx Hp Hy. apply elem_of_union in Hx as [->%elem_of_singleton|Hx].
    + rewrite Hn in Hp. by destruct Hp.
    + specialize (Hc x y Hx Hp Hy). set_solver.
Qed.

Lemma visit_inv_present visited queue ids tid :
  is_Some (TaskGraph.get g tid) → tid ∉ visited → visit_inv visited (tid :: queue) ids →
  visit_inv ({[tid]} ∪ visited) (queue ++ TaskGraph.dependents g tid) (ids ++ [tid]).
Proof.
  intros Hp Hv [Hnd Hids Hs Hr Hc]. split.
  - apply NoDup_snoc. split; [done|]. rewrite Hids. tauto.
  - intros x. rewrite elem_of_snoc, Hids, elem_of_union, elem_of_singleton. naive_solver.
  - intros x. rewrite elem_of_union, elem_of_singleton, elem_of_app.
    intros [[->|Hx]|[Hx|Hx]]; [apply Hs; set_solver..|].
    apply (listed_dependent tid); [apply Hs; set_solver|done|done].
  - intros x Hx. apply Hr in Hx. rewrite elem_of_app. set_solver.
  - intros x y Hx Hpx Hy. rewrite elem_of_app, elem_of_union, elem_of_singleton.
    apply elem_of_union in Hx as [->%elem_of_singleton|Hx]; [tauto|].
    specialize (Hc x y Hx Hpx Hy). rewrite elem_of_cons in Hc. tauto.
Qed.

Lemma visit_exact fuel : ∀ visited queue ids,
  visit_inv visited queue ids → (length queue + to_push visited keys ≤ fuel)%nat →
  ∃ ids', RequestHandler.visit fuel g visited queue (views ids) = Some (views ids')
    ∧ NoDup ids' ∧ ∀ x, x ∈ ids' ↔ listed x ∧ is_Some (TaskGraph.get g x).
Proof.
  assert (∀ visited ids, visit_inv visited [] ids → ∀ x, listed x → x ∈ visited) as Hall.
  { intros visited ids Hinv x. induction 1 as [x Hx|x y _ IH Hp Hy].
    - destruct (vi_roots _ _ _ Hinv x Hx); set_solver.
    - destruct (vi_closed _ _ _ Hinv x y IH Hp Hy); set_solver. }
  induction fuel as [|fuel IH]; intros visited [|tid queue] ids Hinv Hfuel; cbn in *; try lia.
  1,2: exists ids; split_and!; [done|apply Hinv|]; intros x; rewrite (vi_ids _ _ _ Hinv);
    split; [intros [Hx Hp]; split; [apply (vi_sound _ _ _ Hinv); by left|done]
           |intros [Hx Hp]; split; [by eapply Hall|done]].
  destruct (decide (tid ∈ visited)) as [Hv|Hv].
  { apply IH; [by apply (visit_inv_seen _ _ _ tid)|lia]. }
  destruct (TaskGraph.get g tid) as [task|] eqn:Hget.
  - assert (views ids ++ [task_view task] = views (ids ++ [tid])) as ->.
    { unfold views. rewrite omap_app. cbn. by rewrite Hget. }
    apply IH; [by apply visit_inv_present|]. rewrite length_app.
    rewrite (to_push_visit visited tid) in Hfuel;
      [lia|apply NoDup_fst_map_to_list|by apply elem_of_keys; eexists|done].
  - apply IH; [by apply visit_inv_absent|]. rewrite to_push_other; [lia|].
    rewrite elem_of_keys, Hget. by intros [].
Qed.
End snapshot.

(** A task without a parent task, or one that depends on such a task through others. *)
Inductive rooted (g : TaskGraph.t) : TaskId → Prop :=
| rooted_top x t : TaskGraph.get g x = Some t → task_parent_task t = None → rooted g x
| rooted_depends x t d : TaskGraph.get g x = Some t → d ∈ task_depends_on t → rooted g d → rooted g x.

Lemma elem_of_roots `{HashOrder} g x :
  graph_wf g → x ∈ TaskGraph.roots g ↔ ∃ t, TaskGraph.get g x = Some t ∧ task_parent_task t = None.
Proof.
  intros Hwf. pose proof (dw_key _ _ _ (gw_deps _ Hwf)) as Hkey.
  unfold TaskGraph.roots, TaskGraph.get. rewrite list_elem_of_fmap. split.
  - intros (t & -> & [Hp Hin]%list_elem_of_filter). apply elem_of_values in Hin as [k Hk].
    rewrite (Hkey _ _ Hk). eauto.
  - intros (t & Ht & Hp). exists t. split; [by rewrite (Hkey _ _ Ht)|].
    apply list_elem_of_filter. split; [done|]. apply elem_of_values. eauto.
Qed.

Lemma elem_of_dependents g x y :
  graph_wf g →
  y ∈ TaskGraph.dependents g x ↔ ∃ t, TaskGraph.get g y = Some t ∧ x ∈ task_depends_on t.
Proof.
  intros Hwf. unfold TaskGraph.dependents, TaskGraph.get.
  rewrite <-occ_pos, (dw_forward _ _ _ (gw_deps _ Hwf)).
  destruct (TaskGraph.tasks g !! y) as [t|]; cbn; [rewrite occ_pos; naive_solver|].
  split; [lia|by intros (? & ? & _)].
Qed.

Lemma listed_rooted `{HashOrder} g x :
  graph_wf g → listed g x ∧ is_Some (TaskGraph.get g x) ↔ rooted g x.
Proof.
  intros Hwf. split.
  - intros [Hl _]. induction Hl as [x Hx|x y _ IH Hp Hy].
    + apply elem_of_roots in Hx as (t & Ht & Hn); [|done]. by apply (rooted_top g x t).
    + apply elem_of_dependents in Hy as (t & Ht & Hd); [|done]. by apply (rooted_depends g y t x).
  - induction 1 as [x t Ht Hn|x t d Ht Hd _ [IH Hp]]; (split; [|by eexists]).
    + apply listed_root, elem_of_roots; eauto.
    + apply (listed_dependent g d); [done|done|]. apply elem_of_dependents; eauto.
Qed.

(** The task-graph snapshot.  For every graph built by its operations the request
    terminates and returns the views of these tasks, each once and in no other number:
    the tasks without a parent task and the tasks that depend on one of them directly
    or through others.  A subtask without dependencies is therefore never in the
    snapshot. *)
Theorem task_snapshot_exact `{HashOrder} (ops : list graph_op) (self : RequestHandler.t) :
  Forall op_ok ops → graph_run TaskGraph.new ops = Some (RequestHandler.task_graph self) →
  let g := RequestHandler.task_graph self in
  ∃ ids, RequestHandler.handle_get_task_graph self = Some (views g ids)
    ∧ NoDup ids ∧ (∀ x, x ∈ ids ↔ rooted g x)
    ∧ ∀ x t, TaskGraph.get g x = Some t → task_parent_task t ≠ None → task_depends_on t = [] → x ∉ ids.
Proof.
  intros Hok Hrun g. assert (graph_wf g) as Hwf by eauto using graph_run_wf, graph_wf_new.
  destruct (visit_exact g (RequestHandler.visit_fuel g) ∅ (TaskGraph.roots g) []) as (ids & Hv & Hnd & Hids).
  - split; [constructor|set_solver|..]; [|by right|set_solver].
    intros x [Hx|Hx]; [set_solver|]. by apply listed_root.
  - unfold RequestHandler.visit_fuel, to_push. fold (keys g). apply Nat.add_le_mono_l, Nat.eq_le_incl.
    induction (keys g) as [|k ks IH]; [done|]. cbn. by rewrite IH.
  - exists ids. split_and!; [done|done|intros x; rewrite Hids; by apply listed_rooted|].
    intros x t Ht Hp Hd Hx. apply Hids, listed_rooted in Hx; [|done].
    destruct Hx as [x t' Ht' Hn|x t' d Ht' Hd' _]; rewrite Ht in Ht'; injection Ht' as <-; [done|].
    rewrite Hd in Hd'. set_solver.
Qed.

(** A subtask and the parent task it hangs under. *)
Definition child_task : Task := {|
  task_id := "child"; task_name := "child"; task_description := ""; task_depends_on := [];
  task_parent_task := Some "a"; task_status := TaskStatus.Pending; task_workspace_ref := None;
  task_workspace_history := []; task_checkpoint_ref := None |}.

Definition handler_of (top : TopologySet.t) (g : TaskGraph.t) : RequestHandler.t :=
  RequestHandler.Mk top g (GateController.new 0 GateFallback.Cancel) IntegrationQueue.new
    TimeoutTracker.new (LivenessMonitor.new 0) (MigrationCoordinator.new 0) 1 1.

Lemma task_snapshot_exact_witness :
  ∃ g ids,
    graph_run TaskGraph.new (sample_graph_ops ++ [GAdd child_task]) = Some g
    ∧ @RequestHandler.handle_get_task_graph canonical_order (handler_of (TopologySet.new "root" "u") g)
      = Some (views g ids)
    ∧ TaskGraph.get g "child" = Some child_task ∧ "child" ∉ ids.
Proof.
  destruct (graph_run TaskGraph.new (sample_graph_ops ++ [GAdd child_task])) as [g|] eqn:Hg;
    [|by vm_compute in Hg].
  destruct (@task_snapshot_exact canonical_order (sample_graph_ops ++ [GAdd child_task])
              (handler_of (TopologySet.new "root" "u") g)) as (ids & Hv & Hnd & Hids & Hno).
  - repeat constructor; vm_compute; done.
  - exact Hg.
  - exists g, ids. split; [done|]. split; [exact Hv|].
    assert (TaskGraph.get g "child" = Some child_task) as Hc
      by (vm_compute in Hg; injection Hg as <-; vm_compute; reflexivity).
    split; [exact Hc|]. apply (Hno "child" child_task); [exact Hc|discriminate|reflexivity].
Defined.

(** ** Envelopes *)

Inductive request :=
| RSend (from to : WorkspaceId)
| RInject (to : WorkspaceId)
| RCheckpoint (workspace_id : WorkspaceId) (payload : list Z)
| RGate (gate_id : GateId) (decision : GateDecision.t).

(** A request and the envelope id it was given, if any. *)
Definition serve_request (self : RequestHandler.t) (q : request) : RequestHandler.t * option EnvelopeId :=
  let granted (r : RequestHandler.t * result EnvelopeId HandlerError) :=
    (r.1, match r.2 with Ok id => Some id | Err _ => None end) in
  match q with
  | RSend a b => granted (RequestHandler.handle_send_envelope self a b)
  | RInject b => granted (RequestHandler.handle_inject_envelope self b)
  | RCheckpoint w payload => ((RequestHandler.handle_create_checkpoint self w payload).1, None)
  | RGate id d => ((RequestHandler.handle_gate_response self id d).1, None)
  end.

Fixpoint serve_requests (self : RequestHandler.t) (qs : list request)
    : RequestHandler.t * list EnvelopeId :=
  match qs with
  | [] => (self, [])
  | q :: qs =>
      let '(self, id) := serve_request self q in
      let '(self, ids) := serve_requests self qs in (self, option_list id ++ ids)
  end.

(** What no request changes. *)
Definition same_structures (self self' : RequestHandler.t) : Prop :=
  RequestHandler.topology self' = RequestHandler.topology self
  ∧ RequestHandler.task_graph self' = RequestHandler.task_graph self
  ∧ RequestHandler.migration self' = RequestHandler.migration self.

(** A request hands out the current id and moves the counter, or neither. *)
Lemma serve_request_spec self q :
  0 ≤ RequestHandler.next_envelope_id self < u64_max →
  let '(self', id) := serve_request self q in
  same_structures self self'
  ∧ match id with
    | Some id => id = format_id "env-" (RequestHandler.next_envelope_id self)
                 ∧ RequestHandler.next_envelope_id self' = RequestHandler.next_envelope_id self + 1
    | None => RequestHandler.next_envelope_id self' = RequestHandler.next_envelope_id self
    end.
Proof.
  intros Hb. assert (wrap64 (RequestHandler.next_envelope_id self + 1) = RequestHandler.next_envelope_id self + 1)
    as Hw by (apply wrap64_small; solve_range).
  destruct q as [a b|b|w payload|id d]; cbn [serve_request].
  - unfold RequestHandler.handle_send_envelope.
    destruct (RequestHandler.workspace self a), (RequestHandler.workspace self b); try done.
    destruct (PortRightsGraph.validate_send _ a b); done.
  - unfold RequestHandler.handle_inject_envelope. by destruct (RequestHandler.workspace self b).
  - unfold RequestHandler.handle_create_checkpoint. by destruct (RequestHandler.workspace self w).
  - unfold RequestHandler.handle_gate_response. by destruct (GateController.resolve _ id d).
Qed.

Lemma serve_requests_spec qs : ∀ self,
  0 ≤ RequestHandler.next_envelope_id self →
  RequestHandler.next_envelope_id self + Z.of_nat (length qs) ≤ u64_max →
  same_structures self (serve_requests self qs).1
  ∧ NoDup (serve_requests self qs).2
  ∧ ∀ id, id ∈ (serve_requests self qs).2 →
      ∃ n, RequestHandler.next_envelope_id self ≤ n ∧ id = format_id "env-" n.
Proof.
  induction qs as [|q qs IH]; intros self Hn Hb; cbn [serve_requests length] in *.
  { split_and!; [done|constructor|set_solver]. }
  pose proof (serve_request_spec self q ltac:(lia)) as Hs.
  destruct (serve_request self q) as [self1 id]. destruct Hs as [Hsame Hid].
  destruct (IH self1) as (Hsame' & Hnd & Hids); [destruct id; lia..|].
  destruct (serve_requests self1 qs) as [self2 ids]. cbn [fst snd] in *. split_and!.
  - unfold same_structures in *. intuition congruence.
  - destruct id as [id|]; cbn [option_list app]; [|done]. destruct Hid as [-> Hnext].
    constructor; [|done]. intros (n & Hle & Heq)%Hids. apply format_id_inj in Heq; lia.
  - intros x. destruct id as [id|]; cbn [option_list app].
    + destruct Hid as [-> Hnext]. intros [->|Hin]%elem_of_cons; [by eexists|].
      apply Hids in Hin as (n & Hle & ->). exists n. split; [lia|done].
    + intros (n & Hle & ->)%Hids. exists n. split; [lia|done].
Qed.

(** An active right of a workspace to send to another, of either kind. *)
Definition may_send (g : PortRightsGraph.t) (a b : WorkspaceId) : Prop :=
  ∃ id e, PortRightsGraph.get g id = Some e ∧ pre_holder e = a ∧ pre_target e = b
    ∧ pre_status e = PortRightStatus.Active ∧ pre_kind e ≠ PortRightType.Receive.

Lemma validate_send_iff g a b :
  port_wf g → is_ok (PortRightsGraph.validate_send g a b) = true ↔ may_send g a b.
Proof.
  intros Hwf. split.
  - unfold PortRightsGraph.validate_send. destruct (PortRightsGraph.by_holder g !! a) as [ids|] eqn:Hs; [|done].
    destruct (PortRightsGraph.find_sendable _ _ ids) as [id|] eqn:Hf; [|done]. intros _.
    apply find_sendable_Some in Hf as (Hin & e & He & Hsend).
    assert (id ∈ idx (PortRightsGraph.by_holder g) a) as Hidx by (unfold idx; by rewrite Hs).
    apply (pw_holder _ Hwf) in Hidx as (e' & He' & Hh).
    apply sendable_iff in Hsend. exists id, e. unfold PortRightsGraph.get. naive_solver.
  - intros (id & e & ? & ? & ? & ? & ?). by eapply validate_send_ok.
Qed.

(** Envelope requests, over any sequence of sends, injections, checkpoints and gate
    responses.  The topology, the task graph and the migrations are not changed, and
    the ids handed out are pairwise different.  A send is accepted exactly when both
    workspaces exist and the sender holds an active send or send-once right to the
    target in the topology the sequence started from: an accepted send does not use up
    a send-once right.  An injection needs no right at all, only an existing target. *)
Theorem envelope_requests_exact (self : RequestHandler.t) (qs : list request) (a b : WorkspaceId) :
  topo_wf (RequestHandler.topology self) →
  0 ≤ RequestHandler.next_envelope_id self →
  RequestHandler.next_envelope_id self + Z.of_nat (length qs) ≤ u64_max →
  let self' := (serve_requests self qs).1 in
  same_structures self self'
  ∧ NoDup (serve_requests self qs).2
  ∧ (is_ok (RequestHandler.handle_send_envelope self' a b).2 = true ↔
     is_Some (RequestHandler.workspace self a) ∧ is_Some (RequestHandler.workspace self b)
     ∧ may_send (TopologySet.port_rights (RequestHandler.topology self)) a b)
  ∧ (is_ok (RequestHandler.handle_inject_envelope self' b).2 = true ↔ is_Some (RequestHandler.workspace self b)).
Proof.
  intros Hwf Hn Hb self'. destruct (serve_requests_spec qs self Hn Hb) as (Hsame & Hnd & _).
  fold self' in Hsame. pose proof Hsame as (Htop & _ & _).
  assert (∀ w, RequestHandler.workspace self' w = RequestHandler.workspace self w) as Hws
    by (intros w; unfold RequestHandler.workspace; by rewrite Htop).
  split_and!; [done|done| |].
  - rewrite <-validate_send_iff by apply Hwf.
    unfold RequestHandler.handle_send_envelope. rewrite !Hws, Htop.
    destruct (RequestHandler.workspace self a); [|split; [done|by intros [[] _]]].
    destruct (RequestHandler.workspace self b); [|split; [done|by intros (_ & [] & _)]].
    destruct (PortRightsGraph.validate_send _ a b); cbn; naive_solver eauto.
  - unfold RequestHandler.handle_inject_envelope. rewrite Hws.
    destruct (RequestHandler.workspace self b); split; try done; by intros [].
Qed.

(** A send-once right sends twice. *)
Definition send_once_topology : TopologySet.t :=
  default (TopologySet.new "root" "op")
    (topo_run (TopologySet.new "root" "op")
       (sample_topo_ops ++ [OPort (PCreate "b" "c" PortRightType.SendOnce)])).

Lemma send_once_topology_wf : topo_wf send_once_topology.
Proof.
  destruct (topo_run_wf (TopologySet.new "root" "op")
              (sample_topo_ops ++ [OPort (PCreate "b" "c" PortRightType.SendOnce)])) as (s & Hs & Hwf); [vm_compute; done|apply topo_wf_new|].
  unfold send_once_topology. by rewrite Hs.
Qed.

Lemma envelope_requests_exact_witness :
  let self := handler_of send_once_topology TaskGraph.new in
  (serve_requests self [RSend "b" "c"; RSend "b" "c"; RSend "b" "d"; RInject "d"]).2 = ["env-1"; "env-2"; "env-3"]
  ∧ is_ok (RequestHandler.handle_send_envelope
             (serve_requests self [RSend "b" "c"; RSend "b" "c"]).1 "b" "c").2 = true.
Proof.
  intros self. split; [vm_compute; reflexivity|].
  destruct (envelope_requests_exact self [RSend "b" "c"; RSend "b" "c"] "b" "c") as (_ & _ & Hsend & _);
    [apply send_once_topology_wf|cbn; lia|cbn; unfold u64_max; lia|].
  apply Hsend. split; [vm_compute; eauto|]. split; [vm_compute; eauto|].
  exists "pr-13". eexists. split; [vm_compute; reflexivity|]. repeat split; discriminate.
Defined.

(** ** Binding *)

(** Who may bind: anyone to a workspace that is not migrating; to a migrating one only
    an agent of the expected type, as long as the migration is in the table. *)
Lemma bind_exact self w identity :
  is_ok (RequestHandler.handle_bind self w identity) = true ↔
  ∃ node, RequestHandler.workspace self w = Some node
    ∧ ∀ ctx, node_status node = WorkspaceState.Migrating →
        MigrationCoordinator.get (RequestHandler.migration self) w = Some ctx →
        identity = Some (ar_agent_type (mx_new_agent ctx)).
Proof.
  unfold RequestHandler.handle_bind, MigrationCoordinator.expected_agent, MigrationCoordinator.get.
  destruct (RequestHandler.workspace self w) as [node|]; cbn; [|naive_solver].
  destruct (MigrationCoordinator.active _ !! w) as [ctx|]; cbn;
    repeat case_bool_decide; cbn; naive_solver.
Qed.

(** ** The content hash *)

(** The multiplier is odd, so multiplying by it modulo 2^64 can be undone. *)
Lemma wrap64_mul_inj x y :
  is_u64 x → is_u64 y → wrap64 (x * 1099511628211) = wrap64 (y * 1099511628211) → x = y.
Proof.
  assert (∀ z, is_u64 z → wrap64 (wrap64 (z * 1099511628211) * 14886173955864302971) = z) as Hinv.
  { intros z Hz. unfold wrap64. rewrite Zmult_mod_idemp_l.
    replace (z * 1099511628211 * 14886173955864302971)
      with (z + z * 887285111055 * (u64_max + 1)) by (unfold u64_max; lia).
    rewrite Z_mod_plus_full. fold (wrap64 z). by apply wrap64_small. }
  intros Hx Hy Heq. by rewrite <-(Hinv x Hx), <-(Hinv y Hy), Heq.
Qed.

Lemma lxor_u64 x b : is_u64 x → 0 ≤ b ≤ 255 → is_u64 (Z.lxor x b).
Proof.
  unfold is_u64, u64_max. intros Hx Hb. split; [apply Z.lxor_nonneg; lia|].
  destruct (Z.eq_dec (Z.lxor x b) 0) as [->|Hne]; [lia|].
  assert (0 ≤ Z.lxor x b) as Hnn by (apply Z.lxor_nonneg; lia).
  apply Z.lt_succ_r. change (Z.succ _) with (2 ^ 64). apply Z.log2_lt_pow2; [lia|].
  pose proof (Z.log2_lxor x b) as Hlog.
  assert (Z.log2 x < 64).
  { destruct (Z.eq_dec x 0) as [->|]; [done|]. apply Z.log2_lt_pow2; [lia|].
    change (2 ^ 64) with 18446744073709551616. lia. }
  assert (Z.log2 b < 64).
  { destruct (Z.eq_dec b 0) as [->|]; [done|]. apply Z.log2_lt_pow2; [lia|].
    change (2 ^ 64) with 18446744073709551616. lia. }
  specialize (Hlog ltac:(lia) ltac:(lia)). lia.
Qed.

Lemma lxor_inj_r x a b : Z.lxor x a = Z.lxor x b → a = b.
Proof.
  intros Heq. apply (f_equal (Z.lxor x)) in Heq.
  by rewrite <-!Z.lxor_assoc, !Z.lxor_nilpotent, !Z.lxor_0_l in Heq.
Qed.

Definition is_byte (b : Z) : Prop := 0 ≤ b ≤ 255.

Lemma hash_byte_u64 h b : is_u64 (hash_byte h b).
Proof. apply wrap64_range. Qed.

Lemma hash_byte_inj h h' b :
  is_u64 h → is_u64 h' → is_byte b → hash_byte h b = hash_byte h' b → h = h'.
Proof.
  intros Hh Hh' Hb Heq. apply wrap64_mul_inj in Heq; [|by apply lxor_u64..].
  rewrite !(Z.lxor_comm _ b) in Heq. by apply lxor_inj_r in Heq.
Qed.

Lemma hash_suffix_inj data : ∀ h h',
  is_u64 h → is_u64 h' → Forall is_byte data →
  fold_left hash_byte data h = fold_left hash_byte data h' → h = h'.
Proof.
  induction data as [|b data IH]; intros h h' Hh Hh' Hd Heq; [done|]. cbn in Heq.
  apply Forall_cons in Hd as [Hb Hd]. apply IH in Heq; [|apply hash_byte_u64..|done].
  by apply hash_byte_inj in Heq.
Qed.

Lemma hash_u64 data h : is_u64 h → is_u64 (fold_left hash_byte data h).
Proof. revert h. induction data as [|b data IH]; intros h Hh; [done|]. apply IH, hash_byte_u64. Qed.

(** The hexadecimal text determines the number. *)
Definition hex_value (c : Ascii.ascii) : Z :=
  let n := Z.of_N (Ascii.N_of_ascii c) in if n <? 58 then n - 48 else n - 87.

Fixpoint hex_read (v : Z) (s : string) : Z :=
  match s with EmptyString => v | String c s => hex_read (16 * v + hex_value c) s end.

Lemma hex_value_digit d : 0 ≤ d < 16 → hex_value (hex_char d) = d.
Proof.
  intros Hd. assert (Forall (λ d, hex_value (hex_char d) = d) (seqZ 0 16)) as Hall
    by (vm_compute; repeat constructor).
  rewrite Forall_forall in Hall. apply Hall, elem_of_seqZ. lia.
Qed.

Lemma hex_read_digits fuel : ∀ n acc,
  0 ≤ n < 16 ^ Z.of_nat fuel → hex_read 0 (hex_digits fuel n acc) = hex_read n acc.
Proof.
  induction fuel as [|fuel IH]; intros n acc Hn; cbn [hex_digits].
  - cbn in Hn. by replace n with 0 by lia.
  - destruct (Z.eqb_spec n 0) as [->|Hne]; [done|].
    rewrite Nat2Z.inj_succ, Z.pow_succ_r in Hn by lia.
    rewrite IH by (split; [apply Z.div_pos; lia|apply Z.div_lt_upper_bound; lia]).
    cbn [hex_read]. rewrite hex_value_digit by (apply Z.mod_pos_bound; lia).
    by rewrite <-Z.div_mod by lia.
Qed.

Lemma lower_hex_inj m n : is_u64 m → is_u64 n → lower_hex m = lower_hex n → m = n.
Proof.
  assert (∀ z, is_u64 z → hex_read 0 (lower_hex z) = z) as Hread.
  { intros z Hz. unfold lower_hex. destruct (Z.eqb_spec z 0) as [->|]; [done|].
    rewrite hex_read_digits; [done|]. change (16 ^ Z.of_nat 16) with 18446744073709551616. solve_range. }
  intros Hm Hn Heq. by rewrite <-(Hread m Hm), <-(Hread n Hn), Heq.
Qed.

(** The checkpoint's content hash, as text, differs for any two payloads of bytes
    that differ in exactly one byte, wherever it is; and two payloads with the same
    hash still have the same hash after the same bytes are appended to both. *)
Theorem checkpoint_hash_detects_byte (pre post : list Z) (x y : Z) (data data' : list Z) :
  Forall is_byte pre → Forall is_byte post → is_byte x → is_byte y → x ≠ y →
  lower_hex (md5_like_hash (pre ++ x :: post)) ≠ lower_hex (md5_like_hash (pre ++ y :: post))
  ∧ (lower_hex (md5_like_hash data) = lower_hex (md5_like_hash data') →
     lower_hex (md5_like_hash (data ++ post)) = lower_hex (md5_like_hash (data' ++ post))).
Proof.
  assert (∀ d, is_u64 (md5_like_hash d)) as Hu by (intros d; apply hash_u64; solve_range).
  intros Hpre Hpost Hx Hy Hne. split.
  - intros Heq%lower_hex_inj; [|apply Hu..]. unfold md5_like_hash in Heq.
    rewrite !fold_left_app in Heq. cbn [fold_left] in Heq.
    apply hash_suffix_inj in Heq; [|apply hash_byte_u64..|done].
    assert (is_u64 (fold_left hash_byte pre 14695981039346656037)) as Hp by (apply hash_u64; solve_range).
    apply wrap64_mul_inj in Heq; [|by apply lxor_u64..]. by apply lxor_inj_r in Heq.
  - intros Heq%lower_hex_inj; [|apply Hu..]. unfold md5_like_hash in *.
    by rewrite !fold_left_app, Heq.
Qed.

Lemma checkpoint_hash_detects_byte_witness :
  lower_hex (md5_like_hash [104; 105]) ≠ lower_hex (md5_like_hash [104; 106])
  ∧ lower_hex (md5_like_hash [104; 105]) = "8ba5f07b55ec3da".
Proof.
  split; [|vm_compute; reflexivity].
  apply (checkpoint_hash_detects_byte [104] [] 105 106 [] []);
    repeat constructor; lia.
Defined.
