(* ===== verification/Taxonomy.v ===== *)
(** * Taxonomies (crate wacp-taxonomy: definition.rs, resolved.rs, loader.rs, lib.rs)

    A taxonomy definition extends the base roles, envelope types and checkpoint types.
    [load] runs the twelve numbered checks of loader.rs in order and then builds the
    tables; [None] stands for the [unreachable!()] of the build.  The theorem shows it
    is unreachable, which definitions are accepted, and what an accepted one gives. *)

From S2P Require Import Prelude Types Std.

Record RoleDefinition := {
  rd_name : string;
  rd_extends : string;
  rd_add : list string;
  rd_remove : list string;
  rd_checkpoint_types : option (list string);
}.

Record EnvelopePermission := {
  ep_sender_role : string;
  ep_receiver_role : string;
}.

Record EnvelopeTypeDefinition := {
  ed_name : string;
  ed_permissions : list EnvelopePermission;
}.

Record CheckpointTypeDefinition := {
  cd_name : string;
  cd_permitted_roles : list string;
}.

Record TaxonomyDefinition := {
  td_id : string;
  td_version : string;
  td_protocol_version : string;
  td_roles : list RoleDefinition;
  td_envelope_types : list EnvelopeTypeDefinition;
  td_checkpoint_types : list CheckpointTypeDefinition;
}.

Record ResolvedRole := {
  rr_name : string;
  rr_base : BaseRole.t;
  rr_capabilities : gset string;
  rr_checkpoint_types : gset string;
}.

Record EnvelopePermissionRow := {
  er_sender_role : string;
  er_envelope_type : string;
  er_receiver_role : string;
}.

Module Taxonomy.
Record t := Mk {
  id : string;
  version : string;
  protocol_version : string;
  resolved_roles : gmap string ResolvedRole;
  envelope_types : gset string;
  envelope_permissions : list EnvelopePermissionRow;
  checkpoint_types : gmap string (gset string);
}.

Definition is_valid_role (self : t) (name : string) : bool :=
  bool_decide (name ∈ ["coordinator"; "worker"; "observer"])
  || bool_decide (is_Some (resolved_roles self !! name)).

Definition is_valid_envelope_type (self : t) (name : string) : bool :=
  bool_decide (name ∈ envelope_types self).

Definition is_valid_checkpoint_type (self : t) (name : string) : bool :=
  bool_decide (is_Some (checkpoint_types self !! name)).

Definition resolve_role (self : t) (name : string) : option ResolvedRole :=
  resolved_roles self !! name.
End Taxonomy.

Inductive TaxonomyError :=
| ParseError (message : string)
| ProtocolVersionMismatch (expected found : string)
| DuplicateRoleName (name : string)
| DuplicateEnvelopeType (name : string)
| DuplicateCheckpointType (name : string)
| BaseNameCollision (name : string)
| InvalidInheritance (role extends : string)
| PrivilegeEscalation (role capability : string)
| CrossRegistryMissing (role reference : string)
| EnvelopeRoleNotFound (envelope_type role : string)
| CheckpointRoleNotFound (checkpoint_type role : string)
| EmptyPermissions (name : string)
| EmptyRoleList (name : string).

(** ** Loader *)

Definition BASE_ROLES : list string := ["coordinator"; "worker"; "observer"].
Definition BASE_ENVELOPE_TYPES : list string := ["directive"; "feedback"; "query"].
Definition BASE_CHECKPOINT_TYPES : list string := ["artifact"; "observation"].

Definition COORDINATOR_CAPABILITIES : list string :=
  ["create_workspace"; "perform_integration"; "manage_budgets"; "abort_workspace"; "assign_roles"].

Definition base_capabilities (role : BaseRole.t) : gset string :=
  match role with
  | BaseRole.Worker => {["send: query → coordinator"; "create: artifact"]}
  | BaseRole.Observer => {["create: observation"]}
  | BaseRole.Coordinator => ∅
  end.

Definition base_checkpoint_types (role : BaseRole.t) : gset string :=
  match role with
  | BaseRole.Worker => {["artifact"]}
  | BaseRole.Observer => {["observation"]}
  | BaseRole.Coordinator => ∅
  end.

Definition base_permission_rows : list EnvelopePermissionRow :=
  [ {| er_sender_role := "coordinator"; er_envelope_type := "directive"; er_receiver_role := "worker" |};
    {| er_sender_role := "coordinator"; er_envelope_type := "feedback"; er_receiver_role := "worker" |};
    {| er_sender_role := "worker"; er_envelope_type := "query"; er_receiver_role := "coordinator" |} ].

(** The uniqueness loops: [if !seen.insert(name) { return Err(..) }]. *)
Fixpoint unique {E} (e : string → E) (seen : gset string) (names : list string) : result unit E :=
  match names with
  | [] => Ok tt
  | n :: names => if decide (n ∈ seen) then Err (e n) else unique e ({[n]} ∪ seen) names
  end.

Module Loader.
Definition is_known_role (def : TaxonomyDefinition) (name : string) : bool :=
  bool_decide (name ∈ BASE_ROLES) || bool_decide (name ∈ rd_name <$> td_roles def).

Definition check_names (def : TaxonomyDefinition) : result unit TaxonomyError :=
  let fresh base name := ensure (negb (bool_decide (name ∈ base))) (BaseNameCollision name) in
  let? _ := unique DuplicateRoleName ∅ (rd_name <$> td_roles def) in
  let? _ := for_each (λ role, fresh BASE_ROLES (rd_name role)) (td_roles def) in
  let? _ := unique DuplicateEnvelopeType ∅ (ed_name <$> td_envelope_types def) in
  let? _ := for_each (λ et, fresh BASE_ENVELOPE_TYPES (ed_name et)) (td_envelope_types def) in
  let? _ := unique DuplicateCheckpointType ∅ (cd_name <$> td_checkpoint_types def) in
  for_each (λ ct, fresh BASE_CHECKPOINT_TYPES (cd_name ct)) (td_checkpoint_types def).

Definition check_inheritance (role : RoleDefinition) : result unit TaxonomyError :=
  ensure (bool_decide (rd_extends role ∈ ["worker"; "observer"]))
    (InvalidInheritance (rd_name role) (rd_extends role)).

Definition check_escalation (role : RoleDefinition) : result unit TaxonomyError :=
  for_each (λ cap,
    for_each (λ coord_cap, ensure (negb (str_contains cap coord_cap))
                             (PrivilegeEscalation (rd_name role) cap)) COORDINATOR_CAPABILITIES)
    (rd_add role).

Definition check_overrides (def : TaxonomyDefinition) (role : RoleDefinition) : result unit TaxonomyError :=
  match rd_checkpoint_types role with
  | None => Ok tt
  | Some ct_overrides =>
      for_each (λ ct_name,
        ensure (bool_decide (ct_name ∈ BASE_CHECKPOINT_TYPES)
                || bool_decide (ct_name ∈ cd_name <$> td_checkpoint_types def))
          (CrossRegistryMissing (rd_name role) ct_name)) ct_overrides
  end.

Definition check_envelope_type (def : TaxonomyDefinition) (et : EnvelopeTypeDefinition)
    : result unit TaxonomyError :=
  let? _ := ensure (negb (bool_decide (ed_permissions et = nil))) (EmptyPermissions (ed_name et)) in
  for_each (λ perm,
    let? _ := ensure (is_known_role def (ep_sender_role perm))
                (EnvelopeRoleNotFound (ed_name et) (ep_sender_role perm)) in
    ensure (is_known_role def (ep_receiver_role perm))
      (EnvelopeRoleNotFound (ed_name et) (ep_receiver_role perm))) (ed_permissions et).

Definition check_checkpoint_type (def : TaxonomyDefinition) (ct : CheckpointTypeDefinition)
    : result unit TaxonomyError :=
  let? _ := ensure (negb (bool_decide (cd_permitted_roles ct = nil))) (EmptyRoleList (cd_name ct)) in
  for_each (λ role_name,
    ensure (is_known_role def role_name) (CheckpointRoleNotFound (cd_name ct) role_name))
    (cd_permitted_roles ct).

(** The twelve checks, in order. *)
Definition check (def : TaxonomyDefinition) (protocol_version : string) : result unit TaxonomyError :=
  let? _ := ensure (bool_decide (td_protocol_version def = protocol_version))
              (ProtocolVersionMismatch protocol_version (td_protocol_version def)) in
  let? _ := check_names def in
  let? _ := for_each check_inheritance (td_roles def) in
  let? _ := for_each check_escalation (td_roles def) in
  let? _ := for_each (check_overrides def) (td_roles def) in
  let? _ := for_each (check_envelope_type def) (td_envelope_types def) in
  for_each (check_checkpoint_type def) (td_checkpoint_types def).

(** [None] is [unreachable!()]. *)
Definition base_of (extends : string) : option BaseRole.t :=
  if decide (extends = "worker") then Some BaseRole.Worker
  else if decide (extends = "observer") then Some BaseRole.Observer else None.

Definition resolve (role_def : RoleDefinition) : option ResolvedRole :=
  base ← base_of (rd_extends role_def);
  let capabilities := fold_left (λ s cap, s ∖ {[cap]}) (rd_remove role_def) (base_capabilities base) in
  let capabilities := fold_left (λ s cap, {[cap]} ∪ s) (rd_add role_def) capabilities in
  let checkpoint_types :=
    match rd_checkpoint_types role_def with
    | Some overrides => list_to_set overrides
    | None => base_checkpoint_types base
    end in
  Some {| rr_name := rd_name role_def; rr_base := base; rr_capabilities := capabilities;
          rr_checkpoint_types := checkpoint_types |}.

Fixpoint resolve_all (roles : list RoleDefinition) (acc : gmap string ResolvedRole)
    : option (gmap string ResolvedRole) :=
  match roles with
  | [] => Some acc
  | role_def :: roles =>
      role ← resolve role_def; resolve_all roles (<[rd_name role_def := role]> acc)
  end.

Definition permission_rows (def : TaxonomyDefinition) : list EnvelopePermissionRow :=
  base_permission_rows ++
  (et ← td_envelope_types def;
   (λ perm, {| er_sender_role := ep_sender_role perm; er_envelope_type := ed_name et;
               er_receiver_role := ep_receiver_role perm |}) <$> ed_permissions et).

(** [entry(ct).or_default().insert(role)] *)
Definition permit (ct role : string) (m : gmap string (gset string)) : gmap string (gset string) :=
  <[ct := {[role]} ∪ default ∅ (m !! ct)]> m.

Definition checkpoint_table `{HashOrder} (def : TaxonomyDefinition) (roles : gmap string ResolvedRole)
    : gmap string (gset string) :=
  let m := <["observation" := {["observer"]}]> (<["artifact" := {["worker"]}]> ∅) in
  let m := fold_left (λ m ct, <[cd_name ct := list_to_set (cd_permitted_roles ct)]> m)
             (td_checkpoint_types def) m in
  fold_left (λ m role, fold_left (λ m ct_name, permit ct_name (rr_name role) m)
                         (set_iter (rr_checkpoint_types role)) m) (values roles) m.

Definition build `{HashOrder} (def : TaxonomyDefinition) : option Taxonomy.t :=
  resolved_roles ← resolve_all (td_roles def) ∅;
  Some {| Taxonomy.id := td_id def; Taxonomy.version := td_version def;
          Taxonomy.protocol_version := td_protocol_version def;
          Taxonomy.resolved_roles := resolved_roles;
          Taxonomy.envelope_types :=
            fold_left (λ s et, {[ed_name et]} ∪ s) (td_envelope_types def)
              (list_to_set BASE_ENVELOPE_TYPES);
          Taxonomy.envelope_permissions := permission_rows def;
          Taxonomy.checkpoint_types := checkpoint_table def resolved_roles |}.

Definition load `{HashOrder} (def : TaxonomyDefinition) (protocol_version : string)
    : option (result Taxonomy.t TaxonomyError) :=
  match check def protocol_version with
  | Err e => Some (Err e)
  | Ok _ => taxonomy ← build def; Some (Ok taxonomy)
  end.

(** [load_yaml] and [load_json], with the deserialiser a parameter. *)
Definition load_text `{HashOrder} (from_str : string → result TaxonomyDefinition string)
    (text protocol_version : string) : option (result Taxonomy.t TaxonomyError) :=
  match from_str text with
  | Err e => Some (Err (ParseError e))
  | Ok def => load def protocol_version
  end.

(** [None] is the panic of the [unwrap]. *)
Definition empty `{HashOrder} (protocol_version : string) : option Taxonomy.t :=
  match load {| td_id := "empty"; td_version := "0.0.0"; td_protocol_version := protocol_version;
                td_roles := []; td_envelope_types := []; td_checkpoint_types := [] |} protocol_version with
  | Some (Ok taxonomy) => Some taxonomy
  | _ => None
  end.
End Loader.

(** ** Acceptance *)

(** What the twelve checks demand. *)
Record admissible (def : TaxonomyDefinition) (protocol_version : string) : Prop := {
  ad_version : td_protocol_version def = protocol_version;
  ad_roles : NoDup (rd_name <$> td_roles def);
  ad_roles_fresh : Forall (λ r, rd_name r ∉ BASE_ROLES) (td_roles def);
  ad_envelopes : NoDup (ed_name <$> td_envelope_types def);
  ad_envelopes_fresh : Forall (λ et, ed_name et ∉ BASE_ENVELOPE_TYPES) (td_envelope_types def);
  ad_checkpoints : NoDup (cd_name <$> td_checkpoint_types def);
  ad_checkpoints_fresh : Forall (λ ct, cd_name ct ∉ BASE_CHECKPOINT_TYPES) (td_checkpoint_types def);
  ad_extends : Forall (λ r, rd_extends r ∈ ["worker"; "observer"]) (td_roles def);
  ad_capabilities :
    Forall (λ r, Forall (λ cap, Forall (λ c, str_contains cap c = false) COORDINATOR_CAPABILITIES)
                   (rd_add r)) (td_roles def);
  ad_overrides :
    Forall (λ r, Forall (λ ct, ct ∈ BASE_CHECKPOINT_TYPES ∨ ct ∈ cd_name <$> td_checkpoint_types def)
                   (default [] (rd_checkpoint_types r))) (td_roles def);
  ad_permissions :
    Forall (λ et, ed_permissions et ≠ nil
                  ∧ Forall (λ p, Loader.is_known_role def (ep_sender_role p)
                                 ∧ Loader.is_known_role def (ep_receiver_role p)) (ed_permissions et))
      (td_envelope_types def);
  ad_permitted :
    Forall (λ ct, cd_permitted_roles ct ≠ nil
                  ∧ Forall (λ r, Is_true (Loader.is_known_role def r)) (cd_permitted_roles ct))
      (td_checkpoint_types def);
}.

Lemma unique_ok {E} (e : string → E) seen names :
  unique e seen names = Ok tt ↔ NoDup names ∧ ∀ n, n ∈ names → n ∉ seen.
Proof.
  revert seen. induction names as [|n names IH]; intros seen; cbn [unique].
  - split; [intros _; split; [constructor|set_solver]|done].
  - rewrite NoDup_cons. case_decide; [set_solver|]. rewrite IH. set_solver.
Qed.

Lemma unique_ok_empty {E} (e : string → E) names : unique e ∅ names = Ok tt ↔ NoDup names.
Proof. rewrite unique_ok. set_solver. Qed.

Lemma fresh_ok {A E} (f : A → string) (base : list string) (e : A → E) l :
  for_each (λ x, ensure (negb (bool_decide (f x ∈ base))) (e x)) l = Ok tt
  ↔ Forall (λ x, f x ∉ base) l.
Proof.
  rewrite for_each_ok. apply Forall_iff. intros x. rewrite ensure_ok, negb_True.
  by rewrite bool_decide_spec.
Qed.

Lemma check_inheritance_ok role :
  Loader.check_inheritance role = Ok tt ↔ rd_extends role ∈ ["worker"; "observer"].
Proof. unfold Loader.check_inheritance. by rewrite ensure_ok, bool_decide_spec. Qed.

Lemma check_escalation_ok role :
  Loader.check_escalation role = Ok tt
  ↔ Forall (λ cap, Forall (λ c, str_contains cap c = false) COORDINATOR_CAPABILITIES) (rd_add role).
Proof.
  unfold Loader.check_escalation. rewrite for_each_ok. apply Forall_iff. intros cap.
  rewrite for_each_ok. apply Forall_iff. intros c. rewrite ensure_ok.
  by destruct (str_contains cap c).
Qed.

Lemma check_overrides_ok def role :
  Loader.check_overrides def role = Ok tt
  ↔ Forall (λ ct, ct ∈ BASE_CHECKPOINT_TYPES ∨ ct ∈ cd_name <$> td_checkpoint_types def)
      (default [] (rd_checkpoint_types role)).
Proof.
  unfold Loader.check_overrides. destruct (rd_checkpoint_types role) as [cts|]; cbn.
  - rewrite for_each_ok. apply Forall_iff. intros ct.
    by rewrite ensure_ok, orb_True, !bool_decide_spec.
  - by rewrite Forall_nil.
Qed.

Lemma nonempty_ok {A E} (l : list A) (e : E) :
  ensure (negb (bool_decide (l = nil))) e = Ok tt ↔ l ≠ nil.
Proof.
  destruct l as [|x l].
  - rewrite bool_decide_eq_true_2 by done. done.
  - by rewrite bool_decide_eq_false_2 by done.
Qed.

Lemma check_envelope_type_ok def et :
  Loader.check_envelope_type def et = Ok tt
  ↔ ed_permissions et ≠ nil
    ∧ Forall (λ p, Loader.is_known_role def (ep_sender_role p)
                   ∧ Loader.is_known_role def (ep_receiver_role p)) (ed_permissions et).
Proof.
  unfold Loader.check_envelope_type. rewrite let_ok, nonempty_ok, for_each_ok.
  apply and_iff_compat_l, Forall_iff. intros p. by rewrite let_ok, !ensure_ok.
Qed.

Lemma check_checkpoint_type_ok def ct :
  Loader.check_checkpoint_type def ct = Ok tt
  ↔ cd_permitted_roles ct ≠ nil
    ∧ Forall (λ r, Is_true (Loader.is_known_role def r)) (cd_permitted_roles ct).
Proof.
  unfold Loader.check_checkpoint_type. rewrite let_ok, nonempty_ok, for_each_ok.
  apply and_iff_compat_l, Forall_iff. intros r. by rewrite ensure_ok.
Qed.

Lemma check_ok def pv : Loader.check def pv = Ok tt ↔ admissible def pv.
Proof.
  unfold Loader.check, Loader.check_names. cbv zeta.
  rewrite !let_ok, !unique_ok_empty, !fresh_ok, ensure_ok, bool_decide_spec, !for_each_ok.
  rewrite (Forall_iff _ _ _ check_inheritance_ok), (Forall_iff _ _ _ check_escalation_ok),
    (Forall_iff _ _ _ (check_overrides_ok def)), (Forall_iff _ _ _ (check_envelope_type_ok def)),
    (Forall_iff _ _ _ (check_checkpoint_type_ok def)).
  split; [intros (?&(?&?&?&?&?&?)&?&?&?&?&?); by split|intros []; by split_and!].
Qed.

(** ** The tables of an accepted definition *)

(** Membership in a set of a table of sets. *)
Definition listed (m : gmap string (gset string)) (k x : string) : Prop := x ∈ default ∅ (m !! k).

(** What [load] promises of the taxonomy it returns. *)
Record loaded (def : TaxonomyDefinition) (t : Taxonomy.t) : Prop := {
  ld_names : ∀ name, is_Some (Taxonomy.resolved_roles t !! name) ↔ name ∈ rd_name <$> td_roles def;
  ld_fresh : ∀ name, name ∈ BASE_ROLES → Taxonomy.resolved_roles t !! name = None;
  ld_role : ∀ rd, rd ∈ td_roles def → ∃ role,
    Taxonomy.resolved_roles t !! rd_name rd = Some role
    ∧ rr_name role = rd_name rd
    ∧ (rd_extends rd = "worker" ∧ rr_base role = BaseRole.Worker
       ∨ rd_extends rd = "observer" ∧ rr_base role = BaseRole.Observer)
    ∧ (∀ cap, cap ∈ rr_capabilities role ↔
         cap ∈ rd_add rd ∨ cap ∈ base_capabilities (rr_base role) ∧ cap ∉ rd_remove rd)
    ∧ (∀ ct, ct ∈ rr_checkpoint_types role ↔
         match rd_checkpoint_types rd with
         | Some cts => ct ∈ cts
         | None => ct ∈ base_checkpoint_types (rr_base role)
         end);
  ld_no_escalation : ∀ name role cap c,
    Taxonomy.resolved_roles t !! name = Some role → cap ∈ rr_capabilities role →
    c ∈ COORDINATOR_CAPABILITIES → str_contains cap c = false;
  ld_rows : ∀ row, row ∈ Taxonomy.envelope_permissions t →
    Taxonomy.is_valid_role t (er_sender_role row) ∧ Taxonomy.is_valid_role t (er_receiver_role row)
    ∧ Taxonomy.is_valid_envelope_type t (er_envelope_type row)
    ∧ (er_envelope_type row ∈ BASE_ENVELOPE_TYPES → row ∈ base_permission_rows);
  ld_checkpoints : ∀ ct r, listed (Taxonomy.checkpoint_types t) ct r ↔
    (ct = "artifact" ∧ r = "worker") ∨ (ct = "observation" ∧ r = "observer")
    ∨ (∃ cd, cd ∈ td_checkpoint_types def ∧ cd_name cd = ct ∧ r ∈ cd_permitted_roles cd)
    ∨ (∃ role, Taxonomy.resolved_roles t !! r = Some role ∧ ct ∈ rr_checkpoint_types role);
  ld_permitted : ∀ ct, Taxonomy.is_valid_checkpoint_type t ct → ∃ r,
    listed (Taxonomy.checkpoint_types t) ct r ∧ Taxonomy.is_valid_role t r;
}.

Lemma elem_of_remove_all (l : list string) (s : gset string) x :
  x ∈ fold_left (λ s y, s ∖ {[y]}) l s ↔ x ∈ s ∧ x ∉ l.
Proof. revert s. induction l as [|y l IH]; intros s; cbn; [set_solver|]. rewrite IH. set_solver. Qed.

Lemma elem_of_add_all {A} (f : A → string) (l : list A) (s : gset string) x :
  x ∈ fold_left (λ s y, {[f y]} ∪ s) l s ↔ x ∈ s ∨ x ∈ f <$> l.
Proof. revert s. induction l as [|y l IH]; intros s; cbn; [set_solver|]. rewrite IH. set_solver. Qed.

Lemma base_of_spec e :
  e ∈ ["worker"; "observer"] → ∃ b, Loader.base_of e = Some b ∧
  (e = "worker" ∧ b = BaseRole.Worker ∨ e = "observer" ∧ b = BaseRole.Observer).
Proof.
  intros He. assert (e = "worker" ∨ e = "observer") as [-> | ->] by set_solver.
  - by exists BaseRole.Worker; auto.
  - by exists BaseRole.Observer; auto.
Qed.

Lemma resolve_spec rd :
  rd_extends rd ∈ ["worker"; "observer"] → ∃ role,
    Loader.resolve rd = Some role
    ∧ rr_name role = rd_name rd
    ∧ (rd_extends rd = "worker" ∧ rr_base role = BaseRole.Worker
       ∨ rd_extends rd = "observer" ∧ rr_base role = BaseRole.Observer)
    ∧ (∀ cap, cap ∈ rr_capabilities role ↔
         cap ∈ rd_add rd ∨ cap ∈ base_capabilities (rr_base role) ∧ cap ∉ rd_remove rd)
    ∧ (∀ ct, ct ∈ rr_checkpoint_types role ↔
         match rd_checkpoint_types rd with
         | Some cts => ct ∈ cts
         | None => ct ∈ base_checkpoint_types (rr_base role)
         end).
Proof.
  intros (b & Hb & He)%base_of_spec. unfold Loader.resolve. rewrite Hb. eexists. split; [done|].
  cbn [rr_name rr_base rr_capabilities rr_checkpoint_types]. split_and!; [done|done| |].
  - intros cap. rewrite (elem_of_add_all (λ y, y)), elem_of_remove_all, list_fmap_id. tauto.
  - intros ct. destruct (rd_checkpoint_types rd); [by rewrite elem_of_list_to_set|done].
Qed.

(** Later definitions do not overwrite earlier ones when the names are distinct. *)
Lemma resolve_all_spec roles acc :
  Forall (λ rd, rd_extends rd ∈ ["worker"; "observer"]) roles → NoDup (rd_name <$> roles) →
  (∀ n, n ∈ rd_name <$> roles → acc !! n = None) →
  ∃ m, Loader.resolve_all roles acc = Some m
  ∧ (∀ rd, rd ∈ roles → m !! rd_name rd = Loader.resolve rd)
  ∧ (∀ n, n ∉ rd_name <$> roles → m !! n = acc !! n).
Proof.
  revert acc. induction roles as [|rd roles IH]; intros acc He Hnd Hacc; cbn [Loader.resolve_all].
  - exists acc. split_and!; [done|set_solver|done].
  - apply Forall_cons in He as [He Hes]. rewrite fmap_cons, NoDup_cons in Hnd. destruct Hnd as [Hn Hnd].
    destruct (resolve_spec rd He) as (role & Hr & _). rewrite Hr. cbn [mbind option_bind].
    destruct (IH (<[rd_name rd := role]> acc) Hes Hnd) as (m & Hm & Hin & Hout).
    { intros n Hns. rewrite lookup_insert_ne by set_solver. set_solver. }
    exists m. split_and!; [done| |].
    + intros rd' [-> | Hrd']%elem_of_cons; [|by apply Hin].
      rewrite (Hout _ Hn), Hr. apply lookup_insert_eq.
    + intros n Hns. rewrite fmap_cons, not_elem_of_cons in Hns. destruct Hns.
      by rewrite Hout, lookup_insert_ne.
Qed.

Lemma listed_permit m ct role k r :
  listed (Loader.permit ct role m) k r ↔ listed m k r ∨ k = ct ∧ r = role.
Proof.
  unfold listed, Loader.permit. rewrite lookup_insert. case_decide; subst; cbn; set_solver.
Qed.

Lemma listed_permit_all cts role m k r :
  listed (fold_left (λ m ct, Loader.permit ct role m) cts m) k r
  ↔ listed m k r ∨ k ∈ cts ∧ r = role.
Proof.
  revert m. induction cts as [|ct cts IH]; intros m; cbn; [set_solver|].
  rewrite IH, listed_permit. set_solver.
Qed.

Lemma listed_permit_roles `{HashOrder} roles m k r :
  listed (fold_left (λ m role, fold_left (λ m ct, Loader.permit ct (rr_name role) m)
                                 (set_iter (rr_checkpoint_types role)) m) roles m) k r
  ↔ listed m k r ∨ ∃ role, role ∈ roles ∧ k ∈ rr_checkpoint_types role ∧ r = rr_name role.
Proof.
  revert m. induction roles as [|role roles IH]; intros m; cbn [fold_left]; [set_solver|].
  rewrite IH, listed_permit_all, elem_of_set_iter. set_solver.
Qed.

Lemma listed_custom cts m k r :
  NoDup (cd_name <$> cts) →
  listed (fold_left (λ m cd, <[cd_name cd := list_to_set (cd_permitted_roles cd)]> m) cts m) k r
  ↔ (listed m k r ∧ k ∉ cd_name <$> cts)
    ∨ ∃ cd, cd ∈ cts ∧ cd_name cd = k ∧ r ∈ cd_permitted_roles cd.
Proof.
  revert m. induction cts as [|cd cts IH]; intros m Hnd; cbn [fold_left]; [set_solver|].
  rewrite fmap_cons, NoDup_cons in Hnd. destruct Hnd as [Hn Hnd]. rewrite IH by done.
  unfold listed at 1. rewrite lookup_insert. case_decide as Hk; cbn.
  - subst k. rewrite elem_of_list_to_set. set_solver.
  - set_solver.
Qed.

(** No entry of a table is empty. *)
Definition all_listed (m : gmap string (gset string)) : Prop :=
  map_Forall (λ _ s, ∃ r, r ∈ s) m.

Lemma all_listed_permit m ct role : all_listed m → all_listed (Loader.permit ct role m).
Proof. intros Hm. apply map_Forall_insert_2; [set_solver|done]. Qed.

Lemma all_listed_table `{HashOrder} def roles :
  Forall (λ ct, cd_permitted_roles ct ≠ nil) (td_checkpoint_types def) →
  all_listed (Loader.checkpoint_table def roles).
Proof.
  intros Hne. unfold Loader.checkpoint_table. cbv zeta.
  apply fold_left_inv; [intros m role _ Hm; apply fold_left_inv; [|done]; intros; by apply all_listed_permit|].
  apply fold_left_inv.
  - intros m ct Hct Hm. apply map_Forall_insert_2; [|done].
    rewrite Forall_forall in Hne. specialize (Hne ct Hct).
    destruct (cd_permitted_roles ct) as [|r rs]; [done|]. exists r. set_solver.
  - apply map_Forall_insert_2; [set_solver|]. apply map_Forall_insert_2; [set_solver|].
    apply map_Forall_empty.
Qed.

Lemma listed_base k r :
  listed (<["observation" := {["observer"]}]> (<["artifact" := {["worker"]}]> ∅)) k r
  ↔ (k = "artifact" ∧ r = "worker") ∨ (k = "observation" ∧ r = "observer").
Proof.
  unfold listed. rewrite !lookup_insert, lookup_empty.
  destruct (decide ("observation" = k)) as [<- | ?]; [set_solver|].
  destruct (decide ("artifact" = k)) as [<- | ?]; set_solver.
Qed.

Lemma checkpoint_table_spec `{HashOrder} def roles :
  NoDup (cd_name <$> td_checkpoint_types def) →
  Forall (λ ct, cd_name ct ∉ BASE_CHECKPOINT_TYPES) (td_checkpoint_types def) →
  (∀ n role, roles !! n = Some role → rr_name role = n) →
  ∀ ct r, listed (Loader.checkpoint_table def roles) ct r ↔
    (ct = "artifact" ∧ r = "worker") ∨ (ct = "observation" ∧ r = "observer")
    ∨ (∃ cd, cd ∈ td_checkpoint_types def ∧ cd_name cd = ct ∧ r ∈ cd_permitted_roles cd)
    ∨ (∃ role, roles !! r = Some role ∧ ct ∈ rr_checkpoint_types role).
Proof.
  intros Hnd Hfresh Hnames ct r. unfold Loader.checkpoint_table. cbv zeta.
  rewrite listed_permit_roles, listed_custom, listed_base by done.
  assert (ct = "artifact" ∨ ct = "observation" → ct ∉ cd_name <$> td_checkpoint_types def) as Hbase.
  { intros Hct (cd & -> & Hcd)%list_elem_of_fmap. rewrite Forall_forall in Hfresh.
    apply (Hfresh cd Hcd). unfold BASE_CHECKPOINT_TYPES. set_solver. }
  assert ((∃ role, role ∈ values roles ∧ ct ∈ rr_checkpoint_types role ∧ r = rr_name role)
          ↔ ∃ role, roles !! r = Some role ∧ ct ∈ rr_checkpoint_types role) as ->; [|tauto].
  split.
  - intros (role & [n Hn]%elem_of_values & Hct & ->). exists role. by rewrite (Hnames _ _ Hn).
  - intros (role & Hr & Hct). exists role. rewrite elem_of_values, (Hnames _ _ Hr). eauto.
Qed.

Lemma base_capabilities_plain b cap c :
  cap ∈ base_capabilities b → c ∈ COORDINATOR_CAPABILITIES → str_contains cap c = false.
Proof.
  assert (Forall (λ cap, Forall (λ c, str_contains cap c = false) COORDINATOR_CAPABILITIES)
            ["send: query → coordinator"; "create: artifact"; "create: observation"]) as Hall
    by (repeat constructor).
  rewrite Forall_forall in Hall. intros Hcap Hc.
  assert (cap ∈ ["send: query → coordinator"; "create: artifact"; "create: observation"]) as Hin
    by (destruct b; cbn in Hcap; set_solver).
  specialize (Hall cap Hin). rewrite Forall_forall in Hall. auto.
Qed.

Lemma elem_of_permission_rows def row :
  row ∈ Loader.permission_rows def ↔ row ∈ base_permission_rows
  ∨ ∃ et p, et ∈ td_envelope_types def ∧ p ∈ ed_permissions et
            ∧ row = {| er_sender_role := ep_sender_role p; er_envelope_type := ed_name et;
                       er_receiver_role := ep_receiver_role p |}.
Proof.
  unfold Loader.permission_rows. rewrite elem_of_app. apply or_iff_compat_l.
  rewrite list_elem_of_bind. split.
  - intros (et & (p & -> & Hp)%list_elem_of_fmap & Het). eauto.
  - intros (et & p & Het & Hp & ->). exists et. split; [|done]. apply list_elem_of_fmap. eauto.
Qed.

Section load.
Context `{HashOrder} (def : TaxonomyDefinition) (roles : gmap string ResolvedRole).
Hypothesis Had : admissible def (td_protocol_version def).
Hypothesis Hin : ∀ rd, rd ∈ td_roles def → roles !! rd_name rd = Loader.resolve rd.
Hypothesis Hout : ∀ n, n ∉ rd_name <$> td_roles def → roles !! n = None.

Lemma roles_inv name role :
  roles !! name = Some role → ∃ rd, rd ∈ td_roles def ∧ rd_name rd = name ∧ Loader.resolve rd = Some role.
Proof using Hin Hout.
  intros Hr. destruct (decide (name ∈ rd_name <$> td_roles def)) as [Hd | Hd].
  - apply list_elem_of_fmap in Hd as (rd & -> & Hrd). exists rd. by rewrite <- Hin.
  - rewrite Hout in Hr by done. done.
Qed.

Lemma role_extends rd : rd ∈ td_roles def → rd_extends rd ∈ ["worker"; "observer"].
Proof using Had. pose proof (ad_extends _ _ Had) as He. rewrite Forall_forall in He. apply He. Qed.

Lemma roles_names name : is_Some (roles !! name) ↔ name ∈ rd_name <$> td_roles def.
Proof using Had Hin Hout.
  split.
  - intros [role Hr]. destruct (roles_inv _ _ Hr) as (rd & Hrd & <- & _). apply list_elem_of_fmap. eauto.
  - intros (rd & -> & Hrd)%list_elem_of_fmap. rewrite Hin by done.
    destruct (resolve_spec rd (role_extends rd Hrd)) as (role & -> & _). eauto.
Qed.

Lemma known_valid tys perms cts vs r :
  Loader.is_known_role def r →
  Taxonomy.is_valid_role (Taxonomy.Mk (td_id def) vs (td_protocol_version def) roles tys perms cts) r.
Proof using Had Hin Hout.
  unfold Loader.is_known_role, Taxonomy.is_valid_role. cbn [Taxonomy.resolved_roles].
  rewrite !orb_True, !bool_decide_spec, roles_names. done.
Qed.

Lemma roles_no_escalation name role cap c :
  roles !! name = Some role → cap ∈ rr_capabilities role → c ∈ COORDINATOR_CAPABILITIES →
  str_contains cap c = false.
Proof using Had Hin Hout.
  intros (rd & Hrd & <- & Hr)%roles_inv Hcap Hc.
  destruct (resolve_spec rd (role_extends rd Hrd)) as (role' & Hr' & _ & _ & Hcaps & _).
  rewrite Hr in Hr'. injection Hr' as <-. apply Hcaps in Hcap as [Hadd | [Hb _]].
  - pose proof (ad_capabilities _ _ Had) as Hall. rewrite Forall_forall in Hall.
    specialize (Hall rd Hrd). rewrite Forall_forall in Hall. specialize (Hall cap Hadd).
    rewrite Forall_forall in Hall. auto.
  - by eapply base_capabilities_plain.
Qed.
Lemma rows_ok vs cts row :
  let t := Taxonomy.Mk (td_id def) vs (td_protocol_version def) roles
             (fold_left (λ s et, {[ed_name et]} ∪ s) (td_envelope_types def)
                (list_to_set BASE_ENVELOPE_TYPES))
             (Loader.permission_rows def) cts in
  row ∈ Loader.permission_rows def →
  Taxonomy.is_valid_role t (er_sender_role row) ∧ Taxonomy.is_valid_role t (er_receiver_role row)
  ∧ Taxonomy.is_valid_envelope_type t (er_envelope_type row)
  ∧ (er_envelope_type row ∈ BASE_ENVELOPE_TYPES → row ∈ base_permission_rows).
Proof using Had Hin Hout.
  intros t. unfold Taxonomy.is_valid_envelope_type. cbn [Taxonomy.envelope_types t].
  rewrite bool_decide_spec, elem_of_add_all, elem_of_list_to_set.
  intros [Hb | (et & p & Het & Hp & ->)]%elem_of_permission_rows.
  - unfold base_permission_rows in Hb.
    rewrite !elem_of_cons, elem_of_nil in Hb. destruct Hb as [-> | [-> | [-> | []]]];
      (split_and!; [by apply orb_True; left; apply bool_decide_spec; set_solver..| |]); cbn; set_solver.
  - pose proof (ad_permissions _ _ Had) as Hall. rewrite Forall_forall in Hall.
    destruct (Hall et Het) as [_ Hps]. rewrite Forall_forall in Hps. destruct (Hps p Hp) as [Hs Hr].
    pose proof (ad_envelopes_fresh _ _ Had) as Hf. rewrite Forall_forall in Hf.
    split_and!; [by apply known_valid|by apply known_valid| |].
    + right. apply list_elem_of_fmap. eauto.
    + intros Hb. destruct (Hf et Het Hb).
Qed.

Lemma permitted_ok vs perms tys ct :
  let t := Taxonomy.Mk (td_id def) vs (td_protocol_version def) roles tys perms
             (Loader.checkpoint_table def roles) in
  (∀ n role, roles !! n = Some role → rr_name role = n) →
  Taxonomy.is_valid_checkpoint_type t ct →
  ∃ r, listed (Taxonomy.checkpoint_types t) ct r ∧ Taxonomy.is_valid_role t r.
Proof using Had Hin Hout.
  intros t Hnames. unfold Taxonomy.is_valid_checkpoint_type. rewrite bool_decide_spec.
  intros [s Hs]. pose proof (ad_permitted _ _ Had) as Hp.
  destruct (all_listed_table def roles) with (i := ct) (x := s) as [r Hr]; [|done|].
  { eapply Forall_impl; [exact Hp|]. by intros ? []. }
  assert (listed (Loader.checkpoint_table def roles) ct r) as Hl by (unfold listed; cbn in Hs; by rewrite Hs).
  exists r. split; [done|].
  apply checkpoint_table_spec in Hl; [|apply Had|apply Had|done].
  destruct Hl as [[_ ->] | [[_ ->] | [(cd & Hcd & _ & Hrc) | (role & Hr' & _)]]].
  - by apply orb_True; left; apply bool_decide_spec; set_solver.
  - by apply orb_True; left; apply bool_decide_spec; set_solver.
  - rewrite Forall_forall in Hp. destruct (Hp cd Hcd) as [_ Hall]. rewrite Forall_forall in Hall.
    by apply known_valid, Hall.
  - apply orb_True. right. apply bool_decide_spec. eexists. exact Hr'.
Qed.
End load.

Lemma build_loaded `{HashOrder} def :
  admissible def (td_protocol_version def) → ∃ t, Loader.build def = Some t ∧ loaded def t.
Proof.
  intros Had. destruct (resolve_all_spec (td_roles def) ∅) as (roles & Hm & Hin & Hout);
    [apply Had|apply Had|done|].
  unfold Loader.build. rewrite Hm. eexists. split; [done|].
  assert (∀ n role, roles !! n = Some role → rr_name role = n) as Hnames.
  { intros n role Hr. destruct (roles_inv def roles Hin Hout n role Hr) as (rd & Hrd & <- & E).
    destruct (resolve_spec rd) as (role' & E' & Hn & _); [by eapply role_extends|]. congruence. }
  split; cbn [Taxonomy.resolved_roles Taxonomy.envelope_permissions Taxonomy.checkpoint_types].
  - by apply (roles_names def).
  - intros name Hb. apply Hout. intros (rd & -> & Hrd)%list_elem_of_fmap.
    pose proof (ad_roles_fresh _ _ Had) as Hf. rewrite Forall_forall in Hf. by apply (Hf rd).
  - intros rd Hrd. rewrite Hin by done. apply resolve_spec. by eapply role_extends.
  - by apply (roles_no_escalation def).
  - intros row Hrow. by apply (rows_ok def).
  - apply checkpoint_table_spec; [apply Had|apply Had|done].
  - intros ct Hct. by apply (permitted_ok def).
Qed.

(** C16. Loading a taxonomy never reaches the [unreachable!()] branch, whatever the
    hash order.  It accepts exactly the admissible definitions, and from an accepted one
    it builds tables in which the derived roles are those defined, each on top of worker
    or observer and without any coordinator capability; every permission row names
    known roles and a known type and leaves the base envelope types alone; and a role
    may create a checkpoint type exactly when the base rules, the type's own list or the
    role's definition say so, with every type open to some known role. *)
Theorem taxonomy_load_exact `{HashOrder} (def : TaxonomyDefinition) (protocol_version : string) :
  (admissible def protocol_version →
     ∃ t, Loader.load def protocol_version = Some (Ok t) ∧ loaded def t)
  ∧ (~ admissible def protocol_version →
     ∃ e, Loader.load def protocol_version = Some (Err e)).
Proof.
  unfold Loader.load. split; intros Had.
  - rewrite (proj2 (check_ok def protocol_version) Had). pose proof (ad_version _ _ Had) as <-.
    destruct (build_loaded def Had) as (t & -> & Ht). eexists. by split.
  - destruct (Loader.check def protocol_version) as [[]|e] eqn:E; [|by eexists].
    destruct Had. by apply check_ok.
Qed.
