(* ===== verification/Permissions.v ===== *)
(** * Permission engine (crate wacp-permissions: lib.rs)

    The three lookup tables built from a taxonomy and the port rights granted at run
    time.  The theorems characterise every decision of an engine built from a loaded
    taxonomy, and bound how often a single-use right can be spent. *)

From S2P Require Import Prelude Types Taxonomy.

#[global] Instance signal_type_countable : Countable SignalType.t.
Proof.
  refine (inj_countable'
    (λ s, match s with
          | SignalType.Ready => 0 | SignalType.Started => 1 | SignalType.Blocked => 2
          | SignalType.Checkpoint => 3 | SignalType.Complete => 4 | SignalType.Failed => 5
          | SignalType.Integrate => 6 | SignalType.Acknowledged => 7 | SignalType.Escalation => 8
          | SignalType.Suspend => 9 | SignalType.Migrate => 10 end%nat)
    (λ n, match n with
          | 0 => SignalType.Ready | 1 => SignalType.Started | 2 => SignalType.Blocked
          | 3 => SignalType.Checkpoint | 4 => SignalType.Complete | 5 => SignalType.Failed
          | 6 => SignalType.Integrate | 7 => SignalType.Acknowledged | 8 => SignalType.Escalation
          | 9 => SignalType.Suspend | _ => SignalType.Migrate end%nat) _).
  by intros [].
Defined.

Inductive Action :=
| SendEnvelope (sender_role envelope_type receiver_role : string)
    (sender_workspace receiver_workspace : WorkspaceId) (origin : EnvelopeOrigin.t)
| CreateCheckpointAction (role checkpoint_type : string)
| EmitSignalAction (role : string) (signal_type : SignalType.t).

Inductive PermissionDenied :=
| NotInPermissionMatrix (rule : string)
| NoPortRight (rule : string)
| CheckpointTypeNotPermitted (rule : string)
| SignalTypeNotPermitted (rule : string).

Definition coordinator_emit_set : gset SignalType.t :=
  list_to_set [SignalType.Ready; SignalType.Started; SignalType.Failed; SignalType.Integrate;
               SignalType.Acknowledged].

Definition worker_emit_set : gset SignalType.t :=
  list_to_set [SignalType.Ready; SignalType.Started; SignalType.Blocked; SignalType.Checkpoint;
               SignalType.Complete; SignalType.Failed; SignalType.Escalation].

Definition observer_emit_set : gset SignalType.t :=
  list_to_set [SignalType.Ready; SignalType.Started; SignalType.Complete; SignalType.Failed;
               SignalType.Escalation].

Module PermissionEngine.
Record t := Mk {
  permission_matrix : gset (string * string * string);
  checkpoint_table : gmap string (gset string);
  signal_emit_sets : gmap string (gset SignalType.t);
  role_bases : gmap string string;
  port_rights : gmap string (list PortRight);
}.

Definition base_name (base : BaseRole.t) : string :=
  match base with
  | BaseRole.Coordinator => "coordinator"
  | BaseRole.Worker => "worker"
  | BaseRole.Observer => "observer"
  end.

(** One turn of the loop over the resolved roles. *)
Definition add_role (acc : gmap string (gset SignalType.t) * gmap string string)
    (entry : string * ResolvedRole) : gmap string (gset SignalType.t) * gmap string string :=
  let '(signal_emit_sets, role_bases) := acc in
  let '(name, resolved) := entry in
  let base := base_name (rr_base resolved) in
  (<[name := default ∅ (signal_emit_sets !! base)]> signal_emit_sets, <[name := base]> role_bases).

Definition new `{HashOrder} (taxonomy : Taxonomy.t) : t :=
  let permission_matrix :=
    fold_left (λ s row, {[(er_sender_role row, er_envelope_type row, er_receiver_role row)]} ∪ s)
      (Taxonomy.envelope_permissions taxonomy) ∅ in
  let signal_emit_sets :=
    <["observer" := observer_emit_set]> (<["worker" := worker_emit_set]>
      (<["coordinator" := coordinator_emit_set]> ∅)) in
  let role_bases :=
    <["observer" := "observer"]> (<["worker" := "worker"]> (<["coordinator" := "coordinator"]> ∅)) in
  let '(signal_emit_sets, role_bases) :=
    fold_left add_role (hash_iter (Taxonomy.resolved_roles taxonomy)) (signal_emit_sets, role_bases) in
  Mk permission_matrix (Taxonomy.checkpoint_types taxonomy) signal_emit_sets role_bases ∅.

Definition allows (self : t) (sender envelope_type receiver : string) : bool :=
  bool_decide ((sender, envelope_type, receiver) ∈ permission_matrix self).

Definition matrix_allows (self : t) (sender envelope_type receiver : string) : bool :=
  if allows self sender envelope_type receiver then true else
  let sender_base := role_bases self !! sender in
  let receiver_base := role_bases self !! receiver in
  if match sender_base with
     | Some sb =>
         allows self sb envelope_type receiver
         || match receiver_base with Some rb => allows self sb envelope_type rb | None => false end
     | None => false
     end then true else
  match receiver_base with Some rb => allows self sender envelope_type rb | None => false end.

Definition sends (target : WorkspaceId) (r : PortRight) : bool :=
  bool_decide (pr_target r = target)
  && match pr_right_type r with PortRightType.Send | PortRightType.SendOnce => true | _ => false end.

Definition has_send_right (self : t) (holder target : WorkspaceId) : bool :=
  match port_rights self !! holder with
  | Some rights => existsb (sends target) rights
  | None => false
  end.

Definition check_envelope_send (self : t) (sender_role envelope_type receiver_role : string)
    (sender_workspace receiver_workspace : WorkspaceId) (origin : EnvelopeOrigin.t)
    : result unit PermissionDenied :=
  if decide (origin = EnvelopeOrigin.Human) then Ok tt
  else if negb (matrix_allows self sender_role envelope_type receiver_role)
  then Err (NotInPermissionMatrix "§5.5")
  else if negb (has_send_right self sender_workspace receiver_workspace)
  then Err (NoPortRight "§5.6")
  else Ok tt.

Definition check_checkpoint_create (self : t) (role checkpoint_type : string)
    : result unit PermissionDenied :=
  if match checkpoint_table self !! checkpoint_type with
     | Some permitted =>
         bool_decide (role ∈ permitted)
         || match role_bases self !! role with Some base => bool_decide (base ∈ permitted) | None => false end
     | None => false
     end then Ok tt else Err (CheckpointTypeNotPermitted "§7.2").

Definition check_signal_emit (self : t) (role : string) (signal_type : SignalType.t)
    : result unit PermissionDenied :=
  if match signal_emit_sets self !! role with
     | Some emit_set => bool_decide (signal_type ∈ emit_set)
     | None => false
     end then Ok tt else Err (SignalTypeNotPermitted "§5.2").

Definition evaluate (self : t) (action : Action) : result unit PermissionDenied :=
  match action with
  | SendEnvelope sender ty receiver from to origin =>
      check_envelope_send self sender ty receiver from to origin
  | CreateCheckpointAction role ty => check_checkpoint_create self role ty
  | EmitSignalAction role ty => check_signal_emit self role ty
  end.

Definition with_rights (rights : gmap string (list PortRight)) (self : t) : t :=
  Mk (permission_matrix self) (checkpoint_table self) (signal_emit_sets self) (role_bases self) rights.

Definition grant_port_right (self : t) (right : PortRight) : t :=
  with_rights (push_entry (pr_holder right) right (port_rights self)) self.

Definition revoke_port_right (self : t) (holder target : WorkspaceId) (right_type : PortRightType.t) : t :=
  with_rights (retain_at (λ r, ¬ (pr_target r = target ∧ pr_right_type r = right_type)) holder
                 (port_rights self)) self.

(** [rights.remove(rights.iter().position(p)?)] *)
Fixpoint remove_first (p : PortRight → bool) (l : list PortRight) : option (list PortRight) :=
  match l with
  | [] => None
  | r :: l => if p r then Some l else cons r <$> remove_first p l
  end.

Definition is_once (target : WorkspaceId) (r : PortRight) : bool :=
  bool_decide (pr_target r = target ∧ pr_right_type r = PortRightType.SendOnce).

Definition consume_send_once (self : t) (holder target : WorkspaceId) : t * bool :=
  match rights ← port_rights self !! holder; remove_first (is_once target) rights with
  | Some rights => (with_rights (<[holder := rights]> (port_rights self)) self, true)
  | None => (self, false)
  end.
End PermissionEngine.

(** ** Decisions *)

Definition base_emit_set (b : BaseRole.t) : gset SignalType.t :=
  match b with
  | BaseRole.Coordinator => coordinator_emit_set
  | BaseRole.Worker => worker_emit_set
  | BaseRole.Observer => observer_emit_set
  end.

(** The base role a name stands for: a base name itself, or a derived role's base. *)
Definition base_of_role (t : Taxonomy.t) (role : string) : option BaseRole.t :=
  if decide (role = "coordinator") then Some BaseRole.Coordinator
  else if decide (role = "worker") then Some BaseRole.Worker
  else if decide (role = "observer") then Some BaseRole.Observer
  else rr_base <$> Taxonomy.resolved_roles t !! role.

(** The names under which a role may be listed: its own and its base's. *)
Definition stands_for (t : Taxonomy.t) (role name : string) : Prop :=
  name = role ∨ ∃ b, base_of_role t role = Some b ∧ name = PermissionEngine.base_name b.

Inductive right_op :=
| GrantRight (right : PortRight)
| RevokeRight (holder target : WorkspaceId) (right_type : PortRightType.t)
| ConsumeOnce (holder target : WorkspaceId).

Definition right_step (e : PermissionEngine.t) (op : right_op) : PermissionEngine.t * bool :=
  match op with
  | GrantRight pr => (PermissionEngine.grant_port_right e pr, false)
  | RevokeRight holder target ty => (PermissionEngine.revoke_port_right e holder target ty, false)
  | ConsumeOnce holder target => PermissionEngine.consume_send_once e holder target
  end.

Fixpoint right_run (e : PermissionEngine.t) (ops : list right_op) : PermissionEngine.t * list bool :=
  match ops with
  | [] => (e, [])
  | op :: ops => let '(e, b) := right_step e op in let '(e, bs) := right_run e ops in (e, b :: bs)
  end.

Definition same_tables (e e' : PermissionEngine.t) : Prop :=
  PermissionEngine.permission_matrix e = PermissionEngine.permission_matrix e'
  ∧ PermissionEngine.checkpoint_table e = PermissionEngine.checkpoint_table e'
  ∧ PermissionEngine.signal_emit_sets e = PermissionEngine.signal_emit_sets e'
  ∧ PermissionEngine.role_bases e = PermissionEngine.role_bases e'.

Lemma right_step_tables e op : same_tables (right_step e op).1 e.
Proof.
  destruct op; [done|done|]. cbn. unfold PermissionEngine.consume_send_once. by destruct (_ ≫= _).
Qed.

Lemma right_run_tables e ops : same_tables (right_run e ops).1 e.
Proof.
  revert e. induction ops as [|op ops IH]; intros e; [done|]. cbn [right_run].
  pose proof (right_step_tables e op) as Hs. destruct (right_step e op) as [e1 b].
  specialize (IH e1). destruct (right_run e1 ops). cbn in *. unfold same_tables in *.
  destruct IH as (-> & -> & -> & ->). exact Hs.
Qed.

Lemma add_roles_spec l E B E' B' :
  NoDup l.*1 → (∀ n, n ∈ l.*1 → n ∉ BASE_ROLES) →
  (∀ b, E !! PermissionEngine.base_name b = Some (base_emit_set b)) →
  fold_left PermissionEngine.add_role l (E, B) = (E', B') →
  (∀ r role, (r, role) ∈ l → E' !! r = Some (base_emit_set (rr_base role))
                             ∧ B' !! r = Some (PermissionEngine.base_name (rr_base role)))
  ∧ (∀ r, r ∉ l.*1 → E' !! r = E !! r ∧ B' !! r = B !! r).
Proof.
  revert E B. induction l as [|[n role] l IH]; intros E B Hnd Hbase HE Hf.
  { cbn in Hf. injection Hf as <- <-. split; [set_solver|done]. }
  cbn [fold_left PermissionEngine.add_role] in Hf. rewrite HE in Hf. cbn [default] in Hf.
  rewrite fmap_cons, NoDup_cons in Hnd. destruct Hnd as [Hn Hnd]. cbn [fst] in Hn.
  apply IH in Hf as [Hin Hout]; [|done|set_solver|].
  - split.
    + intros r role' [[= -> ->] | Hr]%elem_of_cons; [|by apply Hin].
      destruct (Hout n Hn) as [-> ->]. by rewrite !lookup_insert_eq.
    + intros r Hr. rewrite fmap_cons, not_elem_of_cons in Hr. destruct Hr as [Hne Hr].
      destruct (Hout r Hr) as [-> ->]. cbn in Hne. by rewrite !lookup_insert_ne.
  - intros b. rewrite lookup_insert_ne; [apply HE|]. intros ->.
    apply (Hbase (PermissionEngine.base_name b)); [cbn; left|]. destruct b; cbn; set_solver.
Qed.

Lemma decide_swap {A} (x y : string) (a b : A) :
  (if decide (x = y) then a else b) = (if decide (y = x) then a else b).
Proof. by repeat case_decide; subst. Qed.

Lemma new_tables `{HashOrder} t role :
  (∀ name, name ∈ BASE_ROLES → Taxonomy.resolved_roles t !! name = None) →
  PermissionEngine.role_bases (PermissionEngine.new t) !! role
    = PermissionEngine.base_name <$> base_of_role t role
  ∧ PermissionEngine.signal_emit_sets (PermissionEngine.new t) !! role
    = base_emit_set <$> base_of_role t role.
Proof.
  intros Hfresh. unfold PermissionEngine.new.
  destruct (fold_left _ _ _) as [E B] eqn:Hf.
  apply add_roles_spec in Hf as [Hin Hout]; [|apply hash_iter_NoDup| |by intros []].
  2: { intros n ([n' role'] & -> & Hn)%list_elem_of_fmap Hb.
       apply elem_of_hash_iter in Hn. cbn in Hb. rewrite Hfresh in Hn; done. }
  cbn [PermissionEngine.role_bases PermissionEngine.signal_emit_sets].
  destruct (Taxonomy.resolved_roles t !! role) as [r|] eqn:Hr.
  - pose proof (Hin role r) as Hin'. rewrite elem_of_hash_iter in Hin'. destruct (Hin' Hr) as [-> ->].
    unfold base_of_role. rewrite Hr.
    do 3 (rewrite decide_False by (intros ->; rewrite Hfresh in Hr; [done|cbn; set_solver])). done.
  - destruct (Hout role) as [-> ->].
    { intros ([n r] & -> & Hn)%list_elem_of_fmap. apply elem_of_hash_iter in Hn. cbn in Hr. congruence. }
    unfold base_of_role. rewrite Hr.
    rewrite !lookup_insert, lookup_empty, !(decide_swap "coordinator" role), !(decide_swap "worker" role),
      !(decide_swap "observer" role).
    repeat (case_decide; subst; try done).
Qed.

Definition row (sender ty receiver : string) : EnvelopePermissionRow :=
  {| er_sender_role := sender; er_envelope_type := ty; er_receiver_role := receiver |}.

Lemma new_matrix `{HashOrder} t s ty r :
  PermissionEngine.allows (PermissionEngine.new t) s ty r
  ↔ row s ty r ∈ Taxonomy.envelope_permissions t.
Proof.
  unfold PermissionEngine.allows, PermissionEngine.new. destruct (fold_left _ _ _) as [E B].
  cbn [PermissionEngine.permission_matrix]. rewrite bool_decide_spec.
  assert (∀ rows (m : gset (string * string * string)),
    (s, ty, r) ∈ fold_left (λ m w, {[(er_sender_role w, er_envelope_type w, er_receiver_role w)]} ∪ m) rows m
    ↔ (s, ty, r) ∈ m ∨ row s ty r ∈ rows) as Hfold; [|by rewrite Hfold; set_solver].
  intros rows. induction rows as [|w rows IH]; intros m; cbn [fold_left]; [set_solver|].
  rewrite IH, elem_of_union, elem_of_singleton, elem_of_cons.
  assert ((s, ty, r) = (er_sender_role w, er_envelope_type w, er_receiver_role w) ↔ row s ty r = w) as ->;
    [|tauto].
  destruct w; unfold row; cbn. split; [by intros [= -> -> ->]|by intros [= -> -> ->]].
Qed.

(** The four lookups of [matrix_allows] cover every pair of names. *)
Lemma matrix_allows_iff e (s ty r : string) :
  PermissionEngine.matrix_allows e s ty r ↔
  ∃ s' r', (s' = s ∨ PermissionEngine.role_bases e !! s = Some s')
           ∧ (r' = r ∨ PermissionEngine.role_bases e !! r = Some r')
           ∧ PermissionEngine.allows e s' ty r'.
Proof.
  unfold PermissionEngine.matrix_allows.
  set (sb := PermissionEngine.role_bases e !! s). set (rb := PermissionEngine.role_bases e !! r).
  split.
  - destruct (PermissionEngine.allows e s ty r) eqn:E1; [intros _; exists s, r; rewrite E1; auto|].
    destruct sb as [sb|], rb as [rb|];
      repeat match goal with |- context [PermissionEngine.allows e ?a ty ?b] =>
        let E := fresh in destruct (PermissionEngine.allows e a ty b) eqn:E;
          [intros _; exists a, b; rewrite E; auto|] end; done.
  - intros (s' & r' & Hs & Hr & Ha%Is_true_true). destruct Hs as [-> | ->], Hr as [-> | ->];
      rewrite Ha, ?orb_true_r; try done;
      repeat match goal with |- context [if ?b then _ else _] => destruct b; try done end.
Qed.

Lemma stands_for_bases `{HashOrder} t role x :
  (∀ name, name ∈ BASE_ROLES → Taxonomy.resolved_roles t !! name = None) →
  stands_for t role x ↔
  x = role ∨ PermissionEngine.role_bases (PermissionEngine.new t) !! role = Some x.
Proof.
  intros Hf. destruct (new_tables t role Hf) as [-> _]. unfold stands_for. apply or_iff_compat_l.
  rewrite fmap_Some. done.
Qed.

Lemma has_send_right_iff e h tgt :
  PermissionEngine.has_send_right e h tgt ↔
  ∃ r, r ∈ idx (PermissionEngine.port_rights e) h ∧ pr_target r = tgt
       ∧ pr_right_type r ≠ PortRightType.Receive.
Proof.
  unfold PermissionEngine.has_send_right, idx.
  destruct (_ !! h) as [rights|]; cbn; [|split; [done|set_solver]].
  rewrite Is_true_true, existsb_exists. split.
  - intros (r & Hr%list_elem_of_In & Hs). exists r. unfold PermissionEngine.sends in Hs.
    apply andb_true_iff in Hs as [Ht%bool_decide_eq_true Hty]. by destruct (pr_right_type r).
  - intros (r & Hr%list_elem_of_In & Ht & Hty). exists r. split; [done|]. unfold PermissionEngine.sends.
    rewrite bool_decide_eq_true_2 by done. by destruct (pr_right_type r).
Qed.

Lemma matrix_allows_tables e e' s ty r :
  same_tables e e' → PermissionEngine.matrix_allows e s ty r = PermissionEngine.matrix_allows e' s ty r.
Proof.
  intros (Hm & _ & _ & Hb). unfold PermissionEngine.matrix_allows, PermissionEngine.allows.
  by rewrite Hm, Hb.
Qed.

(** The matrix of an engine built from a loaded taxonomy, in terms of its rows. *)
Lemma new_matrix_allows `{HashOrder} t s ty r :
  (∀ name, name ∈ BASE_ROLES → Taxonomy.resolved_roles t !! name = None) →
  PermissionEngine.matrix_allows (PermissionEngine.new t) s ty r ↔
  ∃ s' r', stands_for t s s' ∧ stands_for t r r' ∧ row s' ty r' ∈ Taxonomy.envelope_permissions t.
Proof.
  intros Hf. rewrite matrix_allows_iff. split.
  - intros (s' & r' & Hs & Hr & Ha). exists s', r'. by rewrite !stands_for_bases, <- new_matrix by done.
  - intros (s' & r' & Hs & Hr & Ha). exists s', r'. by rewrite <- !stands_for_bases, new_matrix by done.
Qed.

Lemma load_fresh `{HashOrder} def pv t :
  Loader.load def pv = Some (Ok t) →
  ∀ name, name ∈ BASE_ROLES → Taxonomy.resolved_roles t !! name = None.
Proof.
  unfold Loader.load. intros E. destruct (Loader.check def pv) as [[]|] eqn:Hc; [|done].
  apply check_ok in Hc. pose proof (ad_version _ _ Hc) as <-.
  destruct (build_loaded def Hc) as (t' & Hb & Hl). rewrite Hb in E. injection E as <-. apply Hl.
Qed.

(** C15. Every decision of a permission engine built from a loaded taxonomy, after any
    grants, revocations and consumptions: a human's envelope always passes, with or
    without a port right; an agent's passes exactly when some row of the taxonomy lists
    it, for the roles or their bases, whatever a derived role removes, and the sender
    holds a send right on the receiver; a checkpoint may be created exactly when its
    type lists the role or its base; a signal may be emitted exactly when the emit set
    of the role's base has it, and never by an unknown role. *)
Theorem permission_decisions_exact `{HashOrder} (def : TaxonomyDefinition) (pv : string)
    (t : Taxonomy.t) (ops : list right_op) :
  Loader.load def pv = Some (Ok t) →
  let e := (right_run (PermissionEngine.new t) ops).1 in
  (∀ sender ty receiver from to origin,
     PermissionEngine.evaluate e (SendEnvelope sender ty receiver from to origin) = Ok tt ↔
     origin = EnvelopeOrigin.Human
     ∨ (∃ s r, stands_for t sender s ∧ stands_for t receiver r
               ∧ row s ty r ∈ Taxonomy.envelope_permissions t)
       ∧ ∃ pr, pr ∈ idx (PermissionEngine.port_rights e) from ∧ pr_target pr = to
               ∧ pr_right_type pr ≠ PortRightType.Receive)
  ∧ (∀ role ct,
     PermissionEngine.evaluate e (CreateCheckpointAction role ct) = Ok tt ↔
     ∃ name, stands_for t role name ∧ listed (Taxonomy.checkpoint_types t) ct name)
  ∧ (∀ role s,
     PermissionEngine.evaluate e (EmitSignalAction role s) = Ok tt ↔
     ∃ b, base_of_role t role = Some b ∧ s ∈ base_emit_set b).
Proof.
  intros Hload e. pose proof (load_fresh _ _ _ Hload) as Hf.
  pose proof (right_run_tables (PermissionEngine.new t) ops) as Htab. fold e in Htab.
  pose proof Htab as (_ & Hc & Hs & Hb). split_and!.
  - intros sender ty receiver from to origin. cbn. unfold PermissionEngine.check_envelope_send.
    rewrite <- (new_matrix_allows t) by done. rewrite <- has_send_right_iff.
    rewrite <- (matrix_allows_tables _ _ _ _ _ Htab).
    case_decide; [naive_solver|]. destruct (PermissionEngine.matrix_allows _ _ _ _),
      (PermissionEngine.has_send_right _ _ _); cbn; naive_solver.
  - intros role ct. cbn. unfold PermissionEngine.check_checkpoint_create.
    setoid_rewrite stands_for_bases; [|done]. rewrite Hc, Hb. unfold listed.
    replace (PermissionEngine.checkpoint_table (PermissionEngine.new t)) with (Taxonomy.checkpoint_types t)
      by (unfold PermissionEngine.new; by destruct (fold_left _ _ _)).
    destruct (Taxonomy.checkpoint_types t !! ct) as [s|]; cbn; [|split; [done|set_solver]].
    destruct (PermissionEngine.role_bases _ !! role) as [b|]; repeat case_bool_decide; cbn;
      (split; [|set_solver]); intros; eauto; done.
  - intros role s. cbn. unfold PermissionEngine.check_signal_emit. rewrite Hs.
    destruct (new_tables t role Hf) as [_ ->]. destruct (base_of_role t role) as [b|]; cbn;
      [case_bool_decide|]; naive_solver.
Qed.

Definition reviewer_definition : TaxonomyDefinition := {|
  td_id := "review"; td_version := "1.0.0"; td_protocol_version := "1.0";
  td_roles := [ {| rd_name := "reviewer"; rd_extends := "worker"; rd_add := ["send: verdict"];
                   rd_remove := []; rd_checkpoint_types := Some ["review"] |} ];
  td_envelope_types := [ {| ed_name := "verdict";
                            ed_permissions := [ {| ep_sender_role := "reviewer";
                                                   ep_receiver_role := "coordinator" |} ] |} ];
  td_checkpoint_types := [ {| cd_name := "review"; cd_permitted_roles := ["reviewer"] |} ] |}.

Definition reviewer_taxonomy : Taxonomy.t :=
  match @Loader.load canonical_order reviewer_definition "1.0" with
  | Some (Ok t) => t
  | _ => Taxonomy.Mk "" "" "" ∅ ∅ [] ∅
  end.

Definition reviewer_right : right_op :=
  GrantRight {| pr_right_type := PortRightType.SendOnce; pr_holder := "ws-1"; pr_target := "root" |}.

Lemma permission_decisions_exact_witness :
  @Loader.load canonical_order reviewer_definition "1.0" = Some (Ok reviewer_taxonomy)
  ∧ PermissionEngine.evaluate (right_run (@PermissionEngine.new canonical_order reviewer_taxonomy)
                                 [reviewer_right]).1
      (SendEnvelope "reviewer" "verdict" "coordinator" "ws-1" "root" EnvelopeOrigin.Agent) = Ok tt.
Proof.
  assert (@Loader.load canonical_order reviewer_definition "1.0" = Some (Ok reviewer_taxonomy)) as Hl
    by (vm_compute; reflexivity).
  split; [exact Hl|].
  apply (@permission_decisions_exact canonical_order _ _ _ [reviewer_right] Hl). right. split.
  - exists "reviewer", "coordinator". split; [left; reflexivity|split; [left; reflexivity|]].
    vm_compute. do 3 right. left.
  - eexists. split; [vm_compute; left|]. split; [reflexivity|discriminate].
Defined.

(** ** Single-use rights *)

Section send_once.
Variables h tgt : WorkspaceId.

Definition once_count (e : PermissionEngine.t) : nat :=
  length (filter (λ r, Is_true (PermissionEngine.is_once tgt r)) (idx (PermissionEngine.port_rights e) h)).

Definition grants_once (op : right_op) : bool :=
  match op with
  | GrantRight pr => bool_decide (pr_holder pr = h) && PermissionEngine.is_once tgt pr
  | _ => false
  end.

Definition revokes_once (op : right_op) : bool :=
  match op with
  | RevokeRight holder target ty =>
      bool_decide (holder = h) && bool_decide (target = tgt) && bool_decide (ty = PortRightType.SendOnce)
  | _ => false
  end.

(** A consumption that succeeded. *)
Definition spends (op : right_op) (b : bool) : bool :=
  match op with
  | ConsumeOnce holder target => b && bool_decide (holder = h) && bool_decide (target = tgt)
  | _ => false
  end.

Fixpoint spent (ops : list right_op) (bs : list bool) : nat :=
  match ops, bs with
  | op :: ops, b :: bs => (Nat.b2n (spends op b) + spent ops bs)%nat
  | _, _ => 0%nat
  end.

Fixpoint granted (ops : list right_op) : nat :=
  match ops with
  | [] => 0%nat
  | op :: ops => (Nat.b2n (grants_once op) + granted ops)%nat
  end.

Lemma remove_first_count tgt' l l' :
  PermissionEngine.remove_first (PermissionEngine.is_once tgt') l = Some l' →
  length (filter (λ r, Is_true (PermissionEngine.is_once tgt r)) l)
  = (Nat.b2n (bool_decide (tgt' = tgt))
     + length (filter (λ r, Is_true (PermissionEngine.is_once tgt r)) l'))%nat.
Proof.
  revert l'. induction l as [|r l IH]; intros l'; cbn [PermissionEngine.remove_first]; [done|].
  destruct (PermissionEngine.is_once tgt' r) eqn:E.
  - intros [= <-]. rewrite filter_cons. case_bool_decide as Ht.
    + subst tgt'. by rewrite decide_True by (by rewrite E).
    + rewrite decide_False; [done|]. unfold PermissionEngine.is_once in *. rewrite bool_decide_spec.
      apply bool_decide_eq_true in E. naive_solver.
  - destruct (PermissionEngine.remove_first _ l) as [l1|]; [|done]. intros [= <-].
    rewrite !filter_cons. specialize (IH l1 eq_refl).
    destruct (PermissionEngine.is_once tgt r);
      [rewrite !decide_True by done|rewrite !decide_False by auto]; cbn [length]; lia.
Qed.

Lemma remove_first_None (p : PortRight → bool) l :
  PermissionEngine.remove_first p l = None ↔ filter (λ r, Is_true (p r)) l = [].
Proof.
  induction l as [|r l IH]; cbn [PermissionEngine.remove_first]; [done|]. rewrite filter_cons.
  destruct (p r) eqn:E; cbn; [done|]. rewrite fmap_None. apply IH.
Qed.
Lemma length_filter_filter {A} (P Q : A → Prop) `{∀ x, Decision (P x), ∀ x, Decision (Q x)} l :
  (length (filter P (filter Q l)) ≤ length (filter P l))%nat.
Proof.
  rewrite list_filter_filter, (list_filter_iff _ (λ a, Q a ∧ P a)) by tauto.
  rewrite <- list_filter_filter. apply length_filter.
Qed.

Lemma once_step e op :
  let '(e', b) := right_step e op in
  (Nat.b2n (spends op b) + once_count e' ≤ Nat.b2n (grants_once op) + once_count e)%nat
  ∧ (revokes_once op = false →
     (Nat.b2n (spends op b) + once_count e' = Nat.b2n (grants_once op) + once_count e)%nat).
Proof.
  destruct op as [pr|holder target ty|holder target]; cbn [right_step spends grants_once revokes_once Nat.b2n].
  - cbn. unfold once_count. cbn. rewrite idx_push_entry. case_decide as Hh.
    + rewrite (bool_decide_eq_true_2 (pr_holder pr = h)) by done. subst h.
      rewrite filter_app, length_app, filter_cons. cbn [andb].
      destruct (PermissionEngine.is_once tgt pr) eqn:E;
        [rewrite decide_True by done|rewrite decide_False by auto]; cbn; lia.
    + rewrite (bool_decide_eq_false_2 (pr_holder pr = h)) by done. cbn. lia.
  - unfold once_count. cbn. rewrite idx_retain_at.
    case_decide as Hh; [subst|rewrite bool_decide_eq_false_2 by done; cbn; lia].
    split; [apply length_filter_filter|]. rewrite bool_decide_eq_true_2 by done. cbn [andb].
    intros Hr. f_equal. apply list_filter_filter_l. intros r Ho [<- Hty].
    unfold PermissionEngine.is_once in Ho. rewrite bool_decide_spec in Ho. destruct Ho as [Ht Ho].
    rewrite !bool_decide_eq_true_2 in Hr by congruence. done.
  - unfold PermissionEngine.consume_send_once, once_count.
    destruct (_ ≫= _) as [l'|] eqn:E; cbn; [|lia].
    apply bind_Some in E as (l & Hl & E). apply remove_first_count in E. rewrite idx_insert.
    destruct (decide (holder = h)) as [-> | Hh].
    + rewrite bool_decide_eq_true_2 by done. unfold idx. rewrite Hl. cbn. lia.
    + rewrite bool_decide_eq_false_2 by done. cbn. lia.
Qed.

Lemma once_run e ops :
  let '(e', bs) := right_run e ops in
  (spent ops bs + once_count e' ≤ granted ops + once_count e)%nat
  ∧ (Forall (λ op, revokes_once op = false) ops →
     (spent ops bs + once_count e' = granted ops + once_count e)%nat).
Proof.
  revert e. induction ops as [|op ops IH]; intros e; cbn [right_run]; [done|].
  pose proof (once_step e op) as Hs. destruct (right_step e op) as [e1 b].
  specialize (IH e1). destruct (right_run e1 ops) as [e2 bs]. cbn [spent granted].
  destruct Hs as [Hs1 Hs2], IH as [IH1 IH2]. split; [lia|].
  rewrite Forall_cons. intros [Hr Hrs]. specialize (Hs2 Hr). specialize (IH2 Hrs). lia.
Qed.
End send_once.

(** A single-use right is spent at most once: from a new engine, whatever the order
    of grants, revocations and consumptions, the consumptions of a holder's rights on a
    target that succeeded plus those it still holds never exceed those granted, are
    exactly those granted when none was revoked, and a consumption succeeds exactly when
    one is held. *)
Theorem send_once_spent_once `{HashOrder} (t : Taxonomy.t) (ops : list right_op) (h tgt : WorkspaceId) :
  let '(e, bs) := right_run (PermissionEngine.new t) ops in
  (spent h tgt ops bs + once_count h tgt e ≤ granted h tgt ops)%nat
  ∧ (Forall (λ op, revokes_once h tgt op = false) ops →
     (spent h tgt ops bs + once_count h tgt e = granted h tgt ops)%nat)
  ∧ ((PermissionEngine.consume_send_once e h tgt).2 = true ↔ (0 < once_count h tgt e)%nat).
Proof.
  pose proof (once_run h tgt (PermissionEngine.new t) ops) as Hr.
  assert (once_count h tgt (PermissionEngine.new t) = 0%nat) as H0.
  { unfold once_count, PermissionEngine.new. by destruct (fold_left _ _ _). }
  rewrite H0, Nat.add_0_r in Hr.
  destruct (right_run _ ops) as [e bs]. destruct Hr as [Hle Heq]. split_and!; [done|done|].
  unfold PermissionEngine.consume_send_once, once_count, idx.
  destruct (PermissionEngine.port_rights e !! h) as [l|]; cbn; [|split; [done|lia]].
  destruct (PermissionEngine.remove_first _ l) as [l'|] eqn:E; cbn.
  - apply (remove_first_count tgt) in E. rewrite E, bool_decide_eq_true_2 by done. cbn. split; [lia|done].
  - apply remove_first_None in E. rewrite E. cbn. split; [done|lia].
Qed.
