(* ===== verification/Trail.v ===== *)
(** * Audit trail (crate wacp-trail: chain.rs, traits.rs, error.rs, memory.rs)

    The SHA-256 chain over trail entries, the storage traits, and the in-memory stores.
    SHA-256 itself is a parameter [sha256] from byte strings to byte strings.  The
    theorems show that a verified chain cannot be altered behind its head without
    breaking the hash, and that the in-memory store is an append-only log. *)

From S2P Require Import Prelude Types.

Abbreviation bytes := (list Z).

(** [[0u8; 32]] *)
Definition GENESIS : bytes := replicate 32 0.

Record ChainVerificationError := {
  cve_index : nat;
  cve_expected : bytes;
  cve_computed : bytes;
}.

Section chain.
Context (sha256 : bytes → bytes).

(** The hasher is updated twice, with the previous hash and the entry. *)
Definition compute_chain_hash (previous entry_bytes : bytes) : bytes := sha256 (previous ++ entry_bytes).

Definition verify_chain_link (previous entry_bytes expected : bytes) : bool :=
  bool_decide (compute_chain_hash previous entry_bytes = expected).

(** The loop of [verify_chain], at index [i] with the hash reached so far. *)
Fixpoint verify_from (previous : bytes) (i : nat) (entries : list (bytes * bytes))
    : result unit ChainVerificationError :=
  match entries with
  | [] => Ok tt
  | (entry_bytes, expected) :: entries =>
      let computed := compute_chain_hash previous entry_bytes in
      if decide (computed ≠ expected)
      then Err {| cve_index := i; cve_expected := expected; cve_computed := computed |}
      else verify_from expected (S i) entries
  end.

Definition verify_chain (entries : list (bytes * bytes)) : result unit ChainVerificationError :=
  verify_from GENESIS 0 entries.
End chain.

(** ** Storage traits *)

Inductive StorageError :=
| Io (message : string)
| Corruption (message : string)
| CapacityExceeded
| SegmentNotFound (segment : Z)
| NotFound.

Abbreviation SegmentId := Z (only parsing).

Record WriteReceipt := {
  wr_segment : SegmentId;
  wr_offset : Z;
  wr_sequence : Z;
}.

Record StorageMetadata := {
  sm_current_segment : SegmentId;
  sm_total_entries : Z;
  sm_chain_head : bytes;
  sm_total_bytes : Z;
}.

(** A scanned entry: offset, entry bytes, chain hash. *)
Definition ScannedEntry : Type := Z * bytes * bytes.

(** The trait; [None] is a panic. *)
Class TrailStorage (S : Type) := {
  append : S → bytes → bytes → option (S * result WriteReceipt StorageError);
  read : S → SegmentId → Z → Z → result bytes StorageError;
  rotate : S → S * result SegmentId StorageError;
  scan : S → SegmentId → Z → result (list ScannedEntry) StorageError;
  metadata : S → StorageMetadata;
}.

(** An entry fits the 32-bit length of the segment format and its hash has 32 bytes. *)
Definition storable (entry hash : bytes) : Prop :=
  Z.of_nat (length entry) ≤ u32_max ∧ length hash = 32%nat.

(** What a trail store promises to its clients: the states its operations reach hold a
    log that [append] extends at the end, [rotate] keeps, and the segments, scanned in
    order, spell out; as long as the 64-bit segment ids last. *)
Class TrailStorageLaws (S : Type) `{TrailStorage S} := {
  valid : S → Prop;
  log : S → list (bytes * bytes);
  append_log : ∀ s entry hash, valid s → storable entry hash →
    sm_current_segment (metadata s) < u64_max → ∃ s' r,
    append s entry hash = Some (s', r) ∧ valid s'
    ∧ log s' = match r with Ok _ => log s ++ [(entry, hash)] | Err _ => log s end;
  rotate_log : ∀ s, valid s → sm_current_segment (metadata s) < u64_max →
    valid (rotate s).1 ∧ log (rotate s).1 = log s;
  scan_log : ∀ s, valid s → ∃ segments : list (list (bytes * bytes)),
    Z.of_nat (length segments) = sm_current_segment (metadata s) + 1
    ∧ log s = concat segments
    ∧ ∀ i seg, segments !! i = Some seg → ∃ es,
        scan s (Z.of_nat i) 0 = Ok es ∧ (λ e : ScannedEntry, (e.1.2, e.2)) <$> es = seg;
  total_log : ∀ s, valid s → sm_total_entries (metadata s) = wrap64 (Z.of_nat (length (log s)));
  head_log : ∀ s, valid s → sm_chain_head (metadata s) = default GENESIS (snd <$> last (log s));
}.

(** ** In-memory stores *)

(** [len() - 1] of a [Vec]: a length is below 2^63, so the subtraction only wraps at 0. *)
Definition usize_pred (n : nat) : Z := match n with O => u64_max | S n => Z.of_nat n end.

Module InMemoryTrailStorage.
Record t := Mk {
  segments : list (list (bytes * bytes));
  sequence_counter : Z;
  chain_head : bytes;
  total_bytes : Z;
}.

Definition new : t := Mk [[]] 0 GENESIS 0.

Definition append (self : t) (entry chain_hash : bytes) : option (t * result WriteReceipt StorageError) :=
  let seg_idx := usize_pred (length (segments self)) in
  segment ← last (segments self);
  let offset := Z.of_nat (length segment) in
  let sequence := wrap64 (sequence_counter self + 1) in
  Some (Mk (alter (λ s, s ++ [(entry, chain_hash)]) (pred (length (segments self))) (segments self))
           sequence chain_hash (wrap64 (total_bytes self + Z.of_nat (length entry))),
        Ok {| wr_segment := seg_idx; wr_offset := offset; wr_sequence := sequence |}).

Definition read (self : t) (segment : SegmentId) (offset _length : Z) : result bytes StorageError :=
  let? seg := ok_or (segments self !! Z.to_nat segment) (SegmentNotFound segment) in
  let? e := ok_or (seg !! Z.to_nat offset) NotFound in
  Ok e.1.

Definition rotate (self : t) : t * result SegmentId StorageError :=
  let segments := segments self ++ [[]] in
  (Mk segments (sequence_counter self) (chain_head self) (total_bytes self),
   Ok (usize_pred (length segments))).

Definition scan (self : t) (segment : SegmentId) (from_offset : Z)
    : result (list ScannedEntry) StorageError :=
  let? seg := ok_or (segments self !! Z.to_nat segment) (SegmentNotFound segment) in
  Ok (drop (Z.to_nat from_offset) (imap (λ i e, (Z.of_nat i, e.1, e.2)) seg)).

Definition metadata (self : t) : StorageMetadata := {|
  sm_current_segment := usize_pred (length (segments self));
  sm_total_entries := sequence_counter self; sm_chain_head := chain_head self;
  sm_total_bytes := total_bytes self |}.

#[global] Instance trail_storage : TrailStorage t := 
  Build_TrailStorage t append read rotate scan metadata.
End InMemoryTrailStorage.

Module InMemoryCheckpointStorage.
Record t := Mk { contents : gmap bytes bytes }.

Definition new : t := Mk ∅.

Definition store (self : t) (content_hash payload : bytes) : t * bool :=
  match contents self !! content_hash with
  | Some _ => (self, false)
  | None => (Mk (<[content_hash := payload]> (contents self)), true)
  end.

Definition read (self : t) (content_hash : bytes) : option bytes := contents self !! content_hash.

Definition exists_ (self : t) (content_hash : bytes) : bool :=
  bool_decide (is_Some (contents self !! content_hash)).

Definition delete (self : t) (content_hash : bytes) : t * bool :=
  (Mk (base.delete content_hash (contents self)), bool_decide (is_Some (contents self !! content_hash))).
End InMemoryCheckpointStorage.

Module InMemorySnapshotStorage.
Record t := Mk {
  workspaces : gmap string bytes;
  systems : list (Z * bytes);
}.

Definition new : t := Mk ∅ [].

Definition write_workspace (self : t) (workspace_id : WorkspaceId) (data : bytes) : t :=
  Mk (<[workspace_id := data]> (workspaces self)) (systems self).

Definition read_workspace (self : t) (workspace_id : WorkspaceId) : option bytes :=
  workspaces self !! workspace_id.

Definition delete_workspace (self : t) (workspace_id : WorkspaceId) : t :=
  Mk (delete workspace_id (workspaces self)) (systems self).

Definition write_system (self : t) (sequence : Z) (data : bytes) : t :=
  Mk (workspaces self) (systems self ++ [(sequence, data)]).

Definition read_latest_system (self : t) : option (Z * bytes) := last (systems self).
End InMemorySnapshotStorage.

(** ** The hash chain *)

Section chain_theory.
Context (sha256 : bytes → bytes).
Hypothesis sha256_length : ∀ x, length (sha256 x) = 32%nat.
Implicit Types es : list (bytes * bytes).

(** The hash a chain ends in. *)
Definition head_of (previous : bytes) (entries : list (bytes * bytes)) : bytes :=
  default previous (snd <$> last entries).

(** A chain verifies when each hash is computed from the one before. *)
Fixpoint linked (previous : bytes) (entries : list (bytes * bytes)) : Prop :=
  match entries with
  | [] => True
  | (e, h) :: entries => compute_chain_hash sha256 previous e = h ∧ linked h entries
  end.

Lemma verify_from_linked previous i entries :
  verify_from sha256 previous i entries = Ok tt ↔ linked previous entries.
Proof.
  revert previous i. induction entries as [|[e h] entries IH]; intros previous i; [done|].
  cbn [verify_from linked]. cbv zeta. case_decide as Hd; [naive_solver|].
  rewrite IH. tauto.
Qed.

Lemma linked_snoc previous entries e h :
  linked previous (entries ++ [(e, h)])
  ↔ linked previous entries ∧ compute_chain_hash sha256 (head_of previous entries) e = h.
Proof.
  revert previous. induction entries as [|[e0 h0] entries IH]; intros previous; cbn [app linked].
  - cbn. tauto.
  - rewrite IH. unfold head_of. destruct entries; cbn; [tauto|].
    destruct (last (p :: entries)) eqn:E; cbn; [tauto|]. by apply last_None in E.
Qed.

Lemma head_of_snoc previous entries e h : head_of previous (entries ++ [(e, h)]) = h.
Proof. unfold head_of. by rewrite last_snoc. Qed.

Lemma head_length entries : linked GENESIS entries → length (head_of GENESIS entries) = 32%nat.
Proof using sha256_length.
  destruct entries as [|[e h] entries _] using rev_ind; [done|].
  rewrite linked_snoc, head_of_snoc. intros [_ <-]. apply sha256_length.
Qed.

(** What the hasher was fed for an entry of a chain. *)
Definition hashed es (x : bytes) : Prop :=
  ∃ pre e h post, es = pre ++ (e, h) :: post ∧ x = head_of GENESIS pre ++ e.

Lemma hashed_last es e h : hashed (es ++ [(e, h)]) (head_of GENESIS es ++ e).
Proof. by exists es, e, h, []. Qed.

Lemma hashed_snoc es e h x : hashed es x → hashed (es ++ [(e, h)]) x.
Proof.
  intros (pre & e' & h' & post & -> & ->). exists pre, e', h', (post ++ [(e, h)]).
  by rewrite <- app_assoc.
Qed.

(** Two chains exhibit a break of the hash: among the inputs hashed for their entries
    there are two different ones with one hash, or one that hashes to the genesis value. *)
Definition exhibits_break es es' : Prop :=
  (∃ x y, hashed es x ∧ hashed es' y ∧ x ≠ y ∧ sha256 x = sha256 y)
  ∨ (∃ x, (hashed es x ∨ hashed es' x) ∧ sha256 x = GENESIS).

Lemma exhibits_break_snoc es es' e h e' h' :
  exhibits_break es es' → exhibits_break (es ++ [(e, h)]) (es' ++ [(e', h')]).
Proof.
  intros [(x & y & Hx & Hy & Hxy) | (x & Hx & Hg)].
  - left. exists x, y. auto using hashed_snoc.
  - right. exists x. destruct Hx; auto using hashed_snoc.
Qed.

Lemma same_head_same_chain es es' :
  linked GENESIS es → linked GENESIS es' → head_of GENESIS es = head_of GENESIS es' →
  es = es' ∨ exhibits_break es es'.
Proof using sha256_length.
  revert es'. induction es as [|[e h] es IH] using rev_ind; intros es' Hl Hl' Hh.
  - destruct es' as [|[e' h'] es' _] using rev_ind; [by left|].
    right. right. rewrite linked_snoc in Hl'. rewrite head_of_snoc in Hh. destruct Hl' as [_ Hc].
    rewrite <- Hh in Hc. eexists. split; [right; apply hashed_last|done].
  - rewrite linked_snoc in Hl. rewrite head_of_snoc in Hh. destruct Hl as [Hl Hc].
    destruct es' as [|[e' h'] es' _] using rev_ind.
    { right. right. cbn in Hh. subst h. eexists. split; [left; apply hashed_last|done]. }
    rewrite linked_snoc in Hl'. rewrite head_of_snoc in Hh. destruct Hl' as [Hl' Hc']. subst h'.
    destruct (decide (head_of GENESIS es ++ e = head_of GENESIS es' ++ e')) as [Heq | Hne].
    + apply app_inj_1 in Heq as [Hheq ->]; [|rewrite !head_length by done; done].
      destruct (IH es' Hl Hl' Hheq) as [-> | ?]; [left; by rewrite Hh|right; by apply exhibits_break_snoc].
    + right. left. exists (head_of GENESIS es ++ e), (head_of GENESIS es' ++ e').
      split_and!; [apply hashed_last|apply hashed_last|done|]. unfold compute_chain_hash in *. congruence.
Qed.

Lemma head_of_cons previous e h entries : head_of previous ((e, h) :: entries) = head_of h entries.
Proof. unfold head_of. rewrite last_cons. by destruct (last entries). Qed.

Lemma verify_from_app previous i pre rest :
  linked previous pre →
  verify_from sha256 previous i (pre ++ rest)
  = verify_from sha256 (head_of previous pre) (i + length pre) rest.
Proof.
  revert previous i. induction pre as [|[e h] pre IH]; intros previous i.
  - intros _. cbn. by rewrite Nat.add_0_r.
  - intros [He Hl]. cbn [app verify_from length]. cbv zeta. rewrite decide_False by naive_solver.
    rewrite IH, head_of_cons by done. f_equal. lia.
Qed.

(** The first entry whose hash is wrong is the one reported. *)
Lemma verify_from_error previous i entries err :
  verify_from sha256 previous i entries = Err err ↔
  ∃ pre e h post, entries = pre ++ (e, h) :: post ∧ linked previous pre
    ∧ compute_chain_hash sha256 (head_of previous pre) e ≠ h
    ∧ err = {| cve_index := i + length pre; cve_expected := h;
               cve_computed := compute_chain_hash sha256 (head_of previous pre) e |}.
Proof.
  split.
  - revert previous i. induction entries as [|[e h] entries IH]; intros previous i; [done|].
    cbn [verify_from]. cbv zeta. case_decide as Hd.
    + intros [= <-]. exists [], e, h, entries. cbn. rewrite Nat.add_0_r. naive_solver.
    + intros (pre & e' & h' & post & -> & Hl & Hne & ->)%IH. exists ((e, h) :: pre), e', h', post.
      rewrite head_of_cons. cbn [linked length]. split_and!; [done|naive_solver|naive_solver|done|].
      f_equal. lia.
  - intros (pre & e & h & post & -> & Hl & Hne & ->). rewrite verify_from_app by done.
    cbn [verify_from]. cbv zeta. by rewrite decide_True.
Qed.
End chain_theory.

(** C17. The chain is tamper-evident: verification accepts exactly the trails in which
    every hash is that of its entry appended to the hash before it, otherwise reports
    the first entry whose hash is wrong, and two accepted trails that end in the same
    hash are the same trail, unless the inputs hashed for their own entries contain two
    different ones with one SHA-256 hash or one that hashes to the genesis value. *)
Theorem chain_tamper_evident (sha256 : bytes → bytes) (es es' : list (bytes * bytes)) :
  (∀ x, length (sha256 x) = 32%nat) →
  (verify_chain sha256 es = Ok tt ↔ linked sha256 GENESIS es)
  ∧ (∀ err, verify_chain sha256 es = Err err ↔
       ∃ pre e h post, es = pre ++ (e, h) :: post ∧ linked sha256 GENESIS pre
         ∧ compute_chain_hash sha256 (head_of GENESIS pre) e ≠ h
         ∧ err = {| cve_index := length pre; cve_expected := h;
                    cve_computed := compute_chain_hash sha256 (head_of GENESIS pre) e |})
  ∧ (verify_chain sha256 es = Ok tt → verify_chain sha256 es' = Ok tt →
     head_of GENESIS es = head_of GENESIS es' → es = es' ∨ exhibits_break sha256 es es').
Proof.
  intros Hlen. unfold verify_chain. rewrite !verify_from_linked. split_and!; [done| |].
  - intros err. apply (verify_from_error sha256 GENESIS 0).
  - by apply same_head_same_chain.
Qed.

(** A stand-in hash of the right length: the last 31 bytes and a marker. *)
Definition toy_hash (x : bytes) : bytes := 1 :: take 31 (reverse x ++ replicate 31 0).

Lemma toy_hash_length x : length (toy_hash x) = 32%nat.
Proof. unfold toy_hash. cbn [length]. rewrite length_take, length_app, length_replicate. lia. Qed.

Lemma chain_tamper_evident_witness :
  let h1 := compute_chain_hash toy_hash GENESIS [7] in
  let h2 := compute_chain_hash toy_hash h1 [8; 9] in
  verify_chain toy_hash [([7], h1); ([8; 9], h2)] = Ok tt
  ∧ ∃ err, verify_chain toy_hash [([7], h1); ([9], h2)] = Err err ∧ cve_index err = 1%nat.
Proof.
  intros h1 h2. split.
  - apply (chain_tamper_evident toy_hash [([7], h1); ([8; 9], h2)] [] toy_hash_length).
    split; [reflexivity|split; [reflexivity|exact I]].
  - destruct (chain_tamper_evident toy_hash [([7], h1); ([9], h2)] [] toy_hash_length) as (_ & He & _).
    eexists. split; [apply He|].
    + exists [([7], h1)], [9], h2, []. split; [reflexivity|].
      split; [split; [reflexivity|exact I]|]. split; [discriminate|reflexivity].
    + reflexivity.
Defined.

(** ** The in-memory trail is a log *)

Section memory.
Import InMemoryTrailStorage.

Definition entries_of (s : t) : list (bytes * bytes) := concat (segments s).

Record mem_valid (s : t) : Prop := {
  mv_segments : segments s ≠ [];
  mv_sequence : sequence_counter s = wrap64 (Z.of_nat (length (entries_of s)));
  mv_head : chain_head s = default GENESIS (snd <$> last (entries_of s));
}.

Lemma mem_valid_new : mem_valid new.
Proof. by split. Qed.

Lemma alter_last {A} (f : A → A) (l : list A) x :
  alter f (pred (length (l ++ [x]))) (l ++ [x]) = l ++ [f x].
Proof. rewrite length_app, Nat.add_1_r. cbn [pred]. by rewrite alter_app_r_alt, Nat.sub_diag. Qed.

Lemma append_spec s segs seg e h :
  segments s = segs ++ [seg] →
  InMemoryTrailStorage.append s e h
  = Some (Mk (segs ++ [seg ++ [(e, h)]]) (wrap64 (sequence_counter s + 1)) h
             (wrap64 (total_bytes s + Z.of_nat (length e))),
          Ok {| wr_segment := Z.of_nat (length segs); wr_offset := Z.of_nat (length seg);
                wr_sequence := wrap64 (sequence_counter s + 1) |}).
Proof.
  intros Hs. unfold InMemoryTrailStorage.append. rewrite Hs, last_snoc. cbn [mbind option_bind].
  rewrite alter_last, length_app, Nat.add_1_r. done.
Qed.

Lemma wrap64_succ n : wrap64 (wrap64 (Z.of_nat n) + 1) = wrap64 (Z.of_nat (S n)).
Proof. unfold wrap64. rewrite Z.add_mod_idemp_l by (by unfold u64_max). f_equal. lia. Qed.

Lemma mem_append s e h :
  mem_valid s → ∃ s' r,
    InMemoryTrailStorage.append s e h = Some (s', Ok r) ∧ mem_valid s'
    ∧ entries_of s' = entries_of s ++ [(e, h)]
    ∧ wr_sequence r = wrap64 (Z.of_nat (length (entries_of s')))
    ∧ segments s' !! Z.to_nat (wr_segment r) ≫= (.!! Z.to_nat (wr_offset r)) = Some (e, h).
Proof.
  intros [Hne Hseq Hhd]. destruct (segments s) as [|seg segs _] eqn:Hs using rev_ind; [done|].
  rewrite (append_spec s segs seg) by done. do 2 eexists. split; [done|].
  assert (entries_of (Mk (segs ++ [seg ++ [(e, h)]]) (wrap64 (sequence_counter s + 1)) h
                        (wrap64 (total_bytes s + Z.of_nat (length e)))) = entries_of s ++ [(e, h)]) as E.
  { unfold entries_of. rewrite Hs. cbn [segments]. rewrite !concat_app. cbn [concat]. by rewrite !app_nil_r, app_assoc. }
  split_and!; [|done| |].
  - split; [by intros []%app_nil| |]; rewrite E.
    + rewrite length_app, Nat.add_1_r. cbn [sequence_counter]. by rewrite Hseq, wrap64_succ.
    + by rewrite last_snoc.
  - rewrite E, length_app, Nat.add_1_r. cbn [wr_sequence]. by rewrite Hseq, wrap64_succ.
  - cbn [segments wr_segment wr_offset]. rewrite !Nat2Z.id, list_lookup_middle by done.
    cbn. by rewrite list_lookup_middle.
Qed.

Lemma mem_rotate s : mem_valid s → mem_valid (InMemoryTrailStorage.rotate s).1
  ∧ entries_of (InMemoryTrailStorage.rotate s).1 = entries_of s.
Proof.
  intros [Hne Hseq Hhd]. assert (entries_of (InMemoryTrailStorage.rotate s).1 = entries_of s) as E.
  { unfold entries_of. cbn. rewrite concat_app. cbn. by rewrite app_nil_r. }
  split; [|done]. split; [by intros []%app_nil|by rewrite E|by rewrite E].
Qed.

Lemma mem_scan s : mem_valid s → ∃ segs : list (list (bytes * bytes)),
  Z.of_nat (length segs) = sm_current_segment (InMemoryTrailStorage.metadata s) + 1
  ∧ entries_of s = concat segs
  ∧ ∀ i seg, segs !! i = Some seg → ∃ es,
      InMemoryTrailStorage.scan s (Z.of_nat i) 0 = Ok es
      ∧ (λ e : ScannedEntry, (e.1.2, e.2)) <$> es = seg.
Proof.
  intros [Hne _ _]. exists (segments s). split_and!; [|done|].
  - cbn. destruct (segments s); [done|]. cbn. lia.
  - intros i seg Hseg. unfold InMemoryTrailStorage.scan. rewrite Nat2Z.id, Hseg. cbn. eexists. split; [done|].
    rewrite drop_0, fmap_imap. apply list_eq. intros j. rewrite list_lookup_imap.
    destruct (seg !! j) as [[]|]; done.
Qed.

#[global] Instance memory_trail_laws : TrailStorageLaws t.
Proof.
  refine {| valid := mem_valid; log := entries_of |}.
  - intros s e h Hv _ _. destruct (mem_append s e h Hv) as (s' & r & Ha & Hv' & Hl & _). by exists s', (Ok r).
  - intros s Hv _. by apply mem_rotate.
  - intros s Hv. by apply mem_scan.
  - intros s Hv. by apply mv_sequence.
  - intros s Hv. by apply mv_head.
Defined.

(** Entries once written stay where they are. *)
Definition keeps (s s' : t) : Prop :=
  ∀ i j e, segments s !! i ≫= (.!! j) = Some e → segments s' !! i ≫= (.!! j) = Some e.

Lemma keeps_append s s' e h r : InMemoryTrailStorage.append s e h = Some (s', r) → keeps s s'.
Proof.
  destruct (segments s) as [|seg segs _] eqn:Hs using rev_ind;
    [unfold InMemoryTrailStorage.append; by rewrite Hs|].
  rewrite (append_spec s segs seg) by done. intros [= <- <-] i j x. rewrite Hs. cbn [segments].
  intros (l & Hl & Hx)%bind_Some. apply bind_Some.
  destruct (decide (i < length segs)%nat) as [Hi | Hi].
  - exists l. by rewrite lookup_app_l in * by done.
  - apply lookup_app_Some in Hl as [Hl | [Hge Hl]]; [by apply lookup_lt_Some in Hl|].
    apply list_lookup_singleton_Some in Hl as [Hi0 <-]. assert (i = length segs) as -> by lia.
    exists (seg ++ [(e, h)]). rewrite list_lookup_middle by done. split; [done|]. by apply lookup_app_l_Some.
Qed.

Lemma keeps_rotate s : keeps s (InMemoryTrailStorage.rotate s).1.
Proof.
  intros i j x (l & Hl & Hx)%bind_Some. apply bind_Some. exists l. split; [|done].
  cbn. by apply lookup_app_l_Some.
Qed.

Inductive trail_op := TAppend (entry hash : bytes) | TRotate.

Definition trail_step (s : t) (op : trail_op) : option t :=
  match op with
  | TAppend e h => fst <$> InMemoryTrailStorage.append s e h
  | TRotate => Some (InMemoryTrailStorage.rotate s).1
  end.

Definition trail_run (s : t) (ops : list trail_op) : option t :=
  foldl (λ s op, s ← s; trail_step s op) (Some s) ops.

Definition appended (ops : list trail_op) : list (bytes * bytes) :=
  omap (λ op, match op with TAppend e h => Some (e, h) | TRotate => None end) ops.

Lemma trail_run_spec s ops :
  mem_valid s → ∃ s', trail_run s ops = Some s' ∧ mem_valid s' ∧ keeps s s'
                      ∧ entries_of s' = entries_of s ++ appended ops.
Proof.
  revert s. induction ops as [|op ops IH]; intros s Hv.
  { exists s. split_and!; [done|done|by intros ???|]. cbn. by rewrite app_nil_r. }
  assert (∃ s1, trail_step s op = Some s1 ∧ mem_valid s1 ∧ keeps s s1
                ∧ entries_of s1 = entries_of s ++ appended [op]) as (s1 & E & Hv1 & Hk & He).
  { destruct op as [e h|]; cbn [trail_step].
    - destruct (mem_append s e h Hv) as (s1 & r & Ha & Hv1 & He & _). exists s1. rewrite Ha.
      split_and!; [done|done|by eapply keeps_append|done].
    - destruct (mem_rotate s Hv) as [Hv1 He]. eexists. split_and!; [done|done|apply keeps_rotate|].
      cbn [appended omap]. rewrite He. cbn. by rewrite app_nil_r. }
  destruct (IH s1 Hv1) as (s' & E' & Hv' & Hk' & He'). exists s'. unfold trail_run in *. cbn [foldl mbind option_bind].
  rewrite E. split_and!; [done|done| |].
  - intros i j x Hx. by apply Hk', Hk.
  - rewrite He', He, <- app_assoc. f_equal. by destruct op.
Qed.
End memory.

(** The in-memory trail is an append-only log: no history of appends and rotations
    panics, the entries are those appended, in order, and the receipt of an append reads
    its entry back however much is written afterwards, with the sequence number being
    the position in the log. *)
Theorem memory_trail_read_back (before after : list trail_op) (e h : bytes) (n : Z) :
  ∃ s1 s2 s3 r,
    trail_run InMemoryTrailStorage.new before = Some s1
    ∧ InMemoryTrailStorage.append s1 e h = Some (s2, Ok r)
    ∧ trail_run s2 after = Some s3
    ∧ InMemoryTrailStorage.read s3 (wr_segment r) (wr_offset r) n = Ok e
    ∧ wr_sequence r = wrap64 (Z.of_nat (length (appended before)) + 1)
    ∧ entries_of s3 = appended before ++ (e, h) :: appended after.
Proof.
  destruct (trail_run_spec _ before mem_valid_new) as (s1 & E1 & Hv1 & _ & H1).
  destruct (mem_append s1 e h Hv1) as (s2 & r & E2 & Hv2 & H2 & Hseq & Hat).
  destruct (trail_run_spec s2 after Hv2) as (s3 & E3 & Hv3 & Hk & H3).
  exists s1, s2, s3, r. split_and!; [done|done|done| | |].
  - apply Hk in Hat. apply bind_Some in Hat as (seg & Hs & Hj).
    unfold InMemoryTrailStorage.read. rewrite Hs. cbn [ok_or]. by rewrite Hj.
  - rewrite Hseq, H2, H1, length_app, Nat.add_1_r. cbn [entries_of]. f_equal. cbn. lia.
  - rewrite H3, H2, H1. cbn. by rewrite <- app_assoc.
Qed.
