(* ===== verification/FileTrail.v ===== *)
(** * File-backed trail (crate wacp-trail: fs_trail.rs)

    Append-only segment files.  The directory is a map from segment ids to the bytes of
    the file of that id; the other file-system operations succeed, but a write may stop
    after any number of bytes, with an error or with a crash of the process.  The
    theorems show that the store satisfies the laws of [Trail], so that what [Recovery]
    proves of a store holds of it; that a recovery after a crash finds exactly the
    complete entries; and what a failed append does to later ones. *)

From S2P Require Import Prelude Types Trail.

(** ** Segment format

    Four bytes of length, most significant first, the entry, and its 32-byte hash. *)

(** [u32::to_be_bytes] and [u32::from_be_bytes] *)
Definition to_be_bytes (n : Z) : bytes :=
  [n / 16777216 mod 256; n / 65536 mod 256; n / 256 mod 256; n mod 256].

Definition from_be_bytes (l : bytes) : Z := fold_left (λ acc b, acc * 256 + b) l 0.

(** The bytes one append writes. *)
Definition record_bytes (entry chain_hash : bytes) : bytes :=
  to_be_bytes (wrap32 (Z.of_nat (length entry))) ++ entry ++ chain_hash.

(** The loop of a scan over the bytes from [pos] on; it stops at a partial entry. *)
Fixpoint scan_bytes (fuel : nat) (pos : Z) (rest : bytes) : list ScannedEntry :=
  match fuel with
  | O => []
  | S fuel =>
      if Z.of_nat (length rest) <? 4 then []
      else
        let len := from_be_bytes (take 4 rest) in
        if Z.of_nat (length rest) <? 4 + len + 32 then []
        else
          let n := Z.to_nat len in
          (pos, take n (drop 4 rest), take 32 (drop (4 + n) rest))
          :: scan_bytes fuel (pos + 4 + len + 32) (drop (4 + n + 32) rest)
  end.

(** The loop of [truncate_partial_tail]: the end of the last complete entry. *)
Fixpoint valid_end (fuel : nat) (pos : Z) (rest : bytes) : Z :=
  match fuel with
  | O => pos
  | S fuel =>
      if Z.of_nat (length rest) <? 4 then pos
      else
        let len := from_be_bytes (take 4 rest) in
        if Z.of_nat (length rest) <? 4 + len + 32 then pos
        else valid_end fuel (pos + 4 + len + 32) (drop (4 + Z.to_nat len + 32) rest)
  end.

(** ** The store *)

(** The files of the trail directory, by segment id. *)
Abbreviation directory := (gmap Z bytes).

(** How a sequence of writes goes: all of it, or an error after so many bytes. *)
Inductive write_outcome := Written | FailedAfter (k : nat) (message : string).

Definition list_segments (dir : directory) : list Z := merge_sort Z.le (map_to_list dir).*1.

(** Opening for append creates the file when it is missing and keeps it otherwise. *)
Definition create_segment_file (dir : directory) (id : Z) : directory :=
  <[id := default [] (dir !! id)]> dir.

Definition scan_segment_file_from (dir : directory) (id from_offset : Z)
    : result (list ScannedEntry) StorageError :=
  let? file := ok_or (dir !! id) (SegmentNotFound id) in
  Ok (scan_bytes (length file) from_offset (drop (Z.to_nat from_offset) file)).

Definition truncate_partial_tail (file : bytes) : bytes :=
  let last_valid_end := valid_end (length file) 0 file in
  if last_valid_end <? Z.of_nat (length file) then take (Z.to_nat last_valid_end) file else file.

Module FileTrailStorage.
Record t := Mk {
  dir : directory;
  active_segment : Z;
  active_size : Z;
  sequence_counter : Z;
  chain_head : bytes;
  max_segment_size : Z;
}.

(** The entries of all segments, as [open] reads them. *)
Definition scan_all (dir : directory) (ids : list Z) : list ScannedEntry :=
  concat ((λ id, match scan_segment_file_from dir id 0 with Ok es => es | Err _ => [] end) <$> ids).

Definition open (dir : directory) (max_segment_size : Z) : t :=
  match last (list_segments dir) with
  | None => Mk (create_segment_file dir 0) 0 0 0 GENESIS max_segment_size
  | Some active_seg =>
      let entries := scan_all dir (list_segments dir) in
      Mk dir active_seg (wrap64 (Z.of_nat (length (default [] (dir !! active_seg)))))
        (wrap64 (Z.of_nat (length entries))) (default GENESIS (snd <$> last entries)) max_segment_size
  end.

Definition recover (dir : directory) (max_segment_size : Z) : t :=
  match last (list_segments dir) with
  | None => open dir max_segment_size
  | Some active_seg => open (alter truncate_partial_tail active_seg dir) max_segment_size
  end.

Definition rotate (self : t) : t * result SegmentId StorageError :=
  let new_id := wrap64 (active_segment self + 1) in
  (Mk (create_segment_file (dir self) new_id) new_id 0 (sequence_counter self) (chain_head self)
      (max_segment_size self), Ok new_id).

Definition append_io (w : write_outcome) (self : t) (entry chain_hash : bytes)
    : t * result WriteReceipt StorageError :=
  let offset := active_size self in
  let data := record_bytes entry chain_hash in
  match w with
  | FailedAfter k message =>
      (Mk (alter (λ file, file ++ take k data) (active_segment self) (dir self)) (active_segment self)
          (active_size self) (sequence_counter self) (chain_head self) (max_segment_size self),
       Err (Io message))
  | Written =>
      let active_size := wrap64 (active_size self + (36 + Z.of_nat (length entry))) in
      let self' := Mk (alter (λ file, file ++ data) (active_segment self) (dir self)) (active_segment self)
                     active_size (wrap64 (sequence_counter self + 1)) chain_hash (max_segment_size self) in
      let receipt := {| wr_segment := active_segment self; wr_offset := offset;
                        wr_sequence := sequence_counter self' |} in
      ((if max_segment_size self <=? active_size then (rotate self').1 else self'), Ok receipt)
  end.

(** [read_exact] fails when the file ends first. *)
Definition read (self : t) (segment : SegmentId) (offset _length : Z) : result bytes StorageError :=
  let? file := ok_or (dir self !! segment) (SegmentNotFound segment) in
  let rest := drop (Z.to_nat offset) file in
  if Z.of_nat (length rest) <? 4 then Err (Io "failed to fill whole buffer")
  else
    let len := from_be_bytes (take 4 rest) in
    if Z.of_nat (length rest) <? 4 + len then Err (Io "failed to fill whole buffer")
    else Ok (take (Z.to_nat len) (drop 4 rest)).

Definition scan (self : t) (segment : SegmentId) (from_offset : Z)
    : result (list ScannedEntry) StorageError := scan_segment_file_from (dir self) segment from_offset.

Definition metadata (self : t) : StorageMetadata := {|
  sm_current_segment := active_segment self; sm_total_entries := sequence_counter self;
  sm_chain_head := chain_head self; sm_total_bytes := active_size self |}.

#[global] Instance trail_storage : TrailStorage t :=
  Build_TrailStorage t (λ s e h, Some (append_io Written s e h)) read rotate scan metadata.
End FileTrailStorage.

(** ** Reading back what was written *)

Lemma from_to_be_bytes n : 0 ≤ n ≤ u32_max → from_be_bytes (to_be_bytes n) = n.
Proof. unfold from_be_bytes, to_be_bytes, u32_max. cbn. intros Hn. Z.to_euclidean_division_equations. lia. Qed.

Definition encode (es : list (bytes * bytes)) : bytes := concat ((λ e, record_bytes e.1 e.2) <$> es).

(** What is left after the complete entries: too short for what it announces. *)
Definition incomplete (rest : bytes) : Prop :=
  Z.of_nat (length rest) < 4 ∨ Z.of_nat (length rest) < 4 + from_be_bytes (take 4 rest) + 32.

Lemma encode_app es es' : encode (es ++ es') = encode es ++ encode es'.
Proof. unfold encode. by rewrite fmap_app, concat_app. Qed.

Lemma encode_cons e h es : encode ((e, h) :: es) = record_bytes e h ++ encode es.
Proof. done. Qed.

Lemma length_record_bytes e h :
  length h = 32%nat → length (record_bytes e h) = (4 + length e + 32)%nat.
Proof. intros Hh. unfold record_bytes. rewrite !length_app, Hh. cbn. lia. Qed.

Lemma record_header e h rest :
  storable e h → from_be_bytes (take 4 (record_bytes e h ++ rest)) = Z.of_nat (length e).
Proof.
  intros [He _]. unfold record_bytes. cbn [app take to_be_bytes].
  rewrite wrap32_small by lia. fold (to_be_bytes (Z.of_nat (length e))). apply from_to_be_bytes. lia.
Qed.

Lemma record_parts e h rest :
  storable e h →
  take (length e) (drop 4 (record_bytes e h ++ rest)) = e
  ∧ take 32 (drop (4 + length e) (record_bytes e h ++ rest)) = h
  ∧ drop (4 + length e + 32) (record_bytes e h ++ rest) = rest.
Proof.
  intros [_ Hh]. unfold record_bytes. rewrite <-!app_assoc.
  rewrite <-!drop_drop, !drop_app_length' by done. split_and!.
  - by rewrite take_app_length.
  - rewrite ?drop_app_length, <-Hh. apply take_app_length.
  - by rewrite ?drop_app_length, <-?Hh, ?drop_app_length.
Qed.

(** The offsets of consecutive entries from [pos] on. *)
Fixpoint located (pos : Z) (es : list (bytes * bytes)) : list ScannedEntry :=
  match es with
  | [] => []
  | (e, h) :: es => (pos, e, h) :: located (pos + 4 + Z.of_nat (length e) + 32) es
  end.

(** A turn per entry, and one more to see that what is left is incomplete. *)
Definition enough_fuel (fuel : nat) (es : list (bytes * bytes)) (torn : bytes) : Prop :=
  (length es < fuel)%nat ∨ fuel = length es ∧ torn = [].

Lemma length_encode_ge es : Forall (λ e, storable e.1 e.2) es → (length es ≤ length (encode es))%nat.
Proof.
  induction 1 as [|[e h] es [_ Hh] _ IH]; [done|]. rewrite encode_cons, length_app, length_record_bytes by done.
  cbn [length]. lia.
Qed.

(** The length of the file is enough. *)
Lemma file_fuel es torn : Forall (λ e, storable e.1 e.2) es → enough_fuel (length (encode es ++ torn)) es torn.
Proof.
  intros Hs%length_encode_ge. unfold enough_fuel. rewrite length_app. destruct torn; cbn; [|left; lia].
  destruct (decide (length es = length (encode es))); [right; split; [lia|done]|left; lia].
Qed.

Lemma scan_bytes_encode es : ∀ fuel pos torn,
  Forall (λ e, storable e.1 e.2) es → incomplete torn → enough_fuel fuel es torn →
  scan_bytes fuel pos (encode es ++ torn) = located pos es.
Proof.
  unfold enough_fuel. induction es as [|[e h] es IH]; intros fuel pos torn Hs Ht Hf.
  - destruct fuel; [done|]. cbn [encode fmap list_fmap concat app scan_bytes located].
    destruct (Z.ltb_spec (Z.of_nat (length torn)) 4) as [|Hge]; [done|]. destruct Ht as [Ht|Ht]; [lia|].
    by rewrite (proj2 (Z.ltb_lt _ _)).
  - apply Forall_cons in Hs as [He Hs]. cbn in He. destruct fuel as [|fuel]; [cbn in Hf; lia|].
    rewrite encode_cons, <-app_assoc. cbn [scan_bytes located]. rewrite record_header by done.
    pose proof (record_parts e h (encode es ++ torn) He) as (H1 & H2 & H3).
    assert (Z.of_nat (length (record_bytes e h ++ encode es ++ torn))
            = 4 + Z.of_nat (length e) + 32 + Z.of_nat (length (encode es ++ torn))) as Hlen
      by (rewrite length_app, length_record_bytes by apply He; lia).
    rewrite !(proj2 (Z.ltb_ge _ _)) by lia. rewrite Nat2Z.id, H1, H2, H3. f_equal.
    apply IH; [done|done|]. cbn in Hf. destruct Hf as [|[? ->]]; [left; lia|right; split; [lia|done]].
Qed.

(** A scan finds the complete entries, with their offsets, and nothing else. *)
Lemma scan_file es torn pos :
  Forall (λ e, storable e.1 e.2) es → incomplete torn →
  scan_bytes (length (encode es ++ torn)) pos (encode es ++ torn) = located pos es.
Proof.
  intros Hs Ht. apply scan_bytes_encode; [done|done|by apply file_fuel].
Qed.

Lemma incomplete_nil : incomplete [].
Proof. left. cbn. lia. Qed.

Lemma located_entries pos es : (λ e : ScannedEntry, (e.1.2, e.2)) <$> located pos es = es.
Proof. revert pos. induction es as [|[e h] es IH]; intros pos; [done|]. cbn. by rewrite IH. Qed.

(** A write cut short leaves an incomplete entry. *)
Lemma cut_incomplete e h k :
  storable e h → (k < length (record_bytes e h))%nat → incomplete (take k (record_bytes e h)).
Proof.
  intros Hs Hk. unfold incomplete. rewrite length_take_le by lia.
  destruct (decide (k < 4)%nat); [left; lia|right].
  rewrite take_take, Nat.min_l by lia. rewrite <-(app_nil_r (record_bytes e h)), record_header by done.
  rewrite length_record_bytes in Hk by apply Hs. lia.
Qed.

Lemma valid_end_encode es : ∀ fuel pos torn,
  Forall (λ e, storable e.1 e.2) es → incomplete torn → enough_fuel fuel es torn →
  valid_end fuel pos (encode es ++ torn) = pos + Z.of_nat (length (encode es)).
Proof.
  unfold enough_fuel. induction es as [|[e h] es IH]; intros fuel pos torn Hs Ht Hf.
  - cbn [encode fmap list_fmap concat app length]. rewrite Z.add_0_r. destruct fuel; [done|]. cbn [valid_end].
    destruct (Z.ltb_spec (Z.of_nat (length torn)) 4) as [|Hge]; [done|]. destruct Ht as [Ht|Ht]; [lia|].
    by rewrite (proj2 (Z.ltb_lt _ _)).
  - apply Forall_cons in Hs as [He Hs]. cbn in He. destruct fuel as [|fuel]; [cbn in Hf; lia|].
    rewrite encode_cons, <-app_assoc. cbn [valid_end]. rewrite record_header by done.
    pose proof (record_parts e h (encode es ++ torn) He) as (_ & _ & H3).
    rewrite !length_app, length_record_bytes by apply He.
    rewrite !(proj2 (Z.ltb_ge _ _)) by lia. rewrite Nat2Z.id, H3, IH; [lia|done|done|].
    cbn in Hf. destruct Hf as [|[? ->]]; [left; lia|right; split; [lia|done]].
Qed.

Lemma truncate_encode es torn :
  Forall (λ e, storable e.1 e.2) es → incomplete torn →
  truncate_partial_tail (encode es ++ torn) = encode es.
Proof.
  intros Hs Ht. unfold truncate_partial_tail. rewrite valid_end_encode; [|done|done|].
  - rewrite Z.add_0_l, length_app, Nat2Z.id. case_match eqn:Hlt.
    + by rewrite take_app_length.
    + apply Z.ltb_ge in Hlt. destruct torn; [by rewrite app_nil_r|]. cbn in Hlt. lia.
  - by apply file_fuel.
Qed.

(** ** The laws of a trail store *)

Abbreviation segments := (list (list (bytes * bytes))).

Definition segment_files (segs : segments) : directory := map_seqZ 0 (encode <$> segs).

(** A store whose directory holds the sealed segments [sealed] and the active one [cur]. *)
Record represents (s : FileTrailStorage.t) (sealed : segments) (cur : list (bytes * bytes)) : Prop := {
  rep_dir : FileTrailStorage.dir s = segment_files (sealed ++ [cur]);
  rep_storable : Forall (Forall (λ e, storable e.1 e.2)) (sealed ++ [cur]);
  rep_active : FileTrailStorage.active_segment s = Z.of_nat (length sealed);
  rep_bound : Z.of_nat (length sealed) ≤ u64_max;
  rep_size : FileTrailStorage.active_size s = wrap64 (Z.of_nat (length (encode cur)));
  rep_sequence : FileTrailStorage.sequence_counter s
                 = wrap64 (Z.of_nat (length (concat (sealed ++ [cur]))));
  rep_head : FileTrailStorage.chain_head s = head_of GENESIS (concat (sealed ++ [cur]));
}.

(** The entries that the scans of segments 0 to the active one find. *)
Definition file_log (s : FileTrailStorage.t) : list (bytes * bytes) :=
  (λ e : ScannedEntry, (e.1.2, e.2))
    <$> FileTrailStorage.scan_all (FileTrailStorage.dir s) (seqZ 0 (FileTrailStorage.active_segment s + 1)).

Lemma segment_files_snoc sealed cur :
  segment_files (sealed ++ [cur]) = <[Z.of_nat (length sealed) := encode cur]> (segment_files sealed).
Proof.
  unfold segment_files. rewrite fmap_app, (map_seqZ_snoc (M:=gmap Z) 0 (encode <$> sealed) (encode cur)).
  by rewrite length_fmap.
Qed.

Lemma segment_files_fresh sealed : segment_files sealed !! Z.of_nat (length sealed) = None.
Proof. apply lookup_map_seqZ_None. rewrite length_fmap. lia. Qed.

Lemma segment_files_lookup (segs : segments) i seg :
  segs !! i = Some seg → segment_files segs !! Z.of_nat i = Some (encode seg).
Proof.
  intros Hi. unfold segment_files. rewrite lookup_map_seqZ_0, Nat2Z.id, list_lookup_fmap, Hi by lia. done.
Qed.

Lemma StronglySorted_seqZ m (n : nat) : StronglySorted Z.le (seqZ m (Z.of_nat n)).
Proof.
  revert m. induction n as [|n IH]; intros m; [constructor|].
  rewrite seqZ_cons, Nat2Z.inj_succ, Z.pred_succ by lia. constructor; [apply IH|].
  apply Forall_forall. intros x Hx%elem_of_seqZ. lia.
Qed.

(** The ids of a directory with one file for each of the first ids. *)
Lemma list_segments_range (dir : directory) (n : nat) :
  (∀ id, is_Some (dir !! id) ↔ 0 ≤ id < Z.of_nat n) → list_segments dir = seqZ 0 (Z.of_nat n).
Proof.
  intros Hd. apply (StronglySorted_unique Z.le).
  - apply StronglySorted_merge_sort; apply _.
  - apply StronglySorted_seqZ.
  - unfold list_segments. rewrite merge_sort_Permutation.
    apply NoDup_Permutation; [apply NoDup_fst_map_to_list|apply NoDup_seqZ|].
    intros id. rewrite elem_of_seqZ, Z.add_0_l, <-Hd, list_elem_of_fmap. split.
    + intros ([? f] & -> & Hf%elem_of_map_to_list). by exists f.
    + intros [f Hf]. exists (id, f). split; [done|]. by apply elem_of_map_to_list.
Qed.

Lemma scan_segment_files (segs : segments) i seg :
  Forall (Forall (λ e, storable e.1 e.2)) segs → segs !! i = Some seg →
  scan_segment_file_from (segment_files segs) (Z.of_nat i) 0 = Ok (located 0 seg).
Proof.
  intros Hs Hi. unfold scan_segment_file_from. rewrite (segment_files_lookup _ _ _ Hi). cbn [ok_or].
  cbn. rewrite drop_0. f_equal.
  rewrite <-(app_nil_r (encode seg)). apply scan_file; [|apply incomplete_nil].
  by apply (Forall_lookup_1 _ _ _ _ Hs Hi).
Qed.

Lemma scan_all_prefix (segs : segments) n :
  Forall (Forall (λ e, storable e.1 e.2)) segs → (n ≤ length segs)%nat →
  (λ e : ScannedEntry, (e.1.2, e.2)) <$> FileTrailStorage.scan_all (segment_files segs) (seqZ 0 (Z.of_nat n))
  = concat (take n segs).
Proof.
  intros Hs. induction n as [|n IH]; intros Hn; [done|].
  destruct (lookup_lt_is_Some_2 segs n) as [seg Hseg]; [lia|].
  rewrite (take_S_r _ _ _ Hseg), concat_app, <-IH, seqZ_S by lia.
  unfold FileTrailStorage.scan_all. rewrite fmap_app, concat_app, fmap_app. f_equal. cbn [fmap list_fmap].
  rewrite Z.add_0_l, (scan_segment_files _ _ _ Hs Hseg). cbn. by rewrite !app_nil_r, located_entries.
Qed.

Lemma file_log_represents s sealed cur :
  represents s sealed cur → file_log s = concat (sealed ++ [cur]).
Proof.
  intros Hr. unfold file_log. rewrite (rep_dir _ _ _ Hr), (rep_active _ _ _ Hr).
  replace (Z.of_nat (length sealed) + 1) with (Z.of_nat (length (sealed ++ [cur])))
    by (rewrite length_app; cbn; lia).
  rewrite scan_all_prefix; [by rewrite firstn_all|apply Hr|done].
Qed.

Lemma rotate_represents s sealed cur :
  represents s sealed cur → Z.of_nat (length sealed) < u64_max →
  represents (FileTrailStorage.rotate s).1 (sealed ++ [cur]) [].
Proof.
  intros Hr Hb. unfold FileTrailStorage.rotate. rewrite (rep_active _ _ _ Hr).
  rewrite wrap64_small by (unfold is_u64; lia).
  assert (Z.of_nat (length sealed) + 1 = Z.of_nat (length (sealed ++ [cur]))) as Hn
    by (rewrite length_app; cbn; lia).
  split; cbn; rewrite ?(rep_sequence _ _ _ Hr), ?(rep_head _ _ _ Hr), ?(concat_app _ [[]]); cbn;
    rewrite ?app_nil_r; try done.
  - rewrite Hn, (segment_files_snoc (sealed ++ [cur]) []). unfold create_segment_file.
    by rewrite (rep_dir _ _ _ Hr), segment_files_fresh.
  - apply Forall_app. split; [apply Hr|repeat constructor].
  - lia.
Qed.

Lemma written_represents s sealed cur e h :
  represents s sealed cur → storable e h →
  represents
    (FileTrailStorage.Mk (alter (λ file, file ++ record_bytes e h) (FileTrailStorage.active_segment s)
                            (FileTrailStorage.dir s))
       (FileTrailStorage.active_segment s) (wrap64 (FileTrailStorage.active_size s + (36 + Z.of_nat (length e))))
       (wrap64 (FileTrailStorage.sequence_counter s + 1)) h (FileTrailStorage.max_segment_size s))
    sealed (cur ++ [(e, h)]).
Proof.
  intros Hr He. split; cbn; rewrite ?concat_app; cbn; rewrite ?app_nil_r, ?app_assoc.
  - rewrite (rep_dir _ _ _ Hr), (rep_active _ _ _ Hr), !segment_files_snoc.
    rewrite alter_insert_eq, encode_app, encode_cons. cbn. by rewrite app_nil_r.
  - pose proof (rep_storable _ _ _ Hr) as [Hs Hc]%Forall_app. apply Forall_app. split; [done|].
    rewrite Forall_singleton in Hc. apply Forall_singleton, Forall_app. split; [done|by apply Forall_singleton].
  - apply Hr.
  - apply Hr.
  - rewrite (rep_size _ _ _ Hr), wrap64_add, encode_app, encode_cons. f_equal.
    rewrite !length_app, length_record_bytes by apply He. cbn. lia.
  - rewrite (rep_sequence _ _ _ Hr), wrap64_add, concat_app. f_equal. rewrite !length_app. cbn.
    rewrite app_nil_r. lia.
  - by rewrite head_of_snoc.
Qed.

Lemma append_represents s sealed cur e h :
  represents s sealed cur → storable e h → Z.of_nat (length sealed) < u64_max →
  ∃ sealed' cur', represents (FileTrailStorage.append_io Written s e h).1 sealed' cur'
    ∧ (sealed' = sealed ∧ cur' = cur ++ [(e, h)] ∨ sealed' = sealed ++ [cur ++ [(e, h)]] ∧ cur' = []).
Proof.
  intros Hr He Hb. pose proof (written_represents s sealed cur e h Hr He) as Hw.
  unfold FileTrailStorage.append_io. cbv zeta. cbn [fst]. destruct (_ <=? _).
  - exists (sealed ++ [cur ++ [(e, h)]]), []. split; [by apply rotate_represents|by right].
  - exists sealed, (cur ++ [(e, h)]). split; [done|by left].
Qed.

Lemma torn_ids sealed (file : bytes) :
  list_segments (<[Z.of_nat (length sealed) := file]> (segment_files sealed))
  = seqZ 0 (Z.of_nat (length sealed)) ++ [Z.of_nat (length sealed)].
Proof.
  rewrite (list_segments_range _ (S (length sealed))); [by rewrite seqZ_S|].
  intros id. rewrite lookup_insert_is_Some. unfold segment_files. rewrite lookup_map_seqZ_is_Some, length_fmap. lia.
Qed.

Lemma open_represents sealed cur m :
  Forall (Forall (λ e, storable e.1 e.2)) (sealed ++ [cur]) → Z.of_nat (length sealed) ≤ u64_max →
  represents (FileTrailStorage.open (segment_files (sealed ++ [cur])) m) sealed cur.
Proof.
  intros Hs Hb. pose proof (scan_all_prefix _ (length (sealed ++ [cur])) Hs ltac:(done)) as Hscan.
  rewrite firstn_all, length_app, Nat.add_1_r, seqZ_S in Hscan.
  unfold FileTrailStorage.open. rewrite segment_files_snoc, torn_ids, last_snoc, <-segment_files_snoc.
  rewrite Z.add_0_l in Hscan. set (entries := FileTrailStorage.scan_all _ _) in *.
  split; cbn; try done.
  - by rewrite segment_files_snoc, lookup_insert_eq.
  - by rewrite <-Hscan, length_fmap.
  - rewrite <-Hscan. unfold head_of. rewrite fmap_last. by destruct (last entries).
Qed.

Lemma recover_represents sealed cur torn m :
  Forall (Forall (λ e, storable e.1 e.2)) (sealed ++ [cur]) → Z.of_nat (length sealed) ≤ u64_max →
  incomplete torn →
  represents (FileTrailStorage.recover
    (<[Z.of_nat (length sealed) := encode cur ++ torn]> (segment_files sealed)) m) sealed cur.
Proof.
  intros Hs Hb Ht. unfold FileTrailStorage.recover. rewrite torn_ids, last_snoc, alter_insert_eq.
  rewrite truncate_encode; [|apply Forall_app in Hs as [_ Hc]; by rewrite Forall_singleton in Hc|done].
  rewrite <-segment_files_snoc. by apply open_represents.
Qed.

Lemma open_fresh_represents m : represents (FileTrailStorage.open ∅ m) [] [].
Proof. split; try done. repeat constructor. Qed.

#[global, refine] Instance file_trail_laws : TrailStorageLaws FileTrailStorage.t := {|
  valid s := ∃ sealed cur, represents s sealed cur;
  log := file_log |}.
Proof.
  - intros s e h (sealed & cur & Hr) He Hb. cbn in Hb. rewrite (rep_active _ _ _ Hr) in Hb.
    destruct (append_represents s sealed cur e h Hr He Hb) as (sealed' & cur' & Hr' & Hc).
    eexists _, _. split; [apply (f_equal Some), surjective_pairing|]. split; [by exists sealed', cur'|].
    rewrite (file_log_represents _ _ _ Hr), (file_log_represents _ _ _ Hr').
    destruct Hc as [[-> ->] | [-> ->]]; rewrite !concat_app; cbn; by rewrite !app_nil_r, app_assoc.
  - intros s (sealed & cur & Hr) Hb. cbn in Hb. rewrite (rep_active _ _ _ Hr) in Hb.
    pose proof (rotate_represents s sealed cur Hr Hb) as Hr'. split; [by exists (sealed ++ [cur]), []|].
    etrans; [apply (file_log_represents _ _ _ Hr')|].
    by rewrite (file_log_represents _ _ _ Hr), (concat_app _ [[]]), app_nil_r.
  - intros s (sealed & cur & Hr). exists (sealed ++ [cur]).
    cbn [metadata FileTrailStorage.trail_storage FileTrailStorage.metadata sm_current_segment scan].
    rewrite (rep_active _ _ _ Hr), length_app, (file_log_represents _ _ _ Hr). split_and!; [cbn; lia|done|].
    intros i seg Hi. exists (located 0 seg). rewrite located_entries. split; [|done].
    unfold FileTrailStorage.scan. rewrite (rep_dir _ _ _ Hr). apply scan_segment_files; [apply Hr|done].
  - intros s (sealed & cur & Hr). by rewrite (file_log_represents _ _ _ Hr), <-(rep_sequence _ _ _ Hr).
  - intros s (sealed & cur & Hr). rewrite (file_log_represents _ _ _ Hr). apply (rep_head _ _ _ Hr).
Defined.

(** ** Durability *)

(** What happens to a trail: appends, rotations, restarts (the process ends and recovers),
    and crashes [k] bytes into the write of an entry, followed by a recovery. *)
Inductive op := Append (e h : bytes) | Rotate | Restart | Crash (k : nat) (e h : bytes).

(** The store, and the acknowledgements its clients hold with the entries they are for. *)
Definition step (st : FileTrailStorage.t * list (WriteReceipt * bytes)) (o : op)
    : FileTrailStorage.t * list (WriteReceipt * bytes) :=
  let (s, acks) := st in
  match o with
  | Append e h =>
      match FileTrailStorage.append_io Written s e h with
      | (s', Ok r) => (s', acks ++ [(r, e)])
      | (s', Err _) => (s', acks)
      end
  | Rotate => ((FileTrailStorage.rotate s).1, acks)
  | Restart => (FileTrailStorage.recover (FileTrailStorage.dir s) (FileTrailStorage.max_segment_size s), acks)
  | Crash k e h =>
      let s' := (FileTrailStorage.append_io (FailedAfter k "") s e h).1 in
      (FileTrailStorage.recover (FileTrailStorage.dir s') (FileTrailStorage.max_segment_size s'), acks)
  end.

Definition run (m : Z) (ops : list op) : FileTrailStorage.t * list (WriteReceipt * bytes) :=
  fold_left step ops (FileTrailStorage.open ∅ m, []).

(** The entries that a history leaves: those appended and those a crash interrupted
    after their last byte. *)
Definition op_entries (o : op) : list (bytes * bytes) :=
  match o with
  | Append e h => [(e, h)]
  | Crash k e h => if decide (length (record_bytes e h) ≤ k)%nat then [(e, h)] else []
  | Rotate | Restart => []
  end.

Definition durable (ops : list op) : list (bytes * bytes) := concat (op_entries <$> ops).

Definition op_acked (o : op) : option bytes := match o with Append e _ => Some e | _ => None end.

Definition op_storable (o : op) : Prop :=
  match o with Append e h | Crash _ e h => storable e h | Rotate | Restart => True end.

(** A bound on the segments and bytes a history adds. *)
Definition op_cost (o : op) : Z :=
  match o with Append e h | Crash _ e h => 37 + Z.of_nat (length e) | Rotate => 1 | Restart => 0 end.

Definition cost (ops : list op) : Z := foldr Z.add 0 (op_cost <$> ops).

(** The receipt [r] points at the entry [e] of [segs]. *)
Definition points_at (segs : segments) (r : WriteReceipt) (e : bytes) : Prop :=
  ∃ i pre h post, wr_segment r = Z.of_nat i ∧ segs !! i = Some (pre ++ (e, h) :: post)
    ∧ wr_offset r = Z.of_nat (length (encode pre))
    ∧ wr_sequence r = Z.of_nat (length (concat (take i segs))) + Z.of_nat (length pre) + 1.

(** Segments only grow, and all but the last are sealed. *)
Definition grows (segs segs' : segments) : Prop :=
  ∃ sealed cur more new, segs = sealed ++ [cur] ∧ segs' = sealed ++ (cur ++ more) :: new.

Lemma points_at_grows segs segs' r e : grows segs segs' → points_at segs r e → points_at segs' r e.
Proof.
  intros (sealed & cur & more & new & -> & ->) (i & pre & h & post & Hr & Hi & Ho & Hq).
  destruct (decide (i < length sealed)%nat) as [Hlt|Hge].
  - exists i, pre, h, post. rewrite lookup_app_l in Hi |- * by lia.
    rewrite take_app_le in Hq |- * by lia. done.
  - assert (i = length sealed) as -> by (apply lookup_lt_Some in Hi; rewrite length_app in Hi; cbn in Hi; lia).
    exists (length sealed), pre, h, (post ++ more). rewrite list_lookup_middle in Hi |- * by done.
    rewrite take_app_length in Hq |- *. injection Hi as ->. by rewrite <-app_assoc.
Qed.

Lemma read_points_at s sealed cur r e n :
  represents s sealed cur → points_at (sealed ++ [cur]) r e →
  FileTrailStorage.read s (wr_segment r) (wr_offset r) n = Ok e.
Proof.
  intros Hr (i & pre & h & post & -> & Hi & -> & _). unfold FileTrailStorage.read.
  rewrite (rep_dir _ _ _ Hr), (segment_files_lookup _ _ _ Hi). cbn [ok_or].
  pose proof (Forall_lookup_1 _ _ _ _ (rep_storable _ _ _ Hr) Hi) as [_ [He _]%Forall_cons]%Forall_app.
  cbn in He. rewrite Nat2Z.id, encode_app, drop_app_length, encode_cons, record_header by done.
  destruct (record_parts e h (encode post) He) as (H1 & _).
  rewrite length_app, length_record_bytes by apply He. rewrite !(proj2 (Z.ltb_ge _ _)) by lia.
  by rewrite Nat2Z.id, H1.
Qed.

Lemma points_at_sequence segs r e :
  points_at segs r e → 1 ≤ wr_sequence r ∧ ∃ h, concat segs !! Z.to_nat (wr_sequence r - 1) = Some (e, h).
Proof.
  intros (i & pre & h & post & _ & Hi & _ & ->). split; [lia|]. exists h.
  rewrite <-(take_drop_middle segs i _ Hi) at 2. rewrite concat_app. cbn [concat].
  rewrite <-app_assoc, (app_assoc (concat _)).
  replace (Z.to_nat _) with (length (concat (take i segs) ++ pre)) by (rewrite length_app; lia).
  by apply list_lookup_middle.
Qed.

(** After a history that left the entries [es] and used at most [b] segments and bytes. *)
Definition durable_state (st : FileTrailStorage.t * list (WriteReceipt * bytes)) es b : Prop :=
  ∃ sealed cur, represents st.1 sealed cur ∧ concat (sealed ++ [cur]) = es
    ∧ Z.of_nat (length sealed) + Z.of_nat (length (encode es)) ≤ b
    ∧ Forall (λ a, points_at (sealed ++ [cur]) a.1 a.2) st.2.

Lemma length_encode_snoc es e h :
  length h = 32%nat →
  Z.of_nat (length (encode (es ++ [(e, h)]))) = Z.of_nat (length (encode es)) + 36 + Z.of_nat (length e).
Proof. intros Hh. rewrite encode_app, encode_cons, !length_app, length_record_bytes by done. cbn. lia. Qed.

Lemma concat_snoc_snoc (sealed : segments) cur e : concat (sealed ++ [cur ++ [e]]) = concat (sealed ++ [cur]) ++ [e].
Proof. rewrite !concat_app. cbn. by rewrite !app_nil_r, app_assoc. Qed.

Lemma step_append s acks es b e h :
  durable_state (s, acks) es b → storable e h → b + (37 + Z.of_nat (length e)) ≤ u64_max →
  ∃ r, step (s, acks) (Append e h) = ((FileTrailStorage.append_io Written s e h).1, acks ++ [(r, e)])
    ∧ durable_state ((FileTrailStorage.append_io Written s e h).1, acks ++ [(r, e)]) (es ++ [(e, h)])
        (b + (37 + Z.of_nat (length e))).
Proof.
  intros (sealed & cur & Hr & <- & Hb & Ha) He Hu. cbn [fst snd] in *.
  pose proof (length_encode_snoc (concat (sealed ++ [cur])) e h (proj2 He)) as Hl.
  assert (Forall (λ e, storable e.1 e.2) (concat (sealed ++ [cur]))) as Hs%length_encode_ge
    by apply Forall_concat, Hr.
  rewrite concat_app, encode_app in Hb, Hs. cbn [concat] in Hb, Hs. rewrite app_nil_r in Hb, Hs.
  rewrite !length_app in Hb. rewrite !length_app in Hs.
  destruct (append_represents s sealed cur e h Hr He) as (sealed' & cur' & Hr' & Hc); [lia|].
  eexists. split; [done|]. exists sealed', cur'.
  assert (concat (sealed' ++ [cur']) = concat (sealed ++ [cur]) ++ [(e, h)]) as Hcat.
  { destruct Hc as [[-> ->] | [-> ->]]; rewrite ?(concat_app _ [[]]), concat_snoc_snoc; cbn; by rewrite ?app_nil_r. }
  assert (grows (sealed ++ [cur]) (sealed' ++ [cur'])) as Hg.
  { destruct Hc as [[-> ->] | [-> ->]].
    - by exists sealed, cur, [(e, h)], [].
    - exists sealed, cur, [(e, h)], [[]]. by rewrite <-app_assoc. }
  cbn [fst snd]. split_and!; [done|done| |].
  - rewrite Hl, concat_app, encode_app. cbn [concat]. rewrite app_nil_r, length_app.
    destruct Hc as [[-> _] | [-> _]]; rewrite ?length_app; cbn; lia.
  - apply Forall_app. split; [by eapply Forall_impl; [|intros ?; apply points_at_grows]|].
    apply Forall_singleton. exists (length sealed), cur, h, [].
    cbn [fst snd wr_segment wr_offset wr_sequence FileTrailStorage.sequence_counter].
    rewrite (rep_active _ _ _ Hr), (rep_size _ _ _ Hr), (rep_sequence _ _ _ Hr), wrap64_add, concat_app.
    cbn [concat]. rewrite app_nil_r, length_app.
    rewrite !wrap64_small by (unfold is_u64; lia). split_and!; [done| |done|].
    + destruct Hc as [[-> ->] | [-> ->]]; [by apply list_lookup_middle|].
      rewrite <-app_assoc. by apply list_lookup_middle.
    + replace (take (length sealed) (sealed' ++ [cur'])) with sealed; [lia|].
      destruct Hc as [[-> _] | [-> _]]; rewrite <-?app_assoc; by rewrite take_app_length.
Qed.

Lemma cut_file cur e h k :
  storable e h → ∃ torn, incomplete torn ∧
    encode cur ++ take k (record_bytes e h)
    = encode (cur ++ if decide (length (record_bytes e h) ≤ k)%nat then [(e, h)] else []) ++ torn.
Proof.
  intros He. case_decide as Hk.
  - exists []. split; [apply incomplete_nil|]. rewrite take_ge, encode_app, encode_cons by done.
    cbn. by rewrite !app_nil_r.
  - exists (take k (record_bytes e h)). split; [by apply cut_incomplete; [|lia]|]. by rewrite app_nil_r.
Qed.

(** A recovery of a directory whose active file was cut while an entry was written. *)
Lemma recover_durable s acks es b m e h k :
  durable_state (s, acks) es b → storable e h → b ≤ u64_max →
  durable_state
    (FileTrailStorage.recover
       (alter (λ file, file ++ take k (record_bytes e h)) (FileTrailStorage.active_segment s)
          (FileTrailStorage.dir s)) m, acks)
    (es ++ op_entries (Crash k e h)) (b + (37 + Z.of_nat (length e))).
Proof.
  intros (sealed & cur & Hr & <- & Hb & Ha) He Hu. cbn [fst snd] in *.
  destruct (cut_file cur e h k He) as (torn & Ht & Hcut). cbn [op_entries] in *.
  set (more := if decide _ then _ else _) in *. assert (Forall (λ e, storable e.1 e.2) more) as Hmore
    by (unfold more; case_decide; repeat constructor; apply He).
  exists sealed, (cur ++ more). cbn [fst snd]. split_and!.
  - rewrite (rep_dir _ _ _ Hr), (rep_active _ _ _ Hr), segment_files_snoc, alter_insert_eq, Hcut.
    apply recover_represents; [|lia|done]. pose proof (rep_storable _ _ _ Hr) as [Hs Hc]%Forall_app.
    rewrite Forall_singleton in Hc. apply Forall_app. split; [done|]. apply Forall_singleton, Forall_app. done.
  - rewrite !concat_app. cbn. by rewrite !app_nil_r, app_assoc.
  - unfold more. case_decide; [|rewrite app_nil_r; lia]. rewrite length_encode_snoc by apply He. lia.
  - eapply Forall_impl; [apply Ha|]. intros a. apply points_at_grows. by exists sealed, cur, more, [].
Qed.

Lemma step_durable st es b o :
  durable_state st es b → op_storable o → b + op_cost o ≤ u64_max →
  durable_state (step st o) (es ++ op_entries o) (b + op_cost o)
  ∧ (step st o).2.*2 = st.2.*2 ++ option_list (op_acked o).
Proof.
  destruct st as [s acks]. intros Hd Ho Hb. destruct o as [e h| | |k e h]; cbn [op_cost] in *.
  - destruct (step_append s acks es b e h Hd Ho Hb) as (r & -> & Hd'). split; [done|]. cbn. by rewrite fmap_app.
  - destruct Hd as (sealed & cur & Hr & <- & Hl & Ha). cbn [fst snd step op_entries op_acked] in *.
    rewrite !app_nil_r. split; [|done]. exists (sealed ++ [cur]), []. cbn [fst snd]. split_and!.
    + apply rotate_represents; [done|lia].
    + rewrite (concat_app _ [[]]). apply app_nil_r.
    + rewrite length_app. cbn. lia.
    + eapply Forall_impl; [apply Ha|]. intros a. apply points_at_grows. exists sealed, cur, [], [[]].
      by rewrite app_nil_r, <-app_assoc.
  - destruct Hd as (sealed & cur & Hr & <- & Hl & Ha). cbn [fst snd step op_entries op_acked] in *.
    rewrite !app_nil_r. split; [|done]. exists sealed, cur. cbn [fst snd]. split_and!; [|done|lia|done].
    rewrite (rep_dir _ _ _ Hr), segment_files_snoc, <-(app_nil_r (encode cur)).
    apply recover_represents; [apply Hr|apply Hr|apply incomplete_nil].
  - cbn [step op_acked option_list]. rewrite app_nil_r. split; [|done]. cbn in Ho.
    apply recover_durable; [done|done|lia].
Qed.

Lemma cost_snoc ops o : cost (ops ++ [o]) = cost ops + op_cost o.
Proof. induction ops as [|o' ops IH]; unfold cost in *; cbn in *; lia. Qed.

Lemma durable_snoc ops o : durable (ops ++ [o]) = durable ops ++ op_entries o.
Proof. unfold durable. rewrite fmap_app, concat_app. cbn. by rewrite app_nil_r. Qed.

Lemma run_durable m ops :
  Forall op_storable ops → cost ops ≤ u64_max →
  durable_state (run m ops) (durable ops) (cost ops) ∧ (run m ops).2.*2 = omap op_acked ops.
Proof.
  induction ops as [|o ops IH] using rev_ind; intros Hs Hb.
  - split; [|done]. exists [], []. split_and!; [apply open_fresh_represents|done|cbn; lia|constructor].
  - apply Forall_app in Hs as [Hs Ho]. rewrite Forall_singleton in Ho.
    rewrite cost_snoc in Hb. rewrite cost_snoc, durable_snoc, omap_app. unfold run in *.
    destruct IH as [IH1 IH2]; [done|destruct o; cbn in Hb; lia|].
    rewrite fold_left_app. cbn [fold_left].
    destruct (step_durable _ _ _ o IH1 Ho Hb) as [H1 H2]. split; [done|].
    by rewrite H2, IH2.
Qed.

(** C29. An acknowledged entry is durable: whatever the appends, rotations, restarts and
    crashes in the middle of a write, the segments hold, in order, exactly the entries
    appended and those a crash interrupted after their last byte; the number of entries
    and the chain head are theirs; every append is acknowledged, its receipt reads the
    entry back from the store as it is in the end, and its sequence number is the place
    of the entry among all.  The bound on the bytes keeps the 64-bit counters exact. *)
Theorem acknowledged_entries_durable (max_segment_size : Z) (ops : list op) :
  Forall op_storable ops → cost ops ≤ u64_max →
  let (s, acks) := run max_segment_size ops in
  file_log s = durable ops
  ∧ sm_total_entries (metadata s) = Z.of_nat (length (durable ops))
  ∧ sm_chain_head (metadata s) = default GENESIS (snd <$> last (durable ops))
  ∧ acks.*2 = omap op_acked ops
  ∧ ∀ r e n, (r, e) ∈ acks →
      read s (wr_segment r) (wr_offset r) n = Ok e
      ∧ 1 ≤ wr_sequence r ∧ ∃ h, durable ops !! Z.to_nat (wr_sequence r - 1) = Some (e, h).
Proof.
  intros Hs Hb. destruct (run_durable max_segment_size ops Hs Hb) as [(sealed & cur & Hr & Hc & Hl & Ha) Hacks].
  destruct (run max_segment_size ops) as [s acks]. cbn [fst snd] in *.
  assert (Forall (λ e, storable e.1 e.2) (durable ops)) as Hd%length_encode_ge
    by (rewrite <-Hc; apply Forall_concat, Hr).
  split_and!; [by rewrite (file_log_represents _ _ _ Hr)| | |done|].
  - etrans; [apply (rep_sequence _ _ _ Hr)|]. rewrite Hc. apply wrap64_small. unfold is_u64. lia.
  - etrans; [apply (rep_head _ _ _ Hr)|]. by rewrite Hc.
  - intros r e n Hin. pose proof (proj1 (Forall_forall _ _) Ha _ Hin) as Hp. cbn [fst snd] in Hp.
    split; [by apply (read_points_at _ sealed cur)|]. rewrite <-Hc. by apply points_at_sequence.
Qed.

Definition some_hash : bytes := repeat 7 32.

Definition a_history : list op :=
  [Append [1; 2; 3] some_hash; Crash 20 [4] some_hash; Crash 37 [5] some_hash; Rotate; Append [6] some_hash; Restart].

Lemma acknowledged_entries_durable_witness :
  file_log (run 80 a_history).1 = [([1; 2; 3], some_hash); ([5], some_hash); ([6], some_hash)].
Proof.
  pose proof (acknowledged_entries_durable 80 a_history) as H.
  destruct (run 80 a_history) as [s acks]. destruct H as [H _].
  - repeat constructor; vm_compute; discriminate.
  - vm_compute. discriminate.
  - etrans; [exact H|reflexivity].
Defined.

(** After a failed append an acknowledged entry can be lost: when a write fails past
    the length of the entry and the store is used further, the next entry that fits in
    what the failed one announced is acknowledged, is not found by any scan, and a
    recovery cuts its bytes off the file. *)
Theorem failed_append_loses_next s sealed cur e h k message e2 h2 :
  represents s sealed cur → storable e h → storable e2 h2 →
  (4 ≤ k)%nat → (k + length (record_bytes e2 h2) < length (record_bytes e h))%nat →
  wrap64 (FileTrailStorage.active_size s + (36 + Z.of_nat (length e2))) < FileTrailStorage.max_segment_size s →
  let s1 := (FileTrailStorage.append_io (FailedAfter k message) s e h).1 in
  let (s2, r) := FileTrailStorage.append_io Written s1 e2 h2 in
  is_ok r = true
  ∧ scan s2 (FileTrailStorage.active_segment s2) 0 = Ok (located 0 cur)
  ∧ file_log (FileTrailStorage.recover (FileTrailStorage.dir s2) (FileTrailStorage.max_segment_size s2))
    = file_log s.
Proof.
  intros Hr He He2 Hk Hfit Hmax. cbn. rewrite (proj2 (Z.leb_gt _ _)) by done. cbn.
  rewrite (rep_dir _ _ _ Hr), (rep_active _ _ _ Hr), segment_files_snoc, !alter_insert_eq, <-app_assoc.
  pose proof (rep_storable _ _ _ Hr) as Hs. pose proof (proj2 (proj1 (Forall_app _ _ _) Hs)) as Hc.
  rewrite Forall_singleton in Hc.
  assert (incomplete (take k (record_bytes e h) ++ record_bytes e2 h2)) as Ht.
  { right. rewrite length_app, length_take_le by lia. rewrite take_app_le by (rewrite length_take; lia).
    rewrite take_take, Nat.min_l, <-(app_nil_r (record_bytes e h)), record_header by (done || lia).
    rewrite (length_record_bytes e h) in Hfit by apply He. lia. }
  split_and!; [done| |].
  - unfold FileTrailStorage.scan, scan_segment_file_from. cbn. rewrite lookup_insert_eq. cbn.
    rewrite drop_0. by rewrite scan_file.
  - rewrite (file_log_represents _ _ _ Hr). apply file_log_represents, recover_represents; [done|apply Hr|done].
Qed.

Lemma failed_append_loses_next_witness :
  let s1 := (FileTrailStorage.append_io (FailedAfter 10 "no space left") (FileTrailStorage.open ∅ 1000)
               (repeat 1 100) some_hash).1 in
  let (s2, r) := FileTrailStorage.append_io Written s1 [6] some_hash in
  is_ok r = true ∧ scan s2 0 0 = Ok [].
Proof.
  pose proof (failed_append_loses_next (FileTrailStorage.open ∅ 1000) [] [] (repeat 1 100) some_hash 10
    "no space left" [6] some_hash (open_fresh_represents 1000)) as H. cbv zeta in H |- *.
  destruct (FileTrailStorage.append_io Written _ [6] some_hash) as [s2 r] eqn:E.
  destruct H as (H1 & H2 & _); [split; vm_compute; congruence|split; vm_compute; congruence|lia|cbn; lia|done|].
  split; [done|]. injection E as <- _. exact H2.
Defined.
