(* ===== verification/Index.v ===== *)
(** * Trail index (wacp-trail: index.rs)

    The index over the trail that the runtime queries.  The SQLite table is the list of
    its rows in insertion order; a statement is the function it computes: the primary
    key refuses a second row with the same number, a [WHERE] clause filters, [ORDER BY]
    sorts and [LIMIT] cuts.  Numbers are stored as signed 64-bit integers.  Failures of
    SQLite other than the key constraint are not modelled.  The theorem states what a
    query returns. *)

From S2P Require Import Prelude Types Std Trail.

Record IndexEntry := {
  ie_sequence_number : Z;
  ie_timestamp_bytes : bytes;
  ie_workspace_id : option string;
  ie_actor : string;
  ie_event_type : string;
  ie_segment_id : Z;
  ie_offset : Z;
  ie_length : Z;
}.

Record TrailQuery := {
  tq_workspace_id : option string;
  tq_event_type : option string;
  tq_actor : option string;
  tq_from_timestamp : option bytes;
  tq_to_timestamp : option bytes;
  tq_limit : Z;
}.

Record QueryResult := {
  qr_entries : list IndexEntry;
  qr_has_more : bool;
}.

(** The columns of a row, and the entry read back from them. *)
Definition to_row (e : IndexEntry) : IndexEntry := {|
  ie_sequence_number := as_i64 (ie_sequence_number e); ie_timestamp_bytes := ie_timestamp_bytes e;
  ie_workspace_id := ie_workspace_id e; ie_actor := ie_actor e; ie_event_type := ie_event_type e;
  ie_segment_id := as_i64 (ie_segment_id e); ie_offset := as_i64 (ie_offset e); ie_length := ie_length e |}.

Definition of_row (r : IndexEntry) : IndexEntry := {|
  ie_sequence_number := as_u64 (ie_sequence_number r);
  ie_timestamp_bytes := if (length (ie_timestamp_bytes r) =? 10)%nat then ie_timestamp_bytes r else replicate 10 0;
  ie_workspace_id := ie_workspace_id r; ie_actor := ie_actor r; ie_event_type := ie_event_type r;
  ie_segment_id := as_u64 (ie_segment_id r); ie_offset := as_u64 (ie_offset r);
  ie_length := wrap32 (ie_length r) |}.

(** An absent filter accepts every row; a comparison with NULL is not true. *)
Definition opt_filter {A} (f : A → bool) (filter : option A) : bool :=
  match filter with Some a => f a | None => true end.

Definition row_matches (q : TrailQuery) (r : IndexEntry) : bool :=
  opt_filter (λ ws, bool_decide (ie_workspace_id r = Some ws)) (tq_workspace_id q)
  && opt_filter (λ et, bool_decide (ie_event_type r = et)) (tq_event_type q)
  && opt_filter (λ actor, bool_decide (ie_actor r = actor)) (tq_actor q)
  && opt_filter (λ from, blob_le from (ie_timestamp_bytes r)) (tq_from_timestamp q)
  && opt_filter (λ to, blob_le (ie_timestamp_bytes r) to) (tq_to_timestamp q).

Definition seq_le (a b : IndexEntry) : Prop := ie_sequence_number a ≤ ie_sequence_number b.
#[global] Instance seq_le_dec a b : Decision (seq_le a b) := decide (_ ≤ _).
#[global] Instance seq_le_total : Total seq_le.
Proof. intros a b. unfold seq_le. lia. Qed.
#[global] Instance seq_le_trans : Transitive seq_le.
Proof. intros a b c. unfold seq_le. lia. Qed.

Definition unique_violation : StorageError :=
  Io "UNIQUE constraint failed: trail_index.sequence_number".

Module TrailIndex.
Record t := Mk { rows : list IndexEntry }.

Definition open_in_memory : t := Mk [].

Definition insert (self : t) (entry : IndexEntry) : t * result unit StorageError :=
  let row := to_row entry in
  if bool_decide (ie_sequence_number row ∈ ie_sequence_number <$> rows self)
  then (self, Err unique_violation)
  else (Mk (rows self ++ [row]), Ok tt).

(** One transaction: the first refused entry undoes the whole batch. *)
Fixpoint insert_all (self : t) (entries : list IndexEntry) : result t StorageError :=
  match entries with
  | [] => Ok self
  | e :: entries =>
      match insert self e with
      | (self, Ok _) => insert_all self entries
      | (_, Err e) => Err e
      end
  end.

Definition insert_batch (self : t) (entries : list IndexEntry) : t * result unit StorageError :=
  match insert_all self entries with
  | Ok self' => (self', Ok tt)
  | Err e => (self, Err e)
  end.

(** [limit + 1] is a 32-bit addition. *)
Definition query (self : t) (q : TrailQuery) : QueryResult :=
  let limit := if tq_limit q =? 0 then 100 else tq_limit q in
  let fetch_limit := wrap32 (limit + 1) in
  let selected := merge_sort seq_le (filter (λ r, row_matches q r) (rows self)) in
  let entries := of_row <$> take (Z.to_nat fetch_limit) selected in
  let has_more := limit <? Z.of_nat (length entries) in
  {| qr_entries := if has_more then take (Z.to_nat limit) entries else entries; qr_has_more := has_more |}.

Definition last_sequence (self : t) : option Z :=
  match rows self with
  | [] => None
  | r :: rs => Some (as_u64 (foldl (λ m r, Z.max m (ie_sequence_number r)) (ie_sequence_number r) rs))
  end.
End TrailIndex.

(** ** Theory *)

(** An entry whose fields have the types of the struct. *)
Record entry_ok (e : IndexEntry) : Prop := {
  eo_seq : is_u64 (ie_sequence_number e);
  eo_ts : length (ie_timestamp_bytes e) = 10%nat;
  eo_segment : is_u64 (ie_segment_id e);
  eo_offset : is_u64 (ie_offset e);
  eo_length : 0 ≤ ie_length e ≤ u32_max;
}.

(** What is read is what was written. *)
Lemma of_to_row e : entry_ok e → of_row (to_row e) = e.
Proof.
  intros [Hs Ht Hg Ho Hl]. unfold of_row, to_row. cbn. rewrite !as_u64_i64, Ht by done.
  unfold wrap32. rewrite Z.mod_small by (unfold u32_max in *; lia). by destruct e.
Qed.

(** The entries of an insertion history that the table accepts: the first of each
    number. *)
Definition accepted (entries : list IndexEntry) : list IndexEntry :=
  foldl (λ acc e, if bool_decide (ie_sequence_number e ∈ ie_sequence_number <$> acc) then acc else acc ++ [e])
    [] entries.

Definition insert_each (self : TrailIndex.t) (entries : list IndexEntry) : TrailIndex.t :=
  foldl (λ self e, (TrailIndex.insert self e).1) self entries.

Lemma accepted_snoc es e :
  accepted (es ++ [e])
  = if bool_decide (ie_sequence_number e ∈ ie_sequence_number <$> accepted es) then accepted es
    else accepted es ++ [e].
Proof. unfold accepted. by rewrite foldl_app. Qed.

Lemma accepted_incl es e : e ∈ accepted es → e ∈ es.
Proof.
  induction es as [|e' es IH] using rev_ind; [done|]. rewrite accepted_snoc, elem_of_app.
  case_bool_decide; [auto|]. rewrite elem_of_app. naive_solver.
Qed.

Lemma insert_each_rows es :
  Forall entry_ok es → TrailIndex.rows (insert_each TrailIndex.open_in_memory es) = to_row <$> accepted es.
Proof.
  induction es as [|e es IH] using rev_ind; [done|]. intros [Hes He]%Forall_app. rewrite Forall_singleton in He.
  unfold insert_each. rewrite foldl_app, accepted_snoc. fold (insert_each TrailIndex.open_in_memory es).
  specialize (IH Hes). set (idx := insert_each _ es) in *. cbn [foldl].
  unfold TrailIndex.insert. rewrite IH. cbn [to_row ie_sequence_number].
  assert (Hiff : as_i64 (ie_sequence_number e) ∈ ie_sequence_number <$> (to_row <$> accepted es)
                 ↔ ie_sequence_number e ∈ ie_sequence_number <$> accepted es).
  { rewrite !list_elem_of_fmap. setoid_rewrite list_elem_of_fmap. split.
    - intros (r & Hr & e' & -> & Hin). exists e'. split; [|done]. apply as_i64_inj; [apply He| |done].
      rewrite Forall_forall in Hes. by apply (Hes e'), accepted_incl.
    - intros (e' & Heq & Hin). exists (to_row e'). cbn. split; [by rewrite Heq|eauto]. }
  do 2 case_bool_decide; try tauto. cbn. by rewrite fmap_app.
Qed.

(** The number of entries a query asks for. *)
Definition asked (q : TrailQuery) : nat := Z.to_nat (if tq_limit q =? 0 then 100 else tq_limit q).

Definition seq_i64_le (a b : IndexEntry) : Prop := as_i64 (ie_sequence_number a) ≤ as_i64 (ie_sequence_number b).

(** The rows a query selects, as entries. *)
Lemma selected_entries es q :
  Forall entry_ok es →
  let idx := insert_each TrailIndex.open_in_memory es in
  ∃ l, l ≡ₚ filter (λ e, row_matches q e) (accepted es) ∧ StronglySorted seq_i64_le l
    ∧ of_row <$> merge_sort seq_le (filter (λ r, row_matches q r) (TrailIndex.rows idx)) = l.
Proof.
  intros Hes idx. subst idx. rewrite insert_each_rows by done.
  set (m := merge_sort _ _). exists (of_row <$> m).
  assert (Hperm : m ≡ₚ to_row <$> filter (λ e, row_matches q e) (accepted es)).
  { subst m. rewrite merge_sort_Permutation. generalize (accepted es). clear.
    induction l as [|e l IH]; [done|]. rewrite fmap_cons, !filter_cons.
    change (row_matches q (to_row e)) with (row_matches q e). destruct (row_matches q e);
    rewrite ?decide_True, ?decide_False by done; [|done]. by rewrite fmap_cons, IH. }
  assert (Hok : ∀ e, e ∈ filter (λ e, row_matches q e) (accepted es) → entry_ok e).
  { intros e [_ Hin]%list_elem_of_filter. rewrite Forall_forall in Hes. by apply Hes, accepted_incl. }
  split_and!; [| |done].
  - rewrite Hperm, <-list_fmap_compose. rewrite (list_fmap_ext _ id).
    + by rewrite list_fmap_id.
    + intros i e Hi. apply of_to_row, Hok. by eapply list_elem_of_lookup_2.
  - assert (Hsorted : StronglySorted seq_le m) by (subst m; apply (StronglySorted_merge_sort seq_le)).
    assert (Hrows : ∀ r, r ∈ m → as_i64 (ie_sequence_number (of_row r)) = ie_sequence_number r).
    { intros r. rewrite Hperm, list_elem_of_fmap. intros (e & -> & Hin).
      by rewrite of_to_row by (by apply Hok). }
    clear -Hsorted Hrows. induction Hsorted as [|r m Hs IH Hall]; cbn; constructor.
    + apply IH. intros r' Hr'. apply Hrows. by right.
    + apply Forall_forall. intros e Hin. apply list_elem_of_fmap in Hin as (r' & -> & Hr').
      unfold seq_i64_le. rewrite !Hrows by (by constructor). rewrite Forall_forall in Hall. by apply Hall.
Qed.

(** A query of the trail index answers with the entries that match every filter, in
    the order of their sequence numbers read as signed integers, cut at the limit (100
    when it is zero), and says exactly when there are more; of several entries inserted
    under one number only the first is ever answered.  With the largest 32-bit limit the
    fetch limit wraps to zero and the answer is empty. *)
Theorem query_exact (es : list IndexEntry) (q : TrailQuery)
    (Hes : Forall entry_ok es) (Hlimit : 0 ≤ tq_limit q ≤ u32_max) :
  ∃ l, l ≡ₚ filter (λ e, row_matches q e) (accepted es) ∧ StronglySorted seq_i64_le l
    ∧ TrailIndex.query (insert_each TrailIndex.open_in_memory es) q
      = if tq_limit q =? u32_max then {| qr_entries := []; qr_has_more := false |}
        else {| qr_entries := take (asked q) l; qr_has_more := bool_decide (asked q < length l)%nat |}.
Proof.
  destruct (selected_entries es q Hes) as (l & Hperm & Hsorted & Hsel). exists l. split_and!; [done..|].
  unfold TrailIndex.query, asked. set (limit := if tq_limit q =? 0 then 100 else tq_limit q).
  rewrite fmap_take, Hsel. unfold u32_max in *.
  destruct (Z.eqb_spec (tq_limit q) 4294967295) as [Hmax|Hmax].
  - subst limit. rewrite Hmax. cbn. done.
  - assert (Hl : 0 < limit < 4294967295) by (subst limit; destruct (Z.eqb_spec (tq_limit q) 0); lia).
    unfold wrap32, u32_max. rewrite Z.mod_small by lia. rewrite length_take.
    case_bool_decide as Hlen; destruct (Z.ltb_spec limit (Z.of_nat (Z.to_nat (limit + 1) `min` length l))) as [?|?]; try lia.
    + rewrite take_take. by rewrite Nat.min_l by lia.
    + by rewrite !take_ge by lia.
Qed.

(** Two entries under number 1: the second is refused, and a query for one entry of the
    other says that there are more. *)
Definition sample_entry (seq : Z) (ty : string) : IndexEntry := {|
  ie_sequence_number := seq; ie_timestamp_bytes := replicate 10 0; ie_workspace_id := Some "ws-0";
  ie_actor := "protocol"; ie_event_type := ty; ie_segment_id := 0; ie_offset := 0; ie_length := 2 |}.

Definition sample_query (limit : Z) : TrailQuery := {|
  tq_workspace_id := Some "ws-0"; tq_event_type := None; tq_actor := None; tq_from_timestamp := None;
  tq_to_timestamp := None; tq_limit := limit |}.

Lemma query_exact_witness :
  let es := [sample_entry 2 "signal"; sample_entry 1 "state_changed"; sample_entry 1 "error"] in
  Forall entry_ok es
  ∧ TrailIndex.query (insert_each TrailIndex.open_in_memory es) (sample_query 1)
    = {| qr_entries := [sample_entry 1 "state_changed"]; qr_has_more := true |}
  ∧ ∃ l : list IndexEntry, TrailIndex.query (insert_each TrailIndex.open_in_memory es) (sample_query u32_max)
         = {| qr_entries := []; qr_has_more := false |} ∧ length l = 2%nat.
Proof.
  intros es.
  assert (Hes : Forall entry_ok es) by (repeat constructor; vm_compute; congruence).
  split; [done|]. split; [vm_compute; reflexivity|].
  destruct (query_exact es (sample_query u32_max) Hes) as (l & Hperm & _ & Hq); [vm_compute; split; congruence|].
  exists l. split; [exact Hq|]. apply Permutation_length in Hperm. rewrite Hperm. vm_compute. reflexivity.
Defined.
