(* ===== verification/Stores.v ===== *)
(** * File-backed checkpoints and snapshots (wacp-trail: fs_checkpoint.rs, fs_snapshot.rs)

    The content-addressed checkpoint store and the snapshot store over a directory.  A
    directory maps file names to their bytes.  A write may stop after any number of
    bytes: its fault is [Some n], the file then holds the first [n] bytes and the call
    fails, or the process stops, which leaves the same file.  Creating directories,
    reading and removing succeed.  SHA-256 is a parameter.  The theorems state what a
    read returns after any history of operations and faults. *)

From S2P Require Import Prelude Types Std Trail.

(** The bytes a write leaves in a new or truncated file. *)
Definition written (fault : option nat) (data : bytes) : bytes :=
  match fault with Some n => take n data | None => data end.

Definition write_error : StorageError := Io "write failed".

(** [dir.join(shard).join(format!("{hex}.blob"))] *)
Definition blob_path (hash : bytes) : string :=
  let hex := hex_encode hash in
  String.substring 0 2 hex +:+ "/" +:+ hex +:+ ".blob".

Module FileCheckpointStorage.
Section Store.
Context (sha256 : bytes → bytes).

Record t := Mk { files : gmap string bytes }.

Definition open : t := Mk ∅.

Definition store (self : t) (fault : option nat) (content_hash payload : bytes) : t * result bool StorageError :=
  let path := blob_path content_hash in
  match files self !! path with
  | Some _ => (self, Ok false)
  | None =>
      (Mk (<[path := written fault payload]> (files self)),
       match fault with None => Ok true | Some _ => Err write_error end)
  end.

Definition read (self : t) (content_hash : bytes) : result (option bytes) StorageError :=
  match files self !! blob_path content_hash with
  | None => Ok None
  | Some data =>
      let computed := sha256 data in
      if bool_decide (computed = content_hash) then Ok (Some data)
      else Err (Corruption ("checkpoint hash mismatch: expected " +:+ hex_encode content_hash
                            +:+ ", computed " +:+ hex_encode computed))
  end.

Definition exists_ (self : t) (content_hash : bytes) : bool :=
  bool_decide (is_Some (files self !! blob_path content_hash)).

Definition delete (self : t) (content_hash : bytes) : t * bool :=
  (Mk (base.delete (blob_path content_hash) (files self)), exists_ self content_hash).
End Store.
End FileCheckpointStorage.

(** ** Snapshots *)

Definition CHECKSUM_LEN : nat := 32.

Module FileSnapshotStorage.
Section Store.
Context (sha256 : bytes → bytes).

(** The files of the directory and the target of the link [system-latest.snapshot]. *)
Record t := Mk { files : gmap string bytes; latest : option string }.
#[global] Instance eta_t : Settable t := λ r, Mk (files r) (latest r).

Definition new : t := Mk ∅ None.

Definition workspace_path (workspace_id : WorkspaceId) : string := "ws-" +:+ workspace_id +:+ ".snapshot".
Definition system_path (sequence : Z) : string := "system-" +:+ zero_pad 12 sequence +:+ ".snapshot".
Definition latest_link : string := "system-latest.snapshot".

Definition write_with_checksum (self : t) (fault : option nat) (path : string) (data : bytes) :
    t * result unit StorageError :=
  (self <| files ::= <[path := written fault (sha256 data ++ data)]> |>,
   match fault with None => Ok tt | Some _ => Err write_error end).

Definition read_with_checksum (self : t) (path : string) : result (option bytes) StorageError :=
  match files self !! path with
  | None => Ok None
  | Some raw =>
      if (length raw <? CHECKSUM_LEN)%nat
      then Err (Corruption ("snapshot too small: " +:+ pretty (length raw) +:+ " bytes"))
      else
        let stored_checksum := take CHECKSUM_LEN raw in
        let payload := drop CHECKSUM_LEN raw in
        if bool_decide (stored_checksum = sha256 payload) then Ok (Some payload)
        else Err (Corruption ("snapshot checksum mismatch in " +:+ path))
  end.

Definition write_workspace (self : t) (fault : option nat) (workspace_id : WorkspaceId) (data : bytes) :
    t * result unit StorageError :=
  write_with_checksum self fault (workspace_path workspace_id) data.

Definition read_workspace (self : t) (workspace_id : WorkspaceId) : result (option bytes) StorageError :=
  read_with_checksum self (workspace_path workspace_id).

Definition delete_workspace (self : t) (workspace_id : WorkspaceId) : t :=
  self <| files ::= base.delete (workspace_path workspace_id) |>.

Definition write_system (self : t) (fault : option nat) (sequence : Z) (data : bytes) :
    t * result unit StorageError :=
  let path := system_path sequence in
  match write_with_checksum self fault path data with
  | (self, Err e) => (self, Err e)
  | (self, Ok _) => (self <| latest := Some path |>, Ok tt)
  end.

(** The sequence number in the name of a directory entry. *)
Definition system_sequence (name : string) : option Z :=
  match strip_prefix "system-" name ≫= strip_suffix ".snapshot" with
  | Some seq_str => if bool_decide (seq_str = "latest") then None else parse_u64 seq_str
  | None => None
  end.

(** One iteration over the directory. *)
Definition keep_latest (acc : option (Z * string)) (name : string) : option (Z * string) :=
  match system_sequence name with
  | None => acc
  | Some seq =>
      match acc with
      | Some (prev_seq, _) => if prev_seq <? seq then Some (seq, name) else acc
      | None => Some (seq, name)
      end
  end.

(** [fs::read_dir] lists the files and the link in an order the file system chooses. *)
Definition read_dir `{HashOrder} (self : t) : list string :=
  (hash_iter (match latest self with
              | Some _ => <[latest_link := []]> (files self)
              | None => files self
              end)).*1.

Definition read_latest_system `{HashOrder} (self : t) : result (option (Z * bytes)) StorageError :=
  match foldl keep_latest None (read_dir self) with
  | Some (seq, path) =>
      let? data := read_with_checksum self path in
      Ok ((λ d, (seq, d)) <$> data)
  | None => Ok None
  end.
End Store.
End FileSnapshotStorage.

(** ** Theory: checkpoints *)

Inductive blob_op :=
| StoreBlob (payload : bytes) (fault : option nat)
| DeleteBlob (content_hash : bytes).

Lemma string_app_inj_len s1 s2 r1 r2 :
  String.length s1 = String.length s2 → s1 +:+ r1 = s2 +:+ r2 → s1 = s2 ∧ r1 = r2.
Proof.
  revert s2. induction s1 as [|c s1 IH]; intros [|c' s2]; cbn; try done.
  intros [= Hlen] [= -> Heq]. by destruct (IH s2 Hlen Heq) as [-> ->].
Qed.

Section Blobs.
Context (sha256 : bytes → bytes).

(** A digest is 32 bytes. *)
Definition digest (h : bytes) : Prop := length h = 32%nat ∧ Forall (λ b, 0 ≤ b < 256) h.

Definition digests : Prop := ∀ x, digest (sha256 x).

Lemma blob_path_inj h h' : digest h → digest h' → blob_path h = blob_path h' → h = h'.
Proof.
  intros [Hl Hb] [Hl' Hb'] Heq. unfold blob_path in Heq. cbv zeta in Heq.
  assert (Hx : String.length (hex_encode h) = 64%nat) by (rewrite length_hex_encode by done; lia).
  assert (Hx' : String.length (hex_encode h') = 64%nat) by (rewrite length_hex_encode by done; lia).
  apply string_app_inj_len in Heq as [_ Heq]; [|rewrite !length_substring_0; lia].
  apply string_app_inj_len in Heq as [_ Heq]; [|done].
  apply string_app_inj_len in Heq as [Heq _]; [|congruence]. by apply hex_encode_inj.
Qed.

Definition blob_step (d : FileCheckpointStorage.t) (op : blob_op) : FileCheckpointStorage.t :=
  match op with
  | StoreBlob payload fault => (FileCheckpointStorage.store d fault (sha256 payload) payload).1
  | DeleteBlob h => (FileCheckpointStorage.delete d h).1
  end.

(** The first store of [h] since it was last deleted. *)
Definition first_store (h : bytes) (ops : list blob_op) : option (bytes * option nat) :=
  foldl (λ acc op, match op, acc with
                   | StoreBlob payload fault, None => if bool_decide (sha256 payload = h) then Some (payload, fault) else None
                   | StoreBlob _ _, Some _ => acc
                   | DeleteBlob h', _ => if bool_decide (h' = h) then None else acc
                   end) None ops.

Lemma first_store_payload h ops p f : first_store h ops = Some (p, f) → sha256 p = h.
Proof.
  unfold first_store. revert p f. induction ops as [|op ops IH] using rev_ind; intros p f; [done|].
  rewrite foldl_app. cbn [foldl]. destruct (foldl _ None ops) as [[p0 f0]|], op; try case_bool_decide;
    intros [= <- <-]; eauto.
Qed.

Lemma blobs_content ops h :
  digests → Forall (λ op, match op with DeleteBlob h => digest h | _ => True end) ops → digest h →
  FileCheckpointStorage.files (foldl blob_step FileCheckpointStorage.open ops) !! blob_path h
  = (λ '(payload, fault), written fault payload) <$> first_store h ops.
Proof.
  intros Hsha Hops Hh. induction ops as [|op ops IH] using rev_ind; [done|].
  apply Forall_app in Hops as [Hops Hop]. rewrite Forall_singleton in Hop. specialize (IH Hops).
  unfold first_store in *. rewrite !foldl_app. cbn [foldl].
  set (d := foldl blob_step _ ops) in *. set (acc := foldl _ None ops) in *.
  destruct op as [payload fault|h']; cbn [blob_step].
  - unfold FileCheckpointStorage.store. cbv zeta. case_bool_decide as Heq.
    + subst h. destruct acc as [[p0 f0]|]; rewrite IH; cbn; [by rewrite IH|]. by rewrite lookup_insert_eq.
    + destruct (FileCheckpointStorage.files d !! blob_path (sha256 payload)); cbn.
      * rewrite IH. by destruct acc as [[]|].
      * rewrite lookup_insert_ne; [rewrite IH; by destruct acc as [[]|]|].
        intros Hp. apply Heq. by apply blob_path_inj.
  - cbn. case_bool_decide as Heq; [subst; by rewrite lookup_delete_eq|].
    rewrite lookup_delete_ne; [done|]. intros Hp. apply Heq. by apply blob_path_inj.
Qed.
End Blobs.

(** The checkpoint store: after any history of stores, interrupted stores and
    deletions, a payload reads back exactly when the first store of it since its last
    deletion wrote all of it.  A payload whose first store stopped early reads as
    corrupt from then on, and storing it again is answered as a duplicate and changes
    nothing, until it is deleted. *)
Theorem checkpoint_store_exact (sha256 : bytes → bytes) (ops : list blob_op) (payload : bytes)
    (Hsha : digests sha256)
    (Hops : Forall (λ op, match op with DeleteBlob h => digest h | _ => True end) ops)
    (Hcollide : ∀ p, sha256 p = sha256 payload → p = payload) :
  let d := foldl (blob_step sha256) FileCheckpointStorage.open ops in
  let h := sha256 payload in
  match first_store sha256 h ops with
  | None => FileCheckpointStorage.read sha256 d h = Ok None
  | Some (_, fault) =>
      (FileCheckpointStorage.read sha256 d h = Ok (Some payload)
       ↔ match fault with Some n => (length payload ≤ n)%nat | None => True end)
      ∧ (∀ x, FileCheckpointStorage.read sha256 d h = Ok x → x = Some payload)
      ∧ ∀ fault', FileCheckpointStorage.store d fault' h payload = (d, Ok false)
  end.
Proof.
  intros d h. pose proof (blobs_content sha256 ops h Hsha Hops (Hsha payload)) as Hc. fold d in Hc.
  unfold FileCheckpointStorage.read, FileCheckpointStorage.store. rewrite Hc.
  destruct (first_store sha256 h ops) as [[p fault]|] eqn:Hf; cbn; [|done].
  apply first_store_payload, Hcollide in Hf as ->. split_and!; [| |done].
  - destruct fault as [n|]; cbn; [|by rewrite bool_decide_true].
    destruct (decide (length payload ≤ n)%nat) as [Hn|Hn].
    + rewrite take_ge by done. by rewrite bool_decide_true.
    + split; [|done]. case_bool_decide as Hd; [|done]. intros _. apply Hcollide in Hd.
      apply (f_equal length) in Hd. rewrite length_take in Hd. lia.
  - intros x. case_bool_decide as Hd; [|done]. intros [= <-]. by rewrite (Hcollide _ Hd).
Qed.

(** A store that stopped after one byte. *)
Definition toy_sha (x : bytes) : bytes := if bool_decide (x = [1; 2; 3]) then replicate 32 1 else replicate 32 0.

Lemma checkpoint_store_exact_witness :
  let d := foldl (blob_step toy_sha) FileCheckpointStorage.open [StoreBlob [1; 2; 3] (Some 1%nat)] in
  ¬ is_ok (FileCheckpointStorage.read toy_sha d (toy_sha [1; 2; 3]))
  ∧ FileCheckpointStorage.store d None (toy_sha [1; 2; 3]) [1; 2; 3] = (d, Ok false).
Proof.
  intros d.
  destruct (checkpoint_store_exact toy_sha [StoreBlob [1; 2; 3] (Some 1%nat)] [1; 2; 3]) as (Hr & _ & Hs).
  - intros x. unfold toy_sha, digest. case_bool_decide; split; [done| |done|]; apply Forall_replicate; lia.
  - by repeat constructor.
  - intros p. unfold toy_sha. case_bool_decide; [done|]. by case_bool_decide.
  - split; [vm_compute; tauto|apply Hs].
Defined.

(** ** Theory: snapshots *)

Inductive snapshot_op :=
| WriteSystem (sequence : Z) (data : bytes) (fault : option nat)
| WriteWorkspace (workspace_id : WorkspaceId) (data : bytes) (fault : option nat)
| DeleteWorkspace (workspace_id : WorkspaceId).

Section Snapshots.
Import FileSnapshotStorage.
Context (sha256 : bytes → bytes).

Definition snapshot_step (d : t) (op : snapshot_op) : t :=
  match op with
  | WriteSystem seq data fault => (write_system sha256 d fault seq data).1
  | WriteWorkspace ws data fault => (write_workspace sha256 d fault ws data).1
  | DeleteWorkspace ws => delete_workspace d ws
  end.

Definition snapshot_run (ops : list snapshot_op) : t := foldl snapshot_step new ops.

(** The last write of a system snapshot, and of a workspace since its deletion. *)
Definition last_system (seq : Z) (ops : list snapshot_op) : option (bytes * option nat) :=
  foldl (λ acc op, match op with
                   | WriteSystem seq' data fault => if bool_decide (seq' = seq) then Some (data, fault) else acc
                   | _ => acc
                   end) None ops.

Definition last_workspace (ws : WorkspaceId) (ops : list snapshot_op) : option (bytes * option nat) :=
  foldl (λ acc op, match op with
                   | WriteWorkspace ws' data fault => if bool_decide (ws' = ws) then Some (data, fault) else acc
                   | DeleteWorkspace ws' => if bool_decide (ws' = ws) then None else acc
                   | WriteSystem _ _ _ => acc
                   end) None ops.

Definition snapshot_ops_ok (ops : list snapshot_op) : Prop :=
  Forall (λ op, match op with WriteSystem seq _ _ => is_u64 seq | _ => True end) ops.

Definition raw (w : bytes * option nat) : bytes := let '(data, fault) := w in written fault (sha256 data ++ data).

Lemma system_sequence_path seq : is_u64 seq → system_sequence (system_path seq) = Some seq.
Proof.
  intros Hseq. unfold system_sequence, system_path. rewrite strip_prefix_app. cbn [mbind option_bind].
  rewrite strip_suffix_app, bool_decide_false; [by apply parse_zero_pad|].
  intros Heq. pose proof (parse_zero_pad 12 seq Hseq) as Hp. rewrite Heq in Hp. by vm_compute in Hp.
Qed.

Lemma system_sequence_workspace ws : system_sequence (workspace_path ws) = None.
Proof. done. Qed.

Lemma workspace_path_inj ws ws' : workspace_path ws = workspace_path ws' → ws = ws'.
Proof.
  unfold workspace_path. intros Heq. apply string_app_inj_len in Heq as [_ Heq]; [|done].
  apply (f_equal (strip_suffix ".snapshot")) in Heq. rewrite !strip_suffix_app in Heq. congruence.
Qed.

(** What each file holds. *)
Lemma snapshot_files ops : snapshot_ops_ok ops →
  (∀ seq, is_u64 seq → files (snapshot_run ops) !! system_path seq = raw <$> last_system seq ops)
  ∧ (∀ ws, files (snapshot_run ops) !! workspace_path ws = raw <$> last_workspace ws ops)
  ∧ (∀ name seq, is_Some (files (snapshot_run ops) !! name) → system_sequence name = Some seq →
       is_u64 seq ∧ name = system_path seq).
Proof.
  induction ops as [|op ops IH] using rev_ind; [intros _; split_and!; [done..|]; by intros name seq [? ?]|].
  intros [Hops Hop]%Forall_app. rewrite Forall_singleton in Hop. destruct (IH Hops) as (Hsys & Hws & Hname).
  assert (Hsw : ∀ seq ws, is_u64 seq → system_path seq ≠ workspace_path ws).
  { intros seq ws Hs Heq. apply (f_equal system_sequence) in Heq. by rewrite system_sequence_path in Heq. }
  assert (Hss : ∀ seq seq', is_u64 seq → is_u64 seq' → system_path seq = system_path seq' → seq = seq').
  { intros seq seq' Hs Hs' Heq. apply (f_equal system_sequence) in Heq. rewrite !system_sequence_path in Heq by done.
    congruence. }
  unfold snapshot_run, last_system, last_workspace in *. rewrite !foldl_app. cbn [foldl].
  set (d := foldl snapshot_step new ops) in *.
  destruct op as [seq' data fault|ws' data fault|ws']; cbn [snapshot_step].
  - assert (Hf : files (write_system sha256 d fault seq' data).1
                 = <[system_path seq' := written fault (sha256 data ++ data)]> (files d)) by (by destruct fault).
    rewrite Hf. split_and!.
    + intros seq Hs. rewrite foldl_app. cbn [foldl]. case_bool_decide as Heq.
      * subst. by rewrite lookup_insert_eq.
      * rewrite lookup_insert_ne; [by apply Hsys|]. intros Hp. apply Heq. by apply Hss.
    + intros ws. rewrite foldl_app. cbn [foldl]. rewrite lookup_insert_ne; [apply Hws|]. by apply Hsw.
    + intros name seq [<-|Hin]%lookup_insert_is_Some' Hseq; [|by eapply Hname].
      rewrite system_sequence_path in Hseq by done. by simplify_eq.
  - cbn [write_workspace write_with_checksum fst set]. cbn. split_and!.
    + intros seq Hs. rewrite foldl_app. cbn [foldl].
      rewrite lookup_insert_ne; [by apply Hsys|]. intros Hp. by eapply Hsw.
    + intros ws. rewrite foldl_app. cbn [foldl]. case_bool_decide as Heq.
      * subst. by rewrite lookup_insert_eq.
      * rewrite lookup_insert_ne; [apply Hws|]. intros Hp. by apply Heq, workspace_path_inj.
    + intros name seq [<-|Hin]%lookup_insert_is_Some' Hseq; [done|by eapply Hname].
  - cbn. split_and!.
    + intros seq Hs. rewrite foldl_app. cbn [foldl].
      rewrite lookup_delete_ne; [by apply Hsys|]. intros Hp. by eapply Hsw.
    + intros ws. rewrite foldl_app. cbn [foldl]. case_bool_decide as Heq.
      * subst. by rewrite lookup_delete_eq.
      * rewrite lookup_delete_ne; [apply Hws|]. intros Hp. by apply Heq, workspace_path_inj.
    + intros name seq Hin Hseq. eapply Hname; [|done]. destruct Hin as [x Hx].
      apply lookup_delete_Some in Hx as [_ Hx]. by exists x.
Qed.

(** The scan of the directory finds the highest sequence number. *)
Lemma keep_latest_max names :
  match foldl keep_latest None names with
  | None => ∀ name, name ∈ names → system_sequence name = None
  | Some (seq, name) => name ∈ names ∧ system_sequence name = Some seq
      ∧ ∀ name' seq', name' ∈ names → system_sequence name' = Some seq' → seq' ≤ seq
  end.
Proof.
  induction names as [|name names IH] using rev_ind; [set_solver|]. rewrite foldl_app. cbn [foldl].
  unfold keep_latest at 1. destruct (system_sequence name) as [seq|] eqn:Hseq.
  - destruct (foldl keep_latest None names) as [[prev p]|].
    + destruct IH as (Hin & Hp & Hmax). destruct (Z.ltb_spec prev seq).
      * split_and!; [set_solver|done|]. intros name' seq' [Hn | ->]%elem_of_snoc Hs;
          [specialize (Hmax name' seq' Hn Hs); lia|]. rewrite Hseq in Hs. injection Hs as ->. lia.
      * split_and!; [set_solver|done|]. intros name' seq' [Hn | ->]%elem_of_snoc Hs;
          [by eapply Hmax|]. rewrite Hseq in Hs. injection Hs as ->. lia.
    + split_and!; [set_solver|done|]. intros name' seq' [Hn | ->]%elem_of_snoc Hs.
      * rewrite (IH name' Hn) in Hs. done.
      * rewrite Hseq in Hs. injection Hs as ->. lia.
  - destruct (foldl keep_latest None names) as [[prev p]|].
    + destruct IH as (Hin & Hp & Hmax). split_and!; [set_solver|done|].
      intros name' seq' [Hn | ->]%elem_of_snoc Hs; [by eapply Hmax|congruence].
    + intros name' [Hn | ->]%elem_of_snoc; auto.
Qed.

(** A system snapshot is listed exactly when its file is there. *)
Lemma read_dir_system `{HashOrder} d name seq :
  system_sequence name = Some seq → name ∈ read_dir d ↔ is_Some (files d !! name).
Proof.
  intros Hseq. unfold read_dir. rewrite list_elem_of_fmap.
  assert (Hne : latest_link ≠ name) by (by intros <-).
  split.
  - intros ([k v] & -> & Hk%elem_of_hash_iter). cbn in *. destruct (latest d); [|eauto].
    rewrite lookup_insert_ne in Hk by done. eauto.
  - intros [v Hv]. exists (name, v). split; [done|]. apply elem_of_hash_iter.
    destruct (latest d); [by rewrite lookup_insert_ne|done].
Qed.

(** Reading back one write. *)
Lemma read_raw d path data fault :
  digests sha256 → (∀ n, sha256 (take n data) = sha256 data → take n data = data) →
  files d !! path = Some (raw (data, fault)) →
  match fault with
  | Some n => if decide (n < 32 + length data)%nat
              then ∃ m, read_with_checksum sha256 d path = Err (Corruption m)
              else read_with_checksum sha256 d path = Ok (Some data)
  | None => read_with_checksum sha256 d path = Ok (Some data)
  end.
Proof.
  intros Hsha Hprefix Hraw. unfold read_with_checksum. rewrite Hraw.
  destruct (Hsha data) as [Hlen _]. unfold CHECKSUM_LEN.
  assert (Hfull : let raw := sha256 data ++ data in
    (if (length raw <? 32)%nat then Err (Corruption ("snapshot too small: " +:+ pretty (length raw) +:+ " bytes"))
     else if bool_decide (take 32 raw = sha256 (drop 32 raw)) then Ok (Some (drop 32 raw))
     else Err (Corruption ("snapshot checksum mismatch in " +:+ path))) = Ok (Some data)).
  { cbv zeta. rewrite length_app, Hlen. destruct (Nat.ltb_spec (32 + length data) 32); [lia|].
    rewrite (take_app_length' _ _ 32), (drop_app_length' _ _ 32) by done. by rewrite bool_decide_true. }
  destruct fault as [n|]; cbn [raw written]; [|exact Hfull].
  case_decide as Hn; [|by rewrite take_ge by (rewrite length_app; lia)].
  destruct (Nat.ltb_spec (length (take n (sha256 data ++ data))) 32) as [Hs|Hs]; [eauto|].
  rewrite length_take, length_app in Hs. assert (Hn32 : (32 ≤ n)%nat) by lia.
  assert (Htake : take n (sha256 data ++ data) = sha256 data ++ take (n - 32) data).
  { rewrite take_app, take_ge by lia. by rewrite Hlen. }
  rewrite Htake, (take_app_length' _ _ 32), (drop_app_length' _ _ 32) by done.
  case_bool_decide as Heq; [|eauto]. symmetry in Heq. apply Hprefix in Heq.
  apply (f_equal length) in Heq. rewrite length_take in Heq. lia.
Qed.
End Snapshots.

(** The snapshot store: after any history of writes, interrupted writes and
    deletions, a workspace reads back its last complete write, and the latest system
    snapshot is the last write under the highest sequence number.  When that write was
    interrupted the read fails, whatever older snapshots the directory holds. *)
Theorem snapshot_store_exact (sha256 : bytes → bytes) `{HashOrder} (ops : list snapshot_op) data fault
    (Hsha : digests sha256) (Hops : snapshot_ops_ok ops)
    (Hprefix : ∀ n, sha256 (take n data) = sha256 data → take n data = data) :
  let d := snapshot_run sha256 ops in
  let complete := match fault with Some n => bool_decide (32 + length data ≤ n)%nat | None => true end in
  (∀ ws, last_workspace ws ops = Some (data, fault) →
     if complete then FileSnapshotStorage.read_workspace sha256 d ws = Ok (Some data)
     else ∃ m, FileSnapshotStorage.read_workspace sha256 d ws = Err (Corruption m))
  ∧ (∀ seq, is_u64 seq → last_system seq ops = Some (data, fault) →
       (∀ seq', is_u64 seq' → is_Some (last_system seq' ops) → seq' ≤ seq) →
       if complete then FileSnapshotStorage.read_latest_system sha256 d = Ok (Some (seq, data))
       else ∃ m, FileSnapshotStorage.read_latest_system sha256 d = Err (Corruption m))
  ∧ ((∀ seq, is_u64 seq → last_system seq ops = None) → FileSnapshotStorage.read_latest_system sha256 d = Ok None).
Proof.
  intros d complete. destruct (snapshot_files sha256 ops Hops) as (Hsys & Hws & Hname).
  fold d in Hsys, Hws, Hname.
  assert (Hread : ∀ path, FileSnapshotStorage.files d !! path = Some (raw sha256 (data, fault)) →
    if complete then FileSnapshotStorage.read_with_checksum sha256 d path = Ok (Some data)
    else ∃ m, FileSnapshotStorage.read_with_checksum sha256 d path = Err (Corruption m)).
  { intros path Hp. pose proof (read_raw sha256 d path data fault Hsha Hprefix Hp) as Hr.
    subst complete. destruct fault as [n|]; [|done]. case_decide; case_bool_decide; [lia|done|done|lia]. }
  split_and!.
  - intros ws Hlast. apply Hread. by rewrite Hws, Hlast.
  - intros seq Hseq Hlast Hmax. unfold FileSnapshotStorage.read_latest_system.
    assert (Hfile : FileSnapshotStorage.files d !! FileSnapshotStorage.system_path seq = Some (raw sha256 (data, fault)))
      by (by rewrite Hsys, Hlast).
    assert (Hin : FileSnapshotStorage.system_path seq ∈ FileSnapshotStorage.read_dir d).
    { eapply read_dir_system; [by apply system_sequence_path|]. by eexists. }
    pose proof (keep_latest_max (FileSnapshotStorage.read_dir d)) as Hk.
    destruct (foldl _ None _) as [[seq' name]|]; 
      [|specialize (Hk _ Hin); by rewrite system_sequence_path in Hk].
    destruct Hk as (Hn & Hs & Hle). apply (read_dir_system d name seq' Hs) in Hn.
    destruct (Hname name seq' Hn Hs) as [Hu ->]. rewrite Hsys in Hn by done.
    assert (seq' = seq) as ->.
    { assert (seq' ≤ seq) by (apply Hmax; [done|]; by apply fmap_is_Some in Hn).
      assert (seq ≤ seq') by (eapply Hle; [exact Hin|by apply system_sequence_path]). lia. }
    specialize (Hread _ Hfile). destruct complete; [by rewrite Hread|].
    destruct Hread as [m ->]. by exists m.
  - intros Hnone. unfold FileSnapshotStorage.read_latest_system.
    pose proof (keep_latest_max (FileSnapshotStorage.read_dir d)) as Hk.
    destruct (foldl _ None _) as [[seq' name]|]; [|done]. destruct Hk as (Hn & Hs & _).
    apply (read_dir_system d name seq' Hs) in Hn. destruct (Hname name seq' Hn Hs) as [Hu ->].
    rewrite Hsys, Hnone in Hn by done. by destruct Hn.
Qed.

(** A first snapshot is written, the second one is cut short: nothing reads back. *)
Lemma snapshot_store_exact_witness :
  let H := canonical_order in
  let ops := [WriteSystem 4 [1; 2; 3] None; WriteSystem 7 [1; 2; 3] (Some 33%nat)] in
  snapshot_ops_ok ops
  ∧ (∃ m, FileSnapshotStorage.read_latest_system toy_sha (snapshot_run toy_sha ops) = Err (Corruption m))
  ∧ FileSnapshotStorage.read_latest_system toy_sha (snapshot_run toy_sha (take 1 ops)) = Ok (Some (4, [1; 2; 3])).
Proof.
  intros H ops.
  assert (Hd : digests toy_sha).
  { intros x. unfold toy_sha, digest. case_bool_decide; split; [done| |done|]; apply Forall_replicate; lia. }
  assert (Hok : snapshot_ops_ok ops) by (repeat constructor; vm_compute; congruence).
  assert (Hp : ∀ n, toy_sha (take n [1; 2; 3]) = toy_sha [1; 2; 3] → take n [1; 2; 3] = [1; 2; 3]).
  { intros n. unfold toy_sha. case_bool_decide; [done|]. by case_bool_decide. }
  split; [done|]. split.
  - destruct (snapshot_store_exact toy_sha ops [1; 2; 3] (Some 33%nat) Hd Hok Hp) as (_ & Hs & _).
    apply (Hs 7); [done|reflexivity|]. intros seq' _. unfold last_system. cbn.
    repeat case_bool_decide; subst; intros [? ?]; lia || done.
  - vm_compute. reflexivity.
Defined.
