(* ===== verification/Recovery.v ===== *)
(** * Crash recovery (crate wacp-recovery: lib.rs)

    Recovery replays the trail.  It is written against the storage traits and over a
    JSON library: [Json] carries the operations of serde_json the code calls, about
    which nothing is assumed.  [None] is the panic of a slice out of range.  The
    theorems give the recovered state, compare recovery from a snapshot with recovery
    from the whole trail, show when the snapshot makes recovery panic, and that a crash of
    the file-backed trail does not show. *)

From S2P Require Import Prelude Types Std Clock Trail FileTrail.

(** The serde_json operations used; [from_slice] and [snapshot_from_slice] are [None]
    where the library returns an error. *)
Class Json := {
  Value : Type;
  from_slice : bytes → option Value;
  get : Value → string → option Value;
  as_str : Value → option string;
  as_u64 : Value → option Z;
  as_object : Value → option (list (string * Value));
}.

(** The struct of orchestrator.rs that snapshots hold. *)
Record SystemSnapshot `{Json} := {
  ss_sequence : Z;
  ss_tree : Value;
  ss_task_graph : Value;
}.

(** The part of the trait [SnapshotStorage] that recovery reads, and the deserialiser. *)
Class SnapshotStorage `{Json} (S : Type) := {
  read_latest_system : S → result (option (Z * bytes)) StorageError;
  snapshot_from_slice : bytes → option SystemSnapshot;
}.

Inductive RecoveryError :=
| TrailCorruption (index : nat) (details : string)
| RecoveryStorageError (e : StorageError).

Record RecoveredState := {
  rs_workspace_states : gmap string WorkspaceState.t;
  rs_task_statuses : gmap string TaskStatus.t;
  rs_last_sequence : Z;
  rs_clock_initial : Timestamp.t;
  rs_in_flight_envelopes : list string;
  rs_snapshot_sequence : option Z;
}.

Definition parse_workspace_state (s : string) : option WorkspaceState.t :=
  match s with
  | "Idle" => Some WorkspaceState.Idle
  | "Active" => Some WorkspaceState.Active
  | "Blocked" => Some WorkspaceState.Blocked
  | "Suspended" => Some WorkspaceState.Suspended
  | "Migrating" => Some WorkspaceState.Migrating
  | "Integrating" => Some WorkspaceState.Integrating
  | "Conflicted" => Some WorkspaceState.Conflicted
  | "Closed" => Some WorkspaceState.Closed
  | "Failed" => Some WorkspaceState.Failed
  | _ => None
  end%string.

Definition parse_task_status (s : string) : option TaskStatus.t :=
  match s with
  | "Draft" => Some TaskStatus.Draft
  | "Pending" => Some TaskStatus.Pending
  | "Assigned" => Some TaskStatus.Assigned
  | "InProgress" => Some TaskStatus.InProgress
  | "Completed" => Some TaskStatus.Completed
  | "Failed" => Some TaskStatus.Failed
  | "Integrated" => Some TaskStatus.Integrated
  | "Cancelled" => Some TaskStatus.Cancelled
  | _ => None
  end%string.

(** [write!(f, "{byte:02x}")] for each byte. *)
Definition chain_hash_display (h : bytes) : string := hex_encode h.

Module RecoveryEngine.
Section engine.
Context `{HashOrder} `{Json} (sha256 : bytes → bytes).

(** [v.get(key).and_then(|v| v.as_str())] *)
Definition get_str (v : Value) (key : string) : option string := get v key ≫= as_str.

(** One object of the snapshot: the ["status"] of each member that parses. *)
Definition extract {A} (parse : string → option A) (root : Value) (field : string) : gmap string A :=
  match get root field ≫= as_object with
  | Some members =>
      fold_left (λ m '(id, node),
                   match get_str node "status" ≫= parse with
                   | Some state => <[id := state]> m
                   | None => m
                   end) members ∅
  | None => ∅
  end.

Definition extract_snapshot_state (snap : SystemSnapshot)
    : gmap string WorkspaceState.t * gmap string TaskStatus.t :=
  (extract parse_workspace_state (ss_tree snap) "nodes",
   extract parse_task_status (ss_task_graph snap) "tasks").

(** The loop over the segments. *)
Fixpoint collect `{TrailStorage St} (trail : St) (segments : list SegmentId) (all : list (bytes * bytes))
    : result (list (bytes * bytes)) RecoveryError :=
  match segments with
  | [] => Ok all
  | seg_id :: segments =>
      let? entries := result_map_err RecoveryStorageError (scan trail seg_id 0) in
      collect trail segments (all ++ ((λ e : ScannedEntry, (e.1.2, e.2)) <$> entries))
  end.

Definition collect_entries `{TrailStorage St} (trail : St) (metadata : StorageMetadata)
    : result (list (bytes * bytes)) RecoveryError :=
  collect trail (seqZ 0 (sm_current_segment metadata + 1)) [].

Definition verify_integrity (entries : list (bytes * bytes)) : result unit RecoveryError :=
  result_map_err (λ e, TrailCorruption (cve_index e)
      ("expected " +:+ chain_hash_display (cve_expected e)
       +:+ ", computed " +:+ chain_hash_display (cve_computed e)))
    (verify_chain sha256 entries).

(** One turn of the replay loop. *)
Definition replay_entry (acc : gmap string WorkspaceState.t * gmap string TaskStatus.t)
    (entry : bytes * bytes) : gmap string WorkspaceState.t * gmap string TaskStatus.t :=
  match from_slice entry.1 with
  | None => acc
  | Some event =>
      match get_str event "event_type" with
      | None => acc
      | Some event_type =>
          if decide (event_type ∈ ["workspace_created"; "workspace_state_changed"]) then
            match get_str event "workspace_id", get_str event "new_state" ≫= parse_workspace_state with
            | Some ws_id, Some state => (<[ws_id := state]> acc.1, acc.2)
            | _, _ => acc
            end
          else if decide (event_type = "task_status_changed") then
            match get_str event "task_id", get_str event "new_status" ≫= parse_task_status with
            | Some task_id, Some status => (acc.1, <[task_id := status]> acc.2)
            | _, _ => acc
            end
          else acc
      end
  end.

Definition reconstruct_state (entries : list (bytes * bytes))
    : gmap string WorkspaceState.t * gmap string TaskStatus.t :=
  fold_left replay_entry entries (∅, ∅).

(** The envelope an entry reports on, with its event type. *)
Definition envelope_event (entry : bytes * bytes) : option (string * string) :=
  event ← from_slice entry.1;
  event_type ← get_str event "event_type";
  env_id ← get_str event "envelope_id";
  Some (event_type, env_id).

Definition flight_step (acc : gset string * gset string) (entry : bytes * bytes) : gset string * gset string :=
  match envelope_event entry with
  | Some (event_type, env_id) =>
      if decide (event_type = "envelope_created") then ({[env_id]} ∪ acc.1, acc.2)
      else if decide (event_type = "envelope_delivered") then (acc.1, {[env_id]} ∪ acc.2)
      else acc
  | None => acc
  end.

(** [created.difference(&delivered)] iterates over [created]. *)
Definition detect_in_flight (entries : list (bytes * bytes)) : list string :=
  let '(created, delivered) := fold_left flight_step entries (∅, ∅) in
  filter (λ id, id ∉ delivered) (set_iter created).

Definition extract_last_timestamp (entries : list (bytes * bytes)) : Timestamp.t :=
  match entry ← last entries; event ← from_slice entry.1; get event "timestamp" ≫= as_u64 with
  | Some ts => Timestamp.new ts 0
  | None => Timestamp.ZERO
  end.

Definition recover_internal `{TrailStorage St} (trail : St) (snapshot : option (Z * SystemSnapshot))
    : option (result RecoveredState RecoveryError) :=
  let meta := metadata trail in
  if decide (sm_total_entries meta = 0) then
    Some (Ok match snapshot with
    | Some (seq, snap) =>
        let '(ws_states, task_statuses) := extract_snapshot_state snap in
        {| rs_workspace_states := ws_states; rs_task_statuses := task_statuses;
           rs_last_sequence := seq; rs_clock_initial := Timestamp.ZERO;
           rs_in_flight_envelopes := []; rs_snapshot_sequence := Some seq |}
    | None =>
        {| rs_workspace_states := ∅; rs_task_statuses := ∅; rs_last_sequence := 0;
           rs_clock_initial := Timestamp.ZERO; rs_in_flight_envelopes := [];
           rs_snapshot_sequence := None |}
    end)
  else
    match collect_entries trail meta with
    | Err e => Some (Err e)
    | Ok all_entries =>
        match verify_integrity all_entries with
        | Err e => Some (Err e)
        | Ok _ =>
            let '(ws_states, task_statuses, snapshot_seq, replay_start) :=
              match snapshot with
              | Some (seq, snap) =>
                  let '(ws, ts) := extract_snapshot_state snap in (ws, ts, Some seq, seq)
              | None => (∅, ∅, None, 0)
              end in
            if decide (Z.of_nat (length all_entries) < replay_start) then None else
            let replay_entries := drop (Z.to_nat replay_start) all_entries in
            let '(replay_ws, replay_tasks) := reconstruct_state replay_entries in
            Some (Ok {| rs_workspace_states := replay_ws ∪ ws_states;
                        rs_task_statuses := replay_tasks ∪ task_statuses;
                        rs_last_sequence := sm_total_entries meta;
                        rs_clock_initial := Timestamp.succ (extract_last_timestamp all_entries);
                        rs_in_flight_envelopes := detect_in_flight all_entries;
                        rs_snapshot_sequence := snapshot_seq |})
        end
    end.

Definition recover `{TrailStorage St} (trail : St) : option (result RecoveredState RecoveryError) :=
  recover_internal trail None.

Definition recover_with_snapshot `{TrailStorage St} {T} `{!SnapshotStorage T} (trail : St) (snapshots : T)
    : option (result RecoveredState RecoveryError) :=
  let snapshot :=
    match read_latest_system snapshots with
    | Ok (Some (seq, data)) => snap ← snapshot_from_slice data; Some (seq, snap)
    | Ok None => None
    | Err _ => None
    end in
  recover_internal trail snapshot.
End engine.
End RecoveryEngine.

(** ** What is recovered *)

Section recovery.
Context `{HashOrder} `{Json} (sha256 : bytes → bytes).
Context {St : Type} `{TrailStorageLaws St}.
Implicit Types es : list (bytes * bytes).

#[local] Abbreviation get_str := RecoveryEngine.get_str.

(** The state an entry gives to a workspace, and the status it gives to a task. *)
Definition entry_state (ws : WorkspaceId) (entry : bytes * bytes) : option WorkspaceState.t :=
  event ← from_slice entry.1;
  event_type ← get_str event "event_type";
  if decide (event_type ∈ ["workspace_created"; "workspace_state_changed"]
             ∧ get_str event "workspace_id" = Some ws)
  then get_str event "new_state" ≫= parse_workspace_state else None.

Definition entry_status (task : TaskId) (entry : bytes * bytes) : option TaskStatus.t :=
  event ← from_slice entry.1;
  event_type ← get_str event "event_type";
  if decide (event_type = "task_status_changed" ∧ get_str event "task_id" = Some task)
  then get_str event "new_status" ≫= parse_task_status else None.

Lemma replay_entry_spec acc entry k :
  (RecoveryEngine.replay_entry acc entry).1 !! k
    = match entry_state k entry with Some s => Some s | None => acc.1 !! k end
  ∧ (RecoveryEngine.replay_entry acc entry).2 !! k
    = match entry_status k entry with Some s => Some s | None => acc.2 !! k end.
Proof.
  unfold RecoveryEngine.replay_entry, entry_state, entry_status.
  destruct (from_slice entry.1) as [ev|]; cbn [mbind option_bind]; [|done].
  destruct (get_str ev "event_type") as [ty|]; cbn [mbind option_bind]; [|done].
  destruct (decide (ty ∈ ["workspace_created"; "workspace_state_changed"])) as [Hty | Hty].
  - assert (ty ≠ "task_status_changed") by (intros ->; set_solver).
    rewrite (decide_False (P := ty = "task_status_changed" ∧ _)) by naive_solver.
    destruct (get_str ev "workspace_id") as [id|];
      [|by rewrite decide_False by naive_solver].
    destruct (_ ≫= parse_workspace_state) as [s|]; [|by case_decide].
    cbn. rewrite lookup_insert. repeat case_decide; naive_solver.
  - rewrite (decide_False (P := _ ∧ get_str ev "workspace_id" = _)) by naive_solver.
    destruct (decide (ty = "task_status_changed")) as [Ht | Ht];
      [|by rewrite decide_False by naive_solver].
    destruct (get_str ev "task_id") as [id|]; [|by rewrite decide_False by naive_solver].
    destruct (_ ≫= parse_task_status) as [s|]; [|by case_decide].
    cbn. rewrite lookup_insert. repeat case_decide; naive_solver.
Qed.
Definition last_value {A} (f : bytes * bytes → option A) es (otherwise : option A) : option A :=
  match last (omap f es) with Some s => Some s | None => otherwise end.

Lemma last_value_cons {A} (f : bytes * bytes → option A) e es o :
  last_value f (e :: es) o = last_value f es (match f e with Some s => Some s | None => o end).
Proof.
  unfold last_value. cbn. destruct (f e) as [s|]; [|done]. rewrite last_cons. by destruct (last _).
Qed.

Lemma last_value_split {A} (f : bytes * bytes → option A) es n :
  last_value f es None = last_value f (drop n es) (last_value f (take n es) None).
Proof.
  rewrite <- (take_drop n es) at 1. unfold last_value. rewrite omap_app, last_app.
  by destruct (last (omap f (drop n es))), (last (omap f (take n es))).
Qed.

Lemma replay_spec es acc k :
  (fold_left RecoveryEngine.replay_entry es acc).1 !! k = last_value (entry_state k) es (acc.1 !! k)
  ∧ (fold_left RecoveryEngine.replay_entry es acc).2 !! k = last_value (entry_status k) es (acc.2 !! k).
Proof.
  revert acc. induction es as [|e es IH]; intros acc; [done|]. cbn [fold_left].
  rewrite !last_value_cons. destruct (replay_entry_spec acc e k) as [<- <-]. apply IH.
Qed.

Lemma reconstruct_spec es k :
  (RecoveryEngine.reconstruct_state es).1 !! k = last_value (entry_state k) es None
  ∧ (RecoveryEngine.reconstruct_state es).2 !! k = last_value (entry_status k) es None.
Proof.
  unfold RecoveryEngine.reconstruct_state. destruct (replay_spec es (∅, ∅) k) as [-> ->].
  cbn [fst snd]. by rewrite !lookup_empty.
Qed.

(** Replaying the tail over the state of a prefix is replaying everything. *)
Lemma reconstruct_split es n :
  (RecoveryEngine.reconstruct_state (drop n es)).1 ∪ (RecoveryEngine.reconstruct_state (take n es)).1
    = (RecoveryEngine.reconstruct_state es).1
  ∧ (RecoveryEngine.reconstruct_state (drop n es)).2 ∪ (RecoveryEngine.reconstruct_state (take n es)).2
    = (RecoveryEngine.reconstruct_state es).2.
Proof.
  split; apply map_eq; intros k; rewrite lookup_union;
    destruct (reconstruct_spec es k) as [E1 E2], (reconstruct_spec (drop n es) k) as [D1 D2],
      (reconstruct_spec (take n es) k) as [T1 T2];
    rewrite ?E1, ?E2, ?D1, ?D2, ?T1, ?T2, (last_value_split _ es n); unfold last_value;
    by destruct (last (omap _ (drop n es))), (last (omap _ (take n es))).
Qed.

Lemma collect_spec (trail : St) (segs : list (list (bytes * bytes))) k all :
  (∀ i seg, segs !! i = Some seg → ∃ entries,
     scan trail (k + Z.of_nat i) 0 = Ok entries ∧ (λ e : ScannedEntry, (e.1.2, e.2)) <$> entries = seg) →
  RecoveryEngine.collect trail (seqZ k (Z.of_nat (length segs))) all = Ok (all ++ concat segs).
Proof.
  revert k all. induction segs as [|seg segs IH]; intros k all Hs; [by rewrite app_nil_r|].
  rewrite seqZ_cons by (cbn; lia). cbn [RecoveryEngine.collect].
  destruct (Hs 0%nat seg eq_refl) as (entries & Hsc & Hm). cbn in Hsc. rewrite Z.add_0_r in Hsc.
  rewrite Hsc. cbn [result_map_err]. rewrite Hm.
  replace (Z.pred (Z.of_nat (length (seg :: segs)))) with (Z.of_nat (length segs)) by (cbn [length]; lia).
  rewrite IH; [by rewrite <- app_assoc|]. intros i seg' Hi.
  specialize (Hs (S i) seg' Hi). by replace (k + Z.of_nat (S i)) with (Z.succ k + Z.of_nat i) in Hs by lia.
Qed.

Lemma collect_entries_log (trail : St) :
  valid trail → RecoveryEngine.collect_entries trail (metadata trail) = Ok (log trail).
Proof.
  intros Hv. destruct (scan_log trail Hv) as (segs & Hn & -> & Hs).
  unfold RecoveryEngine.collect_entries. rewrite <- Hn. by apply (collect_spec trail segs 0 []).
Qed.

Definition reports (ty : string) (id : EnvelopeId) es : Prop :=
  ∃ e, e ∈ es ∧ RecoveryEngine.envelope_event e = Some (ty, id).

Lemma reports_cons ty id e es :
  reports ty id (e :: es) ↔ RecoveryEngine.envelope_event e = Some (ty, id) ∨ reports ty id es.
Proof. unfold reports. set_solver. Qed.

Lemma flight_step_spec acc e id :
  (id ∈ (RecoveryEngine.flight_step acc e).1
     ↔ id ∈ acc.1 ∨ RecoveryEngine.envelope_event e = Some ("envelope_created", id))
  ∧ (id ∈ (RecoveryEngine.flight_step acc e).2
     ↔ id ∈ acc.2 ∨ RecoveryEngine.envelope_event e = Some ("envelope_delivered", id)).
Proof.
  unfold RecoveryEngine.flight_step. destruct (RecoveryEngine.envelope_event e) as [[ty k]|]; [|naive_solver].
  repeat case_decide; subst; cbn; set_solver.
Qed.

Lemma flight_spec es acc id :
  (id ∈ (fold_left RecoveryEngine.flight_step es acc).1 ↔ id ∈ acc.1 ∨ reports "envelope_created" id es)
  ∧ (id ∈ (fold_left RecoveryEngine.flight_step es acc).2 ↔ id ∈ acc.2 ∨ reports "envelope_delivered" id es).
Proof.
  revert acc. induction es as [|e es IH]; intros acc; [unfold reports; set_solver|].
  cbn [fold_left]. destruct (IH (RecoveryEngine.flight_step acc e)) as [-> ->].
  destruct (flight_step_spec acc e id) as [-> ->]. rewrite !reports_cons. tauto.
Qed.

Lemma in_flight_spec es :
  NoDup (RecoveryEngine.detect_in_flight es)
  ∧ ∀ id, id ∈ RecoveryEngine.detect_in_flight es ↔
      reports "envelope_created" id es ∧ ~ reports "envelope_delivered" id es.
Proof.
  unfold RecoveryEngine.detect_in_flight.
  destruct (fold_left RecoveryEngine.flight_step es (∅, ∅)) as [cr del] eqn:E. split.
  - apply NoDup_filter, set_iter_NoDup.
  - intros id. pose proof (flight_spec es (∅, ∅) id) as Hf. rewrite E in Hf.
    cbn [fst snd] in Hf. destruct Hf as [Hc Hd]. rewrite list_elem_of_filter, elem_of_set_iter, Hc, Hd. set_solver.
Qed.

(** The state recovered from a trail. *)
Record recovered es (st : RecoveredState) : Prop := {
  rc_workspaces : ∀ ws, rs_workspace_states st !! ws = last (omap (entry_state ws) es);
  rc_tasks : ∀ task, rs_task_statuses st !! task = last (omap (entry_status task) es);
  rc_sequence : rs_last_sequence st = Z.of_nat (length es);
  rc_in_flight_once : NoDup (rs_in_flight_envelopes st);
  rc_in_flight : ∀ id, id ∈ rs_in_flight_envelopes st ↔
    reports "envelope_created" id es ∧ ~ reports "envelope_delivered" id es;
  rc_clock : ∀ e ev v ts, last es = Some e → from_slice e.1 = Some ev →
    get ev "timestamp" = Some v → as_u64 v = Some ts → rs_clock_initial st = Timestamp.new ts 1;
}.

Lemma last_value_None {A} (f : bytes * bytes → option A) es : last_value f es None = last (omap f es).
Proof. unfold last_value. by destruct (last _). Qed.

(** Recovery of a non-empty store, its stages composed. *)
Lemma recover_internal_spec (trail : St) snapshot :
  valid trail → (0 < length (log trail))%nat → Z.of_nat (length (log trail)) ≤ u64_max →
  RecoveryEngine.recover_internal sha256 trail snapshot
  = match RecoveryEngine.verify_integrity sha256 (log trail) with
    | Err e => Some (Err e)
    | Ok _ =>
        let '(base, start) := match snapshot with
                              | Some (seq, snap) => (RecoveryEngine.extract_snapshot_state snap, seq)
                              | None => ((∅, ∅), 0) end in
        if decide (Z.of_nat (length (log trail)) < start) then None else
        let replayed := RecoveryEngine.reconstruct_state (drop (Z.to_nat start) (log trail)) in
        Some (Ok {| rs_workspace_states := replayed.1 ∪ base.1; rs_task_statuses := replayed.2 ∪ base.2;
                    rs_last_sequence := Z.of_nat (length (log trail));
                    rs_clock_initial := Timestamp.succ (RecoveryEngine.extract_last_timestamp (log trail));
                    rs_in_flight_envelopes := RecoveryEngine.detect_in_flight (log trail);
                    rs_snapshot_sequence := fst <$> snapshot |})
    end.
Proof.
  intros Hv Hne Hmax. unfold RecoveryEngine.recover_internal.
  rewrite total_log, wrap64_small by (done || unfold is_u64; lia).
  rewrite decide_False by lia. rewrite collect_entries_log by done.
  destruct (RecoveryEngine.verify_integrity _ _); [|done].
  destruct snapshot as [[seq snap]|]; cbn [fst snd].
  - destruct (RecoveryEngine.extract_snapshot_state snap) as [ws ts].
    case_decide; [done|]. by destruct (RecoveryEngine.reconstruct_state _).
  - case_decide; [done|]. by destruct (RecoveryEngine.reconstruct_state _).
Qed.
(** C18. Recovery from a non-empty trail: a trail whose chain does not verify is refused
    with the index of its first wrong hash; otherwise every workspace and task gets the
    last state the trail records for it, the in-flight envelopes are exactly those
    reported created and never delivered, each once, the sequence number is the number
    of entries, and the clock restarts one tick after the last entry's timestamp. *)
Theorem recovery_exact (trail : St) :
  valid trail → (0 < length (log trail))%nat → Z.of_nat (length (log trail)) ≤ u64_max →
  (∀ err, verify_chain sha256 (log trail) = Err err → ∃ details,
     RecoveryEngine.recover sha256 trail = Some (Err (TrailCorruption (cve_index err) details)))
  ∧ (verify_chain sha256 (log trail) = Ok tt → ∃ st,
     RecoveryEngine.recover sha256 trail = Some (Ok st) ∧ recovered (log trail) st).
Proof.
  intros Hv Hne Hmax. unfold RecoveryEngine.recover. rewrite recover_internal_spec by done.
  unfold RecoveryEngine.verify_integrity. split; [intros err ->; cbn; by eexists|].
  intros ->. cbn [result_map_err]. rewrite decide_False by lia. eexists. split; [done|].
  rewrite drop_0. destruct (in_flight_spec (log trail)) as [Hnd Hin].
  split; cbn [rs_workspace_states rs_task_statuses rs_last_sequence rs_in_flight_envelopes rs_clock_initial fst snd];
    [| |done|done|done|].
  - intros ws. rewrite map_union_empty. destruct (reconstruct_spec (log trail) ws) as [-> _]. apply last_value_None.
  - intros task. rewrite map_union_empty. destruct (reconstruct_spec (log trail) task) as [_ ->]. apply last_value_None.
  - intros e ev v ts Hl Hev Hg Hts. unfold RecoveryEngine.extract_last_timestamp.
    rewrite Hl. cbn [mbind option_bind]. rewrite Hev. cbn [mbind option_bind]. rewrite Hg. cbn [mbind option_bind].
    by rewrite Hts.
Qed.

Definition with_snapshot_sequence (seq : Z) (st : RecoveredState) : RecoveredState := {|
  rs_workspace_states := rs_workspace_states st; rs_task_statuses := rs_task_statuses st;
  rs_last_sequence := rs_last_sequence st; rs_clock_initial := rs_clock_initial st;
  rs_in_flight_envelopes := rs_in_flight_envelopes st; rs_snapshot_sequence := Some seq |}.

(** Recovery from a snapshot is an optimisation: when the latest snapshot holds the
    state of the first [seq] entries of the trail, recovery from it gives what recovery
    from the whole trail gives, success or corruption, with only the snapshot's sequence
    number added; when there is no usable snapshot it is recovery from the whole trail. *)
Theorem snapshot_recovery_equivalent {T : Type} `{!SnapshotStorage T} (trail : St) (snapshots : T)
    (seq : Z) (data : bytes) :
  valid trail → (0 < length (log trail))%nat → Z.of_nat (length (log trail)) ≤ u64_max →
  (∀ snap, read_latest_system snapshots = Ok (Some (seq, data)) → snapshot_from_slice data = Some snap →
     0 ≤ seq ≤ Z.of_nat (length (log trail)) →
     RecoveryEngine.extract_snapshot_state snap
       = RecoveryEngine.reconstruct_state (take (Z.to_nat seq) (log trail)) →
     RecoveryEngine.recover_with_snapshot sha256 trail snapshots
     = (λ r, match r with
             | Ok st => Ok (with_snapshot_sequence seq st)
             | Err e => Err e
             end) <$> RecoveryEngine.recover sha256 trail)
  ∧ (match read_latest_system snapshots with
     | Ok (Some (_, data)) => snapshot_from_slice data = None
     | _ => True
     end →
     RecoveryEngine.recover_with_snapshot sha256 trail snapshots = RecoveryEngine.recover sha256 trail).
Proof.
  intros Hv Hne Hmax. unfold RecoveryEngine.recover_with_snapshot, RecoveryEngine.recover. split.
  - intros snap -> Hsnap Hseq Hst. rewrite Hsnap. cbn [mbind option_bind].
    rewrite !recover_internal_spec by done.
    destruct (RecoveryEngine.verify_integrity _ _); [|done].
    rewrite decide_False by lia. rewrite decide_False by lia. rewrite Hst, drop_0. cbv zeta.
    destruct (reconstruct_split (log trail) (Z.to_nat seq)) as [-> ->].
    cbn [fst snd fmap option_fmap option_map]. rewrite !map_union_empty. done.
  - destruct (read_latest_system snapshots) as [[[seq' data']|]|]; [|done|done].
    intros ->. done.
Qed.

(** A snapshot ahead of the trail makes recovery panic: when the latest snapshot's
    sequence number exceeds the number of entries of a non-empty trail that verifies,
    the slice of entries to replay is out of range, although recovery without the
    snapshot succeeds. *)
Theorem snapshot_ahead_panics {T : Type} `{!SnapshotStorage T} (trail : St) (snapshots : T)
    (seq : Z) (data : bytes) (snap : SystemSnapshot) :
  valid trail → (0 < length (log trail))%nat → Z.of_nat (length (log trail)) ≤ u64_max →
  verify_chain sha256 (log trail) = Ok tt →
  read_latest_system snapshots = Ok (Some (seq, data)) → snapshot_from_slice data = Some snap →
  Z.of_nat (length (log trail)) < seq →
  RecoveryEngine.recover_with_snapshot sha256 trail snapshots = None
  ∧ ∃ st, RecoveryEngine.recover sha256 trail = Some (Ok st).
Proof.
  intros Hv Hne Hmax Hok Hr Hs Hseq.
  unfold RecoveryEngine.recover_with_snapshot, RecoveryEngine.recover. rewrite Hr, Hs.
  cbn [mbind option_bind]. rewrite !recover_internal_spec by done.
  unfold RecoveryEngine.verify_integrity. rewrite Hok. cbn [result_map_err]. split.
  - by rewrite decide_True.
  - rewrite decide_False by lia. by eexists.
Qed.
End recovery.

(** ** Recovery after a crash *)

(** Recovery depends on a store only through its log. *)
Lemma recover_same_log `{HashOrder} `{Json} (sha256 : bytes → bytes) {S1 S2 : Type}
    `{TrailStorageLaws S1} `{TrailStorageLaws S2} (t1 : S1) (t2 : S2) snapshot :
  valid t1 → valid t2 → log t1 = log t2 →
  RecoveryEngine.recover_internal sha256 t1 snapshot = RecoveryEngine.recover_internal sha256 t2 snapshot.
Proof.
  intros Hv1 Hv2 Hl. unfold RecoveryEngine.recover_internal.
  rewrite (collect_entries_log t1 Hv1), (collect_entries_log t2 Hv2), !total_log, Hl by done. done.
Qed.

Lemma appended_entries es : appended ((λ '(e, h), TAppend e h) <$> es) = es.
Proof. unfold appended. induction es as [|[e h] es IH]; [done|]. cbn in *. by rewrite IH. Qed.

(** C30. The file-backed trail is transparent to recovery: after any history of appends,
    rotations, restarts and crashes in the middle of a write, recovery from it, with or
    without a snapshot, gives what recovery from an in-memory trail gives to which the
    entries written in full were appended. *)
Theorem crash_recovery_equivalent `{HashOrder} `{Json} (sha256 : bytes → bytes) {T} `{!SnapshotStorage T}
    (snapshots : T) (max_segment_size : Z) (ops : list op) :
  Forall op_storable ops → cost ops ≤ u64_max →
  ∃ memory, trail_run InMemoryTrailStorage.new ((λ '(e, h), TAppend e h) <$> durable ops) = Some memory
  ∧ RecoveryEngine.recover sha256 (run max_segment_size ops).1 = RecoveryEngine.recover sha256 memory
  ∧ RecoveryEngine.recover_with_snapshot sha256 (run max_segment_size ops).1 snapshots
    = RecoveryEngine.recover_with_snapshot sha256 memory snapshots.
Proof.
  intros Hs Hb. destruct (run_durable max_segment_size ops Hs Hb) as [(sealed & cur & Hr & Hc & _) _].
  destruct (trail_run_spec _ ((λ '(e, h), TAppend e h) <$> durable ops) mem_valid_new)
    as (memory & E & Hv & _ & Hl).
  exists memory. split; [done|].
  assert (log (run max_segment_size ops).1 = log memory) as Hlog.
  { etrans; [apply (file_log_represents _ _ _ Hr)|]. rewrite Hc, <-(appended_entries (durable ops)).
    symmetry. exact Hl. }
  assert (valid (run max_segment_size ops).1) as Hf by by exists sealed, cur.
  split; exact (recover_same_log sha256 (run max_segment_size ops).1 memory _ Hf Hv Hlog).
Qed.

(** ** A small trail *)

(** A JSON library that knows four documents, by their first byte. *)
Inductive doc := DStr (s : string) | DNum (z : Z) | DObj (members : list (string * doc)).

Definition doc_from_slice (b : bytes) : option doc :=
  match b with
  | [1] => Some (DObj [("event_type", DStr "workspace_created"); ("workspace_id", DStr "ws-1");
                       ("new_state", DStr "Idle")])
  | [2] => Some (DObj [("event_type", DStr "workspace_state_changed"); ("workspace_id", DStr "ws-1");
                       ("new_state", DStr "Active")])
  | [3] => Some (DObj [("event_type", DStr "envelope_created"); ("envelope_id", DStr "e-1");
                       ("timestamp", DNum 17)])
  | [4] => Some (DObj [("nodes", DObj [("ws-1", DObj [("status", DStr "Idle")])])])
  | _ => None
  end.

#[local] Instance doc_json : Json := {|
  Value := doc;
  from_slice := doc_from_slice;
  get := λ v key, match v with
                  | DObj members => snd <$> find (λ m, bool_decide (m.1 = key)) members
                  | _ => None end;
  as_str := λ v, match v with DStr s => Some s | _ => None end;
  as_u64 := λ v, match v with DNum z => Some z | _ => None end;
  as_object := λ v, match v with DObj members => Some members | _ => None end |}.

#[local] Instance memory_snapshots : SnapshotStorage InMemorySnapshotStorage.t := {|
  read_latest_system := λ s, Ok (InMemorySnapshotStorage.read_latest_system s);
  snapshot_from_slice := λ b, v ← doc_from_slice b;
                              Some {| ss_sequence := 0; ss_tree := v; ss_task_graph := v |} |}.

Definition link (entries : list (bytes * bytes)) (e : bytes) : list (bytes * bytes) :=
  entries ++ [(e, compute_chain_hash toy_hash (head_of GENESIS entries) e)].

Definition sample_log : list (bytes * bytes) := link (link (link [] [1]) [2]) [3].

Definition sample_trail : InMemoryTrailStorage.t :=
  default InMemoryTrailStorage.new
    (trail_run InMemoryTrailStorage.new ((λ '(e, h), TAppend e h) <$> sample_log)).

Lemma sample_trail_valid : valid sample_trail.
Proof.
  destruct (trail_run_spec _ ((λ '(e, h), TAppend e h) <$> sample_log) mem_valid_new) as (s & E & Hv & _).
  unfold sample_trail. rewrite E. exact Hv.
Qed.

Definition snapshot_at (seq : Z) : InMemorySnapshotStorage.t :=
  InMemorySnapshotStorage.write_system InMemorySnapshotStorage.new seq [4].

Lemma recovery_exact_witness :
  verify_chain toy_hash (log sample_trail) = Ok tt
  ∧ ∃ st, @RecoveryEngine.recover canonical_order _ toy_hash _ _ sample_trail = Some (Ok st)
          ∧ rs_workspace_states st !! "ws-1" = Some WorkspaceState.Active.
Proof.
  assert (verify_chain toy_hash (log sample_trail) = Ok tt) as Hok by (vm_compute; reflexivity).
  split; [exact Hok|].
  destruct (@recovery_exact canonical_order _ toy_hash _ _ _ sample_trail sample_trail_valid) as [_ Hr].
  - vm_compute. repeat constructor.
  - vm_compute. discriminate.
  - destruct (Hr Hok) as (st & E & Hst). exists st. split; [exact E|].
    rewrite (rc_workspaces _ _ Hst). vm_compute. reflexivity.
Defined.

Lemma snapshot_recovery_equivalent_witness :
  @RecoveryEngine.recover_with_snapshot canonical_order _ toy_hash _ _ _ _ sample_trail (snapshot_at 1)
  = (λ r, match r with
          | Ok st => Ok (with_snapshot_sequence 1 st)
          | Err e => Err e
          end) <$> @RecoveryEngine.recover canonical_order _ toy_hash _ _ sample_trail.
Proof.
  eapply (@snapshot_recovery_equivalent canonical_order _ toy_hash _ _ _ _ _ sample_trail (snapshot_at 1)
            1 [4] sample_trail_valid).
  - vm_compute. repeat constructor.
  - vm_compute. discriminate.
  - reflexivity.
  - reflexivity.
  - vm_compute. split; discriminate.
  - vm_compute. reflexivity.
Defined.

Lemma snapshot_ahead_panics_witness :
  @RecoveryEngine.recover_with_snapshot canonical_order _ toy_hash _ _ _ _ sample_trail (snapshot_at 9) = None.
Proof.
  eapply (@snapshot_ahead_panics canonical_order _ toy_hash _ _ _ _ _ sample_trail (snapshot_at 9) 9 [4] _
            sample_trail_valid).
  - vm_compute. repeat constructor.
  - vm_compute. discriminate.
  - vm_compute. reflexivity.
  - reflexivity.
  - reflexivity.
  - vm_compute. reflexivity.
Defined.

(** The entries of the sample log with a crash in between, in small segments. *)
Definition sample_history : list op :=
  match sample_log with
  | [(e1, h1); (e2, h2); (e3, h3)] =>
      [Append e1 h1; Crash 11 e2 h1; Append e2 h2; Rotate; Crash 100 e3 h3]
  | _ => []
  end.

Lemma crash_recovery_equivalent_witness :
  @RecoveryEngine.recover canonical_order _ toy_hash _ _ (run 70 sample_history).1
  = @RecoveryEngine.recover canonical_order _ toy_hash _ _ sample_trail.
Proof.
  destruct (@crash_recovery_equivalent canonical_order _ toy_hash _ _ (snapshot_at 1) 70 sample_history)
    as (memory & Hm & Hr & _).
  - repeat constructor; vm_compute; discriminate.
  - vm_compute. discriminate.
  - replace sample_trail with memory; [exact Hr|].
    assert (durable sample_history = sample_log) as Hd by (vm_compute; reflexivity).
    unfold sample_trail. rewrite <-Hd, Hm. reflexivity.
Defined.
