(* ===== verification/Compaction.v ===== *)
(** * Tiers and compaction of the trail (crate wacp-trail: tiered.rs, compaction.rs)

    The disk is three directories of segment files, and every operation on it may fail,
    a write after any number of its bytes.  A failed operation ends the cycle, so a crash
    of the process leaves what a failure at the same place leaves, and the theorems cover
    both.  They show that a cycle keeps the data of every segment in some tier unless its
    file is past the retention of the cold tier; which segments a cycle moves; what the
    merge of small segments keeps; and what recovery makes of a trail that a cycle has
    moved segments of. *)

From S2P Require Import Prelude Types Std Fsm Clock Trail FileTrail Recovery.

(** ** The disk *)

Inductive SegmentTier := Hot | Warm | Cold.

#[global] Instance segment_tier_eq_dec : EqDecision SegmentTier.
Proof. solve_decision. Defined.

(** The creation time is missing where the file system does not record it. *)
Record File := { content : bytes; created : option Z }.

(** A failed operation: how many bytes of a write came through, when the file was opened
    at all, and the message of the error. *)
Record fault := { written : option nat; message : string }.

Module Disk.
Record t := Mk {
  hot : gmap Z File;
  warm : gmap Z File;
  cold : gmap Z File;
  records_birth : bool;
  faults : list (option fault);
}.

Definition files (d : t) (tier : SegmentTier) : gmap Z File :=
  match tier with Hot => hot d | Warm => warm d | Cold => cold d end.

Definition with_files (tier : SegmentTier) (m : gmap Z File) (d : t) : t :=
  match tier with
  | Hot => Mk m (warm d) (cold d) (records_birth d) (faults d)
  | Warm => Mk (hot d) m (cold d) (records_birth d) (faults d)
  | Cold => Mk (hot d) (warm d) m (records_birth d) (faults d)
  end.

Definition with_faults (fs : list (option fault)) (d : t) : t :=
  Mk (hot d) (warm d) (cold d) (records_birth d) fs.

Definition birth (d : t) (now : Z) : option Z := if records_birth d then Some now else None.
End Disk.

(** Computations on the disk; an error ends them. *)
Definition io (A : Type) : Type := Disk.t → Disk.t * result A StorageError.

Definition ret {A} (x : A) : io A := λ d, (d, Ok x).

Definition lift {A} (r : result A string) : io A := λ d, (d, result_map_err Io r).

Definition bind {A B} (m : io A) (k : A → io B) : io B := λ d,
  match m d with
  | (d', Ok x) => k x d'
  | (d', Err e) => (d', Err e)
  end.

Notation "'let!' x ':=' m 'in' k" := (bind m (λ x, k))
  (at level 10, x name, m at level 100, k at level 200) : wacp_scope.

(** One operation of the file system. *)
Definition attempt (effect : Disk.t → Disk.t) (partial : nat → Disk.t → Disk.t) : io unit := λ d,
  let d' := Disk.with_faults (tail (Disk.faults d)) d in
  match Disk.faults d with
  | Some f :: _ => (match written f with Some k => partial k d' | None => d' end, Err (Io (message f)))
  | _ => (effect d', Ok tt)
  end.

Definition unchanged (d : Disk.t) : Disk.t := d.

(** [fs::read] *)
Definition read_file (tier : SegmentTier) (id : Z) : io bytes :=
  let! _ := attempt unchanged (λ _, unchanged) in
  λ d, (d, match Disk.files d tier !! id with
           | Some f => Ok (content f)
           | None => Err (Io "No such file or directory")
           end).

(** [fs::write]: a file that exists is truncated and keeps its creation time. *)
Definition put (tier : SegmentTier) (id : Z) (now : Z) (data : bytes) (d : Disk.t) : Disk.t :=
  let files := Disk.files d tier in
  let created := match files !! id with Some f => created f | None => Disk.birth d now end in
  Disk.with_files tier (<[id := {| content := data; created := created |}]> files) d.

Definition write_file (tier : SegmentTier) (id : Z) (now : Z) (data : bytes) : io unit :=
  attempt (put tier id now data) (λ k, put tier id now (take k data)).

(** [fs::remove_file] *)
Definition remove_file (tier : SegmentTier) (id : Z) : io unit :=
  let! _ := attempt unchanged (λ _, unchanged) in
  λ d, match Disk.files d tier !! id with
       | Some _ => (Disk.with_files tier (delete id (Disk.files d tier)) d, Ok tt)
       | None => (d, Err (Io "No such file or directory"))
       end.

(** [fs::rename]: what the destination held is replaced. *)
Definition rename_file (from to : SegmentTier) (id : Z) : io unit :=
  let! _ := attempt unchanged (λ _, unchanged) in
  λ d, match Disk.files d from !! id with
       | Some f =>
           let d := Disk.with_files from (delete id (Disk.files d from)) d in
           (Disk.with_files to (<[id := f]> (Disk.files d to)) d, Ok tt)
       | None => (d, Err (Io "No such file or directory"))
       end.

(** [fs::read_dir] lists a directory in an order the file system chooses. *)
Class ReadDir := {
  read_dir : gmap Z File → list (Z * File);
  read_dir_permutation : ∀ m, read_dir m ≡ₚ map_to_list m;
}.

(** The compression of zstd; what it compresses it gives back. *)
Class Zstd := { encode_all : bytes → result bytes string; decode_all : bytes → result bytes string }.

Class ZstdLaws `{Zstd} : Prop := decode_encode : ∀ x z, encode_all x = Ok z → decode_all z = Ok x.

(** ** Tiers *)

(** The path of a segment is its tier and id. *)
Record SegmentInfo := {
  si_id : Z;
  si_tier : SegmentTier;
  si_created : Z;
  si_size_bytes : Z;
}.

(** [meta.created().unwrap_or(SystemTime::UNIX_EPOCH)] *)
Definition created_or_epoch (f : File) : Z := default 0 (created f).

Definition segment_info (tier : SegmentTier) (e : Z * File) : SegmentInfo := {|
  si_id := e.1; si_tier := tier; si_created := created_or_epoch e.2;
  si_size_bytes := Z.of_nat (length (content e.2)) |}.

Definition by_id (a b : SegmentInfo) : Prop := si_id a ≤ si_id b.

#[global] Instance by_id_dec : RelDecision by_id.
Proof. intros a b. apply Z.le_dec. Defined.

(** [for seg in segs { ... }] with a counter that the body may increment. *)
Fixpoint count_each {A} (body : A → io bool) (l : list A) (n : Z) : io Z :=
  match l with
  | [] => ret n
  | x :: l => let! counted := body x in count_each body l (if counted : bool then n + 1 else n)
  end.

Section tiers.
Context `{ReadDir} `{Zstd}.

Definition list_segments_in (tier : SegmentTier) : io (list SegmentInfo) :=
  let! _ := attempt unchanged (λ _, unchanged) in
  λ d, (d, Ok (merge_sort by_id (segment_info tier <$> read_dir (Disk.files d tier)))).

Definition compress_file (from to : SegmentTier) (id now : Z) : io unit :=
  let! input := read_file from id in
  let! compressed := lift (encode_all input) in
  write_file to id now compressed.

Definition decompress_file (from to : SegmentTier) (id now : Z) : io unit :=
  let! compressed := read_file from id in
  let! output := lift (decode_all compressed) in
  write_file to id now output.
End tiers.

Module TierManager.
Record t := Mk {
  cold_destination : option string;
  hot_limit : Z;
  warm_retention_days : Z;
  snapshot_anchor : option Z;
}.

Definition new (hot_limit warm_retention_days : Z) (cold_destination : option string) : t :=
  Mk cold_destination hot_limit warm_retention_days None.

Definition set_snapshot_anchor (self : t) (sequence : Z) : t :=
  Mk (cold_destination self) (hot_limit self) (warm_retention_days self) (Some sequence).

Section manager.
Context `{ReadDir} `{Zstd}.

Definition list_hot_segments : io (list SegmentInfo) := list_segments_in Hot.

Definition list_warm_segments : io (list SegmentInfo) := list_segments_in Warm.

(** The body of the loop of [transition_hot_to_warm]. *)
Definition move_to_warm (self : t) (now : Z) (seg : SegmentInfo) : io bool :=
  if match snapshot_anchor self with Some anchor => anchor <=? si_id seg | None => false end then ret false
  else
    let! _ := compress_file Hot Warm (si_id seg) now in
    let! _ := remove_file Hot (si_id seg) in
    ret true.

Definition transition_hot_to_warm (self : t) (now : Z) : io Z :=
  let! hot := list_hot_segments in
  if Z.of_nat (length hot) <=? hot_limit self then ret 0
  else
    let hot := merge_sort by_id hot in
    let excess := (length hot - Z.to_nat (hot_limit self))%nat in
    count_each (move_to_warm self now) (take excess hot) 0.

Definition move_to_cold (retention now : Z) (seg : SegmentInfo) : io bool :=
  if retention <? duration_since now (si_created seg) then
    let! _ := rename_file Warm Cold (si_id seg) in
    ret true
  else ret false.

Definition transition_warm_to_cold (self : t) (now : Z) : io Z :=
  match cold_destination self with
  | None => ret 0
  | Some _ =>
      let! warm := list_warm_segments in
      count_each (move_to_cold (from_secs (warm_retention_days self * 86400)) now) warm 0
  end.
End manager.
End TierManager.

(** ** Compaction *)

Record CompactionConfig := {
  cc_hot_limit : Z;
  cc_warm_retention_days : Z;
  cc_cold_retention_days : option Z;
  cc_compaction_interval_minutes : Z;
}.

Record CompactionSummary := { hot_to_warm : Z; warm_to_cold : Z; cold_deleted : Z }.

Module CompactionTask.
Record t := Mk {
  tier_manager : TierManager.t;
  config : CompactionConfig;
  cold_dir : option string;
}.

Definition new (cold_destination : option string) (config : CompactionConfig) : t :=
  Mk (TierManager.new (cc_hot_limit config) (cc_warm_retention_days config) cold_destination)
    config cold_destination.

Definition set_snapshot_anchor (self : t) (sequence : Z) : t :=
  Mk (TierManager.set_snapshot_anchor (tier_manager self) sequence) (config self) (cold_dir self).

Section task.
Context `{ReadDir} `{Zstd}.

Definition delete_expired (retention now : Z) (entry : Z * File) : io bool :=
  if retention <? duration_since now (created_or_epoch entry.2) then
    let! _ := remove_file Cold entry.1 in
    ret true
  else ret false.

Definition cleanup_cold_segments (self : t) (now : Z) : io Z :=
  match cc_cold_retention_days (config self), cold_dir self with
  | Some retention_days, Some _ =>
      let! _ := attempt unchanged (λ _, unchanged) in
      λ d, count_each (delete_expired (from_secs (wrap64 (retention_days * 86400))) now)
             (read_dir (Disk.cold d)) 0 d
  | _, _ => ret 0
  end.

(** The clock is read at the start of each step; [t0] is the time of the compressions. *)
Definition run_once (self : t) (t0 t1 t2 : Z) : io CompactionSummary :=
  let! hot_to_warm := TierManager.transition_hot_to_warm (tier_manager self) t0 in
  let! warm_to_cold := TierManager.transition_warm_to_cold (tier_manager self) t1 in
  let! cold_deleted := cleanup_cold_segments self t2 in
  ret {| hot_to_warm := hot_to_warm; warm_to_cold := warm_to_cold; cold_deleted := cold_deleted |}.

Definition merge_pair (now : Z) (a b : Z) : io unit :=
  let! data_a := read_file Warm a in
  let! data_b := read_file Warm b in
  let! dec_a := lift (decode_all data_a) in
  let! dec_b := lift (decode_all data_b) in
  let! compressed := lift (encode_all (dec_a ++ dec_b)) in
  let! _ := write_file Warm a now compressed in
  remove_file Warm b.

(** The loop over the pairs [small[i]], [small[i + 1]]. *)
Fixpoint merge_pairs (now : Z) (small : list SegmentInfo) (merged : Z) : io Z :=
  match small with
  | a :: b :: small =>
      let! _ := merge_pair now (si_id a) (si_id b) in
      merge_pairs now small (merged + 1)
  | _ => ret merged
  end.

Definition merge_warm_segments (now threshold_bytes : Z) : io Z :=
  let! warm := TierManager.list_warm_segments in
  let small := filter (λ s, si_size_bytes s < threshold_bytes) warm in
  if (length small <? 2)%nat then ret 0 else merge_pairs now small 0.
End task.
End CompactionTask.

(** ** Reasoning about computations on the disk *)

(** [m], run where [P] holds, ends in [Q] with its result, or in [R] with an error. *)
Definition triple {A} (P : Disk.t → Prop) (m : io A) (Q : A → Disk.t → Prop) (R : Disk.t → Prop) : Prop :=
  ∀ d, P d → match m d with (d', Ok x) => Q x d' | (d', Err _) => R d' end.

Lemma triple_bind {A B} P Q Q' R (m : io A) (k : A → io B) :
  triple P m Q R → (∀ x, triple (Q x) (k x) Q' R) → triple P (bind m k) Q' R.
Proof.
  intros Hm Hk d Hd. specialize (Hm d Hd). unfold bind.
  destruct (m d) as [d' [x|e]]; [by apply Hk|done].
Qed.

Lemma triple_ret {A} (P : Disk.t → Prop) (x : A) R : triple P (ret x) (λ y d, y = x ∧ P d) R.
Proof. by intros d Hd. Qed.

Lemma triple_lift {A} (P : Disk.t → Prop) (r : result A string) :
  triple P (lift r) (λ x d, r = Ok x ∧ P d) P.
Proof. intros d Hd. unfold lift. by destruct r. Qed.

Lemma triple_impl {A} P P' (Q Q' : A → Disk.t → Prop) R R' m :
  triple P m Q R → (∀ d, P' d → P d) → (∀ x d, Q x d → Q' x d) → (∀ d, R d → R' d) → triple P' m Q' R'.
Proof. intros Hm HP HQ HR d Hd. specialize (Hm d (HP d Hd)). destruct (m d) as [d' [x|e]]; auto. Qed.

(** An invariant that the faults to come do not matter to. *)
Definition fault_free (I : Disk.t → Prop) : Prop := ∀ fs d, I d → I (Disk.with_faults fs d).

Lemma triple_attempt P (Q : Disk.t → Prop) R effect partial :
  fault_free P → (∀ d, P d → R d) → (∀ d, P d → Q (effect d)) → (∀ k d, P d → R (partial k d)) →
  triple P (attempt effect partial) (λ _, Q) R.
Proof.
  intros Hf HR HQ Hp d Hd. unfold attempt. pose proof (Hf (tail (Disk.faults d)) d Hd) as Hd'.
  destruct (Disk.faults d) as [|[f|] fs]; cbn in *; auto. destruct (written f); auto.
Qed.

Lemma triple_count_each {A} (I : Disk.t → Prop) (body : A → io bool) l n :
  (∀ x, x ∈ l → triple I (body x) (λ _, I) I) → triple I (count_each body l n) (λ _, I) I.
Proof.
  revert n. induction l as [|x l IH]; intros n Hb; [by intros d Hd|].
  eapply triple_bind; [apply Hb; left|]. intros c. apply IH. intros y Hy. apply Hb. by right.
Qed.

Lemma triple_listing {A} (P Q : Disk.t → Prop) R (k : io A) Q' :
  fault_free P → (∀ d, P d → R d) → (∀ d, P d → Q d) → triple Q k Q' R →
  triple P (bind (attempt unchanged (λ _, unchanged)) (λ _, k)) Q' R.
Proof.
  intros Hf HR HQ Hk. apply (triple_bind _ (λ _, Q)); [by apply triple_attempt|by intros []].
Qed.

(** ** A cycle conserves the data *)

Section conservation.
Context `{ReadDir} `{Zstd}.

(** The data of a segment: the hot file, or what the warm one, or else the cold one, decompresses to. *)
Definition decoded (f : File) : option bytes :=
  match decode_all (content f) with Ok x => Some x | Err _ => None end.

Definition segment_data (d : Disk.t) (id : Z) : option bytes :=
  match Disk.hot d !! id, Disk.warm d !! id, Disk.cold d !! id with
  | Some f, _, _ => Some (content f)
  | None, Some f, _ => decoded f
  | None, None, Some f => decoded f
  | None, None, None => None
  end.

(** The creation time of a compressed file of the segment, of one there was or a new one. *)
Definition known_birth (d0 : Disk.t) (t0 id : Z) (b : option Z) : Prop :=
  b = Disk.birth d0 t0 ∨ ∃ f, (Disk.warm d0 !! id = Some f ∨ Disk.cold d0 !! id = Some f) ∧ created f = b.

Definition conserved (d0 : Disk.t) (t0 id : Z) (c : bytes) (d : Disk.t) : Prop :=
  segment_data d id = Some c ∧ Disk.records_birth d = Disk.records_birth d0
  ∧ ∀ f, Disk.warm d !! id = Some f ∨ Disk.cold d !! id = Some f → known_birth d0 t0 id (created f).

Context `{!ZstdLaws} (d0 : Disk.t) (t0 id : Z) (c : bytes).
#[local] Abbreviation I := (conserved d0 t0 id c).

Lemma conserved_fault_free : fault_free I.
Proof. by intros fs d. Qed.

Lemma put_warm_conserved j f z d :
  Disk.hot d !! j = Some f → I d → I (put Warm j t0 z d).
Proof.
  intros Hj (Hc & Hb & Hk). unfold conserved, segment_data, put in *. cbn.
  destruct (decide (j = id)) as [->|Hne]; [|rewrite lookup_insert_ne by done; done].
  rewrite Hj in *. split_and!; [done|done|]. intros f' [Hf'|Hf']; [|auto].
  rewrite lookup_insert_eq in Hf'. injection Hf' as <-. cbn.
  destruct (Disk.warm d !! id) eqn:E; [auto|]. left. unfold Disk.birth. by rewrite Hb.
Qed.

Lemma remove_hot_conserved j x f f' d :
  Disk.hot d !! j = Some f → content f = x → Disk.warm d !! j = Some f' → decode_all (content f') = Ok x →
  I d → I (Disk.with_files Hot (delete j (Disk.hot d)) d).
Proof.
  intros Hj Hx Hw Hdec (Hc & Hb & Hk). unfold conserved, segment_data in *. cbn.
  destruct (decide (j = id)) as [->|Hne]; [|rewrite lookup_delete_ne by done; done].
  rewrite lookup_delete_eq, Hw. rewrite Hj in Hc. injection Hc as <-. split_and!; [|done|by rewrite <-Hw].
  unfold decoded. by rewrite Hdec, Hx.
Qed.

Lemma compress_conserves j :
  triple I (compress_file Hot Warm j t0)
    (λ _ d, I d ∧ ∃ f f', Disk.hot d !! j = Some f ∧ Disk.warm d !! j = Some f'
                         ∧ decode_all (content f') = Ok (content f)) I.
Proof.
  unfold compress_file. set (pre x d := I d ∧ ∃ f, Disk.hot d !! j = Some f ∧ content f = x).
  apply (triple_bind _ pre).
  { apply (triple_listing I I I); [apply conserved_fault_free|done|done|].
    intros d Hd. cbn. destruct (Disk.hot d !! j) as [f|] eqn:E; [|done]. split; [done|by exists f]. }
  intros x. apply (triple_bind _ (λ z d, encode_all x = Ok z ∧ pre x d)).
  { eapply triple_impl; [apply (triple_lift (pre x))|done|done|]. by intros d [? _]. }
  intros z. apply triple_attempt; [by intros fs d|by intros d (_ & ? & _)| |].
  - intros d (Hz & Hd & f & Hj & Hx). split; [by apply (put_warm_conserved j f)|].
    exists f. unfold put. cbn. rewrite lookup_insert_eq. eexists. split_and!; [done|done|].
    cbn. rewrite Hx. by apply decode_encode.
  - intros k d (Hz & Hd & f & Hj & Hx). by apply (put_warm_conserved j f).
Qed.

Lemma move_to_warm_conserves self seg :
  triple I (TierManager.move_to_warm self t0 seg) (λ _, I) I.
Proof.
  unfold TierManager.move_to_warm. destruct (match _ with Some _ => _ | None => _ end); [by intros d|].
  eapply triple_bind; [apply compress_conserves|]. intros []. cbn.
  eapply (triple_bind _ (λ _, I)); [|intros []; by intros d].
  apply triple_listing with (λ d, I d ∧ ∃ f f', Disk.hot d !! si_id seg = Some f ∧ Disk.warm d !! si_id seg = Some f'
                         ∧ decode_all (content f') = Ok (content f)); [by intros fs d|by intros d [? _]|done|].
  intros d (Hd & f & f' & Hj & Hw & Hdec). cbn. rewrite Hj. by eapply remove_hot_conserved.
Qed.

Lemma hot_to_warm_conserves self :
  triple I (TierManager.transition_hot_to_warm self t0) (λ _, I) I.
Proof.
  unfold TierManager.transition_hot_to_warm. eapply (triple_bind _ (λ _, I)).
  { apply triple_listing with I; [apply conserved_fault_free|done|done|by intros d]. }
  intros hot. cbn. destruct (_ <=? _); [by intros d|].
  apply triple_count_each. intros seg _. apply move_to_warm_conserves.
Qed.

Lemma move_to_cold_conserves retention now seg :
  triple I (TierManager.move_to_cold retention now seg) (λ _, I) I.
Proof.
  unfold TierManager.move_to_cold. destruct (_ <? _); [|by intros d].
  eapply (triple_bind _ (λ _, I)); [|intros []; by intros d].
  apply triple_listing with I; [apply conserved_fault_free|done|done|].
  intros d (Hc & Hb & Hk). cbn. destruct (Disk.warm d !! si_id seg) as [f|] eqn:E; [|done].
  unfold conserved, segment_data in *. cbn.
  destruct (decide (si_id seg = id)) as [Heq|Hne].
  - rewrite Heq in *. rewrite lookup_delete_eq, lookup_insert_eq. rewrite E in Hc. split_and!; [|done|].
    + by destruct (Disk.hot d !! id).
    + intros f' [?|[= <-]]; [done|]. auto.
  - rewrite lookup_delete_ne, lookup_insert_ne by done. done.
Qed.

Lemma warm_to_cold_conserves self now :
  triple I (TierManager.transition_warm_to_cold self now) (λ _, I) I.
Proof.
  unfold TierManager.transition_warm_to_cold. destruct (TierManager.cold_destination self); [|by intros d].
  eapply (triple_bind _ (λ _, I)).
  { apply triple_listing with I; [apply conserved_fault_free|done|done|by intros d]. }
  intros warm. apply triple_count_each. intros seg _. apply move_to_cold_conserves.
Qed.

(** The segment is gone, and the retention of the cold tier was over for it. *)
Definition expired (cfg : CompactionConfig) (t2 : Z) (d : Disk.t) : Prop :=
  (∀ tier, Disk.files d tier !! id = None)
  ∧ ∃ days b, cc_cold_retention_days cfg = Some days ∧ known_birth d0 t0 id b
    ∧ from_secs (wrap64 (days * 86400)) < duration_since t2 (default 0 b).

Lemma delete_expired_conserves cfg days now entry :
  cc_cold_retention_days cfg = Some days →
  (entry.1 = id → known_birth d0 t0 id (created entry.2)) →
  triple (λ d, I d ∨ expired cfg now d)
    (CompactionTask.delete_expired (from_secs (wrap64 (days * 86400))) now entry)
    (λ _ d, I d ∨ expired cfg now d) (λ d, I d ∨ expired cfg now d).
Proof.
  intros Hcfg Hkn. unfold CompactionTask.delete_expired.
  destruct (Z.ltb_spec (from_secs (wrap64 (days * 86400))) (duration_since now (created_or_epoch entry.2)))
    as [Hlt|]; [|by intros d].
  eapply (triple_bind _ (λ _ d, I d ∨ expired cfg now d)); [|intros []; by intros d].
  apply triple_listing with (λ d, I d ∨ expired cfg now d); [by intros fs d|done|done|].
  intros d Hd. cbn. destruct (Disk.cold d !! entry.1) as [f|] eqn:E; [|done].
  destruct (decide (entry.1 = id)) as [Heq|Hne].
  - rewrite Heq in *. destruct Hd as [(Hc & Hb & Hk)|[Hn _]]; [|by specialize (Hn Cold); cbn in Hn; rewrite Hn in E].
    unfold conserved, segment_data in *. cbn.
    destruct (Disk.hot d !! id) eqn:Eh; [left|destruct (Disk.warm d !! id) eqn:Ew; [left|right]].
    + split_and!; [done|done|]. intros f' [?|Hf']; [auto|]. by rewrite lookup_delete_eq in Hf'.
    + split_and!; [done|done|]. intros f' [?|Hf']; [auto|]. by rewrite lookup_delete_eq in Hf'.
    + split; [intros []; cbn; by rewrite ?lookup_delete_eq|]. exists days, (created entry.2). auto.
  - destruct Hd as [Hd|[Hn Hx]]; [left|right; split; [|done]].
    + unfold conserved, segment_data in *. cbn. by rewrite lookup_delete_ne by done.
    + intros []; [apply (Hn Hot)|apply (Hn Warm)|]. cbn. rewrite lookup_delete_ne by done. apply (Hn Cold).
Qed.

Lemma cleanup_conserves self now :
  triple I (CompactionTask.cleanup_cold_segments self now)
    (λ _ d, I d ∨ expired (CompactionTask.config self) now d)
    (λ d, I d ∨ expired (CompactionTask.config self) now d).
Proof.
  unfold CompactionTask.cleanup_cold_segments.
  destruct (cc_cold_retention_days _) as [days|] eqn:Ed; [|by intros d; left].
  destruct (CompactionTask.cold_dir self); [|by intros d; left].
  apply triple_listing with I; [apply conserved_fault_free|by left|done|].
  intros d Hd. refine (triple_count_each (λ d, I d ∨ expired _ now d) _ _ _ _ d (or_introl Hd)).
  intros [j f] Hin. apply delete_expired_conserves; [done|]. cbn. intros ->.
  destruct Hd as (_ & _ & Hk). apply Hk. right. rewrite read_dir_permutation in Hin.
  by apply elem_of_map_to_list in Hin.
Qed.

Lemma run_once_conserves self t1 t2 :
  triple I (CompactionTask.run_once self t0 t1 t2)
    (λ _ d, I d ∨ expired (CompactionTask.config self) t2 d)
    (λ d, I d ∨ expired (CompactionTask.config self) t2 d).
Proof.
  unfold CompactionTask.run_once.
  eapply triple_bind; [eapply triple_impl; [apply hot_to_warm_conserves|done|intros ? ? Hd; exact Hd|by left]|].
  intros x. eapply triple_bind;
    [eapply triple_impl; [apply warm_to_cold_conserves|done|intros ? ? Hd; exact Hd|by left]|].
  intros y. eapply triple_bind; [apply cleanup_conserves|]. intros z. by intros d.
Qed.
End conservation.

(** ** Which segments a cycle moves *)

Section moves.
Context `{ReadDir} `{Zstd} (self : TierManager.t) (t0 : Z).
Hypothesis encode_total : ∀ x, ∃ z, encode_all x = Ok z.

(** The recovery window check of the loop. *)
Definition before_anchor (id : Z) : Prop :=
  match TierManager.snapshot_anchor self with Some anchor => id < anchor | None => True end.

#[global] Instance before_anchor_dec id : Decision (before_anchor id).
Proof. unfold before_anchor. destruct (TierManager.snapshot_anchor self); apply _. Defined.

(** What moving the segments [moved] makes of [d]. *)
Record moved_to_warm (moved : list Z) (d d' : Disk.t) : Prop := {
  mw_hot : ∀ id, Disk.hot d' !! id = if decide (id ∈ moved) then None else Disk.hot d !! id;
  mw_kept : ∀ id, id ∉ moved → Disk.warm d' !! id = Disk.warm d !! id;
  mw_warm : ∀ id f, id ∈ moved → Disk.hot d !! id = Some f → ∃ z, encode_all (content f) = Ok z ∧
    Disk.warm d' !! id = Some {| content := z;
      created := match Disk.warm d !! id with Some g => created g | None => Disk.birth d t0 end |};
  mw_cold : Disk.cold d' = Disk.cold d;
  mw_faults : Disk.faults d' = [];
  mw_birth : Disk.records_birth d' = Disk.records_birth d;
}.

Lemma moved_nil d : Disk.faults d = [] → moved_to_warm [] d d.
Proof. intros Hf. split; try done. intros id f Hid. by apply elem_of_nil in Hid. Qed.

Lemma move_one d seg f :
  Disk.faults d = [] → Disk.hot d !! si_id seg = Some f → before_anchor (si_id seg) →
  ∃ d', TierManager.move_to_warm self t0 seg d = (d', Ok true) ∧ moved_to_warm [si_id seg] d d'.
Proof using encode_total.
  intros Hf Hj Ha. destruct (encode_total (content f)) as [z Hz].
  unfold TierManager.move_to_warm. replace (match TierManager.snapshot_anchor self with
    Some anchor => anchor <=? si_id seg | None => false end) with false
    by (unfold before_anchor in Ha; destruct (TierManager.snapshot_anchor self); [symmetry; apply Z.leb_gt|]; done).
  unfold compress_file, read_file, remove_file, write_file, bind, attempt, lift, ret, unchanged.
  rewrite Hf. cbn. rewrite Hj, Hz. cbn. rewrite Hj. eexists. split; [done|].
  split; cbn; try done.
  - intros id. case_decide as Hid; rewrite list_elem_of_singleton in Hid.
    + subst. by rewrite lookup_delete_eq.
    + by rewrite lookup_delete_ne.
  - intros id Hid. rewrite list_elem_of_singleton in Hid. by rewrite lookup_insert_ne.
  - intros id f' ->%list_elem_of_singleton. rewrite Hj. intros [= <-]. exists z. split; [done|].
    by rewrite lookup_insert_eq.
Qed.

Lemma moved_trans id moved d d1 d' :
  id ∉ moved → moved_to_warm [id] d d1 → moved_to_warm moved d1 d' → moved_to_warm (id :: moved) d d'.
Proof.
  intros Hni H1 H2. split.
  - intros j. rewrite (mw_hot _ _ _ H2), (mw_hot _ _ _ H1). repeat case_decide; set_solver.
  - intros j Hj. rewrite (mw_kept _ _ _ H2), (mw_kept _ _ _ H1) by set_solver. done.
  - intros j f [->|Hj]%elem_of_cons Hf.
    + destruct (mw_warm _ _ _ H1 id f) as (z & Hz & Hw); [set_solver|done|]. exists z. split; [done|].
      by rewrite (mw_kept _ _ _ H2).
    + assert (j ≠ id) as Hne by set_solver.
      destruct (mw_warm _ _ _ H2 j f Hj) as (z & Hz & Hw).
      { rewrite (mw_hot _ _ _ H1), decide_False by set_solver. done. }
      exists z. split; [done|]. rewrite Hw, (mw_kept _ _ _ H1) by set_solver.
      unfold Disk.birth. by rewrite (mw_birth _ _ _ H1).
  - by rewrite (mw_cold _ _ _ H2), (mw_cold _ _ _ H1).
  - apply H2.
  - by rewrite (mw_birth _ _ _ H2), (mw_birth _ _ _ H1).
Qed.

Lemma move_each l : ∀ d n,
  Disk.faults d = [] → NoDup (si_id <$> l) → (∀ seg, seg ∈ l → is_Some (Disk.hot d !! si_id seg)) →
  let moved := filter before_anchor (si_id <$> l) in
  ∃ d', count_each (TierManager.move_to_warm self t0) l n d = (d', Ok (n + Z.of_nat (length moved)))
        ∧ moved_to_warm moved d d'.
Proof using encode_total.
  induction l as [|seg l IH]; intros d n Hf Hnd Hin; cbv zeta.
  { exists d. split; [cbn; unfold ret; by rewrite Z.add_0_r|by apply moved_nil]. }
  cbn [fmap list_fmap] in *. apply NoDup_cons in Hnd as [Hni Hnd].
  destruct (Hin seg (list_elem_of_here _ _)) as [f Hj]. cbn [count_each]. unfold bind.
  rewrite filter_cons. destruct (decide (before_anchor (si_id seg))) as [Ha|Ha].
  - destruct (move_one d seg f Hf Hj Ha) as (d1 & -> & H1).
    destruct (IH d1 (n + 1)) as (d' & Hrun & H2); [apply H1|done| |].
    { intros seg' Hs. rewrite (mw_hot _ _ _ H1), decide_False; [apply Hin; by right|].
      intros Heq%list_elem_of_singleton. apply Hni. rewrite <-Heq. by apply list_elem_of_fmap_2. }
    exists d'. rewrite Hrun. split; [f_equal; f_equal; cbn; lia|].
    apply (moved_trans _ _ _ d1); [|done|done]. intros Hm%list_elem_of_filter. by destruct Hm.
  - unfold TierManager.move_to_warm at 1. replace (match TierManager.snapshot_anchor self with
      Some anchor => anchor <=? si_id seg | None => false end) with true.
    + unfold ret at 1. apply IH; [done|done|]. intros seg' Hs. apply Hin. by right.
    + unfold before_anchor in Ha. destruct (TierManager.snapshot_anchor self); [|done].
      symmetry. apply Z.leb_le. lia.
Qed.

(** The ids of a tier, ascending. *)
Definition tier_ids (m : gmap Z File) : list Z := list_segments (content <$> m).

#[local] Instance by_id_total : Total by_id.
Proof. intros a b. unfold by_id. lia. Qed.

#[local] Instance by_id_trans : Transitive by_id.
Proof. intros a b c. unfold by_id. lia. Qed.

Lemma tier_ids_permutation m : tier_ids m ≡ₚ (map_to_list m).*1.
Proof.
  unfold tier_ids, list_segments. rewrite merge_sort_Permutation, map_to_list_fmap.
  rewrite <-list_fmap_compose. by apply Permutation_refl', list_fmap_ext; intros ? [].
Qed.

Lemma NoDup_tier_ids m : NoDup (tier_ids m).
Proof. rewrite tier_ids_permutation. apply NoDup_fst_map_to_list. Qed.

Lemma elem_of_tier_ids m id : id ∈ tier_ids m ↔ is_Some (m !! id).
Proof.
  rewrite tier_ids_permutation, list_elem_of_fmap. split.
  - intros ([? f] & -> & Hf%elem_of_map_to_list). by exists f.
  - intros [f Hf]. exists (id, f). split; [done|]. by apply elem_of_map_to_list.
Qed.

(** However a listing of the tier is ordered, sorting it gives the ids ascending. *)
Lemma sorted_listing tier m l :
  l ≡ₚ segment_info tier <$> read_dir m → si_id <$> merge_sort by_id l = tier_ids m.
Proof.
  intros Hl. apply (StronglySorted_unique Z.le).
  - apply (StronglySorted_fmap si_id by_id); [done|]. apply StronglySorted_merge_sort; apply _.
  - apply StronglySorted_merge_sort; apply _.
  - rewrite merge_sort_Permutation, Hl, read_dir_permutation, tier_ids_permutation.
    by rewrite <-list_fmap_compose.
Qed.

(** The segments that a transition to the warm tier moves. *)
Definition excess_ids (d : Disk.t) : list Z :=
  filter before_anchor
    (take (length (tier_ids (Disk.hot d)) - Z.to_nat (TierManager.hot_limit self)) (tier_ids (Disk.hot d))).

Lemma transition_moves d :
  Disk.faults d = [] → 0 ≤ TierManager.hot_limit self →
  ∃ d', TierManager.transition_hot_to_warm self t0 d = (d', Ok (Z.of_nat (length (excess_ids d))))
        ∧ moved_to_warm (excess_ids d) d d'.
Proof using encode_total.
  intros Hf Hlim. unfold TierManager.transition_hot_to_warm, TierManager.list_hot_segments, list_segments_in.
  unfold bind at 1 2, attempt, unchanged. rewrite Hf. cbn [tail].
  set (d1 := Disk.with_faults [] d). assert (d1 = d) as ->
    by (unfold d1, Disk.with_faults; rewrite <-Hf; by destruct d).
  cbn [Disk.files]. set (hot := merge_sort by_id _).
  assert (hot ≡ₚ segment_info Hot <$> read_dir (Disk.hot d)) as Hp by apply merge_sort_Permutation.
  pose proof (sorted_listing Hot (Disk.hot d) hot Hp) as Hids.
  assert (length hot = length (tier_ids (Disk.hot d))) as Hlen
    by (rewrite <-Hids, length_fmap; by rewrite merge_sort_Permutation).
  unfold excess_ids. rewrite <-Hlen, <-Hids. destruct (Z.leb_spec (Z.of_nat (length hot)) (TierManager.hot_limit self)).
  - replace (length hot - _)%nat with 0%nat by lia. exists d. split; [done|by apply moved_nil].
  - assert (length (merge_sort by_id hot) = length hot) as -> by by rewrite merge_sort_Permutation.
    rewrite <-fmap_take. apply move_each; [done| |].
    + rewrite fmap_take. apply (sublist_NoDup _ (si_id <$> merge_sort by_id hot)); [|apply sublist_take].
      rewrite Hids. apply NoDup_tier_ids.
    + intros seg Hs%(elem_of_subseteq (take _ _) (merge_sort by_id hot)); [|apply subseteq_take].
      rewrite <-elem_of_tier_ids, <-Hids. by apply list_elem_of_fmap_2.
Qed.
End moves.

(** The first elements of an ascending list are those with enough elements above them. *)
Lemma take_ascending (l : list Z) (k : nat) (id : Z) :
  StronglySorted Z.le l → NoDup l →
  id ∈ take (length l - k) l ↔ id ∈ l ∧ (k ≤ length (filter (λ j, (id < j)%Z) l))%nat.
Proof.
  intros Hs Hnd. destruct (decide (id ∈ l)) as [Hin|Hni].
  2:{ split; [intros Hin%subseteq_take; done|by intros [? _]]. }
  apply list_elem_of_split in Hin as (pre & post & ->).
  apply NoDup_app in Hnd as (_ & Hpre & [Hni _]%NoDup_cons).
  apply StronglySorted_app in Hs as (Hle & _ & [Hge _]%StronglySorted_cons).
  rewrite filter_app, filter_cons_False by lia.
  rewrite (list_filter_none _ pre), (list_filter_id _ post).
  - rewrite elem_of_take. cbn. rewrite length_app. cbn. split.
    + intros (i & Hi & Hlt). split; [set_solver|].
      assert (i = length pre) as ->; [|lia].
      destruct (decide (i < length pre)%nat) as [Hl|Hl].
      * rewrite lookup_app_l in Hi by done. apply list_elem_of_lookup_2 in Hi. set_solver.
      * rewrite lookup_app_r, lookup_cons_Some in Hi by lia. destruct Hi as [[? _]|[_ Hi]]; [lia|].
        by apply list_elem_of_lookup_2 in Hi.
    + intros [_ Hk]. exists (length pre). split; [by apply list_lookup_middle|lia].
  - intros j Hj. rewrite Forall_forall in Hge. specialize (Hge j Hj).
    assert (j ≠ id) by (intros ->; done). lia.
  - intros j Hj. specialize (Hle j id Hj (list_elem_of_here _ _)). lia.
Qed.

(** C31. A compaction cycle loses no segment within its retention, whichever operation of
    the file system fails and after however many bytes, the process crashing there or
    not: the data of a segment is afterwards what its hot file holds or its warm or cold
    file decompresses to, as before, or else the segment is gone from every tier and the
    creation time of its compressed file, the epoch where the file system records none,
    is further back than the cold retention, whose seconds are computed modulo 2^64. *)
Theorem compaction_conserves `{ReadDir} `{ZstdLaws} (task : CompactionTask.t) (t0 t1 t2 : Z)
    (d : Disk.t) (id : Z) (c : bytes) :
  segment_data d id = Some c →
  let d' := (CompactionTask.run_once task t0 t1 t2 d).1 in
  segment_data d' id = Some c
  ∨ (∀ tier, Disk.files d' tier !! id = None)
    ∧ ∃ days b, cc_cold_retention_days (CompactionTask.config task) = Some days
      ∧ known_birth d t0 id b
      ∧ from_secs (wrap64 (days * 86400)) < duration_since t2 (default 0 b).
Proof.
  intros Hc. assert (conserved d t0 id c d) as Hi.
  { split_and!; [done|done|]. intros f Hf. right. by exists f. }
  pose proof (run_once_conserves d t0 id c task t1 t2 d Hi) as Hr. cbv zeta.
  destruct (CompactionTask.run_once task t0 t1 t2 d) as [d' [x|e]]; cbn [fst];
    destruct Hr as [[? _]|?]; auto.
Qed.

(** A compression that only marks its output, and a directory listed in the map's order. *)
#[local] Instance marking_zstd : Zstd := {|
  encode_all x := Ok (40 :: x);
  decode_all z := match z with 40 :: x => Ok x | _ => Err "unknown frame" end |}.

#[local] Instance marking_zstd_laws : ZstdLaws.
Proof. by intros x z [= <-]. Qed.

#[local] Instance map_read_dir : ReadDir := {| read_dir m := map_to_list m; read_dir_permutation m := reflexivity _ |}.

Definition a_file (data : bytes) : File := {| content := data; created := Some 0 |}.

Definition a_config (limit : Z) : CompactionConfig := {|
  cc_hot_limit := limit; cc_warm_retention_days := 90; cc_cold_retention_days := Some 365;
  cc_compaction_interval_minutes := 60 |}.

Definition a_task (limit : Z) : CompactionTask.t := CompactionTask.new (Some "/cold") (a_config limit).

(** Two hot segments; the compression of the first fails in the middle of its write. *)
Definition a_disk : Disk.t :=
  Disk.Mk {[0 := a_file [1; 2]; 1 := a_file [3]]} ∅ ∅ true
    [None; None; Some {| written := Some 2%nat; message := "no space left" |}].

Lemma compaction_conserves_witness :
  let d' := (CompactionTask.run_once (a_task 1) 10 11 12 a_disk).1 in
  Disk.warm d' !! 0 = Some {| content := [40; 1]; created := Some 10 |} ∧ segment_data d' 0 = Some [1; 2].
Proof.
  split; [vm_compute; reflexivity|].
  destruct (compaction_conserves (a_task 1) 10 11 12 a_disk 0 [1; 2]) as [Hd|[Hn _]]; [reflexivity|exact Hd|].
  specialize (Hn Hot). vm_compute in Hn. discriminate Hn.
Defined.

(** The transition to the warm tier is exact: with no failure, the segments moved are
    the hot ones, the active one included, that have at least [hot_limit] newer hot ones
    and an id below the snapshot anchor; each is replaced by a warm file that decompresses
    to it, the count returned is theirs, and nothing else changes. *)
Theorem tier_transition_exact `{ReadDir} `{ZstdLaws} (self : TierManager.t) (t0 : Z) (d : Disk.t) :
  (∀ x, ∃ z, encode_all x = Ok z) → Disk.faults d = [] → 0 ≤ TierManager.hot_limit self →
  ∃ moved d', TierManager.transition_hot_to_warm self t0 d = (d', Ok (Z.of_nat (length moved)))
  ∧ NoDup moved
  ∧ (∀ id, id ∈ moved ↔
       is_Some (Disk.hot d !! id) ∧ before_anchor self id
       ∧ TierManager.hot_limit self ≤ Z.of_nat (length (filter (λ j, id < j) (tier_ids (Disk.hot d)))))
  ∧ (∀ id, Disk.hot d' !! id = if decide (id ∈ moved) then None else Disk.hot d !! id)
  ∧ (∀ id, id ∉ moved → Disk.warm d' !! id = Disk.warm d !! id)
  ∧ (∀ id f, id ∈ moved → Disk.hot d !! id = Some f →
       ∃ f', Disk.warm d' !! id = Some f' ∧ decoded f' = Some (content f))
  ∧ Disk.cold d' = Disk.cold d.
Proof.
  intros Henc Hf Hlim. destruct (transition_moves self t0 Henc d Hf Hlim) as (d' & Hrun & Hm).
  exists (excess_ids self d), d'. split_and!; [done| | |apply Hm|apply Hm| |apply Hm].
  - apply NoDup_filter. eapply sublist_NoDup; [apply NoDup_tier_ids|apply sublist_take].
  - intros id. unfold excess_ids. rewrite list_elem_of_filter, take_ascending, elem_of_tier_ids.
    + split; intros; split_and!; naive_solver lia.
    + apply StronglySorted_merge_sort; apply _.
    + apply NoDup_tier_ids.
  - intros id f Hid Hj. destruct (mw_warm _ _ _ _ Hm id f Hid Hj) as (z & Hz & Hw). eexists. split; [done|].
    unfold decoded. cbn. by rewrite (decode_encode _ _ Hz).
Qed.

Definition three_segments : Disk.t := Disk.Mk {[0 := a_file [1; 2]; 1 := a_file [3]; 2 := a_file []]} ∅ ∅ true [].

Lemma tier_transition_exact_witness : ∃ d' (moved : list Z),
  TierManager.transition_hot_to_warm (TierManager.new 1 90 None) 5 three_segments = (d', Ok 2)
  ∧ 0 ∈ moved ∧ ∃ f, Disk.warm d' !! 0 = Some f ∧ decoded f = Some [1; 2].
Proof.
  destruct (tier_transition_exact (TierManager.new 1 90 None) 5 three_segments)
    as (moved & d' & Hrun & _ & Hmoved & _ & _ & Hwarm & _); [intros x; by exists (40 :: x)|done|done|].
  assert (0 ∈ moved) as Hin.
  { apply Hmoved. split_and!; [by exists (a_file [1; 2])|done|]. vm_compute. discriminate. }
  exists d', moved. split_and!; [|done|by apply (Hwarm 0 (a_file [1; 2]))].
  assert ((TierManager.transition_hot_to_warm (TierManager.new 1 90 None) 5 three_segments).2 = Ok 2) as Hn
    by (vm_compute; reflexivity).
  rewrite Hrun in Hn |- *. cbn [snd] in Hn. by rewrite Hn.
Defined.

(** ** Recovery of a tiered trail *)

Lemma trail_ids sealed cur :
  list_segments (segment_files (sealed ++ [cur])) = seqZ 0 (Z.of_nat (S (length sealed))).
Proof. by rewrite segment_files_snoc, torn_ids, seqZ_S. Qed.

Lemma moved_trail `{ReadDir} `{Zstd} self t0 d sealed cur :
  (∀ x, ∃ z, encode_all x = Ok z) → Disk.faults d = [] →
  content <$> Disk.hot d = segment_files (sealed ++ [cur]) →
  1 ≤ TierManager.hot_limit self ≤ Z.of_nat (length sealed) → before_anchor self 0 →
  let hot' := Disk.hot (TierManager.transition_hot_to_warm self t0 d).1 in
  hot' !! 0 = None ∧ is_Some (hot' !! Z.of_nat (length sealed)) ∧ ∀ id, is_Some (hot' !! id) → 0 ≤ id.
Proof.
  intros Henc Hf Hhot Hlim Ha.
  destruct (transition_moves self t0 Henc d Hf) as (d' & -> & Hm); [lia|]. cbn [fst].
  assert (∀ id, is_Some (Disk.hot d !! id) ↔ 0 ≤ id < Z.of_nat (S (length sealed))) as Hin.
  { intros id. rewrite <-elem_of_tier_ids. unfold tier_ids. rewrite Hhot, trail_ids, elem_of_seqZ. lia. }
  assert (excess_ids self d = filter (before_anchor self)
    (take (S (length sealed) - Z.to_nat (TierManager.hot_limit self)) (seqZ 0 (Z.of_nat (S (length sealed)))))) as He.
  { unfold excess_ids, tier_ids. by rewrite Hhot, trail_ids, length_seqZ, Nat2Z.id. }
  split_and!.
  - rewrite (mw_hot _ _ _ _ Hm), decide_True; [done|]. rewrite He, list_elem_of_filter. split; [done|].
    rewrite seqZ_cons by lia. destruct (S (length sealed) - _)%nat eqn:E; [lia|]. left.
  - rewrite (mw_hot _ _ _ _ Hm), decide_False; [apply Hin; lia|]. rewrite He, list_elem_of_filter, elem_of_take.
    intros (_ & i & [Hi _]%lookup_seqZ & Hlt). lia.
  - intros id. rewrite (mw_hot _ _ _ _ Hm). case_decide; [by intros []|]. intros Hid%Hin. lia.
Qed.

(** A trail that a cycle has moved segments of is not recovered: once the first
    segment is in the warm tier, the store opened on the hot directory counts only the
    entries that are left there, and recovery ends with segment 0 not found, or, when no
    entry is left, with the state of an empty system. *)
Theorem tiered_trail_not_recovered `{HashOrder} `{Json} `{ReadDir} `{Zstd} (sha256 : bytes → bytes)
    (self : TierManager.t) (t0 m : Z) (d : Disk.t) (sealed : segments) (cur : list (bytes * bytes)) :
  (∀ x, ∃ z, encode_all x = Ok z) → Disk.faults d = [] →
  content <$> Disk.hot d = segment_files (sealed ++ [cur]) →
  1 ≤ TierManager.hot_limit self ≤ Z.of_nat (length sealed) → before_anchor self 0 →
  let dir' := content <$> Disk.hot (TierManager.transition_hot_to_warm self t0 d).1 in
  let trail := FileTrailStorage.open dir' m in
  let left := FileTrailStorage.scan_all dir' (list_segments dir') in
  sm_total_entries (metadata trail) = wrap64 (Z.of_nat (length left))
  ∧ RecoveryEngine.recover sha256 trail
    = Some (if decide (wrap64 (Z.of_nat (length left)) = 0)
            then Ok {| rs_workspace_states := ∅; rs_task_statuses := ∅; rs_last_sequence := 0;
                       rs_clock_initial := Timestamp.ZERO; rs_in_flight_envelopes := [];
                       rs_snapshot_sequence := None |}
            else Err (RecoveryStorageError (SegmentNotFound 0))).
Proof.
  intros Henc Hf Hhot Hlim Ha dir' trail left.
  destruct (moved_trail self t0 d sealed cur Henc Hf Hhot Hlim Ha) as (Hzero & [f Hlast] & Hpos).
  assert (∃ a, last (list_segments dir') = Some a ∧ 0 ≤ a) as (a & Hla & Hage).
  { destruct (last (list_segments dir')) as [a|] eqn:E.
    - exists a. split; [done|]. apply Hpos, elem_of_tier_ids. by apply last_Some_elem_of.
    - apply last_None in E. change (tier_ids (Disk.hot (TierManager.transition_hot_to_warm self t0 d).1) = []) in E.
      pose proof (proj2 (elem_of_tier_ids _ _) (mk_is_Some _ _ Hlast)) as Hin. rewrite E in Hin.
      by apply elem_of_nil in Hin. }
  assert (trail = FileTrailStorage.Mk dir' a (wrap64 (Z.of_nat (length (default [] (dir' !! a)))))
            (wrap64 (Z.of_nat (length left))) (default GENESIS (snd <$> last left)) m) as ->
    by (unfold trail, FileTrailStorage.open; by rewrite Hla).
  split; [done|]. unfold RecoveryEngine.recover, RecoveryEngine.recover_internal. cbn [metadata
    FileTrailStorage.trail_storage FileTrailStorage.metadata sm_total_entries FileTrailStorage.sequence_counter].
  case_decide; [done|]. unfold RecoveryEngine.collect_entries. change (sm_current_segment _) with a.
  rewrite seqZ_cons by lia. cbn. unfold FileTrailStorage.scan, scan_segment_file_from. cbn.
  unfold dir' at 1. by rewrite lookup_fmap, Hzero.
Qed.

Definition a_trail : segments := [[([1; 2], some_hash)]].

Definition trail_disk : Disk.t := Disk.Mk (a_file <$> segment_files (a_trail ++ [[([3], some_hash)]])) ∅ ∅ true [].

Lemma tiered_trail_not_recovered_witness :
  let dir' := content <$> Disk.hot (TierManager.transition_hot_to_warm (TierManager.new 1 90 None) 5 trail_disk).1 in
  sm_total_entries (metadata (FileTrailStorage.open dir' 100)) = 1
  ∧ ∀ J : Json, @RecoveryEngine.recover canonical_order J (λ _, some_hash) _ _ (FileTrailStorage.open dir' 100)
               = Some (Err (RecoveryStorageError (SegmentNotFound 0))).
Proof.
  assert (wrap64 (Z.of_nat (length (let dir' := content <$> Disk.hot (TierManager.transition_hot_to_warm
    (TierManager.new 1 90 None) 5 trail_disk).1 in FileTrailStorage.scan_all dir' (list_segments dir')))) = 1)
    as Hn by (vm_compute; reflexivity).
  cbv zeta in Hn |- *. split.
  - etrans; [|exact Hn]. apply (@tiered_trail_not_recovered canonical_order
      (Build_Json unit (λ _, None) (λ _ _, None) (λ _, None) (λ _, None) (λ _, None)) _ _ (λ _, some_hash)
      (TierManager.new 1 90 None) 5 100 trail_disk a_trail [([3], some_hash)]);
      [intros x; by exists (40 :: x)|done| |cbn; lia|done].
    unfold trail_disk. cbn [Disk.hot]. rewrite <-map_fmap_compose. apply map_fmap_id.
  - intros J. destruct (@tiered_trail_not_recovered canonical_order J _ _ (λ _, some_hash)
      (TierManager.new 1 90 None) 5 100 trail_disk a_trail [([3], some_hash)]) as [_ Hr];
      [intros x; by exists (40 :: x)|done| |cbn; lia|done|].
    + unfold trail_disk. cbn [Disk.hot]. rewrite <-map_fmap_compose. apply map_fmap_id.
    + rewrite Hn in Hr. exact Hr.
Defined.

(** ** Merging *)

Section merging.
Context `{ReadDir} `{Zstd} {laws : ZstdLaws} (now : Z).
Hypothesis encode_total : ∀ x, ∃ z, encode_all x = Ok z.

Definition warm_data (d : Disk.t) (id : Z) : option bytes := Disk.warm d !! id ≫= decoded.

Lemma pair_ind {A} (P : list A → Prop) :
  P [] → (∀ a, P [a]) → (∀ a b l, P l → P (a :: b :: l)) → ∀ l, P l.
Proof. intros H1 H2 H3. fix IH 1. intros [|a [|b l]]; [done|done|apply H3, IH]. Qed.

(** The merge of consecutive pairs. *)
Fixpoint pair_up (l : list (Z * bytes)) : list (Z * bytes) :=
  match l with
  | (a, x) :: (b, y) :: l => (a, x ++ y) :: pair_up l
  | _ => l
  end.

(** What happened outside the segments [ids] of the warm tier: nothing. *)
Definition only_warm (ids : list Z) (d d' : Disk.t) : Prop :=
  Disk.hot d' = Disk.hot d ∧ Disk.cold d' = Disk.cold d ∧ Disk.faults d' = []
  ∧ ∀ j, j ∉ ids → Disk.warm d' !! j = Disk.warm d !! j.

Lemma warm_data_Some d id x :
  warm_data d id = Some x ↔ ∃ f, Disk.warm d !! id = Some f ∧ decode_all (content f) = Ok x.
Proof.
  unfold warm_data, decoded. destruct (Disk.warm d !! id) as [f|]; cbn.
  - split; [|intros (g & [= <-] & ->); done]. intros Hd. exists f. split; [done|].
    destruct (decode_all (content f)); congruence.
  - split; [done|by intros (g & ? & _)].
Qed.

Lemma merge_pair_exact d a b x y :
  Disk.faults d = [] → a ≠ b → warm_data d a = Some x → warm_data d b = Some y →
  ∃ d', CompactionTask.merge_pair now a b d = (d', Ok tt) ∧ only_warm [a; b] d d'
    ∧ warm_data d' a = Some (x ++ y) ∧ Disk.warm d' !! b = None.
Proof using encode_total laws.
  intros Hf Hab (fa & Ha & Hx)%warm_data_Some (fb & Hb & Hy)%warm_data_Some.
  destruct (encode_total (x ++ y)) as [z Hz].
  unfold CompactionTask.merge_pair, read_file, write_file, remove_file, bind, attempt, lift, unchanged.
  rewrite Hf. cbn. rewrite Ha. cbn. rewrite Hb, Hx. cbn. rewrite Hy. cbn. rewrite Hz. cbn.
  rewrite lookup_insert_ne, Hb by done. eexists. split; [done|]. split_and!.
  - split_and!; [done|done|done|]. intros j Hj. cbn. rewrite lookup_delete_ne, lookup_insert_ne by set_solver. done.
  - apply warm_data_Some. cbn. rewrite lookup_delete_ne, lookup_insert_eq by done. eexists. split; [done|].
    cbn. by apply decode_encode.
  - cbn. apply lookup_delete_eq.
Qed.

Lemma only_warm_data ids d d' j : only_warm ids d d' → j ∉ ids → warm_data d' j = warm_data d j.
Proof. intros (_ & _ & _ & Hw) Hj. unfold warm_data. by rewrite Hw. Qed.

Lemma only_warm_trans ids ids' d d1 d' :
  only_warm ids d d1 → only_warm ids' d1 d' → only_warm (ids ++ ids') d d'.
Proof.
  intros (Hh & Hc & Hf & Hw) (Hh' & Hc' & Hf' & Hw'). split_and!; [congruence|congruence|done|].
  intros j Hj. rewrite Hw', Hw by set_solver. done.
Qed.

Lemma pair_up_elem l j x : (j, x) ∈ pair_up l → j ∈ l.*1.
Proof.
  induction l as [|[a u]|[a u] [b v] l IH] using pair_ind; cbn;
    [by intros ?%elem_of_nil|intros [= -> _]%list_elem_of_singleton; left|].
  intros [[= -> _]|Hin]%elem_of_cons; [left|]. do 2 right. by apply IH.
Qed.

Lemma merge_pairs_exact : ∀ (al : list (Z * bytes)) (l : list SegmentInfo) n d,
  si_id <$> l = al.*1 → Disk.faults d = [] → NoDup al.*1 →
  (∀ j x, (j, x) ∈ al → warm_data d j = Some x) →
  ∃ d', CompactionTask.merge_pairs now l n d = (d', Ok (n + Z.of_nat (Nat.div2 (length al)))) ∧ only_warm al.*1 d d'
    ∧ (∀ j x, (j, x) ∈ pair_up al → warm_data d' j = Some x)
    ∧ (∀ j, j ∈ al.*1 → j ∉ (pair_up al).*1 → Disk.warm d' !! j = None).
Proof using encode_total laws.
  intros al. induction al as [|[a x]|[a x] [b y] al IH] using pair_ind; intros l n d Hl Hf Hnd Hdata.
  - apply fmap_nil_inv in Hl as ->. exists d. cbn. rewrite Z.add_0_r. unfold ret. split_and!; [done|done| |].
    + intros j x Hin. by apply elem_of_nil in Hin.
    + intros j Hin. by apply elem_of_nil in Hin.
  - destruct l as [|s1 [|s2 l]]; [done| |done]. exists d. cbn. rewrite Z.add_0_r. unfold ret.
    split_and!; [done|done|exact Hdata|]. intros j Hin Hni. done.
  - destruct l as [|s1 [|s2 l]]; [done|done|]. injection Hl as H1 H2 Hl.
    apply NoDup_cons in Hnd as [Hna Hnd]. apply NoDup_cons in Hnd as [Hnb Hnd]. cbn [fst fmap list_fmap] in *.
    destruct (merge_pair_exact d a b x y) as (d1 & Hrun & Hw & Ha & Hb);
      [done|set_solver|apply Hdata; left|apply Hdata; right; left|].
    destruct (IH l (n + 1) d1 Hl) as (d' & Hrun' & Hw' & Hp & Hg); [apply Hw|done| |].
    { intros j u Hj. rewrite (only_warm_data [a; b] d d1) by (done || set_solver). apply Hdata. set_solver. }
    exists d'. cbn [CompactionTask.merge_pairs]. unfold bind. rewrite H1, H2, Hrun, Hrun'.
    split_and!; [f_equal; f_equal; cbn [length Nat.div2]; lia|by apply (only_warm_trans [a; b] al.*1 d d1)| |].
    + cbn [pair_up]. intros j u [[= -> ->]|Hin]%elem_of_cons; [|by apply Hp].
      rewrite (only_warm_data al.*1 d1 d') by (done || set_solver). done.
    + cbn [pair_up fmap list_fmap fst]. intros j Hj Hnj. apply not_elem_of_cons in Hnj as [Hja Hnj].
      apply elem_of_cons in Hj as [?|Hj]; [done|]. apply elem_of_cons in Hj as [->|Hj].
      * destruct Hw' as (_ & _ & _ & ->); done.
      * by apply Hg.
Qed.

Definition is_small (d : Disk.t) (threshold id : Z) : Prop :=
  match Disk.warm d !! id with Some f => Z.of_nat (length (content f)) < threshold | None => False end.

#[global] Instance is_small_dec d threshold id : Decision (is_small d threshold id).
Proof. unfold is_small. destruct (Disk.warm d !! id); apply _. Defined.

(** The small segments of the warm tier, ascending, with their data. *)
Definition small_segments (d : Disk.t) (threshold : Z) : list (Z * bytes) :=
  (λ id, (id, default [] (warm_data d id))) <$> filter (is_small d threshold) (tier_ids (Disk.warm d)).

(** The data of the warm tier, segment after segment. *)
Definition warm_log (d : Disk.t) : bytes := concat (omap (warm_data d) (tier_ids (Disk.warm d))).

Lemma small_segments_ids d threshold :
  (small_segments d threshold).*1 = filter (is_small d threshold) (tier_ids (Disk.warm d)).
Proof. unfold small_segments. rewrite <-list_fmap_compose. apply list_fmap_id. Qed.

Lemma filter_fmap_ids (l : list SegmentInfo) (P : SegmentInfo → Prop) (Q : Z → Prop)
    `{∀ s, Decision (P s)} `{∀ id, Decision (Q id)} :
  (∀ s, s ∈ l → P s ↔ Q (si_id s)) → si_id <$> filter P l = filter Q (si_id <$> l).
Proof.
  induction l as [|s l IH]; intros Hl; [done|]. cbn [fmap list_fmap]. rewrite !filter_cons.
  assert (P s ↔ Q (si_id s)) as Hs by (apply Hl; left).
  assert (si_id <$> filter P l = filter Q (si_id <$> l)) as Hr by (apply IH; intros; apply Hl; by right).
  destruct (decide (P s)), (decide (Q (si_id s))); cbn; rewrite ?Hr; tauto || done.
Qed.

Lemma listing_small d threshold :
  let warm := merge_sort by_id (segment_info Warm <$> read_dir (Disk.warm d)) in
  si_id <$> filter (λ s, si_size_bytes s < threshold) warm = (small_segments d threshold).*1.
Proof.
  cbv zeta. rewrite small_segments_ids, <-(sorted_listing Warm _ _ (reflexivity _)).
  apply filter_fmap_ids. intros s. rewrite merge_sort_Permutation, list_elem_of_fmap.
  intros ([id f] & -> & Hin). rewrite read_dir_permutation in Hin. apply elem_of_map_to_list in Hin.
  unfold is_small. cbn. by rewrite Hin.
Qed.

Lemma pair_up_sublist l : (pair_up l).*1 `sublist_of` l.*1.
Proof.
  induction l as [|[a u]|[a u] [b v] l IH] using pair_ind; [done|done|]. cbn.
  apply sublist_skip, sublist_cons. exact IH.
Qed.

Lemma pair_up_concat l : concat (pair_up l).*2 = concat l.*2.
Proof.
  induction l as [|[a u]|[a u] [b v] l IH] using pair_ind; [done|done|]. cbn. by rewrite IH, app_assoc.
Qed.

Lemma omap_assoc (f : Z → option bytes) l : (∀ j x, (j, x) ∈ l → f j = Some x) → omap f l.*1 = l.*2.
Proof.
  induction l as [|[a x] l IH]; intros Hl; [done|]. cbn. rewrite (Hl a x) by left.
  f_equal. apply IH. intros j y Hin. apply Hl. by right.
Qed.

Lemma small_segments_data d threshold :
  (∀ id f, Disk.warm d !! id = Some f → is_Some (decoded f)) →
  ∀ j x, (j, x) ∈ small_segments d threshold → warm_data d j = Some x.
Proof.
  intros Hdec j x (id & [= -> ->] & [_ [f Hf]%elem_of_tier_ids]%list_elem_of_filter)%list_elem_of_fmap.
  unfold warm_data. rewrite Hf. cbn. destruct (Hdec id f Hf) as [x ->]. done.
Qed.

(** The ids of a warm tier in which exactly the ids of an ascending list have a file. *)
Lemma tier_ids_ascending (m : gmap Z File) l :
  StronglySorted Z.le l → NoDup l → (∀ j, is_Some (m !! j) ↔ j ∈ l) → tier_ids m = l.
Proof.
  intros Hs Hnd Hin. apply (StronglySorted_unique Z.le); [apply StronglySorted_merge_sort; apply _|done|].
  apply NoDup_Permutation; [apply NoDup_tier_ids|done|]. intros j. rewrite elem_of_tier_ids. apply Hin.
Qed.

Lemma merged_log d d' threshold :
  (∀ id f, Disk.warm d !! id = Some f → is_Some (decoded f)) →
  (∀ id f, Disk.warm d !! id = Some f → Z.of_nat (length (content f)) < threshold) →
  only_warm (small_segments d threshold).*1 d d' →
  (∀ j x, (j, x) ∈ pair_up (small_segments d threshold) → warm_data d' j = Some x) →
  (∀ j, j ∈ (small_segments d threshold).*1 → j ∉ (pair_up (small_segments d threshold)).*1 →
     Disk.warm d' !! j = None) →
  warm_log d' = warm_log d.
Proof.
  intros Hdec Hall (_ & _ & _ & Hw) Hp Hg. set (small := small_segments d threshold) in *.
  assert (small.*1 = tier_ids (Disk.warm d)) as Hids.
  { unfold small. rewrite small_segments_ids. apply list_filter_id. intros id [f Hf]%elem_of_tier_ids.
    unfold is_small. rewrite Hf. by apply (Hall id). }
  assert (tier_ids (Disk.warm d') = (pair_up small).*1) as Hids'.
  { apply tier_ids_ascending.
    - apply (StronglySorted_sublist _ small.*1); [apply pair_up_sublist|]. rewrite Hids.
      apply StronglySorted_merge_sort; apply _.
    - eapply sublist_NoDup; [|apply pair_up_sublist]. rewrite Hids. apply NoDup_tier_ids.
    - intros j. split.
      + intros [f Hf]. destruct (decide (j ∈ (pair_up small).*1)) as [|Hni]; [done|].
        destruct (decide (j ∈ small.*1)) as [Hin|Hni'].
        * rewrite (Hg j Hin Hni) in Hf. done.
        * rewrite Hw in Hf by done. exfalso. apply Hni'. rewrite Hids. apply elem_of_tier_ids. by exists f.
      + intros ([j' x] & -> & Hin)%list_elem_of_fmap. apply Hp in Hin.
        apply warm_data_Some in Hin as (f & Hf & _). by exists f. }
  unfold warm_log. rewrite Hids', (omap_assoc _ _ Hp), pair_up_concat, <-Hids.
  by rewrite (omap_assoc _ small (small_segments_data d threshold Hdec)).
Qed.
End merging.

(** Merging the small warm segments is exact: with no failure, and every warm file a
    compressed one, the small segments are merged in pairs in the order of their ids, the
    first of a pair holding the data of both and the second removed, the number of pairs
    is returned, and nothing else changes; when all warm segments are small, the data of
    the tier, read in the order of the ids, is the same as before. *)
Theorem merge_exact `{ReadDir} `{ZstdLaws} (now threshold : Z) (d : Disk.t) :
  (∀ x, ∃ z, encode_all x = Ok z) → Disk.faults d = [] →
  (∀ id f, Disk.warm d !! id = Some f → is_Some (decoded f)) →
  let small := small_segments d threshold in
  ∃ d', CompactionTask.merge_warm_segments now threshold d = (d', Ok (Z.of_nat (Nat.div2 (length small))))
  ∧ only_warm small.*1 d d'
  ∧ (∀ id x, (id, x) ∈ pair_up small → warm_data d' id = Some x)
  ∧ (∀ id, id ∈ small.*1 → id ∉ (pair_up small).*1 → Disk.warm d' !! id = None)
  ∧ ((∀ id f, Disk.warm d !! id = Some f → Z.of_nat (length (content f)) < threshold) →
     warm_log d' = warm_log d).
Proof.
  intros Henc Hf Hdec small.
  unfold CompactionTask.merge_warm_segments, TierManager.list_warm_segments, list_segments_in.
  unfold bind at 1 2, attempt, unchanged. rewrite Hf. cbn [tail].
  set (d1 := Disk.with_faults [] d). assert (d1 = d) as ->
    by (unfold d1, Disk.with_faults; rewrite <-Hf; by destruct d).
  cbn [Disk.files]. pose proof (listing_small d threshold) as Hids. cbv zeta in Hids. fold small in Hids.
  set (l := filter _ _) in *. assert (length l = length small) as Hlen
    by (apply (f_equal length) in Hids; by rewrite !length_fmap in Hids).
  assert (NoDup small.*1) as Hnd by (unfold small; rewrite small_segments_ids; apply NoDup_filter, NoDup_tier_ids).
  destruct (merge_pairs_exact now Henc small l 0 d Hids Hf Hnd (small_segments_data d threshold Hdec))
    as (d' & Hrun & Hw & Hp & Hg).
  exists d'. split_and!; [|done|done|done|by intros; eapply merged_log].
  destruct (Nat.ltb_spec (length l) 2) as [Hlt|]; [|done].
  destruct l as [|s1 [|s2 l']]; [| |cbn in Hlt; lia]; cbn in Hrun, Hlen; destruct (length small); try lia; done.
Qed.

(** Warm segments 1, 2 and 3, of which the second is larger. *)
Definition warm_disk (faults : list (option fault)) : Disk.t :=
  Disk.Mk ∅ {[1 := a_file [40; 1]; 2 := a_file [40; 2; 2; 2]; 3 := a_file [40; 3]]} ∅ true faults.

Lemma merge_exact_witness : ∃ d',
  CompactionTask.merge_warm_segments 5 100 (warm_disk []) = (d', Ok 1) ∧ warm_log d' = [1; 2; 2; 2; 3].
Proof.
  destruct (merge_exact 5 100 (warm_disk [])) as (d' & Hrun & _ & _ & _ & Hlog);
    [intros x; by exists (40 :: x)|done| |].
  - intros id f. cbn. rewrite !lookup_insert_Some, lookup_singleton_Some.
    intros [[_ <-]|[_ [[_ <-]|[_ [_ <-]]]]]; by eexists.
  - exists d'. split; [rewrite Hrun; vm_compute; reflexivity|]. rewrite Hlog; [vm_compute; reflexivity|].
    intros id f. cbn. rewrite !lookup_insert_Some, lookup_singleton_Some.
    intros [[_ <-]|[_ [[_ <-]|[_ [_ <-]]]]]; cbn; lia.
Defined.

(** Merging is neither order-preserving nor interruptible: with a larger segment
    between two small ones, the data of the third comes before that of the second; and a
    merge that fails, or crashes, while it rewrites the first of a pair in place leaves
    that segment without its data in any tier. *)
Theorem merge_reorders_and_loses :
  (∃ d', CompactionTask.merge_warm_segments 5 3 (warm_disk []) = (d', Ok 1)
         ∧ warm_log (warm_disk []) = [1; 2; 2; 2; 3] ∧ warm_log d' = [1; 3; 2; 2; 2])
  ∧ ∃ d', CompactionTask.merge_warm_segments 5 3
            (warm_disk [None; None; None; Some {| written := Some 0%nat; message := "no space left" |}])
          = (d', Err (Io "no space left"))
          ∧ segment_data (warm_disk []) 1 = Some [1] ∧ segment_data d' 1 = None.
Proof.
  split; eexists; split_and!; vm_compute; reflexivity.
Qed.

(** Where the file system records no creation time, a cycle deletes what it compresses:
    54 years after the epoch, with 90 days of warm and 365 days of cold retention, a
    segment is compressed, moved and deleted within one cycle. *)
Theorem unrecorded_birth_deletes :
  let now := from_secs (54 * 365 * 86400) in
  let d := Disk.Mk {[0 := {| content := [1; 2]; created := None |}; 1 := {| content := [3]; created := None |}]}
             ∅ ∅ false [] in
  let (d', summary) := CompactionTask.run_once (a_task 1) now now now d in
  segment_data d 0 = Some [1; 2]
  ∧ summary = Ok {| hot_to_warm := 1; warm_to_cold := 1; cold_deleted := 1 |}
  ∧ ∀ tier, Disk.files d' tier !! 0 = None.
Proof.
  vm_compute. split_and!; [reflexivity..|]. by intros [].
Qed.
