(* ===== verification/Resilience.v ===== *)
(** * Circuit breaker and concurrency limiter (wacp-tools: handler.rs, resilience.rs)

    The error type of tool invocations, the per-tool circuit breaker and the
    per-tool concurrency limiter.  The breaker is shown to refine a breaker that
    remembers every failure, and to admit a probe after every cooldown but never
    again once a probe goes unreported.  The limiter is a set of calls that
    interleave between its atomic accesses; the theorem says how many run, what its
    queue counter counts, and when a call is refused. *)

From S2P Require Import Prelude Std.

(** ** Errors of tool invocations *)

Module ToolErrorCode.
Inductive t : Set :=
| ValidationFailed | Timeout | ExecutionFailed | InternalError | Unavailable | Overloaded | Cancelled.

#[export] Instance eq_dec : EqDecision t.
Proof. solve_decision. Defined.
End ToolErrorCode.

Module ToolError.
Record t := Mk { code : ToolErrorCode.t; message : string; retryable : bool }.

Definition validation (message : string) : t := Mk ToolErrorCode.ValidationFailed message false.
Definition timeout (message : string) : t := Mk ToolErrorCode.Timeout message false.
Definition execution (message : string) (retryable : bool) : t :=
  Mk ToolErrorCode.ExecutionFailed message retryable.
Definition internal (message : string) : t := Mk ToolErrorCode.InternalError message false.
Definition unavailable (message : string) : t := Mk ToolErrorCode.Unavailable message true.
Definition overloaded (message : string) : t := Mk ToolErrorCode.Overloaded message true.
Definition cancelled : t := Mk ToolErrorCode.Cancelled "invocation cancelled" false.
End ToolError.

(** ** Circuit breaker

    Every operation of an enabled breaker runs under the breaker's mutex and reads the
    clock inside, so the instants of a history do not decrease.  A panic inside poisons
    the mutex, and every later [lock().unwrap()] panics.  An operation gives its result,
    [None] when it panics. *)

Module CircuitBreakerConfig.
Record t := Mk {
  failure_threshold : Z;
  failure_window : Z;
  cooldown : Z;
  enabled : bool;
}.

Definition default : t := Mk 5 (from_secs 60) (from_secs 30) false.
End CircuitBreakerConfig.

Module BreakerStatus.
Inductive t : Set := Closed | Open | HalfOpen.

#[export] Instance eq_dec : EqDecision t.
Proof. solve_decision. Defined.
End BreakerStatus.

Module BreakerState.
Record t := Mk {
  status : BreakerStatus.t;
  failures : list Z;
  opened_at : option Z;
}.
End BreakerState.

Module CircuitBreaker.
Import CircuitBreakerConfig BreakerState.

Record t := Mk { config : CircuitBreakerConfig.t; state : BreakerState.t; poisoned : bool }.

Definition new (config : CircuitBreakerConfig.t) : t :=
  Mk config (BreakerState.Mk BreakerStatus.Closed [] None) false.

Definition with_state (self : t) (st : BreakerState.t) : t := Mk (config self) st (poisoned self).

Definition check (self : t) (now : Z) : t * option (result unit ToolError.t) :=
  let st := state self in
  if negb (enabled (config self)) then (self, Some (Ok tt)) else
  if poisoned self then (self, None) else
  match status st with
  | BreakerStatus.Closed => (self, Some (Ok tt))
  | BreakerStatus.Open =>
      let elapsed := match opened_at st with
                     | Some at_ => cooldown (config self) <=? duration_since now at_
                     | None => false
                     end in
      if elapsed then
        (with_state self (BreakerState.Mk BreakerStatus.HalfOpen (failures st) (opened_at st)), Some (Ok tt))
      else
        let remaining := match opened_at st with
                         | Some at_ => saturating_sub (cooldown (config self)) (duration_since now at_)
                         | None => 0
                         end in
        (self, Some (Err (ToolError.unavailable
                      ("circuit breaker open, cooldown remaining: " +:+ duration_debug remaining))))
  | BreakerStatus.HalfOpen =>
      (self, Some (Err (ToolError.unavailable "circuit breaker half-open, probe in progress")))
  end.

Definition record_success (self : t) : t * option unit :=
  if negb (enabled (config self)) then (self, Some tt) else
  if poisoned self then (self, None) else
  match status (state self) with
  | BreakerStatus.HalfOpen => (with_state self (BreakerState.Mk BreakerStatus.Closed [] None), Some tt)
  | BreakerStatus.Closed | BreakerStatus.Open => (self, Some tt)
  end.

Definition record_failure (self : t) (now : Z) : t * option unit :=
  let st := state self in
  if negb (enabled (config self)) then (self, Some tt) else
  if poisoned self then (self, None) else
  match status st with
  | BreakerStatus.Closed =>
      match instant_sub now (failure_window (config self)) with
      | None => (Mk (config self) st true, None)
      | Some cutoff =>
          let failures := filter (λ at_, cutoff ≤ at_) (failures st) ++ [now] in
          if failure_threshold (config self) <=? Z.of_nat (length failures)
          then (with_state self (BreakerState.Mk BreakerStatus.Open failures (Some now)), Some tt)
          else (with_state self (BreakerState.Mk BreakerStatus.Closed failures (opened_at st)), Some tt)
      end
  | BreakerStatus.HalfOpen =>
      (with_state self (BreakerState.Mk BreakerStatus.Open (failures st) (Some now)), Some tt)
  | BreakerStatus.Open => (self, Some tt)
  end.

Definition status (self : t) : option BreakerStatus.t :=
  if poisoned self then None else Some (BreakerState.status (state self)).
End CircuitBreaker.

(** Histories: the operations in the order they take the lock, with the instants
    they read and what came of each. *)

Inductive breaker_op := Check | Success | Failure.

Module BreakerAnswer.
Inductive t : Set := Admits | Refuses | Notes | Panics.
End BreakerAnswer.

Definition check_answer (r : option (result unit ToolError.t)) : BreakerAnswer.t :=
  match r with
  | Some (Ok _) => BreakerAnswer.Admits
  | Some (Err _) => BreakerAnswer.Refuses
  | None => BreakerAnswer.Panics
  end.

Definition report_answer (r : option unit) : BreakerAnswer.t :=
  match r with Some _ => BreakerAnswer.Notes | None => BreakerAnswer.Panics end.

Definition breaker_step (b : CircuitBreaker.t) (now : Z) (o : breaker_op) : CircuitBreaker.t * BreakerAnswer.t :=
  match o with
  | Check => prod_map id check_answer (CircuitBreaker.check b now)
  | Success => prod_map id report_answer (CircuitBreaker.record_success b)
  | Failure => prod_map id report_answer (CircuitBreaker.record_failure b now)
  end.

Fixpoint breaker_run (b : CircuitBreaker.t) (h : list (Z * breaker_op))
    : CircuitBreaker.t * list BreakerAnswer.t :=
  match h with
  | [] => (b, [])
  | (now, o) :: h =>
      let '(b, a) := breaker_step b now o in
      let '(b, answers) := breaker_run b h in (b, a :: answers)
  end.

(** The reference: a closed breaker remembers every failure since it closed and
    counts those inside the window; an open one knows when it opened.  It breaks for good
    when the start of the window is before the first instant. *)
Inductive phase := PClosed (failures : list Z) | POpen (since : Z) | PProbing | PBroken.

Definition in_window (c : CircuitBreakerConfig.t) (now : Z) (l : list Z) : list Z :=
  filter (λ at_, now - CircuitBreakerConfig.failure_window c ≤ at_) l.

Definition phase_step (c : CircuitBreakerConfig.t) (p : phase) (now : Z) (o : breaker_op)
    : phase * BreakerAnswer.t :=
  match p, o with
  | PClosed _, Check => (p, BreakerAnswer.Admits)
  | PClosed l, Failure =>
      if now - CircuitBreakerConfig.failure_window c <? instant_min then (PBroken, BreakerAnswer.Panics) else
      (if CircuitBreakerConfig.failure_threshold c <=? Z.of_nat (S (length (in_window c now l)))
       then POpen now else PClosed (l ++ [now]), BreakerAnswer.Notes)
  | POpen since, Check =>
      if CircuitBreakerConfig.cooldown c <=? saturating_sub now since
      then (PProbing, BreakerAnswer.Admits) else (p, BreakerAnswer.Refuses)
  | PProbing, Check => (p, BreakerAnswer.Refuses)
  | PProbing, Success => (PClosed [], BreakerAnswer.Notes)
  | PProbing, Failure => (POpen now, BreakerAnswer.Notes)
  | PClosed _, Success | POpen _, Success | POpen _, Failure => (p, BreakerAnswer.Notes)
  | PBroken, _ => (p, BreakerAnswer.Panics)
  end.

Fixpoint phase_run (c : CircuitBreakerConfig.t) (p : phase) (h : list (Z * breaker_op))
    : phase * list BreakerAnswer.t :=
  match h with
  | [] => (p, [])
  | (now, o) :: h =>
      let '(p, a) := phase_step c p now o in
      let '(p, answers) := phase_run c p h in (p, a :: answers)
  end.

(** The status a phase shows; none while the mutex is poisoned. *)
Definition phase_status (p : phase) : option BreakerStatus.t :=
  match p with
  | PClosed _ => Some BreakerStatus.Closed
  | POpen _ => Some BreakerStatus.Open
  | PProbing => Some BreakerStatus.HalfOpen
  | PBroken => None
  end.

(** What a breaker that is not enabled answers. *)
Definition lets_through (o : breaker_op) : BreakerAnswer.t :=
  match o with Check => BreakerAnswer.Admits | Success | Failure => BreakerAnswer.Notes end.

(** The instants of a history do not decrease, from [from] on. *)
Fixpoint ordered (from : Z) (h : list (Z * breaker_op)) : Prop :=
  match h with
  | [] => True
  | (now, _) :: h => from ≤ now ∧ ordered now h
  end.

(** *** Refinement *)

Section breaker.
Context (c : CircuitBreakerConfig.t).
Context (Hen : CircuitBreakerConfig.enabled c = true).
Context (Hw : 0 ≤ CircuitBreakerConfig.failure_window c).

(** The concrete breaker keeps only the failures that were in the window at the
    last one recorded. *)
Definition simulates (last : Z) (b : CircuitBreaker.t) (p : phase) : Prop :=
  CircuitBreaker.config b = c ∧
  CircuitBreaker.status b = phase_status p ∧
  match p with
  | PClosed l => ∃ at_, at_ ≤ last ∧ BreakerState.failures (CircuitBreaker.state b) = in_window c at_ l
  | POpen since => BreakerState.opened_at (CircuitBreaker.state b) = Some since ∧ since ≤ last
  | PProbing | PBroken => True
  end.

Lemma in_window_later at_ now l :
  at_ ≤ now → in_window c now (in_window c at_ l) = in_window c now l.
Proof.
  intros Hle. unfold in_window. apply list_filter_filter_l. intros x. lia.
Qed.

Lemma simulates_later last last' b p : last ≤ last' → simulates last b p → simulates last' b p.
Proof.
  intros Hle (Hc & Hs & Hp). split_and!; [done..|].
  destruct p; [|naive_solver lia..]. destruct Hp as (at_ & ? & ?). exists at_. split; [lia|done].
Qed.

(** Recording a failure in a closed breaker. *)
Lemma failure_simulates now fs oa l at_ :
  at_ ≤ now → fs = in_window c at_ l →
  let b := CircuitBreaker.Mk c (BreakerState.Mk BreakerStatus.Closed fs oa) false in
  simulates now (breaker_step b now Failure).1 (phase_step c (PClosed l) now Failure).1
  ∧ (breaker_step b now Failure).2 = (phase_step c (PClosed l) now Failure).2.
Proof.
  intros Hat -> b. cbn. unfold CircuitBreaker.record_failure, instant_sub. cbn. rewrite Hen. cbn.
  rewrite Z.ltb_antisym. destruct (instant_min <=? now - CircuitBreakerConfig.failure_window c); cbn; [|done].
  fold (in_window c now (in_window c at_ l)). rewrite in_window_later by done. rewrite length_app, Nat.add_1_r.
  destruct (_ <=? _); cbn; [done|]. repeat split. exists now. split; [done|].
  unfold in_window. rewrite filter_app. f_equal. rewrite filter_cons_True by lia. done.
Qed.

Lemma step_simulates last now b p o :
  last ≤ now → simulates last b p →
  simulates now (breaker_step b now o).1 (phase_step c p now o).1
  ∧ (breaker_step b now o).2 = (phase_step c p now o).2.
Proof.
  intros Hle Hsim. apply (simulates_later _ now) in Hsim; [|done].
  destruct b as [c' [st fs oa] po], Hsim as (Hc & Hs & Hp); cbn in Hc, Hp; subst c'.
  unfold CircuitBreaker.status in Hs. cbn in Hs. destruct po, p as [l|since| |]; simplify_eq/=.
  - destruct o; cbn; unfold CircuitBreaker.check, CircuitBreaker.record_success, CircuitBreaker.record_failure;
      cbn; by rewrite Hen.
  - destruct Hp as (at_ & Hat & Hfs). destruct o; [| |by eapply failure_simulates];
      cbn; unfold CircuitBreaker.check, CircuitBreaker.record_success; cbn; rewrite Hen; cbn;
      (split; [|done]); repeat split; by exists at_.
  - destruct Hp as [-> Hsince]. destruct o; cbn;
      unfold CircuitBreaker.check, CircuitBreaker.record_success, CircuitBreaker.record_failure; cbn; rewrite Hen; try done.
    cbn. unfold duration_since. by destruct (CircuitBreakerConfig.cooldown c <=? saturating_sub now since).
  - destruct o; cbn; unfold CircuitBreaker.check, CircuitBreaker.record_success, CircuitBreaker.record_failure;
      cbn; rewrite Hen; cbn; try done. repeat split. by exists now.
Qed.

Lemma run_simulates h : ∀ last b p,
  ordered last h → simulates last b p →
  (∃ last', simulates last' (breaker_run b h).1 (phase_run c p h).1)
  ∧ (breaker_run b h).2 = (phase_run c p h).2.
Proof.
  induction h as [|[now o] h IH]; cbn [breaker_run phase_run ordered]; [by eauto|].
  intros last b p [Hle Hord] Hsim.
  destruct (step_simulates last now b p o Hle Hsim) as [Hsim' Ha].
  destruct (breaker_step b now o) as [b1 a1], (phase_step c p now o) as [p1 a1'].
  cbn in Hsim', Ha. subst a1'. destruct (IH now b1 p1 Hord Hsim') as [Hfin Hans].
  destruct (breaker_run b1 h), (phase_run c p1 h). cbn in *. by subst.
Qed.

(** The reference breaks only when the window does not fit before an instant. *)
Lemma phase_run_never_panics h : ∀ from p,
  instant_min ≤ from - CircuitBreakerConfig.failure_window c → ordered from h → p ≠ PBroken →
  BreakerAnswer.Panics ∉ (phase_run c p h).2.
Proof.
  induction h as [|[now o] h IH]; cbn [phase_run ordered]; [intros; apply not_elem_of_nil|].
  intros from p Hfit [Hle Hord] Hp.
  assert (Hstep : (phase_step c p now o).1 ≠ PBroken ∧ (phase_step c p now o).2 ≠ BreakerAnswer.Panics).
  { destruct p, o; cbn; try done; try (by case_match).
    rewrite (proj2 (Z.ltb_ge _ _)) by lia. by case_match. }
  destruct (phase_step c p now o) as [p1 a1]. destruct Hstep as [Hp1 Ha1]. cbn in *.
  assert (Hfit' : instant_min ≤ now - CircuitBreakerConfig.failure_window c) by lia.
  specialize (IH now p1 Hfit' Hord Hp1). destruct (phase_run c p1 h). cbn in *. rewrite elem_of_cons. naive_solver.
Qed.
End breaker.

Lemma disabled_run h b :
  CircuitBreakerConfig.enabled (CircuitBreaker.config b) = false →
  breaker_run b h = (b, (λ e, lets_through e.2) <$> h).
Proof.
  intros Hd. induction h as [|[now o] h IH]; [done|]. cbn [breaker_run fmap list_fmap snd].
  replace (breaker_step b now o) with (b, lets_through o); [by rewrite IH|].
  destruct o; cbn; unfold CircuitBreaker.check, CircuitBreaker.record_success, CircuitBreaker.record_failure;
    by rewrite Hd.
Qed.

(** C32. Refinement.  Over every history with non-decreasing instants, each operation of an
    enabled breaker ends as with the reference breaker, which remembers all failures since
    it last closed, trips when the failures of the last [failure_window] including the new
    one reach the threshold, admits one call once [cooldown] has passed since it opened,
    closes or reopens on that call's report, and breaks for good, every operation
    panicking, at a failure reported so early that the start of the window cannot be
    represented; and the statuses agree.  When the window fits before the first instant
    nothing panics.  A breaker that is not enabled, the default, admits every call and
    stays as it was made. *)
Theorem breaker_refines (c : CircuitBreakerConfig.t) (h : list (Z * breaker_op)) (start : Z) :
  0 ≤ CircuitBreakerConfig.failure_window c →
  ordered start h →
  let '(b, answers) := breaker_run (CircuitBreaker.new c) h in
  let '(p, expected) := phase_run c (PClosed []) h in
  (CircuitBreakerConfig.enabled c = true →
   answers = expected ∧ CircuitBreaker.status b = phase_status p
   ∧ (instant_min ≤ start - CircuitBreakerConfig.failure_window c → BreakerAnswer.Panics ∉ answers))
  ∧ (CircuitBreakerConfig.enabled c = false →
     b = CircuitBreaker.new c ∧ answers = (λ e, lets_through e.2) <$> h).
Proof.
  intros Hw Hord. destruct (breaker_run (CircuitBreaker.new c) h) as [b answers] eqn:Hb.
  destruct (phase_run c (PClosed []) h) as [p expected] eqn:Hp. split; intros Hen.
  - destruct (run_simulates c Hen Hw h start (CircuitBreaker.new c) (PClosed [])) as [(last & Hsim) Ha]; [done| |].
    { repeat split. by exists start. }
    rewrite Hb, Hp in Hsim, Ha. cbn in Hsim, Ha. subst expected. split; [done|]. split; [apply Hsim|]. intros Hfit.
    pose proof (phase_run_never_panics c h start (PClosed []) Hfit Hord ltac:(done)) as Hno. by rewrite Hp in Hno.
  - rewrite disabled_run in Hb by done. by simplify_eq.
Qed.

Definition test_breaker : CircuitBreakerConfig.t := CircuitBreakerConfig.Mk 2 10 5 true.

Lemma breaker_refines_witness :
  let h := [(0, Failure); (20, Failure); (21, Failure); (22, Check); (26, Check); (27, Check); (28, Success); (29, Check)] in
  (breaker_run (CircuitBreaker.new test_breaker) h).2
  = [BreakerAnswer.Notes; BreakerAnswer.Notes; BreakerAnswer.Notes; BreakerAnswer.Refuses; BreakerAnswer.Admits;
     BreakerAnswer.Refuses; BreakerAnswer.Notes; BreakerAnswer.Admits]
  ∧ BreakerAnswer.Panics ∉ (breaker_run (CircuitBreaker.new test_breaker) h).2.
Proof.
  intros h. pose proof (breaker_refines test_breaker h 0 ltac:(cbn; lia) ltac:(cbn; lia)) as H.
  destruct (breaker_run (CircuitBreaker.new test_breaker) h) as [b answers].
  destruct (phase_run test_breaker (PClosed []) h) as [p expected] eqn:Hp. vm_compute in Hp.
  destruct H as [H _]. destruct (H eq_refl) as (Ha & _ & Hno). split.
  - cbn [snd]. rewrite Ha. by inversion Hp.
  - apply Hno. vm_compute. discriminate.
Defined.

(** *** Liveness *)

(** An open breaker knows when it opened. *)
Definition breaker_ok (T : Z) (b : CircuitBreaker.t) : Prop :=
  BreakerState.status (CircuitBreaker.state b) = BreakerStatus.Open →
  ∃ since, BreakerState.opened_at (CircuitBreaker.state b) = Some since ∧ since ≤ T.

Lemma step_config b now o : CircuitBreaker.config (breaker_step b now o).1 = CircuitBreaker.config b.
Proof.
  destruct b as [c [st fs oa] po], o; cbn; unfold CircuitBreaker.check, CircuitBreaker.record_success,
    CircuitBreaker.record_failure; cbn; repeat case_match; naive_solver.
Qed.

Lemma step_breaker_ok T b now o : now ≤ T → breaker_ok T b → breaker_ok T (breaker_step b now o).1.
Proof.
  unfold breaker_ok. destruct b as [c [st fs oa] po], o; cbn; unfold CircuitBreaker.check,
    CircuitBreaker.record_success, CircuitBreaker.record_failure; cbn; intros Hn Hb;
    repeat case_match; simplify_eq/=; naive_solver.
Qed.

Lemma run_breaker_ok T h : ∀ b,
  Forall (λ e, e.1 ≤ T) h → breaker_ok T b →
  breaker_ok T (breaker_run b h).1
  ∧ CircuitBreaker.config (breaker_run b h).1 = CircuitBreaker.config b.
Proof.
  induction h as [|[now o] h IH]; intros b; cbn [breaker_run]; [done|].
  rewrite Forall_cons. intros [Hn Hh] Hb.
  pose proof (step_config b now o) as Hc. pose proof (step_breaker_ok T b now o Hn Hb) as Hb'.
  destruct (breaker_step b now o) as [b1 a]. cbn in *. destruct (IH b1 Hh Hb') as [Hok Hcfg].
  destruct (breaker_run b1 h). cbn in *. split; [done|congruence].
Qed.

(** Past the cooldown, only a probe in flight and a panic keep calls out. *)
Lemma check_after_cooldown T b st now :
  breaker_ok T b → CircuitBreaker.status b = Some st → st ≠ BreakerStatus.HalfOpen →
  T + CircuitBreakerConfig.cooldown (CircuitBreaker.config b) ≤ now →
  (CircuitBreaker.check b now).2 = Some (Ok tt).
Proof.
  unfold breaker_ok, CircuitBreaker.status, CircuitBreaker.check. destruct b as [c [st' fs oa] []]; cbn; [done|].
  intros Hb [= ->] Hst Hnow. destruct (CircuitBreakerConfig.enabled c); [|done]. destruct st; [done| |done].
  destruct (Hb eq_refl) as (since & -> & Hs). cbn.
  destruct (Z.leb_spec (CircuitBreakerConfig.cooldown c) (duration_since now since)) as [|Hlt]; [done|].
  unfold duration_since, saturating_sub in Hlt. lia.
Qed.

Lemma report_leaves_half_open b now o :
  o ≠ Check → CircuitBreakerConfig.enabled (CircuitBreaker.config b) = true →
  CircuitBreaker.status b = Some BreakerStatus.HalfOpen →
  ∃ st, CircuitBreaker.status (breaker_step b now o).1 = Some st ∧ st ≠ BreakerStatus.HalfOpen.
Proof.
  destruct b as [c [st fs oa] []], o; cbn; try done; intros _ Hen [= ->];
    unfold CircuitBreaker.record_success, CircuitBreaker.record_failure; cbn; rewrite Hen; cbn; by eexists.
Qed.

Lemma half_open_refuses b times :
  CircuitBreakerConfig.enabled (CircuitBreaker.config b) = true →
  CircuitBreaker.status b = Some BreakerStatus.HalfOpen →
  breaker_run b ((λ at_, (at_, Check)) <$> times) = (b, (λ _, BreakerAnswer.Refuses) <$> times).
Proof.
  intros Hen Hst. induction times as [|now times IH]; [done|].
  cbn [fmap list_fmap breaker_run breaker_step]. destruct b as [c [st fs oa] []]; [done|].
  injection Hst as ->. cbn in Hen. unfold CircuitBreaker.check. cbn. rewrite Hen. cbn. cbn in IH. by rewrite IH.
Qed.

(** Liveness.  After any history up to [T] of an enabled breaker, a breaker that
    is not half-open admits every call made [cooldown] or more after [T].  A half-open
    one refuses all further calls, however late, until the probe it admitted is
    reported; after a report at [T'], of either kind, it admits calls again from
    [T' + cooldown] on. *)
Theorem breaker_liveness (c : CircuitBreakerConfig.t) (h : list (Z * breaker_op)) (T : Z) :
  CircuitBreakerConfig.enabled c = true →
  Forall (λ e, e.1 ≤ T) h →
  let b := (breaker_run (CircuitBreaker.new c) h).1 in
  (∀ st now, CircuitBreaker.status b = Some st → st ≠ BreakerStatus.HalfOpen →
     T + CircuitBreakerConfig.cooldown c ≤ now → (CircuitBreaker.check b now).2 = Some (Ok tt))
  ∧ (CircuitBreaker.status b = Some BreakerStatus.HalfOpen →
     (∀ times, breaker_run b ((λ at_, (at_, Check)) <$> times) = (b, (λ _, BreakerAnswer.Refuses) <$> times))
     ∧ ∀ T' o now, T ≤ T' → o ≠ Check → T' + CircuitBreakerConfig.cooldown c ≤ now →
         (CircuitBreaker.check (breaker_step b T' o).1 now).2 = Some (Ok tt)).
Proof.
  intros Hen Hh b.
  destruct (run_breaker_ok T h (CircuitBreaker.new c) Hh) as [Hok Hcfg]; [done|].
  fold b in Hok, Hcfg. cbn in Hcfg. split.
  - intros st now Hst Hne Hnow. apply (check_after_cooldown T b st); [done|done|done|by rewrite Hcfg].
  - intros Hst. split; [intros; apply half_open_refuses; [by rewrite Hcfg|done]|].
    intros T' o now HT Ho Hnow. destruct (report_leaves_half_open b T' o Ho) as (st & Hst' & Hne); [by rewrite Hcfg|done|].
    apply (check_after_cooldown T' _ st); [|done|done|by rewrite step_config, Hcfg].
    apply step_breaker_ok; [done|]. intros Hopen. unfold CircuitBreaker.status in Hst.
    destruct (CircuitBreaker.poisoned b); [done|]. congruence.
Qed.

Lemma breaker_liveness_witness :
  let b := (breaker_run (CircuitBreaker.new test_breaker) [(0, Failure); (1, Failure); (6, Check)]).1 in
  CircuitBreaker.status b = Some BreakerStatus.HalfOpen
  ∧ breaker_run b [(1000, Check); (2000, Check)] = (b, [BreakerAnswer.Refuses; BreakerAnswer.Refuses])
  ∧ (CircuitBreaker.check (breaker_step b 7 Failure).1 12).2 = Some (Ok tt).
Proof.
  pose proof (breaker_liveness test_breaker [(0, Failure); (1, Failure); (6, Check)] 6 eq_refl) as H.
  destruct H as [_ H]; [repeat constructor; cbn; lia|]. cbv zeta. split; [reflexivity|].
  destruct (H eq_refl) as [H1 H2]. split; [apply (H1 [1000; 2000])|].
  apply (H2 7 Failure); [lia|done|cbn; lia].
Defined.

(** ** Concurrency limiter

    [tokio::sync::Semaphore], as its documentation describes it: a number of
    permits; acquiring takes one and is possible when there is one; dropping a permit
    gives it back.  No code closes the semaphore, so the arms for a closed one are not
    reached. *)

Class Semaphore (Sem : Type) : Type := {
  sem_new : Z → Sem;
  sem_available : Sem → Z;
  sem_acquire : Sem → option Sem;
  sem_release : Sem → Sem;
  MAX_PERMITS : Z;
}.

Class SemaphoreLaws (Sem : Type) `{Semaphore Sem} : Prop := {
  sem_available_new n : 0 ≤ n → sem_available (sem_new n) = n;
  sem_acquire_none s : sem_acquire s = None ↔ sem_available s = 0;
  sem_acquire_some s s' : sem_acquire s = Some s' → sem_available s' = sem_available s - 1;
  sem_available_release s : sem_available (sem_release s) = sem_available s + 1;
  sem_available_nonneg s : 0 ≤ sem_available s;
  MAX_PERMITS_pos : 0 < MAX_PERMITS;
}.

Module ConcurrencyConfig.
Record t := Mk { max_concurrent : Z; max_queued : Z }.

Definition default : t := Mk 10 50.
End ConcurrencyConfig.

Module ConcurrencyLimiter.
Record t (Sem : Type) := Mk { semaphore : Sem; config : ConcurrencyConfig.t; queued : Z }.

Arguments Mk {Sem} semaphore config queued.
Arguments semaphore {Sem} self : rename.
Arguments config {Sem} self : rename.
Arguments queued {Sem} self : rename.

Section ops.
Context {Sem : Type} `{Semaphore Sem}.

Definition new (config : ConcurrencyConfig.t) : t Sem :=
  let permits := if ConcurrencyConfig.max_concurrent config =? 0 then MAX_PERMITS
                 else ConcurrencyConfig.max_concurrent config in
  Mk (sem_new permits) config 0.

(** Where a call of [acquire] or the permit it returned stands: before each access to
    the shared semaphore or counter.  [Holding] and [Dropping] are the permit's life;
    [Abandoned] is a future dropped while it waited. *)
Inductive pc :=
| Trying                      (* about to try_acquire *)
| Full                        (* no permit: about to load the counter *)
| Entering                    (* the queue had room: about to add to the counter *)
| Waiting                     (* awaiting a permit, counted *)
| WaitingUnlimited            (* awaiting a permit, not counted *)
| Holding (was_queued : bool) (* has a ConcurrencyPermit *)
| Dropping                    (* the guard's drop ran, its permit is next *)
| Released
| Refused (e : ToolError.t)
| Abandoned (counted : bool).

Definition with_semaphore (self : t Sem) (s : Sem) : t Sem := Mk s (config self) (queued self).
Definition with_queued (self : t Sem) (q : Z) : t Sem := Mk (semaphore self) (config self) q.

(** One access of [acquire]; [None] while the await is pending or nothing is left to
    do. *)
Definition acquire (self : t Sem) (p : pc) : option (t Sem * pc) :=
  match p with
  | Trying =>
      match sem_acquire (semaphore self) with
      | Some s => Some (with_semaphore self s, Holding false)
      | None => Some (self, Full)
      end
  | Full =>
      if ConcurrencyConfig.max_concurrent (config self) =? 0 then Some (self, WaitingUnlimited)
      else
        let current_queued := queued self in
        if ConcurrencyConfig.max_queued (config self) <=? current_queued
        then Some (self, Refused (ToolError.overloaded
               ("concurrency limit reached ("
                +:+ pretty (Z.to_N (ConcurrencyConfig.max_concurrent (config self)))
                +:+ " active, " +:+ pretty (Z.to_N current_queued) +:+ " queued)")))
        else Some (self, Entering)
  | Entering => Some (with_queued self (wrap64 (queued self + 1)), Waiting)
  | Waiting =>
      match sem_acquire (semaphore self) with
      | Some s => Some (with_semaphore self s, Holding true)
      | None => None
      end
  | WaitingUnlimited =>
      match sem_acquire (semaphore self) with
      | Some s => Some (with_semaphore self s, Holding false)
      | None => None
      end
  | _ => None
  end.

(** Dropping a permit: [ConcurrencyPermit::drop], then the field [_permit]. *)
Definition drop (self : t Sem) (p : pc) : option (t Sem * pc) :=
  match p with
  | Holding was_queued =>
      Some (if was_queued then with_queued self (wrap64 (queued self - 1)) else self, Dropping)
  | Dropping => Some (with_semaphore self (sem_release (semaphore self)), Released)
  | _ => None
  end.

(** The future of [acquire] is dropped at its await: no code of the source runs. *)
Definition abandon (self : t Sem) (p : pc) : option (t Sem * pc) :=
  match p with
  | Waiting => Some (self, Abandoned true)
  | WaitingUnlimited => Some (self, Abandoned false)
  | _ => None
  end.
End ops.
End ConcurrencyLimiter.

(** Any number of concurrent calls on one limiter; an event that is not possible in
    a state gives [None]. *)

Record calls (Sem : Type) := Calls {
  limiter : ConcurrencyLimiter.t Sem;
  pcs : list ConcurrencyLimiter.pc;
}.

Arguments Calls {Sem} limiter pcs.
Arguments limiter {Sem} c.
Arguments pcs {Sem} c.

Inductive call_event := Call | Advance (i : nat) | Drop (i : nat) | Abandon (i : nat).

Section calls.
Context {Sem : Type} `{SemaphoreLaws Sem}.
Import ConcurrencyLimiter.
Implicit Types (s : calls Sem) (l : list pc) (lim : ConcurrencyLimiter.t Sem).

Definition at_call (f : ConcurrencyLimiter.t Sem → pc → option (ConcurrencyLimiter.t Sem * pc))
    (s : calls Sem) (i : nat) : option (calls Sem) :=
  p ← pcs s !! i; '(lim, q) ← f (limiter s) p; Some (Calls lim (<[i := q]> (pcs s))).

Definition call_step (s : calls Sem) (e : call_event) : option (calls Sem) :=
  match e with
  | Call => Some (Calls (limiter s) (pcs s ++ [Trying]))
  | Advance i => at_call acquire s i
  | Drop i => at_call drop s i
  | Abandon i => at_call abandon s i
  end.

Fixpoint call_run (s : calls Sem) (h : list call_event) : option (calls Sem) :=
  match h with
  | [] => Some s
  | e :: h => s ← call_step s e; call_run s h
  end.

Definition start (c : ConcurrencyConfig.t) : calls Sem := Calls (new c) [].

(** How many calls satisfy [f]. *)
Fixpoint count (f : pc → bool) (l : list pc) : Z :=
  match l with [] => 0 | p :: l => Z.b2z (f p) + count f l end.

Definition holds_permit (p : pc) : bool :=
  match p with Holding _ | Dropping => true | _ => false end.
Definition is_waiting (p : pc) : bool := match p with Waiting => true | _ => false end.
Definition runs_from_queue (p : pc) : bool := match p with Holding true => true | _ => false end.
Definition left_queue (p : pc) : bool := match p with Abandoned true => true | _ => false end.

(** What the counter counts. *)
Definition in_count (l : list pc) : Z :=
  count is_waiting l + count runs_from_queue l + count left_queue l.

Definition permits (c : ConcurrencyConfig.t) : Z :=
  if ConcurrencyConfig.max_concurrent c =? 0 then MAX_PERMITS else ConcurrencyConfig.max_concurrent c.

Definition calls_inv (c : ConcurrencyConfig.t) (s : calls Sem) : Prop :=
  config (limiter s) = c
  ∧ sem_available (semaphore (limiter s)) + count holds_permit (pcs s) = permits c
  ∧ queued (limiter s) = wrap64 (in_count (pcs s)).

Lemma count_app f l1 l2 : count f (l1 ++ l2) = count f l1 + count f l2.
Proof. induction l1; cbn [count app]; lia. Qed.

Lemma count_insert f l i p q :
  l !! i = Some p → count f (<[i := q]> l) = count f l - Z.b2z (f p) + Z.b2z (f q).
Proof.
  revert i. induction l as [|x l IH]; intros [|i]; try done; csimpl.
  - intros [= ->]. lia.
  - intros Hl. rewrite (IH i Hl). lia.
Qed.

Lemma count_bounds f l : 0 ≤ count f l ≤ Z.of_nat (length l).
Proof. induction l as [|x l IH]; cbn [count length]; [lia|]. destruct (f x); cbn; lia. Qed.

(** What one access does to the permits and the counter. *)
Definition weight (p : pc) : Z := Z.b2z (is_waiting p) + Z.b2z (runs_from_queue p) + Z.b2z (left_queue p).

Definition balanced lim (p : pc) lim' (q : pc) : Prop :=
  config lim' = config lim
  ∧ sem_available (semaphore lim') + Z.b2z (holds_permit q)
    = sem_available (semaphore lim) + Z.b2z (holds_permit p)
  ∧ (∀ n, queued lim = wrap64 n → queued lim' = wrap64 (n + weight q - weight p))
  ∧ (left_queue p → left_queue q).

Lemma acquire_balanced lim p lim' q : acquire lim p = Some (lim', q) → balanced lim p lim' q.
Proof.
  unfold acquire, balanced. intros Ha.
  destruct p as [| | | | |b| | |e|b]; repeat case_match; simplify_eq/=;
    try match goal with Hs : sem_acquire _ = Some _ |- _ => apply sem_acquire_some in Hs end;
    (split_and!; [done|lia| |done]); intros n Hn; rewrite Hn, ?wrap64_add; apply f_equal; unfold weight; cbn; lia.
Qed.

Lemma drop_balanced lim p lim' q : drop lim p = Some (lim', q) → balanced lim p lim' q.
Proof.
  unfold drop, balanced. intros Ha.
  destruct p as [| | | | |b| | |e|b]; repeat case_match; simplify_eq/=; rewrite ?sem_available_release;
    (split_and!; [done|lia| |done]); intros n Hn; rewrite Hn, ?wrap64_sub; apply f_equal; unfold weight; cbn; lia.
Qed.

Lemma abandon_balanced lim p lim' q : abandon lim p = Some (lim', q) → balanced lim p lim' q.
Proof.
  unfold abandon, balanced. intros Ha.
  destruct p as [| | | | |b| | |e|b]; repeat case_match; simplify_eq/=;
    (split_and!; [done|lia| |done]); intros n Hn; rewrite Hn; apply f_equal; unfold weight; cbn; lia.
Qed.

Lemma at_call_spec f s i s' :
  (∀ lim p lim' q, f lim p = Some (lim', q) → balanced lim p lim' q) →
  at_call f s i = Some s' →
  ∃ p lim' q, pcs s !! i = Some p ∧ balanced (limiter s) p lim' q ∧ f (limiter s) p = Some (lim', q)
    ∧ s' = Calls lim' (<[i := q]> (pcs s)).
Proof.
  intros Hf. unfold at_call. destruct (pcs s !! i) as [p|] eqn:Hp; [|done]. cbn.
  destruct (f (limiter s) p) as [[lim' q]|] eqn:Hq; [|done]. intros [= <-].
  exists p, lim', q. auto.
Qed.

Lemma balanced_insert c s i p lim' q :
  calls_inv c s → pcs s !! i = Some p → balanced (limiter s) p lim' q →
  calls_inv c (Calls lim' (<[i := q]> (pcs s)))
  ∧ count left_queue (pcs s) ≤ count left_queue (<[i := q]> (pcs s)).
Proof.
  intros (Hc & Hp & Hq) Hi (Hc' & Hp' & Hq' & Hl). unfold calls_inv, in_count. cbn [limiter pcs].
  rewrite !(count_insert _ _ _ _ _ Hi). split_and!.
  - congruence.
  - lia.
  - rewrite (Hq' _ Hq). f_equal. unfold in_count, weight. lia.
  - destruct (left_queue p), (left_queue q); cbn in *; tauto || lia.
Qed.

Lemma call_step_inv c s e s' :
  call_step s e = Some s' → calls_inv c s →
  calls_inv c s' ∧ count left_queue (pcs s) ≤ count left_queue (pcs s').
Proof.
  destruct e as [|i|i|i]; cbn [call_step].
  - intros [= <-] (Hc & Hp & Hq). unfold calls_inv, in_count in *. cbn.
    rewrite !count_app. cbn. rewrite !Z.add_0_r. auto with lia.
  - intros (p & lim' & q & Hi & Hb & _ & ->)%(at_call_spec _ _ _ _ acquire_balanced) Hinv.
    by apply (balanced_insert c s i p).
  - intros (p & lim' & q & Hi & Hb & _ & ->)%(at_call_spec _ _ _ _ drop_balanced) Hinv.
    by apply (balanced_insert c s i p).
  - intros (p & lim' & q & Hi & Hb & _ & ->)%(at_call_spec _ _ _ _ abandon_balanced) Hinv.
    by apply (balanced_insert c s i p).
Qed.

Lemma call_run_inv c h : ∀ s s',
  call_run s h = Some s' → calls_inv c s →
  calls_inv c s' ∧ count left_queue (pcs s) ≤ count left_queue (pcs s').
Proof.
  induction h as [|e h IH]; intros s s'; cbn [call_run]; [intros [= <-]; auto with lia|].
  destruct (call_step s e) as [s1|] eqn:Hs; [|done]. cbn. intros Hr Hinv.
  destruct (call_step_inv c s e s1 Hs Hinv) as [Hinv1 Hle1].
  destruct (IH s1 s' Hr Hinv1). split; [done|lia].
Qed.

Lemma start_inv c : 0 ≤ ConcurrencyConfig.max_concurrent c → calls_inv c (start c).
Proof.
  intros Hc. unfold calls_inv, permits. cbn. pose proof MAX_PERMITS_pos.
  rewrite sem_available_new by (case_match; lia). split_and!; [done|lia|done].
Qed.

Lemma in_count_bounds l : 0 ≤ in_count l ≤ Z.of_nat (length l).
Proof.
  unfold in_count. induction l as [|p l IH]; cbn [count length]; [lia|].
  destruct p as [| | | | |[]| | |e|[]]; cbn; lia.
Qed.

Lemma queued_exact c s :
  calls_inv c s → Z.of_nat (length (pcs s)) ≤ u64_max → queued (limiter s) = in_count (pcs s).
Proof.
  intros (_ & _ & ->) Hlen. apply wrap64_small. pose proof (in_count_bounds (pcs s)).
  unfold is_u64. lia.
Qed.

(** What the code decides for a call that found no permit. *)
Lemma full_decision c s i :
  calls_inv c s → 0 < ConcurrencyConfig.max_concurrent c → Z.of_nat (length (pcs s)) ≤ u64_max →
  pcs s !! i = Some Full →
  ∃ s', call_step s (Advance i) = Some s' ∧
    if decide (ConcurrencyConfig.max_queued c ≤ in_count (pcs s))
    then ∃ e, pcs s' !! i = Some (Refused e) ∧ ToolError.code e = ToolErrorCode.Overloaded
    else pcs s' !! i = Some Entering.
Proof.
  intros Hinv Hc Hlen Hi. pose proof (queued_exact c s Hinv Hlen) as Hq.
  destruct Hinv as (Hcfg & _ & _). pose proof (lookup_lt_Some _ _ _ Hi) as Hlt.
  cbn [call_step]. unfold at_call. rewrite Hi. cbn. rewrite Hcfg, Hq.
  rewrite (proj2 (Z.eqb_neq _ _)) by lia.
  destruct (Z.leb_spec (ConcurrencyConfig.max_queued c) (in_count (pcs s))); cbn;
    (eexists; split; [reflexivity|]; cbn); rewrite list_lookup_insert_eq by done.
  - rewrite decide_True by done. eexists. split; reflexivity.
  - by rewrite decide_False by lia.
Qed.

(** Safety and accounting of the limiter, over every interleaving of concurrent
    calls, permit drops and cancelled waits.  The permits taken and left add up to the
    configured number, so at most [max_concurrent] invocations run.  The queue
    counter is the number of calls that wait, plus those that waited once and are now
    running, plus those cancelled while they waited; a call that finds no permit is
    refused as overloaded exactly when that sum has reached [max_queued]. *)
Theorem limiter_accounting (c : ConcurrencyConfig.t) (h : list call_event) (s : calls Sem) :
  0 < ConcurrencyConfig.max_concurrent c →
  call_run (start c) h = Some s →
  Z.of_nat (length (pcs s)) ≤ u64_max →
  sem_available (semaphore (limiter s)) + count holds_permit (pcs s)
    = ConcurrencyConfig.max_concurrent c
  ∧ count holds_permit (pcs s) ≤ ConcurrencyConfig.max_concurrent c
  ∧ queued (limiter s)
    = count is_waiting (pcs s) + count runs_from_queue (pcs s) + count left_queue (pcs s)
  ∧ ∀ i, pcs s !! i = Some Full →
      ∃ s', call_step s (Advance i) = Some s' ∧
        if decide (ConcurrencyConfig.max_queued c
                   ≤ count is_waiting (pcs s) + count runs_from_queue (pcs s) + count left_queue (pcs s))
        then ∃ e, pcs s' !! i = Some (Refused e) ∧ ToolError.code e = ToolErrorCode.Overloaded
        else pcs s' !! i = Some Entering.
Proof.
  intros Hc Hr Hlen. destruct (call_run_inv c h _ _ Hr) as [Hinv _]; [apply start_inv; lia|].
  pose proof (sem_available_nonneg (semaphore (limiter s))).
  pose proof Hinv as (_ & Hp & _). unfold permits in Hp.
  rewrite (proj2 (Z.eqb_neq _ _)) in Hp by lia. split_and!; [done|lia| |].
  - by apply (queued_exact c).
  - intros i Hi. by apply full_decision.
Qed.

(** A cancelled wait is never given back: once [max_queued] calls were cancelled
    while they waited, every later call that finds no permit is refused, whatever
    happens in between. *)
Theorem abandoned_calls_close_queue (c : ConcurrencyConfig.t) (h h' : list call_event)
    (s s' : calls Sem) (i : nat) :
  0 < ConcurrencyConfig.max_concurrent c →
  call_run (start c) h = Some s →
  ConcurrencyConfig.max_queued c ≤ count left_queue (pcs s) →
  call_run s h' = Some s' →
  Z.of_nat (length (pcs s')) ≤ u64_max →
  pcs s' !! i = Some Full →
  ∃ s'' e, call_step s' (Advance i) = Some s'' ∧ pcs s'' !! i = Some (Refused e)
    ∧ ToolError.code e = ToolErrorCode.Overloaded.
Proof.
  intros Hc Hr Hleft Hr' Hlen Hi. destruct (call_run_inv c h _ _ Hr) as [Hinv _]; [apply start_inv; lia|].
  destruct (call_run_inv c h' _ _ Hr' Hinv) as [Hinv' Hle].
  destruct (full_decision c s' i Hinv' Hc Hlen Hi) as (s'' & Hs & Hd).
  pose proof (count_bounds is_waiting (pcs s')). pose proof (count_bounds runs_from_queue (pcs s')).
  rewrite decide_True in Hd by (unfold in_count; lia). destruct Hd as (e & He & Hcode). eauto.
Qed.
End calls.

(** A semaphore to compute with: its number of permits. *)
Definition count_semaphore : Semaphore N := {|
  sem_new := Z.to_N;
  sem_available := Z.of_N;
  sem_acquire := λ s, if decide (s = 0%N) then None else Some (N.pred s);
  sem_release := N.succ;
  MAX_PERMITS := 2305843009213693951;
|}.

#[local] Existing Instance count_semaphore.

#[local] Instance count_semaphore_laws : SemaphoreLaws N.
Proof.
  split; cbn; try lia.
  - intros s. case_decide; naive_solver lia.
  - intros s s'. case_decide; naive_solver lia.
Qed.

(** One permit, room for one: the second call waited and runs, nobody waits, and the
    third call is refused. *)
Definition queue_of_one : ConcurrencyConfig.t := ConcurrencyConfig.Mk 1 1.

Definition served_from_queue : calls N :=
  Calls (ConcurrencyLimiter.Mk 0%N queue_of_one 1)
    [ConcurrencyLimiter.Released; ConcurrencyLimiter.Holding true; ConcurrencyLimiter.Full].

Definition serve_from_queue : list call_event :=
  [Call; Advance 0; Call; Advance 1; Advance 1; Advance 1; Drop 0; Drop 0; Advance 1; Call; Advance 2].

Lemma limiter_accounting_witness :
  call_run (start queue_of_one) serve_from_queue = Some served_from_queue
  ∧ count is_waiting (pcs served_from_queue) = 0
  ∧ ∃ s', call_step served_from_queue (Advance 2) = Some s'
      ∧ ∃ e, pcs s' !! 2%nat = Some (ConcurrencyLimiter.Refused e)
             ∧ ToolError.code e = ToolErrorCode.Overloaded.
Proof.
  assert (call_run (start queue_of_one) serve_from_queue = Some served_from_queue) as Hr
    by (vm_compute; reflexivity).
  split; [exact Hr|]. split; [reflexivity|].
  destruct (limiter_accounting queue_of_one serve_from_queue served_from_queue) as (_ & _ & _ & Hf);
    [reflexivity|exact Hr|vm_compute; discriminate|]. exact (Hf 2%nat eq_refl).
Defined.

Definition abandoned_wait : calls N :=
  Calls (ConcurrencyLimiter.Mk 0%N queue_of_one 1)
    [ConcurrencyLimiter.Holding false; ConcurrencyLimiter.Abandoned true].

Definition after_abandoned_wait : calls N :=
  Calls (limiter abandoned_wait) (pcs abandoned_wait ++ [ConcurrencyLimiter.Full]).

Lemma abandoned_calls_close_queue_witness :
  call_run (start queue_of_one) [Call; Advance 0; Call; Advance 1; Advance 1; Advance 1; Abandon 1]
  = Some abandoned_wait
  ∧ ∃ s' e, call_step after_abandoned_wait (Advance 2) = Some s'
      ∧ pcs s' !! 2%nat = Some (ConcurrencyLimiter.Refused e)
      ∧ ToolError.code e = ToolErrorCode.Overloaded.
Proof.
  split; [vm_compute; reflexivity|].
  apply (abandoned_calls_close_queue queue_of_one
           [Call; Advance 0; Call; Advance 1; Advance 1; Advance 1; Abandon 1] [Call; Advance 2]
           abandoned_wait after_abandoned_wait 2);
    try reflexivity; vm_compute; (reflexivity || discriminate).
Defined.
