(* ===== verification/Tools.v ===== *)
(** * Tool descriptors, packages, execution and the registry (wacp-tools)

    descriptor.rs, package.rs, execution.rs, sandbox.rs's policy and registry.rs.
    The theorems say which names and descriptors are accepted, that every registered
    tool can run each capability it declares, what an execution may return, and what
    an unreported probe does to a tool's circuit breaker. *)

From Stdlib Require Import Ascii.
From S2P Require Import Prelude Types Std Resilience.

(** [serde_json::Value] *)
Module Value.
Inductive t :=
| Null
| Bool (b : bool)
| Number (text : string)
| Str (s : string)
| Array (l : list t)
| Object (m : list (string * t)).

Definition contains_key (m : list (string * t)) (k : string) : bool := bool_decide (k ∈ m.*1).
End Value.

(** What the crate takes from jsonschema and serde_json: validation of a value
    against a schema, with the text of the first error, [None] when the schema is not a
    valid one and the crate panics, and the serialised size. *)
Class JsonLib : Type := {
  jsonschema_validate : Value.t → Value.t → option (result unit string);
  to_vec_len : Value.t → option Z;
}.

(** ** Descriptors *)

Inductive DescriptorError :=
| InvalidName (name reason : string)
| InvalidVersion (version : string)
| NoCapabilities
| DuplicateCapability (name : string)
| InvalidCapability (name reason : string)
| InvalidConfigSchema (reason : string).

Definition name_char (c : ascii) : bool :=
  is_ascii_lowercase c || is_ascii_digit c || bool_decide (c = "_"%char).

Definition validate_name (name : string) : result unit DescriptorError :=
  if bool_decide (name = "") then Err (InvalidName name "name must not be empty")
  else if 64 <? str_len name then
    Err (InvalidName name ("name exceeds 64 characters (" +:+ pretty (Z.to_N (str_len name)) +:+ ")"))
  else if negb (forallb name_char (chars name)) then
    Err (InvalidName name "name must contain only lowercase alphanumeric characters and underscores")
  else if bool_decide (head (chars name) = Some "_"%char) || bool_decide (last (chars name) = Some "_"%char) then
    Err (InvalidName name "name must not start or end with underscore")
  else Ok tt.

Definition validate_version (version : string) : result unit DescriptorError :=
  let parts := split_on "."%char version in
  if negb (Nat.eqb (length parts) 3) then Err (InvalidVersion version)
  else for_each (λ part,
         if bool_decide (part = "") || negb (bool_decide (is_Some (parse_u32 part)))
         then Err (InvalidVersion version) else Ok tt) parts.

Definition validate_json_schema (schema : Value.t) : result unit string :=
  match schema with
  | Value.Object m =>
      if negb (Value.contains_key m "type") && negb (Value.contains_key m "$ref")
         && negb (Value.contains_key m "oneOf") && negb (Value.contains_key m "anyOf")
         && negb (Value.contains_key m "allOf")
      then Err "schema must have 'type', '$ref', 'oneOf', 'anyOf', or 'allOf'"
      else Ok tt
  | Value.Bool _ => Ok tt
  | _ => Err "schema must be an object or boolean"
  end.

Module Capability.
Record t := Mk {
  name : string;
  description : string;
  input_schema : Value.t;
  output_schema : Value.t;
  timeout_ms : option Z;
  idempotent : bool;
  side_effects : bool;
}.

Definition validate (self : t) : result unit DescriptorError :=
  let? _ := result_map_err (λ e, match e with
                                 | InvalidName name reason => InvalidCapability name reason
                                 | other => other
                                 end) (validate_name (name self)) in
  if bool_decide (description self = "")
  then Err (InvalidCapability (name self) "description must not be empty")
  else result_map_err (λ reason, InvalidCapability (name self) ("invalid input_schema: " +:+ reason))
         (validate_json_schema (input_schema self)).
End Capability.

Module ToolDescriptor.
Record t := Mk {
  name : string;
  version : string;
  description : string;
  capabilities : list Capability.t;
  config_schema : option Value.t;
  tags : list string;
}.

(** The loop over the capabilities, with the names seen so far. *)
Fixpoint validate_capabilities (seen : gset string) (caps : list Capability.t)
    : result unit DescriptorError :=
  match caps with
  | [] => Ok tt
  | cap :: caps =>
      if decide (Capability.name cap ∈ seen) then Err (DuplicateCapability (Capability.name cap))
      else
        let? _ := Capability.validate cap in
        validate_capabilities ({[Capability.name cap]} ∪ seen) caps
  end.

Definition validate (self : t) : result unit DescriptorError :=
  let? _ := validate_name (name self) in
  let? _ := validate_version (version self) in
  let? _ := match capabilities self with [] => Err NoCapabilities | _ => Ok tt end in
  let? _ := validate_capabilities ∅ (capabilities self) in
  match config_schema self with
  | Some schema => result_map_err InvalidConfigSchema (validate_json_schema schema)
  | None => Ok tt
  end.

Definition capability (self : t) (name : string) : option Capability.t :=
  find (λ c, bool_decide (Capability.name c = name)) (capabilities self).
End ToolDescriptor.

(** ** Packages

    A handler is code of the tool's author; [H] is the type of handlers. *)

Inductive PackageError :=
| InvalidDescriptor (e : DescriptorError)
| MissingHandler (capability : string)
| ExtraHandler (handler : string)
| InvalidConfig (reason : string)
| PackageInitializeFailed (e : ToolError.t).

Module ToolPackage.
(** A hook is what running it gives. *)
Record t (H : Type) := Mk {
  descriptor : ToolDescriptor.t;
  handlers : gmap string H;
  initialize : option (Value.t → result unit ToolError.t);
  shutdown : option (result unit ToolError.t);
}.

Arguments Mk {H} descriptor handlers initialize shutdown.
Arguments descriptor {H} t.
Arguments handlers {H} t.
Arguments initialize {H} t.
Arguments shutdown {H} t.

Definition validate `{HashOrder} {H} (self : t H) : result unit PackageError :=
  let? _ := result_map_err InvalidDescriptor (ToolDescriptor.validate (descriptor self)) in
  let? _ := for_each (λ cap,
              if decide (is_Some (handlers self !! Capability.name cap)) then Ok tt
              else Err (MissingHandler (Capability.name cap)))
            (ToolDescriptor.capabilities (descriptor self)) in
  for_each (λ key,
    match ToolDescriptor.capability (descriptor self) key with
    | None => Err (ExtraHandler key)
    | Some _ => Ok tt
    end) (hash_iter (handlers self)).*1.
End ToolPackage.

Module PackageBuilder.
Import ToolPackage.

(** The builder has the fields of the package it builds. *)
Definition new {H} (descriptor : ToolDescriptor.t) : t H := Mk descriptor ∅ None None.

Definition handler {H} (self : t H) (capability_name : string) (handler : H) : t H :=
  Mk (descriptor self) (<[capability_name := handler]> (handlers self)) (ToolPackage.initialize self)
    (ToolPackage.shutdown self).

Definition initialize {H} (self : t H) (f : Value.t → result unit ToolError.t) : t H :=
  Mk (descriptor self) (handlers self) (Some f) (shutdown self).

Definition shutdown {H} (self : t H) (f : result unit ToolError.t) : t H :=
  Mk (descriptor self) (handlers self) (ToolPackage.initialize self) (Some f).

Definition build `{HashOrder} {H} (self : t H) : result (t H) PackageError :=
  let? _ := validate self in Ok self.
End PackageBuilder.

(** ** Execution *)

Module ExecutionConfig.
Record t := Mk { default_timeout_ms : Z; max_timeout_ms : Z; max_result_bytes : Z }.

Definition default : t := Mk 30000 300000 1048576.
End ExecutionConfig.

Module ExecutionOptions.
(** The cancellation token is represented by whether it is cancelled when the call
    starts; a missing token is a fresh one. *)
Record t := Mk {
  timeout_ms : option Z;
  workspace_id : option WorkspaceId;
  cancelled : bool;
}.
End ExecutionOptions.

Module ToolContext.
Record t := Mk {
  tool_name : string;
  capability_name : string;
  workspace_id : option WorkspaceId;
  config : Value.t;
  timeout_ms : Z;
}.
End ToolContext.

(** What a caught panic carries. *)
Inductive panic_payload := StrPayload (s : string) | StringPayload (s : string) | OtherPayload.

(** Which branch of the [select!] completes: the handler, with a result or by
    panicking, the timer, or the cancellation of the token. *)
Inductive completion :=
| Returned (r : result Value.t ToolError.t)
| Panicked (p : panic_payload)
| TimerFired
| TokenCancelled.

Module Execution.
Definition resolve_timeout (invocation capability : option Z) (config : ExecutionConfig.t) : Z :=
  let base := match invocation with
              | Some ms => ms
              | None => match capability with
                        | Some ms => ms
                        | None => ExecutionConfig.default_timeout_ms config
                        end
              end in
  Z.min base (ExecutionConfig.max_timeout_ms config).

(** The branches of the [select!]; [None] is a panic of the code itself, which the
    slice in the truncation can cause. *)
Definition invoke_with_timeout (cancelled : bool) (timeout_ms : Z) (first : completion)
    : option (result Value.t ToolError.t) :=
  if cancelled then Some (Err ToolError.cancelled) else
  match first with
  | Returned r => Some r
  | Panicked payload =>
      let msg := match payload with
                 | StrPayload s | StringPayload s => s
                 | OtherPayload => "handler panicked"
                 end in
      match truncate_4096 msg with
      | Some truncated => Some (Err (ToolError.internal truncated))
      | None => None
      end
  | TimerFired =>
      Some (Err (ToolError.timeout
        ("handler exceeded timeout of " +:+ pretty (Z.to_N timeout_ms) +:+ "ms")))
  | TokenCancelled => Some (Err ToolError.cancelled)
  end.

Section execute.
Context `{JsonLib}.

Definition validate_input (args schema : Value.t) : option (result unit ToolError.t) :=
  result_map_err (λ e, ToolError.validation ("input validation failed: " +:+ e))
    <$> jsonschema_validate schema args.

Definition check_result_size (v : Value.t) (max_bytes : Z) : result unit ToolError.t :=
  let size := default 0 (to_vec_len v) in
  if max_bytes <? size then
    Err (ToolError.execution
      ("result size (" +:+ pretty (Z.to_N size) +:+ " bytes) exceeds maximum ("
       +:+ pretty (Z.to_N max_bytes) +:+ " bytes)") false)
  else Ok tt.

(** [handler] says what the handler and the timers do on a context and arguments. *)
Definition execute (handler : ToolContext.t → Value.t → completion) (capability : Capability.t)
    (tool_name : string) (config : Value.t) (framework_config : ExecutionConfig.t)
    (args : Value.t) (opts : ExecutionOptions.t) : option (result Value.t ToolError.t) :=
  match validate_input args (Capability.input_schema capability) with
  | None => None
  | Some (Err e) => Some (Err e)
  | Some (Ok _) =>
      let timeout_ms := resolve_timeout (ExecutionOptions.timeout_ms opts)
                          (Capability.timeout_ms capability) framework_config in
      let ctx := ToolContext.Mk tool_name (Capability.name capability)
                   (ExecutionOptions.workspace_id opts) config timeout_ms in
      match invoke_with_timeout (ExecutionOptions.cancelled opts) timeout_ms (handler ctx args) with
      | None => None
      | Some (Err e) => Some (Err e)
      | Some (Ok v) =>
          Some (let? _ := check_result_size v (ExecutionConfig.max_result_bytes framework_config) in Ok v)
      end
  end.
End execute.
End Execution.

(** ** Sandbox policy *)

Module SandboxLevel.
Inductive t : Set := None_ | Process | Container.
End SandboxLevel.

Definition select_policy (side_effects : bool) (deployer_override : option SandboxLevel.t)
    : SandboxLevel.t :=
  match deployer_override with
  | Some level => level
  | None => if side_effects then SandboxLevel.Process else SandboxLevel.None_
  end.

(** The answer for a child process that ran to its end within the timeout: exit
    status, stdout parsed as JSON, and the texts used for the error. *)
Definition process_output (success : bool) (stdout stderr status : string)
    (parsed : result Value.t string) : option (result Value.t ToolError.t) :=
  if success then
    Some (result_map_err (λ e, ToolError.internal ("process output is not valid JSON: " +:+ e)) parsed)
  else
    let message := if negb (bool_decide (stderr = "")) then stderr
                   else if negb (bool_decide (stdout = "")) then stdout
                   else "process exited with status: " +:+ status in
    match truncate_4096 message with
    | Some truncated => Some (Err (ToolError.internal truncated))
    | None => None
    end.

(** ** Registry *)

Module RegistryConfig.
Record t := Mk {
  tool_configs : gmap string Value.t;
  execution : ExecutionConfig.t;
  default_concurrency : ConcurrencyConfig.t;
  default_circuit_breaker : CircuitBreakerConfig.t;
}.
End RegistryConfig.

Module RegisteredTool.
Record t (Sem H : Type) := Mk {
  descriptor : ToolDescriptor.t;
  handlers : gmap string H;
  config : Value.t;
  circuit_breaker : CircuitBreaker.t;
  concurrency : ConcurrencyLimiter.t Sem;
}.

Arguments Mk {Sem H} descriptor handlers config circuit_breaker concurrency.
Arguments descriptor {Sem H} t.
Arguments handlers {Sem H} t.
Arguments config {Sem H} t.
Arguments circuit_breaker {Sem H} t.
Arguments concurrency {Sem H} t.

Definition with_breaker {Sem H} (b : CircuitBreaker.t) (self : t Sem H) : t Sem H :=
  Mk (descriptor self) (handlers self) (config self) b (concurrency self).
End RegisteredTool.

Inductive RegistryError :=
| Package (e : PackageError)
| DuplicateName (name : string)
| NotFound (name : string)
| InitializeFailed (name : string) (error : ToolError.t).

Module ToolRegistry.
Record t (Sem H : Type) := Mk {
  tools : gmap string (RegisteredTool.t Sem H);
  config : RegistryConfig.t;
}.

Arguments Mk {Sem H} tools config.
Arguments tools {Sem H} t.
Arguments config {Sem H} t.

Section registry.
Context {Sem H : Type} `{Semaphore Sem} `{HashOrder} `{JsonLib}.

Definition new (config : RegistryConfig.t) : t Sem H := Mk ∅ config.

(** [None] when the schema is not a valid one, which panics. *)
Definition register (self : t Sem H) (package : ToolPackage.t H)
    : t Sem H * option (result unit RegistryError) :=
  match ToolPackage.validate package with
  | Err e => (self, Some (Err (Package e)))
  | Ok _ =>
  let name := ToolDescriptor.name (ToolPackage.descriptor package) in
  if decide (is_Some (tools self !! name)) then (self, Some (Err (DuplicateName name))) else
  let tool_config := default (Value.Object []) (RegistryConfig.tool_configs (config self) !! name) in
  match match ToolDescriptor.config_schema (ToolPackage.descriptor package) with
        | Some schema => jsonschema_validate schema tool_config
        | None => Some (Ok tt)
        end with
  | None => (self, None)
  | Some (Err reason) => (self, Some (Err (Package (InvalidConfig reason))))
  | Some (Ok _) =>
  match match ToolPackage.initialize package with
        | Some init => init tool_config
        | None => Ok tt
        end with
  | Err e => (self, Some (Err (InitializeFailed name e)))
  | Ok _ =>
      (Mk (<[name := RegisteredTool.Mk (ToolPackage.descriptor package) (ToolPackage.handlers package)
                       tool_config
                       (CircuitBreaker.new (RegistryConfig.default_circuit_breaker (config self)))
                       (ConcurrencyLimiter.new (RegistryConfig.default_concurrency (config self)))]>
           (tools self)) (config self), Some (Ok tt))
  end end end.

Definition unregister (self : t Sem H) (name : string) : t Sem H * result unit RegistryError :=
  match tools self !! name with
  | Some _ => (Mk (delete name (tools self)) (config self), Ok tt)
  | None => (self, Err (NotFound name))
  end.

(** The lookups of [execute]. *)
Definition lookup_handler (self : t Sem H) (tool_name capability_name : string)
    : result (RegisteredTool.t Sem H * Capability.t * H) ToolError.t :=
  let? tool := ok_or (tools self !! tool_name)
                 (ToolError.validation ("tool '" +:+ tool_name +:+ "' not found")) in
  let? capability := ok_or (ToolDescriptor.capability (RegisteredTool.descriptor tool) capability_name)
                 (ToolError.validation ("capability '" +:+ capability_name +:+ "' not found in tool '"
                                        +:+ tool_name +:+ "'")) in
  let? handler := ok_or (RegisteredTool.handlers tool !! capability_name)
                 (ToolError.internal ("handler missing for capability '" +:+ capability_name
                                      +:+ "' — registry inconsistency")) in
  Ok (tool, capability, handler).

Definition set_breaker (self : t Sem H) (tool_name : string) (b : CircuitBreaker.t) : t Sem H :=
  Mk (alter (RegisteredTool.with_breaker b) tool_name (tools self)) (config self).

(** The report to the circuit breaker. *)
Definition report (b : CircuitBreaker.t) (r : result Value.t ToolError.t) (now : Z)
    : CircuitBreaker.t * option unit :=
  match r with
  | Ok _ => CircuitBreaker.record_success b
  | Err e =>
      match ToolError.code e with
      | ToolErrorCode.Timeout | ToolErrorCode.ExecutionFailed | ToolErrorCode.InternalError =>
          CircuitBreaker.record_failure b now
      | _ => (b, Some tt)
      end
  end.

(** What a call meets outside the registry: when it is checked and reported, what
    [ConcurrencyLimiter::acquire] answers among the other calls of the tool, and what
    the handler does.  The permit goes back when the call ends. *)
Record env := {
  checked_at : Z;
  acquired : result unit ToolError.t;
  handler_runs : H → ToolContext.t → Value.t → completion;
  reported_at : Z;
}.

(** [None] when the engine or the breaker panics. *)
Definition execute (self : t Sem H) (tool_name capability_name : string) (args : Value.t)
    (opts : ExecutionOptions.t) (v : env) : t Sem H * option (result Value.t ToolError.t) :=
  match lookup_handler self tool_name capability_name with
  | Err e => (self, Some (Err e))
  | Ok (tool, capability, handler) =>
      let '(b, admitted) := CircuitBreaker.check (RegisteredTool.circuit_breaker tool) (checked_at v) in
      let self := set_breaker self tool_name b in
      match admitted with
      | None => (self, None)
      | Some (Err e) => (self, Some (Err e))
      | Some (Ok _) =>
          match acquired v with
          | Err e => (self, Some (Err e))
          | Ok _ =>
              match Execution.execute (handler_runs v handler) capability tool_name
                      (RegisteredTool.config tool) (RegistryConfig.execution (config self)) args opts with
              | None => (self, None)
              | Some r =>
                  let '(b, told) := report b r (reported_at v) in
                  (set_breaker self tool_name b, match told with Some _ => Some r | None => None end)
              end
          end
      end
  end.
End registry.
End ToolRegistry.

(** ** Descriptors, exactly *)

Definition name_ok (n : string) : Prop :=
  n ≠ "" ∧ str_len n ≤ 64 ∧ Forall (λ c, Is_true (name_char c)) (chars n)
  ∧ head (chars n) ≠ Some "_"%char ∧ last (chars n) ≠ Some "_"%char.

Definition version_ok (v : string) : Prop :=
  length (split_on "."%char v) = 3%nat ∧ Forall (λ p, is_Some (parse_u32 p)) (split_on "."%char v).

Definition schema_ok (schema : Value.t) : Prop :=
  match schema with
  | Value.Object m => ∃ k, k ∈ ["type"; "$ref"; "oneOf"; "anyOf"; "allOf"] ∧ k ∈ m.*1
  | Value.Bool _ => True
  | _ => False
  end.

Record capability_ok (c : Capability.t) : Prop := {
  co_name : name_ok (Capability.name c);
  co_description : Capability.description c ≠ "";
  co_schema : schema_ok (Capability.input_schema c);
}.

Record descriptor_ok (d : ToolDescriptor.t) : Prop := {
  do_name : name_ok (ToolDescriptor.name d);
  do_version : version_ok (ToolDescriptor.version d);
  do_nonempty : ToolDescriptor.capabilities d ≠ [];
  do_unique : NoDup (Capability.name <$> ToolDescriptor.capabilities d);
  do_capabilities : Forall capability_ok (ToolDescriptor.capabilities d);
  do_config : ∀ schema, ToolDescriptor.config_schema d = Some schema → schema_ok schema;
}.

Lemma forallb_Forall {A} (f : A → bool) l : forallb f l = true ↔ Forall (λ x, Is_true (f x)) l.
Proof.
  induction l as [|x l IH]; cbn; [by rewrite Forall_nil|].
  by rewrite andb_true_iff, Forall_cons, IH, Is_true_true.
Qed.

Lemma validate_name_ok n : validate_name n = Ok tt ↔ name_ok n.
Proof.
  unfold validate_name, name_ok. case_bool_decide as H1; [naive_solver|].
  destruct (Z.ltb_spec 64 (str_len n)) as [|H2]; [naive_solver lia|].
  destruct (forallb name_char (chars n)) eqn:H3; cbn.
  2: { split; [done|]. intros (_ & _ & H & _). apply forallb_Forall in H. congruence. }
  apply forallb_Forall in H3. case_bool_decide as H4; [naive_solver|].
  case_bool_decide as H5; cbn; naive_solver.
Qed.

Lemma map_err_ok {A E F} (f : E → F) (r : result A E) a : result_map_err f r = Ok a ↔ r = Ok a.
Proof. destruct r; naive_solver. Qed.

Lemma parse_u32_nonempty p : is_Some (parse_u32 p) → p ≠ "".
Proof. intros [n Hn] ->. done. Qed.

Lemma validate_version_ok v : validate_version v = Ok tt ↔ version_ok v.
Proof.
  unfold validate_version, version_ok. destruct (Nat.eqb_spec (length (split_on "."%char v)) 3) as [H|H]; cbn.
  2: { naive_solver. }
  rewrite for_each_ok. split.
  - intros Hp. split; [done|]. eapply Forall_impl; [done|]. intros p.
    cbv beta. repeat (case_bool_decide; cbn); done.
  - intros [_ Hp]. eapply Forall_impl; [done|]. intros p Hs. pose proof (parse_u32_nonempty p Hs).
    rewrite bool_decide_eq_false_2 by done. by rewrite bool_decide_eq_true_2.
Qed.

Lemma validate_schema_ok schema : validate_json_schema schema = Ok tt ↔ schema_ok schema.
Proof.
  destruct schema as [|b|n|s|l|m]; try done. unfold validate_json_schema, schema_ok, Value.contains_key.
  repeat case_bool_decide; cbn;
    first [ split; [done|intros (k & Hk & Hm); exfalso; set_solver]
          | split; [intros _; eexists; split; [|eassumption]; set_solver|done] ].
Qed.

Lemma validate_capability_ok c : Capability.validate c = Ok tt ↔ capability_ok c.
Proof.
  unfold Capability.validate. rewrite let_ok, map_err_ok, validate_name_ok.
  case_bool_decide as Hd.
  - split; [naive_solver|]. intros []. done.
  - rewrite map_err_ok, validate_schema_ok. split; [intros []; by constructor|intros []; done].
Qed.

Lemma validate_capabilities_ok seen caps :
  ToolDescriptor.validate_capabilities seen caps = Ok tt
  ↔ NoDup (Capability.name <$> caps) ∧ (∀ c, c ∈ caps → Capability.name c ∉ seen) ∧ Forall capability_ok caps.
Proof.
  revert seen. induction caps as [|c caps IH]; intros seen; cbn [ToolDescriptor.validate_capabilities].
  - split; [intros _; split_and!; [constructor|set_solver|constructor]|done].
  - rewrite fmap_cons, NoDup_cons, Forall_cons. case_decide as Hs.
    + split; [done|]. intros (_ & Hn & _). by destruct (Hn c (list_elem_of_here _ _)).
    + rewrite let_ok, validate_capability_ok, IH. split.
      * intros (Hc & Hnd & Hn & Hall). split_and!; try done.
        -- intros (c' & He & Hin)%list_elem_of_fmap. specialize (Hn c' Hin). set_solver.
        -- intros c' [->|Hin]%elem_of_cons; [done|]. specialize (Hn c' Hin). set_solver.
      * intros ((Hnin & Hnd) & Hn & Hc & Hall). split_and!; try done.
        intros c' Hin. rewrite not_elem_of_union, not_elem_of_singleton. split.
        -- intros He. apply Hnin. apply list_elem_of_fmap. eauto.
        -- apply Hn. by apply list_elem_of_further.
Qed.

Lemma validate_descriptor_ok d : ToolDescriptor.validate d = Ok tt ↔ descriptor_ok d.
Proof.
  unfold ToolDescriptor.validate.
  rewrite !let_ok, validate_name_ok, validate_version_ok, validate_capabilities_ok.
  assert (match ToolDescriptor.config_schema d with
          | Some schema => result_map_err InvalidConfigSchema (validate_json_schema schema)
          | None => Ok tt
          end = Ok tt ↔ ∀ schema, ToolDescriptor.config_schema d = Some schema → schema_ok schema) as ->.
  { destruct (ToolDescriptor.config_schema d) as [s|]; [|naive_solver].
    rewrite map_err_ok, validate_schema_ok. naive_solver. }
  split.
  - intros (? & ? & ? & (? & _ & ?) & ?). constructor; try done. by destruct (ToolDescriptor.capabilities d).
  - intros []. split_and!; try done. by destruct (ToolDescriptor.capabilities d).
Qed.

(** ** The registry over its histories *)

Section registry_theorems.
Context {Sem H : Type} `{Semaphore Sem} `{HashOrder} `{JsonLib}.
Import ToolRegistry.
Implicit Types (r : t Sem H) (tool : RegisteredTool.t Sem H).

Inductive registry_op :=
| Register (package : ToolPackage.t H)
| Unregister (name : string)
| Execute (tool_name capability_name : string) (args : Value.t) (opts : ExecutionOptions.t) (v : @env H).

Definition registry_step (r : t Sem H) (o : registry_op) : t Sem H :=
  match o with
  | Register package => (register r package).1
  | Unregister name => (unregister r name).1
  | Execute tn cn args opts v => (execute r tn cn args opts v).1
  end.

Definition registry_run (r : t Sem H) (h : list registry_op) : t Sem H := fold_left registry_step h r.

(** A registered tool: its key is its name, its descriptor is valid, its
    configuration fits its schema, and it has a handler for exactly the capabilities
    it declares. *)
Record tool_ok (name : string) (tool : RegisteredTool.t Sem H) : Prop := {
  to_name : ToolDescriptor.name (RegisteredTool.descriptor tool) = name;
  to_descriptor : descriptor_ok (RegisteredTool.descriptor tool);
  to_config : ∀ schema, ToolDescriptor.config_schema (RegisteredTool.descriptor tool) = Some schema →
    jsonschema_validate schema (RegisteredTool.config tool) = Some (Ok tt);
  to_handlers : ∀ cn, is_Some (RegisteredTool.handlers tool !! cn)
    ↔ cn ∈ Capability.name <$> ToolDescriptor.capabilities (RegisteredTool.descriptor tool);
}.

Definition registry_ok r : Prop := ∀ name tool, tools r !! name = Some tool → tool_ok name tool.

Lemma capability_find d cn :
  is_Some (ToolDescriptor.capability d cn) ↔ cn ∈ Capability.name <$> ToolDescriptor.capabilities d.
Proof.
  unfold ToolDescriptor.capability. rewrite list_elem_of_fmap.
  induction (ToolDescriptor.capabilities d) as [|c l IH]; cbn.
  - split; [by intros []|set_solver].
  - case_bool_decide as Hc; [split; [intros _; exists c; set_solver|done]|].
    rewrite IH. set_solver.
Qed.

Lemma validate_package_ok (p : ToolPackage.t H) :
  ToolPackage.validate p = Ok tt →
  descriptor_ok (ToolPackage.descriptor p)
  ∧ ∀ cn, is_Some (ToolPackage.handlers p !! cn)
      ↔ cn ∈ Capability.name <$> ToolDescriptor.capabilities (ToolPackage.descriptor p).
Proof.
  unfold ToolPackage.validate. rewrite !let_ok, map_err_ok, validate_descriptor_ok, !for_each_ok, !Forall_forall.
  intros (Hd & Hcaps & Hkeys). split; [done|]. intros cn. split.
  - intros [hd Hh]. specialize (Hkeys cn). rewrite <-capability_find.
    destruct (ToolDescriptor.capability _ cn); [done|]. discriminate Hkeys.
    apply list_elem_of_fmap. exists (cn, hd). split; [done|]. by apply elem_of_hash_iter.
  - intros (c & -> & Hin)%list_elem_of_fmap. specialize (Hcaps c Hin). by case_decide.
Qed.

Lemma set_breaker_ok r tn b : registry_ok r → registry_ok (set_breaker r tn b).
Proof.
  intros Hr name tool. unfold set_breaker. cbn. rewrite lookup_alter_Some.
  intros [(<- & tool' & Ht & ->)|[_ Ht]]; [|by apply Hr].
  destruct (Hr _ _ Ht). by constructor.
Qed.

Lemma register_ok r p : registry_ok r → registry_ok (register r p).1.
Proof.
  intros Hr. unfold register. destruct (ToolPackage.validate p) as [[]|] eqn:Hv; [|done].
  case_decide as Hn; [done|]. cbv zeta.
  destruct (match ToolDescriptor.config_schema _ with Some _ => _ | None => _ end) as [[[]|]|] eqn:Hc; [|done..].
  destruct (match ToolPackage.initialize p with Some _ => _ | None => _ end); [|done].
  apply validate_package_ok in Hv as [Hd Hh]. cbn. intros name tool. cbn.
  rewrite lookup_insert_Some. intros [[<- <-]|[_ Ht]]; [|by apply Hr].
  constructor; cbn; try done. intros schema Hs. by rewrite Hs in Hc.
Qed.

Lemma unregister_ok r name : registry_ok r → registry_ok (unregister r name).1.
Proof.
  intros Hr. unfold unregister. destruct (tools r !! name); [|done].
  intros n tool. cbn. rewrite lookup_delete_Some. intros [_ Ht]. by apply Hr.
Qed.

Lemma execute_registry_ok r tn cn args opts v : registry_ok r → registry_ok (execute r tn cn args opts v).1.
Proof.
  intros Hr. unfold execute. destruct (lookup_handler r tn cn) as [[[tool cap] hd]|]; [|done].
  destruct (CircuitBreaker.check _ _) as [b [[[]|]|]]; cbn; [|by apply set_breaker_ok..].
  destruct (acquired v); [|by apply set_breaker_ok].
  destruct (Execution.execute _ _ _ _ _ _ _) as [r0|]; cbn; [|by apply set_breaker_ok].
  destruct (report b r0 (reported_at v)). by repeat apply set_breaker_ok.
Qed.

Lemma registry_run_ok h r : registry_ok r → registry_ok (registry_run r h).
Proof.
  intros Hr0. unfold registry_run. apply fold_left_inv; [|done]. intros r' [p|name|tn cn args opts v] _ Hr; cbn.
  - by apply register_ok.
  - by apply unregister_ok.
  - by apply execute_registry_ok.
Qed.

(** C33. Type invariant of the registry.  After any history of registrations,
    removals and executions, every registered tool is stored under its own name, has
    a valid descriptor and a configuration its schema accepts, and has a handler for
    exactly the capabilities it declares.  So [execute] finds a handler exactly for
    the declared capabilities of registered tools, a failed lookup is always a
    validation error, and the internal error for a registry inconsistency cannot
    occur. *)
Theorem registry_invariant (cfg : RegistryConfig.t) (h : list registry_op) :
  let r := registry_run (new cfg) h in
  registry_ok r
  ∧ (∀ tn cn, (∃ found, lookup_handler r tn cn = Ok found)
      ↔ ∃ tool, tools r !! tn = Some tool
                ∧ cn ∈ Capability.name <$> ToolDescriptor.capabilities (RegisteredTool.descriptor tool))
  ∧ ∀ tn cn e, lookup_handler r tn cn = Err e → ToolError.code e = ToolErrorCode.ValidationFailed.
Proof.
  cbv zeta. set (r := registry_run (new cfg) h).
  assert (registry_ok r) as Hr by (by apply registry_run_ok). split; [done|].
  assert (∀ tn tool cn, tools r !! tn = Some tool →
    is_Some (RegisteredTool.handlers tool !! cn)
    ↔ is_Some (ToolDescriptor.capability (RegisteredTool.descriptor tool) cn)) as Hboth.
  { intros tn tool cn Ht. rewrite capability_find. apply (to_handlers _ _ (Hr _ _ Ht)). }
  split.
  - intros tn cn. unfold lookup_handler. destruct (tools r !! tn) as [tool|] eqn:Ht; cbn; [|naive_solver].
    specialize (Hboth tn tool cn Ht).
    assert ((∃ tool', Some tool = Some tool'
              ∧ cn ∈ Capability.name <$> ToolDescriptor.capabilities (RegisteredTool.descriptor tool'))
            ↔ is_Some (ToolDescriptor.capability (RegisteredTool.descriptor tool) cn)) as ->
      by (rewrite capability_find; naive_solver).
    destruct (ToolDescriptor.capability _ cn); cbn; [|split; [by intros []|by intros []]].
    destruct (RegisteredTool.handlers tool !! cn); cbn; [by split; eauto|].
    destruct Hboth as [_ Hb]. by destruct Hb.
  - intros tn cn e. unfold lookup_handler. destruct (tools r !! tn) as [tool|] eqn:Ht; cbn; [|by intros [= <-]].
    specialize (Hboth tn tool cn Ht). destruct (ToolDescriptor.capability _ cn); cbn; [|by intros [= <-]].
    destruct (RegisteredTool.handlers tool !! cn); cbn; [done|]. destruct Hboth as [_ Hb]. by destruct Hb.
Qed.

(** *** A probe that is not reported *)

Definition wedged (tn : string) r : Prop :=
  ∃ tool, tools r !! tn = Some tool
    ∧ CircuitBreakerConfig.enabled (CircuitBreaker.config (RegisteredTool.circuit_breaker tool)) = true
    ∧ CircuitBreaker.status (RegisteredTool.circuit_breaker tool) = Some BreakerStatus.HalfOpen.

(** The answers after which [execute] does not call the breaker. *)
Definition unreported (a : option (result Value.t ToolError.t)) : bool :=
  match a with
  | None => true
  | Some (Ok _) => false
  | Some (Err e) =>
      match ToolError.code e with
      | ToolErrorCode.ValidationFailed | ToolErrorCode.Unavailable | ToolErrorCode.Overloaded
      | ToolErrorCode.Cancelled => true
      | _ => false
      end
  end.

Lemma report_unreported b a now : unreported (Some a) → report b a now = (b, Some tt).
Proof.
  destruct a as [|[c m rt]]; cbn; [done|]. by destruct c.
Qed.

Lemma lookup_handler_tool r tn cn tool cap hd :
  lookup_handler r tn cn = Ok (tool, cap, hd) → tools r !! tn = Some tool.
Proof.
  unfold lookup_handler. destruct (tools r !! tn); cbn; [|done].
  destruct (ToolDescriptor.capability _ cn); cbn; [|done].
  destruct (RegisteredTool.handlers _ !! cn); cbn; congruence.
Qed.

Lemma check_half_open b now :
  CircuitBreakerConfig.enabled (CircuitBreaker.config b) = true →
  CircuitBreaker.status b = Some BreakerStatus.HalfOpen →
  CircuitBreaker.check b now
  = (b, Some (Err (ToolError.unavailable "circuit breaker half-open, probe in progress"))).
Proof.
  unfold CircuitBreaker.status, CircuitBreaker.check. intros ->. destruct (CircuitBreaker.poisoned b); [done|].
  by intros [= ->].
Qed.

(** A report to a half-open breaker does not panic. *)
Lemma report_half_open b a now :
  CircuitBreaker.status b = Some BreakerStatus.HalfOpen → (report b a now).2 = Some tt.
Proof.
  unfold CircuitBreaker.status, report, CircuitBreaker.record_success, CircuitBreaker.record_failure.
  destruct (CircuitBreaker.poisoned b); [done|]. intros [= Hs]. rewrite Hs.
  repeat case_match; done.
Qed.

Lemma set_breaker_lookup r tn b tool :
  tools r !! tn = Some tool → tools (set_breaker r tn b) !! tn = Some (RegisteredTool.with_breaker b tool).
Proof. intros Ht. unfold set_breaker. cbn. by rewrite lookup_alter_eq, Ht. Qed.

Lemma set_breaker_wedged r tn tn' b :
  wedged tn r → (tn' = tn → ∃ tool, tools r !! tn = Some tool ∧ b = RegisteredTool.circuit_breaker tool) →
  wedged tn (set_breaker r tn' b).
Proof.
  intros (tool & Ht & He & Hs) Hb. destruct (decide (tn' = tn)) as [->|Hne].
  - destruct (Hb eq_refl) as (tool' & Ht' & ->). simplify_eq.
    eexists. rewrite (set_breaker_lookup _ _ _ _ Ht). by cbn.
  - exists tool. unfold set_breaker. cbn. by rewrite lookup_alter_ne.
Qed.

Lemma wedged_execute tn r cn args opts v :
  wedged tn r →
  wedged tn (execute r tn cn args opts v).1
  ∧ ∃ e, (execute r tn cn args opts v).2 = Some (Err e)
         ∧ (is_ok (lookup_handler r tn cn) → ToolError.code e = ToolErrorCode.Unavailable).
Proof.
  intros Hw. unfold execute. destruct (lookup_handler r tn cn) as [[[tool cap] hd]|e] eqn:Hl.
  2: { split; [done|]. exists e. done. }
  apply lookup_handler_tool in Hl. pose proof Hw as (tool' & Ht & He & Hs). rewrite Hl in Ht. simplify_eq.
  rewrite check_half_open by done. cbn. split; [|by eexists].
  apply set_breaker_wedged; [done|]. eauto.
Qed.

Lemma wedged_step tn r o : wedged tn r → o ≠ Unregister tn → wedged tn (registry_step r o).
Proof.
  intros Hw Ho. destruct o as [p|name|tn' cn args opts v]; cbn.
  - unfold register. destruct (ToolPackage.validate p); [|done]. case_decide as Hn; [done|]. cbv zeta.
    destruct (match ToolDescriptor.config_schema _ with Some _ => _ | None => _ end) as [[]|]; [|done..].
    destruct (match ToolPackage.initialize p with Some _ => _ | None => _ end); [|done].
    destruct Hw as (tool & Ht & Hrest). exists tool. split; [|done]. cbn.
    rewrite lookup_insert_ne; [done|]. intros Heq. apply Hn. rewrite Heq, Ht. by eexists.
  - destruct Hw as (tool & Ht & Hrest). unfold unregister. case_match; [|by exists tool].
    exists tool. cbn. rewrite lookup_delete_ne by congruence. done.
  - destruct (decide (tn' = tn)) as [->|Hne]; [by apply wedged_execute|].
    unfold execute. repeat case_match; try done; repeat apply set_breaker_wedged; done.
Qed.

Lemma wedged_run tn h r : wedged tn r → Forall (λ o, o ≠ Unregister tn) h → wedged tn (registry_run r h).
Proof.
  revert r. induction h as [|o h IH]; intros r Hw Hh; [done|]. apply Forall_cons in Hh as [Ho Hh].
  apply IH; [by apply wedged_step|done].
Qed.

(** The breaker of a tool is open, since [since]. *)
Definition open_since (tn : string) (since : Z) r : Prop :=
  ∃ tool, tools r !! tn = Some tool
    ∧ CircuitBreakerConfig.enabled (CircuitBreaker.config (RegisteredTool.circuit_breaker tool)) = true
    ∧ CircuitBreaker.status (RegisteredTool.circuit_breaker tool) = Some BreakerStatus.Open
    ∧ BreakerState.opened_at (CircuitBreaker.state (RegisteredTool.circuit_breaker tool)) = Some since.

Definition breaker_cooldown r (tn : string) : Z :=
  match tools r !! tn with
  | Some tool => CircuitBreakerConfig.cooldown (CircuitBreaker.config (RegisteredTool.circuit_breaker tool))
  | None => 0
  end.

Lemma probe_wedges r tn cn args opts v since :
  open_since tn since r →
  breaker_cooldown r tn ≤ duration_since (checked_at v) since →
  is_ok (lookup_handler r tn cn) →
  unreported (execute r tn cn args opts v).2 →
  wedged tn (execute r tn cn args opts v).1.
Proof.
  unfold breaker_cooldown. intros (tool & Ht & He & Hs & Hat) Hcool Hok. rewrite Ht in Hcool. unfold execute.
  destruct (lookup_handler r tn cn) as [[[tool' cap] hd]|] eqn:Hl; [|done].
  apply lookup_handler_tool in Hl. rewrite Ht in Hl. simplify_eq.
  unfold CircuitBreaker.check. unfold CircuitBreaker.status in Hs. rewrite He.
  destruct (CircuitBreaker.poisoned _) eqn:Hpo; [done|]. injection Hs as Hs. rewrite Hs, Hat. cbn.
  rewrite (proj2 (Z.leb_le _ _)) by done. set (b := CircuitBreaker.with_state _ _).
  assert (CircuitBreaker.status b = Some BreakerStatus.HalfOpen) as Hhalf.
  { unfold CircuitBreaker.status. cbn. by rewrite Hpo. }
  assert (wedged tn (set_breaker r tn b)) as Hw.
  { eexists. rewrite (set_breaker_lookup _ _ _ _ Ht). by cbn. }
  destruct (acquired v) as [[]|]; [|done].
  destruct (Execution.execute _ _ _ _ _ _ _) as [a|]; [|done]. cbn.
  pose proof (report_half_open b a (reported_at v) Hhalf) as Htold. destruct (report b a _) as [b' told] eqn:Hrep.
  cbn in Htold |- *. subst told. intros Hun. rewrite report_unreported in Hrep by done. injection Hrep as <-.
  apply set_breaker_wedged; [done|]. intros _. eexists. by rewrite (set_breaker_lookup _ _ _ _ Ht).
Qed.

(** Once a circuit breaker has opened and its cooldown has passed, the next call is
    the probe.  If that call ends in a way the registry does not report (arguments the
    schema rejects, a cancelled call, no permit, a panic in the registry's own code),
    the breaker stays half-open: after any further history in which the tool is not
    removed, every call of one of its capabilities is refused as unavailable, so the
    tool never recovers. *)
Theorem unreported_probe_wedges r tn cn args opts (v : env) since (h : list registry_op) cn' args' opts' v' :
  open_since tn since r →
  breaker_cooldown r tn ≤ duration_since (checked_at v) since →
  is_ok (lookup_handler r tn cn) →
  unreported (execute r tn cn args opts v).2 →
  Forall (λ o, o ≠ Unregister tn) h →
  let r' := registry_run (execute r tn cn args opts v).1 h in
  is_ok (lookup_handler r' tn cn') →
  ∃ e, (execute r' tn cn' args' opts' v').2 = Some (Err e) ∧ ToolError.code e = ToolErrorCode.Unavailable.
Proof.
  intros Hopen Hcool Hok Hun Hh r' Hok'.
  destruct (wedged_execute tn r' cn' args' opts' v') as (_ & e & He & Hcode).
  - apply wedged_run; [|done]. by apply (probe_wedges r tn cn args opts v since).
  - exists e. auto.
Qed.
End registry_theorems.

(** ** Execution, exactly *)

Section execution_theorems.
Context `{JsonLib}.

(** The context a call is given. *)
Definition call_context (capability : Capability.t) (tool_name : string) (config : Value.t)
    (fc : ExecutionConfig.t) (opts : ExecutionOptions.t) : ToolContext.t :=
  ToolContext.Mk tool_name (Capability.name capability) (ExecutionOptions.workspace_id opts) config
    (Execution.resolve_timeout (ExecutionOptions.timeout_ms opts) (Capability.timeout_ms capability) fc).

Definition panic_text (p : panic_payload) : string :=
  match p with StrPayload s | StringPayload s => s | OtherPayload => "handler panicked" end.

Lemma truncate_4096_None s :
  truncate_4096 s = None ↔ 4096 < str_len s ∧ is_char_boundary s 4093 = false.
Proof.
  unfold truncate_4096, slice_to. destruct (Z.ltb_spec 4096 (str_len s)) as [Hlt|Hle].
  - destruct (is_char_boundary s 4093); naive_solver.
  - split; [done|lia].
Qed.

Lemma check_result_size_ok v max : Execution.check_result_size v max = Ok tt ↔ default 0 (to_vec_len v) ≤ max.
Proof.
  unfold Execution.check_result_size. cbv zeta.
  destruct (Z.ltb_spec max (default 0 (to_vec_len v))); split; try done; lia.
Qed.

(** Execution of a handler.  The handler gets a context whose timeout is at most
    the configured maximum.  The caller gets a value exactly when the arguments fit the
    input schema, the token was not cancelled, the handler returned that value first,
    and its serialised size is within the limit.  A panic of the handler comes back as
    an internal error of at most 4096 bytes.  The engine panics itself exactly when the
    input schema is not a valid schema, or the text is longer than that and byte 4093 is
    inside a character. *)
Theorem execution_exact (handler : ToolContext.t → Value.t → completion) (capability : Capability.t)
    (tool_name : string) (config : Value.t) (fc : ExecutionConfig.t) (args : Value.t)
    (opts : ExecutionOptions.t) :
  let ctx := call_context capability tool_name config fc opts in
  let answer := Execution.execute handler capability tool_name config fc args opts in
  let starts := jsonschema_validate (Capability.input_schema capability) args = Some (Ok tt)
                ∧ ExecutionOptions.cancelled opts = false in
  ToolContext.timeout_ms ctx ≤ ExecutionConfig.max_timeout_ms fc
  ∧ (∀ v, answer = Some (Ok v) ↔
       starts ∧ handler ctx args = Returned (Ok v)
       ∧ default 0 (to_vec_len v) ≤ ExecutionConfig.max_result_bytes fc)
  ∧ (answer = None ↔
       jsonschema_validate (Capability.input_schema capability) args = None
       ∨ starts ∧ ∃ p, handler ctx args = Panicked p ∧ 4096 < str_len (panic_text p)
                     ∧ is_char_boundary (panic_text p) 4093 = false)
  ∧ ∀ p e, starts → handler ctx args = Panicked p → answer = Some (Err e) →
      ToolError.code e = ToolErrorCode.InternalError ∧ str_len (ToolError.message e) ≤ 4096.
Proof.
  cbv zeta. split.
  { cbn. unfold Execution.resolve_timeout. apply Z.le_min_r. }
  unfold Execution.execute, Execution.validate_input.
  destruct (jsonschema_validate (Capability.input_schema capability) args) as [[[]|]|]; cbn; [|naive_solver..].
  fold (call_context capability tool_name config fc opts).
  set (ctx := call_context capability tool_name config fc opts).
  unfold Execution.invoke_with_timeout. destruct (ExecutionOptions.cancelled opts); [naive_solver|].
  destruct (handler ctx args) as [[v|e]|p| |]; [| naive_solver | | naive_solver..].
  - pose proof (check_result_size_ok v (ExecutionConfig.max_result_bytes fc)) as Hsz.
    destruct (Execution.check_result_size v _) as [[]|]; naive_solver.
  - fold (panic_text p). pose proof (truncate_4096_None (panic_text p)) as Hnone.
    destruct (truncate_4096 (panic_text p)) as [m|] eqn:Htr; [|naive_solver].
    pose proof (truncate_4096_len _ _ Htr). split_and!; [naive_solver..|]. intros ? ? _ _ [= <-]. done.
Qed.
End execution_theorems.

(** ** An example

    A schema that is an object accepts objects; a tool with one capability whose
    breaker opens at its first failure. *)

#[local] Instance object_schemas : JsonLib := {|
  jsonschema_validate := λ schema v,
    match schema, v with
    | Value.Object _, Value.Object _ | Value.Bool true, _ => Some (Ok tt)
    | Value.Object _, _ | Value.Bool false, _ => Some (Err "not an object")
    | _, _ => None
    end;
  to_vec_len := λ v, Some 2;
|}.

#[local] Existing Instance canonical_order.
#[local] Existing Instance count_semaphore.

Definition say : Capability.t :=
  Capability.Mk "say" "echoes" (Value.Object [("type", Value.Str "object")]) (Value.Bool true) None true false.

Definition echo : ToolPackage.t unit :=
  PackageBuilder.handler
    (PackageBuilder.new (ToolDescriptor.Mk "echo" "1.0.0" "" [say] None [])) "say" tt.

Definition echo_registry : ToolRegistry.t N unit :=
  registry_run
    (ToolRegistry.new (RegistryConfig.Mk ∅ ExecutionConfig.default ConcurrencyConfig.default
                         (CircuitBreakerConfig.Mk 1 10 5 true)))
    [Register echo].

Definition plain : ExecutionOptions.t := ExecutionOptions.Mk None None false.

Definition call_at (at_ : Z) (c : completion) : @ToolRegistry.env unit :=
  {| ToolRegistry.checked_at := at_; ToolRegistry.acquired := Ok tt;
     ToolRegistry.handler_runs := λ _ _ _, c; ToolRegistry.reported_at := at_ |}.

(** The first call times out and opens the breaker. *)
Definition opened_registry : ToolRegistry.t N unit :=
  (ToolRegistry.execute echo_registry "echo" "say" (Value.Object []) plain (call_at 0 TimerFired)).1.

(** The probe has no object for arguments; the good call long after is refused. *)
Lemma unreported_probe_wedges_witness :
  ∃ e, (ToolRegistry.execute
          (ToolRegistry.execute opened_registry "echo" "say" Value.Null plain (call_at 5 TimerFired)).1
          "echo" "say" (Value.Object []) plain (call_at 1000000 (Returned (Ok Value.Null)))).2
       = Some (Err e) ∧ ToolError.code e = ToolErrorCode.Unavailable.
Proof.
  apply (unreported_probe_wedges opened_registry "echo" "say" Value.Null plain (call_at 5 TimerFired) 0 []
           "say" (Value.Object []) plain (call_at 1000000 (Returned (Ok Value.Null)))).
  - eexists. split; [vm_compute; reflexivity|]. repeat split.
  - vm_compute. discriminate.
  - vm_compute. exact I.
  - vm_compute. exact I.
  - constructor.
  - vm_compute. exact I.
Defined.
