(* ===== verification/Llm.v ===== *)
(** * Rate limiting, retries, errors and cost of model calls (wacp-llm)

    rate_limit.rs, retry.rs, error.rs, cost.rs and the cost types of result.rs.  The
    rate limiter is shown to bound requests and tokens in every window, by the limits and
    the number of requests in flight at once, and to admit a request eventually exactly
    when its estimate is within the limit; retry delays are bounded; pricing picks the
    longest matching prefix; the cost tracker is a ledger. *)

From Stdlib Require Import Ascii.
From S2P Require Import Prelude Std.

(** ** Rate limiter *)

Module RateLimitConfig.
Record t := Mk {
  max_requests_per_window : Z;
  max_tokens_per_window : Z;
  window : Z;
}.

Definition default : t := Mk 0 0 (from_secs 60).
End RateLimitConfig.

(** [u32::saturating_add] *)
Definition saturating_add32 (a b : Z) : Z := Z.min u32_max (a + b).

Module RateLimiter.
Import RateLimitConfig.

(** The configuration and the two logs behind the mutex. *)
Record t := Mk {
  config : RateLimitConfig.t;
  request_log : list Z;
  token_log : list (Z * Z);
}.

Definition new (config : RateLimitConfig.t) : t := Mk config [] [].

(** [while front().is_some_and(|t| *t < cutoff) { pop_front(); }] *)
Fixpoint prune {A} (time : A → Z) (cutoff : Z) (log : list A) : list A :=
  match log with
  | e :: rest => if time e <? cutoff then prune time cutoff rest else e :: rest
  | [] => []
  end.

(** [self.config.window - d]: subtracting a longer duration panics. *)
Definition window_minus (self : t) (d : Z) : option Z :=
  if window (config self) <? d then None else Some (window (config self) - d).

(** The sum of [u32] values; it wraps in the release profile. *)
Definition sum_u32 (l : list Z) : Z := fold_left (λ acc n, wrap32 (acc + n)) l 0.

(** [None] is a panic; it poisons the mutex, so every later call panics as well. *)
Definition check (self : t) (estimated_tokens now : Z) : option (t * result unit Z) :=
  match instant_sub now (window (config self)) with
  | None => None
  | Some cutoff =>
  let self := Mk (config self) (prune id cutoff (request_log self)) (prune fst cutoff (token_log self)) in
  let refuse oldest :=
    match window_minus self (duration_since now oldest) with
    | Some wait => Some (self, Err wait)
    | None => None
    end in
  if (0 <? max_requests_per_window (config self))
     && (max_requests_per_window (config self) <=? Z.of_nat (length (request_log self)))
  then
    match request_log self with
    | oldest :: _ => refuse oldest
    | [] => None
    end
  else if (0 <? max_tokens_per_window (config self))
          && (max_tokens_per_window (config self)
              <? saturating_add32 (sum_u32 (token_log self).*2) estimated_tokens)
  then refuse (match token_log self with (at_, _) :: _ => at_ | [] => now end)
  else Some (self, Ok tt)
  end.

Definition record (self : t) (tokens now : Z) : t :=
  Mk (config self) (request_log self ++ [now]) (token_log self ++ [(now, tokens)]).

Definition is_enabled (self : t) : bool :=
  (0 <? max_requests_per_window (config self)) || (0 <? max_tokens_per_window (config self)).
End RateLimiter.

(** Any number of callers that share a limiter.  Each checks, makes the request if it is
    admitted, and records its tokens when it completes. *)
Inductive limiter_event :=
| Ask (now estimate : Z)
| Finish (i : nat) (now tokens : Z). (* the request [i] of those in flight completes *)

Record callers := Callers {
  limiter : RateLimiter.t;
  in_flight : list Z;       (* the estimates of the admitted requests not yet recorded *)
  records : list (Z * Z);   (* the recorded ones, with their tokens *)
  peak : Z;                 (* the most that were in flight at once *)
  kept : bool;              (* no request took more tokens than its estimate *)
}.

Definition no_callers (c : RateLimitConfig.t) : callers := Callers (RateLimiter.new c) [] [] 0 true.

Definition caller_step (s : callers) (e : limiter_event) : option callers :=
  match e with
  | Ask now est =>
      match RateLimiter.check (limiter s) est now with
      | Some (l, Ok _) =>
          Some (Callers l (in_flight s ++ [est]) (records s)
                  (Z.max (peak s) (Z.of_nat (length (in_flight s)) + 1)) (kept s))
      | Some (l, Err _) => Some (Callers l (in_flight s) (records s) (peak s) (kept s))
      | None => None
      end
  | Finish i now tokens =>
      match in_flight s !! i with
      | Some est =>
          Some (Callers (RateLimiter.record (limiter s) tokens now) (delete i (in_flight s))
                  (records s ++ [(now, tokens)]) (peak s) (kept s && (tokens <=? est)))
      | None => Some s
      end
  end.

(** [None] when a call panicked. *)
Fixpoint callers_run (s : callers) (es : list limiter_event) : option callers :=
  match es with
  | [] => Some s
  | e :: es => match caller_step s e with Some s => callers_run s es | None => None end
  end.

Definition event_time (e : limiter_event) : Z :=
  match e with Ask now _ => now | Finish _ now _ => now end.

Definition event_amount (e : limiter_event) : Z :=
  match e with Ask _ est => est | Finish _ _ tokens => tokens end.

(** The clock does not go back, and the numbers are [u32]. *)
Fixpoint events_ok (from : Z) (es : list limiter_event) : Prop :=
  match es with
  | [] => True
  | e :: es => from ≤ event_time e ∧ 0 ≤ event_amount e ≤ u32_max ∧ events_ok (event_time e) es
  end.

(** When the last of them is over. *)
Fixpoint final_time (from : Z) (es : list limiter_event) : Z :=
  match es with [] => from | e :: es => final_time (event_time e) es end.

(** The records of the window that ends at [T], and their tokens. *)
Definition in_window_at (w T : Z) (rs : list (Z * Z)) : list (Z * Z) :=
  filter (λ r, T - w ≤ r.1 ∧ r.1 ≤ T) rs.

Fixpoint total (l : list Z) : Z := match l with [] => 0 | n :: l => n + total l end.

Lemma total_app (l1 l2 : list Z) : total (l1 ++ l2) = total l1 + total l2.
Proof. induction l1 as [|x l1 IH]; [done|]. cbn [app total]. lia. Qed.

Lemma total_nonneg {A} (f : A → Z) l : Forall (λ x, 0 ≤ f x) l → 0 ≤ total (f <$> l).
Proof. induction 1; [done|]. rewrite fmap_cons. cbn [total]. lia. Qed.

Lemma total_filter {A} (f : A → Z) (P : A → Prop) `{∀ x, Decision (P x)} l :
  Forall (λ x, 0 ≤ f x) l → total (f <$> filter P l) ≤ total (f <$> l).
Proof.
  induction 1 as [|x l Hx _ IH]; [done|]. rewrite filter_cons. case_decide; rewrite !fmap_cons; cbn [total]; lia.
Qed.

Lemma total_delete {A} (f : A → Z) l i x :
  l !! i = Some x → total (f <$> delete i l) = total (f <$> l) - f x.
Proof.
  revert i. induction l as [|y l IH]; intros [|i] Hi; cbn in Hi; simplify_eq; [cbn; lia|].
  cbn. rewrite IH by done. lia.
Qed.

Lemma total_ones {A} (l : list A) : total ((λ _, 1) <$> l) = Z.of_nat (length l).
Proof. induction l as [|x l IH]; [done|]. rewrite fmap_cons. cbn [total length]. lia. Qed.

Lemma total_le (b : Z) (l : list Z) : Forall (λ x, x ≤ b) l → total l ≤ Z.of_nat (length l) * b.
Proof. induction 1; [done|]. cbn [total length]. lia. Qed.

(** *** Pruning *)

Section limiter.
Context (c : RateLimitConfig.t) (Hw : 0 ≤ RateLimitConfig.window c).
Implicit Types (l : RateLimiter.t) (rs : list (Z * Z)).

#[local] Abbreviation w := (RateLimitConfig.window c).
#[local] Abbreviation by_time := (λ r r' : Z * Z, r.1 ≤ r'.1).

(** The records at or after [cutoff]. *)
Definition since (cutoff : Z) rs : list (Z * Z) := filter (λ r, cutoff ≤ r.1) rs.

Lemma since_sorted cutoff rs : StronglySorted by_time rs → StronglySorted by_time (since cutoff rs).
Proof.
  induction 1 as [|r rs Hs IH Hall]; [constructor|]. unfold since in *. rewrite filter_cons.
  case_decide; [|done]. constructor; [done|]. apply Forall_forall. intros x [_ Hx]%list_elem_of_filter.
  by apply (proj1 (Forall_forall _ _) Hall).
Qed.

Lemma since_since a b rs : a ≤ b → since b (since a rs) = since b rs.
Proof. intros Hab. apply list_filter_filter_l. intros x. lia. Qed.

Lemma since_all cutoff rs : Forall (λ r, cutoff ≤ r.1) rs → since cutoff rs = rs.
Proof.
  unfold since. induction 1 as [|r rs Hr _ IH]; [done|]. by rewrite filter_cons_True, IH.
Qed.

Lemma prune_since cutoff rs : StronglySorted by_time rs → RateLimiter.prune fst cutoff rs = since cutoff rs.
Proof.
  induction 1 as [|r rs Hs IH Hall]; [done|]. cbn [RateLimiter.prune].
  destruct (Z.ltb_spec r.1 cutoff).
  - rewrite IH. unfold since. by rewrite filter_cons_False by lia.
  - symmetry. apply since_all. constructor; [done|]. eapply Forall_impl; [done|]. cbn. lia.
Qed.

Lemma prune_fst cutoff rs : RateLimiter.prune id cutoff rs.*1 = (RateLimiter.prune fst cutoff rs).*1.
Proof. induction rs as [|r rs IH]; cbn; [done|]. by case_match. Qed.

(** *** The decision, on the records of the window *)

Definition decision (live : list (Z * Z)) (est now : Z) : result unit Z :=
  let wait := match live with r :: _ => w - (now - r.1) | [] => w end in
  if (0 <? RateLimitConfig.max_requests_per_window c)
     && (RateLimitConfig.max_requests_per_window c <=? Z.of_nat (length live)) then Err wait
  else if (0 <? RateLimitConfig.max_tokens_per_window c)
     && (RateLimitConfig.max_tokens_per_window c <? saturating_add32 (RateLimiter.sum_u32 live.*2) est)
  then Err wait else Ok tt.

(** The limiter after the records [rs], the last operation at or before [last]. *)
Definition limiter_after (last : Z) rs l : Prop :=
  RateLimiter.config l = c
  ∧ RateLimiter.request_log l = (RateLimiter.token_log l).*1
  ∧ (∃ cutoff, cutoff ≤ last - w ∧ RateLimiter.token_log l = since cutoff rs)
  ∧ StronglySorted by_time rs ∧ Forall (λ r, r.1 ≤ last) rs.

Lemma window_minus_live now rs r tl req tok :
  since (now - w) rs = r :: tl → Forall (λ r, r.1 ≤ now) rs →
  RateLimiter.window_minus (RateLimiter.Mk c req tok) (duration_since now r.1) = Some (w - (now - r.1)).
Proof.
  intros Heq Hle. rewrite Forall_forall in Hle.
  assert (r ∈ since (now - w) rs) as [Hr Hin]%list_elem_of_filter by (rewrite Heq; apply list_elem_of_here).
  specialize (Hle r Hin). cbn in Hle, Hr.
  unfold RateLimiter.window_minus, duration_since, saturating_sub. cbn [RateLimiter.config].
  rewrite Z.max_r by lia. by rewrite (proj2 (Z.ltb_ge _ _)) by lia.
Qed.

Lemma check_decision last rs l est now :
  limiter_after last rs l → last ≤ now → instant_min ≤ now - w →
  let live := since (now - w) rs in
  RateLimiter.check l est now = Some (RateLimiter.Mk c live.*1 live, decision live est now)
  ∧ limiter_after now rs (RateLimiter.Mk c live.*1 live).
Proof.
  intros (Hc & Hreq & (cutoff & Hcut & Htok) & Hsort & Hle) Hnow Hfit live.
  assert (Forall (λ r, r.1 ≤ now) rs) as Hle' by (eapply Forall_impl; [done|]; cbn; lia).
  split.
  2: { split_and!; try done. by exists (now - w). }
  unfold RateLimiter.check. rewrite Hc, instant_sub_Some by done.
  rewrite Hreq, Htok, prune_fst, prune_since by (by apply since_sorted).
  rewrite since_since by lia. fold live. cbn [RateLimiter.config RateLimiter.request_log RateLimiter.token_log].
  unfold decision. rewrite length_fmap.
  destruct (_ && _) eqn:H1.
  - destruct live as [|r live'] eqn:Hlive.
    + apply andb_true_iff in H1 as [H1%Z.ltb_lt H2%Z.leb_le]. cbn [length] in H2. lia.
    + cbn [fmap list_fmap]. by rewrite (window_minus_live now rs r live').
  - destruct ((0 <? RateLimitConfig.max_tokens_per_window c) && _); [|done].
    destruct live as [|[at_ k] live'] eqn:Hlive.
    + unfold RateLimiter.window_minus, duration_since, saturating_sub. cbn.
      rewrite Z.sub_diag. cbn. rewrite (proj2 (Z.ltb_ge _ _)) by lia. by rewrite Z.sub_0_r.
    + pose proof (window_minus_live now rs (at_, k) live') as Hwm. cbn [fst] in Hwm. by rewrite Hwm.
Qed.

Lemma record_after last rs l at_ k :
  limiter_after last rs l → last ≤ at_ → limiter_after at_ (rs ++ [(at_, k)]) (RateLimiter.record l k at_).
Proof.
  intros (Hc & Hreq & (cutoff & Hcut & Htok) & Hsort & Hle) Hat. unfold limiter_after. cbn. split_and!.
  - done.
  - by rewrite Hreq, fmap_app.
  - exists cutoff. split; [lia|]. unfold since in *. rewrite filter_app, <-Htok. f_equal.
    rewrite filter_cons_True by (cbn; lia). done.
  - apply StronglySorted_app_2; [|done|repeat constructor]. intros r r' Hr ->%list_elem_of_singleton. cbn.
    apply (proj1 (Forall_forall _ _) Hle) in Hr. cbn in Hr. lia.
  - apply Forall_app. split; [|by repeat constructor]. eapply Forall_impl; [done|]. cbn. lia.
Qed.

(** *** The bounds

    A request in flight weighs [v] of its estimate and a record [u]; the weights are 1
    for the number of requests, and the estimate and the tokens for the tokens. *)

Lemma in_window_live t0 rs : Forall (λ r, r.1 ≤ t0) rs → in_window_at w t0 rs = since (t0 - w) rs.
Proof.
  unfold in_window_at, since. induction 1 as [|r rs Hr _ IH]; [done|]. rewrite !filter_cons, IH.
  repeat case_decide; done || lia.
Qed.

Lemma since_Forall (P : Z * Z → Prop) cutoff rs : Forall P rs → Forall P (since cutoff rs).
Proof. rewrite !Forall_forall. intros HP r [_ Hr]%list_elem_of_filter. auto. Qed.

Section load.
Context (u : Z * Z → Z) (v : Z → Z).

Definition load (T : Z) (s : callers) : Z :=
  total (u <$> since (T - w) (records s)) + total (v <$> in_flight s).

Definition loaded (bound last : Z) (s : callers) : Prop :=
  (∀ T, last ≤ T → load T s ≤ bound) ∧ ∀ T, total (u <$> in_window_at w T (records s)) ≤ bound.

Lemma loaded_le bound bound' last s : bound ≤ bound' → loaded bound last s → loaded bound' last s.
Proof. intros Hle [Hl Hw']. split; intros T; [intros HT; specialize (Hl T HT)|specialize (Hw' T)]; lia. Qed.

Lemma loaded_finish bound last s i now tokens est l pk kp :
  loaded bound last s → last ≤ now → in_flight s !! i = Some est → 0 ≤ u (now, tokens) ≤ v est →
  Forall (λ r, 0 ≤ u r) (records s) → Forall (λ x, 0 ≤ v x) (in_flight s) →
  loaded bound now (Callers l (delete i (in_flight s)) (records s ++ [(now, tokens)]) pk kp).
Proof.
  intros [Hl Hwin] Hle Hi Huv Hu Hv.
  assert (Hu' : Forall (λ r, 0 ≤ u r) (records s ++ [(now, tokens)])).
  { apply Forall_app. split; [done|]. repeat constructor. lia. }
  assert (Hv' : 0 ≤ total (v <$> delete i (in_flight s))) by (apply total_nonneg; by apply Forall_delete).
  assert (Hload : ∀ T, now ≤ T → total (u <$> since (T - w) (records s ++ [(now, tokens)]))
                                 + total (v <$> delete i (in_flight s)) ≤ bound).
  { intros T HT. specialize (Hl T ltac:(lia)). unfold load in Hl. rewrite (total_delete v _ _ est) by done.
    unfold since in *. rewrite filter_app, fmap_app, total_app, filter_cons, filter_nil.
    case_decide; cbn; lia. }
  split; [exact Hload|]. intros T. cbn [records]. destruct (Z.le_gt_cases now T) as [HT|HT].
  - specialize (Hload T HT). unfold in_window_at.
    replace (filter (λ r : Z * Z, T - w ≤ r.1 ∧ r.1 ≤ T) (records s ++ [(now, tokens)]))
      with (filter (λ r : Z * Z, r.1 ≤ T) (since (T - w) (records s ++ [(now, tokens)]))).
    2: { unfold since. rewrite list_filter_filter. apply list_filter_iff. intros r. lia. }
    pose proof (total_filter u (λ r, r.1 ≤ T) _ (since_Forall _ (T - w) _ Hu')). lia.
  - specialize (Hwin T). unfold in_window_at in *. rewrite filter_app, (filter_cons_False _ (now, tokens)) by (cbn; lia).
    by rewrite filter_nil, app_nil_r.
Qed.

(** An admission: what is recorded in the window and the new request fit in [limit], and
    the rest in flight in [others]. *)
Lemma loaded_ask bound last s now est limit others l pk kp :
  loaded bound last s → Forall (λ r, 0 ≤ u r) (records s) →
  total (u <$> since (now - w) (records s)) + v est ≤ limit → total (v <$> in_flight s) ≤ others →
  loaded (Z.max bound (limit + others)) now (Callers l (in_flight s ++ [est]) (records s) pk kp).
Proof.
  intros [_ Hwin] Hu Hlim Hoth. split; intros T; [|specialize (Hwin T); cbn [records]; lia].
  intros HT. unfold load. cbn [records in_flight]. rewrite fmap_app, total_app. cbn [fmap list_fmap total].
  rewrite <-(since_since (now - w)) by lia.
  pose proof (total_filter u (λ r, T - w ≤ r.1) _ (since_Forall _ (now - w) _ Hu)). unfold since in *. lia.
Qed.

Lemma loaded_later bound last last' s l :
  last ≤ last' → loaded bound last s → loaded bound last' (Callers l (in_flight s) (records s) (peak s) (kept s)).
Proof. intros Hle [Hl Hwin]. split; [|done]. intros T HT. apply Hl. lia. Qed.
End load.

Lemma sum_u32_total rs :
  Forall (λ r : Z * Z, 0 ≤ r.2) rs → total rs.*2 ≤ u32_max → RateLimiter.sum_u32 rs.*2 = total rs.*2.
Proof.
  intros Hall. unfold RateLimiter.sum_u32.
  assert (∀ acc, 0 ≤ acc → acc + total rs.*2 ≤ u32_max →
    fold_left (λ acc n, wrap32 (acc + n)) rs.*2 acc = acc + total rs.*2) as Hgen.
  { induction Hall as [|r rs Hr Hrs IH]; intros acc Hacc Hmax; rewrite ?fmap_cons in *; cbn in *; [lia|].
    pose proof (total_nonneg snd rs Hrs). rewrite wrap32_small by lia. rewrite IH by lia. lia. }
  intros Hmax. rewrite Hgen by lia. lia.
Qed.

(** What an admission says about the records of the window. *)
Lemma decision_ok live est now :
  decision live est now = Ok tt →
  (0 < RateLimitConfig.max_requests_per_window c →
   Z.of_nat (length live) < RateLimitConfig.max_requests_per_window c)
  ∧ (0 < RateLimitConfig.max_tokens_per_window c →
     saturating_add32 (RateLimiter.sum_u32 live.*2) est ≤ RateLimitConfig.max_tokens_per_window c).
Proof.
  unfold decision. cbv zeta. destruct (_ && _) eqn:H1; [done|]. destruct (_ && _) eqn:H2 in |- *; [done|].
  intros _. apply andb_false_iff in H1, H2. rewrite Z.ltb_ge, Z.leb_gt in H1. rewrite !Z.ltb_ge in H2. lia.
Qed.

(** The tokens are bounded while the sums fit in a [u32]. *)
Definition tokens_limited (s : callers) : Prop :=
  0 < RateLimitConfig.max_tokens_per_window c < u32_max
  ∧ peak s * RateLimitConfig.max_tokens_per_window c ≤ u32_max ∧ kept s = true.

Definition request_bound (s : callers) : Z := RateLimitConfig.max_requests_per_window c + Z.max 1 (peak s) - 1.
Definition token_bound (s : callers) : Z := peak s * RateLimitConfig.max_tokens_per_window c.

Record callers_ok (last : Z) (s : callers) : Prop := {
  co_limiter : limiter_after last (records s) (limiter s);
  co_peak : Z.of_nat (length (in_flight s)) ≤ peak s;
  co_estimates : Forall (λ est, 0 ≤ est) (in_flight s);
  co_tokens : Forall (λ r, 0 ≤ r.2) (records s);
  co_requests : 0 < RateLimitConfig.max_requests_per_window c →
    loaded (λ _, 1) (λ _, 1) (request_bound s) last s;
  co_bound : tokens_limited s →
    loaded snd id (token_bound s) last s
    ∧ Forall (λ est, est ≤ RateLimitConfig.max_tokens_per_window c) (in_flight s);
}.

Lemma ones_nonneg {A} (l : list A) : Forall (λ _, 0 ≤ 1) l.
Proof. apply Forall_true. lia. Qed.

Lemma ask_admitted last s now est :
  callers_ok last s → last ≤ now → 0 ≤ est ≤ u32_max →
  let live := since (now - w) (records s) in
  decision live est now = Ok tt → limiter_after now (records s) (RateLimiter.Mk c live.*1 live) →
  callers_ok now (Callers (RateLimiter.Mk c live.*1 live) (in_flight s ++ [est]) (records s)
                    (Z.max (peak s) (Z.of_nat (length (in_flight s)) + 1)) (kept s)).
Proof.
  intros [Hl Hp He Ht Hr Hb] Hle Hest live [Hreq Htok]%decision_ok Hl'. split; cbn [records limiter in_flight peak]; try done.
  - rewrite length_app. cbn [length]. lia.
  - apply Forall_app. split; [done|]. apply Forall_singleton; lia.
  - intros Hpos. specialize (Hreq Hpos). specialize (Hr Hpos). eapply loaded_le; [|eapply loaded_ask; [exact Hr|..]].
    + unfold request_bound. cbn [peak]. apply Z.max_lub; [lia|].
      instantiate (1 := Z.of_nat (length (in_flight s))).
      instantiate (1 := RateLimitConfig.max_requests_per_window c). lia.
    + apply ones_nonneg.
    + rewrite total_ones. fold live. lia.
    + rewrite total_ones. lia.
  - intros (Hlim & Hfit & Hk). cbn [peak kept] in *. specialize (Htok (proj1 Hlim)).
    assert (Hfit' : peak s * RateLimitConfig.max_tokens_per_window c ≤ u32_max) by nia.
    destruct Hb as [Hb Hmax]; [done|]. pose proof (proj1 Hb now Hle) as Hnow. unfold load in Hnow.
    pose proof (total_nonneg id _ He) as Hnn. fold live in Hnow.
    rewrite sum_u32_total in Htok by (unfold token_bound in Hnow; (by apply since_Forall) || lia).
    assert (Hsum : total live.*2 + est ≤ RateLimitConfig.max_tokens_per_window c).
    { unfold saturating_add32 in Htok. lia. }
    assert (0 ≤ total live.*2) by (apply (total_nonneg snd); by apply since_Forall).
    split; [|apply Forall_app; split; [done|repeat constructor; lia]].
    eapply loaded_le; [|eapply loaded_ask; [exact Hb|done|exact Hsum|]].
    2: { rewrite list_fmap_id. apply (total_le _ _ Hmax). }
    unfold token_bound. cbn [peak]. apply Z.max_lub; [nia|]. nia.
Qed.

Lemma finish_recorded last s i now tokens est :
  callers_ok last s → last ≤ now → 0 ≤ tokens ≤ u32_max → in_flight s !! i = Some est →
  callers_ok now (Callers (RateLimiter.record (limiter s) tokens now) (delete i (in_flight s))
                    (records s ++ [(now, tokens)]) (peak s) (kept s && (tokens <=? est))).
Proof.
  intros [Hl Hp He Ht Hr Hb] Hle Htk Hi. split; cbn [records limiter in_flight peak].
  - by eapply record_after.
  - rewrite length_delete by done. lia.
  - by apply Forall_delete.
  - apply Forall_app. split; [done|]. repeat constructor. apply Htk.
  - intros Hpos. specialize (Hr Hpos). eapply (loaded_finish (λ _, 1) (λ _, 1)); try done; [apply ones_nonneg..].
  - intros (Hlim & Hfit & [Hk Hle']%andb_prop). cbn [peak] in Hfit. destruct Hb as [Hb Hmax]; [done|].
    split; [|by apply Forall_delete]. apply Z.leb_le in Hle'.
    eapply (loaded_finish snd id); try done. cbn. lia.
Qed.

Lemma step_callers_ok last s e :
  callers_ok last s → last ≤ event_time e → 0 ≤ event_amount e ≤ u32_max →
  (match e with Ask now _ => instant_min ≤ now - w | Finish _ _ _ => True end) →
  ∃ s', caller_step s e = Some s' ∧ callers_ok (event_time e) s'.
Proof.
  intros Hok Hle Ha Hfit. destruct e as [now est|i now tokens]; cbn in *.
  - destruct (check_decision last (records s) (limiter s) est now (co_limiter _ _ Hok) Hle Hfit) as [-> Hafter].
    set (live := since _ _) in *. destruct (decision live est now) as [[]|wait] eqn:Hd; cbn; eexists; (split; [done|]).
    + by eapply ask_admitted.
    + destruct Hok as [Hl Hp He Ht Hr Hb]. split; cbn; try done.
      * intros Hpos. by eapply loaded_later, Hr.
      * intros Hlim. destruct (Hb Hlim). split; [by eapply loaded_later|done].
  - destruct (in_flight s !! i) as [est|] eqn:Hi; eexists; (split; [done|]); [by eapply finish_recorded|].
    destruct Hok as [Hl Hp He Ht Hr Hb]. split; try done.
    + destruct Hl as (? & ? & (cutoff & ? & ?) & ? & Hall). split_and!; try done.
      * exists cutoff. split; [lia|done].
      * eapply Forall_impl; [exact Hall|]. cbn. lia.
    + intros Hpos. destruct (Hr Hpos) as [Hload Hwin]. split; [|done]. intros T HT. apply Hload. lia.
    + intros Hlim. destruct (Hb Hlim) as [[Hload Hwin] Hmax]. split; [|done]. split; [|done]. intros T HT. apply Hload. lia.
Qed.

(** A check panics when the start of its window is before the first instant. *)
Definition too_early (e : limiter_event) : Prop :=
  match e with Ask now _ => now - w < instant_min | Finish _ _ _ => False end.

Lemma run_callers_ok es : ∀ last s,
  callers_ok last s → events_ok last es →
  match callers_run s es with
  | Some s' => callers_ok (final_time last es) s' ∧ Forall (λ e, ¬ too_early e) es
  | None => Exists too_early es
  end.
Proof.
  induction es as [|e es IH]; intros last s Hok; cbn [callers_run events_ok final_time]; [by split|].
  intros (Hle & Ha & Hes).
  assert (too_early e ∨ ¬ too_early e) as [He|He] by (destruct e; cbn; [lia|tauto]).
  - destruct e as [now est|]; [|done]. cbn. unfold RateLimiter.check, instant_sub.
    destruct (co_limiter _ _ Hok) as (-> & _). cbn in He. rewrite (proj2 (Z.leb_gt _ _)) by lia. by left.
  - destruct (step_callers_ok last s e Hok Hle Ha) as (s' & -> & Hok'); [destruct e; cbn in *; [lia|done]|].
    specialize (IH _ s' Hok' Hes). destruct (callers_run s' es) as [s''|]; [|by right].
    destruct IH as [? ?]. split; [done|]. by constructor.
Qed.

Lemma no_callers_ok start : callers_ok start (no_callers c).
Proof.
  split; cbn; try done.
  - split_and!; try done; [by exists (start - w)|constructor].
  - intros Hpos. unfold request_bound. split; intros T; unfold load; cbn; lia.
Qed.
End limiter.

(** C34. Bounds of the rate limiter.  Any number of callers share it; each checks, makes the
    request if it is admitted, and records it when it completes, on a clock that does not go
    back.  With at most [peak] requests in flight at once, every span of length [window]
    contains at most [max_requests_per_window + peak - 1] recorded requests, the limit
    itself for a caller that makes one request after the other; and at most [peak] times
    [max_tokens_per_window] tokens, when no request took more than its estimate, the limit
    is below [u32::MAX] and that product is a [u32].  A check panics exactly when the start
    of its window is an instant that cannot be represented, and then everything after it. *)
Theorem rate_limit_bounds (c : RateLimitConfig.t) (es : list limiter_event) (start : Z) :
  0 ≤ RateLimitConfig.window c →
  events_ok start es →
  let w := RateLimitConfig.window c in
  let max_requests := RateLimitConfig.max_requests_per_window c in
  let max_tokens := RateLimitConfig.max_tokens_per_window c in
  (callers_run (no_callers c) es = None ↔ ∃ now est, Ask now est ∈ es ∧ now - w < instant_min)
  ∧ ∀ s, callers_run (no_callers c) es = Some s → ∀ T,
      (0 < max_requests →
       Z.of_nat (length (in_window_at w T (records s))) ≤ max_requests + Z.max 1 (peak s) - 1)
      ∧ (0 < max_tokens < u32_max → peak s * max_tokens ≤ u32_max → kept s = true →
         total (in_window_at w T (records s)).*2 ≤ peak s * max_tokens).
Proof.
  intros Hw Hes w max_requests max_tokens.
  pose proof (run_callers_ok c Hw es start (no_callers c) (no_callers_ok c start) Hes) as Hrun. split.
  - split.
    + intros Hnone. rewrite Hnone in Hrun. apply Exists_exists in Hrun as ([now est|] & Hin & He); [|done]. by exists now, est.
    + intros (now & est & Hin & He). destruct (callers_run _ es) as [s|]; [|done]. destruct Hrun as [_ Hall].
      rewrite Forall_forall in Hall. by destruct (Hall _ Hin).
  - intros s Hs T. rewrite Hs in Hrun. destruct Hrun as [[_ _ _ _ Hreq Htok] _]. split.
    + intros Hpos. pose proof (proj2 (Hreq Hpos) T) as Hb. by rewrite total_ones in Hb.
    + intros Hlim Hfit Hk. by apply (proj2 (proj1 (Htok (conj Hlim (conj Hfit Hk))))).
Qed.

(** Two callers: the second asks while the first is in flight; a third request waits. *)
Definition sample_events : list limiter_event :=
  [Ask 0 60; Ask 1 60; Finish 0 2 50; Finish 0 3 50; Ask 4 1; Ask 14 30; Finish 0 15 20].

Lemma rate_limit_bounds_witness :
  ∃ s, callers_run (no_callers (RateLimitConfig.Mk 2 100 10)) sample_events = Some s
    ∧ records s = [(2, 50); (3, 50); (15, 20)] ∧ peak s = 2 ∧ kept s = true
    ∧ Z.of_nat (length (in_window_at 10 12 (records s))) ≤ 3
    ∧ total (in_window_at 10 12 (records s)).*2 ≤ 200.
Proof.
  destruct (callers_run (no_callers (RateLimitConfig.Mk 2 100 10)) sample_events) as [s|] eqn:Hs; [|by vm_compute in Hs].
  exists s. split; [reflexivity|].
  destruct (rate_limit_bounds (RateLimitConfig.Mk 2 100 10) sample_events 0) as [_ Hb];
    [cbn; lia|cbn; unfold u32_max; lia|].
  destruct (Hb s Hs 12) as [Hreq Htok]. vm_compute in Hs. injection Hs as <-. cbn [records peak kept] in *.
  split_and!; [reflexivity..| |].
  - apply Hreq. reflexivity.
  - apply Htok; [split; reflexivity|vm_compute; discriminate|reflexivity].
Defined.

(** *** Waiting *)

Section waiting.
Context (c : RateLimitConfig.t) (Hw : 0 ≤ RateLimitConfig.window c).
Implicit Types (l : RateLimiter.t) (rs : list (Z * Z)).
#[local] Abbreviation w := (RateLimitConfig.window c).

Lemma since_none cutoff rs : Forall (λ r, r.1 < cutoff) rs → since cutoff rs = [].
Proof.
  unfold since. induction 1 as [|r rs Hr _ IH]; [done|]. by rewrite filter_cons_False by lia.
Qed.

Lemma sum_u32_nonneg (l : list Z) : 0 ≤ RateLimiter.sum_u32 l.
Proof.
  unfold RateLimiter.sum_u32.
  assert (∀ acc, 0 ≤ acc → 0 ≤ fold_left (λ acc n, wrap32 (acc + n)) l acc) as Hgen; [|by apply Hgen].
  induction l as [|n l IH]; intros acc Hacc; cbn; [done|]. apply IH. apply Z.mod_pos_bound. done.
Qed.

(** An empty window admits exactly the estimates within the limit. *)
Lemma decision_empty est now :
  0 ≤ RateLimitConfig.max_requests_per_window c →
  0 ≤ est ≤ u32_max → 0 ≤ RateLimitConfig.max_tokens_per_window c ≤ u32_max →
  decision c [] est now = Ok tt
  ↔ RateLimitConfig.max_tokens_per_window c = 0 ∨ est ≤ RateLimitConfig.max_tokens_per_window c.
Proof.
  intros Hr Hest Hmax. unfold decision. cbn [length fmap list_fmap]. cbv zeta.
  assert ((0 <? RateLimitConfig.max_requests_per_window c)
          && (RateLimitConfig.max_requests_per_window c <=? Z.of_nat 0) = false) as ->.
  { apply andb_false_iff. rewrite Z.ltb_ge, Z.leb_gt. lia. }
  unfold saturating_add32, RateLimiter.sum_u32. cbn [fold_left]. rewrite Z.add_0_l, Z.min_r by lia.
  destruct (Z.ltb_spec 0 (RateLimitConfig.max_tokens_per_window c)); cbn;
    [destruct (Z.ltb_spec (RateLimitConfig.max_tokens_per_window c) est)|]; split; try done; lia.
Qed.

Lemma decision_too_large live est now :
  0 < RateLimitConfig.max_tokens_per_window c < est → est ≤ u32_max →
  ∃ wait, decision c live est now = Err wait.
Proof.
  intros Hest Hmax. unfold decision. cbv zeta. destruct (_ && _); [by eexists|].
  pose proof (sum_u32_nonneg live.*2). unfold saturating_add32.
  rewrite (proj2 (Z.ltb_lt 0 _)) by lia. rewrite (proj2 (Z.ltb_lt _ _)) by lia. by eexists.
Qed.

Lemma since_head cutoff rs r tl :
  StronglySorted (λ r r' : Z * Z, r.1 ≤ r'.1) rs → since cutoff rs = r :: tl →
  since r.1 rs = r :: tl ∧ ∀ later, r.1 < later → since later rs = since later tl.
Proof.
  intros Hs Heq. pose proof (since_sorted cutoff rs Hs) as Hs'. rewrite Heq in Hs'.
  apply StronglySorted_inv in Hs' as [_ Hall].
  assert (cutoff ≤ r.1) as Hcut.
  { assert (r ∈ since cutoff rs) as Hr%list_elem_of_filter by (rewrite Heq; apply list_elem_of_here).
    apply Hr. }
  split.
  - rewrite <-(since_since cutoff r.1 rs Hcut), Heq. apply since_all. by constructor.
  - intros later Hlater. rewrite <-(since_since cutoff later rs), Heq by lia.
    unfold since. by rewrite filter_cons_False by lia.
Qed.

(** With no token limit, the decision is about the number of records alone. *)
Lemma decision_requests live est now :
  RateLimitConfig.max_tokens_per_window c = 0 →
  decision c live est now
  = if decide (0 < RateLimitConfig.max_requests_per_window c ≤ Z.of_nat (length live))
    then Err (match live with r :: _ => w - (now - r.1) | [] => w end) else Ok tt.
Proof.
  intros H0. unfold decision. cbv zeta. rewrite H0. cbn [Z.ltb Z.compare andb].
  destruct (_ && _) eqn:H1.
  - apply andb_true_iff in H1 as [?%Z.ltb_lt ?%Z.leb_le]. by rewrite decide_True.
  - apply andb_false_iff in H1. rewrite Z.ltb_ge, Z.leb_gt in H1. by rewrite decide_False by lia.
Qed.

Lemma wait_exact rs l est now wait :
  limiter_after c now rs l → instant_min ≤ now - w →
  Z.of_nat (length (since (now - w) rs)) ≤ RateLimitConfig.max_requests_per_window c →
  RateLimitConfig.max_tokens_per_window c = 0 →
  decision c (since (now - w) rs) est now = Err wait →
  0 ≤ wait ≤ w
  ∧ (RateLimiter.check l est (now + wait) ≫= λ a, Some a.2) = Some (Err 0)
  ∧ ∀ later, now + wait < later → (RateLimiter.check l est later ≫= λ a, Some a.2) = Some (Ok tt).
Proof.
  intros Hl Hfit Hrb H0. rewrite decision_requests by done. case_decide as Hfull; [|done].
  pose proof Hl as (_ & _ & _ & Hsort & Hle).
  destruct (since (now - w) rs) as [|r tl] eqn:Hsince; [cbn in Hfull; lia|]. intros [= <-].
  assert (r ∈ since (now - w) rs) as [Hrw Hin]%list_elem_of_filter by (rewrite Hsince; apply list_elem_of_here).
  rewrite Forall_forall in Hle. specialize (Hle r Hin). cbn in Hle, Hrw.
  destruct (since_head (now - w) rs r tl Hsort Hsince) as [Hsame Hlater]. split; [lia|]. split.
  - destruct (check_decision c Hw now rs l est (now + (w - (now - r.1))) Hl) as [-> _]; [lia|lia|]. cbn.
    replace (now + (w - (now - r.1)) - w) with r.1 by lia. rewrite Hsame, decision_requests by done.
    rewrite decide_True by done. do 2 f_equal. lia.
  - intros later Hlt. destruct (check_decision c Hw now rs l est later Hl) as [-> _]; [lia|lia|]. cbn.
    rewrite Hlater, decision_requests by (done || lia). rewrite decide_False; [done|].
    pose proof (length_filter (λ x : Z * Z, later - w ≤ x.1) tl). unfold since. cbn [length] in *. lia.
Qed.
End waiting.

(** Liveness of the rate limiter, after any history that did not panic.  Once [window] has
    passed since the last record, a request is admitted exactly when its estimate is within
    the token limit; one above the limit is refused at every instant, although each refusal
    names a wait.  With only a request limit and one request at a time, a refusal's wait is
    between 0 and [window]; a check exactly that much later is refused again with wait 0,
    and any check after that is admitted. *)
Theorem rate_limit_liveness (c : RateLimitConfig.t) (es : list limiter_event) (start : Z) s :
  0 ≤ RateLimitConfig.window c →
  0 ≤ RateLimitConfig.max_requests_per_window c →
  0 ≤ RateLimitConfig.max_tokens_per_window c ≤ u32_max →
  events_ok start es →
  callers_run (no_callers c) es = Some s →
  ∀ est now, 0 ≤ est ≤ u32_max → final_time start es ≤ now →
    instant_min ≤ now - RateLimitConfig.window c →
    ∃ l' answer, RateLimiter.check (limiter s) est now = Some (l', answer)
    ∧ (Forall (λ r, r.1 + RateLimitConfig.window c < now) (records s) →
       answer = Ok tt ↔ RateLimitConfig.max_tokens_per_window c = 0
                        ∨ est ≤ RateLimitConfig.max_tokens_per_window c)
    ∧ (0 < RateLimitConfig.max_tokens_per_window c < est → answer ≠ Ok tt)
    ∧ ∀ wait, RateLimitConfig.max_tokens_per_window c = 0 → peak s ≤ 1 → answer = Err wait →
        0 ≤ wait ≤ RateLimitConfig.window c
        ∧ (RateLimiter.check l' est (now + wait) ≫= λ a, Some a.2) = Some (Err 0)
        ∧ ∀ later, now + wait < later → (RateLimiter.check l' est later ≫= λ a, Some a.2) = Some (Ok tt).
Proof.
  intros Hw Hr Ht Hes Hs.
  pose proof (run_callers_ok c Hw es start (no_callers c) (no_callers_ok c start) Hes) as Hrun.
  rewrite Hs in Hrun. destruct Hrun as [[Hl _ _ _ Hreq _] _]. intros est now Hest Hnow Hfit.
  destruct (check_decision c Hw _ (records s) (limiter s) est now Hl Hnow Hfit) as [Hcheck Hafter].
  eexists _, _. split; [exact Hcheck|]. set (live := since _ (records s)) in *. split_and!.
  - intros Hall. unfold live. rewrite since_none by (eapply Forall_impl; [done|]; cbn; lia).
    by apply decision_empty.
  - intros Hbig. destruct (decision_too_large c live est now) as [wait ->]; [lia..|done].
  - intros wait H0 Hone Hd. apply (wait_exact c Hw (records s) _ est now wait); try done.
    destruct (Z.eq_dec (RateLimitConfig.max_requests_per_window c) 0) as [Hz|Hz].
    { rewrite decision_requests in Hd by done. by rewrite decide_False in Hd by lia. }
    destruct (Hreq ltac:(lia)) as [_ Hwin]. specialize (Hwin now). rewrite total_ones in Hwin.
    destruct Hafter as (_ & _ & _ & _ & Hle). rewrite in_window_live in Hwin by done.
    unfold request_bound in Hwin. lia.
Qed.

Lemma rate_limit_liveness_witness :
  ∃ l' answer,
    RateLimiter.check (RateLimiter.Mk (RateLimitConfig.Mk 1 0 10) [1] [(1, 50)]) 5 4 = Some (l', answer)
    ∧ answer = Err 7
    ∧ (RateLimiter.check l' 5 11 ≫= λ a, Some a.2) = Some (Err 0)
    ∧ (RateLimiter.check l' 5 12 ≫= λ a, Some a.2) = Some (Ok tt).
Proof.
  destruct (rate_limit_liveness (RateLimitConfig.Mk 1 0 10) [Ask 0 60; Finish 0 1 50] 0
              (Callers (RateLimiter.Mk (RateLimitConfig.Mk 1 0 10) [1] [(1, 50)]) [] [(1, 50)] 1 true))
    with (est := 5) (now := 4) as (l' & answer & Hc & _ & _ & Hwait);
    [cbn; lia|cbn; lia|cbn; unfold u32_max; lia|cbn; unfold u32_max; lia|vm_compute; reflexivity|unfold u32_max; lia|cbn; lia
    |vm_compute; discriminate|].
  exists l', answer. split; [exact Hc|].
  assert (answer = Err 7) as -> by (vm_compute in Hc; congruence). split; [reflexivity|].
  destruct (Hwait 7 eq_refl ltac:(cbn; lia) eq_refl) as (_ & H1 & H2). split; [exact H1|]. apply H2. lia.
Defined.

(** ** Errors *)

Inductive ErrorOrigin : Set := Structural | Provider | Transport | Compute.
Inductive ErrorPersistence : Set := Transient | Permanent | Unknown.

Definition is_transient (p : ErrorPersistence) : bool := match p with Transient => true | _ => false end.

Definition classify_status (status : Z) : ErrorOrigin * ErrorPersistence :=
  match status with
  | 400 => (Structural, Permanent)
  | 401 => (Provider, Permanent)
  | 403 => (Provider, Permanent)
  | 404 => (Provider, Permanent)
  | 408 => (Transport, Transient)
  | 429 => (Provider, Transient)
  | 500 => (Provider, Transient)
  | 502 => (Transport, Transient)
  | 503 => (Provider, Transient)
  | _ => (Provider, Unknown)
  end.

Module LlmError.
Record t := Mk {
  origin : ErrorOrigin;
  persistence : ErrorPersistence;
  code : option string;
  message : string;
  status : option Z;
  retryable : bool;
}.

Definition from_status (status : Z) (message : string) : t :=
  let '(origin, persistence) := classify_status status in
  Mk origin persistence None message (Some status) (is_transient persistence).

Definition transport (message : string) (transient : bool) : t :=
  let persistence := if transient then Transient else Permanent in
  Mk Transport persistence None message None transient.

Definition structural (message : string) : t := Mk Structural Permanent None message None false.
Definition compute (message : string) : t := Mk Compute Permanent None message None false.
End LlmError.

(** ** Retries *)

Inductive BackoffStrategy : Set := Fixed | Exponential.

Module RetryConfig.
Record t := Mk {
  max_retries : Z;
  base_delay_ms : Z;
  backoff : BackoffStrategy;
  honor_retry_after : bool;
  max_retry_duration_ms : Z;
}.

Definition default : t := Mk 2 1000 Exponential true 30000.
End RetryConfig.

Definition saturating_mul64 (a b : Z) : Z := Z.min u64_max (a * b).

(** [2u64.saturating_pow(n)] *)
Definition saturating_pow2 (n : Z) : Z := if n <? 64 then 2 ^ n else u64_max.

(** [random_range hi] is what rand's [random_range(0..=hi)] returned. *)
Definition compute_delay (random_range : Z → Z) (config : RetryConfig.t) (attempt : Z) : Z :=
  let base := match RetryConfig.backoff config with
              | Fixed => RetryConfig.base_delay_ms config
              | Exponential => saturating_mul64 (RetryConfig.base_delay_ms config) (saturating_pow2 attempt)
              end in
  let base := Z.min base 3600000 in
  let jitter_range := base / 4 in
  let jitter := if 0 <? jitter_range then random_range (jitter_range * 2) - jitter_range else 0 in
  let delay := Z.max (base + jitter) 1 in
  from_millis delay.

Definition should_retry (error : LlmError.t) : bool := is_transient (LlmError.persistence error).

Definition apply_retry_after (computed : Z) (retry_after_ms : option Z) (config : RetryConfig.t) : Z :=
  match RetryConfig.honor_retry_after config, retry_after_ms with
  | true, Some after_ms => Z.max computed (from_millis after_ms)
  | _, _ => computed
  end.

(** The delay without jitter, in exact arithmetic: doubling up to an hour. *)
Definition nominal_delay (config : RetryConfig.t) (attempt : Z) : Z :=
  Z.min 3600000 (match RetryConfig.backoff config with
                 | Fixed => RetryConfig.base_delay_ms config
                 | Exponential => RetryConfig.base_delay_ms config * 2 ^ attempt
                 end).

Lemma saturating_pow2_le n : 0 ≤ n → saturating_pow2 n ≤ 2 ^ n.
Proof.
  intros Hn. unfold saturating_pow2. destruct (Z.ltb_spec n 64); [done|].
  etransitivity; [|apply (Z.pow_le_mono_r 2 64 n); lia]. vm_compute. discriminate.
Qed.

Lemma nominal_delay_code config attempt :
  0 ≤ RetryConfig.base_delay_ms config → 0 ≤ attempt →
  Z.min (match RetryConfig.backoff config with
         | Fixed => RetryConfig.base_delay_ms config
         | Exponential => saturating_mul64 (RetryConfig.base_delay_ms config) (saturating_pow2 attempt)
         end) 3600000 = nominal_delay config attempt.
Proof.
  intros Hb Ha. unfold nominal_delay. rewrite Z.min_comm. destruct (RetryConfig.backoff config); [done|].
  unfold saturating_mul64, u64_max. rewrite Z.min_assoc, (Z.min_l 3600000 18446744073709551615) by lia.
  unfold saturating_pow2. destruct (Z.ltb_spec attempt 64) as [|Hge]; [done|].
  destruct (Z.eq_dec (RetryConfig.base_delay_ms config) 0) as [->|Hne]; [done|].
  pose proof (Z.pow_le_mono_r 2 64 attempt ltac:(lia) Hge) as Hpow.
  change (2 ^ 64) with 18446744073709551616 in Hpow. unfold u64_max. rewrite !Z.min_l; nia.
Qed.

(** Bounds of the retry delay.  For whatever the generator returns in its range, the
    delay is within a quarter of the nominal one, which is the base delay, doubled per
    attempt for exponential backoff, capped at one hour; saturation never shows.  It is
    at least a millisecond and at most 75 minutes, and a Retry-After header, when
    honoured, can only lengthen it, to at least what the header says. *)
Theorem retry_delay_bounds (random_range : Z → Z) (config : RetryConfig.t) (attempt : Z)
    (retry_after_ms : option Z) :
  (∀ hi, 0 ≤ hi → 0 ≤ random_range hi ≤ hi) →
  0 ≤ RetryConfig.base_delay_ms config → 0 ≤ attempt →
  let n := nominal_delay config attempt in
  let d := compute_delay random_range config attempt in
  from_millis (Z.max 1 (n - n / 4)) ≤ d ≤ from_millis (Z.max 1 (n + n / 4))
  ∧ from_millis 1 ≤ d ≤ from_millis 4500000
  ∧ d ≤ apply_retry_after d retry_after_ms config
  ∧ (∀ ms, RetryConfig.honor_retry_after config = true → retry_after_ms = Some ms →
       from_millis ms ≤ apply_retry_after d retry_after_ms config)
  ∧ (RetryConfig.backoff config = Exponential →
     nominal_delay config (attempt + 1) = Z.min 3600000 (2 * n)).
Proof.
  intros Hrand Hb Ha n d. unfold d, compute_delay. cbv zeta. rewrite nominal_delay_code by done. fold n.
  assert (0 ≤ n ≤ 3600000) as Hn.
  { unfold n, nominal_delay. destruct (RetryConfig.backoff config); [lia|].
    pose proof (Z.pow_nonneg 2 attempt). nia. }
  set (j := if 0 <? n / 4 then random_range (n / 4 * 2) - n / 4 else 0).
  assert (- (n / 4) ≤ j ≤ n / 4) as Hj.
  { unfold j. pose proof (Z.div_pos n 4). destruct (Z.ltb_spec 0 (n / 4)); [|lia].
    specialize (Hrand (n / 4 * 2)). lia. }
  assert (4 * (n / 4) ≤ n) as Hdiv by (apply Z.mul_div_le; lia). unfold from_millis in *.
  split_and!; try lia.
  - unfold apply_retry_after. destruct (RetryConfig.honor_retry_after config), retry_after_ms;
      unfold from_millis; lia.
  - intros ms Hh ->. unfold apply_retry_after. rewrite Hh. unfold from_millis. lia.
  - intros He. unfold n, nominal_delay. rewrite He, Z.pow_add_r by lia. change (2 ^ 1) with 2.
    pose proof (Z.pow_nonneg 2 attempt). nia.
Qed.

Lemma retry_delay_bounds_witness :
  from_millis 3000 ≤ compute_delay (λ hi, 0) RetryConfig.default 2 ≤ from_millis 5000.
Proof.
  destruct (retry_delay_bounds (λ hi, 0) RetryConfig.default 2 None) as [H _];
    [lia|cbn; lia|lia|]. exact H.
Defined.

(** ** Cost *)

Module TokenUsage.
Record t := Mk { input_tokens : Z; output_tokens : Z }.

Definition total (self : t) : Z := saturating_add32 (input_tokens self) (output_tokens self).
End TokenUsage.

Module Cost.
Record t := Mk { amount_micros : Z; currency : string }.

Definition usd (amount_micros : Z) : t := Mk amount_micros "USD".
End Cost.

Record ModelPricing := {
  input_price_micros_per_m : Z;
  output_price_micros_per_m : Z;
}.

(** The products are [u64] and wrap in the release profile. *)
Definition calculate_cost (usage : TokenUsage.t) (pricing : ModelPricing) : Cost.t :=
  let input_cost := wrap64 (TokenUsage.input_tokens usage * input_price_micros_per_m pricing) / 1000000 in
  let output_cost := wrap64 (TokenUsage.output_tokens usage * output_price_micros_per_m pricing) / 1000000 in
  Cost.usd (wrap64 (input_cost + output_cost)).

(** [Iterator::max_by_key]: the last of the elements with the largest key. *)
Definition max_by_key {A} (key : A → Z) (l : list A) : option A :=
  fold_left (λ best e, match best with
                       | None => Some e
                       | Some b => if key b <=? key e then Some e else Some b
                       end) l None.

Definition lookup_pricing (model : string) (table : list (string * ModelPricing)) : option ModelPricing :=
  snd <$> max_by_key (λ e, str_len e.1) (filter (λ e, String.prefix e.1 model = true) table).

Definition price (i o : Z) : ModelPricing :=
  {| input_price_micros_per_m := i; output_price_micros_per_m := o |}.

Definition ANTHROPIC_PRICING : list (string * ModelPricing) :=
  [ ("claude-opus-4", price 15000000 75000000);
    ("claude-sonnet-4", price 3000000 15000000);
    ("claude-haiku-4", price 800000 4000000) ].

Definition OPENAI_PRICING : list (string * ModelPricing) :=
  [ ("gpt-4o", price 2500000 10000000);
    ("gpt-4o-mini", price 150000 600000);
    ("o3", price 2000000 8000000);
    ("o3-mini", price 1100000 4400000);
    ("o4-mini", price 1100000 4400000) ].

Module CostTracker.
Record t := Mk { workspace_costs : gmap string Z; total_micros : Z }.

Definition new : t := Mk ∅ 0.

Definition record (self : t) (workspace_id : option string) (cost : Cost.t) : t :=
  let total_micros := wrap64 (total_micros self + Cost.amount_micros cost) in
  match workspace_id with
  | Some ws =>
      Mk (<[ws := wrap64 (default 0 (workspace_costs self !! ws) + Cost.amount_micros cost)]>
            (workspace_costs self)) total_micros
  | None => Mk (workspace_costs self) total_micros
  end.

Definition workspace_total (self : t) (workspace_id : string) : Z :=
  default 0 (workspace_costs self !! workspace_id).

End CostTracker.

(** *** Pricing picks the longest matching prefix *)

Lemma max_by_key_spec {A} (key : A → Z) l :
  match max_by_key key l with
  | None => l = []
  | Some b => b ∈ l ∧ Forall (λ e, key e ≤ key b) l
  end.
Proof.
  unfold max_by_key. induction l as [|x l IH] using rev_ind; [done|]. rewrite fold_left_app. cbn.
  destruct (fold_left _ l None) as [b|] eqn:Hf.
  - destruct IH as [Hb Hall]. destruct (Z.leb_spec (key b) (key x)).
    + split; [set_solver|]. apply Forall_app. split; [|by repeat constructor].
      eapply Forall_impl; [done|]. cbn. lia.
    + split; [set_solver|]. apply Forall_app. split; [done|]. repeat constructor. lia.
  - subst l. split; [set_solver|]. by repeat constructor.
Qed.

Lemma prefix_same_length p q s :
  String.prefix p s = true → String.prefix q s = true → String.length p = String.length q → p = q.
Proof.
  rewrite !String.prefix_correct. intros Hp Hq Hl.
  transitivity (String.substring 0 (String.length p) s); [done|]. by rewrite Hl.
Qed.

(** Pricing.  A model has no price exactly when no prefix of the table matches its
    name; otherwise it gets the price of a matching entry, and every other matching
    prefix is shorter or the same.  So dated OpenAI mini models are billed at the mini
    price although the plain prefix matches them too. *)
Theorem pricing_longest_prefix (model : string) (table : list (string * ModelPricing)) :
  match lookup_pricing model table with
  | None => ∀ prefix p, (prefix, p) ∈ table → String.prefix prefix model = false
  | Some p => ∃ prefix, (prefix, p) ∈ table ∧ String.prefix prefix model = true
      ∧ ∀ prefix' p', (prefix', p') ∈ table → String.prefix prefix' model = true →
          prefix' = prefix ∨ str_len prefix' < str_len prefix
  end
  ∧ ∀ suffix, lookup_pricing ("gpt-4o-mini" +:+ suffix) OPENAI_PRICING = Some (price 150000 600000)
              ∧ lookup_pricing ("o3-mini" +:+ suffix) OPENAI_PRICING = Some (price 1100000 4400000).
Proof.
  split.
  - unfold lookup_pricing.
    pose proof (max_by_key_spec (λ e : string * ModelPricing, str_len e.1)
                  (filter (λ e, String.prefix e.1 model = true) table)) as Hspec.
    destruct (max_by_key _ _) as [[prefix p]|]; cbn.
    + destruct Hspec as [[Hm Hin]%list_elem_of_filter Hall]. cbn in Hm. exists prefix. split_and!; [done..|].
      intros prefix' p' Hin' Hm'. rewrite Forall_forall in Hall.
      specialize (Hall (prefix', p')). cbn in Hall.
      assert (str_len prefix' ≤ str_len prefix) as Hle by (apply Hall, list_elem_of_filter; done).
      destruct (decide (String.length prefix' = String.length prefix)) as [Heq|Hne].
      * left. by apply (prefix_same_length _ _ model).
      * right. unfold str_len in *. lia.
    + intros prefix p Hin. apply not_true_iff_false. intros Hm.
      assert ((prefix, p) ∈ filter (λ e, String.prefix e.1 model = true) table) as Hf
        by (by apply list_elem_of_filter). rewrite Hspec in Hf. set_solver.
  - intros [|ch suffix]; split; reflexivity.
Qed.

(** *** The tracker is a ledger *)

Definition track (h : list (option string * Cost.t)) : CostTracker.t :=
  fold_left (λ tr e, CostTracker.record tr e.1 e.2) h CostTracker.new.

Definition amounts (h : list (option string * Cost.t)) : list Z := (λ e, Cost.amount_micros e.2) <$> h.

Definition charged_to (ws : string) (h : list (option string * Cost.t)) : list (option string * Cost.t) :=
  filter (λ e, e.1 = Some ws) h.

Lemma track_mod h :
  CostTracker.total_micros (track h) = wrap64 (total (amounts h))
  ∧ (∀ ws, CostTracker.workspace_total (track h) ws = wrap64 (total (amounts (charged_to ws h))))
  ∧ ∀ ws, is_Some (CostTracker.workspace_costs (track h) !! ws) ↔ Some ws ∈ h.*1.
Proof.
  unfold track, charged_to, amounts, CostTracker.workspace_total.
  induction h as [|[o cost] h (IHt & IHw & IHd)] using rev_ind.
  { cbn. split_and!; [done|intros; by rewrite lookup_empty|].
    intros ws. rewrite lookup_empty. split; [by intros []|set_solver]. }
  rewrite fold_left_app, fmap_app, total_app. cbn [fold_left].
  assert (∀ ws, filter (λ e : option string * Cost.t, e.1 = Some ws) (h ++ [(o, cost)])
    = filter (λ e, e.1 = Some ws) h ++ (if decide (o = Some ws) then [(o, cost)] else [])) as Hf.
  { intros ws. rewrite filter_app. by f_equal. }
  set (tr := fold_left _ h _) in *. destruct o as [ws|]; cbn; (split_and!; [|intros ws'|intros ws']).
  - rewrite IHt, wrap64_add. by rewrite Z.add_0_r.
  - rewrite Hf, fmap_app, total_app, lookup_insert. case_decide as Heq.
    + subst ws'. rewrite (decide_True (P := Some ws = Some ws)) by done. cbn.
      rewrite IHw, wrap64_add. by rewrite Z.add_0_r.
    + rewrite (decide_False (P := Some ws = Some ws')) by congruence. cbn. by rewrite Z.add_0_r.
  - rewrite fmap_app, elem_of_app. cbn. rewrite list_elem_of_singleton, <-IHd, lookup_insert.
    case_decide; naive_solver.
  - rewrite IHt, wrap64_add. by rewrite Z.add_0_r.
  - rewrite Hf, fmap_app, total_app. rewrite decide_False by done. cbn. by rewrite Z.add_0_r.
  - rewrite fmap_app, elem_of_app. cbn. rewrite list_elem_of_singleton, <-IHd. naive_solver.
Qed.

Lemma total_amounts_nonneg h : Forall (λ e, 0 ≤ Cost.amount_micros e.2) h → 0 ≤ total (amounts h).
Proof. unfold amounts. induction 1; [done|]. rewrite fmap_cons. cbn [total]. lia. Qed.

Lemma total_charged_le ws h :
  Forall (λ e, 0 ≤ Cost.amount_micros e.2) h →
  0 ≤ total (amounts (charged_to ws h)) ≤ total (amounts h).
Proof.
  unfold amounts, charged_to. induction 1 as [|e h He _ IH]; [done|]. rewrite filter_cons, fmap_cons.
  case_decide; rewrite ?fmap_cons; cbn [total]; lia.
Qed.

(** Cost accounting.  The cost of a call with 32-bit prices is the rounded-down cost
    of its input plus that of its output, without overflow, so it is at most two
    microdollars below the exact price.  While the costs recorded sum to less than
    2^64, the tracker's total is their sum, a workspace's total is the sum of what was
    recorded for it, and exactly the workspaces named have an entry. *)
Theorem costs_exact (usage : TokenUsage.t) (pricing : ModelPricing) (h : list (option string * Cost.t)) :
  0 ≤ TokenUsage.input_tokens usage ≤ u32_max → 0 ≤ TokenUsage.output_tokens usage ≤ u32_max →
  0 ≤ input_price_micros_per_m pricing ≤ u32_max → 0 ≤ output_price_micros_per_m pricing ≤ u32_max →
  Forall (λ e, 0 ≤ Cost.amount_micros e.2) h → total (amounts h) ≤ u64_max →
  let exact := TokenUsage.input_tokens usage * input_price_micros_per_m pricing
               + TokenUsage.output_tokens usage * output_price_micros_per_m pricing in
  exact - 2000000 < 1000000 * Cost.amount_micros (calculate_cost usage pricing) ≤ exact
  ∧ CostTracker.total_micros (track h) = total (amounts h)
  ∧ (∀ ws, CostTracker.workspace_total (track h) ws = total (amounts (charged_to ws h)))
  ∧ ∀ ws, is_Some (CostTracker.workspace_costs (track h) !! ws) ↔ Some ws ∈ h.*1.
Proof.
  intros Hi Ho Hip Hop Hh Hmax exact. destruct (track_mod h) as (Ht & Hws & Hd). split.
  - unfold calculate_cost, exact. cbn [Cost.amount_micros Cost.usd].
    set (a := TokenUsage.input_tokens usage * _). set (b := TokenUsage.output_tokens usage * _).
    assert (0 ≤ a ≤ u32_max * u32_max) as Ha by (unfold a; nia).
    assert (0 ≤ b ≤ u32_max * u32_max) as Hb by (unfold b; nia).
    unfold u32_max in Ha, Hb. rewrite !(wrap64_small a), !(wrap64_small b) by solve_range.
    pose proof (Z.div_mod a 1000000) as Hda. pose proof (Z.mod_pos_bound a 1000000) as Hma.
    pose proof (Z.div_mod b 1000000) as Hdb. pose proof (Z.mod_pos_bound b 1000000) as Hmb.
    rewrite wrap64_small by solve_range. lia.
  - split_and!; [|intros ws|done].
    + rewrite Ht. apply wrap64_small. pose proof (total_amounts_nonneg h Hh). solve_range.
    + rewrite Hws. apply wrap64_small. pose proof (total_charged_le ws h Hh). solve_range.
Qed.

Lemma costs_exact_witness :
  CostTracker.workspace_total (track [(Some "a", Cost.usd 5); (None, Cost.usd 7); (Some "a", Cost.usd 2)]) "a" = 7
  ∧ 1000000 * Cost.amount_micros (calculate_cost (TokenUsage.Mk 1000 1) (price 15000000 75000000))
    ≤ 1000 * 15000000 + 1 * 75000000.
Proof.
  destruct (costs_exact (TokenUsage.Mk 1000 1) (price 15000000 75000000)
              [(Some "a", Cost.usd 5); (None, Cost.usd 7); (Some "a", Cost.usd 2)]) as (H1 & _ & H3 & _);
    try (cbn; unfold u32_max, u64_max; lia); [repeat constructor; cbn; lia|].
  split; [rewrite (H3 "a"); vm_compute; reflexivity|]. apply H1.
Defined.
