(* ===== verification/SerdeJson.v ===== *)
(** * JSON values (serde_json)

    The documented data type of serde_json: the value enum with the accessors the code
    calls on it, the values of the [json!] macro and assignment to a key.  An object is a
    finite map, as equality of two [Value]s does not see the order of keys.  Reading and
    writing text is a parameter, [JsonCodec]. *)

From S2P Require Import Prelude Std Float.

Module Number.
Inductive t : Type :=
| PosInt (n : Z)
| NegInt (n : Z)
| Float (x : spec_float).
End Number.

Module Value.
Inductive t : Type :=
| Null
| Bool (b : bool)
| Number (n : Number.t)
| String (s : string)
| Array (l : list t)
| Object (m : gmap string t).

(** [Value::get] with a string: [None] unless the value is an object with the key. *)
Definition get (v : t) (k : string) : option t :=
  match v with Object m => m !! k | _ => None end.

Definition as_str (v : t) : option string := match v with String s => Some s | _ => None end.
Definition as_bool (v : t) : option bool := match v with Bool b => Some b | _ => None end.
Definition as_array (v : t) : option (list t) := match v with Array l => Some l | _ => None end.
Definition as_object (v : t) : option (gmap string t) := match v with Object m => Some m | _ => None end.

(** Only a number written without a point, and not negative, is a [u64]. *)
Definition as_u64 (v : t) : option Z :=
  match v with Number (Number.PosInt n) => Some n | _ => None end.

(** [json!(x)] of an integer and of a float; a float that is not finite is [null]. *)
Definition of_uint (n : Z) : t := Number (Number.PosInt n).

Definition of_int (n : Z) : t := if n <? 0 then Number (Number.NegInt n) else of_uint n.

Definition of_f64 (x : spec_float) : t :=
  match x with
  | S754_zero _ | S754_finite _ _ _ => Number (Number.Float x)
  | S754_infinity _ | S754_nan => Null
  end.

Definition of_strings (l : list string) : t := Array (String <$> l).

Definition of_opt {A} (f : A → t) (o : option A) : t := match o with Some a => f a | None => Null end.

(** [v[k] = x]: [null] becomes an object first; assigning to a key of anything else
    panics, which no caller does: every value assigned to is built as an object. *)
Definition assign (k : string) (x : t) (v : t) : t :=
  match v with
  | Object m => Object (<[k := x]> m)
  | Null => Object {[ k := x ]}
  | _ => v
  end.

(** The chains of the parsers: [v.get(k).and_then(|v| v.as_str())] and the like. *)
Definition get_str (v : t) (k : string) : option string := get v k ≫= as_str.
Definition get_u64 (v : t) (k : string) : option Z := get v k ≫= as_u64.
Definition get_array (v : t) (k : string) : option (list t) := get v k ≫= as_array.
End Value.

(** [serde_json::from_str], [None] where it returns an error, and [to_string]. *)
Class JsonCodec : Type := {
  from_str : string → option Value.t;
  to_string : Value.t → string;
}.

(** [from_str::<Vec<String>>] *)
Definition read_strings `{JsonCodec} (s : string) : option (list string) :=
  v ← from_str s; l ← Value.as_array v; mapM (M := option) Value.as_str l.

(** Values whose text reads back as the value: serde_json guarantees it for every value
    without floats. *)
Definition reads_back `{JsonCodec} (v : Value.t) : Prop := from_str (to_string v) = Some v.

Lemma get_assign k k' x m :
  Value.get (Value.assign k x (Value.Object m)) k' =
  if decide (k = k') then Some x else Value.get (Value.Object m) k'.
Proof. cbn. rewrite lookup_insert. by case_decide. Qed.
