(* ===== verification/Providers.v ===== *)
(** * Model providers and response streams (wacp-llm)

    types.rs, stream.rs, the options of adapter.rs, the request and response formats of
    providers/anthropic.rs and providers/openai.rs, the canned provider of
    providers/stub.rs, and the choice of an adapter in providers/mod.rs.  JSON text,
    SHA-256, the YAML parser and the file system are parameters.  How an assistant's
    turn is read back from either provider's format is shown; an event stream of the
    Anthropic protocol is shown to add up to the message it streams, and the two ways of
    calling the canned provider to agree. *)

From Stdlib Require Import Ascii.
From S2P Require Import Prelude Std Float SerdeJson Llm.

(** ** types.rs *)

Module Role.
Inductive t : Set := System | User | Assistant | Tool.
#[global] Instance t_eq_dec : EqDecision t.
Proof. solve_decision. Defined.
End Role.

Module ContentBlock.
Inductive t : Type :=
| Text (text : string)
| ToolUse (id name : string) (input : Value.t)
| ToolResult (tool_use_id content : string) (is_error : bool).
End ContentBlock.

Module Content.
Inductive t : Type :=
| Text (s : string)
| Blocks (blocks : list ContentBlock.t).

Definition block_text (b : ContentBlock.t) : option string :=
  match b with ContentBlock.Text text => Some text | _ => None end.

Definition as_text (self : t) : option string :=
  match self with
  | Text s => Some s
  | Blocks blocks => head (omap block_text blocks)
  end.
End Content.

Module Message.
Record t : Type := mk { role : Role.t; content : Content.t }.

Definition system (text : string) : t := mk Role.System (Content.Text text).
Definition user (text : string) : t := mk Role.User (Content.Text text).
Definition assistant (text : string) : t := mk Role.Assistant (Content.Text text).
Definition tool_result (tool_use_id content : string) (is_error : bool) : t :=
  mk Role.Tool (Content.Blocks [ContentBlock.ToolResult tool_use_id content is_error]).
End Message.

Module ToolDefinition.
Record t : Type := mk { name : string; description : string; input_schema : Value.t }.
End ToolDefinition.

(** ** result.rs and adapter.rs *)

Module ToolCall.
Record t : Type := mk { id : string; name : string; arguments : Value.t }.
End ToolCall.

Module CompletionResult.
Record t : Type := mk {
  content : string;
  tool_calls : list ToolCall.t;
  usage : TokenUsage.t;
  cost : option Cost.t;
  model : string;
  latency_ms : Z;
  truncated : bool;
}.
End CompletionResult.

Module ModelInfo.
Record t : Type := mk {
  id : string;
  name : option string;
  max_context : option Z;
  max_output : option Z;
  supports_tools : bool;
  supports_streaming : bool;
}.
End ModelInfo.

Module ProviderHealth.
Record t : Type := mk {
  healthy : bool; latency_ms : option Z; error : option string; models_available : Z;
}.
End ProviderHealth.

Module CompletionOptions.
Record t : Type := mk {
  model : option string;
  max_tokens : option Z;
  temperature : option spec_float;
  stop : list string;
  tools : list ToolDefinition.t;
  timeout_ms : option Z;
  extra : Value.t;
}.

Definition default : t := mk None None None [] [] None Value.Null.
Definition with_model (model : string) : t := mk (Some model) None None [] [] None Value.Null.
End CompletionOptions.

(** ** stream.rs *)

Module StreamEvent.
Inductive t : Type :=
| ContentDelta (delta : string)
| ToolCallDelta (index : Z) (id name arguments_delta : option string)
| Usage (usage : TokenUsage.t)
| Done.
End StreamEvent.

Module SseLine.
Inductive t : Type :=
| Event (event : string)
| Data (data : string)
| Done
| Empty
| Comment.
End SseLine.

(** [trim_end_matches('\r')] *)
Fixpoint trim_end_cr (s : string) : string :=
  match s with
  | EmptyString => ""
  | String c s =>
      match trim_end_cr s with
      | EmptyString => if decide (c = "013"%char) then "" else String c ""
      | rest => String c rest
      end
  end.

Definition parse_sse_line (line : string) : option SseLine.t :=
  let line := trim_end_cr line in
  if is_empty line then Some SseLine.Empty
  else match strip_prefix "event:" line with
  | Some event => Some (SseLine.Event (trim_str event))
  | None =>
      match strip_prefix "data:" line with
      | Some data =>
          let data := trim_str data in
          if (data =? "[DONE]")%string then Some SseLine.Done else Some (SseLine.Data data)
      | None =>
          if starts_with ":" line then Some SseLine.Comment else Some (SseLine.Data line)
      end
  end.

(** [v as u32] of a [u64] keeps the low bits. *)
Definition as_u32 (z : Z) : Z := wrap32 z.

Section parsers.
Context `{JsonCodec}.
Import Value.

(** The [match] of [parse_anthropic_event] on the parsed payload. *)
Definition anthropic_event (event_type : string) (json : Value.t) : option StreamEvent.t :=
  if (event_type =? "content_block_delta")%string then
    delta ← get json "delta";
    delta_type ← get_str delta "type";
    if (delta_type =? "text_delta")%string then
      text ← get_str delta "text";
      Some (StreamEvent.ContentDelta text)
    else if (delta_type =? "input_json_delta")%string then
      partial ← get_str delta "partial_json";
      index ← get_u64 json "index";
      Some (StreamEvent.ToolCallDelta (as_u32 index) None None (Some partial))
    else None
  else if (event_type =? "content_block_start")%string then
    content_block ← get json "content_block";
    block_type ← get_str content_block "type";
    if (block_type =? "tool_use")%string then
      index ← get_u64 json "index";
      Some (StreamEvent.ToolCallDelta (as_u32 index) (get_str content_block "id")
              (get_str content_block "name") None)
    else None
  else if (event_type =? "message_delta")%string then
    match get json "usage" with
    | Some usage =>
        let output := as_u32 (default 0 (get_u64 usage "output_tokens")) in
        Some (StreamEvent.Usage (TokenUsage.Mk 0 output))
    | None => None
    end
  else if (event_type =? "message_start")%string then
    match get json "message" ≫= λ m, get m "usage" with
    | Some usage =>
        let input := as_u32 (default 0 (get_u64 usage "input_tokens")) in
        Some (StreamEvent.Usage (TokenUsage.Mk input 0))
    | None => None
    end
  else if (event_type =? "message_stop")%string then Some StreamEvent.Done
  else None.

Definition parse_anthropic_event (event_type data : string) : option StreamEvent.t :=
  json ← from_str data;
  anthropic_event event_type json.

Definition parse_openai_event (data : string) : option StreamEvent.t :=
  json ← from_str data;
  let delta_event :=
    choices ← get_array json "choices";
    choice ← head choices;
    delta ← get choice "delta";
    let tool_event :=
      tool_calls ← get_array delta "tool_calls";
      tc ← head tool_calls;
      Some (StreamEvent.ToolCallDelta (as_u32 (default 0 (get_u64 tc "index"))) (get_str tc "id")
              (get tc "function" ≫= λ f, get_str f "name")
              (get tc "function" ≫= λ f, get_str f "arguments")) in
    match get_str delta "content" with
    | Some content => if is_empty content then tool_event else Some (StreamEvent.ContentDelta content)
    | None => tool_event
    end in
  match get json "usage" with
  | Some usage =>
      let input := as_u32 (default 0 (get_u64 usage "prompt_tokens")) in
      let output := as_u32 (default 0 (get_u64 usage "completion_tokens")) in
      if (0 <? input) || (0 <? output)
      then Some (StreamEvent.Usage (TokenUsage.Mk input output))
      else delta_event
  | None => delta_event
  end.

Definition parse_ndjson_event (data : string) : option StreamEvent.t :=
  json ← from_str data;
  match get json "done" ≫= as_bool with
  | Some true =>
      match get_u64 json "prompt_eval_count", get_u64 json "eval_count" with
      | Some prompt, Some eval_ =>
          Some (StreamEvent.Usage (TokenUsage.Mk (as_u32 prompt) (as_u32 eval_)))
      | _, _ => Some StreamEvent.Done
      end
  | _ =>
      let nonempty (o : option string) : option StreamEvent.t :=
        s ← o; if is_empty s then None else Some (StreamEvent.ContentDelta s) in
      match nonempty (get_str json "response") with
      | Some event => Some event
      | None => nonempty (get json "message" ≫= λ m, get_str m "content")
      end
  end.
End parsers.

(** ** providers/anthropic.rs *)

Definition nl : string := String "010"%char "".

(** Text pieces and tool uses of a list of blocks, in order. *)
Definition block_call (b : ContentBlock.t) : option ToolCall.t :=
  match b with ContentBlock.ToolUse id name input => Some (ToolCall.mk id name input) | _ => None end.

Module Anthropic.
Import Value.

Definition block_to_anthropic (block : ContentBlock.t) : Value.t :=
  match block with
  | ContentBlock.Text text => Object {[ "type" := String "text"; "text" := String text ]}
  | ContentBlock.ToolUse id name input =>
      Object {[ "type" := String "tool_use"; "id" := String id; "name" := String name; "input" := input ]}
  | ContentBlock.ToolResult tool_use_id content is_error =>
      Object {[ "type" := String "tool_result"; "tool_use_id" := String tool_use_id;
                "content" := String content; "is_error" := Bool is_error ]}
  end.

(** [None] is the panic of [unreachable!] on a system message. *)
Definition message_to_anthropic (msg : Message.t) : option Value.t :=
  role ← match Message.role msg with
         | Role.User | Role.Tool => Some "user"
         | Role.Assistant => Some "assistant"
         | Role.System => None
         end;
  let content := match Message.content msg with
                 | Content.Text s => String s
                 | Content.Blocks blocks => Array (block_to_anthropic <$> blocks)
                 end in
  Some (Object {[ "role" := String role; "content" := content ]}).

Definition tool_to_anthropic (tool : ToolDefinition.t) : Value.t :=
  Object {[ "name" := String (ToolDefinition.name tool);
            "description" := String (ToolDefinition.description tool);
            "input_schema" := ToolDefinition.input_schema tool ]}.

Definition build_request (messages : list Message.t) (model : string) (max_tokens : Z)
    (temperature : option spec_float) (stop : list string) (tools : list ToolDefinition.t)
    (stream : bool) : option Value.t :=
  let system_text :=
    omap (λ m, Content.as_text (Message.content m)) (filter (λ m, Message.role m = Role.System) messages) in
  api_messages ← mapM message_to_anthropic (filter (λ m, Message.role m ≠ Role.System) messages);
  let body := Object {[ "model" := String model; "max_tokens" := of_uint max_tokens;
                        "messages" := Array api_messages; "stream" := Bool stream ]} in
  let body := if bool_decide (system_text = []) then body
              else assign "system" (String (String.concat (nl +:+ nl) system_text)) body in
  let body := match temperature with Some temp => assign "temperature" (of_f64 temp) body | None => body end in
  let body := if bool_decide (stop = []) then body else assign "stop_sequences" (of_strings stop) body in
  Some (match tools with [] => body | _ => assign "tools" (Array (tool_to_anthropic <$> tools)) body end).

Definition parse_usage (body : Value.t) : TokenUsage.t :=
  let usage := get body "usage" in
  TokenUsage.Mk (as_u32 (default 0 (usage ≫= λ u, get_u64 u "input_tokens")))
                (as_u32 (default 0 (usage ≫= λ u, get_u64 u "output_tokens"))).

(** One block of the loop over the content array. *)
Definition read_block (acc : string * list ToolCall.t) (block : Value.t) : string * list ToolCall.t :=
  let block_type := default "" (get_str block "type") in
  if (block_type =? "text")%string then
    match get_str block "text" with Some t => (acc.1 +:+ t, acc.2) | None => acc end
  else if (block_type =? "tool_use")%string then
    (acc.1, acc.2 ++ [ToolCall.mk (default "" (get_str block "id")) (default "" (get_str block "name"))
                        (default (Object ∅) (get block "input"))])
  else acc.

Definition parse_response (body : Value.t) : result CompletionResult.t LlmError.t :=
  let model := default "unknown" (get_str body "model") in
  let? content_blocks :=
    ok_or (get_array body "content") (LlmError.structural "missing 'content' array in response") in
  let '(text, tool_calls) := fold_left read_block content_blocks ("", []) in
  let usage := parse_usage body in
  let pricing := lookup_pricing model ANTHROPIC_PRICING in
  let cost := calculate_cost usage <$> pricing in
  let truncated := bool_decide (get_str body "stop_reason" = Some "max_tokens") in
  Ok (CompletionResult.mk text tool_calls usage cost model 0 truncated).

Definition parse_error (status : Z) (body : Value.t) : LlmError.t :=
  let error_type := default "unknown_error" (get body "error" ≫= λ e, get_str e "type") in
  let message := default "Unknown error" (get body "error" ≫= λ e, get_str e "message") in
  let err := LlmError.from_status status message in
  LlmError.Mk (LlmError.origin err) (LlmError.persistence err) (Some error_type) (LlmError.message err)
    (LlmError.status err) (LlmError.retryable err).

Definition known_models : list ModelInfo.t :=
  [ModelInfo.mk "claude-opus-4-20250514" (Some "Claude Opus 4") (Some 200000) (Some 32000) true true;
   ModelInfo.mk "claude-sonnet-4-20250514" (Some "Claude Sonnet 4") (Some 200000) (Some 16000) true true;
   ModelInfo.mk "claude-haiku-4-20250514" (Some "Claude Haiku 4") (Some 200000) (Some 8000) true true].
End Anthropic.

(** ** providers/openai.rs *)

Module Openai.
Import Value.

Section openai.
Context `{JsonCodec}.

Definition call_to_openai (b : ContentBlock.t) : option Value.t :=
  match b with
  | ContentBlock.ToolUse id name input =>
      Some (Object {[ "id" := String id; "type" := String "function";
                      "function" := Object {[ "name" := String name; "arguments" := String (to_string input) ]} ]})
  | _ => None
  end.

Definition role_str (role : Role.t) : string :=
  match role with
  | Role.System => "system" | Role.User => "user" | Role.Assistant => "assistant" | Role.Tool => "tool"
  end.

Definition message_to_openai (msg : Message.t) : Value.t :=
  let role := role_str (Message.role msg) in
  match Message.content msg with
  | Content.Text s => Object {[ "role" := String role; "content" := String s ]}
  | Content.Blocks blocks =>
      let text := String.concat "" (omap Content.block_text blocks) in
      match Message.role msg, blocks with
      | Role.Tool, ContentBlock.ToolResult tool_use_id content _ :: _ =>
          Object {[ "role" := String "tool"; "tool_call_id" := String tool_use_id; "content" := String content ]}
      | Role.Assistant, _ =>
          let tool_calls := omap call_to_openai blocks in
          let obj := Object {[ "role" := String "assistant" ]} in
          let obj := if is_empty text then obj else assign "content" (String text) obj in
          match tool_calls with [] => obj | _ => assign "tool_calls" (Array tool_calls) obj end
      | _, _ => Object {[ "role" := String role; "content" := String text ]}
      end
  end.

Definition tool_to_openai (tool : ToolDefinition.t) : Value.t :=
  Object {[ "type" := String "function";
            "function" := Object {[ "name" := String (ToolDefinition.name tool);
                                    "description" := String (ToolDefinition.description tool);
                                    "parameters" := ToolDefinition.input_schema tool ]} ]}.

Definition build_request (messages : list Message.t) (model : string) (max_tokens : option Z)
    (temperature : option spec_float) (stop : list string) (tools : list ToolDefinition.t)
    (stream : bool) : Value.t :=
  let body := Object {[ "model" := String model; "messages" := Array (message_to_openai <$> messages);
                        "stream" := Bool stream ]} in
  let body := match max_tokens with Some max => assign "max_completion_tokens" (of_uint max) body | None => body end in
  let body := match temperature with Some temp => assign "temperature" (of_f64 temp) body | None => body end in
  let body := if bool_decide (stop = []) then body else assign "stop" (of_strings stop) body in
  let body := match tools with [] => body | _ => assign "tools" (Array (tool_to_openai <$> tools)) body end in
  if stream then assign "stream_options" (Object {[ "include_usage" := Bool true ]}) body else body.

Definition parse_usage (body : Value.t) : TokenUsage.t :=
  let usage := get body "usage" in
  TokenUsage.Mk (as_u32 (default 0 (usage ≫= λ u, get_u64 u "prompt_tokens")))
                (as_u32 (default 0 (usage ≫= λ u, get_u64 u "completion_tokens"))).

(** One element of the loop over the tool calls; arguments that are not JSON are [{}]. *)
Definition read_call (tc : Value.t) : ToolCall.t :=
  let id := default "" (get_str tc "id") in
  let function := default (Object ∅) (get tc "function") in
  let name := default "" (get_str function "name") in
  let args_str := default "{}" (get_str function "arguments") in
  ToolCall.mk id name (default (Object ∅) (from_str args_str)).

Definition parse_response (body : Value.t) : result CompletionResult.t LlmError.t :=
  let model := default "unknown" (get_str body "model") in
  let? choice := ok_or (get_array body "choices" ≫= head) (LlmError.structural "missing 'choices' in response") in
  let? message := ok_or (get choice "message") (LlmError.structural "missing 'message' in choice") in
  let content := default "" (get_str message "content") in
  let tool_calls := read_call <$> default [] (get_array message "tool_calls") in
  let usage := parse_usage body in
  let pricing := lookup_pricing model OPENAI_PRICING in
  let cost := calculate_cost usage <$> pricing in
  let truncated := bool_decide (get_str choice "finish_reason" = Some "length") in
  Ok (CompletionResult.mk content tool_calls usage cost model 0 truncated).

(** The same text as [Anthropic.parse_error]. *)
Definition parse_error (status : Z) (body : Value.t) : LlmError.t := Anthropic.parse_error status body.
End openai.
End Openai.

(** ** providers/stub.rs *)

Module StubMatcher.
Inductive t : Type :=
| Prefix (value : string)
| Hash (value : string)
| Contains (value : string).
End StubMatcher.

Module StubToolCall.
Record t : Type := mk { id : string; name : string; arguments : Value.t }.
End StubToolCall.

Module StubResponse.
Record t : Type := mk { content : string; output_tokens : Z; tool_calls : list StubToolCall.t }.
End StubResponse.

Module StubEntry.
Record t : Type := mk { matcher : StubMatcher.t; response : StubResponse.t }.
End StubEntry.

Module StubFixtures.
Record t : Type := mk { version : Z; default : option StubResponse.t; entries : list StubEntry.t }.

(** The derived [Default], which does not go through [default_version]. *)
Definition derived_default : t := mk 0 None [].
End StubFixtures.

(** The fields [StubAdapter] holds. *)
Module StubAdapter.
Record t : Type := mk { fixtures : StubFixtures.t; default_model : string; token_delay_ms : Z }.
End StubAdapter.

(** What a stream does when it is polled to its end. *)
Module StreamStep.
Inductive t : Type :=
| Sleep (ms : Z)
| Yield (item : result StreamEvent.t LlmError.t).
End StreamStep.

Module StreamHandle.
Record t : Type := mk { inner : list StreamStep.t; model : string; request_id : option string }.
End StreamHandle.

(** [str::chars] of well-formed text: the encodings of its characters. *)
Definition utf8_chars (s : string) : list string :=
  let bs := as_bytes s in string_of_bytes <$> (utf8_chunks (length bs) bs).*1.

(** [to_lowercase] as far as it can equal a digest in hexadecimal. *)
Fixpoint lower_hex (s : string) : string :=
  match s with EmptyString => "" | String c s => String (ascii_lower c) (lower_hex s) end.

Section stub.
Context `{JsonCodec} (sha256 : list Z → list Z).

Definition hash_hex (s : string) : string := hex_encode (sha256 (as_bytes s)).

Definition matcher_matches (self : StubMatcher.t) (serialized : string) : bool :=
  match self with
  | StubMatcher.Prefix value => starts_with value serialized
  | StubMatcher.Hash value => (hash_hex serialized =? lower_hex value)%string
  | StubMatcher.Contains value => str_contains serialized value
  end.

Fixpoint first_match (entries : list StubEntry.t) (serialized : string) : option StubResponse.t :=
  match entries with
  | entry :: entries =>
      if matcher_matches (StubEntry.matcher entry) serialized then Some (StubEntry.response entry)
      else first_match entries serialized
  | [] => None
  end.

Definition fixtures_matches (self : StubFixtures.t) (serialized : string) : option StubResponse.t :=
  match first_match (StubFixtures.entries self) serialized with
  | Some r => Some r
  | None => StubFixtures.default self
  end.

(** [parse] is serde_yaml_ng with the text of its error. *)
Definition from_yaml (parse : string → result StubFixtures.t string) (yaml : string) :
    result StubFixtures.t LlmError.t :=
  let? parsed := result_map_err (λ e, LlmError.structural ("stub fixture parse: " +:+ e)) (parse yaml) in
  if negb (StubFixtures.version parsed =? 1) then
    Err (LlmError.structural ("stub fixture version " +:+ pretty (Z.to_N (StubFixtures.version parsed))
                              +:+ ": only version 1 is supported"))
  else Ok parsed.

Definition load (read_to_string : string → result string string)
    (parse : string → result StubFixtures.t string) (path : string) : result StubFixtures.t LlmError.t :=
  let? yaml := result_map_err (λ e, LlmError.structural ("stub fixture read " +:+ path +:+ ": " +:+ e))
                 (read_to_string path) in
  from_yaml parse yaml.

Definition serialize_block (b : ContentBlock.t) : string :=
  match b with
  | ContentBlock.Text text => text
  | ContentBlock.ToolUse _ name input => "tool_use(" +:+ name +:+ ", " +:+ to_string input +:+ ")"
  | ContentBlock.ToolResult tool_use_id content is_error =>
      "tool_result(" +:+ tool_use_id +:+ ", " +:+ content +:+ (if is_error then ", error" else "") +:+ ")"
  end.

Definition serialize_content (content : Content.t) : string :=
  match content with
  | Content.Text s => s
  | Content.Blocks blocks => String.concat "" ((λ b, serialize_block b +:+ nl) <$> blocks)
  end.

Definition serialize_for_match (messages : list Message.t) (tools : list ToolDefinition.t) : string :=
  String.concat ""
    ((λ msg, Openai.role_str (Message.role msg) +:+ ":" +:+ nl +:+ serialize_content (Message.content msg)
             +:+ nl +:+ "---" +:+ nl) <$> messages)
  +:+ match tools with
      | [] => ""
      | _ => "tools:" +:+ nl
             +:+ String.concat "" ((λ t, ToolDefinition.name t +:+ ": " +:+ ToolDefinition.description t +:+ nl) <$> tools)
      end.

Definition resolve_response (self : StubAdapter.t) (messages : list Message.t)
    (options : CompletionOptions.t) : result (StubResponse.t * Z) LlmError.t :=
  let serialized := serialize_for_match messages (CompletionOptions.tools options) in
  let serialized_len := str_len serialized in
  match fixtures_matches (StubAdapter.fixtures self) serialized with
  | Some resp => Ok (resp, serialized_len)
  | None =>
      Err (LlmError.structural ("stub: no fixture match for " +:+ pretty (Z.to_N serialized_len)
             +:+ "-char input (hash=" +:+ hash_hex serialized +:+ ")"))
  end.

Definition resolved_model (self : StubAdapter.t) (options : CompletionOptions.t) : string :=
  default (StubAdapter.default_model self) (CompletionOptions.model options).

(** [elapsed_ms] is the time the call took. *)
Definition complete (self : StubAdapter.t) (messages : list Message.t) (options : CompletionOptions.t)
    (elapsed_ms : Z) : result CompletionResult.t LlmError.t :=
  let? found := resolve_response self messages options in
  let '(response, serialized_len) := found in
  let model := resolved_model self options in
  let input_tokens := as_u32 (serialized_len / 4) in
  let tool_calls :=
    (λ tc, ToolCall.mk (StubToolCall.id tc) (StubToolCall.name tc) (StubToolCall.arguments tc))
      <$> StubResponse.tool_calls response in
  Ok (CompletionResult.mk (StubResponse.content response) tool_calls
        (TokenUsage.Mk input_tokens (StubResponse.output_tokens response)) None model elapsed_ms false).

(** An event after the optional sleep. *)
Definition paced (delay_ms : Z) (e : StreamEvent.t) : list StreamStep.t :=
  (if 0 <? delay_ms then [StreamStep.Sleep delay_ms] else []) ++ [StreamStep.Yield (Ok e)].

(** [uuid] is the random identifier of the request. *)
Definition complete_stream (self : StubAdapter.t) (messages : list Message.t)
    (options : CompletionOptions.t) (uuid : string) : result StreamHandle.t LlmError.t :=
  let? found := resolve_response self messages options in
  let '(response, serialized_len) := found in
  let model := resolved_model self options in
  let usage := TokenUsage.Mk (as_u32 (serialized_len / 4)) (StubResponse.output_tokens response) in
  let emit := paced (StubAdapter.token_delay_ms self) in
  let stream :=
    mjoin ((λ ch, emit (StreamEvent.ContentDelta ch)) <$> utf8_chars (StubResponse.content response))
    ++ mjoin (imap (λ i tc,
         emit (StreamEvent.ToolCallDelta (as_u32 (Z.of_nat i)) (Some (StubToolCall.id tc))
                 (Some (StubToolCall.name tc)) None)
         ++ emit (StreamEvent.ToolCallDelta (as_u32 (Z.of_nat i)) None None
                 (Some (to_string (StubToolCall.arguments tc)))))
         (StubResponse.tool_calls response))
    ++ emit (StreamEvent.Usage usage) ++ emit StreamEvent.Done in
  Ok (StreamHandle.mk stream model (Some ("stub-req-" +:+ uuid))).

Definition models (self : StubAdapter.t) : list ModelInfo.t :=
  [ModelInfo.mk (StubAdapter.default_model self) (Some "Stub (deterministic)") (Some 1000000) (Some 1000000)
     true true].

Definition health (self : StubAdapter.t) : ProviderHealth.t := ProviderHealth.mk true (Some 0) None 1.
End stub.

(** ** providers/mod.rs *)

Module ProviderConfig.
Inductive t : Type :=
| Anthropic (api_key base_url : string) (default_model : option string)
| Openai (api_key base_url : string) (default_model : option string)
| Generic (api_key : option string) (base_url : string) (default_model : option string)
| Stub (fixtures_path : option string) (fixtures_inline : option StubFixtures.t) (default_model : string)
    (token_delay_ms : Z).
End ProviderConfig.

(** [load] is [StubFixtures::load]. *)
Definition build_adapter (load : string → result StubFixtures.t LlmError.t) (cfg : ProviderConfig.t) :
    result StubAdapter.t LlmError.t :=
  match cfg with
  | ProviderConfig.Stub fixtures_path fixtures_inline default_model token_delay_ms =>
      let? fixtures :=
        match fixtures_inline, fixtures_path with
        | Some inline, _ => Ok inline
        | None, Some path => load path
        | None, None => Ok StubFixtures.derived_default
        end in
      Ok (StubAdapter.mk fixtures default_model token_delay_ms)
  | ProviderConfig.Anthropic _ _ _ =>
      Err (LlmError.structural ("Anthropic adapter not yet wired through build_adapter — "
                                +:+ "use the provider helpers in wacp-llm::providers::anthropic directly."))
  | ProviderConfig.Openai _ _ _ =>
      Err (LlmError.structural ("OpenAI adapter not yet wired through build_adapter — "
                                +:+ "use the provider helpers in wacp-llm::providers::openai directly."))
  | ProviderConfig.Generic _ _ _ =>
      Err (LlmError.structural "Generic adapter not yet wired through build_adapter.")
  end.

(** ** Adding up a stream

    What a consumer makes of the events: text is appended, the fragments of a tool call
    with one index are put together, token counts are added. *)

Module Partial.
Record t : Type := mk { id : option string; name : option string; arguments : string }.
End Partial.

Module Turn.
Record t : Type := mk {
  text : string;
  calls : list (Z * Partial.t);
  input_tokens : Z;
  output_tokens : Z;
  finished : bool;
}.

Definition empty : t := mk "" [] 0 0 false.

Fixpoint merge (index : Z) (id name args : option string) (calls : list (Z * Partial.t)) :
    list (Z * Partial.t) :=
  match calls with
  | [] => [(index, Partial.mk id name (default "" args))]
  | (i, c) :: rest =>
      if i =? index then
        (i, Partial.mk (option_union id (Partial.id c)) (option_union name (Partial.name c))
              (Partial.arguments c +:+ default "" args)) :: rest
      else (i, c) :: merge index id name args rest
  end.

Definition add (self : t) (e : StreamEvent.t) : t :=
  match e with
  | StreamEvent.ContentDelta delta =>
      mk (text self +:+ delta) (calls self) (input_tokens self) (output_tokens self) (finished self)
  | StreamEvent.ToolCallDelta index id name args =>
      mk (text self) (merge index id name args (calls self)) (input_tokens self) (output_tokens self) (finished self)
  | StreamEvent.Usage usage =>
      mk (text self) (calls self) (input_tokens self + TokenUsage.input_tokens usage)
        (output_tokens self + TokenUsage.output_tokens usage) (finished self)
  | StreamEvent.Done => mk (text self) (calls self) (input_tokens self) (output_tokens self) true
  end.

Definition collect (self : t) (events : list StreamEvent.t) : t := fold_left add events self.
End Turn.

(** The events a handle yields and the time it sleeps in all. *)
Definition yielded (steps : list StreamStep.t) : list StreamEvent.t :=
  omap (λ s, match s with StreamStep.Yield (Ok e) => Some e | _ => None end) steps.

Definition slept (steps : list StreamStep.t) : list Z :=
  omap (λ s, match s with StreamStep.Sleep ms => Some ms | _ => None end) steps.

Definition call_of `{JsonCodec} (c : Z * Partial.t) : option ToolCall.t :=
  id ← Partial.id c.2; name ← Partial.name c.2; arguments ← from_str (Partial.arguments c.2);
  Some (ToolCall.mk id name arguments).

Lemma string_app_assoc (s1 s2 s3 : string) : (s1 +:+ s2) +:+ s3 = s1 +:+ (s2 +:+ s3).
Proof. induction s1 as [|c s1 IH]; [done|]. exact (f_equal (String c) IH). Qed.

Lemma string_app_nil (s : string) : s +:+ "" = s.
Proof. induction s as [|c s IH]; [done|]. exact (f_equal (String c) IH). Qed.

Lemma concat_cons (s : string) l : String.concat "" (s :: l) = s +:+ String.concat "" l.
Proof. destruct l; cbn; [by rewrite string_app_nil|done]. Qed.

Lemma concat_app l1 l2 : String.concat "" (l1 ++ l2) = String.concat "" l1 +:+ String.concat "" l2.
Proof.
  induction l1 as [|s l1 IH]; [done|]. rewrite <-app_comm_cons, !concat_cons, IH.
  by rewrite string_app_assoc.
Qed.

Lemma string_of_bytes_app l1 l2 : string_of_bytes (l1 ++ l2) = string_of_bytes l1 +:+ string_of_bytes l2.
Proof. induction l1 as [|b l1 IH]; [done|]. exact (f_equal (String _) IH). Qed.

(** The characters of a text make it up. *)
Lemma concat_utf8_chars s : String.concat "" (utf8_chars s) = s.
Proof.
  unfold utf8_chars. set (bs := as_bytes s).
  assert (Hs : string_of_bytes (mjoin (utf8_chunks (length bs) bs).*1) = s).
  { rewrite utf8_chunks_join by done. apply string_of_as_bytes. }
  etransitivity; [|exact Hs]. generalize ((utf8_chunks (length bs) bs).*1). clear Hs. intros chunks.
  induction chunks as [|c l IH]; [done|]. rewrite fmap_cons, concat_cons, IH. by rewrite <-string_of_bytes_app.
Qed.

Lemma merge_fresh index id name args calls :
  index ∉ calls.*1 → Turn.merge index id name args calls = calls ++ [(index, Partial.mk id name (default "" args))].
Proof.
  induction calls as [|[i c] calls IH]; [done|]. cbn. intros [Hi Hin]%not_elem_of_cons.
  destruct (Z.eqb_spec i index); [congruence|]. by rewrite IH.
Qed.

Lemma merge_last index id name args calls c :
  index ∉ calls.*1 →
  Turn.merge index id name args (calls ++ [(index, c)])
  = calls ++ [(index, Partial.mk (option_union id (Partial.id c)) (option_union name (Partial.name c))
                        (Partial.arguments c +:+ default "" args))].
Proof.
  induction calls as [|[i c'] calls IH]; cbn; [by rewrite Z.eqb_refl|]. intros [Hi Hin]%not_elem_of_cons.
  destruct (Z.eqb_spec i index); [congruence|]. by rewrite IH.
Qed.

Lemma collect_app t l1 l2 : Turn.collect t (l1 ++ l2) = Turn.collect (Turn.collect t l1) l2.
Proof. apply fold_left_app. Qed.

Lemma collect_text t l :
  Turn.collect t (StreamEvent.ContentDelta <$> l)
  = Turn.mk (Turn.text t +:+ String.concat "" l) (Turn.calls t) (Turn.input_tokens t) (Turn.output_tokens t)
      (Turn.finished t).
Proof.
  revert t. induction l as [|s l IH]; intros []; cbn [fmap list_fmap]; unfold Turn.collect; cbn [fold_left].
  - cbn. by rewrite string_app_nil.
  - unfold Turn.collect in IH. unfold fmap in IH. rewrite IH. rewrite concat_cons. cbn. by rewrite string_app_assoc.
Qed.

(** *** The canned provider *)

Lemma yielded_app l1 l2 : yielded (l1 ++ l2) = yielded l1 ++ yielded l2.
Proof. apply omap_app. Qed.

Lemma slept_app l1 l2 : slept (l1 ++ l2) = slept l1 ++ slept l2.
Proof. apply omap_app. Qed.

Lemma yielded_paced d e : yielded (paced d e) = [e].
Proof. unfold paced. by destruct (0 <? d). Qed.

(** A sleep for every event, when there is a delay at all. *)
Definition even_pace (d : Z) (steps : list StreamStep.t) : Prop :=
  slept steps = if 0 <? d then replicate (length (yielded steps)) d else [].

Lemma even_pace_paced d e : even_pace d (paced d e).
Proof. unfold even_pace, paced. by destruct (0 <? d). Qed.

Lemma even_pace_app d l1 l2 : even_pace d l1 → even_pace d l2 → even_pace d (l1 ++ l2).
Proof.
  unfold even_pace. rewrite slept_app, yielded_app, length_app, replicate_add.
  intros -> ->. by destruct (0 <? d).
Qed.

Lemma even_pace_join {A} d (f : A → list StreamStep.t) l :
  (∀ x, even_pace d (f x)) → even_pace d (mjoin (f <$> l)).
Proof.
  intros Hf. induction l as [|x l IH]; [by unfold even_pace; destruct (0 <? d)|].
  rewrite fmap_cons. cbn [mjoin list_join]. by apply even_pace_app.
Qed.

Lemma even_pace_imap {A} d (f : nat → A → list StreamStep.t) l :
  (∀ i x, even_pace d (f i x)) → even_pace d (mjoin (imap f l)).
Proof.
  revert f. induction l as [|x l IH]; intros f Hf; [by unfold even_pace; destruct (0 <? d)|].
  cbn [imap mjoin list_join]. apply even_pace_app; [apply Hf|]. apply IH. intros i y. apply Hf.
Qed.

(** The two events of a tool call of the stub. *)
Definition call_events `{JsonCodec} (i : nat) (tc : StubToolCall.t) : list StreamEvent.t :=
  [StreamEvent.ToolCallDelta (as_u32 (Z.of_nat i)) (Some (StubToolCall.id tc)) (Some (StubToolCall.name tc)) None;
   StreamEvent.ToolCallDelta (as_u32 (Z.of_nat i)) None None (Some (to_string (StubToolCall.arguments tc)))].

Definition partial_of `{JsonCodec} (i : nat) (tc : StubToolCall.t) : Z * Partial.t :=
  (as_u32 (Z.of_nat i),
   Partial.mk (Some (StubToolCall.id tc)) (Some (StubToolCall.name tc)) (to_string (StubToolCall.arguments tc))).

Lemma as_u32_nat n : (Z.of_nat n ≤ u32_max)%Z → as_u32 (Z.of_nat n) = Z.of_nat n.
Proof. intros Hn. apply wrap32_small. lia. Qed.

Lemma imap_from {A B} (f : nat → A → B) k x l :
  imap (λ i y, f (k + i)%nat y) (x :: l) = f k x :: imap (λ i y, f (S k + i)%nat y) l.
Proof.
  cbn [imap]. rewrite Nat.add_0_r. f_equal. apply imap_ext. intros i y _. cbn. f_equal. lia.
Qed.

Lemma collect_call `{JsonCodec} k tc t :
  as_u32 (Z.of_nat k) ∉ (Turn.calls t).*1 →
  Turn.collect t (call_events k tc)
  = Turn.mk (Turn.text t) (Turn.calls t ++ [partial_of k tc]) (Turn.input_tokens t) (Turn.output_tokens t)
      (Turn.finished t).
Proof.
  intros Hfresh. unfold Turn.collect, call_events. cbn [fold_left Turn.add Turn.calls Turn.text
    Turn.input_tokens Turn.output_tokens Turn.finished].
  by rewrite (merge_fresh _ _ _ _ (Turn.calls t)), merge_last by done.
Qed.

(** The fragments of the calls from the [k]th on, after those before it. *)
Lemma collect_calls `{JsonCodec} k l t :
  Z.of_nat (k + length l) ≤ u32_max + 1 →
  Forall (λ c, c.1 < Z.of_nat k) (Turn.calls t) →
  Turn.collect t (mjoin (imap (λ i tc, call_events (k + i) tc) l))
  = Turn.mk (Turn.text t) (Turn.calls t ++ imap (λ i tc, partial_of (k + i) tc) l)
      (Turn.input_tokens t) (Turn.output_tokens t) (Turn.finished t).
Proof.
  revert k t. induction l as [|tc l IH]; intros k t Hlen Hlt.
  - destruct t. cbn. by rewrite app_nil_r.
  - rewrite !imap_from. cbn [mjoin list_join]. rewrite collect_app. cbn [length] in Hlen.
    assert (Hk : as_u32 (Z.of_nat k) = Z.of_nat k) by (apply as_u32_nat; lia).
    assert (Hfresh : Z.of_nat k ∉ (Turn.calls t).*1).
    { intros ([i c] & Heq & Hin)%list_elem_of_fmap. rewrite Forall_forall in Hlt.
      apply Hlt in Hin. cbn in *. lia. }
    rewrite collect_call by (by rewrite Hk).
    rewrite IH; cbn [Turn.calls Turn.text Turn.input_tokens Turn.output_tokens Turn.finished].
    + by rewrite <-app_assoc.
    + lia.
    + apply Forall_app. split; [|repeat constructor; cbn [fst partial_of]; lia]. eapply Forall_impl; [exact Hlt|]. cbn. lia.
Qed.

Lemma calls_read_back `{JsonCodec} l :
  Forall (λ tc, reads_back (StubToolCall.arguments tc)) l →
  mapM call_of (imap (λ i tc, partial_of i tc) l)
  = Some ((λ tc, ToolCall.mk (StubToolCall.id tc) (StubToolCall.name tc) (StubToolCall.arguments tc)) <$> l).
Proof.
  intros Hl. set (done tc := ToolCall.mk _ _ _).
  assert (Hgen : ∀ h : nat → StubToolCall.t → Z * Partial.t,
    (∀ i tc, reads_back (StubToolCall.arguments tc) → call_of (h i tc) = Some (done tc)) →
    mapM call_of (imap h l) = Some (done <$> l)).
  { induction Hl as [|tc l Htc Hl IH]; intros h Hh; [done|]. cbn [imap mapM].
    rewrite Hh by done. cbn [mbind option_bind]. rewrite IH; [done|]. intros i tc'. apply Hh. }
  apply Hgen. intros i tc Htc. unfold call_of. cbn. by rewrite Htc.
Qed.

Lemma yielded_chars d l :
  yielded (mjoin ((λ ch, paced d (StreamEvent.ContentDelta ch)) <$> l)) = StreamEvent.ContentDelta <$> l.
Proof.
  induction l as [|ch l IH]; [done|]. rewrite fmap_cons. cbn [mjoin list_join].
  rewrite yielded_app, yielded_paced. cbn. f_equal. exact IH.
Qed.

Lemma yielded_calls `{JsonCodec} d l :
  yielded (mjoin (imap (λ i tc,
    paced d (StreamEvent.ToolCallDelta (as_u32 (Z.of_nat i)) (Some (StubToolCall.id tc))
               (Some (StubToolCall.name tc)) None)
    ++ paced d (StreamEvent.ToolCallDelta (as_u32 (Z.of_nat i)) None None
               (Some (to_string (StubToolCall.arguments tc))))) l))
  = mjoin (imap call_events l).
Proof.
  assert (Hgen : ∀ (f : nat → StubToolCall.t → list StreamStep.t) g,
    (∀ i tc, yielded (f i tc) = g i tc) → yielded (mjoin (imap f l)) = mjoin (imap g l)).
  { induction l as [|tc l IH]; intros f g Hfg; [done|]. cbn [imap mjoin list_join].
    rewrite yielded_app, Hfg. f_equal. apply IH. intros i x. apply Hfg. }
  apply Hgen. intros i tc. by rewrite yielded_app, !yielded_paced.
Qed.

Lemma no_done `{JsonCodec} chars calls usage :
  StreamEvent.Done ∉ (StreamEvent.ContentDelta <$> chars) ++ mjoin (imap call_events calls) ++ [StreamEvent.Usage usage].
Proof.
  rewrite !elem_of_app, list_elem_of_singleton, list_elem_of_fmap, list_elem_of_join.
  intros [(ch & ? & _)|[(l & Hin & Hl)|?]]; [done| |done].
  apply elem_of_lookup_imap in Hl as (i & tc & -> & _). unfold call_events in Hin.
  apply elem_of_cons in Hin as [?|Hin]; [done|]. by apply list_elem_of_singleton in Hin.
Qed.

(** C28. The two calls of the canned provider agree: they fail with the same error, or the
    stream names the same model, sleeps before every event or never, ends with the only
    [Done], and adds up to the content, the tool calls and the token counts that
    [complete] returns. *)
Theorem stub_stream_agrees `{JsonCodec} sha256 (self : StubAdapter.t) messages options elapsed uuid
    (Hcalls : ∀ r, fixtures_matches sha256 (StubAdapter.fixtures self)
                     (serialize_for_match messages (CompletionOptions.tools options)) = Some r →
       Z.of_nat (length (StubResponse.tool_calls r)) ≤ u32_max
       ∧ Forall (λ tc, reads_back (StubToolCall.arguments tc)) (StubResponse.tool_calls r)) :
  match complete sha256 self messages options elapsed, complete_stream sha256 self messages options uuid with
  | Err e, Err e' => e = e'
  | Ok r, Ok h =>
      StreamHandle.model h = CompletionResult.model r
      ∧ even_pace (StubAdapter.token_delay_ms self) (StreamHandle.inner h)
      ∧ (∃ events, yielded (StreamHandle.inner h) = events ++ [StreamEvent.Done] ∧ StreamEvent.Done ∉ events)
      ∧ let turn := Turn.collect Turn.empty (yielded (StreamHandle.inner h)) in
        Turn.text turn = CompletionResult.content r
        ∧ mapM call_of (Turn.calls turn) = Some (CompletionResult.tool_calls r)
        ∧ TokenUsage.Mk (Turn.input_tokens turn) (Turn.output_tokens turn) = CompletionResult.usage r
        ∧ Turn.finished turn = true
  | _, _ => False
  end.
Proof.
  unfold complete, complete_stream, resolve_response.
  destruct (fixtures_matches _ _ _) as [r|] eqn:Hm; [|done].
  destruct (Hcalls r eq_refl) as [Hlen Hback]. cbn [StreamHandle.model StreamHandle.inner CompletionResult.model].
  split; [done|]. split.
  { repeat (apply even_pace_paced || (apply even_pace_join; intros) || (apply even_pace_imap; intros)
            || apply even_pace_app). }
  rewrite !yielded_app, !yielded_paced, yielded_chars, yielded_calls.
  split.
  { exists ((StreamEvent.ContentDelta <$> utf8_chars (StubResponse.content r))
          ++ mjoin (imap call_events (StubResponse.tool_calls r))
          ++ [StreamEvent.Usage (TokenUsage.Mk (as_u32 (str_len (serialize_for_match messages (CompletionOptions.tools options)) / 4))
                (StubResponse.output_tokens r))]).
  split; [by rewrite <-!app_assoc|apply no_done]. }
  cbv zeta. rewrite !collect_app, collect_text, (collect_calls 0) by (cbn; done || lia).
  cbn. split; [apply concat_utf8_chars|]. split; [by apply calls_read_back|]. done.
Qed.

Definition null_codec : JsonCodec :=
  {| from_str s := if (s =? "null")%string then Some Value.Null else None; to_string _ := "null" |}.

Lemma stub_stream_agrees_witness :
  let reply := StubResponse.mk "ok" 7 [StubToolCall.mk "c1" "read_file" Value.Null] in
  let self := StubAdapter.mk (StubFixtures.mk 1 None [StubEntry.mk (StubMatcher.Prefix "user:") reply]) "m" 5 in
  match complete_stream (H := null_codec) (λ _, []) self [Message.user "hi"] CompletionOptions.default "u" with
  | Ok h =>
      even_pace 5 (StreamHandle.inner h)
      ∧ mapM (call_of (H := null_codec)) (Turn.calls (Turn.collect Turn.empty (yielded (StreamHandle.inner h))))
        = Some [ToolCall.mk "c1" "read_file" Value.Null]
  | Err _ => False
  end.
Proof.
  intros reply self.
  pose proof (stub_stream_agrees (H := null_codec) (λ _, []) self [Message.user "hi"] CompletionOptions.default 0 "u")
    as Hw.
  destruct Hw as (_ & Hpace & _ & _ & Hcalls & _).
  - intros r Hr. vm_compute in Hr. injection Hr as <-. split; [done|]. by repeat constructor.
  - split; [exact Hpace|exact Hcalls].
Defined.

(** *** An assistant's turn in the two formats *)

(** The text and the calls of a turn. *)
Definition blocks_text (blocks : list ContentBlock.t) : string := String.concat "" (omap Content.block_text blocks).
Definition blocks_calls (blocks : list ContentBlock.t) : list ToolCall.t := omap block_call blocks.

Definition turn_text (content : Content.t) : string :=
  match content with Content.Text s => s | Content.Blocks blocks => blocks_text blocks end.
Definition turn_calls (content : Content.t) : list ToolCall.t :=
  match content with Content.Text _ => [] | Content.Blocks blocks => blocks_calls blocks end.

(** A call whose arguments were written as JSON text and read again; [{}] when they do not
    read. *)
Definition through_text `{JsonCodec} (tc : ToolCall.t) : ToolCall.t :=
  ToolCall.mk (ToolCall.id tc) (ToolCall.name tc)
    (default (Value.Object ∅) (from_str (to_string (ToolCall.arguments tc)))).

Lemma through_text_reads_back `{JsonCodec} calls :
  Forall (λ tc, reads_back (ToolCall.arguments tc)) calls → through_text <$> calls = calls.
Proof.
  induction 1 as [|[id name args] calls Htc _ IH]; [done|]. rewrite fmap_cons, IH. f_equal.
  unfold through_text. cbn in Htc |- *. by rewrite Htc.
Qed.

Lemma read_block_anthropic b text calls :
  Anthropic.read_block (text, calls) (Anthropic.block_to_anthropic b)
  = match b with
    | ContentBlock.Text s => (text +:+ s, calls)
    | ContentBlock.ToolUse id name input => (text, calls ++ [ToolCall.mk id name input])
    | ContentBlock.ToolResult _ _ _ => (text, calls)
    end.
Proof. by destruct b. Qed.

Lemma read_blocks_anthropic blocks acc :
  fold_left Anthropic.read_block (Anthropic.block_to_anthropic <$> blocks) acc
  = (acc.1 +:+ blocks_text blocks, acc.2 ++ blocks_calls blocks).
Proof.
  revert acc. induction blocks as [|b blocks IH]; intros [text calls].
  - cbn. by rewrite string_app_nil, app_nil_r.
  - rewrite fmap_cons. cbn [fold_left]. rewrite IH, read_block_anthropic. unfold blocks_text, blocks_calls.
    destruct b; cbn [omap list_omap Content.block_text block_call fst snd]; [|by rewrite <-app_assoc|done].
    by rewrite concat_cons, string_app_assoc.
Qed.

Lemma get_assistant_content `{JsonCodec} content :
  default "" (Value.get_str (Openai.message_to_openai (Message.mk Role.Assistant content)) "content")
  = turn_text content.
Proof.
  destruct content as [s|blocks]; [done|]. cbn. fold (blocks_text blocks).
  destruct (omap Openai.call_to_openai blocks) as [|c l]; destruct (blocks_text blocks) as [|ch s]; reflexivity.
Qed.

Lemma get_assistant_calls `{JsonCodec} content :
  Openai.read_call
    <$> default [] (Value.get_array (Openai.message_to_openai (Message.mk Role.Assistant content)) "tool_calls")
  = through_text <$> turn_calls content.
Proof.
  destruct content as [s|blocks]; [done|].
  assert (Hget : default [] (Value.get_array (Openai.message_to_openai
    (Message.mk Role.Assistant (Content.Blocks blocks))) "tool_calls") = omap Openai.call_to_openai blocks).
  { cbn. fold (blocks_text blocks).
    destruct (omap Openai.call_to_openai blocks) as [|c l]; destruct (blocks_text blocks) as [|ch s]; reflexivity. }
  rewrite Hget. cbn. unfold blocks_calls. clear Hget. induction blocks as [|[] blocks IH]; [done|exact IH| |exact IH].
  cbn. by rewrite IH.
Qed.

(** C35. A turn of the assistant in the two formats.  A response of OpenAI that carries the
    message OpenAI's request would carry is read back as the same text and the same calls in
    order, the arguments of each written as JSON text and read again: the same calls when
    they survive that.  A response of Anthropic with the content of Anthropic's message is
    read back as the same text and the same calls in order when the turn is a list of
    blocks; a turn that is a text is sent as a string, which a response may not have for
    its content, and is refused.  Tool results in a turn are left out by both. *)
Theorem assistant_round_trip `{JsonCodec} content (a o choice : Value.t)
    (msg := Message.mk Role.Assistant content)
    (Ha : Value.get a "content" = Anthropic.message_to_anthropic msg ≫= λ m, Value.get m "content")
    (Ho : Value.get_array o "choices" ≫= head = Some choice)
    (Hc : Value.get choice "message" = Some (Openai.message_to_openai msg)) :
  (∃ ro, Openai.parse_response o = Ok ro
     ∧ CompletionResult.content ro = turn_text content
     ∧ CompletionResult.tool_calls ro = through_text <$> turn_calls content
     ∧ (Forall (λ tc, reads_back (ToolCall.arguments tc)) (turn_calls content) →
        CompletionResult.tool_calls ro = turn_calls content))
  ∧ match content with
    | Content.Blocks blocks =>
        ∃ ra, Anthropic.parse_response a = Ok ra
        ∧ CompletionResult.content ra = turn_text content ∧ CompletionResult.tool_calls ra = turn_calls content
    | Content.Text _ =>
        Anthropic.parse_response a = Err (LlmError.structural "missing 'content' array in response")
    end.
Proof.
  unfold Anthropic.parse_response, Openai.parse_response. rewrite Ho. cbn [ok_or].
  rewrite Hc. cbn [ok_or]. subst msg. rewrite get_assistant_content, get_assistant_calls. split.
  - eexists. split; [reflexivity|]. cbn. repeat split. apply through_text_reads_back.
  - destruct content as [s|blocks]; [unfold Value.get_array; rewrite Ha; reflexivity|].
    assert (Hb : Value.get_array a "content" = Some (Anthropic.block_to_anthropic <$> blocks)).
    { unfold Value.get_array. rewrite Ha. reflexivity. }
    rewrite Hb. cbn [ok_or]. rewrite read_blocks_anthropic. cbn [fst snd].
    eexists. split; [reflexivity|]. by split.
Qed.

Lemma assistant_round_trip_witness :
  let blocks := [ContentBlock.Text "on it"; ContentBlock.ToolUse "c1" "read_file" Value.Null; ContentBlock.Text "."] in
  let msg := Message.mk Role.Assistant (Content.Blocks blocks) in
  let choice := Value.Object {[ "message" := Openai.message_to_openai (H := null_codec) msg ]} in
  (∃ ro, Openai.parse_response (H := null_codec) (Value.Object {[ "choices" := Value.Array [choice] ]}) = Ok ro
   ∧ CompletionResult.tool_calls ro = [ToolCall.mk "c1" "read_file" Value.Null])
  ∧ ∃ ra, Anthropic.parse_response
          (Value.Object {[ "content" := Value.Array (Anthropic.block_to_anthropic <$> blocks) ]}) = Ok ra
  ∧ CompletionResult.content ra = "on it."
  ∧ CompletionResult.tool_calls ra = [ToolCall.mk "c1" "read_file" Value.Null].
Proof.
  intros blocks msg choice.
  destruct (assistant_round_trip (H := null_codec) (Content.Blocks blocks)
    (Value.Object {[ "content" := Value.Array (Anthropic.block_to_anthropic <$> blocks) ]})
    (Value.Object {[ "choices" := Value.Array [choice] ]}) choice) as [(ro & Ho & _ & _ & Hback) (ra & Ha & Ht & Hc)].
  - reflexivity.
  - reflexivity.
  - reflexivity.
  - split.
    + exists ro. split; [exact Ho|]. apply Hback. by repeat constructor.
    + exists ra. split; [exact Ha|]. split; [exact Ht|exact Hc].
Defined.

(** Requests to the Anthropic API are built without reaching [unreachable!]: every
    message but the system ones is sent, in order, and the first texts of the system
    messages make up the system prompt. *)
Lemma anthropic_request_total messages model max_tokens temperature stop tools stream :
  ∃ body api, Anthropic.build_request messages model max_tokens temperature stop tools stream = Some body
  ∧ Value.get body "messages" = Some (Value.Array api)
  ∧ Forall2 (λ m v, Anthropic.message_to_anthropic m = Some v)
      (filter (λ m, Message.role m ≠ Role.System) messages) api
  ∧ Value.get_str body "system" =
      match omap (λ m, Content.as_text (Message.content m)) (filter (λ m, Message.role m = Role.System) messages) with
      | [] => None
      | texts => Some (String.concat (nl +:+ nl) texts)
      end.
Proof.
  unfold Anthropic.build_request.
  destruct (mapM Anthropic.message_to_anthropic (filter (λ m, Message.role m ≠ Role.System) messages))
    as [api|] eqn:Hapi.
  - apply mapM_Some_1 in Hapi. cbn [mbind option_bind]. do 2 eexists. split; [reflexivity|].
    split; [|split; [exact Hapi|]].
    + destruct tools, temperature, (bool_decide (stop = [])), (bool_decide _); reflexivity.
    + generalize (omap (λ m, Content.as_text (Message.content m)) (filter (λ m, Message.role m = Role.System) messages)).
      intros [|s l]; destruct tools, temperature, (bool_decide (stop = [])); reflexivity.
  - exfalso. apply mapM_None_1, Exists_exists in Hapi as (m & Hm & Hnone).
    apply list_elem_of_filter in Hm as [Hrole _]. unfold Anthropic.message_to_anthropic in Hnone.
    by destruct (Message.role m).
Qed.

(** An OpenAI request keeps only the first result of a tool message, and not whether it
    is an error. *)
Lemma openai_first_result_only `{JsonCodec} id content is_error rest :
  Openai.message_to_openai
    (Message.mk Role.Tool (Content.Blocks (ContentBlock.ToolResult id content is_error :: rest)))
  = Openai.message_to_openai (Message.tool_result id content false).
Proof. reflexivity. Qed.

(** *** A stream of the Anthropic protocol

    The events the API sends for a message: its start with the input tokens, for every
    content block a start, its pieces and a stop, then the output tokens and the end. *)

Inductive streamed_block : Type :=
| StreamedText (pieces : list string)
| StreamedCall (id name : string) (pieces : list string).

Section wire.
Import Value.

Definition wire_block (i : nat) (b : streamed_block) : list (string * Value.t) :=
  let index := of_uint (Z.of_nat i) in
  let start block := ("content_block_start", Object {[ "index" := index; "content_block" := Object block ]}) in
  let piece delta := ("content_block_delta", Object {[ "index" := index; "delta" := Object delta ]}) in
  match b with
  | StreamedText pieces =>
      start {[ "type" := String "text"; "text" := String "" ]}
      :: ((λ p, piece {[ "type" := String "text_delta"; "text" := String p ]}) <$> pieces)
  | StreamedCall id name pieces =>
      start {[ "type" := String "tool_use"; "id" := String id; "name" := String name; "input" := Object ∅ ]}
      :: ((λ p, piece {[ "type" := String "input_json_delta"; "partial_json" := String p ]}) <$> pieces)
  end ++ [("content_block_stop", Object {[ "index" := index ]})].

Definition wire_message (input output : Z) (blocks : list streamed_block) : list (string * Value.t) :=
  ("message_start", Object {[ "message" := Object {[ "usage" := Object {[ "input_tokens" := of_uint input ]} ]} ]})
  :: mjoin (imap wire_block blocks)
  ++ [("message_delta", Object {[ "usage" := Object {[ "output_tokens" := of_uint output ]} ]});
      ("message_stop", Object ∅)].
End wire.

(** What the blocks amount to. *)
Definition streamed_text (blocks : list streamed_block) : string :=
  String.concat "" (mjoin ((λ b, match b with StreamedText pieces => pieces | _ => [] end) <$> blocks)).

Definition streamed_call (i : nat) (b : streamed_block) : option (Z * Partial.t) :=
  match b with
  | StreamedCall id name pieces => Some (Z.of_nat i, Partial.mk (Some id) (Some name) (String.concat "" pieces))
  | _ => None
  end.

Definition block_events (i : nat) (b : streamed_block) : list StreamEvent.t :=
  match b with
  | StreamedText pieces => StreamEvent.ContentDelta <$> pieces
  | StreamedCall id name pieces =>
      StreamEvent.ToolCallDelta (as_u32 (Z.of_nat i)) (Some id) (Some name) None
      :: ((λ p, StreamEvent.ToolCallDelta (as_u32 (Z.of_nat i)) None None (Some p)) <$> pieces)
  end.

Lemma omap_fmap_some {A B C} (f : B → option C) (g : A → B) (h : A → C) (l : list A) :
  (∀ x, f (g x) = Some (h x)) → omap f (g <$> l) = h <$> l.
Proof.
  intros Hfg. induction l as [|x l IH]; [done|]. rewrite !fmap_cons. cbn. rewrite Hfg. f_equal. exact IH.
Qed.

Lemma wire_block_events i b :
  omap (λ ev, anthropic_event ev.1 ev.2) (wire_block i b) = block_events i b.
Proof.
  unfold wire_block. rewrite omap_app. destruct b as [pieces|id name pieces]; cbn [omap list_omap].
  - assert (Hs : anthropic_event "content_block_stop" (Value.Object {[ "index" := Value.of_uint (Z.of_nat i) ]}) = None)
      by reflexivity. cbn [fst snd]. rewrite Hs, app_nil_r.
    apply omap_fmap_some. reflexivity.
  - cbn [fst snd]. change (anthropic_event "content_block_stop" _) with (@None StreamEvent.t).
    rewrite app_nil_r. unfold block_events. cbn. f_equal. apply omap_fmap_some. reflexivity.
Qed.

Lemma wire_events input output blocks :
  omap (λ ev, anthropic_event ev.1 ev.2) (wire_message input output blocks)
  = StreamEvent.Usage (TokenUsage.Mk (as_u32 input) 0)
    :: mjoin (imap block_events blocks)
    ++ [StreamEvent.Usage (TokenUsage.Mk 0 (as_u32 output)); StreamEvent.Done].
Proof.
  unfold wire_message. cbn [omap list_omap fst snd].
  change (anthropic_event "message_start" _) with (Some (StreamEvent.Usage (TokenUsage.Mk (as_u32 input) 0))).
  cbn [mbind option_bind]. f_equal. rewrite omap_app. f_equal.
  assert (Hgen : ∀ (f : nat → streamed_block → list (string * Value.t)) g,
    (∀ i b, omap (λ ev, anthropic_event ev.1 ev.2) (f i b) = g i b) →
    omap (λ ev, anthropic_event ev.1 ev.2) (mjoin (imap f blocks)) = mjoin (imap g blocks)).
  { induction blocks as [|b blocks IH]; intros f g Hfg; [done|]. cbn [imap mjoin list_join].
    rewrite omap_app, Hfg. f_equal. apply IH. intros i x. apply Hfg. }
  apply Hgen, wire_block_events.
Qed.

Lemma collect_pieces k pieces t calls c :
  k ∉ calls.*1 → Turn.calls t = calls ++ [(k, c)] →
  Turn.collect t ((λ p, StreamEvent.ToolCallDelta k None None (Some p)) <$> pieces)
  = Turn.mk (Turn.text t)
      (calls ++ [(k, Partial.mk (Partial.id c) (Partial.name c) (Partial.arguments c +:+ String.concat "" pieces))])
      (Turn.input_tokens t) (Turn.output_tokens t) (Turn.finished t).
Proof.
  intros Hk. revert t c. induction pieces as [|p pieces IH]; intros t c Hc.
  - destruct t, c. cbn in *. rewrite Hc. by rewrite string_app_nil.
  - rewrite fmap_cons. change (Turn.collect t (?e :: ?l)) with (Turn.collect (Turn.add t e) l).
    erewrite IH; [|cbn; rewrite Hc; by apply merge_last]. cbn [Turn.add Turn.text Turn.input_tokens
      Turn.output_tokens Turn.finished Partial.id Partial.name Partial.arguments default].
    rewrite concat_cons, string_app_assoc. by destruct c as [[] [] args].
Qed.

Lemma collect_block k b t :
  Z.of_nat k ≤ u32_max → Z.of_nat k ∉ (Turn.calls t).*1 →
  Turn.collect t (block_events k b)
  = Turn.mk (Turn.text t +:+ streamed_text [b]) (Turn.calls t ++ option_list (streamed_call k b))
      (Turn.input_tokens t) (Turn.output_tokens t) (Turn.finished t).
Proof.
  intros Hk Hfresh. unfold streamed_text. destruct b as [pieces|id name pieces]; cbn [block_events streamed_call option_list].
  - rewrite collect_text, app_nil_r. cbn. by rewrite app_nil_r.
  - rewrite as_u32_nat by done. change (Turn.collect t (?e :: ?l)) with (Turn.collect (Turn.add t e) l).
    erewrite collect_pieces; [|exact Hfresh|cbn; by apply merge_fresh].
    cbn. by rewrite string_app_nil.
Qed.

Lemma streamed_text_cons b blocks : streamed_text (b :: blocks) = streamed_text [b] +:+ streamed_text blocks.
Proof. unfold streamed_text. rewrite !fmap_cons. cbn [mjoin list_join fmap list_fmap]. by rewrite app_nil_r, concat_app. Qed.

Lemma collect_blocks k l t :
  Z.of_nat (k + length l) ≤ u32_max + 1 → Forall (λ c, c.1 < Z.of_nat k) (Turn.calls t) →
  Turn.collect t (mjoin (imap (λ i b, block_events (k + i) b) l))
  = Turn.mk (Turn.text t +:+ streamed_text l)
      (Turn.calls t ++ omap id (imap (λ i b, streamed_call (k + i) b) l))
      (Turn.input_tokens t) (Turn.output_tokens t) (Turn.finished t).
Proof.
  revert k t. induction l as [|b l IH]; intros k t Hlen Hlt.
  - destruct t. cbn. by rewrite app_nil_r, string_app_nil.
  - rewrite !imap_from. cbn [mjoin list_join]. rewrite collect_app. cbn [length] in Hlen.
    rewrite collect_block.
    + rewrite IH; cbn [Turn.calls Turn.text Turn.input_tokens Turn.output_tokens Turn.finished].
      * rewrite (streamed_text_cons b l), string_app_assoc, <-app_assoc. f_equal. f_equal. by destruct b.
      * lia.
      * apply Forall_app. split; [eapply Forall_impl; [exact Hlt|]; cbn; lia|].
        destruct b; cbn; repeat constructor. cbn. lia.
    + lia.
    + intros ([i c] & Heq & Hin)%list_elem_of_fmap. rewrite Forall_forall in Hlt.
      apply Hlt in Hin. cbn in *. lia.
Qed.

(** A stream of the Anthropic protocol adds up to its message: whatever the pieces,
    the parsed events make up the text of the text blocks, a call per tool block with its
    identifier, name and arguments, the input and output tokens (their low 32 bits), and
    end with [Done]; every payload is read as the JSON value it is the text of. *)
Theorem anthropic_stream_adds_up `{JsonCodec} input output (blocks : list streamed_block) (texts : list string)
    (Hlen : Z.of_nat (length blocks) ≤ u32_max + 1)
    (Htexts : Forall2 (λ ev text, from_str text = Some ev.2) (wire_message input output blocks) texts) :
  Turn.collect Turn.empty
    (omap id (zip_with parse_anthropic_event (wire_message input output blocks).*1 texts))
  = Turn.mk (streamed_text blocks) (omap id (imap streamed_call blocks)) (as_u32 input) (as_u32 output) true.
Proof.
  assert (Hev : omap id (zip_with parse_anthropic_event (wire_message input output blocks).*1 texts)
                = omap (λ ev, anthropic_event ev.1 ev.2) (wire_message input output blocks)).
  { induction Htexts as [|ev text evs texts Hev Htexts IH]; [done|]. cbn. rewrite <-IH.
    unfold parse_anthropic_event. rewrite Hev. reflexivity. }
  rewrite Hev, wire_events.
  change (Turn.collect Turn.empty (?e :: ?l)) with (Turn.collect (Turn.add Turn.empty e) l).
  rewrite collect_app, (collect_blocks 0) by (cbn; constructor || lia).
  cbn. f_equal. lia.
Qed.

Lemma anthropic_stream_adds_up_witness :
  let blocks := [StreamedText ["on "; "it"]; StreamedCall "c1" "read" ["{"; "}"]] in
  let wire := wire_message 12 34 blocks in
  let names := imap (λ i _, pretty (N.of_nat i)) wire in
  let codec := {| from_str s := snd <$> head (filter (λ p, p.1 = s) (zip names wire.*2)); to_string _ := "" |} in
  Turn.collect Turn.empty (omap id (zip_with (parse_anthropic_event (H := codec)) wire.*1 names))
  = Turn.mk "on it" [(1, Partial.mk (Some "c1") (Some "read") "{}")] 12 34 true.
Proof.
  intros blocks wire names codec.
  exact (anthropic_stream_adds_up (H := codec) 12 34 blocks names ltac:(done)
           ltac:(repeat (constructor; [reflexivity|]); constructor)).
Defined.
