(* ===== verification/Security.v ===== *)
(** * Content filter, secrets and audit events (wacp-security)

    filter.rs, secrets.rs and audit.rs.  The regex crate is a parameter with what its
    documentation says of the calls the filter makes.  The theorems give the result of
    the filter for each policy, relate the redactions it records to those it makes, and
    say which secrets a scan reports. *)

From Stdlib Require Import Ascii.
From S2P Require Import Prelude Std SerdeJson.

(** ** Regular expressions

    A match is its position and its length in bytes.  Matches are in order and do not
    overlap; [is_match] asks for one; [replace_all] puts the replacement, which has no
    group references here, in the place of each. *)

Module Match.
Record t : Type := mk { start : Z; len : Z }.
End Match.

(** [s] from byte [at_] on, with the matches replaced; [s] starts at byte [at_]. *)
Fixpoint splice (rep : string) (at_ : Z) (ms : list Match.t) (s : string) : string :=
  match ms with
  | [] => s
  | m :: ms =>
      let before := Z.to_nat (Match.start m - at_) in
      let skip := (before + Z.to_nat (Match.len m))%nat in
      String.substring 0 before s +:+ rep
        +:+ splice rep (Match.start m + Match.len m) ms (String.substring skip (String.length s - skip) s)
  end.

Class Regex : Type := {
  regex : Type;
  find_iter : regex → string → list Match.t;
  is_match : regex → string → bool;
  replace_all : regex → string → string → string;
  is_match_find : ∀ re s, is_match re s = negb (bool_decide (length (find_iter re s) = 0%nat));
  replace_all_find : ∀ re s rep, ¬ "$"%char ∈ chars rep → replace_all re s rep = splice rep 0 (find_iter re s) s;
}.

(** ** filter.rs *)

Module FilterAction.
Inductive t : Set := Redact | Block | Warn.
End FilterAction.

Module FilterPolicy.
Record t : Type := mk { default_action : FilterAction.t; enabled : bool }.

Definition default : t := mk FilterAction.Redact true.
End FilterPolicy.

Module Redaction.
Record t : Type := mk { rule_name : string; original_length : Z; position : Z }.
End Redaction.

Module FilterResult.
Record t : Type := mk { output : string; redactions : list Redaction.t; blocked : bool }.
End FilterResult.

Module FilterRule.
Record t `{Regex} : Type := mk { name : string; pattern : regex; replacement : string; enabled : bool }.
Arguments mk {_} _ _ _ _.
End FilterRule.

(** The rules of [default_rules]: name, pattern text, replacement.  [Regex::new] compiles
    the pattern and panics on an error. *)
Definition default_patterns : list (string * string * string) :=
  [("api_key", "(sk-[a-zA-Z0-9]{20,})|(key-[a-zA-Z0-9]{20,})", "[REDACTED_API_KEY]");
   ("bearer_token", "Bearer\s+[A-Za-z0-9\-._~+/]+=*", "[REDACTED_BEARER]");
   ("aws_key", "AKIA[0-9A-Z]{16}", "[REDACTED_AWS_KEY]");
   ("private_key", "-----BEGIN\s+(RSA\s+)?PRIVATE\s+KEY-----", "[REDACTED_PRIVATE_KEY]");
   ("email", "[a-zA-Z0-9._%+-]+@[a-zA-Z0-9.-]+\.[a-zA-Z]{2,}", "[REDACTED_EMAIL]");
   ("ssn", "\b\d{3}-\d{2}-\d{4}\b", "[REDACTED_SSN]");
   ("credit_card", "\b\d{4}[\s-]?\d{4}[\s-]?\d{4}[\s-]?\d{4}\b", "[REDACTED_CC]")].

Module ContentFilter.
Section filter.
Context `{Regex}.

Record t : Type := mk { rules : list FilterRule.t; policy : FilterPolicy.t }.

Definition default_rules (compile : string → option regex) : option (list FilterRule.t) :=
  mapM (λ '(name, pattern, replacement),
          re ← compile pattern; Some (FilterRule.mk name re replacement true)) default_patterns.

Definition with_policy (compile : string → option regex) (policy : FilterPolicy.t) : option t :=
  rules ← default_rules compile; Some (mk rules policy).

Definition with_defaults (compile : string → option regex) : option t := with_policy compile FilterPolicy.default.

Definition disabled : t := mk [] (FilterPolicy.mk FilterAction.Redact false).

Definition add_rule (self : t) (rule : FilterRule.t) : t := mk (rules self ++ [rule]) (policy self).

(** The redactions of a rule on a text. *)
Definition record_matches (rule : FilterRule.t) (s : string) : list Redaction.t :=
  (λ m, Redaction.mk (FilterRule.name rule) (Match.len m) (Match.start m)) <$> find_iter (FilterRule.pattern rule) s.

(** The loop over the rules, with [output] and [redactions] so far. *)
Fixpoint filter_rules (action : FilterAction.t) (input : string) (rules : list FilterRule.t)
    (output : string) (redactions : list Redaction.t) : FilterResult.t :=
  match rules with
  | [] => FilterResult.mk output redactions false
  | rule :: rules =>
      if negb (FilterRule.enabled rule) then filter_rules action input rules output redactions
      else match action with
      | FilterAction.Block =>
          if is_match (FilterRule.pattern rule) output
          then FilterResult.mk "" [Redaction.mk (FilterRule.name rule) 0 0] true
          else filter_rules action input rules output redactions
      | FilterAction.Redact =>
          filter_rules action input rules
            (replace_all (FilterRule.pattern rule) output (FilterRule.replacement rule))
            (redactions ++ record_matches rule input)
      | FilterAction.Warn =>
          filter_rules action input rules output (redactions ++ record_matches rule output)
      end
  end.

Definition filter (self : t) (input : string) : FilterResult.t :=
  if negb (FilterPolicy.enabled (policy self)) then FilterResult.mk input [] false
  else filter_rules (FilterPolicy.default_action (policy self)) input (rules self) input [].
End filter.
Arguments t {_}.
End ContentFilter.

(** ** secrets.rs *)

Module SecretValue.
Record t : Type := mk { value : string }.

Definition new (value : string) : t := mk value.
Definition expose (self : t) : string := value self.
Definition debug (self : t) : string := "SecretValue(***)".
Definition display (self : t) : string := "***".
End SecretValue.

Module SecretStore.
Record t : Type := mk { secrets : gmap string SecretValue.t }.

Definition new : t := mk ∅.
Definition set (self : t) (key value : string) : t := mk (<[key := SecretValue.new value]> (secrets self)).
Definition get (self : t) (key : string) : option SecretValue.t := secrets self !! key.
Definition contains (self : t) (key : string) : bool := bool_decide (is_Some (secrets self !! key)).
Definition remove (self : t) (key : string) : t * bool :=
  (mk (delete key (secrets self)), bool_decide (is_Some (secrets self !! key))).

Definition scan_for_leaks `{HashOrder} (self : t) (content : string) : list string :=
  (filter (λ kv, Is_true (negb (is_empty (SecretValue.value kv.2))
                          && str_contains content (SecretValue.value kv.2))) (hash_iter (secrets self))).*1.
End SecretStore.

(** ** audit.rs *)

Module AuditEvent.
Inductive t : Type :=
| AuthAttempt (identity method : string) (success : bool) (reason : option string)
| RateLimited (identity limit_type : string)
| SecretAccess (key_name purpose : string)
| ContentFiltered (rule_name action context : string)
| ToolInvocation (tool_name capability input_hash : string) (output_hash : option string)
    (duration_ms : Z) (success : bool) (error_code : option string).

(** The derived [Serialize]: a tag beside the fields, and no key for an absent option. *)
Definition optional (k : string) (o : option string) : gmap string Value.t :=
  match o with Some s => {[ k := Value.String s ]} | None => ∅ end.

Definition to_value (self : t) : Value.t :=
  let tag s : gmap string Value.t := {[ "audit_type" := Value.String s ]} in
  let str k s : gmap string Value.t := {[ k := Value.String s ]} in
  Value.Object
    match self with
    | AuthAttempt identity method success reason =>
        tag "auth_attempt" ∪ str "identity" identity ∪ str "method" method
        ∪ {[ "success" := Value.Bool success ]} ∪ optional "reason" reason
    | RateLimited identity limit_type =>
        tag "rate_limited" ∪ str "identity" identity ∪ str "limit_type" limit_type
    | SecretAccess key_name purpose =>
        tag "secret_access" ∪ str "key_name" key_name ∪ str "purpose" purpose
    | ContentFiltered rule_name action context =>
        tag "content_filtered" ∪ str "rule_name" rule_name ∪ str "action" action ∪ str "context" context
    | ToolInvocation tool_name capability input_hash output_hash duration_ms success error_code =>
        tag "tool_invocation" ∪ str "tool_name" tool_name ∪ str "capability" capability
        ∪ str "input_hash" input_hash ∪ optional "output_hash" output_hash
        ∪ {[ "duration_ms" := Value.of_uint duration_ms ]} ∪ {[ "success" := Value.Bool success ]}
        ∪ optional "error_code" error_code
    end.

Definition to_trail_payload `{JsonCodec} (self : t) : list Z := as_bytes (to_string (to_value self)).
End AuditEvent.

(** ** The filter *)

Section filter_theorems.
Context `{Regex}.

(** The rules the loop applies. *)
Definition active (rules : list FilterRule.t) : list FilterRule.t :=
  filter (λ rule, Is_true (FilterRule.enabled rule)) rules.

Definition redact_with (output : string) (rule : FilterRule.t) : string :=
  replace_all (FilterRule.pattern rule) output (FilterRule.replacement rule).

Lemma active_cons rule rules :
  active (rule :: rules) = if FilterRule.enabled rule then rule :: active rules else active rules.
Proof.
  unfold active. rewrite filter_cons. case_decide as Hd; destruct (FilterRule.enabled rule); done.
Qed.

Lemma filter_rules_redact input rules output redactions :
  ContentFilter.filter_rules FilterAction.Redact input rules output redactions
  = FilterResult.mk (fold_left redact_with (active rules) output)
      (redactions ++ mjoin ((λ rule, ContentFilter.record_matches rule input) <$> active rules)) false.
Proof.
  revert output redactions. induction rules as [|rule rules IH]; intros output redactions.
  - cbn. by rewrite app_nil_r.
  - cbn [ContentFilter.filter_rules]. rewrite active_cons. destruct (FilterRule.enabled rule); cbn [negb]; [|apply IH].
    rewrite IH, fmap_cons. cbn [mjoin list_join fold_left]. by rewrite <-app_assoc.
Qed.

Lemma filter_rules_warn input rules output redactions :
  ContentFilter.filter_rules FilterAction.Warn input rules output redactions
  = FilterResult.mk output
      (redactions ++ mjoin ((λ rule, ContentFilter.record_matches rule output) <$> active rules)) false.
Proof.
  revert redactions. induction rules as [|rule rules IH]; intros redactions.
  - cbn. by rewrite app_nil_r.
  - cbn [ContentFilter.filter_rules]. rewrite active_cons. destruct (FilterRule.enabled rule); cbn [negb]; [|apply IH].
    rewrite IH, fmap_cons. cbn [mjoin list_join]. by rewrite <-app_assoc.
Qed.

Lemma filter_rules_block input rules output redactions :
  ContentFilter.filter_rules FilterAction.Block input rules output redactions
  = match head (filter (λ rule, Is_true (is_match (FilterRule.pattern rule) output)) (active rules)) with
    | Some rule => FilterResult.mk "" [Redaction.mk (FilterRule.name rule) 0 0] true
    | None => FilterResult.mk output redactions false
    end.
Proof.
  induction rules as [|rule rules IH]; [done|].
  cbn [ContentFilter.filter_rules]. rewrite active_cons. destruct (FilterRule.enabled rule); cbn [negb]; [|apply IH].
  rewrite filter_cons. destruct (is_match _ output).
  - by rewrite decide_True.
  - rewrite decide_False by auto. apply IH.
Qed.

(** The matches recorded. *)
Definition recorded (redactions : list Redaction.t) : list Match.t :=
  (λ r, Match.mk (Redaction.position r) (Redaction.original_length r)) <$> redactions.

Lemma recorded_matches rule s :
  recorded (ContentFilter.record_matches rule s) = find_iter (FilterRule.pattern rule) s.
Proof.
  unfold recorded, ContentFilter.record_matches. rewrite <-list_fmap_compose.
  rewrite <-(list_fmap_id (find_iter _ s)) at 2. apply list_fmap_ext. by intros ? [] ?.
Qed.

Lemma is_match_recorded rule input :
  is_match (FilterRule.pattern rule) input = true ↔ ContentFilter.record_matches rule input ≠ [].
Proof.
  rewrite is_match_find, negb_true_iff, bool_decide_eq_false. unfold ContentFilter.record_matches.
  destruct (find_iter _ input); cbn; naive_solver.
Qed.

(** The first of the rules that match. *)
Lemma first_matching input on :
  match head (filter (λ rule, Is_true (is_match (FilterRule.pattern rule) input)) on) with
  | Some rule =>
      ∃ before after, on = before ++ rule :: after ∧ ContentFilter.record_matches rule input ≠ []
      ∧ Forall (λ rule', ContentFilter.record_matches rule' input = []) before
  | None => Forall (λ rule', ContentFilter.record_matches rule' input = []) on
  end.
Proof.
  induction on as [|rule on IH]; [constructor|]. rewrite filter_cons.
  pose proof (is_match_recorded rule input) as Hm. destruct (is_match _ input).
  - rewrite decide_True by done. cbn. exists [], on. split; [done|]. split; [by apply Hm|constructor].
  - rewrite decide_False by auto.
    assert (Hnone : ContentFilter.record_matches rule input = []).
    { destruct (ContentFilter.record_matches rule input); [done|]. discriminate (proj2 Hm). done. }
    destruct (head _) as [r|]; [|by constructor].
    destruct IH as (before & after & -> & Hr & Hall). exists (rule :: before), after.
    split; [done|]. split; [done|]. by constructor.
Qed.

Lemma found_nil input on :
  mjoin ((λ rule, ContentFilter.record_matches rule input) <$> on) = []
  ↔ Forall (λ rule, ContentFilter.record_matches rule input = []) on.
Proof.
  induction on as [|rule on IH]; [split; [constructor|done]|]. rewrite fmap_cons. cbn [mjoin list_join].
  rewrite app_nil, Forall_cons. by rewrite <-IH.
Qed.

(** C36. The result of the content filter for every policy: off, the input; [Block], the
    input or, when an enabled rule matches it, nothing with the first such rule named;
    [Warn], the input and the matches of all enabled rules; [Redact], the input rewritten
    by the enabled rules in order, each on what the one before left, and their matches on
    the input.  With one enabled rule these are the parts replaced. *)
Theorem filter_exact (self : ContentFilter.t) (input : string) :
  let r := ContentFilter.filter self input in
  let on := active (ContentFilter.rules self) in
  let found := mjoin ((λ rule, ContentFilter.record_matches rule input) <$> on) in
  if FilterPolicy.enabled (ContentFilter.policy self) then
    match FilterPolicy.default_action (ContentFilter.policy self) with
    | FilterAction.Block =>
        (FilterResult.blocked r = true ↔ found ≠ [])
        ∧ (found = [] → r = FilterResult.mk input [] false)
        ∧ (FilterResult.blocked r = true → FilterResult.output r = ""
           ∧ ∃ before rule after, on = before ++ rule :: after
             ∧ ContentFilter.record_matches rule input ≠ []
             ∧ Forall (λ rule', ContentFilter.record_matches rule' input = []) before
             ∧ FilterResult.redactions r = [Redaction.mk (FilterRule.name rule) 0 0])
    | FilterAction.Warn => r = FilterResult.mk input found false
    | FilterAction.Redact =>
        FilterResult.blocked r = false
        ∧ FilterResult.redactions r = found
        ∧ FilterResult.output r = fold_left redact_with on input
        ∧ (∀ rule, on = [rule] → ¬ "$"%char ∈ chars (FilterRule.replacement rule) →
           FilterResult.output r
           = splice (FilterRule.replacement rule) 0 (recorded (FilterResult.redactions r)) input)
    end
  else r = FilterResult.mk input [] false.
Proof.
  cbv zeta. unfold ContentFilter.filter. destruct (FilterPolicy.enabled _); [|done]. cbn [negb].
  destruct (FilterPolicy.default_action _).
  - rewrite filter_rules_redact. cbn [FilterResult.blocked FilterResult.redactions FilterResult.output app]. split; [done|]. split; [done|]. split; [done|].
    intros rule Hon Hrep. rewrite Hon. cbn [fmap list_fmap mjoin list_join fold_left]. rewrite app_nil_r, recorded_matches.
    unfold redact_with. by rewrite replace_all_find.
  - rewrite filter_rules_block.
    pose proof (first_matching input (active (ContentFilter.rules self))) as Hf.
    destruct (head _) as [rule|]; cbn.
    + destruct Hf as (before & after & -> & Hr & Hall).
      rewrite found_nil, Forall_app, Forall_cons. naive_solver.
    + rewrite found_nil. naive_solver.
  - by rewrite filter_rules_warn.
Qed.
End filter_theorems.

(** *** A pattern that is its own text, to compute with *)

Fixpoint find_literal (fuel : nat) (pat s : string) (at_ : Z) : list Match.t :=
  match fuel with
  | O => []
  | S fuel =>
      match strip_prefix pat s, s with
      | Some rest, _ => Match.mk at_ (str_len pat) :: find_literal fuel pat rest (at_ + str_len pat)
      | None, String _ s => find_literal fuel pat s (at_ + 1)
      | None, EmptyString => []
      end
  end.

#[local] Instance literals : Regex := {|
  regex := string;
  find_iter pat s := if is_empty pat then [] else find_literal (String.length s) pat s 0;
  is_match pat s := negb (bool_decide (length (if is_empty pat then [] else find_literal (String.length s) pat s 0) = 0%nat));
  replace_all pat s rep := splice rep 0 (if is_empty pat then [] else find_literal (String.length s) pat s 0) s;
  is_match_find _ _ := eq_refl;
  replace_all_find _ _ _ _ := eq_refl;
|}.

(** A rule after one that rewrites its match: the second redaction is recorded and not
    made. *)
Lemma recorded_not_redacted :
  let key := FilterRule.mk "api_key" "sk-1" "[KEY]" true in
  let bearer := FilterRule.mk "bearer_token" "Bearer sk-1" "[BEARER]" true in
  let r := ContentFilter.filter (ContentFilter.mk [key; bearer] FilterPolicy.default) "Bearer sk-1" in
  FilterResult.output r = "Bearer [KEY]"
  ∧ FilterResult.redactions r = [Redaction.mk "api_key" 4 7; Redaction.mk "bearer_token" 11 0].
Proof. by vm_compute. Qed.

Lemma filter_exact_witness :
  let key := FilterRule.mk "api_key" "sk-1" "[KEY]" true in
  let self := ContentFilter.mk [key] FilterPolicy.default in
  FilterResult.output (ContentFilter.filter self "a sk-1 b sk-1")
  = splice "[KEY]" 0 (recorded (FilterResult.redactions (ContentFilter.filter self "a sk-1 b sk-1"))) "a sk-1 b sk-1".
Proof.
  intros key self. destruct (filter_exact self "a sk-1 b sk-1") as (_ & _ & _ & Hw).
  apply (Hw key); [reflexivity|]. cbn. set_solver.
Defined.

(** ** Secrets *)

Lemma prefix_app pat s : String.prefix pat s = true → ∃ after, s = pat +:+ after.
Proof.
  revert s. induction pat as [|c pat IH]; intros s; [by exists s|]. destruct s as [|c' s]; cbn; [done|].
  destruct (Ascii.ascii_dec c c') as [->|]; [|done]. intros [after ->]%IH. by exists after.
Qed.

Lemma prefix_app_r pat after : String.prefix pat (pat +:+ after) = true.
Proof. apply String.prefix_correct, substring_app_l. Qed.

(** [str::contains] finds the occurrences. *)
Lemma str_contains_spec s pat : str_contains s pat = true ↔ ∃ before after, s = before +:+ (pat +:+ after).
Proof.
  split.
  - induction s as [|c s IH]; cbn [str_contains].
    + rewrite orb_false_r. intros Hp. apply prefix_app in Hp as [after ->]. by exists "", after.
    + rewrite orb_true_iff. intros [Hp|Hs].
      * apply prefix_app in Hp as [after ->]. by exists "", after.
      * apply IH in Hs as (before & after & ->). by exists (String c before), after.
  - intros (before & after & ->). induction before as [|c before IH].
    + change (str_contains (pat +:+ after) pat = true). destruct (pat +:+ after) eqn:Heq; cbn [str_contains];
        rewrite <-Heq, prefix_app_r; done.
    + change (str_contains (String c (before +:+ (pat +:+ after))) pat = true). cbn [str_contains].
      by rewrite IH, orb_true_r.
Qed.

Section secrets.
Context `{HashOrder}.

Inductive secret_op : Type := SetSecret (key value : string) | RemoveSecret (key : string).

Definition secret_step (s : SecretStore.t) (op : secret_op) : SecretStore.t :=
  match op with
  | SetSecret key value => SecretStore.set s key value
  | RemoveSecret key => (SecretStore.remove s key).1
  end.

Definition secret_run (ops : list secret_op) : SecretStore.t := fold_left secret_step ops SecretStore.new.

Definition op_key (op : secret_op) : string := match op with SetSecret k _ => k | RemoveSecret k => k end.

Lemma secret_get ops k v :
  SecretStore.get (secret_run ops) k = Some (SecretValue.mk v) ↔ since (SetSecret k v) (λ op, op_key op = k) ops.
Proof.
  unfold secret_run. induction ops as [|op ops IH] using rev_ind.
  - split; [done|]. by intros ?%since_nil.
  - rewrite fold_left_app. cbn [fold_left]. rewrite since_snoc. revert IH. generalize (fold_left secret_step ops SecretStore.new).
    intros s IH. unfold SecretStore.get in *. destruct op as [k' v'|k']; cbn.
    + rewrite lookup_insert. case_decide as Hk.
      * subst k'. split; [intros [= ->]; by left|]. by intros [[= ->]|[? _]].
      * rewrite IH. split; [by right|]. by intros [[= -> ->]|[_ ?]].
    + rewrite lookup_delete. case_decide as Hk; [|rewrite IH]; (split; [try done; by right|]);
        by intros [?|[? ?]].
Qed.

(** A scan reports exactly the keys whose current value is not empty and occurs in the
    text, each once: the value last set under a key and not removed since. *)
Theorem scan_exact (ops : list secret_op) (content : string) :
  NoDup (SecretStore.scan_for_leaks (secret_run ops) content)
  ∧ ∀ k, k ∈ SecretStore.scan_for_leaks (secret_run ops) content
         ↔ ∃ v before after, since (SetSecret k v) (λ op, op_key op = k) ops ∧ v ≠ ""
             ∧ content = before +:+ (v +:+ after).
Proof.
  unfold SecretStore.scan_for_leaks. split.
  - apply (sublist_NoDup _ _ (hash_iter_NoDup (SecretStore.secrets (secret_run ops)))). apply fmap_sublist, sublist_filter.
  - intros k. rewrite list_elem_of_fmap. setoid_rewrite <-secret_get. unfold SecretStore.get. split.
    + intros ([k' [v]] & -> & Hin). apply list_elem_of_filter in Hin as [Hp Hin]. cbn [fst snd SecretValue.value] in *.
      apply elem_of_hash_iter in Hin. apply andb_prop_elim in Hp as [Hne Hc].
      apply Is_true_true, str_contains_spec in Hc as (before & after & ->). exists v, before, after.
      split; [done|]. split; [|done]. by intros ->.
    + intros (v & before & after & Hk & Hne & ->). exists (k, SecretValue.mk v). split; [done|].
      apply list_elem_of_filter. split; [|by apply elem_of_hash_iter]. cbn [snd SecretValue.value].
      apply andb_prop_intro. split; [by destruct v|]. apply Is_true_true, str_contains_spec. by exists before, after.
Qed.
End secrets.
