(* ===== verification/Config.v ===== *)
(** * Configuration of the runtime

    wacp-runtime's config.rs and config_env.rs: the configuration tree and its
    defaults, the checks made before start, the [WACP_*] environment overrides and
    the choice of the file to load.

    The YAML deserialiser and the file system are parameters.  An error message that
    shows a value with [{:?}] or a float keeps the value instead of its rendering.
    [std::env::vars] is the list of the variables, all valid Unicode. *)

From Stdlib Require Import Ascii.
From S2P Require Import Prelude Types Std Float Resource.

(** ** The configuration tree *)

Module ServerConfig.
Record t : Type := mk {
  agent_listen : string;
  highway_listen : string;
  coordinator_listen : string;
  rest_listen : string;
}.
#[global] Instance eta_t : Settable t := λ r,
  mk (agent_listen r) (highway_listen r) (coordinator_listen r) (rest_listen r).
End ServerConfig.

Module TlsConfig.
Record t : Type := mk {
  enabled : bool;
  cert_file : string;
  key_file : string;
  client_ca_file : string;
  min_version : string;
}.
#[global] Instance eta_t : Settable t := λ r,
  mk (enabled r) (cert_file r) (key_file r) (client_ca_file r) (min_version r).
End TlsConfig.

Module ExternalAuthConfig.
Record t : Type := mk {
  url : string;
  timeout_ms : Z;
}.
#[global] Instance eta_t : Settable t := λ r, mk (url r) (timeout_ms r).
End ExternalAuthConfig.

Module RateLimitConfig.
Record t : Type := mk {
  max_failures : Z;
  window_seconds : Z;
}.
#[global] Instance eta_t : Settable t := λ r, mk (max_failures r) (window_seconds r).
End RateLimitConfig.

Module AuthConfig.
Record t : Type := mk {
  provider : string;
  external : ExternalAuthConfig.t;
  rate_limit : RateLimitConfig.t;
}.
#[global] Instance eta_t : Settable t := λ r, mk (provider r) (external r) (rate_limit r).
End AuthConfig.

Module TaxonomyConfig.
Record t : Type := mk {
  file : string;
  verticals_dir : string;
}.
#[global] Instance eta_t : Settable t := λ r, mk (file r) (verticals_dir r).
End TaxonomyConfig.

Module TrailStorageConfig.
Record t : Type := mk {
  segment_size_bytes : Z;
  index_batch_size : Z;
  index_batch_timeout_ms : Z;
}.
#[global] Instance eta_t : Settable t := λ r,
  mk (segment_size_bytes r) (index_batch_size r) (index_batch_timeout_ms r).
End TrailStorageConfig.

Module SnapshotConfig.
Record t : Type := mk {
  workspace_checkpoint_interval : Z;
  workspace_time_interval_seconds : Z;
  system_entry_interval : Z;
  system_time_interval_minutes : Z;
  system_retention_count : Z;
}.
#[global] Instance eta_t : Settable t := λ r,
  mk (workspace_checkpoint_interval r) (workspace_time_interval_seconds r)
    (system_entry_interval r) (system_time_interval_minutes r) (system_retention_count r).
End SnapshotConfig.

Module TieredConfig.
Record t : Type := mk {
  hot_segments : Z;
  warm_retention_days : Z;
  cold_retention : string;
  cold_destination : string;
  compaction_interval_minutes : Z;
}.
#[global] Instance eta_t : Settable t := λ r,
  mk (hot_segments r) (warm_retention_days r) (cold_retention r) (cold_destination r)
    (compaction_interval_minutes r).
End TieredConfig.

Module StorageConfig.
Record t : Type := mk {
  data_dir : string;
  trail : TrailStorageConfig.t;
  snapshots : SnapshotConfig.t;
  tiered : TieredConfig.t;
}.
#[global] Instance eta_t : Settable t := λ r, mk (data_dir r) (trail r) (snapshots r) (tiered r).
End StorageConfig.

Module BudgetConfig.
Record t : Type := mk {
  max_tokens : Z;
  max_wall_time_ms : Z;
  max_storage_bytes : Z;
  max_network_bytes : Z;
  max_cost_micros : Z;
}.
#[global] Instance eta_t : Settable t := λ r,
  mk (max_tokens r) (max_wall_time_ms r) (max_storage_bytes r) (max_network_bytes r)
    (max_cost_micros r).
End BudgetConfig.

Module ResourceConfig.
Record t : Type := mk {
  default_timeout_ms : Z;
  default_budget : BudgetConfig.t;
  warning_threshold : spec_float;
  liveness_interval_ms : Z;
}.
#[global] Instance eta_t : Settable t := λ r,
  mk (default_timeout_ms r) (default_budget r) (warning_threshold r) (liveness_interval_ms r).
End ResourceConfig.

Module DeliveryConfig.
Record t : Type := mk {
  max_retries : Z;
  retry_backoff_ms : Z;
}.
#[global] Instance eta_t : Settable t := λ r, mk (max_retries r) (retry_backoff_ms r).
End DeliveryConfig.

Module LoggingConfig.
Record t : Type := mk {
  level : string;
  format : string;
  output : string;
  file : string;
}.
#[global] Instance eta_t : Settable t := λ r, mk (level r) (format r) (output r) (file r).
End LoggingConfig.

Module MetricsConfig.
Record t : Type := mk {
  enabled : bool;
  listen : string;
  path : string;
}.
#[global] Instance eta_t : Settable t := λ r, mk (enabled r) (listen r) (path r).
End MetricsConfig.

Module HealthConfig.
Record t : Type := mk {
  enabled : bool;
  listen : string;
  path : string;
}.
#[global] Instance eta_t : Settable t := λ r, mk (enabled r) (listen r) (path r).
End HealthConfig.

Module ObservabilityConfig.
Record t : Type := mk {
  metrics : MetricsConfig.t;
  health : HealthConfig.t;
}.
#[global] Instance eta_t : Settable t := λ r, mk (metrics r) (health r).
End ObservabilityConfig.

Module RuntimeConfig.
Record t : Type := mk {
  server : ServerConfig.t;
  tls : TlsConfig.t;
  auth : AuthConfig.t;
  taxonomy : TaxonomyConfig.t;
  storage : StorageConfig.t;
  resources : ResourceConfig.t;
  delivery : DeliveryConfig.t;
  logging : LoggingConfig.t;
  observability : ObservabilityConfig.t;
}.
#[global] Instance eta_t : Settable t := λ r,
  mk (server r) (tls r) (auth r) (taxonomy r) (storage r) (resources r) (delivery r) (logging r)
    (observability r).
End RuntimeConfig.

(** ** Errors

    [GotStr s v] is ["{s}, got {v:?}"], [GotInt s m v] the template with its two
    numbers, [GotF32 s v] ["{s}, got {v}"] and [Duplicate a] ["duplicate listen
    address: {a}"]. *)

Inductive message : Type :=
| Text (s : string)
| GotStr (s v : string)
| GotInt (s : string) (min v : Z)
| GotF32 (s : string) (v : spec_float)
| Duplicate (addr : string).

Definition quoted (s : string) : string :=
  String (Ascii.ascii_of_nat 34) s +:+ String (Ascii.ascii_of_nat 34) "".

Module ConfigError.
Inductive t : Type :=
| Parse (e : string)
| Validation (field : string) (msg : message)
| EnvOverride (var : string) (msg : message)
| Io (path : option string) (e : string).
End ConfigError.

(** ** Defaults *)

Definition default_config : RuntimeConfig.t := {|
  RuntimeConfig.server := {|
    ServerConfig.agent_listen := "[::1]:9090";
    ServerConfig.highway_listen := "[::1]:9091";
    ServerConfig.coordinator_listen := "[::1]:9092";
    ServerConfig.rest_listen := "[::1]:9093" |};
  RuntimeConfig.tls := {|
    TlsConfig.enabled := false;
    TlsConfig.cert_file := "";
    TlsConfig.key_file := "";
    TlsConfig.client_ca_file := "";
    TlsConfig.min_version := "1.2" |};
  RuntimeConfig.auth := {|
    AuthConfig.provider := "psk";
    AuthConfig.external := {|
      ExternalAuthConfig.url := "";
      ExternalAuthConfig.timeout_ms := 5000 |};
    AuthConfig.rate_limit := {|
      RateLimitConfig.max_failures := 10;
      RateLimitConfig.window_seconds := 60 |} |};
  RuntimeConfig.taxonomy := {|
    TaxonomyConfig.file := "";
    TaxonomyConfig.verticals_dir := "" |};
  RuntimeConfig.storage := {|
    StorageConfig.data_dir := "./data";
    StorageConfig.trail := {|
      TrailStorageConfig.segment_size_bytes := 67108864;
      TrailStorageConfig.index_batch_size := 100;
      TrailStorageConfig.index_batch_timeout_ms := 50 |};
    StorageConfig.snapshots := {|
      SnapshotConfig.workspace_checkpoint_interval := 5;
      SnapshotConfig.workspace_time_interval_seconds := 60;
      SnapshotConfig.system_entry_interval := 10000;
      SnapshotConfig.system_time_interval_minutes := 30;
      SnapshotConfig.system_retention_count := 3 |};
    StorageConfig.tiered := {|
      TieredConfig.hot_segments := 10;
      TieredConfig.warm_retention_days := 90;
      TieredConfig.cold_retention := "indefinite";
      TieredConfig.cold_destination := "";
      TieredConfig.compaction_interval_minutes := 60 |} |};
  RuntimeConfig.resources := {|
    ResourceConfig.default_timeout_ms := 0;
    ResourceConfig.default_budget := {|
      BudgetConfig.max_tokens := 0;
      BudgetConfig.max_wall_time_ms := 0;
      BudgetConfig.max_storage_bytes := 0;
      BudgetConfig.max_network_bytes := 0;
      BudgetConfig.max_cost_micros := 0 |};
    ResourceConfig.warning_threshold := S754_finite false 13421773 (-24); (* 0.8 *)
    ResourceConfig.liveness_interval_ms := 0 |};
  RuntimeConfig.delivery := {|
    DeliveryConfig.max_retries := 3;
    DeliveryConfig.retry_backoff_ms := 100 |};
  RuntimeConfig.logging := {|
    LoggingConfig.level := "info";
    LoggingConfig.format := "json";
    LoggingConfig.output := "stderr";
    LoggingConfig.file := "" |};
  RuntimeConfig.observability := {|
    ObservabilityConfig.metrics := {|
      MetricsConfig.enabled := false;
      MetricsConfig.listen := "[::1]:9095";
      MetricsConfig.path := "/metrics" |};
    ObservabilityConfig.health := {|
      HealthConfig.enabled := true;
      HealthConfig.listen := "[::1]:9094";
      HealthConfig.path := "/healthz" |} |} |}.

(** ** Validation *)

Definition fail_with (field : string) (msg : message) : result unit ConfigError.t :=
  Err (ConfigError.Validation field msg).

(** The macros [check_positive!] and [check_min!]. *)
Definition check_positive (field : string) (value : Z) : result unit ConfigError.t :=
  if value =? 0 then fail_with field (Text "must be > 0, got 0") else Ok tt.

Definition check_min (field : string) (value min : Z) : result unit ConfigError.t :=
  if value <? min then fail_with field (GotInt "must be >= {}, got {}" min value) else Ok tt.

(** [match s { "a" | "b" => {} other => return Err(..) }] *)
Definition check_enum (field : string) (allowed : list string) (expected value : string) :
    result unit ConfigError.t :=
  if bool_decide (value ∈ allowed) then Ok tt else fail_with field (GotStr expected value).

(** The first pair of equal addresses, in the order of the two nested loops. *)
Fixpoint check_addresses (addresses : list (string * string)) : result unit ConfigError.t :=
  match addresses with
  | [] => Ok tt
  | (field, addr) :: rest =>
      let? _ := for_each (λ '(field', addr'),
        if bool_decide (addr = addr')
        then fail_with (field +:+ " and " +:+ field') (Duplicate addr) else Ok tt) rest in
      check_addresses rest
  end.

Module RuntimeConfigChecks.
Import RuntimeConfig.

Definition validate_tls_completeness (self : t) : result unit ConfigError.t :=
  if TlsConfig.enabled (tls self) then
    if is_empty (TlsConfig.cert_file (tls self))
    then fail_with "tls.cert_file" (Text "required when tls.enabled is true")
    else if is_empty (TlsConfig.key_file (tls self))
    then fail_with "tls.key_file" (Text "required when tls.enabled is true")
    else Ok tt
  else Ok tt.

Definition validate_auth_completeness (self : t) : result unit ConfigError.t :=
  let url := ExternalAuthConfig.url (AuthConfig.external (auth self)) in
  if bool_decide (AuthConfig.provider (auth self) = "external") then
    if is_empty url
    then fail_with "auth.external.url" (Text ("required when auth.provider is " +:+ quoted "external"))
    else if negb (starts_with "http://" url) && negb (starts_with "https://" url)
    then fail_with "auth.external.url" (GotStr "must be an HTTP(S) URL" url)
    else Ok tt
  else Ok tt.

Definition validate_taxonomy (self : t) : result unit ConfigError.t := Ok tt.

Definition validate_data_dir (self : t) : result unit ConfigError.t :=
  if is_empty (StorageConfig.data_dir (storage self))
  then fail_with "storage.data_dir" (Text "must not be empty") else Ok tt.

Definition validate_address_uniqueness (self : t) : result unit ConfigError.t :=
  let metrics := ObservabilityConfig.metrics (observability self) in
  let health := ObservabilityConfig.health (observability self) in
  let addresses :=
    [("server.agent_listen", ServerConfig.agent_listen (server self));
     ("server.highway_listen", ServerConfig.highway_listen (server self));
     ("server.coordinator_listen", ServerConfig.coordinator_listen (server self));
     ("server.rest_listen", ServerConfig.rest_listen (server self))] in
  let addresses :=
    if MetricsConfig.enabled metrics
    then addresses ++ [("observability.metrics.listen", MetricsConfig.listen metrics)]
    else addresses in
  let addresses :=
    if HealthConfig.enabled health
    then addresses ++ [("observability.health.listen", HealthConfig.listen health)]
    else addresses in
  check_addresses addresses.

Definition validate_numeric_constraints (self : t) : result unit ConfigError.t :=
  let trail := StorageConfig.trail (storage self) in
  let snapshots := StorageConfig.snapshots (storage self) in
  let tiered := StorageConfig.tiered (storage self) in
  let threshold := ResourceConfig.warning_threshold (resources self) in
  let rate_limit := AuthConfig.rate_limit (auth self) in
  let? _ := check_positive "storage.trail.segment_size_bytes"
              (TrailStorageConfig.segment_size_bytes trail) in
  let? _ := check_positive "storage.trail.index_batch_size"
              (TrailStorageConfig.index_batch_size trail) in
  let? _ := check_positive "storage.trail.index_batch_timeout_ms"
              (TrailStorageConfig.index_batch_timeout_ms trail) in
  let? _ := check_positive "storage.snapshots.workspace_checkpoint_interval"
              (SnapshotConfig.workspace_checkpoint_interval snapshots) in
  let? _ := check_positive "storage.snapshots.workspace_time_interval_seconds"
              (SnapshotConfig.workspace_time_interval_seconds snapshots) in
  let? _ := check_positive "storage.snapshots.system_entry_interval"
              (SnapshotConfig.system_entry_interval snapshots) in
  let? _ := check_positive "storage.snapshots.system_time_interval_minutes"
              (SnapshotConfig.system_time_interval_minutes snapshots) in
  let? _ := check_min "storage.snapshots.system_retention_count"
              (SnapshotConfig.system_retention_count snapshots) 1 in
  let? _ := check_min "storage.tiered.hot_segments" (TieredConfig.hot_segments tiered) 1 in
  let? _ := check_positive "storage.tiered.warm_retention_days"
              (TieredConfig.warm_retention_days tiered) in
  let? _ := check_positive "storage.tiered.compaction_interval_minutes"
              (TieredConfig.compaction_interval_minutes tiered) in
  let? _ := if f32_le threshold (S754_zero false) || f32_gt threshold (f32_of_Z 1)
            then fail_with "resources.warning_threshold" (GotF32 "must be in (0.0, 1.0]" threshold)
            else Ok tt in
  let? _ := if (0 <? DeliveryConfig.max_retries (delivery self))
               && (DeliveryConfig.retry_backoff_ms (delivery self) =? 0)
            then fail_with "delivery.retry_backoff_ms" (Text "must be > 0 when max_retries > 0")
            else Ok tt in
  let? _ := if (0 <? RateLimitConfig.max_failures rate_limit)
               && (RateLimitConfig.window_seconds rate_limit =? 0)
            then fail_with "auth.rate_limit.window_seconds" (Text "must be > 0 when max_failures > 0")
            else Ok tt in
  if ExternalAuthConfig.timeout_ms (AuthConfig.external (auth self)) =? 0
  then fail_with "auth.external.timeout_ms" (Text "must be > 0")
  else Ok tt.

Definition validate_enum_fields (self : t) : result unit ConfigError.t :=
  let? _ := check_enum "tls.min_version" ["1.2"; "1.3"] ("must be " +:+ quoted "1.2" +:+ " or " +:+ quoted "1.3")
              (TlsConfig.min_version (tls self)) in
  let? _ := check_enum "auth.provider" ["psk"; "external"] ("must be " +:+ quoted "psk" +:+ " or " +:+ quoted "external")
              (AuthConfig.provider (auth self)) in
  let? _ := check_enum "logging.level" ["trace"; "debug"; "info"; "warn"; "error"]
              "must be one of trace/debug/info/warn/error" (LoggingConfig.level (logging self)) in
  let? _ := check_enum "logging.format" ["json"; "pretty"] ("must be " +:+ quoted "json" +:+ " or " +:+ quoted "pretty")
              (LoggingConfig.format (logging self)) in
  check_enum "logging.output" ["stderr"; "file"] ("must be " +:+ quoted "stderr" +:+ " or " +:+ quoted "file")
    (LoggingConfig.output (logging self)).

Definition validate_logging_file (self : t) : result unit ConfigError.t :=
  if bool_decide (LoggingConfig.output (logging self) = "file") && is_empty (LoggingConfig.file (logging self))
  then fail_with "logging.file" (Text ("required when logging.output is " +:+ quoted "file")) else Ok tt.

Definition validate_cold_retention (self : t) : result unit ConfigError.t :=
  let v := TieredConfig.cold_retention (StorageConfig.tiered (storage self)) in
  if bool_decide (v = "indefinite") then Ok tt
  else match parse_u64 v with
       | Some n => if 0 <? n then Ok tt
                   else fail_with "storage.tiered.cold_retention"
                          (GotStr ("must be " +:+ quoted "indefinite" +:+ " or a positive integer") v)
       | None => fail_with "storage.tiered.cold_retention"
                   (GotStr ("must be " +:+ quoted "indefinite" +:+ " or a positive integer") v)
       end.

Definition validate (self : t) : result unit ConfigError.t :=
  let? _ := validate_tls_completeness self in
  let? _ := validate_auth_completeness self in
  let? _ := validate_taxonomy self in
  let? _ := validate_data_dir self in
  let? _ := validate_address_uniqueness self in
  let? _ := validate_numeric_constraints self in
  let? _ := validate_enum_fields self in
  let? _ := validate_logging_file self in
  validate_cold_retention self.
End RuntimeConfigChecks.
Import RuntimeConfigChecks.

(** ** Environment overrides *)

Definition env_error (var expected value : string) : ConfigError.t :=
  ConfigError.EnvOverride var (GotStr expected value).

Definition parse_bool_env (var value : string) : result bool ConfigError.t :=
  if bool_decide (value ∈ ["true"; "1"]) then Ok true
  else if bool_decide (value ∈ ["false"; "0"]) then Ok false
  else Err (env_error var "expected bool (true/false/1/0)" value).

Definition parse_u32_env (var value : string) : result Z ConfigError.t :=
  ok_or (parse_u32 value) (env_error var "expected u32" value).

Definition parse_u64_env (var value : string) : result Z ConfigError.t :=
  ok_or (parse_u64 value) (env_error var "expected u64" value).

Definition parse_f32_env (var value : string) : result spec_float ConfigError.t :=
  ok_or (parse_f32 value) (env_error var "expected f32" value).

Definition apply_single_override (config : RuntimeConfig.t) (var path value : string) :
    result RuntimeConfig.t ConfigError.t :=
  if (path =? "server.agent_listen")%string then
    Ok (config <| RuntimeConfig.server; ServerConfig.agent_listen := value |>) else
  if (path =? "server.highway_listen")%string then
    Ok (config <| RuntimeConfig.server; ServerConfig.highway_listen := value |>) else
  if (path =? "server.coordinator_listen")%string then
    Ok (config <| RuntimeConfig.server; ServerConfig.coordinator_listen := value |>) else
  if (path =? "server.rest_listen")%string then
    Ok (config <| RuntimeConfig.server; ServerConfig.rest_listen := value |>) else
  if (path =? "tls.enabled")%string then
    let? v := parse_bool_env var value in
    Ok (config <| RuntimeConfig.tls; TlsConfig.enabled := v |>) else
  if (path =? "tls.cert_file")%string then
    Ok (config <| RuntimeConfig.tls; TlsConfig.cert_file := value |>) else
  if (path =? "tls.key_file")%string then
    Ok (config <| RuntimeConfig.tls; TlsConfig.key_file := value |>) else
  if (path =? "tls.client_ca_file")%string then
    Ok (config <| RuntimeConfig.tls; TlsConfig.client_ca_file := value |>) else
  if (path =? "tls.min_version")%string then
    Ok (config <| RuntimeConfig.tls; TlsConfig.min_version := value |>) else
  if (path =? "auth.provider")%string then
    Ok (config <| RuntimeConfig.auth; AuthConfig.provider := value |>) else
  if (path =? "auth.external.url")%string then
    Ok (config <| RuntimeConfig.auth; AuthConfig.external; ExternalAuthConfig.url := value |>) else
  if (path =? "auth.external.timeout_ms")%string then
    let? v := parse_u64_env var value in
    Ok (config
         <| RuntimeConfig.auth; AuthConfig.external; ExternalAuthConfig.timeout_ms := v |>) else
  if (path =? "auth.rate_limit.max_failures")%string then
    let? v := parse_u32_env var value in
    Ok (config
         <| RuntimeConfig.auth; AuthConfig.rate_limit; RateLimitConfig.max_failures := v |>) else
  if (path =? "auth.rate_limit.window_seconds")%string then
    let? v := parse_u32_env var value in
    Ok (config
         <| RuntimeConfig.auth; AuthConfig.rate_limit; RateLimitConfig.window_seconds := v |>) else
  if (path =? "taxonomy.file")%string then
    Ok (config <| RuntimeConfig.taxonomy; TaxonomyConfig.file := value |>) else
  if (path =? "storage.data_dir")%string then
    Ok (config <| RuntimeConfig.storage; StorageConfig.data_dir := value |>) else
  if (path =? "storage.trail.segment_size_bytes")%string then
    let? v := parse_u64_env var value in
    Ok (config
         <| RuntimeConfig.storage; StorageConfig.trail; TrailStorageConfig.segment_size_bytes := v |>) else
  if (path =? "storage.trail.index_batch_size")%string then
    let? v := parse_u32_env var value in
    Ok (config
         <| RuntimeConfig.storage; StorageConfig.trail; TrailStorageConfig.index_batch_size := v |>) else
  if (path =? "storage.trail.index_batch_timeout_ms")%string then
    let? v := parse_u32_env var value in
    Ok (config
         <| RuntimeConfig.storage; StorageConfig.trail; TrailStorageConfig.index_batch_timeout_ms := v |>) else
  if (path =? "storage.snapshots.workspace_checkpoint_interval")%string then
    let? v := parse_u32_env var value in
    Ok (config
         <| RuntimeConfig.storage; StorageConfig.snapshots; SnapshotConfig.workspace_checkpoint_interval := v |>) else
  if (path =? "storage.snapshots.workspace_time_interval_seconds")%string then
    let? v := parse_u32_env var value in
    Ok (config
         <| RuntimeConfig.storage; StorageConfig.snapshots; SnapshotConfig.workspace_time_interval_seconds := v |>) else
  if (path =? "storage.snapshots.system_entry_interval")%string then
    let? v := parse_u64_env var value in
    Ok (config
         <| RuntimeConfig.storage; StorageConfig.snapshots; SnapshotConfig.system_entry_interval := v |>) else
  if (path =? "storage.snapshots.system_time_interval_minutes")%string then
    let? v := parse_u32_env var value in
    Ok (config
         <| RuntimeConfig.storage; StorageConfig.snapshots; SnapshotConfig.system_time_interval_minutes := v |>) else
  if (path =? "storage.snapshots.system_retention_count")%string then
    let? v := parse_u32_env var value in
    Ok (config
         <| RuntimeConfig.storage; StorageConfig.snapshots; SnapshotConfig.system_retention_count := v |>) else
  if (path =? "storage.tiered.hot_segments")%string then
    let? v := parse_u32_env var value in
    Ok (config
         <| RuntimeConfig.storage; StorageConfig.tiered; TieredConfig.hot_segments := v |>) else
  if (path =? "storage.tiered.warm_retention_days")%string then
    let? v := parse_u32_env var value in
    Ok (config
         <| RuntimeConfig.storage; StorageConfig.tiered; TieredConfig.warm_retention_days := v |>) else
  if (path =? "storage.tiered.cold_retention")%string then
    Ok (config
         <| RuntimeConfig.storage; StorageConfig.tiered; TieredConfig.cold_retention := value |>) else
  if (path =? "storage.tiered.cold_destination")%string then
    Ok (config
         <| RuntimeConfig.storage; StorageConfig.tiered; TieredConfig.cold_destination := value |>) else
  if (path =? "storage.tiered.compaction_interval_minutes")%string then
    let? v := parse_u32_env var value in
    Ok (config
         <| RuntimeConfig.storage; StorageConfig.tiered; TieredConfig.compaction_interval_minutes := v |>) else
  if (path =? "resources.default_timeout_ms")%string then
    let? v := parse_u64_env var value in
    Ok (config <| RuntimeConfig.resources; ResourceConfig.default_timeout_ms := v |>) else
  if (path =? "resources.default_budget.max_tokens")%string then
    let? v := parse_u64_env var value in
    Ok (config
         <| RuntimeConfig.resources; ResourceConfig.default_budget; BudgetConfig.max_tokens := v |>) else
  if (path =? "resources.default_budget.max_wall_time_ms")%string then
    let? v := parse_u64_env var value in
    Ok (config
         <| RuntimeConfig.resources; ResourceConfig.default_budget; BudgetConfig.max_wall_time_ms := v |>) else
  if (path =? "resources.default_budget.max_storage_bytes")%string then
    let? v := parse_u64_env var value in
    Ok (config
         <| RuntimeConfig.resources; ResourceConfig.default_budget; BudgetConfig.max_storage_bytes := v |>) else
  if (path =? "resources.default_budget.max_network_bytes")%string then
    let? v := parse_u64_env var value in
    Ok (config
         <| RuntimeConfig.resources; ResourceConfig.default_budget; BudgetConfig.max_network_bytes := v |>) else
  if (path =? "resources.default_budget.max_cost_micros")%string then
    let? v := parse_u64_env var value in
    Ok (config
         <| RuntimeConfig.resources; ResourceConfig.default_budget; BudgetConfig.max_cost_micros := v |>) else
  if (path =? "resources.warning_threshold")%string then
    let? v := parse_f32_env var value in
    Ok (config <| RuntimeConfig.resources; ResourceConfig.warning_threshold := v |>) else
  if (path =? "resources.liveness_interval_ms")%string then
    let? v := parse_u64_env var value in
    Ok (config <| RuntimeConfig.resources; ResourceConfig.liveness_interval_ms := v |>) else
  if (path =? "delivery.max_retries")%string then
    let? v := parse_u32_env var value in
    Ok (config <| RuntimeConfig.delivery; DeliveryConfig.max_retries := v |>) else
  if (path =? "delivery.retry_backoff_ms")%string then
    let? v := parse_u64_env var value in
    Ok (config <| RuntimeConfig.delivery; DeliveryConfig.retry_backoff_ms := v |>) else
  if (path =? "logging.level")%string then
    Ok (config <| RuntimeConfig.logging; LoggingConfig.level := value |>) else
  if (path =? "logging.format")%string then
    Ok (config <| RuntimeConfig.logging; LoggingConfig.format := value |>) else
  if (path =? "logging.output")%string then
    Ok (config <| RuntimeConfig.logging; LoggingConfig.output := value |>) else
  if (path =? "logging.file")%string then
    Ok (config <| RuntimeConfig.logging; LoggingConfig.file := value |>) else
  if (path =? "observability.metrics.enabled")%string then
    let? v := parse_bool_env var value in
    Ok (config
         <| RuntimeConfig.observability; ObservabilityConfig.metrics; MetricsConfig.enabled := v |>) else
  if (path =? "observability.metrics.listen")%string then
    Ok (config
         <| RuntimeConfig.observability; ObservabilityConfig.metrics; MetricsConfig.listen := value |>) else
  if (path =? "observability.metrics.path")%string then
    Ok (config
         <| RuntimeConfig.observability; ObservabilityConfig.metrics; MetricsConfig.path := value |>) else
  if (path =? "observability.health.enabled")%string then
    let? v := parse_bool_env var value in
    Ok (config
         <| RuntimeConfig.observability; ObservabilityConfig.health; HealthConfig.enabled := v |>) else
  if (path =? "observability.health.listen")%string then
    Ok (config
         <| RuntimeConfig.observability; ObservabilityConfig.health; HealthConfig.listen := value |>) else
  if (path =? "observability.health.path")%string then
    Ok (config
         <| RuntimeConfig.observability; ObservabilityConfig.health; HealthConfig.path := value |>) else
  Ok config.

(** [str::to_lowercase] as far as it can produce a path of the table above: ASCII
    letters and KELVIN SIGN (U+212A), whose lowercase is [k].  Every other character
    has a lowercase with a non-ASCII character, which no path contains; it is kept. *)
Fixpoint to_lowercase (s : string) : string :=
  match s with
  | String "226" (String "132" (String "170" s)) => String "k" (to_lowercase s)
  | String c s => String (ascii_lower c) (to_lowercase s)
  | EmptyString => EmptyString
  end%char.

(** [.replace("__", ".")] *)
Fixpoint replace_underscores (s : string) : string :=
  match s with
  | String "_" (String "_" s) => String "." (replace_underscores s)
  | String c s => String c (replace_underscores s)
  | EmptyString => EmptyString
  end%char.

(** The path a variable names: [None] when the loop skips it. *)
Definition override_path (key : string) : option string :=
  if negb (starts_with "WACP_" key) || bool_decide (key = "WACP_CONFIG") then None
  else match strip_prefix "WACP_" key with
       | Some rest => Some (replace_underscores (to_lowercase rest))
       | None => None
       end.

Fixpoint apply_overrides_from (config : RuntimeConfig.t) (vars : list (string * string)) :
    result RuntimeConfig.t ConfigError.t :=
  match vars with
  | [] => Ok config
  | (key, value) :: vars =>
      match override_path key with
      | None => apply_overrides_from config vars
      | Some path =>
          let? config := apply_single_override config key path value in
          apply_overrides_from config vars
      end
  end.

(** ** Loading *)

Section Load.
Context (read_to_string : string → result string string) (exists_path : string → bool)
  (from_yaml : string → result RuntimeConfig.t string).

Definition parse (yaml : string) : result RuntimeConfig.t ConfigError.t :=
  result_map_err ConfigError.Parse (from_yaml yaml).

(** [std::env::var] *)
Definition env_var (name : string) (vars : list (string * string)) : option string :=
  (list_find (λ kv, kv.1 = name) vars) ≫= λ '(_, kv), Some kv.2.

Definition load (config_path : option string) (vars : list (string * string)) :
    result (RuntimeConfig.t * option string) ConfigError.t :=
  let? base :=
    match config_path with
    | Some path =>
        let? yaml := result_map_err (ConfigError.Io (Some path)) (read_to_string path) in
        let? config := parse yaml in
        Ok (config, Some path)
    | None =>
        match env_var "WACP_CONFIG" vars with
        | Some path =>
            let? yaml := result_map_err (ConfigError.Io (Some path)) (read_to_string path) in
            let? config := parse yaml in
            Ok (config, Some path)
        | None =>
            let path := "wacp-runtime.yaml" in
            if exists_path path then
              let? yaml := result_map_err (ConfigError.Io None) (read_to_string path) in
              let? config := parse yaml in
              Ok (config, Some path)
            else Ok (default_config, None)
        end
    end in
  let? config := apply_overrides_from base.1 vars in
  let? _ := validate config in
  Ok (config, base.2).
End Load.

(** ** Theory: settings

    The settings a variable can name, with the type each is parsed at. *)

Inductive setting : Type :=
| SString (s : string)
| SBool (b : bool)
| SU32 (n : Z)
| SU64 (n : Z)
| SF32 (x : spec_float).

Definition settings : list string :=
  ["server.agent_listen"; "server.highway_listen"; "server.coordinator_listen";
   "server.rest_listen"; "tls.enabled"; "tls.cert_file"; "tls.key_file"; "tls.client_ca_file";
   "tls.min_version"; "auth.provider"; "auth.external.url"; "auth.external.timeout_ms";
   "auth.rate_limit.max_failures"; "auth.rate_limit.window_seconds"; "taxonomy.file";
   "storage.data_dir"; "storage.trail.segment_size_bytes"; "storage.trail.index_batch_size";
   "storage.trail.index_batch_timeout_ms"; "storage.snapshots.workspace_checkpoint_interval";
   "storage.snapshots.workspace_time_interval_seconds"; "storage.snapshots.system_entry_interval";
   "storage.snapshots.system_time_interval_minutes"; "storage.snapshots.system_retention_count";
   "storage.tiered.hot_segments"; "storage.tiered.warm_retention_days";
   "storage.tiered.cold_retention"; "storage.tiered.cold_destination";
   "storage.tiered.compaction_interval_minutes"; "resources.default_timeout_ms";
   "resources.default_budget.max_tokens"; "resources.default_budget.max_wall_time_ms";
   "resources.default_budget.max_storage_bytes"; "resources.default_budget.max_network_bytes";
   "resources.default_budget.max_cost_micros"; "resources.warning_threshold";
   "resources.liveness_interval_ms"; "delivery.max_retries"; "delivery.retry_backoff_ms";
   "logging.level"; "logging.format"; "logging.output"; "logging.file";
   "observability.metrics.enabled"; "observability.metrics.listen"; "observability.metrics.path";
   "observability.health.enabled"; "observability.health.listen"; "observability.health.path"].

Definition read_setting (path : string) (c : RuntimeConfig.t) : option setting :=
  if (path =? "server.agent_listen")%string then
    Some (SString (ServerConfig.agent_listen (RuntimeConfig.server c))) else
  if (path =? "server.highway_listen")%string then
    Some (SString (ServerConfig.highway_listen (RuntimeConfig.server c))) else
  if (path =? "server.coordinator_listen")%string then
    Some (SString (ServerConfig.coordinator_listen (RuntimeConfig.server c))) else
  if (path =? "server.rest_listen")%string then
    Some (SString (ServerConfig.rest_listen (RuntimeConfig.server c))) else
  if (path =? "tls.enabled")%string then
    Some (SBool (TlsConfig.enabled (RuntimeConfig.tls c))) else
  if (path =? "tls.cert_file")%string then
    Some (SString (TlsConfig.cert_file (RuntimeConfig.tls c))) else
  if (path =? "tls.key_file")%string then
    Some (SString (TlsConfig.key_file (RuntimeConfig.tls c))) else
  if (path =? "tls.client_ca_file")%string then
    Some (SString (TlsConfig.client_ca_file (RuntimeConfig.tls c))) else
  if (path =? "tls.min_version")%string then
    Some (SString (TlsConfig.min_version (RuntimeConfig.tls c))) else
  if (path =? "auth.provider")%string then
    Some (SString (AuthConfig.provider (RuntimeConfig.auth c))) else
  if (path =? "auth.external.url")%string then
    Some (SString (ExternalAuthConfig.url (AuthConfig.external (RuntimeConfig.auth c)))) else
  if (path =? "auth.external.timeout_ms")%string then
    Some (SU64 (ExternalAuthConfig.timeout_ms (AuthConfig.external (RuntimeConfig.auth c)))) else
  if (path =? "auth.rate_limit.max_failures")%string then
    Some (SU32 (RateLimitConfig.max_failures (AuthConfig.rate_limit (RuntimeConfig.auth c)))) else
  if (path =? "auth.rate_limit.window_seconds")%string then
    Some (SU32 (RateLimitConfig.window_seconds (AuthConfig.rate_limit (RuntimeConfig.auth c)))) else
  if (path =? "taxonomy.file")%string then
    Some (SString (TaxonomyConfig.file (RuntimeConfig.taxonomy c))) else
  if (path =? "storage.data_dir")%string then
    Some (SString (StorageConfig.data_dir (RuntimeConfig.storage c))) else
  if (path =? "storage.trail.segment_size_bytes")%string then
    Some (SU64 (TrailStorageConfig.segment_size_bytes (StorageConfig.trail (RuntimeConfig.storage c)))) else
  if (path =? "storage.trail.index_batch_size")%string then
    Some (SU32 (TrailStorageConfig.index_batch_size (StorageConfig.trail (RuntimeConfig.storage c)))) else
  if (path =? "storage.trail.index_batch_timeout_ms")%string then
    Some (SU32 (TrailStorageConfig.index_batch_timeout_ms (StorageConfig.trail (RuntimeConfig.storage c)))) else
  if (path =? "storage.snapshots.workspace_checkpoint_interval")%string then
    Some (SU32 (SnapshotConfig.workspace_checkpoint_interval (StorageConfig.snapshots (RuntimeConfig.storage c)))) else
  if (path =? "storage.snapshots.workspace_time_interval_seconds")%string then
    Some (SU32 (SnapshotConfig.workspace_time_interval_seconds (StorageConfig.snapshots (RuntimeConfig.storage c)))) else
  if (path =? "storage.snapshots.system_entry_interval")%string then
    Some (SU64 (SnapshotConfig.system_entry_interval (StorageConfig.snapshots (RuntimeConfig.storage c)))) else
  if (path =? "storage.snapshots.system_time_interval_minutes")%string then
    Some (SU32 (SnapshotConfig.system_time_interval_minutes (StorageConfig.snapshots (RuntimeConfig.storage c)))) else
  if (path =? "storage.snapshots.system_retention_count")%string then
    Some (SU32 (SnapshotConfig.system_retention_count (StorageConfig.snapshots (RuntimeConfig.storage c)))) else
  if (path =? "storage.tiered.hot_segments")%string then
    Some (SU32 (TieredConfig.hot_segments (StorageConfig.tiered (RuntimeConfig.storage c)))) else
  if (path =? "storage.tiered.warm_retention_days")%string then
    Some (SU32 (TieredConfig.warm_retention_days (StorageConfig.tiered (RuntimeConfig.storage c)))) else
  if (path =? "storage.tiered.cold_retention")%string then
    Some (SString (TieredConfig.cold_retention (StorageConfig.tiered (RuntimeConfig.storage c)))) else
  if (path =? "storage.tiered.cold_destination")%string then
    Some (SString (TieredConfig.cold_destination (StorageConfig.tiered (RuntimeConfig.storage c)))) else
  if (path =? "storage.tiered.compaction_interval_minutes")%string then
    Some (SU32 (TieredConfig.compaction_interval_minutes (StorageConfig.tiered (RuntimeConfig.storage c)))) else
  if (path =? "resources.default_timeout_ms")%string then
    Some (SU64 (ResourceConfig.default_timeout_ms (RuntimeConfig.resources c))) else
  if (path =? "resources.default_budget.max_tokens")%string then
    Some (SU64 (BudgetConfig.max_tokens (ResourceConfig.default_budget (RuntimeConfig.resources c)))) else
  if (path =? "resources.default_budget.max_wall_time_ms")%string then
    Some (SU64 (BudgetConfig.max_wall_time_ms (ResourceConfig.default_budget (RuntimeConfig.resources c)))) else
  if (path =? "resources.default_budget.max_storage_bytes")%string then
    Some (SU64 (BudgetConfig.max_storage_bytes (ResourceConfig.default_budget (RuntimeConfig.resources c)))) else
  if (path =? "resources.default_budget.max_network_bytes")%string then
    Some (SU64 (BudgetConfig.max_network_bytes (ResourceConfig.default_budget (RuntimeConfig.resources c)))) else
  if (path =? "resources.default_budget.max_cost_micros")%string then
    Some (SU64 (BudgetConfig.max_cost_micros (ResourceConfig.default_budget (RuntimeConfig.resources c)))) else
  if (path =? "resources.warning_threshold")%string then
    Some (SF32 (ResourceConfig.warning_threshold (RuntimeConfig.resources c))) else
  if (path =? "resources.liveness_interval_ms")%string then
    Some (SU64 (ResourceConfig.liveness_interval_ms (RuntimeConfig.resources c))) else
  if (path =? "delivery.max_retries")%string then
    Some (SU32 (DeliveryConfig.max_retries (RuntimeConfig.delivery c))) else
  if (path =? "delivery.retry_backoff_ms")%string then
    Some (SU64 (DeliveryConfig.retry_backoff_ms (RuntimeConfig.delivery c))) else
  if (path =? "logging.level")%string then
    Some (SString (LoggingConfig.level (RuntimeConfig.logging c))) else
  if (path =? "logging.format")%string then
    Some (SString (LoggingConfig.format (RuntimeConfig.logging c))) else
  if (path =? "logging.output")%string then
    Some (SString (LoggingConfig.output (RuntimeConfig.logging c))) else
  if (path =? "logging.file")%string then
    Some (SString (LoggingConfig.file (RuntimeConfig.logging c))) else
  if (path =? "observability.metrics.enabled")%string then
    Some (SBool (MetricsConfig.enabled (ObservabilityConfig.metrics (RuntimeConfig.observability c)))) else
  if (path =? "observability.metrics.listen")%string then
    Some (SString (MetricsConfig.listen (ObservabilityConfig.metrics (RuntimeConfig.observability c)))) else
  if (path =? "observability.metrics.path")%string then
    Some (SString (MetricsConfig.path (ObservabilityConfig.metrics (RuntimeConfig.observability c)))) else
  if (path =? "observability.health.enabled")%string then
    Some (SBool (HealthConfig.enabled (ObservabilityConfig.health (RuntimeConfig.observability c)))) else
  if (path =? "observability.health.listen")%string then
    Some (SString (HealthConfig.listen (ObservabilityConfig.health (RuntimeConfig.observability c)))) else
  if (path =? "observability.health.path")%string then
    Some (SString (HealthConfig.path (ObservabilityConfig.health (RuntimeConfig.observability c)))) else
  None.

(** A text read at the type of a setting. *)
Definition parse_as (old : setting) (v : string) : option setting :=
  match old with
  | SString _ => Some (SString v)
  | SBool _ =>
      if bool_decide (v ∈ ["true"; "1"]) then Some (SBool true)
      else if bool_decide (v ∈ ["false"; "0"]) then Some (SBool false) else None
  | SU32 _ => SU32 <$> parse_u32 v
  | SU64 _ => SU64 <$> parse_u64 v
  | SF32 _ => SF32 <$> parse_f32 v
  end.

(** The numbers of a configuration are in the range of their types. *)
Definition in_range (s : setting) : Prop :=
  match s with SU32 n => 0 ≤ n ≤ u32_max | SU64 n => is_u64 n | _ => True end.

Definition typed (c : RuntimeConfig.t) : Prop :=
  ∀ path s, read_setting path c = Some s → in_range s.

(** ** Theory: validation *)

(** What a configuration must satisfy, field by field. *)
Record valid (c : RuntimeConfig.t) : Prop := {
  valid_tls : TlsConfig.enabled (RuntimeConfig.tls c) = true →
    TlsConfig.cert_file (RuntimeConfig.tls c) ≠ "" ∧ TlsConfig.key_file (RuntimeConfig.tls c) ≠ "";
  valid_tls_version : TlsConfig.min_version (RuntimeConfig.tls c) ∈ ["1.2"; "1.3"];
  valid_provider : AuthConfig.provider (RuntimeConfig.auth c) = "psk"
    ∨ AuthConfig.provider (RuntimeConfig.auth c) = "external"
      ∧ let url := ExternalAuthConfig.url (AuthConfig.external (RuntimeConfig.auth c)) in
        starts_with "http://" url = true ∨ starts_with "https://" url = true;
  valid_timeout : 0 < ExternalAuthConfig.timeout_ms (AuthConfig.external (RuntimeConfig.auth c));
  valid_rate_limit : let r := AuthConfig.rate_limit (RuntimeConfig.auth c) in
    RateLimitConfig.max_failures r = 0 ∨ 0 < RateLimitConfig.window_seconds r;
  valid_delivery : let d := RuntimeConfig.delivery c in
    DeliveryConfig.max_retries d = 0 ∨ 0 < DeliveryConfig.retry_backoff_ms d;
  valid_data_dir : StorageConfig.data_dir (RuntimeConfig.storage c) ≠ "";
  valid_addresses : NoDup
    ([ServerConfig.agent_listen (RuntimeConfig.server c);
      ServerConfig.highway_listen (RuntimeConfig.server c);
      ServerConfig.coordinator_listen (RuntimeConfig.server c);
      ServerConfig.rest_listen (RuntimeConfig.server c)]
     ++ (let m := ObservabilityConfig.metrics (RuntimeConfig.observability c) in
         if MetricsConfig.enabled m then [MetricsConfig.listen m] else [])
     ++ (let h := ObservabilityConfig.health (RuntimeConfig.observability c) in
         if HealthConfig.enabled h then [HealthConfig.listen h] else []));
  valid_positive : Forall (Z.lt 0)
    (let trail := StorageConfig.trail (RuntimeConfig.storage c) in
     let snapshots := StorageConfig.snapshots (RuntimeConfig.storage c) in
     let tiered := StorageConfig.tiered (RuntimeConfig.storage c) in
     [TrailStorageConfig.segment_size_bytes trail; TrailStorageConfig.index_batch_size trail;
      TrailStorageConfig.index_batch_timeout_ms trail;
      SnapshotConfig.workspace_checkpoint_interval snapshots;
      SnapshotConfig.workspace_time_interval_seconds snapshots;
      SnapshotConfig.system_entry_interval snapshots;
      SnapshotConfig.system_time_interval_minutes snapshots;
      SnapshotConfig.system_retention_count snapshots;
      TieredConfig.hot_segments tiered; TieredConfig.warm_retention_days tiered;
      TieredConfig.compaction_interval_minutes tiered]);
  valid_threshold : let w := ResourceConfig.warning_threshold (RuntimeConfig.resources c) in
    w = S754_nan ∨ f32_gt w (S754_zero false) = true ∧ f32_le w (f32_of_Z 1) = true;
  valid_cold : let v := TieredConfig.cold_retention (StorageConfig.tiered (RuntimeConfig.storage c)) in
    v = "indefinite" ∨ ∃ n, parse_u64 v = Some n ∧ 0 < n;
  valid_logging : let l := RuntimeConfig.logging c in
    LoggingConfig.level l ∈ ["trace"; "debug"; "info"; "warn"; "error"]
    ∧ LoggingConfig.format l ∈ ["json"; "pretty"]
    ∧ (LoggingConfig.output l = "stderr" ∨ LoggingConfig.output l = "file" ∧ LoggingConfig.file l ≠ "");
}.

Lemma check_positive_ok f v : check_positive f v = Ok tt ↔ v ≠ 0.
Proof. unfold check_positive. destruct (Z.eqb_spec v 0); naive_solver. Qed.

Lemma check_min_ok f v m : check_min f v m = Ok tt ↔ m ≤ v.
Proof. unfold check_min. destruct (Z.ltb_spec v m); naive_solver lia. Qed.

Lemma check_enum_ok f l e v : check_enum f l e v = Ok tt ↔ v ∈ l.
Proof. unfold check_enum. case_bool_decide; naive_solver. Qed.

Lemma unless_ok {E} (b : bool) (e : E) : (if b then Err e else Ok tt) = Ok tt ↔ b = false.
Proof. by destruct b. Qed.

Lemma check_addresses_ok l : check_addresses l = Ok tt ↔ NoDup l.*2.
Proof.
  induction l as [|[f a] l IH]; cbn; [by rewrite NoDup_nil|].
  rewrite let_ok, NoDup_cons, IH, for_each_ok.
  apply and_iff_compat_r. rewrite Forall_forall, list_elem_of_fmap. split.
  - intros Hall ([f' a'] & -> & Hin). specialize (Hall _ Hin). cbn in Hall. by rewrite bool_decide_true in Hall.
  - intros Hnot [f' a'] Hin. cbn. rewrite bool_decide_false; [done|]. intros ->. apply Hnot.
    by exists (f', a').
Qed.

Lemma validate_tls_completeness_ok c :
  validate_tls_completeness c = Ok tt ↔
  (TlsConfig.enabled (RuntimeConfig.tls c) = true →
   TlsConfig.cert_file (RuntimeConfig.tls c) ≠ "" ∧ TlsConfig.key_file (RuntimeConfig.tls c) ≠ "").
Proof.
  unfold validate_tls_completeness. rewrite <-!is_empty_spec.
  destruct TlsConfig.enabled, (is_empty (TlsConfig.cert_file _)), (is_empty (TlsConfig.key_file _));
    naive_solver.
Qed.

Lemma starts_with_nonempty c p s : starts_with (String c p) s = true → is_empty s = false.
Proof. by destruct s. Qed.

Lemma validate_auth_completeness_ok c :
  let url := ExternalAuthConfig.url (AuthConfig.external (RuntimeConfig.auth c)) in
  validate_auth_completeness c = Ok tt ↔
  (AuthConfig.provider (RuntimeConfig.auth c) = "external" →
   starts_with "http://" url = true ∨ starts_with "https://" url = true).
Proof.
  intros url. unfold validate_auth_completeness. fold url. case_bool_decide as Hp; [|naive_solver].
  pose proof (starts_with_nonempty _ _ url : starts_with "http://" url = true → _) as H1.
  pose proof (starts_with_nonempty _ _ url : starts_with "https://" url = true → _) as H2.
  destruct (is_empty url), (starts_with "http://" url), (starts_with "https://" url); naive_solver.
Qed.

Lemma threshold_ok w :
  f32_le w (S754_zero false) || f32_gt w (f32_of_Z 1) = false ↔
  w = S754_nan ∨ f32_gt w (S754_zero false) = true ∧ f32_le w (f32_of_Z 1) = true.
Proof.
  destruct (f32_nan_dec w) as [->|Hw]; [by split; [left|]|].
  destruct (SFcompare_some w (S754_zero false)) as [c0 H0]; [done..|].
  destruct (SFcompare_some w (f32_of_Z 1)) as [c1 H1]; [done..|].
  unfold f32_le, f32_gt. rewrite H0, H1. destruct c0, c1; cbn; intuition discriminate.
Qed.

Lemma validate_address_uniqueness_ok c :
  validate_address_uniqueness c = Ok tt ↔ NoDup
    ([ServerConfig.agent_listen (RuntimeConfig.server c);
      ServerConfig.highway_listen (RuntimeConfig.server c);
      ServerConfig.coordinator_listen (RuntimeConfig.server c);
      ServerConfig.rest_listen (RuntimeConfig.server c)]
     ++ (let m := ObservabilityConfig.metrics (RuntimeConfig.observability c) in
         if MetricsConfig.enabled m then [MetricsConfig.listen m] else [])
     ++ (let h := ObservabilityConfig.health (RuntimeConfig.observability c) in
         if HealthConfig.enabled h then [HealthConfig.listen h] else [])).
Proof.
  unfold validate_address_uniqueness. rewrite check_addresses_ok. cbv zeta.
  by destruct MetricsConfig.enabled, HealthConfig.enabled.
Qed.

Lemma validate_cold_retention_ok c :
  let v := TieredConfig.cold_retention (StorageConfig.tiered (RuntimeConfig.storage c)) in
  validate_cold_retention c = Ok tt ↔ v = "indefinite" ∨ ∃ n, parse_u64 v = Some n ∧ 0 < n.
Proof.
  intros v. unfold validate_cold_retention. fold v. case_bool_decide; [naive_solver|].
  destruct (parse_u64 v) as [n|]; [destruct (Z.ltb_spec 0 n)|]; naive_solver lia.
Qed.

Lemma guarded_positive (a b : Z) : 0 ≤ a → 0 ≤ b → (0 <? a) && (b =? 0) = false ↔ a = 0 ∨ 0 < b.
Proof. intros. destruct (Z.ltb_spec 0 a), (Z.eqb_spec b 0); cbn; naive_solver lia. Qed.

Lemma validate_numeric_constraints_ok c :
  typed c →
  validate_numeric_constraints c = Ok tt ↔
  Forall (Z.lt 0)
    (let trail := StorageConfig.trail (RuntimeConfig.storage c) in
     let snapshots := StorageConfig.snapshots (RuntimeConfig.storage c) in
     let tiered := StorageConfig.tiered (RuntimeConfig.storage c) in
     [TrailStorageConfig.segment_size_bytes trail; TrailStorageConfig.index_batch_size trail;
      TrailStorageConfig.index_batch_timeout_ms trail;
      SnapshotConfig.workspace_checkpoint_interval snapshots;
      SnapshotConfig.workspace_time_interval_seconds snapshots;
      SnapshotConfig.system_entry_interval snapshots;
      SnapshotConfig.system_time_interval_minutes snapshots;
      SnapshotConfig.system_retention_count snapshots;
      TieredConfig.hot_segments tiered; TieredConfig.warm_retention_days tiered;
      TieredConfig.compaction_interval_minutes tiered])
  ∧ (let w := ResourceConfig.warning_threshold (RuntimeConfig.resources c) in
     w = S754_nan ∨ f32_gt w (S754_zero false) = true ∧ f32_le w (f32_of_Z 1) = true)
  ∧ (let d := RuntimeConfig.delivery c in
     DeliveryConfig.max_retries d = 0 ∨ 0 < DeliveryConfig.retry_backoff_ms d)
  ∧ (let r := AuthConfig.rate_limit (RuntimeConfig.auth c) in
     RateLimitConfig.max_failures r = 0 ∨ 0 < RateLimitConfig.window_seconds r)
  ∧ 0 < ExternalAuthConfig.timeout_ms (AuthConfig.external (RuntimeConfig.auth c)).
Proof.
  intros Ht.
  pose proof (Ht "storage.trail.segment_size_bytes" _ eq_refl).
  pose proof (Ht "storage.trail.index_batch_size" _ eq_refl).
  pose proof (Ht "storage.trail.index_batch_timeout_ms" _ eq_refl).
  pose proof (Ht "storage.snapshots.workspace_checkpoint_interval" _ eq_refl).
  pose proof (Ht "storage.snapshots.workspace_time_interval_seconds" _ eq_refl).
  pose proof (Ht "storage.snapshots.system_entry_interval" _ eq_refl).
  pose proof (Ht "storage.snapshots.system_time_interval_minutes" _ eq_refl).
  pose proof (Ht "storage.tiered.warm_retention_days" _ eq_refl).
  pose proof (Ht "storage.tiered.compaction_interval_minutes" _ eq_refl).
  pose proof (Ht "delivery.max_retries" _ eq_refl).
  pose proof (Ht "delivery.retry_backoff_ms" _ eq_refl).
  pose proof (Ht "auth.rate_limit.max_failures" _ eq_refl).
  pose proof (Ht "auth.rate_limit.window_seconds" _ eq_refl).
  pose proof (Ht "auth.external.timeout_ms" _ eq_refl).
  clear Ht. cbn [in_range] in *. unfold is_u64 in *. destruct_and!.
  unfold validate_numeric_constraints, fail_with. cbv zeta.
  rewrite !let_ok, !check_positive_ok, !check_min_ok, !unless_ok, threshold_ok.
  rewrite !guarded_positive by done. rewrite !Forall_cons, Forall_nil, Z.eqb_neq.
  intuition lia.
Qed.

Lemma validate_rest_ok c :
  validate_data_dir c = Ok tt ∧ validate_enum_fields c = Ok tt ∧ validate_logging_file c = Ok tt ↔
  StorageConfig.data_dir (RuntimeConfig.storage c) ≠ ""
  ∧ TlsConfig.min_version (RuntimeConfig.tls c) ∈ ["1.2"; "1.3"]
  ∧ AuthConfig.provider (RuntimeConfig.auth c) ∈ ["psk"; "external"]
  ∧ let l := RuntimeConfig.logging c in
    LoggingConfig.level l ∈ ["trace"; "debug"; "info"; "warn"; "error"]
    ∧ LoggingConfig.format l ∈ ["json"; "pretty"]
    ∧ (LoggingConfig.output l = "stderr" ∨ LoggingConfig.output l = "file" ∧ LoggingConfig.file l ≠ "").
Proof.
  unfold validate_data_dir, validate_enum_fields, validate_logging_file, fail_with. cbv zeta.
  rewrite !let_ok, !check_enum_ok, !unless_ok, andb_false_iff, !is_empty_spec, bool_decide_eq_false.
  rewrite (elem_of_cons _ (LoggingConfig.output _)), list_elem_of_singleton.
  generalize (LoggingConfig.output (RuntimeConfig.logging c)) as o. intros o.
  destruct (decide (o = "file")) as [->|]; intuition congruence.
Qed.

(** The checks made before start accept exactly the configurations that satisfy
    [valid]: TLS files when TLS is on, an HTTP URL for external authentication, distinct
    addresses for the listeners that are on, positive sizes and intervals, known
    enumeration values, a file for file logging.  A warning threshold that is not a
    number is accepted besides those in (0, 1]. *)
Lemma validate_exact c : typed c → validate c = Ok tt ↔ valid c.
Proof.
  intros Ht. unfold validate. rewrite !let_ok.
  rewrite validate_tls_completeness_ok, validate_auth_completeness_ok, validate_address_uniqueness_ok,
    validate_numeric_constraints_ok, validate_cold_retention_ok by done.
  pose proof (validate_rest_ok c) as Hrest. cbv zeta in *.
  rewrite (elem_of_cons _ (AuthConfig.provider _)), list_elem_of_singleton in Hrest.
  split.
  - intros (Htls & Hauth & _ & Hdir & Haddr & (Hpos & Hw & Hd & Hr & Ht') & Hen & Hlog & Hcold).
    destruct Hrest as [(? & ? & Hprov & Hl) _]; [done|].
    constructor; try done. destruct Hprov as [|Hp]; [by left|]. right. auto.
  - intros [Htls ? Hprov ? ? ? ? ? ? ? ? Hl]. cbv zeta in *.
    destruct Hrest as [_ (? & ? & ?)]; [split_and!; naive_solver|].
    split_and!; try done. intros Hp. destruct Hprov as [Hp'|[_ ?]]; [congruence|done].
Qed.

(** ** Theory: overrides *)

Definition verticals_dir (c : RuntimeConfig.t) : string :=
  TaxonomyConfig.verticals_dir (RuntimeConfig.taxonomy c).

(** What one override does: nothing when the path names no setting; otherwise the
    setting, and only it, gets the parsed value, or the variable is reported. *)
Definition single_override_spec (c : RuntimeConfig.t) (var path value : string) : Prop :=
  match read_setting path c with
  | None => apply_single_override c var path value = Ok c
  | Some old =>
      match parse_as old value with
      | Some new =>
          ∃ c', apply_single_override c var path value = Ok c'
          ∧ read_setting path c' = Some new
          ∧ (∀ p, p ≠ path → read_setting p c' = read_setting p c)
          ∧ verticals_dir c' = verticals_dir c
      | None => ∃ msg, apply_single_override c var path value = Err (ConfigError.EnvOverride var msg)
      end
  end.

Ltac frame_case :=
  let p := fresh in let Hp := fresh in
  intros p Hp%String.eqb_neq; unfold read_setting; rewrite Hp; reflexivity.

(** One literal path: both sides evaluate down to the parser of its type. *)
Ltac override_case :=
  unfold single_override_spec; cbn [read_setting String.eqb Ascii.eqb Bool.eqb parse_as];
  match goal with
  | |- context [apply_single_override ?c ?var ?path ?value] =>
      let r := eval cbn [apply_single_override String.eqb Ascii.eqb Bool.eqb] in
        (apply_single_override c var path value) in
      change (apply_single_override c var path value) with r
  end;
  unfold parse_bool_env, parse_u32_env, parse_u64_env, parse_f32_env;
  repeat (case_bool_decide || (destruct (parse_u32 _); cbn) || (destruct (parse_u64 _); cbn)
          || (destruct (parse_f32 _); cbn));
  eexists; first [reflexivity | split_and!; [reflexivity|reflexivity|frame_case|reflexivity]].

Lemma single_override c var path value : single_override_spec c var path value.
Proof.
  destruct (decide (path ∈ settings)) as [Hin|Hout].
  - unfold settings in Hin.
    repeat (apply elem_of_cons in Hin as [->|Hin]; [override_case|]). by apply elem_of_nil in Hin.
  - assert (Hne : ∀ l, bool_decide (l ∈ settings) = true → (path =? l)%string = false).
    { intros l Hl%bool_decide_eq_true. apply String.eqb_neq. by intros ->. }
    unfold single_override_spec, read_setting, apply_single_override.
    repeat (rewrite Hne by (vm_compute; reflexivity)). reflexivity.
Qed.

#[local] Arguments read_setting : simpl never.
#[local] Arguments apply_single_override : simpl never.
#[local] Arguments override_path : simpl never.
#[local] Opaque read_setting apply_single_override override_path.

Lemma parse_as_inv old v new :
  parse_as old v = Some new →
  match old with
  | SString _ => new = SString v
  | SBool _ => ∃ b, new = SBool b
  | SU32 _ => ∃ n, new = SU32 n ∧ parse_u32 v = Some n
  | SU64 _ => ∃ n, new = SU64 n ∧ parse_u64 v = Some n
  | SF32 _ => ∃ x, new = SF32 x
  end.
Proof.
  destruct old; cbn [parse_as]; [congruence| |intros (? & ? & ->)%fmap_Some; eauto..].
  repeat case_bool_decide; intros [= <-]; eauto.
Qed.

Lemma parse_as_kind old v new w : parse_as old v = Some new → parse_as new w = parse_as old w.
Proof. intros H%parse_as_inv. destruct old; naive_solver. Qed.

Lemma parse_as_range old v new : parse_as old v = Some new → in_range new.
Proof.
  intros H%parse_as_inv.
  destruct old; [by subst|by destruct H as [? ->]| | |by destruct H as [? ->]];
    destruct H as (? & -> & Hn); by apply parse_uint_range in Hn.
Qed.

(** The last value the variables give to a path. *)
Definition assigned (path : string) (vars : list (string * string)) : option string :=
  last (filter (λ kv, override_path kv.1 = Some path) vars).*2.

(** A setting after the variables: its last assignment read at its type. *)
Definition overridden (path : string) (vars : list (string * string)) (c : RuntimeConfig.t) : option setting :=
  old ← read_setting path c; match assigned path vars with Some v => parse_as old v | None => Some old end.

(** A variable whose value cannot be read at the type of the setting it names. *)
Definition unreadable (c : RuntimeConfig.t) (kv : string * string) : Prop :=
  ∃ path old, override_path kv.1 = Some path ∧ read_setting path c = Some old ∧ parse_as old kv.2 = None.

Definition same_kinds (c c' : RuntimeConfig.t) : Prop :=
  ∀ p, match read_setting p c, read_setting p c' with
       | Some a, Some b => ∀ w, parse_as b w = parse_as a w
       | None, None => True
       | _, _ => False
       end.

Lemma same_kinds_sym c c' : same_kinds c c' → same_kinds c' c.
Proof.
  intros Hk p. specialize (Hk p).
  by destruct (read_setting p c), (read_setting p c').
Qed.

Lemma unreadable_kinds c c' kv : same_kinds c c' → unreadable c kv → unreadable c' kv.
Proof.
  intros Hk (path & old & Hp & Hr & Hn). specialize (Hk path). rewrite Hr in Hk.
  destruct (read_setting path c') as [new|] eqn:E; [|done].
  exists path, new. by rewrite Hk.
Qed.

Lemma assigned_cons path k v vars :
  assigned path ((k, v) :: vars) =
  if decide (override_path k = Some path) then Some (default v (assigned path vars)) else assigned path vars.
Proof.
  unfold assigned. rewrite filter_cons. cbn [fst]. case_decide; [|done].
  rewrite fmap_cons. cbn [snd]. destruct (filter _ vars).*2 as [|x l] eqn:E using rev_ind; [done|].
  by rewrite app_comm_cons, !last_snoc.
Qed.

(** One turn of the loop. *)
Lemma override_step c k v :
  let step := match override_path k with
              | Some path => apply_single_override c k path v
              | None => Ok c
              end in
  (∃ msg, step = Err (ConfigError.EnvOverride k msg) ∧ unreadable c (k, v))
  ∨ (∃ c1, step = Ok c1 ∧ ¬ unreadable c (k, v) ∧ verticals_dir c1 = verticals_dir c
     ∧ ∀ p, read_setting p c1 = overridden p [(k, v)] c).
Proof.
  intros step. subst step. unfold unreadable, overridden. cbn [fst snd].
  destruct (override_path k) as [path|] eqn:Hk; last first.
  { right. exists c. split_and!; [done|by intros (? & ? & [=] & _)|done|]. intros p.
    rewrite assigned_cons, Hk. by destruct (read_setting p c). }
  pose proof (single_override c k path v) as Hs. unfold single_override_spec in Hs.
  destruct (read_setting path c) as [old|] eqn:Hr; [destruct (parse_as old v) as [new|] eqn:Hp|].
  - right. destruct Hs as (c1 & -> & Hnew & Hother & Hvd). exists c1.
    split_and!; [done| |done|]; [intros (? & ? & [= <-] & ? & ?); congruence|].
    intros p. rewrite assigned_cons, Hk. cbn. destruct (decide (p = path)) as [->|Hne].
    + by rewrite decide_True, Hnew, Hr.
    + rewrite decide_False by congruence. rewrite Hother by done. by destruct (read_setting p c).
  - left. destruct Hs as [msg ->]. exists msg. split; [done|]. by exists path, old.
  - right. exists c. split_and!; [done|intros (? & ? & [= <-] & ? & ?); congruence|done|]. intros p.
    rewrite assigned_cons, Hk. cbn. destruct (decide (p = path)) as [->|Hne].
    + by rewrite Hr.
    + rewrite decide_False by congruence. by destruct (read_setting p c).
Qed.

Lemma overridden_kinds c c1 k v :
  ¬ unreadable c (k, v) → (∀ p, read_setting p c1 = overridden p [(k, v)] c) → same_kinds c c1.
Proof.
  intros Hu Hr p. rewrite Hr. unfold overridden. destruct (read_setting p c) as [old|] eqn:E; [|done].
  rewrite assigned_cons. cbn. case_decide as Hk; [|done].
  destruct (parse_as old v) as [new|] eqn:Hp; [by intros w; eapply parse_as_kind|].
  apply Hu. by exists p, old.
Qed.

Lemma overridden_cons c c1 k v vars p :
  ¬ unreadable c (k, v) → (∀ p, read_setting p c1 = overridden p [(k, v)] c) →
  overridden p vars c1 = overridden p ((k, v) :: vars) c.
Proof.
  intros Hu Hr. unfold overridden at 1. rewrite Hr. unfold overridden. rewrite !assigned_cons.
  destruct (read_setting p c) as [old|] eqn:E; [cbn|done]. case_decide as Hk; [|done]. cbn.
  destruct (parse_as old v) as [new|] eqn:Hp; [|destruct Hu; by exists p, old]. cbn.
  destruct (assigned p vars) as [w|]; [by eapply parse_as_kind|done].
Qed.

(** The environment overrides: when every variable that names a setting can be
    read at its type, each setting ends with its last assignment in the order the
    variables are listed, the others keep their value, and the directory of verticals
    is never overridden; otherwise the first unreadable variable is reported. *)
Lemma overrides_exact c vars :
  match apply_overrides_from c vars with
  | Ok c' => Forall (λ kv, ¬ unreadable c kv) vars ∧ verticals_dir c' = verticals_dir c
      ∧ ∀ path, read_setting path c' = overridden path vars c
  | Err e => ∃ before kv after msg, vars = before ++ kv :: after
      ∧ Forall (λ kv, ¬ unreadable c kv) before ∧ unreadable c kv
      ∧ e = ConfigError.EnvOverride kv.1 msg
  end.
Proof.
  revert c. induction vars as [|[k v] vars IH]; intros c.
  { split_and!; [done..|]. intros path. unfold overridden, assigned. cbn.
    by destruct (read_setting path c). }
  assert (Hstep : apply_overrides_from c ((k, v) :: vars) =
    let? c1 := match override_path k with
               | Some path => apply_single_override c k path v
               | None => Ok c
               end in apply_overrides_from c1 vars) by (cbn; by destruct (override_path k)).
  rewrite Hstep. destruct (override_step c k v) as [(msg & -> & Hbad)|(c1 & -> & Hu & Hvd & Hr)].
  { by exists [], (k, v), vars, msg. }
  pose proof (overridden_kinds _ _ _ _ Hu Hr) as Hk. specialize (IH c1).
  assert (Hall : ∀ l, Forall (λ kv, ¬ unreadable c1 kv) l → Forall (λ kv, ¬ unreadable c kv) ((k, v) :: l)).
  { intros l Hl. constructor; [done|]. eapply Forall_impl; [done|]. intros kv Hn Hu'.
    by apply Hn, (unreadable_kinds c). }
  destruct (apply_overrides_from c1 vars) as [c'|e].
  - destruct IH as (Hok & Hvd' & Hr'). split_and!; [by apply Hall|congruence|].
    intros path. rewrite Hr'. by apply overridden_cons.
  - destruct IH as (before & kv & after & msg & -> & Hb & Hbad & ->).
    exists ((k, v) :: before), kv, after, msg. split_and!; [done|by apply Hall| |done].
    by apply (unreadable_kinds c1), Hbad; apply same_kinds_sym.
Qed.

#[local] Transparent read_setting apply_single_override override_path.

(** A configuration is its settings and the directory of verticals. *)
Ltac equal_settings H l :=
  lazymatch l with
  | ?p :: ?l => let E := fresh in pose proof (H p) as E; vm_compute in E; injection E as ->; equal_settings H l
  | [] => idtac
  end.

Lemma config_ext c c' :
  (∀ path, read_setting path c = read_setting path c') → verticals_dir c = verticals_dir c' → c = c'.
Proof.
  intros H Hv.
  destruct c as [[] [] [? [] []] [] [? [] [] []] [? [] ? ?] [] [] [[] []]].
  destruct c' as [[] [] [? [] []] [] [? [] [] []] [? [] ? ?] [] [] [[] []]].
  let l := eval unfold settings in settings in equal_settings H l.
  vm_compute in Hv. by subst.
Qed.

Section LoadTheory.
Context (read_to_string : string → result string string) (exists_path : string → bool)
  (from_yaml : string → result RuntimeConfig.t string).

(** The file a configuration is read from. *)
Definition source (config_path : option string) (vars : list (string * string)) : option string :=
  match config_path, env_var "WACP_CONFIG" vars with
  | Some path, _ => Some path
  | None, Some path => Some path
  | None, None => if exists_path "wacp-runtime.yaml" then Some "wacp-runtime.yaml" else None
  end.

Definition loaded_from (src : option string) (base : RuntimeConfig.t) : Prop :=
  match src with
  | Some path => ∃ yaml, read_to_string path = Ok yaml ∧ from_yaml yaml = Ok base
  | None => base = default_config
  end.

Lemma finish_load base vars c (src src' : option string) :
  (let? config := apply_overrides_from base vars in let? _ := validate config in Ok (config, src))
  = Ok (c, src') ↔ src' = src ∧ apply_overrides_from base vars = Ok c ∧ validate c = Ok tt.
Proof.
  destruct (apply_overrides_from base vars) as [c1|e]; [|by split; [|intros (_ & [=] & _)]].
  destruct (validate c1) as [[]|e] eqn:Hv.
  - split; [by intros [= <- <-]|]. by intros (-> & [= <-] & _).
  - split; [done|]. intros (_ & [= <-] & ?). congruence.
Qed.

Lemma load_file ioerr path vars c src :
  (let? base := (let? yaml := result_map_err ioerr (read_to_string path) in
                 let? config := parse from_yaml yaml in Ok (config, Some path)) in
   let? config := apply_overrides_from base.1 vars in let? _ := validate config in Ok (config, base.2))
  = Ok (c, src) ↔
  src = Some path
  ∧ ∃ base, loaded_from src base ∧ apply_overrides_from base vars = Ok c ∧ validate c = Ok tt.
Proof.
  unfold parse. destruct (read_to_string path) as [yaml|e] eqn:Hr; cbn; last first.
  { split; [done|]. intros (-> & base & (yaml & Hr' & _) & _). congruence. }
  destruct (from_yaml yaml) as [base|e] eqn:Hy; cbn; last first.
  { split; [done|]. intros (-> & base & (yaml' & Hr' & Hy') & _). congruence. }
  rewrite finish_load. split.
  - intros (-> & ? & ?). split; [done|]. exists base. split_and!; [by exists yaml|done..].
  - intros (-> & base' & (yaml' & Hr' & Hy') & ? & ?).
    assert (base' = base) as -> by congruence. done.
Qed.

Lemma load_unfold config_path vars c src :
  load read_to_string exists_path from_yaml config_path vars = Ok (c, src) ↔
  src = source config_path vars
  ∧ ∃ base, loaded_from src base ∧ apply_overrides_from base vars = Ok c ∧ validate c = Ok tt.
Proof.
  unfold load, source.
  destruct config_path as [path|]; [by rewrite load_file|].
  destruct (env_var "WACP_CONFIG" vars) as [path|]; [by rewrite load_file|].
  destruct (exists_path _); [by rewrite load_file|].
  rewrite finish_load. unfold loaded_from. split; [|by intros (-> & base & -> & ?)].
  intros (-> & ?). split; [done|]. by exists default_config.
Qed.

Lemma default_typed : typed default_config.
Proof.
  intros path s. unfold read_setting. repeat (case_match; [intros [= <-]; vm_compute; done|]). done.
Qed.

Lemma overridden_typed base vars c :
  typed base → (∀ path, read_setting path c = overridden path vars base) → typed c.
Proof.
  intros Hb Hr path s. rewrite Hr. unfold overridden.
  destruct (read_setting path base) as [old|] eqn:E; [cbn|done].
  destruct (assigned path vars) as [v|]; [apply parse_as_range|].
  intros [= <-]. by eapply Hb.
Qed.

(** C19. Loading: the configuration comes from the given path, else from the file named
    by [WACP_CONFIG], else from [wacp-runtime.yaml] if it exists, else from the
    defaults; it is returned exactly when it satisfies [valid] after the last readable
    assignment of each setting by the environment, and its numbers are in range.
    [valid] is about the values alone: files that settings name are not opened, and
    addresses are compared as text. *)
Theorem load_exact config_path vars c src
    (Hyaml : ∀ yaml c, from_yaml yaml = Ok c → typed c) :
  load read_to_string exists_path from_yaml config_path vars = Ok (c, src) ↔
  src = source config_path vars
  ∧ ∃ base, loaded_from src base ∧ Forall (λ kv, ¬ unreadable base kv) vars
    ∧ verticals_dir c = verticals_dir base ∧ (∀ path, read_setting path c = overridden path vars base)
    ∧ typed c ∧ valid c.
Proof.
  assert (Hb : ∀ base, loaded_from src base → typed base).
  { unfold loaded_from. destruct src; [by intros base (yaml & _ & Hy); eapply Hyaml|].
    intros base ->. apply default_typed. }
  rewrite load_unfold. apply and_iff_compat_l. split; intros (base & Hl & H); exists base; split; try done.
  - destruct H as [Ha Hv]. pose proof (overrides_exact base vars) as Ho. rewrite Ha in Ho.
    destruct Ho as (? & ? & Hr). assert (Hc : typed c) by eauto using overridden_typed.
    split_and!; try done. by apply validate_exact.
  - destruct H as (Hf & Hd & Hr & Hc & Hv). split; [|by apply validate_exact].
    pose proof (overrides_exact base vars) as Ho.
    destruct (apply_overrides_from base vars) as [c'|e].
    + destruct Ho as (_ & Hd' & Hr'). f_equal. apply config_ext; [|congruence].
      intros path. by rewrite Hr, Hr'.
    + destruct Ho as (before & kv & after & msg & -> & _ & Hbad & _).
      rewrite Forall_app, Forall_cons in Hf. tauto.
Qed.
End LoadTheory.

(** The defaults with the log level taken from the environment, from a file that holds
    the defaults. *)
Lemma load_exact_witness :
  let c := default_config <| RuntimeConfig.logging; LoggingConfig.level := "debug" |> in
  valid c ∧ typed c.
Proof.
  destruct (proj1 (load_exact (λ _, Ok "") (λ _, true) (λ _, Ok default_config) None
    [("HOME", "/root"); ("WACP_LOGGING__LEVEL", "trace"); ("WACP_Logging__Level", "debug")]
    (default_config <| RuntimeConfig.logging; LoggingConfig.level := "debug" |>)
    (Some "wacp-runtime.yaml") (λ yaml c H, eq_ind default_config typed default_typed c
      (f_equal (λ r, match r with Ok x => x | Err _ => default_config end) H))) eq_refl)
    as (_ & _ & _ & _ & _ & _ & Ht & Hv).
  by split.
Defined.

(** A threshold that is not a number passes the checks, and the budget enforcer then
    never warns. *)
Lemma nan_threshold_accepted c usage budget :
  typed c → valid c →
  let c' := c <| RuntimeConfig.resources; ResourceConfig.warning_threshold := S754_nan |> in
  validate c' = Ok tt
  ∧ (budget_warning_threshold budget = ResourceConfig.warning_threshold (RuntimeConfig.resources c') →
     ∀ dims, BudgetEnforcer.check usage budget ≠ Warning dims).
Proof.
  intros Ht Hv c'. split.
  - apply validate_exact.
    + intros path s Hs. destruct (decide (path = "resources.warning_threshold")) as [->|Hne%String.eqb_neq].
      * by injection Hs as <-.
      * apply (Ht path s). rewrite <-Hs. unfold read_setting. rewrite Hne. reflexivity.
    + destruct Hv. constructor; try done. by left.
  - cbn. intros Hb dims. unfold BudgetEnforcer.check. rewrite Hb.
    assert (Hnan : ∀ name used limit acc,
      ∃ e, BudgetEnforcer.check_dim name used limit S754_nan acc = (acc.1, e)).
    { intros name used [limit|] [w e]; [|by eexists]. unfold BudgetEnforcer.check_dim.
      repeat case_match; try by eexists. exfalso. unfold f64_ge, f64_mul in *.
      destruct (f64_of_u64 limit); cbn in *; by destruct (f64_of_u64 used). }
    repeat match goal with
           | |- context [BudgetEnforcer.check_dim ?n ?u ?l S754_nan ?a] =>
               destruct (Hnan n u l a) as [? ->]; cbn [fst]
           end.
    by case_match.
Qed.
