(* ===== verification/Auth.v ===== *)
(** * Authentication of agents and operators

    wacp-transport's auth.rs, auth_api_key.rs, auth_oauth.rs and auth_session.rs: the
    four authenticators behind one trait, and the limiter of failed attempts.

    Tokens come from the system's random generator, so an operation that draws one
    takes it.  SHA-256, base64 and serde_json are parameters.  Locks are taken for the
    whole of an operation, which is therefore one step.  An [IpAddr] is its text. *)

From Stdlib Require Import Ascii.
From S2P Require Import Prelude Std Trail Recovery.

Module AgentIdentity.
Record t : Type := mk { workspace_id : string; role : string }.
End AgentIdentity.

Module AuthError.
Inductive t : Type := InvalidToken | WorkspaceMismatch | ProviderUnavailable | RateLimited.
End AuthError.

(** The trait.  An authenticator may record uses, so a call returns its new state. *)
Class Authenticator (S : Type) : Type := {
  authenticate_agent : Z → S → string → string → S * result AgentIdentity.t AuthError.t;
  authenticate_human : Z → S → string → S * result string AuthError.t;
}.

(** ** Pre-shared keys *)

Module PskAuthenticator.
Record t : Type := mk {
  agent_tokens : gmap string AgentIdentity.t;
  human_tokens : gmap string string;
}.
#[global] Instance eta_t : Settable t := λ r, mk (agent_tokens r) (human_tokens r).

Definition new : t := mk ∅ ∅.

Definition register_agent (token : string) (self : t) (workspace_id role : string) : t * string :=
  (self <| agent_tokens ::= <[token := AgentIdentity.mk workspace_id role]> |>, token).

Definition register_human (token : string) (self : t) (user_id : string) : t * string :=
  (self <| human_tokens ::= <[token := user_id]> |>, token).

Definition revoke_agent (self : t) (workspace_id : string) : t :=
  self <| agent_tokens ::= filter (λ kv, AgentIdentity.workspace_id kv.2 ≠ workspace_id) |>.

Definition revoke_human (self : t) (token : string) : t :=
  self <| human_tokens ::= delete token |>.

Definition authenticate_agent (self : t) (token workspace_id : string) :
    result AgentIdentity.t AuthError.t :=
  match agent_tokens self !! token with
  | Some identity =>
      if bool_decide (AgentIdentity.workspace_id identity = workspace_id)
      then Ok identity else Err AuthError.WorkspaceMismatch
  | None => Err AuthError.InvalidToken
  end.

Definition authenticate_human (self : t) (token : string) : result string AuthError.t :=
  ok_or (human_tokens self !! token) AuthError.InvalidToken.
End PskAuthenticator.

#[global] Instance psk_authenticator : Authenticator PskAuthenticator.t := {|
  authenticate_agent _ s token ws := (s, PskAuthenticator.authenticate_agent s token ws);
  authenticate_human _ s token := (s, PskAuthenticator.authenticate_human s token);
|}.

(** ** Failed attempts *)

Definition MAX_TRACKED_IPS : Z := 10000.

Definition is_before_cutoff (t cutoff : Z) : bool := t <? cutoff.

Fixpoint pop_before (cutoff : Z) (timestamps : list Z) : list Z :=
  match timestamps with
  | t :: ts => if is_before_cutoff t cutoff then pop_before cutoff ts else timestamps
  | [] => []
  end.

(** [min_by_key]: the first of the least entries in iteration order. *)
Fixpoint min_by_key {A} (key : A → Z) (l : list A) : option A :=
  match l with
  | [] => None
  | x :: l =>
      match min_by_key key l with
      | Some y => if key y <? key x then Some y else Some x
      | None => Some x
      end
  end.

Module AuthRateLimiter.
Record t : Type := mk {
  failures : gmap string (list Z);
  max_failures : Z;
  window : Z;
}.
#[global] Instance eta_t : Settable t := λ r, mk (failures r) (max_failures r) (window r).

Definition new (max_failures window_seconds : Z) : t := mk ∅ max_failures (from_secs window_seconds).

(** The window is a [u32] of seconds and the clock starts at 0, so its start is always an
    instant that can be represented. *)
Definition check (now : Z) (self : t) (ip : string) : t * result unit AuthError.t :=
  if max_failures self =? 0 then (self, Ok tt)
  else
    match failures self !! ip with
    | Some timestamps =>
        let timestamps := pop_before (now - window self) timestamps in
        let self := self <| failures ::= <[ip := timestamps]> |> in
        (self, if max_failures self <=? Z.of_nat (length timestamps)
               then Err AuthError.RateLimited else Ok tt)
    | None => (self, Ok tt)
    end.

Definition record_failure `{HashOrder} (now : Z) (self : t) (ip : string) : t :=
  if max_failures self =? 0 then self
  else
    let map := failures self in
    let map :=
      if (MAX_TRACKED_IPS <=? Z.of_nat (size map)) && bool_decide (map !! ip = None) then
        match min_by_key (λ kv, default now (last kv.2)) (hash_iter map) with
        | Some (oldest_ip, _) => delete oldest_ip map
        | None => map
        end
      else map in
    self <| failures := <[ip := default [] (map !! ip) ++ [now]]> map |>.
End AuthRateLimiter.

(** ** API keys and session tokens

    Both keep the SHA-256 digest of a token instead of the token. *)

Class TokenDigest : Type := digest : string → string.

Module ApiKeyEntry.
Record t : Type := mk { identity : AgentIdentity.t; last_used : option Z }.
#[global] Instance eta_t : Settable t := λ r, mk (identity r) (last_used r).
End ApiKeyEntry.

Module HumanKeyEntry.
Record t : Type := mk { user_id : string; last_used : option Z }.
#[global] Instance eta_t : Settable t := λ r, mk (user_id r) (last_used r).
End HumanKeyEntry.

Module ApiKeyAuthenticator.
Record t : Type := mk {
  agent_keys : gmap string ApiKeyEntry.t;
  human_keys : gmap string HumanKeyEntry.t;
  rate_limiter : AuthRateLimiter.t;
}.
#[global] Instance eta_t : Settable t := λ r, mk (agent_keys r) (human_keys r) (rate_limiter r).

Definition new (max_failures window_seconds : Z) : t :=
  mk ∅ ∅ (AuthRateLimiter.new max_failures window_seconds).

Definition register_agent_key `{TokenDigest} (self : t) (key workspace_id role : string) : t :=
  self <| agent_keys ::= <[digest key := ApiKeyEntry.mk (AgentIdentity.mk workspace_id role) None]> |>.

Definition register_human_key `{TokenDigest} (self : t) (key user_id : string) : t :=
  self <| human_keys ::= <[digest key := HumanKeyEntry.mk user_id None]> |>.

Definition revoke_agent_key `{TokenDigest} (self : t) (key : string) : t :=
  self <| agent_keys ::= delete (digest key) |>.

Definition revoke_human_key `{TokenDigest} (self : t) (key : string) : t :=
  self <| human_keys ::= delete (digest key) |>.

Definition authenticate_agent `{TokenDigest} (now : Z) (self : t) (token workspace_id : string) :
    t * result AgentIdentity.t AuthError.t :=
  match agent_keys self !! digest token with
  | Some entry =>
      if bool_decide (AgentIdentity.workspace_id (ApiKeyEntry.identity entry) = workspace_id) then
        (self <| agent_keys ::= <[digest token := entry <| ApiKeyEntry.last_used := Some now |>]> |>,
         Ok (ApiKeyEntry.identity entry))
      else (self, Err AuthError.WorkspaceMismatch)
  | None => (self, Err AuthError.InvalidToken)
  end.

Definition authenticate_human `{TokenDigest} (now : Z) (self : t) (token : string) :
    t * result string AuthError.t :=
  match human_keys self !! digest token with
  | Some entry =>
      (self <| human_keys ::= <[digest token := entry <| HumanKeyEntry.last_used := Some now |>]> |>,
       Ok (HumanKeyEntry.user_id entry))
  | None => (self, Err AuthError.InvalidToken)
  end.
End ApiKeyAuthenticator.

#[global] Instance api_key_authenticator `{TokenDigest} : Authenticator ApiKeyAuthenticator.t := {|
  authenticate_agent := ApiKeyAuthenticator.authenticate_agent;
  authenticate_human := ApiKeyAuthenticator.authenticate_human;
|}.

Module SessionEntry.
Record t : Type := mk { user_id : string; created_at : Z; expires_at : Z; last_activity : Z }.
#[global] Instance eta_t : Settable t := λ r,
  mk (user_id r) (created_at r) (expires_at r) (last_activity r).
End SessionEntry.

Definition session_expired_now (now expires_at : Z) : bool := expires_at <? now.
Definition session_still_active (expires_at now : Z) : bool := now <? expires_at.

Module SessionTokenAuthenticator.
Record t : Type := mk { sessions : gmap string SessionEntry.t; token_ttl : Z }.
#[global] Instance eta_t : Settable t := λ r, mk (sessions r) (token_ttl r).

Definition new (token_ttl : Z) : t := mk ∅ token_ttl.

Definition create_session `{TokenDigest} (now : Z) (token : string) (self : t) (user_id : string) : t * string :=
  (self <| sessions ::= <[digest token := SessionEntry.mk user_id now (now + token_ttl self) now]> |>,
   token).

Definition validate_session `{TokenDigest} (now : Z) (self : t) (token : string) :
    t * result string AuthError.t :=
  let key := digest token in
  match sessions self !! key with
  | None => (self, Err AuthError.InvalidToken)
  | Some entry =>
      if session_expired_now now (SessionEntry.expires_at entry)
      then (self <| sessions ::= delete key |>, Err AuthError.InvalidToken)
      else (self <| sessions ::= <[key := entry <| SessionEntry.last_activity := now |>]> |>,
            Ok (SessionEntry.user_id entry))
  end.

Definition invalidate_session `{TokenDigest} (self : t) (token : string) : t :=
  self <| sessions ::= delete (digest token) |>.

Definition cleanup_expired (now : Z) (self : t) : t * Z :=
  let kept := filter (λ kv, session_still_active (SessionEntry.expires_at kv.2) now = true) (sessions self) in
  (self <| sessions := kept |>, Z.of_nat (size (sessions self)) - Z.of_nat (size kept)).

Definition authenticate_agent `{TokenDigest} (now : Z) (self : t) (token workspace_id : string) :
    t * result AgentIdentity.t AuthError.t :=
  let '(self, r) := validate_session now self token in
  (self, let? user_id := r in Ok (AgentIdentity.mk "session" ("session:" +:+ user_id))).
End SessionTokenAuthenticator.

#[global] Instance session_authenticator `{TokenDigest} : Authenticator SessionTokenAuthenticator.t := {|
  authenticate_agent := SessionTokenAuthenticator.authenticate_agent;
  authenticate_human := SessionTokenAuthenticator.validate_session;
|}.

(** ** JWT bearer tokens *)

Module JwtClaims.
Record t : Type := mk {
  sub : string;
  iss : string;
  aud : string;
  exp : Z;
  role : option string;
}.
End JwtClaims.

Definition jwt_is_expired (exp now : Z) : bool := exp <? now.

Class Base64Url : Type := base64_decode : string → option bytes.

Section Jwt.
Context `{Json} `{Base64Url}.

Definition claim_str (payload : Value) (name : string) : option string :=
  get payload name ≫= as_str.

Definition decode_jwt (token : string) : result JwtClaims.t string :=
  match split_on "."%char token with
  | [_; part; _] =>
      let? payload_bytes := ok_or (base64_decode part) "invalid base64 in payload" in
      let? payload := ok_or (from_slice payload_bytes) "invalid JSON in payload" in
      Ok (JwtClaims.mk (default "" (claim_str payload "sub")) (default "" (claim_str payload "iss"))
            (default "" (claim_str payload "aud")) (default 0 (get payload "exp" ≫= as_u64))
            (claim_str payload "role"))
  | _ => Err "invalid JWT structure"
  end.
End Jwt.

Module OAuthAuthenticator.
Record t : Type := mk { issuer : string; audience : string }.

Section OAuth.
Context `{Json} `{Base64Url}.

(** [now] is the number of whole seconds since the epoch. *)
Definition validate_jwt (now : Z) (self : t) (token : string) : result JwtClaims.t AuthError.t :=
  let? claims := result_map_err (λ _, AuthError.InvalidToken) (decode_jwt token) in
  if negb (bool_decide (JwtClaims.iss claims = issuer self)) then Err AuthError.InvalidToken
  else if negb (bool_decide (JwtClaims.aud claims = audience self)) then Err AuthError.InvalidToken
  else if jwt_is_expired (JwtClaims.exp claims) now then Err AuthError.InvalidToken
  else Ok claims.

Definition authenticate_agent (now : Z) (self : t) (token workspace_id : string) :
    result AgentIdentity.t AuthError.t :=
  let? claims := validate_jwt now self token in
  Ok (AgentIdentity.mk workspace_id (default "worker" (JwtClaims.role claims))).

Definition authenticate_human (now : Z) (self : t) (token : string) : result string AuthError.t :=
  let? claims := validate_jwt now self token in Ok (JwtClaims.sub claims).
End OAuth.
End OAuthAuthenticator.

#[global] Instance oauth_authenticator `{Json} `{Base64Url} : Authenticator OAuthAuthenticator.t := {|
  authenticate_agent now s token ws := (s, OAuthAuthenticator.authenticate_agent now s token ws);
  authenticate_human now s token := (s, OAuthAuthenticator.authenticate_human now s token);
|}.

(** ** Theory: whom a token speaks for *)

(** A token speaks for one workspace: it is accepted for that workspace only, and the
    identity it gives is in that workspace. *)
Class WorkspaceBound (S : Type) `{Authenticator S} : Prop :=
  workspace_bound : ∀ now1 now2 s token ws1 ws2 id1 id2,
    (authenticate_agent now1 s token ws1).2 = Ok id1 →
    (authenticate_agent now2 s token ws2).2 = Ok id2 →
    ws1 = ws2 ∧ id1 = id2 ∧ AgentIdentity.workspace_id id1 = ws1.

#[global] Instance psk_bound : WorkspaceBound PskAuthenticator.t.
Proof.
  intros ? ? s token ws1 ws2 id1 id2. cbn. unfold PskAuthenticator.authenticate_agent.
  destruct (PskAuthenticator.agent_tokens s !! token) as [id|]; [|done].
  repeat case_bool_decide; naive_solver.
Qed.

#[global] Instance api_key_bound `{TokenDigest} : WorkspaceBound ApiKeyAuthenticator.t.
Proof.
  intros ? ? s token ws1 ws2 id1 id2. cbn. unfold ApiKeyAuthenticator.authenticate_agent.
  destruct (ApiKeyAuthenticator.agent_keys s !! digest token) as [e|]; [|done].
  repeat case_bool_decide; naive_solver.
Qed.

(** A bearer token or session token accepted for one workspace is accepted for every
    workspace, by the identity of the requested workspace or of the workspace
    [session]. *)
Lemma bearer_tokens_unbound `{Json} `{Base64Url} `{TokenDigest} now token ws ws' :
  (∀ (s : OAuthAuthenticator.t) id, (authenticate_agent now s token ws).2 = Ok id →
     ∃ id', (authenticate_agent now s token ws').2 = Ok id' ∧ AgentIdentity.workspace_id id' = ws')
  ∧ (∀ (s : SessionTokenAuthenticator.t) id, (authenticate_agent now s token ws).2 = Ok id →
     (authenticate_agent now s token ws').2 = Ok id ∧ AgentIdentity.workspace_id id = "session").
Proof.
  split; intros s id; cbn.
  - unfold OAuthAuthenticator.authenticate_agent.
    destruct (OAuthAuthenticator.validate_jwt now s token) as [claims|]; [|done]. eauto.
  - unfold SessionTokenAuthenticator.authenticate_agent.
    destruct (SessionTokenAuthenticator.validate_session now s token) as [s' [u|]]; [|done].
    cbn. by intros [= <-].
Qed.

(** ** Theory: pre-shared keys over a history *)

Inductive psk_op : Type :=
| RegisterAgent (token workspace_id role : string)
| RegisterHuman (token user_id : string)
| RevokeAgent (workspace_id : string)
| RevokeHuman (token : string).

Definition psk_step (s : PskAuthenticator.t) (op : psk_op) : PskAuthenticator.t :=
  match op with
  | RegisterAgent token ws role => (PskAuthenticator.register_agent token s ws role).1
  | RegisterHuman token user => (PskAuthenticator.register_human token s user).1
  | RevokeAgent ws => PskAuthenticator.revoke_agent s ws
  | RevokeHuman token => PskAuthenticator.revoke_human s token
  end.

Definition psk_run (ops : list psk_op) : PskAuthenticator.t := foldl psk_step PskAuthenticator.new ops.

(** The operations that end the grant of a token to a workspace, or to a user. *)
Definition ends_agent (token ws : string) (op : psk_op) : Prop :=
  match op with
  | RegisterAgent token' _ _ => token' = token
  | RevokeAgent ws' => ws' = ws
  | _ => False
  end.

Definition ends_human (token : string) (op : psk_op) : Prop :=
  match op with
  | RegisterHuman token' _ | RevokeHuman token' => token' = token
  | _ => False
  end.

(** The token was registered for this identity, and neither registered again nor its
    workspace revoked since. *)
Definition agent_granted (ops : list psk_op) (token : string) (id : AgentIdentity.t) : Prop :=
  since (RegisterAgent token (AgentIdentity.workspace_id id) (AgentIdentity.role id))
    (ends_agent token (AgentIdentity.workspace_id id)) ops.

Definition human_granted (ops : list psk_op) (token user : string) : Prop :=
  since (RegisterHuman token user) (ends_human token) ops.

Lemma psk_agent_tokens ops token id :
  PskAuthenticator.agent_tokens (psk_run ops) !! token = Some id ↔ agent_granted ops token id.
Proof.
  induction ops as [|op ops IH] using rev_ind; [by split; [|intros ?%since_nil]|].
  unfold agent_granted, psk_run in *. rewrite foldl_snoc, since_snoc, <-IH.
  destruct op as [token' ws role|token' user|ws|token']; cbn; [|naive_solver| |naive_solver].
  - destruct (decide (token' = token)) as [->|Hne].
    + rewrite lookup_insert_eq. destruct id; naive_solver.
    + rewrite lookup_insert_ne by done. naive_solver.
  - rewrite map_lookup_filter_Some. naive_solver.
Qed.

Lemma psk_human_tokens ops token user :
  PskAuthenticator.human_tokens (psk_run ops) !! token = Some user ↔ human_granted ops token user.
Proof.
  induction ops as [|op ops IH] using rev_ind; [by split; [|intros ?%since_nil]|].
  unfold human_granted, psk_run in *. rewrite foldl_snoc, since_snoc, <-IH.
  destruct op as [token' ws role|token' user'|ws|token']; cbn; [naive_solver| |naive_solver|].
  - destruct (decide (token' = token)) as [->|Hne].
    + rewrite lookup_insert_eq. naive_solver.
    + rewrite lookup_insert_ne by done. naive_solver.
  - rewrite lookup_delete_Some. naive_solver.
Qed.

(** After any sequence of registrations and revocations, an agent token is accepted
    exactly for the workspace it was last registered for and only until that workspace
    is revoked; a human token until it is revoked; and the errors say which of the two
    failed. *)
Theorem psk_exact ops token ws user :
  (∀ id, PskAuthenticator.authenticate_agent (psk_run ops) token ws = Ok id ↔
         agent_granted ops token id ∧ AgentIdentity.workspace_id id = ws)
  ∧ (PskAuthenticator.authenticate_agent (psk_run ops) token ws = Err AuthError.WorkspaceMismatch ↔
     ∃ id, agent_granted ops token id ∧ AgentIdentity.workspace_id id ≠ ws)
  ∧ (PskAuthenticator.authenticate_human (psk_run ops) token = Ok user ↔ human_granted ops token user)
  ∧ (PskAuthenticator.authenticate_human (psk_run ops) token = Err AuthError.InvalidToken ↔
     ∀ user, ¬ human_granted ops token user).
Proof.
  pose proof (psk_agent_tokens ops token) as Ha. pose proof (psk_human_tokens ops token) as Hh.
  unfold PskAuthenticator.authenticate_agent, PskAuthenticator.authenticate_human.
  destruct (PskAuthenticator.agent_tokens (psk_run ops) !! token) as [id|];
    destruct (PskAuthenticator.human_tokens (psk_run ops) !! token) as [u|];
    cbn; split_and!; intros; try case_bool_decide; naive_solver.
Qed.

(** ** Theory: API keys over a history *)

Inductive key_op : Type :=
| RegisterAgentKey (key workspace_id role : string)
| RevokeAgentKey (key : string)
| UseAgentKey (now : Z) (token workspace_id : string).

Definition key_step `{TokenDigest} (s : ApiKeyAuthenticator.t) (op : key_op) : ApiKeyAuthenticator.t :=
  match op with
  | RegisterAgentKey key ws role => ApiKeyAuthenticator.register_agent_key s key ws role
  | RevokeAgentKey key => ApiKeyAuthenticator.revoke_agent_key s key
  | UseAgentKey now token ws => (ApiKeyAuthenticator.authenticate_agent now s token ws).1
  end.

Definition key_of (op : key_op) : string :=
  match op with RegisterAgentKey key _ _ | RevokeAgentKey key | UseAgentKey _ key _ => key end.

Definition ends_key (key : string) (op : key_op) : Prop :=
  match op with RegisterAgentKey key' _ _ | RevokeAgentKey key' => key' = key | _ => False end.

Definition key_granted (ops : list key_op) (key : string) (id : AgentIdentity.t) : Prop :=
  since (RegisterAgentKey key (AgentIdentity.workspace_id id) (AgentIdentity.role id)) (ends_key key) ops.

(** No key of the history has the digest of another key [token]. *)
Definition collision_free `{TokenDigest} (keys : list string) (token : string) : Prop :=
  ∀ key, key ∈ keys → digest key = digest token → key = token.

Section ApiKeys.
Context `{TokenDigest} (max_failures window_seconds : Z).

Definition key_run (ops : list key_op) : ApiKeyAuthenticator.t :=
  foldl key_step (ApiKeyAuthenticator.new max_failures window_seconds) ops.

Lemma api_key_table ops token :
  collision_free (key_of <$> ops) token →
  ∀ id, ApiKeyEntry.identity <$> ApiKeyAuthenticator.agent_keys (key_run ops) !! digest token = Some id
        ↔ key_granted ops token id.
Proof.
  unfold key_granted, key_run. induction ops as [|op ops IH] using rev_ind; intros Hc id.
  { by split; [|intros ?%since_nil]. }
  assert (Hk : digest (key_of op) = digest token → key_of op = token).
  { intros Hd. apply Hc; [|done]. rewrite fmap_app. apply elem_of_app. right. by apply list_elem_of_singleton. }
  rewrite foldl_snoc, since_snoc, <-IH; last first.
  { intros key Hin. apply Hc. rewrite fmap_app. apply elem_of_app. by left. }
  clear IH Hc. destruct op as [key ws role|key|now key ws]; cbn in *.
  - destruct (decide (digest key = digest token)) as [Hd|Hd].
    + rewrite Hd, lookup_insert_eq. rewrite (Hk Hd). destruct id; naive_solver.
    + rewrite lookup_insert_ne by done. naive_solver.
  - destruct (decide (digest key = digest token)) as [Hd|Hd].
    + rewrite Hd, lookup_delete_eq. rewrite (Hk Hd). naive_solver.
    + rewrite lookup_delete_ne by done. naive_solver.
  - unfold ApiKeyAuthenticator.authenticate_agent.
    destruct (ApiKeyAuthenticator.agent_keys _ !! digest key) as [e|] eqn:He; [|naive_solver].
    case_bool_decide; cbn; [|naive_solver].
    destruct (decide (digest key = digest token)) as [Hd|Hd].
    + rewrite Hd in *. rewrite lookup_insert_eq, He. naive_solver.
    + rewrite lookup_insert_ne by done. naive_solver.
Qed.

(** An API key is accepted exactly for the workspace it was last registered for until
    it is revoked, however many attempts failed: the limiter the authenticator is
    built with is never touched. *)
Lemma api_key_exact ops now token ws :
  collision_free (key_of <$> ops) token →
  (∀ id, (ApiKeyAuthenticator.authenticate_agent now (key_run ops) token ws).2 = Ok id ↔
         key_granted ops token id ∧ AgentIdentity.workspace_id id = ws)
  ∧ ApiKeyAuthenticator.rate_limiter (key_run ops) = AuthRateLimiter.new max_failures window_seconds.
Proof.
  intros Hc. split.
  - intros id. rewrite <-(api_key_table ops token Hc id).
    unfold ApiKeyAuthenticator.authenticate_agent.
    destruct (ApiKeyAuthenticator.agent_keys _ !! _) as [e|]; [|naive_solver].
    case_bool_decide; naive_solver.
  - clear Hc. unfold key_run. induction ops as [|op ops IH] using rev_ind; [done|].
    rewrite foldl_snoc. rewrite <-IH. destruct op; cbn; [done..|].
    unfold ApiKeyAuthenticator.authenticate_agent. by repeat case_match.
Qed.
End ApiKeys.

(** ** Theory: sessions over a history *)

Inductive session_op : Type :=
| CreateSession (now : Z) (token user_id : string)
| ValidateSession (now : Z) (token : string)
| InvalidateSession (now : Z) (token : string)
| CleanupExpired (now : Z).

Definition session_step `{TokenDigest} (s : SessionTokenAuthenticator.t) (op : session_op) :
    SessionTokenAuthenticator.t :=
  match op with
  | CreateSession now token user => (SessionTokenAuthenticator.create_session now token s user).1
  | ValidateSession now token => (SessionTokenAuthenticator.validate_session now s token).1
  | InvalidateSession _ token => SessionTokenAuthenticator.invalidate_session s token
  | CleanupExpired now => (SessionTokenAuthenticator.cleanup_expired now s).1
  end.

Definition session_time (op : session_op) : Z :=
  match op with
  | CreateSession now _ _ | ValidateSession now _ | InvalidateSession now _ | CleanupExpired now => now
  end.

Definition session_tokens (op : session_op) : list string :=
  match op with
  | CreateSession _ token _ | ValidateSession _ token | InvalidateSession _ token => [token]
  | CleanupExpired _ => []
  end.

Definition ends_session (token : string) (op : session_op) : Prop :=
  match op with
  | CreateSession _ token' _ | InvalidateSession _ token' => token' = token
  | _ => False
  end.

(** The session of a token was opened for [user] at [t] and not closed since. *)
Definition opened (ops : list session_op) (token user : string) (t : Z) : Prop :=
  since (CreateSession t token user) (ends_session token) ops.

Section Sessions.
Context `{TokenDigest} (ttl : Z).

Definition session_run (ops : list session_op) : SessionTokenAuthenticator.t :=
  foldl session_step (SessionTokenAuthenticator.new ttl) ops.

(** What the table says of a token: an entry is an open session with its expiry, and
    an open session has an entry until an operation at or after its expiry. *)
Definition session_entry_ok (ops : list session_op) (token : string) : Prop :=
  let entry := SessionTokenAuthenticator.sessions (session_run ops) !! digest token in
  (∀ e, entry = Some e → opened ops token (SessionEntry.user_id e) (SessionEntry.created_at e)
        ∧ SessionEntry.expires_at e = SessionEntry.created_at e + ttl)
  ∧ (∀ user t, opened ops token user t →
       (∃ e, entry = Some e ∧ SessionEntry.user_id e = user ∧ SessionEntry.created_at e = t)
       ∨ ∃ op, op ∈ ops ∧ t + ttl ≤ session_time op).

Lemma session_ttl ops : SessionTokenAuthenticator.token_ttl (session_run ops) = ttl.
Proof.
  unfold session_run. induction ops as [|op ops IH] using rev_ind; [done|].
  rewrite foldl_snoc. destruct op; cbn; [done| |done..].
  unfold SessionTokenAuthenticator.validate_session. by repeat case_match.
Qed.

Definition session_view (e : SessionEntry.t) : string * Z * Z :=
  (SessionEntry.user_id e, SessionEntry.created_at e, SessionEntry.expires_at e).

(** What one operation does to the entry of a token. *)
Lemma session_step_cases s op token :
  (∀ k, k ∈ session_tokens op → digest k = digest token → k = token) →
  let entry := SessionTokenAuthenticator.sessions s !! digest token in
  let entry' := SessionTokenAuthenticator.sessions (session_step s op) !! digest token in
  (∃ now user, op = CreateSession now token user
     ∧ session_view <$> entry' = Some (user, now, now + SessionTokenAuthenticator.token_ttl s))
  ∨ (∃ now, op = InvalidateSession now token ∧ entry' = None)
  ∨ (¬ ends_session token op ∧ session_view <$> entry' = session_view <$> entry)
  ∨ (¬ ends_session token op
     ∧ ∃ e, entry = Some e ∧ entry' = None ∧ SessionEntry.expires_at e ≤ session_time op).
Proof.
  intros Hk entry entry'. subst entry entry'.
  assert (Hd : ∀ k, k ∈ session_tokens op → k = token ∨ digest k ≠ digest token ∧ k ≠ token).
  { intros k Hin. destruct (decide (k = token)) as [->|]; [by left|]. naive_solver. }
  destruct op as [now k user|now k|now k|now]; cbn [session_step ends_session session_time].
  - destruct (Hd k) as [->|[Hne ?]]; [set_solver|left|right; right; left]; cbn.
    + exists now, user. by rewrite lookup_insert_eq.
    + by rewrite lookup_insert_ne.
  - unfold SessionTokenAuthenticator.validate_session.
    destruct (SessionTokenAuthenticator.sessions s !! digest k) as [e|] eqn:He; [|right; right; left; split; [tauto|done]].
    unfold session_expired_now. destruct (Z.ltb_spec (SessionEntry.expires_at e) now); cbn.
    + destruct (Hd k) as [->|[Hne ?]]; [set_solver|right; right; right|right; right; left].
      * split; [tauto|]. exists e. rewrite lookup_delete_eq. split_and!; [done..|lia].
      * split; [tauto|]. by rewrite lookup_delete_ne.
    + right; right; left. split; [tauto|].
      destruct (Hd k) as [->|[Hne ?]]; [set_solver| |].
      * by rewrite lookup_insert_eq, He.
      * by rewrite lookup_insert_ne.
  - destruct (Hd k) as [->|[Hne ?]]; [set_solver|right; left|right; right; left]; cbn.
    + exists now. by rewrite lookup_delete_eq.
    + by rewrite lookup_delete_ne.
  - cbn. unfold session_still_active.
    destruct (SessionTokenAuthenticator.sessions s !! digest token) as [e|] eqn:He.
    + destruct (Z.ltb_spec now (SessionEntry.expires_at e)).
      * right; right; left. split; [tauto|]. f_equal. apply map_lookup_filter_Some.
        split; [done|]. cbn. by apply Z.ltb_lt.
      * right; right; right. split; [tauto|]. exists e. split_and!; [done| |lia].
        apply map_lookup_filter_None. right. intros e' He'. simplify_eq/=. apply not_true_iff_false.
        by apply Z.ltb_ge.
    + right; right; left. split; [tauto|]. f_equal. apply map_lookup_filter_None. by left.
Qed.

Lemma session_table ops token :
  collision_free (mbind session_tokens ops) token → session_entry_ok ops token.
Proof.
  induction ops as [|op ops IH] using rev_ind; intros Hc.
  { split; [done|]. by intros ? ? ?%since_nil. }
  destruct IH as [IHe IHo]; [intros k Hk; apply Hc; rewrite bind_app; set_solver|].
  pose proof (session_step_cases (session_run ops) op token) as Hstep.
  specialize (Hstep ltac:(intros k Hk; apply Hc; rewrite bind_app; set_solver)). clear Hc.
  rewrite session_ttl in Hstep. unfold session_entry_ok, opened in *. setoid_rewrite since_snoc.
  unfold session_run in *. rewrite foldl_snoc. cbv zeta in *.
  set (entry := SessionTokenAuthenticator.sessions (foldl _ _ ops) !! _) in *.
  set (entry' := SessionTokenAuthenticator.sessions (session_step _ op) !! _) in *.
  assert (Hlate : ∀ user t, since (CreateSession t token user) (ends_session token) ops →
    (∃ op, op ∈ ops ∧ t + ttl ≤ session_time op) → ∃ op', op' ∈ ops ++ [op] ∧ t + ttl ≤ session_time op').
  { intros user t _ (op' & Hin & Ht). exists op'. set_solver. }
  unfold session_view in Hstep.
  destruct Hstep as [(now & user & -> & He)|[(now & -> & He)|[(Hn & He)|(Hn & e & He & He' & Hx)]]].
  - apply fmap_Some in He as (e & -> & [= ? ? ?]). split; [naive_solver congruence|].
    intros user' t' [[= -> ->]|[[] _]]; [|done]. left. naive_solver.
  - rewrite He. split; [done|]. intros user' t' [[=]|[[] _]]. done.
  - split.
    + intros e' He'. rewrite He' in He. symmetry in He. apply fmap_Some in He as (e & He & [= ? ? ?]).
      destruct (IHe e He). split; [right; split; [done|]|]; congruence.
    + intros user t [->|[_ Ho]]; [by destruct Hn|].
      destruct (IHo user t Ho) as [(e & He' & Hu & Ht)|]; [left|right; by eapply Hlate].
      rewrite He' in He. apply fmap_Some in He as (e' & -> & [= ? ? ?]). exists e'. naive_solver congruence.
  - rewrite He'. split; [done|]. intros user t [->|[_ Ho]]; [by destruct Hn|]. right.
    destruct (IHo user t Ho) as [(e1 & He1 & Hu & Ht)|]; [|by eapply Hlate].
    exists op. split; [set_solver|]. destruct (IHe e He) as [_ Hex].
    assert (e1 = e) as -> by congruence. lia.
Qed.

(** Session tokens: along any history whose clock does not go back, a token is
    accepted for the user its session was opened for until the session is closed and
    for the whole of its lifetime, and never after its lifetime or without an open
    session; uses do not extend the lifetime. *)
Theorem session_exact ops now token user
    (Hdigest : collision_free (mbind session_tokens ops) token)
    (Hclock : Forall (λ op, session_time op ≤ now) ops) :
  let r := (SessionTokenAuthenticator.validate_session now (session_run ops) token).2 in
  (∀ t, opened ops token user t → now < t + ttl → r = Ok user)
  ∧ (r = Ok user → ∃ t, opened ops token user t ∧ now ≤ t + ttl)
  ∧ ((∀ user t, opened ops token user t → t + ttl < now) → r = Err AuthError.InvalidToken).
Proof.
  destruct (session_table ops token Hdigest) as [He Ho]. cbv zeta in *. rewrite Forall_forall in Hclock.
  unfold SessionTokenAuthenticator.validate_session, session_expired_now.
  destruct (SessionTokenAuthenticator.sessions _ !! _) as [e|].
  - destruct (He e eq_refl) as [Hopen Hexp]. rewrite Hexp.
    destruct (Z.ltb_spec (SessionEntry.created_at e + ttl) now); cbn.
    + split_and!; [|done..]. intros t Ht Hlt.
      destruct (Ho _ _ Ht) as [(e' & [= <-] & _ & Hc)|(op & Hin & Hle)]; [lia|].
      specialize (Hclock op Hin). lia.
    + split_and!; [|by intros [= <-]; eauto|intros Hx; specialize (Hx _ _ Hopen); lia].
      intros t Ht Hlt.
      destruct (Ho _ _ Ht) as [(e' & [= <-] & <- & _)|(op & Hin & Hle)]; [done|].
      specialize (Hclock op Hin). lia.
  - cbn. split_and!; [|done..]. intros t Ht Hlt.
    destruct (Ho _ _ Ht) as [(e' & [=] & _)|(op & Hin & Hle)]. specialize (Hclock op Hin). lia.
Qed.
End Sessions.

Lemma session_exact_witness :
  let H : TokenDigest := λ t, t in
  let ops := [CreateSession 0 "tok" "ann"; ValidateSession 50 "tok"; CleanupExpired 60] in
  (SessionTokenAuthenticator.validate_session 90 (session_run 100 ops) "tok").2 = Ok "ann".
Proof.
  intros H ops.
  assert (Hd : collision_free (mbind session_tokens ops) "tok") by (intros k _ Hk; exact Hk).
  assert (Hc : Forall (λ op, session_time op ≤ 90) ops) by (repeat constructor; cbn; lia).
  apply (session_exact 100 ops 90 "tok" "ann" Hd Hc) with 0; [|lia].
  exists [], [ValidateSession 50 "tok"; CleanupExpired 60].
  split; [reflexivity|]. repeat constructor; cbn; tauto.
Defined.

(** ** Theory: the limiter over a history *)

Inductive limit_op : Type :=
| CheckIp (now : Z) (ip : string)
| FailIp (now : Z) (ip : string).

Definition limit_time (op : limit_op) : Z := match op with CheckIp now _ | FailIp now _ => now end.

(** The failures of an address in a history, oldest first. *)
Definition failures_of (ops : list limit_op) (ip : string) : list Z :=
  omap (λ op, match op with
              | FailIp now ip' => if bool_decide (ip' = ip) then Some now else None
              | CheckIp _ _ => None
              end) ops.

Definition failed_ips (ops : list limit_op) : gset string :=
  list_to_set (omap (λ op, match op with FailIp _ ip => Some ip | CheckIp _ _ => None end) ops).

Definition recent (cutoff : Z) (ts : list Z) : list Z := filter (λ t, cutoff ≤ t) ts.

Lemma failures_of_snoc ops op ip :
  failures_of (ops ++ [op]) ip = failures_of ops ip ++ failures_of [op] ip.
Proof. apply omap_app. Qed.

Lemma pop_before_recent cutoff ts : StronglySorted Z.le ts → pop_before cutoff ts = recent cutoff ts.
Proof.
  unfold recent, is_before_cutoff. induction 1 as [|t ts Hs IH Hall]; [done|]. cbn [pop_before].
  unfold is_before_cutoff. rewrite filter_cons. destruct (Z.ltb_spec t cutoff).
  - by rewrite decide_False by lia.
  - rewrite decide_True by done. f_equal. symmetry. apply list_filter_id.
    intros x Hx. rewrite Forall_forall in Hall. specialize (Hall x Hx). lia.
Qed.

Lemma pop_before_suffix cutoff ts : ∃ dropped, ts = dropped ++ pop_before cutoff ts
  ∧ Forall (λ t, t < cutoff) dropped.
Proof.
  induction ts as [|t ts (dropped & Heq & Hall)]; [by exists []|]. cbn [pop_before].
  unfold is_before_cutoff. destruct (Z.ltb_spec t cutoff).
  - exists (t :: dropped). rewrite <-app_comm_cons, <-Heq. split; [done|by constructor].
  - exists []. by split; [|constructor].
Qed.

Section Limiter.
Context `{HashOrder} (max_failures window_seconds : Z).

Definition limit_step (s : AuthRateLimiter.t) (op : limit_op) : AuthRateLimiter.t :=
  match op with
  | CheckIp now ip => (AuthRateLimiter.check now s ip).1
  | FailIp now ip => AuthRateLimiter.record_failure now s ip
  end.

Definition limit_run (ops : list limit_op) : AuthRateLimiter.t :=
  foldl limit_step (AuthRateLimiter.new max_failures window_seconds) ops.

Lemma limit_params ops :
  AuthRateLimiter.max_failures (limit_run ops) = max_failures
  ∧ AuthRateLimiter.window (limit_run ops) = from_secs window_seconds.
Proof.
  unfold limit_run. induction ops as [|op ops IH] using rev_ind; [done|]. rewrite foldl_snoc.
  set (s := foldl _ _ ops) in *. destruct op; cbn.
  - unfold AuthRateLimiter.check. destruct (_ =? 0); [done|]. by destruct (_ !! _).
  - unfold AuthRateLimiter.record_failure. by destruct (_ =? 0).
Qed.

(** The map a failure is recorded in: at capacity a new address evicts another. *)
Definition evicted (s : AuthRateLimiter.t) (ip : string) (map' : gmap string (list Z)) : Prop :=
  map' = AuthRateLimiter.failures s
    ∧ (Z.of_nat (size (AuthRateLimiter.failures s)) < MAX_TRACKED_IPS
       ∨ is_Some (AuthRateLimiter.failures s !! ip))
  ∨ ∃ oldest, is_Some (AuthRateLimiter.failures s !! oldest) ∧ oldest ≠ ip
    ∧ map' = delete oldest (AuthRateLimiter.failures s)
    ∧ MAX_TRACKED_IPS ≤ Z.of_nat (size (AuthRateLimiter.failures s))
    ∧ AuthRateLimiter.failures s !! ip = None.

Lemma min_by_key_least {A} (key : A → Z) l y :
  y ∈ l → ∃ x, min_by_key key l = Some x ∧ x ∈ l ∧ key x ≤ key y.
Proof.
  revert y. induction l as [|z l IH]; intros y; [set_solver|]. intros [->|Hin]%elem_of_cons; cbn.
  - destruct l as [|w l]; [exists z; cbn; set_solver by lia|].
    destruct (IH w) as (x & -> & Hx & _); [set_solver|].
    destruct (Z.ltb_spec (key x) (key z)); [exists x|exists z]; set_solver by lia.
  - destruct (IH y Hin) as (x & -> & Hx & Hle).
    destruct (Z.ltb_spec (key x) (key z)); [exists x|exists z]; set_solver by lia.
Qed.

Lemma min_by_key_in {A} (key : A → Z) l : l ≠ [] → ∃ x, min_by_key key l = Some x ∧ x ∈ l.
Proof.
  destruct l as [|y l]; [done|]. intros _.
  destruct (min_by_key_least key (y :: l) y) as (x & Hx & Hin & _); [set_solver|]. by exists x.
Qed.

Lemma record_failure_eq now s ip :
  AuthRateLimiter.max_failures s ≠ 0 →
  ∃ map', evicted s ip map'
  ∧ AuthRateLimiter.failures (AuthRateLimiter.record_failure now s ip)
    = <[ip := default [] (AuthRateLimiter.failures s !! ip) ++ [now]]> map'.
Proof.
  intros Hm. unfold AuthRateLimiter.record_failure, evicted. apply Z.eqb_neq in Hm. rewrite Hm.
  set (map := AuthRateLimiter.failures s). cbn.
  destruct (Z.leb_spec MAX_TRACKED_IPS (Z.of_nat (size map))); cbn; last by exists map; auto.
  case_bool_decide as Hip; last first.
  { exists map. split; [|done]. left. split; [done|]. right. by apply not_eq_None_Some. }
  destruct (min_by_key_in (λ kv : string * list Z, default now (last kv.2)) (hash_iter map))
    as ([oldest ts] & -> & Hin%elem_of_hash_iter).
  { intros Hnil. apply (f_equal length) in Hnil. rewrite length_hash_iter in Hnil.
    unfold MAX_TRACKED_IPS in *. cbn in *. lia. }
  assert (oldest ≠ ip) by (intros ->; congruence).
  exists (delete oldest map). rewrite lookup_delete_ne by done. split; [|done].
  right. exists oldest. split_and!; eauto.
Qed.

Definition tracked (ops : list limit_op) (ip : string) (ts : list Z) : Prop :=
  ∃ dropped, failures_of ops ip = dropped ++ ts.

(** What was dropped from an address's list was older than the window at some check. *)
Definition tracked_exactly (ops : list limit_op) (ip : string) (ts : list Z) : Prop :=
  ∃ dropped, failures_of ops ip = dropped ++ ts
  ∧ Forall (λ t, ∃ op, op ∈ ops ∧ t < limit_time op - from_secs window_seconds) dropped.

Record limit_inv (ops : list limit_op) : Prop := {
  inv_size : Z.of_nat (size (AuthRateLimiter.failures (limit_run ops))) ≤ MAX_TRACKED_IPS;
  inv_dom : dom (AuthRateLimiter.failures (limit_run ops)) ⊆ failed_ips ops;
  inv_sound : ∀ ip ts, AuthRateLimiter.failures (limit_run ops) !! ip = Some ts → tracked ops ip ts;
  inv_exact : Z.of_nat (size (failed_ips ops)) ≤ MAX_TRACKED_IPS → ∀ ip,
    tracked_exactly ops ip (default [] (AuthRateLimiter.failures (limit_run ops) !! ip));
}.

Lemma tracked_weaken ops op ip ts :
  failures_of [op] ip = [] → (tracked ops ip ts → tracked (ops ++ [op]) ip ts)
  ∧ (tracked_exactly ops ip ts → tracked_exactly (ops ++ [op]) ip ts).
Proof.
  intros Hop. unfold tracked, tracked_exactly. rewrite failures_of_snoc, Hop, app_nil_r. split; [done|].
  intros (dropped & -> & Hall). exists dropped. split; [done|]. eapply Forall_impl; [done|].
  cbn. intros t (op' & Hin & Hlt). exists op'. set_solver.
Qed.

Lemma tracked_snoc ops now ip ts :
  (tracked ops ip ts → tracked (ops ++ [FailIp now ip]) ip (ts ++ [now]))
  ∧ (tracked_exactly ops ip ts → tracked_exactly (ops ++ [FailIp now ip]) ip (ts ++ [now])).
Proof.
  unfold tracked, tracked_exactly. rewrite failures_of_snoc. cbn. rewrite bool_decide_true by done. split.
  - intros [dropped ->]. exists dropped. by rewrite <-app_assoc.
  - intros (dropped & -> & Hall). exists dropped. rewrite <-app_assoc. split; [done|].
    eapply Forall_impl; [done|]. cbn. intros t (op' & Hin & Hlt). exists op'. set_solver.
Qed.

Lemma failed_ips_snoc ops op :
  failed_ips (ops ++ [op]) =
  failed_ips ops ∪ match op with FailIp _ ip => {[ip]} | CheckIp _ _ => ∅ end.
Proof.
  unfold failed_ips. rewrite omap_app, list_to_set_app_L. f_equal. by destruct op; cbn; set_solver.
Qed.

Lemma check_failures now s ip :
  AuthRateLimiter.max_failures s ≠ 0 →
  AuthRateLimiter.failures (AuthRateLimiter.check now s ip).1 =
  match AuthRateLimiter.failures s !! ip with
  | Some ts => <[ip := pop_before (now - AuthRateLimiter.window s) ts]> (AuthRateLimiter.failures s)
  | None => AuthRateLimiter.failures s
  end.
Proof.
  intros Hm%Z.eqb_neq. unfold AuthRateLimiter.check. rewrite Hm. by destruct (_ !! _).
Qed.

Lemma limit_inv_check ops now ip :
  max_failures ≠ 0 → limit_inv ops → limit_inv (ops ++ [CheckIp now ip]).
Proof.
  intros Hm [Hsize Hdom Hsound Hexact]. destruct (limit_params ops) as [Hmax Hwin].
  pose proof (λ ts ip', tracked_weaken ops (CheckIp now ip) ip' ts eq_refl) as Hw.
  assert (Hfs : failed_ips (ops ++ [CheckIp now ip]) = failed_ips ops)
    by (rewrite failed_ips_snoc; set_solver).
  assert (Hrun : limit_run (ops ++ [CheckIp now ip]) = (AuthRateLimiter.check now (limit_run ops) ip).1)
    by (unfold limit_run; by rewrite foldl_snoc).
  pose proof (check_failures now (limit_run ops) ip) as Hf. rewrite Hmax, <-Hrun in Hf. specialize (Hf Hm).
  destruct (AuthRateLimiter.failures (limit_run ops) !! ip) as [ts|] eqn:Hip; last first.
  { split; rewrite Hf, ?Hfs; [done..| |].
    - intros ip' ts' Hl. by apply Hw, Hsound.
    - intros Hn ip'. by apply Hw, Hexact. }
  destruct (pop_before_suffix (now - AuthRateLimiter.window (limit_run ops)) ts) as (d' & Hd' & Hlt).
  split; rewrite Hf, ?Hfs.
  - by rewrite map_size_insert_Some.
  - by rewrite dom_insert_lookup_L.
  - intros ip' ts'. destruct (decide (ip' = ip)) as [->|Hne].
    + rewrite lookup_insert_eq. intros [= <-]. apply Hw.
      destruct (Hsound _ _ Hip) as [dropped Heq].
      exists (dropped ++ d'). by rewrite Heq, <-app_assoc, <-Hd'.
    + rewrite lookup_insert_ne by done. intros Hl. by apply Hw, Hsound.
  - intros Hn ip'. destruct (decide (ip' = ip)) as [->|Hne].
    + rewrite lookup_insert_eq. cbn. specialize (Hexact Hn ip). rewrite Hip in Hexact. cbn in Hexact.
      apply Hw in Hexact as (dropped & Heq & Hall).
      exists (dropped ++ d'). rewrite Heq, <-app_assoc, <-Hd'. split; [done|].
      apply Forall_app. split; [done|]. eapply Forall_impl; [done|]. cbn. intros t Ht.
      exists (CheckIp now ip). rewrite Hwin in Ht. set_solver.
    + rewrite lookup_insert_ne by done. by apply Hw, Hexact.
Qed.

Lemma limit_inv_fail ops now ip :
  max_failures ≠ 0 → limit_inv ops → limit_inv (ops ++ [FailIp now ip]).
Proof.
  intros Hm [Hsize Hdom Hsound Hexact]. destruct (limit_params ops) as [Hmax Hwin].
  assert (Hother : ∀ ip', ip' ≠ ip → failures_of [FailIp now ip] ip' = []).
  { intros ip' Hne. cbn. by rewrite bool_decide_false by congruence. }
  assert (Hrun : limit_run (ops ++ [FailIp now ip]) = AuthRateLimiter.record_failure now (limit_run ops) ip)
    by (unfold limit_run; by rewrite foldl_snoc).
  destruct (record_failure_eq now (limit_run ops) ip) as (map' & Hev & Hf); [by rewrite Hmax|].
  rewrite <-Hrun in Hf. unfold evicted in Hev. set (m := AuthRateLimiter.failures (limit_run ops)) in *.
  assert (Hsub : ∀ ip' ts, ip' ≠ ip → map' !! ip' = Some ts → m !! ip' = Some ts).
  { intros ip' ts _. destruct Hev as [[-> _]|(old & _ & _ & -> & _)]; [done|].
    by intros [_ ?]%lookup_delete_Some. }
  split; rewrite Hf, ?failed_ips_snoc.
  - destruct Hev as [[-> [Hlt|[ts Hts]]]|(old & Hold & Hne & -> & Hcap & Hip)].
    + rewrite map_size_insert. destruct (m !! ip); cbn; lia.
    + by rewrite map_size_insert_Some.
    + rewrite map_size_insert_None by (by rewrite lookup_delete_ne).
      rewrite map_size_delete. destruct Hold as [ts ->]. cbn.
      unfold MAX_TRACKED_IPS in *. lia.
  - rewrite dom_insert_L. intros ip'. rewrite !elem_of_union, elem_of_dom. intros [Heq|[ts Hts]]; [by right|].
    destruct (decide (ip' = ip)) as [->|Hne]; [right; set_solver|]. left. apply Hdom, elem_of_dom.
    exists ts. by apply Hsub.
  - intros ip' ts. destruct (decide (ip' = ip)) as [->|Hne].
    + rewrite lookup_insert_eq. intros [= <-]. apply tracked_snoc.
      destruct (m !! ip) as [ts|] eqn:Hip; [by apply Hsound|]. exists (failures_of ops ip).
      by rewrite app_nil_r.
    + rewrite lookup_insert_ne by done. intros Hts.
      by apply (proj1 (tracked_weaken ops _ ip' ts (Hother ip' Hne))), Hsound, Hsub.
  - intros Hn ip'.
    assert (Hle : Z.of_nat (size (failed_ips ops)) ≤ MAX_TRACKED_IPS).
    { assert (failed_ips ops ⊆ failed_ips ops ∪ {[ip]}) as ?%subseteq_size by set_solver. lia. }
    assert (map' = m) as ->.
    { destruct Hev as [[-> _]|(old & _ & _ & _ & Hcap & Hip)]; [done|]. exfalso.
      assert (dom m ∪ {[ip]} ⊆ failed_ips ops ∪ {[ip]}) as Hsz%subseteq_size by set_solver.
      rewrite size_union in Hsz by (apply not_elem_of_dom in Hip; set_solver).
      rewrite size_singleton, size_dom in Hsz. lia. }
    destruct (decide (ip' = ip)) as [->|Hne].
    + rewrite lookup_insert_eq. cbn. apply tracked_snoc, Hexact, Hle.
    + rewrite lookup_insert_ne by done.
      by apply (proj2 (tracked_weaken ops _ ip' _ (Hother ip' Hne))), Hexact.
Qed.

Lemma limit_inv_run ops : max_failures ≠ 0 → limit_inv ops.
Proof.
  intros Hm. induction ops as [|op ops IH] using rev_ind.
  { split; [done|set_solver|done|]. intros _ ip. exists []. split; [done|constructor]. }
  destruct op; [by apply limit_inv_check|by apply limit_inv_fail].
Qed.

Lemma failures_sublist ops ip : failures_of ops ip `sublist_of` (limit_time <$> ops).
Proof.
  unfold failures_of. induction ops as [|op ops IH]; cbn; [done|].
  destruct op as [now ip'|now ip']; cbn; [by constructor|]. case_bool_decide; by constructor.
Qed.

Lemma failures_sorted ops now ip :
  StronglySorted Z.le ((limit_time <$> ops) ++ [now]) →
  StronglySorted Z.le (failures_of ops ip) ∧ ∀ op, op ∈ ops → limit_time op ≤ now.
Proof.
  intros Hs. split.
  - eapply StronglySorted_sublist; [|exact Hs]. etrans; [apply failures_sublist|]. by apply sublist_inserts_r.
  - intros op Hin. apply StronglySorted_app in Hs as (Hall & _ & _).
    apply Hall; [by apply list_elem_of_fmap_2|set_solver].
Qed.

(** The limiter of failed attempts, along any history whose clock does not go back:
    it tracks at most 10,000 addresses; it blocks an address only when its failures
    within the window have reached the maximum; and as long as at most 10,000 addresses
    have failed it blocks every such address. *)
Theorem limiter_exact ops now ip
    (Hmax : max_failures ≠ 0) (Hclock : StronglySorted Z.le ((limit_time <$> ops) ++ [now])) :
  let r := (AuthRateLimiter.check now (limit_run ops) ip).2 in
  let count := Z.of_nat (length (recent (now - from_secs window_seconds) (failures_of ops ip))) in
  Z.of_nat (size (AuthRateLimiter.failures (limit_run ops))) ≤ MAX_TRACKED_IPS
  ∧ (r = Err AuthError.RateLimited → max_failures ≤ count)
  ∧ (Z.of_nat (size (failed_ips ops)) ≤ MAX_TRACKED_IPS → 0 < max_failures →
     max_failures ≤ count → r = Err AuthError.RateLimited).
Proof.
  destruct (limit_inv_run ops Hmax) as [Hsize _ Hsound Hexact].
  destruct (limit_params ops) as [Hm Hw]. destruct (failures_sorted ops now ip Hclock) as [Hsorted Hle].
  cbv zeta. set (cutoff := now - from_secs window_seconds). split; [done|].
  assert (Hr : (AuthRateLimiter.check now (limit_run ops) ip).2 =
    if max_failures <=? Z.of_nat (length (recent cutoff
         (default [] (AuthRateLimiter.failures (limit_run ops) !! ip))))
    then match AuthRateLimiter.failures (limit_run ops) !! ip with
         | Some _ => Err AuthError.RateLimited
         | None => Ok tt
         end
    else Ok tt).
  { unfold AuthRateLimiter.check. rewrite Hm, Hw. rewrite (proj2 (Z.eqb_neq _ _)) by done.
    destruct (AuthRateLimiter.failures (limit_run ops) !! ip) as [ts|] eqn:Hip; cbn; [|by case_match].
    rewrite Hm, pop_before_recent; [done|]. destruct (Hsound _ _ Hip) as [d Hd].
    eapply StronglySorted_sublist; [|exact Hsorted]. rewrite Hd. by apply sublist_inserts_l. }
  rewrite Hr. split.
  - intros Hlim. destruct (AuthRateLimiter.failures (limit_run ops) !! ip) as [ts|] eqn:Hip; [|by case_match].
    destruct (Z.leb_spec max_failures (Z.of_nat (length (recent cutoff (default [] (Some ts))))));
      [|done]. destruct (Hsound _ _ Hip) as [d ->]. unfold recent in *. rewrite filter_app, length_app.
    cbn in *. lia.
  - intros Hn Hpos Hcount. destruct (Hexact Hn ip) as (d & Hd & Hold).
    assert (Hnil : recent cutoff d = []).
    { apply list_filter_none. intros t Ht. rewrite Forall_forall in Hold.
      destruct (Hold t Ht) as (op & Hin & Hlt). specialize (Hle op Hin). unfold cutoff. lia. }
    rewrite Hd in Hcount. unfold recent in *. rewrite filter_app, Hnil in Hcount. cbn in Hcount.
    rewrite (proj2 (Z.leb_le _ _)) by done.
    destruct (AuthRateLimiter.failures (limit_run ops) !! ip) as [ts|]; [done|]. cbn in Hcount. lia.
Qed.
(** At capacity, one failure from an address not tracked yet unblocks the address whose
    last failure is the oldest, whatever its number of failures. *)
Lemma eviction_unblocks s now now' ip ip' ts :
  AuthRateLimiter.max_failures s ≠ 0 →
  MAX_TRACKED_IPS ≤ Z.of_nat (size (AuthRateLimiter.failures s)) →
  AuthRateLimiter.failures s !! ip' = None →
  AuthRateLimiter.failures s !! ip = Some ts →
  (∀ ip2 ts2, ip2 ≠ ip → AuthRateLimiter.failures s !! ip2 = Some ts2 →
     default now (last ts) < default now (last ts2)) →
  (AuthRateLimiter.check now' (AuthRateLimiter.record_failure now s ip') ip).2 = Ok tt.
Proof.
  intros Hm%Z.eqb_neq Hcap Hnew Hip Hold. assert (ip' ≠ ip) by congruence.
  unfold AuthRateLimiter.check, AuthRateLimiter.record_failure. rewrite Hm. cbn. rewrite Hm, Hnew.
  rewrite (proj2 (Z.leb_le _ _)) by done. rewrite bool_decide_true by done. cbn [andb].
  set (key := λ kv : string * list Z, default now (last kv.2)).
  assert (Hin : (ip, ts) ∈ hash_iter (AuthRateLimiter.failures s)) by (by apply elem_of_hash_iter).
  destruct (min_by_key_least key _ _ Hin) as ([ip2 ts2] & -> & Hin2%elem_of_hash_iter & Hle).
  destruct (decide (ip2 = ip)) as [->|Hne]; [|specialize (Hold ip2 ts2 Hne Hin2); cbn in Hle; lia].
  by rewrite lookup_insert_ne, lookup_delete_eq.
Qed.
End Limiter.

Lemma limiter_exact_witness :
  let H := canonical_order in
  (AuthRateLimiter.check 61000000000 (limit_run 2 60
     [FailIp 500000000 "10.0.0.1"; FailIp 2000000000 "10.0.0.1"; CheckIp 3000000000 "10.0.0.2";
      FailIp 60000000000 "10.0.0.1"]) "10.0.0.1").2 = Err AuthError.RateLimited.
Proof.
  intros H.
  set (ops := [FailIp 500000000 "10.0.0.1"; FailIp 2000000000 "10.0.0.1";
    CheckIp 3000000000 "10.0.0.2"; FailIp 60000000000 "10.0.0.1"]).
  assert (Hs : StronglySorted Z.le ((limit_time <$> ops) ++ [61000000000])).
  { repeat constructor; cbn; lia. }
  apply (limiter_exact 2 60 ops 61000000000 "10.0.0.1" ltac:(lia) Hs); vm_compute; congruence.
Defined.
