(* ===== verification/Runtime.v ===== *)
(** * The runtime (wacp-runtime: init.rs, agent_service.rs, highway_service.rs,
    coordinator_service.rs)

    The process that owns the coordinator, the gate controller, the trail index and the
    checkpoint store, and serves the agent, highway and coordinator services.  A request
    handler takes the runtime and a request and returns the runtime and the answer sent
    on the reply channel.  A subscriber is the bounded channel behind a streaming call;
    [try_send] on it fails when it is full or its receiver is gone.  Messages to actors
    are appended to outboxes, as in [Orchestrator].  SHA-256, the text serde_json prints
    and the checkpoint store are parameters; the clock is an argument. *)

From S2P Require Import Prelude Types Std Float Proto Fsm Tree TaskGraph Gate Workspace Integration.
From S2P Require Import Migration Orchestrator Trail Index Stores Config.

(** ** Channels of streaming calls *)

Module Sub.
Record t (A : Type) : Type := mk { capacity : nat; queue : list A; closed : bool }.
Arguments mk {A}.
Arguments capacity {A}.
Arguments queue {A}.
Arguments closed {A}.

Definition try_send {A} (x : A) (tx : t A) : option (t A) :=
  if closed tx || (capacity tx <=? length (queue tx))%nat then None
  else Some (mk (capacity tx) (queue tx ++ [x]) (closed tx)).

(** [subs.retain(|tx| tx.try_send(x.clone()).is_ok())] *)
Definition retain {A} (x : A) (subs : list (t A)) : list (t A) := omap (try_send x) subs.
End Sub.

(** ** Parameters *)

(** The trait of the checkpoint stores. *)
Class CheckpointStorage (S : Type) : Type := {
  cs_store : S → bytes → bytes → S * result bool StorageError;
  cs_read : S → bytes → result (option bytes) StorageError;
}.

#[global] Instance in_memory_checkpoints : CheckpointStorage InMemoryCheckpointStorage.t := {|
  cs_store self h p := let '(self, b) := InMemoryCheckpointStorage.store self h p in (self, Ok b);
  cs_read self h := Ok (InMemoryCheckpointStorage.read self h);
|}.

Definition file_checkpoints (sha256 : bytes → bytes) : CheckpointStorage FileCheckpointStorage.t := {|
  cs_store self h p := FileCheckpointStorage.store self None h p;
  cs_read := FileCheckpointStorage.read sha256;
|}.

(** The text of [serde_json::json!] objects. *)
Inductive JsonField := JString (s : string) | JNull | JNumber (n : Z).

Definition json_opt (s : option string) : JsonField := match s with Some s => JString s | None => JNull end.

Class JsonText : Type := json_text : list (string * JsonField) → bytes.

(** ** Requests and answers *)

Module EmitSignalRequest.
Record t : Type := mk { type : Z; reason : string; context : list Z; client_request_id : string }.
End EmitSignalRequest.

Module SendEnvelopeRequest.
Record t : Type := mk {
  to_workspace : string; type : string; payload : list Z; in_reply_to : string; priority : Z;
  client_request_id : string;
}.
End SendEnvelopeRequest.

Module CreateCheckpointRequest.
Record t : Type := mk {
  type : string; payload : list Z; intent : string; status : Z; confidence : Z;
  resource_usage : option ResourceUsage; client_request_id : string;
}.
End CreateCheckpointRequest.

(** The bounds in time of a trail query are not read. *)
Module QueryTrailRequest.
Record t : Type := mk {
  workspace_id : string; event_type : string; actor : string; limit : Z; client_request_id : string;
}.
End QueryTrailRequest.

Module InjectEnvelopeRequest.
Record t : Type := mk {
  to_workspace : string; type : string; payload : list Z; priority : Z; client_request_id : string;
}.
End InjectEnvelopeRequest.

Module GateResponse.
Record t : Type := mk { gate_id : string; decision : Z; modifications : list Z; client_request_id : string }.
End GateResponse.

Module EscalationResponse.
Inductive Action : Type :=
| Feedback (envelope : ProtoEnvelope.t)
| AbortAction (b : bool)
| DelegateToCoordinator (b : bool).
Record t : Type := mk { escalation_id : string; action : option Action; client_request_id : string }.
End EscalationResponse.

Module BindResponse.
Record t : Type := mk {
  workspace_id : string; state : Z; role : string; directive : option ProtoEnvelope.t; context : list Z;
  visibility : list string; authority : list string; budget : option ProtoResourceBudget.t;
}.
End BindResponse.

Module ProtoTask.
Record t : Type := mk {
  id : string; name : string; description : string; depends_on : list string; parent_task : string;
  status : Z; workspace_ref : string; workspace_history : list string; checkpoint_ref : string;
}.
End ProtoTask.

Module ProtoTaskView.
Record t : Type := mk {
  task_id : string; name : string; description : string; status : Z; assigned_workspace : string;
  depends_on : list string;
}.
End ProtoTaskView.

Module CheckpointRecord.
Record t : Type := mk {
  content_hash : bytes; workspace_id : string; checkpoint_type : string; intent : string; status : Z;
  confidence : Z; resource_usage : option ResourceUsage;
}.
End CheckpointRecord.

Module WorkspaceSummaryItem.
Record t : Type := mk { id : string; parent_id : string; state : Z; owner : string; task_id : string }.
End WorkspaceSummaryItem.

Definition not_found (message : string) : Status.t := Status.mk Code.NotFound message.
Definition unavailable (message : string) : Status.t := Status.mk Code.Unavailable message.

(** ** The runtime *)

Definition signal_debug (s : SignalType.t) : string :=
  match s with
  | SignalType.Ready => "Ready" | SignalType.Started => "Started" | SignalType.Blocked => "Blocked"
  | SignalType.Checkpoint => "Checkpoint" | SignalType.Complete => "Complete"
  | SignalType.Failed => "Failed" | SignalType.Integrate => "Integrate"
  | SignalType.Acknowledged => "Acknowledged" | SignalType.Escalation => "Escalation"
  | SignalType.Suspend => "Suspend" | SignalType.Migrate => "Migrate"
  end.

Definition checkpoint_status_debug (s : CheckpointStatus.t) : string :=
  match s with CheckpointStatus.Provisional => "Provisional" | CheckpointStatus.Final => "Final" end.

(** The text of the trigger sent with a state change. *)
Definition change_trigger (from to : WorkspaceState.t) : string :=
  match to with
  | WorkspaceState.Active =>
      match from with
      | WorkspaceState.Idle => "dispatched"
      | WorkspaceState.Suspended => "resumed"
      | _ => "activated"
      end
  | WorkspaceState.Suspended => "suspended"
  | WorkspaceState.Blocked => "blocked"
  | WorkspaceState.Migrating => "migrating"
  | WorkspaceState.Integrating => "integrating"
  | WorkspaceState.Conflicted => "conflicted"
  | WorkspaceState.Closed => "closed"
  | WorkspaceState.Failed => "failed"
  | WorkspaceState.Idle => "reset"
  end.

Definition opt_str (s : string) : option string := if is_empty s then None else Some s.

Definition to_priority (p : Z) : EnvelopePriority.t :=
  if p =? 2 then EnvelopePriority.Urgent
  else if p =? 3 then EnvelopePriority.Blocking
  else EnvelopePriority.Normal.

Module Runtime.
(** The taxonomy, the vertical manifests and the permission engine are read by no
    handler and are left out. *)
Record t {S : Type} : Type := mk {
  config : RuntimeConfig.t;
  coordinator : Coordinator.t;
  agent_outbox : list (WorkspaceId * AgentMessage);
  signal_subs : list (Sub.t ProtoSignalEvent.t);
  ws_change_subs : list (Sub.t ProtoWorkspaceStateChange.t);
  trail_subs : list (Sub.t ProtoTrailEntry.t);
  gate_subs : list (Sub.t ProtoGateEvent.t);
  escalation_subs : list (Sub.t ProtoEscalationEvent.t);
  envelope_subs : gmap string (list (Sub.t ProtoEnvelope.t));
  command_subs : gmap string (list (Sub.t ProtoEnvelope.t));
  checkpoint_storage : S;
  checkpoint_index : gmap string CheckpointRecord.t;
  trail_index : TrailIndex.t;
  gate_controller : GateController.t;
  escalation_index : gmap string string;
  workspace_timestamps : gmap string (Z * Z);
  workspace_configs : gmap string WorkspaceConfig;
  next_goal_id : Z;
  next_workspace_id : Z;
  next_envelope_id : Z;
  next_checkpoint_id : Z;
  stream_seq : Z;
}.
Arguments t : clear implicits.

#[global] Instance eta_t {S} : Settable (t S) := λ r,
  mk S (config r) (coordinator r) (agent_outbox r) (signal_subs r) (ws_change_subs r) (trail_subs r)
    (gate_subs r) (escalation_subs r) (envelope_subs r) (command_subs r) (checkpoint_storage r)
    (checkpoint_index r) (trail_index r) (gate_controller r) (escalation_index r)
    (workspace_timestamps r) (workspace_configs r) (next_goal_id r) (next_workspace_id r)
    (next_envelope_id r) (next_checkpoint_id r) (stream_seq r).

Section Operations.
Context {S : Type} `{CheckpointStorage S} `{JsonText} `{HashOrder} (sha256 : bytes → bytes).
Implicit Types self : t S.

(** The state [init] builds over the stores it opened.  What the index file holds is
    what earlier processes inserted. *)
Definition init (config : RuntimeConfig.t) (storage : S) (index : TrailIndex.t) : t S :=
  mk S config (Coordinator.new "ws-root" "system") [] [] [] [] [] [] ∅ ∅ storage ∅ index
    (GateController.new 30000 GateFallback.AutoApprove) ∅ ∅ ∅ 0 0 0 0 0.

Definition record_workspace_created (now : Z) self (ws_id : string) : t S :=
  self <| workspace_timestamps ::= <[ws_id := (now, now)]> |>.

Definition touch_workspace (now : Z) self (ws_id : string) : t S :=
  match workspace_timestamps self !! ws_id with
  | Some (created, _) => self <| workspace_timestamps ::= <[ws_id := (created, now)]> |>
  | None => self
  end.

Definition emit_trail_entry self (workspace_id event_type : string) (body : bytes) : t S :=
  let seq := wrap64 (stream_seq self + 1) in
  let index_entry := {|
    ie_sequence_number := seq; ie_timestamp_bytes := replicate 10 0; ie_workspace_id := opt_str workspace_id;
    ie_actor := "protocol"; ie_event_type := event_type; ie_segment_id := 0; ie_offset := 0;
    ie_length := wrap32 (Z.of_nat (length body)) |} in
  let entry := ProtoTrailEntry.mk (format_id "te-" seq) None workspace_id "protocol" event_type body seq [] in
  self <| stream_seq := seq |>
       <| trail_index ::= λ idx, (TrailIndex.insert idx index_entry).1 |>
       <| trail_subs ::= Sub.retain entry |>.

(** The escalation part of a signal. *)
Definition fan_out_escalation self (signal : Signal) : t S :=
  let ws := sig_workspace_id signal in
  let owner := default "" (node_owner <$> WorkspaceTree.get (Coordinator.tree (coordinator self)) ws) in
  let seq := wrap64 (stream_seq self + 1) in
  let esc_id := format_id "esc-" seq in
  let ev := ProtoEscalationEvent.mk esc_id ws owner (default [] (sig_context signal)) None in
  self <| stream_seq := seq |>
       <| escalation_index ::= <[esc_id := ws]> |>
       <| escalation_subs ::= Sub.retain ev |>.

Definition fan_out_event self (event : WorkspaceEvent) : t S :=
  match event with
  | EvSignal signal =>
      let ws := sig_workspace_id signal in
      let ev := ProtoSignalEvent.mk ws (to_i32 (signal_type_to_proto (sig_signal_type signal)))
                  (default "" (sig_reason signal)) (default [] (sig_context signal)) (sig_timestamp signal) in
      let self := self <| signal_subs ::= Sub.retain ev |> in
      let self := if decide (sig_signal_type signal = SignalType.Escalation)
                  then fan_out_escalation self signal else self in
      emit_trail_entry self ws "signal"
        (json_text [("signal_type", JString (signal_debug (sig_signal_type signal)));
                    ("reason", json_opt (sig_reason signal))])
  | StateChanged workspace_id from to =>
      let ev := ProtoWorkspaceStateChange.mk workspace_id (to_i32 (workspace_state_to_proto from))
                  (to_i32 (workspace_state_to_proto to)) (change_trigger from to) None in
      emit_trail_entry (self <| ws_change_subs ::= Sub.retain ev |>) workspace_id "state_changed"
        (json_text [("from", JString (WorkspaceState.debug from)); ("to", JString (WorkspaceState.debug to))])
  | CheckpointCreated cp =>
      emit_trail_entry self (cp_workspace_id cp) "checkpoint_created"
        (json_text [("checkpoint_id", JString (cp_id cp)); ("checkpoint_type", JString (cp_checkpoint_type cp));
                    ("content_hash", JString (cp_content_hash cp)); ("intent", JString (cp_intent cp));
                    ("status", JString (checkpoint_status_debug (cp_status cp)))])
  | Terminated archived =>
      let ev := ProtoWorkspaceStateChange.mk (aw_id archived) 0
                  (to_i32 (workspace_state_to_proto (aw_terminal_state archived))) "terminated" None in
      let self := emit_trail_entry (self <| ws_change_subs ::= Sub.retain ev |>) (aw_id archived) "terminated"
        (json_text [("terminal_state", JString (WorkspaceState.debug (aw_terminal_state archived)));
                    ("checkpoints", JNumber (Z.of_nat (length (aw_checkpoints archived))))]) in
      self <| workspace_configs ::= delete (aw_id archived) |>
  | EvError workspace_id message =>
      emit_trail_entry self workspace_id "error" (json_text [("message", JString message)])
  | EvMigrationSnapshot workspace_id _ => emit_trail_entry self workspace_id "migration_snapshot" []
  end.

(** The arm of the event loop for a workspace event; [None] is exhausted fuel of the
    failure cascade. *)
Definition on_workspace_event (now : Z) self (event : WorkspaceEvent) : option (t S) :=
  let self := match event with
              | EvSignal s => touch_workspace now self (sig_workspace_id s)
              | StateChanged workspace_id _ _ => touch_workspace now self workspace_id
              | Terminated archived => touch_workspace now self (aw_id archived)
              | _ => self
              end in
  c ← Coordinator.handle_event (coordinator self) event;
  Some (fan_out_event (self <| coordinator := c |>) event).

(** The limit is 100 when the request leaves it at zero. *)
Definition query_trail_index self (workspace_id event_type actor : option string) (limit : Z) :
    list ProtoTrailEntry.t * bool :=
  let r := TrailIndex.query (trail_index self)
    {| tq_workspace_id := workspace_id; tq_event_type := event_type; tq_actor := actor;
       tq_from_timestamp := None; tq_to_timestamp := None;
       tq_limit := if limit =? 0 then 100 else limit |} in
  ((λ ie, ProtoTrailEntry.mk (format_id "te-" (ie_sequence_number ie)) None (default "" (ie_workspace_id ie))
            (ie_actor ie) (ie_event_type ie) [] (ie_sequence_number ie) []) <$> qr_entries r,
   qr_has_more r).

Definition notify_envelope_subs self (to_workspace : string) (envelope : Envelope) : t S :=
  match envelope_subs self !! to_workspace with
  | Some subs => self <| envelope_subs ::= <[to_workspace := Sub.retain (envelope_to_proto envelope) subs]> |>
  | None => self
  end.

(** The payload of the command is dropped. *)
Definition notify_command_subs self (workspace_id command_type : string) : t S :=
  match command_subs self !! workspace_id with
  | Some subs =>
      let cmd := ProtoEnvelope.mk "" "" workspace_id command_type [] "" None 0 0 in
      self <| command_subs ::= <[workspace_id := Sub.retain cmd subs]> |>
  | None => self
  end.

(** Notifies the subscribers, then routes. *)
Definition deliver_envelope self (ws_id : WorkspaceId) (envelope : Envelope) : t S * bool :=
  let self := notify_envelope_subs self ws_id envelope in
  let '(c, sent) := Coordinator.route_envelope (coordinator self) ws_id envelope in
  (self <| coordinator := c |>, sent).

Definition take_envelope_id self : t S * EnvelopeId :=
  (self <| next_envelope_id ::= λ n, wrap64 (n + 1) |>, format_id "env-" (next_envelope_id self)).

(** [handle.agent_tx.send(msg).await.is_ok()] *)
Definition send_agent self (handle : WorkspaceHandle) (msg : AgentMessage) : t S * bool :=
  if wh_open handle then (self <| agent_outbox ::= λ l, l ++ [(wh_id handle, msg)] |>, true)
  else (self, false).

(** *** The agent service *)

Definition handle_bind self (workspace_id auth_token : string) : result BindResponse.t Status.t :=
  match WorkspaceTree.get (Coordinator.tree (coordinator self)) workspace_id with
  | Some node =>
      let cfg := workspace_configs self !! workspace_id in
      Ok (BindResponse.mk workspace_id (to_i32 (workspace_state_to_proto (node_status node)))
            (default "" (wc_role <$> cfg)) (envelope_to_proto ∘ wc_directive <$> cfg)
            (default [] (wc_context <$> cfg)) (default [] (set_iter ∘ wc_visibility <$> cfg))
            (default [] (set_iter ∘ wc_authority <$> cfg)) (cfg ≫= λ c, budget_to_proto <$> wc_budget c))
  | None => Err (not_found "workspace not found")
  end.

(** The answer carries back the request id. *)
Definition handle_emit_signal self (workspace_id : string) (request : EmitSignalRequest.t) :
    t S * result string Status.t :=
  match try_from ProtoSignalType.t (EmitSignalRequest.type request) with
  | None =>
      (self, Err (Status.mk Code.InvalidArgument
        ("unknown SignalType discriminant: " +:+ pretty (EmitSignalRequest.type request))))
  | Some ty =>
      match Coordinator.handle (coordinator self) workspace_id with
      | None => (self, Err (not_found ("workspace '" +:+ workspace_id +:+ "' not running")))
      | Some handle =>
          let context := EmitSignalRequest.context request in
          let '(self, sent) := send_agent self handle
            (EmitSignal (proto_to_signal_type ty) (opt_str (EmitSignalRequest.reason request))
               (match context with [] => None | _ => Some context end)) in
          (self, if sent then Ok (EmitSignalRequest.client_request_id request)
                 else Err (unavailable ("workspace '" +:+ workspace_id +:+ "' actor channel closed")))
      end
  end.

(** The answer is the envelope id and the request id. *)
Definition handle_send_envelope self (workspace_id : string) (request : SendEnvelopeRequest.t) :
    t S * result (EnvelopeId * string) Status.t :=
  let to_ws := SendEnvelopeRequest.to_workspace request in
  match WorkspaceTree.get (Coordinator.tree (coordinator self)) to_ws with
  | None => (self, Err (not_found ("target workspace '" +:+ to_ws +:+ "' not found")))
  | Some _ =>
      let '(self, id) := take_envelope_id self in
      let envelope := {|
        env_id := id; env_from_workspace := workspace_id; env_to_workspace := to_ws;
        env_envelope_type := SendEnvelopeRequest.type request;
        env_payload := SendEnvelopeRequest.payload request;
        env_in_reply_to := opt_str (SendEnvelopeRequest.in_reply_to request); env_timestamp := 0;
        env_priority := to_priority (SendEnvelopeRequest.priority request);
        env_origin := EnvelopeOrigin.Agent; env_state := EnvelopeState.Created |} in
      let '(self, sent) := deliver_envelope self to_ws envelope in
      (self, if sent then Ok (id, SendEnvelopeRequest.client_request_id request)
             else Err (unavailable ("workspace '" +:+ to_ws +:+ "' is not running")))
  end.

(** The message forwarded to the actor. *)
Definition checkpoint_message (request : CreateCheckpointRequest.t) (hash_hex : string) : AgentMessage :=
  CreateCheckpoint (CreateCheckpointRequest.type request) (CreateCheckpointRequest.payload request) hash_hex
    (CreateCheckpointRequest.intent request)
    (default CheckpointStatus.Provisional
       (proto_to_checkpoint_status <$> try_from ProtoCheckpointStatus.t (CreateCheckpointRequest.status request)))
    (default Confidence.High
       (proto_to_confidence <$> try_from ProtoConfidence.t (CreateCheckpointRequest.confidence request)))
    (CreateCheckpointRequest.resource_usage request).

(** Opens a gate for a provisional checkpoint and announces it. *)
Definition open_gate_for self (ws_id : WorkspaceId) (checkpoint_id checkpoint_type : string) : t S :=
  let '(gates, ev) := GateController.open_checkpoint_gate (gate_controller self) ws_id checkpoint_id
                        checkpoint_type None None in
  let proto_ev := ProtoGateEvent.mk (ge_gate_id ev) (to_i32 (gate_type_to_proto (ge_gate_type ev)))
    (ge_subject ev) (ge_workspace_id ev) (default "" (ge_task_id ev)) (ge_timeout_ms ev)
    (ge_fallback_action ev) None in
  self <| gate_controller := gates |> <| gate_subs ::= Sub.retain proto_ev |>.

(** The answer is the checkpoint id, the content hash and the request id.  Failures of
    the store and of the actor's channel are logged and otherwise ignored. *)
Definition handle_create_checkpoint self (workspace_id : string) (request : CreateCheckpointRequest.t) :
    t S * (string * string * string) :=
  let hash := sha256 (CreateCheckpointRequest.payload request) in
  let hash_hex := hex_encode hash in
  let storage := (cs_store (checkpoint_storage self) hash (CreateCheckpointRequest.payload request)).1 in
  let checkpoint_id := format_id "cp-" (next_checkpoint_id self) in
  let record := CheckpointRecord.mk hash workspace_id (CreateCheckpointRequest.type request)
    (CreateCheckpointRequest.intent request) (CreateCheckpointRequest.status request)
    (CreateCheckpointRequest.confidence request) (CreateCheckpointRequest.resource_usage request) in
  let self := self <| checkpoint_storage := storage |> <| next_checkpoint_id ::= λ n, wrap64 (n + 1) |>
                   <| checkpoint_index ::= <[checkpoint_id := record]> |> in
  let self := match Coordinator.handle (coordinator self) workspace_id with
              | Some handle => (send_agent self handle (checkpoint_message request hash_hex)).1
              | None => self
              end in
  let self :=
    if (CreateCheckpointRequest.status request =? to_i32 ProtoCheckpointStatus.Provisional)
       && bool_decide (is_Some (WorkspaceTree.get (Coordinator.tree (coordinator self)) workspace_id))
    then open_gate_for self workspace_id checkpoint_id (CreateCheckpointRequest.type request)
    else self in
  (self, (checkpoint_id, hash_hex, CreateCheckpointRequest.client_request_id request)).

(** Both trail queries; the agent's has no actor filter. *)
Definition handle_query_trail self (request : QueryTrailRequest.t) :
    list ProtoTrailEntry.t * bool * string :=
  (query_trail_index self (opt_str (QueryTrailRequest.workspace_id request))
     (opt_str (QueryTrailRequest.event_type request)) (opt_str (QueryTrailRequest.actor request))
     (QueryTrailRequest.limit request),
   QueryTrailRequest.client_request_id request).

Definition storage_error_text (e : StorageError) : string :=
  match e with
  | Io m => "I/O error: " +:+ m
  | Corruption m => "corruption detected: " +:+ m
  | CapacityExceeded => "capacity exceeded"
  | SegmentNotFound n => "segment not found: " +:+ pretty (Z.to_N n)
  | NotFound => "not found"
  end.

Definition handle_read_resource self (resource_id : string) : result bytes Status.t :=
  match checkpoint_index self !! resource_id with
  | Some record =>
      match cs_read (checkpoint_storage self) (CheckpointRecord.content_hash record) with
      | Ok (Some data) => Ok data
      | Ok None => Err (not_found "resource content not found in storage")
      | Err e => Err (Status.mk Code.Internal ("storage error: " +:+ storage_error_text e))
      end
  | None => Err (not_found ("resource '" +:+ resource_id +:+ "' not found"))
  end.

(** *** The highway service *)

Definition handle_authenticate (auth_token : string) : result (string * list string) Status.t :=
  let token := trim (as_bytes auth_token) in
  let unauthenticated m := Status.mk Code.Unauthenticated m in
  if (length token =? 0)%nat then Err (unauthenticated "auth_token is required")
  else if (length token <? 8)%nat then Err (unauthenticated "auth_token too short (minimum 8 characters)")
  else Ok ("user-" +:+ hex_encode (take 8 (sha256 token)), ["observe"; "inject"; "gate"]).

Definition task_to_proto (task : Task) : ProtoTask.t :=
  ProtoTask.mk (task_id task) (task_name task) (task_description task) (task_depends_on task)
    (default "" (task_parent_task task)) (to_i32 (task_status_to_proto (task_status task)))
    (default "" (task_workspace_ref task)) (task_workspace_history task)
    (default "" (task_checkpoint_ref task)).

(** The loop over the queue; [None] is exhausted fuel. *)
Fixpoint walk_tasks (fuel : nat) (g : TaskGraph.t) (visited : gset string) (queue : list TaskId)
    (tasks : list ProtoTask.t) : option (list ProtoTask.t) :=
  match queue with
  | [] => Some tasks
  | tid :: queue =>
      match fuel with
      | O => None
      | Datatypes.S fuel =>
          if decide (tid ∈ visited) then walk_tasks fuel g visited queue tasks
          else
            match TaskGraph.get g tid with
            | Some task =>
                walk_tasks fuel g ({[tid]} ∪ visited) (queue ++ TaskGraph.dependents g tid)
                  (tasks ++ [task_to_proto task])
            | None => walk_tasks fuel g ({[tid]} ∪ visited) queue tasks
            end
      end
  end.

Definition handle_get_task_graph (fuel : nat) self : option (list ProtoTask.t) :=
  let g := Coordinator.task_graph (coordinator self) in
  walk_tasks fuel g ∅ (TaskGraph.roots g) [].

Definition handle_inject_envelope self (request : InjectEnvelopeRequest.t) :
    t S * result (EnvelopeId * string) Status.t :=
  let to_ws := InjectEnvelopeRequest.to_workspace request in
  match WorkspaceTree.get (Coordinator.tree (coordinator self)) to_ws with
  | None => (self, Err (not_found ("target workspace '" +:+ to_ws +:+ "' not found")))
  | Some _ =>
      let '(self, id) := take_envelope_id self in
      let envelope := {|
        env_id := id; env_from_workspace := "highway"; env_to_workspace := to_ws;
        env_envelope_type := InjectEnvelopeRequest.type request;
        env_payload := InjectEnvelopeRequest.payload request; env_in_reply_to := None; env_timestamp := 0;
        env_priority := to_priority (InjectEnvelopeRequest.priority request);
        env_origin := EnvelopeOrigin.Human; env_state := EnvelopeState.Created |} in
      let '(self, sent) := deliver_envelope self to_ws envelope in
      (self, if sent then Ok (id, InjectEnvelopeRequest.client_request_id request)
             else Err (unavailable ("workspace '" +:+ to_ws +:+ "' is not running")))
  end.

(** Any number but 2 and 3 approves. *)
Definition to_decision (d : Z) : GateDecision.t :=
  if d =? 2 then GateDecision.Reject else if d =? 3 then GateDecision.Modify else GateDecision.Approve.

Definition checkpoint_command (decision : GateDecision.t) (checkpoint_id : string) : CoordinatorCommand :=
  match decision with
  | GateDecision.Approve | GateDecision.Modify => CheckpointApproved checkpoint_id
  | GateDecision.Reject => CheckpointRejected checkpoint_id
  end.

(** The answer says whether the decision was applied; the ids come back with it. *)
Definition handle_respond_to_gate self (request : GateResponse.t) : t S * bool :=
  let gate_id := GateResponse.gate_id request in
  let decision := to_decision (GateResponse.decision request) in
  match GateController.resolve_checkpoint (gate_controller self) gate_id with
  | (gates, Some cp_gate) =>
      let self := self <| gate_controller := gates |> in
      let '(c, applied) := Coordinator.send_to (coordinator self) (pcg_workspace_id cp_gate)
                             (checkpoint_command decision (pcg_checkpoint_id cp_gate)) in
      (self <| coordinator := c |>, applied)
  | (gates, None) =>
      let '(gates, resolution) := GateController.resolve gates gate_id decision in
      (self <| gate_controller := gates |>, bool_decide (is_Some resolution))
  end.

Definition handle_respond_to_escalation self (request : EscalationResponse.t) : t S * bool :=
  let id := EscalationResponse.escalation_id request in
  let entry := escalation_index self !! id in
  let self := self <| escalation_index ::= delete id |> in
  match entry with
  | None => (self, false)
  | Some ws_id =>
      match EscalationResponse.action request with
      | Some (EscalationResponse.Feedback env) =>
          let '(self, id) := take_envelope_id self in
          deliver_envelope self ws_id {|
            env_id := id; env_from_workspace := "highway"; env_to_workspace := ws_id;
            env_envelope_type := ProtoEnvelope.type env; env_payload := ProtoEnvelope.payload env;
            env_in_reply_to := None; env_timestamp := 0; env_priority := EnvelopePriority.Normal;
            env_origin := EnvelopeOrigin.Human; env_state := EnvelopeState.Created |}
      | Some (EscalationResponse.AbortAction true) =>
          let '(c, sent) := Coordinator.abort_workspace (coordinator self) ws_id in
          (self <| coordinator := c |>, sent)
      | Some (EscalationResponse.DelegateToCoordinator true) => (self, true)
      | _ => (self, false)
      end
  end.

Definition configured_budget self : ProtoResourceBudget.t :=
  let resources := RuntimeConfig.resources (config self) in
  let b := ResourceConfig.default_budget resources in
  ProtoResourceBudget.mk (BudgetConfig.max_tokens b) (BudgetConfig.max_wall_time_ms b)
    (BudgetConfig.max_storage_bytes b) (BudgetConfig.max_network_bytes b) (BudgetConfig.max_cost_micros b)
    (ResourceConfig.warning_threshold resources).

(** The role of the view is the owner of the node. *)
Definition handle_get_workspace self (workspace_id : string) : result ProtoWorkspaceView.t Status.t :=
  match WorkspaceTree.get (Coordinator.tree (coordinator self)) workspace_id with
  | None => Err (not_found "workspace not found")
  | Some node =>
      let times := workspace_timestamps self !! workspace_id in
      let stamp us := ProtoTimestamp.mk us 0 in
      Ok (ProtoWorkspaceView.mk (node_id node) (to_i32 (workspace_state_to_proto (node_status node)))
            (node_owner node) (default "" (node_parent node)) (node_owner node)
            (match node_originator node with Originator.System => "system" | Originator.User uid => uid end)
            (default "" (node_task_id node)) (Some ResourceUsage_default) (Some (configured_budget self))
            (wrap32 (Z.of_nat (length (filter (λ r, CheckpointRecord.workspace_id r = workspace_id)
                                         (values (checkpoint_index self))))))
            (stamp ∘ fst <$> times) (stamp ∘ snd <$> times))
  end.

(** The answer is the record, the hexadecimal hash and the payload. *)
Definition handle_get_checkpoint self (checkpoint_id : string) :
    result (CheckpointRecord.t * string * bytes) Status.t :=
  match checkpoint_index self !! checkpoint_id with
  | Some record =>
      match cs_read (checkpoint_storage self) (CheckpointRecord.content_hash record) with
      | Ok (Some payload) => Ok (record, hex_encode (CheckpointRecord.content_hash record), payload)
      | Ok None => Err (not_found "checkpoint blob missing from store")
      | Err e => Err (Status.mk Code.Internal ("checkpoint read error: " +:+ storage_error_text e))
      end
  | None => Err (not_found ("checkpoint '" +:+ checkpoint_id +:+ "' not found"))
  end.

Definition handle_list_workspaces self (parent_id : option string) : list WorkspaceSummaryItem.t :=
  let tree := Coordinator.tree (coordinator self) in
  omap (λ ws_id,
    node ← WorkspaceTree.get tree ws_id;
    if decide (parent_id = None ∨ node_parent node = parent_id)
    then Some (WorkspaceSummaryItem.mk ws_id (default "" (node_parent node))
                 (to_i32 (workspace_state_to_proto (node_status node))) (node_owner node)
                 (default "" (node_task_id node)))
    else None) (WorkspaceTree.active_workspaces tree).

(** *** The coordinator service *)

Definition with_graph (g : TaskGraph.t) (c : Coordinator.t) : Coordinator.t :=
  Coordinator.Mk (Coordinator.tree c) g (Coordinator.migration c) (Coordinator.workspace_handles c)
    (Coordinator.last_checkpoint c) (Coordinator.outbox c).

Definition new_task (id name description : string) (depends_on : list TaskId) : Task := {|
  task_id := id; task_name := name; task_description := description; task_depends_on := depends_on;
  task_parent_task := None; task_status := TaskStatus.Draft; task_workspace_ref := None;
  task_workspace_history := []; task_checkpoint_ref := None |}.

Definition workspace_config self (ws_id role : string) (directive_id : string) (payload : list Z) : WorkspaceConfig :=
  let root := WorkspaceTree.root (Coordinator.tree (coordinator self)) in {|
  wc_id := ws_id; wc_role := role; wc_base_role := BaseRole.Worker; wc_parent := root;
  wc_owner := "system"; wc_originator := Originator.System;
  wc_directive := {|
    env_id := directive_id; env_from_workspace := root; env_to_workspace := ws_id;
    env_envelope_type := "directive"; env_payload := payload; env_in_reply_to := None; env_timestamp := 0;
    env_priority := EnvelopePriority.Normal; env_origin := EnvelopeOrigin.Human;
    env_state := EnvelopeState.Created |};
  wc_context := []; wc_visibility := ∅; wc_authority := ∅; wc_delegate := false; wc_budget := None |}.

(** Caches the configuration, starts the workspace, and binds the task to it; the
    results of the task graph are ignored. *)
Definition start_workspace (now : Z) self (task_id : TaskId) (cfg : WorkspaceConfig) : t S :=
  let ws_id := wc_id cfg in
  let self := self <| workspace_configs ::= <[ws_id := cfg]> |> in
  let self := self <| coordinator ::= λ c, Coordinator.dispatch c {| dr_task_id := task_id; dr_config := cfg |} |> in
  let self := record_workspace_created now self ws_id in
  let g := (TaskGraph.bind (Coordinator.task_graph (coordinator self)) task_id ws_id).1 in
  let g := (TaskGraph.transition g task_id TaskTrigger.Assign).1 in
  self <| coordinator ::= with_graph g |>.

Definition graph_error_text (e : GraphError) : string :=
  match e with
  | DuplicateTask id => "task already exists: " +:+ id
  | TaskNotFound id => "task not found: " +:+ id
  | DependencyNotFound id => "dependency not found: " +:+ id
  | TaskAlreadyBound id => "task already bound: " +:+ id
  | WorkspaceAlreadyBound id => "workspace already bound: " +:+ id
  | GTransition e => "transition error: " +:+ transition_error_display e
  end.

(** The answer is the goal id and the root workspace. *)
Definition handle_submit_goal (now : Z) self (description : string) (context : list Z) :
    t S * result (string * WorkspaceId) Status.t :=
  let gid := next_goal_id self in
  let self := self <| next_goal_id := wrap64 (gid + 1) |> in
  let goal_id := format_id "goal-" gid in
  let task_id := "task-" +:+ goal_id in
  match TaskGraph.add_task (Coordinator.task_graph (coordinator self)) (new_task task_id description description []) with
  | (g, Err e) =>
      (self <| coordinator ::= with_graph g |>,
       Err (Status.mk Code.Internal ("task graph error: " +:+ graph_error_text e)))
  | (g, Ok _) =>
      let g := (TaskGraph.transition g task_id TaskTrigger.Approve).1 in
      let self := self <| coordinator ::= with_graph g |> in
      let ws_id := format_id "ws-" (next_workspace_id self) in
      let self := self <| next_workspace_id ::= λ n, wrap64 (n + 1) |> in
      let cfg := workspace_config self ws_id "worker" (format_id "env-goal-" gid) context in
      (start_workspace now self task_id cfg, Ok (goal_id, ws_id))
  end.

Definition handle_get_ready_tasks self : list ProtoTaskView.t :=
  let g := Coordinator.task_graph (coordinator self) in
  omap (λ tid,
    task ← TaskGraph.get g tid;
    Some (ProtoTaskView.mk (task_id task) (task_name task) (task_description task)
            (to_i32 (task_status_to_proto (task_status task))) (default "" (task_workspace_ref task))
            (task_depends_on task))) (TaskGraph.dispatchable g).

(** The budget and the tools of the request are not read. *)
Definition handle_dispatch (now : Z) self (request : DispatchRequest.t) :
    t S * result (WorkspaceId * TaskId) Status.t :=
  let task_id := DispatchRequest.task_id request in
  match TaskGraph.get (Coordinator.task_graph (coordinator self)) task_id with
  | None => (self, Err (not_found ("task '" +:+ task_id +:+ "' not found")))
  | Some _ =>
      let wsid := next_workspace_id self in
      let self := self <| next_workspace_id := wrap64 (wsid + 1) |> in
      let ws_id := format_id "ws-" wsid in
      let cfg := workspace_config self ws_id (DispatchRequest.role request) (format_id "env-dispatch-" wsid)
                   (DispatchRequest.directive_payload request) in
      (start_workspace now self task_id cfg, Ok (ws_id, task_id))
  end.

(** The answer does not depend on whether a workspace was told. *)
Definition handle_abort_workspace self (workspace_id : string) : t S :=
  self <| coordinator ::= λ c, (Coordinator.abort_workspace c workspace_id).1 |>.

(** A command to an actor, and the notification of its agents when it is sent. *)
Definition send_lifecycle self (workspace_id : string) (cmd : CoordinatorCommand) (command_type : string) :
    t S * result unit Status.t :=
  match Coordinator.handle (coordinator self) workspace_id with
  | Some handle =>
      match Coordinator.send (coordinator self) handle cmd with
      | (c, true) => (notify_command_subs (self <| coordinator := c |>) workspace_id command_type, Ok tt)
      | (_, false) => (self, Err (unavailable "workspace actor not running"))
      end
  | None => (self, Err (not_found ("workspace '" +:+ workspace_id +:+ "' not found")))
  end.

Definition handle_suspend_workspace self (workspace_id : string) : t S * result unit Status.t :=
  send_lifecycle self workspace_id Suspend "suspend".

Definition handle_resume_workspace self (workspace_id : string) : t S * result unit Status.t :=
  send_lifecycle self workspace_id Resume "resume".

(** One definition of the request; a refused one is skipped. *)
Definition decompose_one self (task_def : TaskDefinition.t) : t S * option TaskId :=
  let gid := next_goal_id self in
  let self := self <| next_goal_id := wrap64 (gid + 1) |> in
  let tid := format_id "task-decompose-" gid in
  match TaskGraph.add_task (Coordinator.task_graph (coordinator self))
          (new_task tid (TaskDefinition.name task_def) (TaskDefinition.description task_def)
             (TaskDefinition.depends_on task_def)) with
  | (g, Ok _) =>
      let g := (TaskGraph.transition g tid TaskTrigger.Approve).1 in
      (self <| coordinator ::= with_graph g |>, Some tid)
  | (g, Err _) => (self <| coordinator ::= with_graph g |>, None)
  end.

Fixpoint handle_decompose self (tasks : list TaskDefinition.t) : t S * list TaskId :=
  match tasks with
  | [] => (self, [])
  | task_def :: tasks =>
      let '(self, id) := decompose_one self task_def in
      let '(self, ids) := handle_decompose self tasks in
      (self, option_list id ++ ids)
  end.

Definition handle_cancel_task self (task_id : TaskId) : t S * result unit Status.t :=
  match TaskGraph.transition (Coordinator.task_graph (coordinator self)) task_id TaskTrigger.Cancel with
  | (g, Ok _) =>
      let self := self <| coordinator ::= with_graph g |> in
      (match TaskGraph.get g task_id ≫= task_workspace_ref with
       | Some ws_id => handle_abort_workspace self ws_id
       | None => self
       end, Ok tt)
  | (_, Err e) =>
      (self, Err (Status.mk Code.FailedPrecondition ("cannot cancel task: " +:+ graph_error_text e)))
  end.

(** [SendDirective] and [SendFeedback]. *)
Definition send_from_root self (workspace_id envelope_type : string) (payload : list Z) (in_reply_to : string) :
    t S * result EnvelopeId Status.t :=
  let '(self, id) := take_envelope_id self in
  let '(self, sent) := deliver_envelope self workspace_id {|
    env_id := id; env_from_workspace := WorkspaceTree.root (Coordinator.tree (coordinator self));
    env_to_workspace := workspace_id; env_envelope_type := envelope_type; env_payload := payload;
    env_in_reply_to := opt_str in_reply_to; env_timestamp := 0; env_priority := EnvelopePriority.Normal;
    env_origin := EnvelopeOrigin.Human; env_state := EnvelopeState.Created |} in
  (self, if sent then Ok id else Err (unavailable ("workspace '" +:+ workspace_id +:+ "' is not running"))).

Definition handle_send_directive self (workspace_id : string) (payload : list Z) : t S * result EnvelopeId Status.t :=
  send_from_root self workspace_id "directive" payload "".

Definition handle_send_feedback self (workspace_id : string) (payload : list Z) (in_reply_to : string) :
    t S * result EnvelopeId Status.t :=
  send_from_root self workspace_id "feedback" payload in_reply_to.

(** The answer is the result and its detail. *)
Definition handle_trigger_integration self (workspace_id : string) : t S * result (string * string) Status.t :=
  match Coordinator.handle (coordinator self) workspace_id with
  | Some handle =>
      match Coordinator.send (coordinator self) handle IntegrationSucceededCmd with
      | (c, true) =>
          (self <| coordinator := c |>, Ok ("accepted", "integration triggered for " +:+ workspace_id))
      | (_, false) => (self, Err (unavailable "workspace actor not running"))
      end
  | None => (self, Err (not_found ("workspace '" +:+ workspace_id +:+ "' not found")))
  end.

(** *** Shutdown *)

(** Aborts every workspace that is not terminal, then handles the events that still
    arrive. *)
Definition shutdown self (drained : list WorkspaceEvent) : option (t S) :=
  let active := filter (λ id, id ≠ "ws-root")
                  (WorkspaceTree.active_workspaces (Coordinator.tree (coordinator self))) in
  let c := foldl (λ c ws_id, (Coordinator.abort_workspace c ws_id).1) (coordinator self) active in
  c ← foldl (λ c e, c ← c; Coordinator.handle_event c e) (Some c) drained;
  Some (self <| coordinator := c |>).
End Operations.
End Runtime.

(** ** Histories *)

(** What a client does with a stream: it takes the next message, or goes away. *)
Inductive client_action := ClientReads | ClientLeaves.

Definition client_acts (a : client_action) {A} (tx : Sub.t A) : Sub.t A :=
  match a with
  | ClientReads => Sub.mk (Sub.capacity tx) (tail (Sub.queue tx)) (Sub.closed tx)
  | ClientLeaves => Sub.mk (Sub.capacity tx) (Sub.queue tx) true
  end.

Inductive stream :=
| SignalStream | ChangeStream | TrailStream | GateStream | EscalationStream
| EnvelopeStream (workspace_id : string) | CommandStream (workspace_id : string).

Inductive runtime_op :=
| OpEvent (event : WorkspaceEvent)
| OpEmitSignal (workspace_id : string) (request : EmitSignalRequest.t)
| OpSendEnvelope (workspace_id : string) (request : SendEnvelopeRequest.t)
| OpCreateCheckpoint (workspace_id : string) (request : CreateCheckpointRequest.t)
| OpSubscribeEnvelopes (workspace_id : string) (tx : Sub.t ProtoEnvelope.t)
| OpSubscribeCommands (workspace_id : string) (tx : Sub.t ProtoEnvelope.t)
| OpInjectEnvelope (request : InjectEnvelopeRequest.t)
| OpRespondToGate (request : GateResponse.t)
| OpRespondToEscalation (request : EscalationResponse.t)
| OpSubscribeTrail (tx : Sub.t ProtoTrailEntry.t)
| OpSubscribeGates (tx : Sub.t ProtoGateEvent.t)
| OpSubscribeEscalations (tx : Sub.t ProtoEscalationEvent.t)
| OpSubscribeWorkspaceChanges (tx : Sub.t ProtoWorkspaceStateChange.t)
| OpStreamSignals (tx : Sub.t ProtoSignalEvent.t)
| OpSubmitGoal (description : string) (context : list Z)
| OpDispatch (request : DispatchRequest.t)
| OpAbortWorkspace (workspace_id : string)
| OpSuspendWorkspace (workspace_id : string)
| OpResumeWorkspace (workspace_id : string)
| OpDecompose (tasks : list TaskDefinition.t)
| OpCancelTask (task_id : TaskId)
| OpSendDirective (workspace_id : string) (payload : list Z)
| OpSendFeedback (workspace_id : string) (payload : list Z) (in_reply_to : string)
| OpTriggerIntegration (workspace_id : string)
| OpActorGone (workspace_id : WorkspaceId)
| OpClient (s : stream) (i : nat) (a : client_action).

Section Histories.
Context {S : Type} `{CheckpointStorage S} `{JsonText} (sha256 : bytes → bytes).
Import Runtime.

Definition client_step (self : t S) (s : stream) (i : nat) (a : client_action) : t S :=
  match s with
  | SignalStream => self <| signal_subs ::= alter (client_acts a) i |>
  | ChangeStream => self <| ws_change_subs ::= alter (client_acts a) i |>
  | TrailStream => self <| trail_subs ::= alter (client_acts a) i |>
  | GateStream => self <| gate_subs ::= alter (client_acts a) i |>
  | EscalationStream => self <| escalation_subs ::= alter (client_acts a) i |>
  | EnvelopeStream ws => self <| envelope_subs ::= alter (alter (client_acts a) i) ws |>
  | CommandStream ws => self <| command_subs ::= alter (alter (client_acts a) i) ws |>
  end.

(** A turn of the event loop at a time; an actor's task ending, after which its channels
    refuse; or a step of a client of a stream.  The requests that only read leave the
    state as it is. *)
Definition runtime_step (now : Z) (self : t S) (op : runtime_op) : option (t S) :=
  match op with
  | OpEvent event => on_workspace_event now self event
  | OpEmitSignal ws request => Some (handle_emit_signal self ws request).1
  | OpSendEnvelope ws request => Some (handle_send_envelope self ws request).1
  | OpCreateCheckpoint ws request => Some (handle_create_checkpoint sha256 self ws request).1
  | OpSubscribeEnvelopes ws tx => Some (self <| envelope_subs ::= push_entry ws tx |>)
  | OpSubscribeCommands ws tx => Some (self <| command_subs ::= push_entry ws tx |>)
  | OpInjectEnvelope request => Some (handle_inject_envelope self request).1
  | OpRespondToGate request => Some (handle_respond_to_gate self request).1
  | OpRespondToEscalation request => Some (handle_respond_to_escalation self request).1
  | OpSubscribeTrail tx => Some (self <| trail_subs ::= λ l, l ++ [tx] |>)
  | OpSubscribeGates tx => Some (self <| gate_subs ::= λ l, l ++ [tx] |>)
  | OpSubscribeEscalations tx => Some (self <| escalation_subs ::= λ l, l ++ [tx] |>)
  | OpSubscribeWorkspaceChanges tx => Some (self <| ws_change_subs ::= λ l, l ++ [tx] |>)
  | OpStreamSignals tx => Some (self <| signal_subs ::= λ l, l ++ [tx] |>)
  | OpSubmitGoal description context => Some (handle_submit_goal now self description context).1
  | OpDispatch request => Some (handle_dispatch now self request).1
  | OpAbortWorkspace ws => Some (handle_abort_workspace self ws)
  | OpSuspendWorkspace ws => Some (handle_suspend_workspace self ws).1
  | OpResumeWorkspace ws => Some (handle_resume_workspace self ws).1
  | OpDecompose tasks => Some (handle_decompose self tasks).1
  | OpCancelTask id => Some (handle_cancel_task self id).1
  | OpSendDirective ws payload => Some (handle_send_directive self ws payload).1
  | OpSendFeedback ws payload in_reply_to => Some (handle_send_feedback self ws payload in_reply_to).1
  | OpTriggerIntegration ws => Some (handle_trigger_integration self ws).1
  | OpActorGone ws =>
      Some (self <| coordinator ::= λ c, Coordinator.Mk (Coordinator.tree c) (Coordinator.task_graph c)
              (Coordinator.migration c)
              (alter (λ h, {| wh_id := wh_id h; wh_open := false |}) ws (Coordinator.workspace_handles c))
              (Coordinator.last_checkpoint c) (Coordinator.outbox c) |>)
  | OpClient s i a => Some (client_step self s i a)
  end.

Fixpoint runtime_run (self : t S) (ops : list (Z * runtime_op)) : option (t S) :=
  match ops with
  | [] => Some self
  | (now, op) :: ops => self ← runtime_step now self op; runtime_run self ops
  end.
End Histories.
