(* ===== verification/Serving.v ===== *)
(** * What the runtime guarantees (theory of [Runtime])

    Histories of the runtime: every operation returns, ids come from counters and are
    fresh until these wrap, and the tree and the task graph only evolve in the ways
    recorded by [evolves].  On top of that: a goal gets a fresh workspace whose agent is
    told its context; a provisional checkpoint opens the gate whose answer moves the
    actor; tasks with open dependencies are never offered; and an index kept over a
    restart refuses the entries of the new run. *)

From S2P Require Import Prelude Types Std Float Proto Fsm Tree TaskGraph Gate Workspace Integration.
From S2P Require Import Migration Orchestrator Trail Index Stores Config Runtime.

(** ** How the coordinator evolves *)

(** Every task is stored under its own id. *)
Definition tasks_keyed (g : TaskGraph.t) : Prop :=
  ∀ id task, TaskGraph.tasks g !! id = Some task → task_id task = id.

(** Tasks stay, with their dependencies and their count of open ones. *)
Definition graph_evolves (g g' : TaskGraph.t) : Prop :=
  (tasks_keyed g → tasks_keyed g')
  ∧ ∀ id task, TaskGraph.tasks g !! id = Some task →
    TaskGraph.remaining_deps g' !! id = TaskGraph.remaining_deps g !! id
    ∧ ∃ task', TaskGraph.tasks g' !! id = Some task' ∧ task_depends_on task' = task_depends_on task.

#[global] Instance graph_evolves_po : PreOrder graph_evolves.
Proof.
  split.
  - intros g. split; [done|]. intros id task Ht. eauto.
  - intros g1 g2 g3 [Hk H12] [Hk' H23]. split; [auto|]. intros id task Ht.
    destruct (H12 id task Ht) as (Hr & t2 & Ht2 & Hd). destruct (H23 id t2 Ht2) as (Hr' & t3 & Ht3 & Hd').
    split; [congruence|]. exists t3. split_and!; congruence.
Qed.

Lemma graph_evolves_insert g id task task' ts rd fw tw wt :
  TaskGraph.tasks g !! id = Some task → task_id task' = task_id task →
  task_depends_on task' = task_depends_on task → rd = TaskGraph.remaining_deps g →
  ts = <[id := task']> (TaskGraph.tasks g) → graph_evolves g (TaskGraph.Mk ts rd fw tw wt).
Proof.
  intros Ht Hid Hd -> ->. split.
  - intros Hk k t0. cbn. intros [[<- <-]|[_ Hk0]]%lookup_insert_Some; [|by apply Hk]. rewrite Hid. by apply Hk.
  - intros k t0 Hk. cbn. split; [done|]. destruct (decide (id = k)) as [->|Hne].
    + rewrite lookup_insert_eq. exists task'. rewrite Ht in Hk. injection Hk as <-. done.
    + rewrite lookup_insert_ne by done. eauto.
Qed.

Lemma add_task_evolves g task : graph_evolves g (TaskGraph.add_task g task).1.
Proof.
  unfold TaskGraph.add_task. cbv zeta. destruct (TaskGraph.tasks g !! task_id task) eqn:Hd; [done|].
  destruct (TaskGraph.add_deps _ _ _ _ _) as [fw [n|e]]; (split; cbn; [intros Hk id t0|intros id t0 Ht]; cbn); [|..|eauto].
  - intros [[<- <-]|[_ Hk0]]%lookup_insert_Some; [done|by apply Hk].
  - assert (task_id task ≠ id) by congruence. rewrite !lookup_insert_ne by done. eauto.
  - apply Hk.
Qed.

Lemma transition_evolves g id trigger : graph_evolves g (TaskGraph.transition g id trigger).1.
Proof.
  unfold TaskGraph.transition. destruct (TaskGraph.tasks g !! id) as [task|] eqn:Ht; [|done].
  destruct (TaskFsm.transition _ _) as [s|]; [|done].
  by apply (graph_evolves_insert _ id task (task_with_status s task)).
Qed.

Lemma bind_evolves g id ws : graph_evolves g (TaskGraph.bind g id ws).1.
Proof.
  unfold TaskGraph.bind. destruct (TaskGraph.tasks g !! id) as [task|] eqn:Ht; [|done].
  destruct (task_workspace_ref task); [done|]. destruct (TaskGraph.workspace_task g !! ws); [done|].
  by apply (graph_evolves_insert _ id task (task_with_workspace (Some ws) (task_workspace_history task ++ [ws]) task)).
Qed.

(** Nodes of the tree stay, with the attributes nothing here changes. *)
Definition tree_evolves (t t' : WorkspaceTree.t) : Prop :=
  WorkspaceTree.root t' = WorkspaceTree.root t
  ∧ (∀ k n, WorkspaceTree.nodes t !! k = Some n → ∃ n', WorkspaceTree.nodes t' !! k = Some n'
       ∧ node_owner n' = node_owner n ∧ node_task_id n' = node_task_id n)
  ∧ (tree_wf t → tree_wf t').

#[global] Instance tree_evolves_po : PreOrder tree_evolves.
Proof.
  split.
  - intros t. split_and!; [done|eauto|done].
  - intros t1 t2 t3 (Hr & Hn & Hw) (Hr' & Hn' & Hw'). split_and!; [congruence| |auto].
    intros k n Hk. destruct (Hn k n Hk) as (n2 & Hk2 & Ho & Ht). destruct (Hn' k n2 Hk2) as (n3 & Hk3 & Ho' & Ht').
    exists n3. split_and!; congruence.
Qed.

Lemma update_status_evolves t id s : tree_evolves t (WorkspaceTree.update_status t id s).
Proof.
  split_and!; [done| |by apply tree_wf_update_status]. intros k n Hk. cbn.
  destruct (decide (id = k)) as [->|Hne].
  - rewrite lookup_alter_eq, Hk. cbn. eauto.
  - rewrite lookup_alter_ne by done. eauto.
Qed.

Lemma cascade_evolves t id t' rep :
  tree_wf t → WorkspaceTree.cascade_failure t id = Some (t', rep) →
  tree_evolves t t' ∧ ∀ k, is_Some (WorkspaceTree.nodes t' !! k) → is_Some (WorkspaceTree.nodes t !! k).
Proof.
  intros Hwf Hc. destruct (WorkspaceTree.nodes t !! id) as [n|] eqn:Hid.
  - destruct (cascade_failure_inv t id n Hwf Hid) as (D & t1 & rep1 & _ & _ & Hc1 & Hwf1 & Hinv).
    rewrite Hc in Hc1. injection Hc1 as <- <-. destruct Hinv as [Hr _ _ _ Hn _]. cbn [fst] in *.
    assert (Hu := update_status_evolves t id WorkspaceState.Failed). split.
    + etrans; [exact Hu|]. split_and!; [done| |done]. intros k m Hk. specialize (Hn k). rewrite Hk in Hn.
      inversion Hn as [? m' Hm|]; subst. exists m'. split_and!; [done|apply Hm..].
    + intros k Hk. specialize (Hn k). destruct Hk as [m' Hk]. rewrite Hk in Hn.
      inversion Hn as [m ? Hm Hm1|]; subst. symmetry in Hm1. cbn in Hm1.
      destruct (decide (id = k)) as [->|Hne]; [by eexists|]. rewrite lookup_alter_ne in Hm1 by done. by eexists.
  - unfold WorkspaceTree.cascade_failure in Hc. rewrite Hid in Hc. injection Hc as <- <-. by split.
Qed.

(** Which tasks and bindings can be new. *)
Definition graph_grows (freshT freshW : string → Prop) (g g' : TaskGraph.t) : Prop :=
  (∀ k, is_Some (TaskGraph.tasks g' !! k) → is_Some (TaskGraph.tasks g !! k) ∨ freshT k)
  ∧ (∀ w, is_Some (TaskGraph.workspace_task g' !! w) → is_Some (TaskGraph.workspace_task g !! w) ∨ freshW w).

Lemma graph_grows_refl P Q g : graph_grows P Q g g.
Proof. split; auto. Qed.

Lemma graph_grows_trans P Q g1 g2 g3 : graph_grows P Q g1 g2 → graph_grows P Q g2 g3 → graph_grows P Q g1 g3.
Proof.
  intros [Ht Hw] [Ht' Hw']. split; [intros k Hk; destruct (Ht' k Hk)|intros w Hk; destruct (Hw' w Hk)]; auto.
Qed.

Lemma transition_grows P Q g id trigger : graph_grows P Q g (TaskGraph.transition g id trigger).1.
Proof.
  unfold TaskGraph.transition. destruct (TaskGraph.tasks g !! id) as [task|] eqn:Ht; [|apply graph_grows_refl].
  destruct (TaskFsm.transition _ _); [|apply graph_grows_refl]. split; [|auto]. cbn.
  intros k [<-|Hk]%lookup_insert_is_Some'; [left; by eexists|auto].
Qed.

Lemma add_task_grows Q g task : graph_grows (eq (task_id task)) Q g (TaskGraph.add_task g task).1.
Proof.
  unfold TaskGraph.add_task. cbv zeta. destruct (TaskGraph.tasks g !! task_id task); [apply graph_grows_refl|].
  destruct (TaskGraph.add_deps _ _ _ _ _) as [fw [n|e]]; (split; [|by auto]); cbn; [|by auto].
  intros k [<-|Hk]%lookup_insert_is_Some'; auto.
Qed.

Lemma bind_grows P g id ws : graph_grows P (eq ws) g (TaskGraph.bind g id ws).1.
Proof.
  unfold TaskGraph.bind. destruct (TaskGraph.tasks g !! id) as [task|] eqn:Ht; [|apply graph_grows_refl].
  destruct (task_workspace_ref task); [apply graph_grows_refl|].
  destruct (TaskGraph.workspace_task g !! ws); [apply graph_grows_refl|]. split; cbn.
  - intros k [<-|Hk]%lookup_insert_is_Some'; [left; by eexists|auto].
  - intros w [<-|Hk]%lookup_insert_is_Some'; auto.
Qed.

(** A coordinator evolves: structures as above, and what can be new: workspaces, of the
    tree and bound ones, and tasks. *)
Record evolves (freshW freshT : string → Prop) (c c' : Coordinator.t) : Prop := {
  ev_tree : tree_evolves (Coordinator.tree c) (Coordinator.tree c');
  ev_graph : graph_evolves (Coordinator.task_graph c) (Coordinator.task_graph c');
  ev_new : ∀ k, is_Some (WorkspaceTree.nodes (Coordinator.tree c') !! k) →
    is_Some (WorkspaceTree.nodes (Coordinator.tree c) !! k) ∨ freshW k;
  ev_grows : graph_grows freshT freshW (Coordinator.task_graph c) (Coordinator.task_graph c');
}.

Abbreviation nothing := (λ _ : string, False).

Lemma evolves_refl P Q c : evolves P Q c c.
Proof. split; [done|done|auto|apply graph_grows_refl]. Qed.

Lemma evolves_trans P Q c1 c2 c3 : evolves P Q c1 c2 → evolves P Q c2 c3 → evolves P Q c1 c3.
Proof.
  intros [Ht Hg Hn Hw] [Ht' Hg' Hn' Hw']. split; [by etrans|by etrans| |by eapply graph_grows_trans].
  intros k Hk. destruct (Hn' k Hk); auto.
Qed.

Lemma evolves_mono (P P' Q Q' : string → Prop) c c' :
  (∀ k, P k → P' k) → (∀ k, Q k → Q' k) → evolves P Q c c' → evolves P' Q' c c'.
Proof.
  intros HP HQ [Ht Hg Hn [Hw1 Hw2]]. split; [done|done| |split];
    [intros k Hk; destruct (Hn k Hk)|intros k Hk; destruct (Hw1 k Hk)|intros k Hk; destruct (Hw2 k Hk)]; auto.
Qed.

(** Same tree and graph. *)
Lemma evolves_same P Q c c' :
  Coordinator.tree c' = Coordinator.tree c → Coordinator.task_graph c' = Coordinator.task_graph c → evolves P Q c c'.
Proof. intros Ht Hg. split; rewrite ?Ht, ?Hg; [done|done|auto|apply graph_grows_refl]. Qed.

Lemma send_same c h cmd :
  Coordinator.tree (Coordinator.send c h cmd).1 = Coordinator.tree c
  ∧ Coordinator.task_graph (Coordinator.send c h cmd).1 = Coordinator.task_graph c.
Proof. unfold Coordinator.send. by destruct (wh_open h). Qed.

Lemma send_to_same c ws cmd :
  Coordinator.tree (Coordinator.send_to c ws cmd).1 = Coordinator.tree c
  ∧ Coordinator.task_graph (Coordinator.send_to c ws cmd).1 = Coordinator.task_graph c.
Proof. unfold Coordinator.send_to. destruct (_ !! _); [apply send_same|done]. Qed.

Lemma dispatch_evolves c request :
  evolves (eq (wc_id (dr_config request))) nothing c (Coordinator.dispatch c request).
Proof.
  unfold Coordinator.dispatch. split; cbn [Coordinator.tree Coordinator.task_graph]; [|done| |apply graph_grows_refl].
  - set (node := Build_WorkspaceNode _ _ _ _ _ _ _). split_and!.
    + unfold WorkspaceTree.insert. by repeat case_match.
    + intros k n Hk. unfold WorkspaceTree.insert. cbn.
      destruct (WorkspaceTree.nodes _ !! wc_id _) eqn:Hd; [eauto|].
      destruct (WorkspaceTree.nodes _ !! wc_parent _) eqn:Hp; [|eauto]. cbn.
      assert (wc_id (dr_config request) ≠ k) by congruence.
      destruct (decide (wc_parent (dr_config request) = k)) as [<-|Hne].
      * rewrite lookup_alter_eq, lookup_insert_ne, Hk by done. cbn. eauto.
      * rewrite lookup_alter_ne, lookup_insert_ne by done. eauto.
    + intros Hwf. by apply tree_wf_insert.
  - intros k. unfold WorkspaceTree.insert. cbn.
    destruct (WorkspaceTree.nodes _ !! wc_id _) eqn:Hd; [auto|].
    destruct (WorkspaceTree.nodes _ !! wc_parent _) eqn:Hp; [|auto]. cbn.
    rewrite lookup_alter_is_Some, lookup_insert_is_Some'. tauto.
Qed.

Lemma auto_integrate_same c ws :
  Coordinator.tree (Coordinator.auto_integrate c ws) = Coordinator.tree c
  ∧ Coordinator.task_graph (Coordinator.auto_integrate c ws) = Coordinator.task_graph c.
Proof. unfold Coordinator.auto_integrate. destruct (_ !! _); [apply send_same|done]. Qed.

Lemma update_status_nodes t ws s k :
  is_Some (WorkspaceTree.nodes (WorkspaceTree.update_status t ws s) !! k) → is_Some (WorkspaceTree.nodes t !! k).
Proof. cbn. by rewrite lookup_alter_is_Some. Qed.

(** An event is always handled, and adds no node and no task. *)
Lemma handle_event_evolves c e :
  tree_wf (Coordinator.tree c) →
  ∃ c', Coordinator.handle_event c e = Some c' ∧ evolves nothing nothing c c'.
Proof.
  intros Hwf. destruct e as [s|ws from to|a|cp|ws snap|ws m]; cbn [Coordinator.handle_event].
  - exists c. split; [done|apply evolves_refl].
  - set (c1 := Coordinator.with_tree _ c).
    assert (H1 : evolves nothing nothing c c1).
    { split; [apply update_status_evolves|done| |apply graph_grows_refl]. intros k Hk. left.
      by apply (update_status_nodes _ ws to). }
    assert (∃ c2, (if decide (to = WorkspaceState.Failed)
              then '(tr, _) ← WorkspaceTree.cascade_failure (Coordinator.tree c1) ws; Some (Coordinator.with_tree tr c1)
              else Some c1) = Some c2 ∧ evolves nothing nothing c1 c2) as (c2 & -> & H2).
    { case_decide; [|exists c1; split; [done|apply evolves_refl]].
      assert (Hwf1 : tree_wf (Coordinator.tree c1)) by (apply H1; done).
      destruct (tree_step_wf (Coordinator.tree c1) (TCascadeFailure ws) Hwf1) as (t' & Ht' & _ & _).
      cbn in Ht'. destruct (WorkspaceTree.cascade_failure _ ws) as [[t2 rep]|] eqn:Hc; [|done].
      injection Ht' as <-. cbn. eexists. split; [done|].
      destruct (cascade_evolves _ _ _ _ Hwf1 Hc) as [Ht Hk]. split; [done|done|auto|apply graph_grows_refl]. }
    cbn [mbind option_bind]. eexists. split; [done|]. apply (evolves_trans _ _ _ c2); [by eapply evolves_trans|].
    case_decide; [|apply evolves_refl]. destruct (auto_integrate_same c2 ws). by apply evolves_same.
  - eexists. split; [done|]. split; [apply update_status_evolves|done| |apply graph_grows_refl]. intros k Hk. left.
    by apply (update_status_nodes _ (aw_id a) (aw_terminal_state a)).
  - eexists. split; [done|]. by apply evolves_same.
  - eexists. split; [done|]. by apply evolves_same.
  - exists c. split; [done|apply evolves_refl].
Qed.

(** ** How the runtime evolves *)

Section Evolution.
Import Runtime.
Context {S : Type} `{CheckpointStorage S} `{JsonText} (sha256 : bytes → bytes).
Implicit Types self : t S.

(** An operation that starts nothing. *)
Record moves self self' : Prop := {
  mv_evolves : evolves nothing nothing (coordinator self) (coordinator self');
  mv_goal : next_goal_id self' = next_goal_id self;
  mv_workspace : next_workspace_id self' = next_workspace_id self;
}.

(** A request, which also leaves the trail alone. *)
Record serves self self' : Prop := {
  sv_moves : moves self self';
  sv_seq : stream_seq self' = stream_seq self;
  sv_index : trail_index self' = trail_index self;
}.

Lemma moves_refl self : moves self self.
Proof. split; [apply evolves_refl|done|done]. Qed.

Lemma moves_same self self' :
  coordinator self' = coordinator self → next_goal_id self' = next_goal_id self →
  next_workspace_id self' = next_workspace_id self → moves self self'.
Proof. intros Hc Hg Hw. split; [rewrite Hc; apply evolves_refl|done|done]. Qed.

Lemma moves_trans self1 self2 self3 : moves self1 self2 → moves self2 self3 → moves self1 self3.
Proof. intros [He Hg Hw] [He' Hg' Hw']. split; [by eapply evolves_trans|congruence..]. Qed.

Lemma serves_refl self : serves self self.
Proof. split; [apply moves_refl|done|done]. Qed.

Lemma serves_trans self1 self2 self3 : serves self1 self2 → serves self2 self3 → serves self1 self3.
Proof. intros [Hm Hs Hi] [Hm' Hs' Hi']. split; [by eapply moves_trans|congruence..]. Qed.

(** Same coordinator and counters. *)
Lemma serves_same self self' :
  coordinator self' = coordinator self → next_goal_id self' = next_goal_id self →
  next_workspace_id self' = next_workspace_id self → stream_seq self' = stream_seq self →
  trail_index self' = trail_index self → serves self self'.
Proof. intros Hc Hg Hw Hs Hi. split; [by apply moves_same|done|done]. Qed.

Lemma serves_send_to self ws cmd c b :
  Coordinator.send_to (coordinator self) ws cmd = (c, b) → serves self (self <| coordinator := c |>).
Proof.
  intros Hs. split; [|done|done]. split; [|done|done]. cbn. destruct (send_to_same (coordinator self) ws cmd).
  rewrite Hs in *. by apply evolves_same.
Qed.

Lemma evolves_with_graph P Q c g :
  graph_evolves (Coordinator.task_graph c) g → graph_grows Q P (Coordinator.task_graph c) g →
  evolves P Q c (with_graph g c).
Proof. intros Hg Hw. split; [done|done|auto|done]. Qed.

Lemma moves_fan_out self e : moves self (fan_out_event self e).
Proof. apply moves_same; destruct e; cbn; try case_decide; done. Qed.

Lemma serves_touch now self ws : serves self (touch_workspace now self ws).
Proof. unfold touch_workspace. destruct (_ !! _) as [[]|]; by apply serves_same. Qed.

Lemma serves_deliver self ws env : serves self (deliver_envelope self ws env).1.
Proof.
  unfold deliver_envelope.
  assert (Hn : serves self (notify_envelope_subs self ws env)).
  { unfold notify_envelope_subs. destruct (_ !! _); by apply serves_same. }
  eapply serves_trans; [exact Hn|].
  unfold Coordinator.route_envelope. destruct (Coordinator.send_to _ _ _) as [c sent] eqn:Hs.
  by eapply serves_send_to.
Qed.

Lemma serves_send_agent self h m : serves self (send_agent self h m).1.
Proof. unfold send_agent. destruct (wh_open h); by apply serves_same. Qed.

Lemma serves_emit_signal self ws r : serves self (handle_emit_signal self ws r).1.
Proof.
  unfold handle_emit_signal. destruct (try_from _ _); [|apply serves_refl].
  destruct (Coordinator.handle _ _) as [h|]; [|apply serves_refl].
  match goal with |- context [send_agent self h ?m] => pose proof (serves_send_agent self h m) end.
  by destruct (send_agent _ _ _).
Qed.

Lemma serves_take_id self : serves self (take_envelope_id self).1.
Proof. by apply serves_same. Qed.

Lemma serves_send_envelope self ws r : serves self (handle_send_envelope self ws r).1.
Proof.
  unfold handle_send_envelope. destruct (WorkspaceTree.get _ _); [|apply serves_refl]. cbn [take_envelope_id].
  match goal with |- context [deliver_envelope ?s ?w ?e] => pose proof (serves_deliver s w e) end.
  eapply serves_trans; [apply serves_take_id|]. by destruct (deliver_envelope _ _ _).
Qed.

Lemma serves_inject_envelope self r : serves self (handle_inject_envelope self r).1.
Proof.
  unfold handle_inject_envelope. destruct (WorkspaceTree.get _ _); [|apply serves_refl]. cbn [take_envelope_id].
  match goal with |- context [deliver_envelope ?s ?w ?e] => pose proof (serves_deliver s w e) end.
  eapply serves_trans; [apply serves_take_id|]. by destruct (deliver_envelope _ _ _).
Qed.

Lemma serves_send_from_root self ws ty payload reply : serves self (send_from_root self ws ty payload reply).1.
Proof.
  unfold send_from_root. cbn [take_envelope_id].
  match goal with |- context [deliver_envelope ?s ?w ?e] => pose proof (serves_deliver s w e) end.
  eapply serves_trans; [apply serves_take_id|]. by destruct (deliver_envelope _ _ _).
Qed.

Lemma serves_create_checkpoint self ws r : serves self (handle_create_checkpoint sha256 self ws r).1.
Proof.
  unfold handle_create_checkpoint. cbv zeta. cbn [fst].
  set (self0 := set checkpoint_index _ _).
  set (self1 := match Coordinator.handle _ _ with Some h => _ | None => _ end).
  apply (serves_trans _ self0); [by apply serves_same|]. apply (serves_trans _ self1).
  - subst self1. destruct (Coordinator.handle _ _); [apply serves_send_agent|apply serves_refl].
  - destruct (_ && _); [by apply serves_same|apply serves_refl].
Qed.

Lemma serves_respond_to_gate self r : serves self (handle_respond_to_gate self r).1.
Proof.
  unfold handle_respond_to_gate. destruct (GateController.resolve_checkpoint _ _) as [gates [cp|]].
  - set (self1 := set gate_controller _ self). apply (serves_trans _ self1); [by apply serves_same|].
    destruct (Coordinator.send_to _ _ _) as [c b] eqn:Hs. by apply (serves_send_to self1 _ _ _ _ Hs).
  - destruct (GateController.resolve _ _ _). by apply serves_same.
Qed.

Lemma serves_respond_to_escalation self r : serves self (handle_respond_to_escalation self r).1.
Proof.
  unfold handle_respond_to_escalation. cbv zeta. set (self1 := set escalation_index _ self).
  apply (serves_trans _ self1); [by apply serves_same|]. destruct (_ !! _) as [ws|]; [|apply serves_refl].
  destruct (EscalationResponse.action _) as [[env|[]|[]]|]; try apply serves_refl.
  - cbn [take_envelope_id]. eapply serves_trans; [apply serves_take_id|]. apply serves_deliver.
  - unfold Coordinator.abort_workspace. destruct (Coordinator.send_to _ _ _) as [c b] eqn:Hs.
    by apply (serves_send_to self1 _ _ _ _ Hs).
Qed.

Lemma serves_abort self ws : serves self (handle_abort_workspace self ws).
Proof.
  unfold handle_abort_workspace. destruct (Coordinator.abort_workspace (coordinator self) ws) as [c b] eqn:Hs.
  assert (Hc := serves_send_to self ws Abort c b Hs). split; [|done|done]. split; [|done|done]. cbn. rewrite Hs. apply Hc.
Qed.

Lemma serves_send self h cmd c b :
  Coordinator.send (coordinator self) h cmd = (c, b) → serves self (self <| coordinator := c |>).
Proof.
  intros Hs. split; [|done|done]. split; [|done|done]. cbn. destruct (send_same (coordinator self) h cmd).
  rewrite Hs in *. by apply evolves_same.
Qed.

Lemma serves_lifecycle self ws cmd ty : serves self (send_lifecycle self ws cmd ty).1.
Proof.
  unfold send_lifecycle. destruct (Coordinator.handle _ _) as [h|]; [|apply serves_refl].
  destruct (Coordinator.send _ _ _) as [c []] eqn:Hs; [|apply serves_refl].
  eapply serves_trans; [by eapply serves_send|]. cbn [fst]. unfold notify_command_subs.
  destruct (_ !! _); [by apply serves_same|apply serves_refl].
Qed.

Lemma serves_trigger self ws : serves self (handle_trigger_integration self ws).1.
Proof.
  unfold handle_trigger_integration. destruct (Coordinator.handle _ _) as [h|]; [|apply serves_refl].
  destruct (Coordinator.send _ _ _) as [c []] eqn:Hs; [by eapply serves_send|apply serves_refl].
Qed.

Lemma serves_cancel self id : serves self (handle_cancel_task self id).1.
Proof.
  unfold handle_cancel_task.
  pose proof (transition_evolves (Coordinator.task_graph (coordinator self)) id TaskTrigger.Cancel) as Ht.
  pose proof (transition_grows nothing nothing (Coordinator.task_graph (coordinator self)) id TaskTrigger.Cancel) as Hw.
  destruct (TaskGraph.transition _ _ _) as [g [s|e]]; [|apply serves_refl]. cbn [fst] in *.
  apply (serves_trans _ (self <| coordinator ::= with_graph g |>)).
  - split; [split; [by apply evolves_with_graph|done|done]|done|done].
  - destruct (TaskGraph.get g id ≫= task_workspace_ref) as [ws|]; [apply serves_abort|apply serves_refl].
Qed.

Lemma moves_event now self event :
  tree_wf (Coordinator.tree (coordinator self)) →
  ∃ self', on_workspace_event now self event = Some self' ∧ moves self self'.
Proof.
  intros Hwf. unfold on_workspace_event.
  set (self1 := match event with EvSignal _ => _ | _ => _ end).
  assert (Hs1 : moves self self1) by (subst self1; destruct event; apply serves_touch || apply moves_refl).
  destruct (handle_event_evolves (coordinator self1) event) as (c' & -> & Hev); [by apply (mv_evolves _ _ Hs1)|].
  cbn [mbind option_bind]. eexists. split; [done|].
  apply (moves_trans _ (self1 <| coordinator := c' |>)); [|apply moves_fan_out].
  eapply moves_trans; [exact Hs1|]. by split.
Qed.

(** *** What starts a workspace or adds a task *)

Definition next_workspace self : WorkspaceId := format_id "ws-" (next_workspace_id self).
Definition next_goal_task self : TaskId := "task-" +:+ format_id "goal-" (next_goal_id self).
Definition next_subtask self : TaskId := format_id "task-decompose-" (next_goal_id self).

Lemma start_workspace_evolves now self task_id cfg :
  let self' := start_workspace now self task_id cfg in
  evolves (eq (wc_id cfg)) nothing (coordinator self) (coordinator self')
  ∧ next_goal_id self' = next_goal_id self ∧ next_workspace_id self' = next_workspace_id self.
Proof.
  split; [|done]. unfold start_workspace. cbn.
  apply (evolves_trans _ _ _ (Coordinator.dispatch (coordinator self) {| dr_task_id := task_id; dr_config := cfg |}));
    [apply (dispatch_evolves _ {| dr_task_id := task_id; dr_config := cfg |})|].
  apply evolves_with_graph; [etrans; [apply bind_evolves|apply transition_evolves]|].
  eapply graph_grows_trans; [apply bind_grows|apply transition_grows].
Qed.

Lemma add_approved P c g' task :
  TaskGraph.add_task (Coordinator.task_graph c) task = (g', Ok tt) →
  evolves P (eq (task_id task)) c (with_graph (TaskGraph.transition g' (task_id task) TaskTrigger.Approve).1 c).
Proof.
  intros Ha. pose proof (add_task_evolves (Coordinator.task_graph c) task) as He.
  pose proof (add_task_grows P (Coordinator.task_graph c) task) as Hw. rewrite Ha in He, Hw. cbn [fst] in *.
  apply evolves_with_graph; [etrans; [exact He|apply transition_evolves]|].
  eapply graph_grows_trans; [exact Hw|apply transition_grows].
Qed.

Lemma add_refused P c g' task e :
  TaskGraph.add_task (Coordinator.task_graph c) task = (g', Err e) →
  evolves P (eq (task_id task)) c (with_graph g' c).
Proof.
  intros Ha. pose proof (add_task_evolves (Coordinator.task_graph c) task) as He.
  pose proof (add_task_grows P (Coordinator.task_graph c) task) as Hw. rewrite Ha in He, Hw. by apply evolves_with_graph.
Qed.

Lemma decompose_one_evolves self d :
  let self' := (decompose_one self d).1 in
  evolves nothing (eq (next_subtask self)) (coordinator self) (coordinator self')
  ∧ next_goal_id self' = wrap64 (next_goal_id self + 1) ∧ next_workspace_id self' = next_workspace_id self.
Proof.
  unfold decompose_one. cbv zeta. cbn [coordinator set].
  destruct (TaskGraph.add_task _ _) as [g [[]|e]] eqn:Ha; (split; [|done]).
  - by apply (add_approved nothing _ _ _ Ha).
  - by apply (add_refused nothing _ _ _ _ Ha).
Qed.

(** The runtime starts the next workspace, or none. *)
Definition starts (freshT : string → Prop) self self' : Prop :=
  evolves (eq (next_workspace self)) freshT (coordinator self) (coordinator self')
    ∧ next_workspace_id self' = wrap64 (next_workspace_id self + 1)
  ∨ evolves nothing freshT (coordinator self) (coordinator self')
    ∧ next_workspace_id self' = next_workspace_id self.

Lemma submit_goal_starts now self d ctx :
  let self' := (handle_submit_goal now self d ctx).1 in
  starts (eq (next_goal_task self)) self self' ∧ next_goal_id self' = wrap64 (next_goal_id self + 1).
Proof.
  unfold handle_submit_goal. cbv zeta. cbn [coordinator set].
  destruct (TaskGraph.add_task _ _) as [g [[]|e]] eqn:Ha.
  - match goal with |- context [start_workspace ?n ?s ?t ?c] =>
      destruct (start_workspace_evolves n s t c) as (Hs & Hg & Hw) end.
    split; [|exact Hg]. left. split; [|exact Hw]. eapply evolves_trans; [by apply (add_approved _ _ _ _ Ha)|].
    eapply evolves_mono; [| |exact Hs]; done.
  - split; [|done]. right. split; [|done]. by apply (add_refused _ _ _ _ _ Ha).
Qed.

Lemma dispatch_request_starts now self r :
  let self' := (handle_dispatch now self r).1 in
  starts nothing self self' ∧ next_goal_id self' = next_goal_id self.
Proof.
  unfold handle_dispatch. cbv zeta.
  destruct (TaskGraph.get _ _); [|split; [right; split; [apply evolves_refl|done]|done]].
  match goal with |- context [start_workspace ?n ?s ?t ?c] =>
    destruct (start_workspace_evolves n s t c) as (Hs & Hg & Hw) end.
  split; [left; split; [exact Hs|exact Hw]|exact Hg].
Qed.

(** What an operation does to tree, graph and counters. *)
Definition effect (op : runtime_op) self self' : Prop :=
  match op with
  | OpSubmitGoal _ _ => starts (eq (next_goal_task self)) self self' ∧ next_goal_id self' = wrap64 (next_goal_id self + 1)
  | OpDispatch _ => starts nothing self self' ∧ next_goal_id self' = next_goal_id self
  | OpDecompose tasks => self' = (handle_decompose self tasks).1
  | OpEvent _ => moves self self'
  | _ => serves self self'
  end.

(** Every operation of the runtime returns. *)
Lemma runtime_step_effect now self op :
  tree_wf (Coordinator.tree (coordinator self)) →
  ∃ self', runtime_step sha256 now self op = Some self' ∧ effect op self self'.
Proof.
  intros Hwf. destruct op; cbn [runtime_step effect];
    lazymatch goal with |- ∃ _, Some _ = Some _ ∧ _ => eexists; split; [done|] | _ => idtac end;
    try by apply serves_same.
  - by apply moves_event.
  - apply serves_emit_signal.
  - apply serves_send_envelope.
  - apply serves_create_checkpoint.
  - apply serves_inject_envelope.
  - apply serves_respond_to_gate.
  - apply serves_respond_to_escalation.
  - apply submit_goal_starts.
  - apply dispatch_request_starts.
  - apply serves_abort.
  - apply serves_lifecycle.
  - apply serves_lifecycle.
  - done.
  - apply serves_cancel.
  - apply serves_send_from_root.
  - apply serves_send_from_root.
  - apply serves_trigger.
  - split; [split; [by apply evolves_same|done|done]|done|done].
  - destruct s; by apply serves_same.
Qed.

Lemma decompose_evolves self tasks :
  tree_evolves (Coordinator.tree (coordinator self)) (Coordinator.tree (coordinator (handle_decompose self tasks).1))
  ∧ graph_evolves (Coordinator.task_graph (coordinator self))
      (Coordinator.task_graph (coordinator (handle_decompose self tasks).1)).
Proof.
  revert self. induction tasks as [|d tasks IH]; intros self; cbn [handle_decompose]; [done|].
  destruct (decompose_one_evolves self d) as ([Ht Hg _ _] & _). destruct (decompose_one self d) as [self1 id].
  destruct (IH self1) as [Ht' Hg']. destruct (handle_decompose self1 tasks). cbn [fst] in *. split; by etrans.
Qed.

Lemma effect_evolves op self self' :
  effect op self self' →
  tree_evolves (Coordinator.tree (coordinator self)) (Coordinator.tree (coordinator self'))
  ∧ graph_evolves (Coordinator.task_graph (coordinator self)) (Coordinator.task_graph (coordinator self')).
Proof.
  intros He. destruct op; cbn [effect] in He;
    lazymatch type of He with
    | moves _ _ => apply mv_evolves in He; by destruct He
    | serves _ _ => apply sv_moves, mv_evolves in He; by destruct He
    | starts _ _ _ ∧ _ => destruct He as [[[He _]|[He _]] _]; by destruct He
    | _ => subst self'; apply decompose_evolves
    end.
Qed.

Lemma runtime_run_evolves self ops :
  tree_wf (Coordinator.tree (coordinator self)) →
  ∃ self', runtime_run sha256 self ops = Some self'
    ∧ tree_evolves (Coordinator.tree (coordinator self)) (Coordinator.tree (coordinator self'))
    ∧ graph_evolves (Coordinator.task_graph (coordinator self)) (Coordinator.task_graph (coordinator self')).
Proof.
  revert self. induction ops as [|[now op] ops IH]; intros self Hwf; cbn [runtime_run].
  { exists self. by split_and!. }
  destruct (runtime_step_effect now self op Hwf) as (self1 & -> & [Ht Hg]%effect_evolves). cbn [mbind option_bind].
  destruct (IH self1) as (self2 & Hrun & Ht' & Hg'); [by apply Ht|].
  exists self2. split_and!; [done|by etrans|by etrans].
Qed.

(** *** Reachable states *)

Definition is_workspace_id (bound : Z) (w : string) : Prop := ∃ n, 0 ≤ n < bound ∧ w = format_id "ws-" n.
Definition is_task_id (bound : Z) (k : string) : Prop :=
  ∃ n, 0 ≤ n < bound ∧ (k = "task-" +:+ format_id "goal-" n ∨ k = format_id "task-decompose-" n).

(** All ids come from the counters, which have not wrapped: [used] bounds them. *)
Record runtime_inv (used : Z) self : Prop := {
  ri_tree : tree_wf (Coordinator.tree (coordinator self));
  ri_root : WorkspaceTree.root (Coordinator.tree (coordinator self)) = "ws-root";
  ri_keyed : tasks_keyed (Coordinator.task_graph (coordinator self));
  ri_nodes : ∀ w, is_Some (WorkspaceTree.nodes (Coordinator.tree (coordinator self)) !! w) →
    w = "ws-root" ∨ is_workspace_id (next_workspace_id self) w;
  ri_bound : ∀ w, is_Some (TaskGraph.workspace_task (Coordinator.task_graph (coordinator self)) !! w) →
    is_workspace_id (next_workspace_id self) w;
  ri_tasks : ∀ k, is_Some (TaskGraph.tasks (Coordinator.task_graph (coordinator self)) !! k) →
    is_task_id (next_goal_id self) k;
  ri_workspace : 0 ≤ next_workspace_id self ≤ used;
  ri_goal : 0 ≤ next_goal_id self ≤ used;
}.

Lemma runtime_inv_evolves used used' self self' (P Q : string → Prop) :
  runtime_inv used self → evolves P Q (coordinator self) (coordinator self') →
  next_workspace_id self ≤ next_workspace_id self' ≤ used' → next_goal_id self ≤ next_goal_id self' ≤ used' →
  (∀ w, P w → is_workspace_id (next_workspace_id self') w) → (∀ k, Q k → is_task_id (next_goal_id self') k) →
  runtime_inv used' self'.
Proof.
  intros [Ht Hr Hk Hn Hb Htk Hw Hg] [(Hroot & _ & Hwf) [Hkey _] Hnew [Htasks Hbound]] Hws Hgoal HP HQ.
  assert (Hmono : ∀ w, is_workspace_id (next_workspace_id self) w → is_workspace_id (next_workspace_id self') w).
  { intros w (n & ? & ->). exists n. split; [lia|done]. }
  split; [auto|congruence|auto|..|lia|lia].
  - intros w [Hin|Hp]%Hnew; [|auto]. destruct (Hn w Hin); auto.
  - intros w [Hin|Hp]%Hbound; auto.
  - intros k [Hin|Hq]%Htasks; [|auto]. destruct (Htk k Hin) as (n & ? & ?). exists n. split; [lia|done].
Qed.

Definition weight (op : runtime_op) : Z :=
  match op with
  | OpSubmitGoal _ _ | OpDispatch _ => 1
  | OpDecompose tasks => Z.of_nat (length tasks)
  | _ => 0
  end.

Lemma runtime_inv_moves used self self' : runtime_inv used self → moves self self' → runtime_inv used self'.
Proof.
  intros Hinv [He Hg Hw]. pose proof (ri_workspace _ _ Hinv). pose proof (ri_goal _ _ Hinv).
  apply (runtime_inv_evolves used used self self' nothing nothing Hinv He); rewrite ?Hg, ?Hw; done || lia.
Qed.

Lemma runtime_inv_starts used self self' freshT (goals : Z) :
  runtime_inv used self → used + 1 ≤ u64_max → starts freshT self self' →
  next_goal_id self' = next_goal_id self + goals → 0 ≤ goals ≤ 1 →
  (∀ k, freshT k → is_task_id (next_goal_id self') k) →
  runtime_inv (used + 1) self'.
Proof.
  intros Hinv Hu Hs Hg Hgoals HQ. pose proof (ri_workspace _ _ Hinv). pose proof (ri_goal _ _ Hinv).
  destruct Hs as [[He Hw]|[He Hw]]; [rewrite wrap64_small in Hw by (unfold is_u64; lia)|];
    eapply (runtime_inv_evolves used _ self self' _ _ Hinv He); try (rewrite ?Hg, ?Hw; lia); try done.
  intros w <-. exists (next_workspace_id self). split; [lia|done].
Qed.

Lemma runtime_inv_decompose used self tasks :
  runtime_inv used self → used + Z.of_nat (length tasks) ≤ u64_max →
  runtime_inv (used + Z.of_nat (length tasks)) (handle_decompose self tasks).1.
Proof.
  revert used self. induction tasks as [|d tasks IH]; intros used self Hinv Hu; cbn [handle_decompose].
  { by rewrite Z.add_0_r. }
  cbn [length] in *. destruct (decompose_one_evolves self d) as (He & Hg & Hw).
  destruct (decompose_one self d) as [self1 id]. cbn [fst] in *.
  pose proof (ri_workspace _ _ Hinv). pose proof (ri_goal _ _ Hinv).
  rewrite wrap64_small in Hg by (unfold is_u64; lia).
  assert (Hinv1 : runtime_inv (used + 1) self1).
  { eapply (runtime_inv_evolves used _ self self1 _ _ Hinv He); try (rewrite ?Hg, ?Hw; lia); try done.
    intros k <-. exists (next_goal_id self). split; [lia|by right]. }
  specialize (IH _ _ Hinv1). destruct (handle_decompose self1 tasks) as [self2 ids]. cbn [fst] in *.
  replace (used + Z.of_nat (Datatypes.S (length tasks))) with (used + 1 + Z.of_nat (length tasks)) by lia.
  apply IH. lia.
Qed.

Lemma runtime_inv_step used now self op :
  runtime_inv used self → used + weight op ≤ u64_max →
  ∃ self', runtime_step sha256 now self op = Some self' ∧ runtime_inv (used + weight op) self'.
Proof.
  intros Hinv Hu. destruct (runtime_step_effect now self op (ri_tree _ _ Hinv)) as (self' & -> & He).
  exists self'. split; [done|]. pose proof (ri_goal _ _ Hinv).
  destruct op; cbn [effect weight] in *; 
    try (rewrite Z.add_0_r; by eapply runtime_inv_moves; [|apply He || apply sv_moves]).
  - destruct He as [Hs Hg]. rewrite wrap64_small in Hg by (unfold is_u64; lia).
    eapply (runtime_inv_starts used self _ _ 1); try done. intros k <-. exists (next_goal_id self).
    split; [lia|by left].
  - destruct He as [Hs Hg]. eapply (runtime_inv_starts used self _ _ 0); try done. by rewrite Z.add_0_r.
  - subst self'. by apply runtime_inv_decompose.
Qed.

Definition total_weight (ops : list (Z * runtime_op)) : Z := foldr (λ op n, weight op.2 + n) 0 ops.

Lemma total_weight_nonneg ops : 0 ≤ total_weight ops.
Proof.
  induction ops as [|[now op] ops IH]; [done|]. cbn [total_weight foldr snd]. fold (total_weight ops).
  destruct op; cbn [weight]; lia.
Qed.

Lemma runtime_inv_run used self ops :
  runtime_inv used self → used + total_weight ops ≤ u64_max →
  ∃ self', runtime_run sha256 self ops = Some self' ∧ runtime_inv (used + total_weight ops) self'.
Proof.
  revert used self. induction ops as [|[now op] ops IH]; intros used self Hinv Hu; cbn [runtime_run].
  { exists self. by rewrite Z.add_0_r. }
  cbn [total_weight foldr snd] in *. fold (total_weight ops) in *. pose proof (total_weight_nonneg ops).
  destruct (runtime_inv_step used now self op Hinv) as (self1 & -> & Hinv1); [lia|].
  cbn [mbind option_bind]. destruct (IH _ _ Hinv1) as (self2 & Hrun & Hinv2); [lia|].
  exists self2. split; [done|]. by rewrite Z.add_assoc.
Qed.

Lemma runtime_inv_init config storage index : runtime_inv 0 (init (S := S) config storage index).
Proof.
  split; [apply tree_wf_new|done|by intros id task|..|done|done].
  - intros w [n Hn]. cbn in Hn. apply lookup_singleton_Some in Hn as [<- _]. by left.
  - by intros w [].
  - by intros k [].
Qed.

Lemma runtime_run_app self ops ops' :
  runtime_run sha256 self (ops ++ ops') = runtime_run sha256 self ops ≫= λ self', runtime_run sha256 self' ops'.
Proof.
  revert self. induction ops as [|[now op] ops IH]; intros self; [done|]. cbn [app runtime_run].
  destruct (runtime_step _ _ _ _); cbn; [apply IH|done].
Qed.
End Evolution.

(** ** Tasks with dependencies *)

Definition graph_of {St : Type} (self : Runtime.t St) : TaskGraph.t := Coordinator.task_graph (Runtime.coordinator self).

Lemma decompose_one_counts {St : Type} `{CheckpointStorage St} (self self' : Runtime.t St) d id :
  Z.of_nat (length (TaskDefinition.depends_on d)) ≤ u32_max →
  Runtime.decompose_one self d = (self', Some id) →
  (∃ task, TaskGraph.tasks (graph_of self') !! id = Some task)
  ∧ TaskGraph.remaining_deps (graph_of self') !! id
    = Some (Z.of_nat (length (filter (λ x, finished (TaskGraph.tasks (graph_of self)) x = false)
                                (TaskDefinition.depends_on d)))).
Proof.
  intros Hlen. unfold Runtime.decompose_one. cbv zeta. cbn [Runtime.coordinator set].
  fold (graph_of self). set (task := Runtime.new_task _ _ _ _). unfold TaskGraph.add_task. cbv zeta.
  destruct (TaskGraph.tasks (graph_of self) !! task_id task) as [t0|] eqn:Hdup; [done|].
  destruct (TaskGraph.add_deps _ _ _ _ _) as [fw [n|e]] eqn:Hadd; [|done].
  apply add_deps_ok in Hadd as (_ & -> & _); [|lia|cbn; lia]. intros [= <- <-].
  set (g := TaskGraph.Mk _ _ _ _ _).
  assert (Htask : TaskGraph.tasks g !! task_id task = Some task) by (subst g; cbn; by rewrite lookup_insert_eq).
  destruct (proj2 (transition_evolves g (task_id task) TaskTrigger.Approve) _ _ Htask) as (Hr & t' & Ht' & _).
  unfold graph_of. cbn. split; [by exists t'|]. etrans; [exact Hr|]. subst g. cbn. by rewrite lookup_insert_eq.
Qed.

Lemma ready_counts `{HashOrder} {St : Type} (self : Runtime.t St) id :
  tasks_keyed (graph_of self) →
  id ∈ ProtoTaskView.task_id <$> Runtime.handle_get_ready_tasks self →
  default 0 (TaskGraph.remaining_deps (graph_of self) !! id) = 0.
Proof.
  intros Hk. unfold Runtime.handle_get_ready_tasks. fold (graph_of self). rewrite list_elem_of_fmap.
  intros (v & -> & Hv). apply list_elem_of_omap in Hv as (tid & Hin & Hv).
  unfold TaskGraph.dispatchable in Hin. apply list_elem_of_fmap in Hin as (task & -> & Hin).
  apply list_elem_of_filter in Hin as [Hd Hin]. apply elem_of_values in Hin as [k Hk'].
  pose proof (Hk _ _ Hk') as Hid. rewrite Hid in Hv. unfold TaskGraph.get in Hv. rewrite Hk' in Hv. cbn in Hv.
  injection Hv as <-. cbn. unfold TaskGraph.is_dispatchable in Hd. apply andb_prop in Hd as [_ Hz%Z.eqb_eq]. done.
Qed.

(** C40. A task decomposed while one of its dependencies is neither integrated nor
    cancelled is never offered as ready, whatever the runtime serves afterwards: no
    operation of the runtime reports a finished task to the task graph. *)
Theorem dependent_tasks_never_ready {St : Type} `{CheckpointStorage St} `{JsonText} `{HashOrder} (sha256 : bytes → bytes)
    config storage index ops (self : Runtime.t St) (d : TaskDefinition.t) (dep : TaskId)
    (Hrun : runtime_run sha256 (Runtime.init config storage index) ops = Some self)
    (Hdep : dep ∈ TaskDefinition.depends_on d)
    (Hopen : finished (TaskGraph.tasks (graph_of self)) dep = false)
    (Hlen : Z.of_nat (length (TaskDefinition.depends_on d)) ≤ u32_max) :
  let '(self', id) := Runtime.decompose_one self d in
  ∀ later, ∃ self'', runtime_run sha256 self' later = Some self''
    ∧ ∀ tid, id = Some tid → tid ∉ ProtoTaskView.task_id <$> Runtime.handle_get_ready_tasks self''.
Proof.
  destruct (runtime_run_evolves sha256 (Runtime.init config storage index) ops (ri_tree _ _ (runtime_inv_init _ _ _)))
    as (self0 & Hrun0 & (_ & _ & Hwf) & [Hkey _]). rewrite Hrun in Hrun0. injection Hrun0 as <-.
  specialize (Hwf (ri_tree _ _ (runtime_inv_init _ _ _))). specialize (Hkey (ri_keyed _ _ (runtime_inv_init _ _ _))).
  destruct (decompose_one_evolves self d) as ([Ht [Hk _] _ _] & _).
  destruct (Runtime.decompose_one self d) as [self' id] eqn:Hone. cbn [fst] in *. intros later.
  destruct (runtime_run_evolves sha256 self' later) as (self'' & Hlater & _ & [Hk' Hg]); [by apply Ht|].
  exists self''. split; [done|]. intros tid -> Hin.
  destruct (decompose_one_counts self self' d tid Hlen Hone) as ((task & Htask) & Hcount).
  apply ready_counts in Hin; [|by apply Hk', Hk]. unfold graph_of in *.
  rewrite (proj1 (Hg tid task Htask)), Hcount in Hin. cbn in Hin.
  assert (Hf : dep ∈ filter (λ x, finished (TaskGraph.tasks (Coordinator.task_graph (Runtime.coordinator self))) x = false)
                 (TaskDefinition.depends_on d)) by (by apply list_elem_of_filter).
  destruct (filter _ _); [by apply elem_of_nil in Hf|]. cbn in Hin. lia.
Qed.

(** ** Checkpoint gates *)

Definition actor_status (a : WorkspaceActor.t) : WorkspaceState.t := WsState.status (WorkspaceActor.state a).

(** The gate that the next provisional checkpoint opens. *)
Definition next_gate {St : Type} (self : Runtime.t St) : GateId :=
  format_id "gate-" (GateController.next_id (Runtime.gate_controller self)).

(** What creating a checkpoint does to the parts that follow it. *)
Lemma create_checkpoint_effect {St : Type} `{CheckpointStorage St} sha256 (self : Runtime.t St) ws r :
  Coordinator.handle (Runtime.coordinator self) ws = Some {| wh_id := ws; wh_open := true |} →
  is_Some (WorkspaceTree.get (Coordinator.tree (Runtime.coordinator self)) ws) →
  let '(self', (cp, hash, _)) := Runtime.handle_create_checkpoint sha256 self ws r in
  hash = hex_encode (sha256 (CreateCheckpointRequest.payload r))
  ∧ Runtime.agent_outbox self' = Runtime.agent_outbox self ++ [(ws, Runtime.checkpoint_message r hash)]
  ∧ Runtime.coordinator self' = Runtime.coordinator self
  ∧ GateController.pending_checkpoints (Runtime.gate_controller self')
    = if CreateCheckpointRequest.status r =? 1
      then <[next_gate self := {|
               pcg_gate_id := next_gate self; pcg_workspace_id := ws; pcg_checkpoint_id := cp;
               pcg_checkpoint_type := CreateCheckpointRequest.type r;
               pcg_timeout_ms := GateController.default_timeout_ms (Runtime.gate_controller self);
               pcg_fallback := GateController.default_fallback (Runtime.gate_controller self);
               pcg_created_at := 0 |}]> (GateController.pending_checkpoints (Runtime.gate_controller self))
      else GateController.pending_checkpoints (Runtime.gate_controller self).
Proof.
  intros Hh Hn. unfold Runtime.handle_create_checkpoint. cbv zeta. cbn [Runtime.coordinator set].
  rewrite Hh. cbn [Runtime.send_agent wh_open wh_id fst Runtime.coordinator set].
  change (to_i32 ProtoCheckpointStatus.Provisional) with 1. rewrite bool_decide_true by done.
  rewrite andb_true_r. by destruct (CreateCheckpointRequest.status r =? 1).
Qed.

(** What the actor does with the forwarded checkpoint. *)
Lemma actor_checkpoint a r hash :
  actor_status a = WorkspaceState.Active →
  actor_status (WorkspaceActor.handle_agent_msg a (Runtime.checkpoint_message r hash)).1
  = if CreateCheckpointRequest.status r =? 2 then WorkspaceState.Active else WorkspaceState.Blocked.
Proof.
  intros Ha. unfold WorkspaceActor.handle_agent_msg, Runtime.checkpoint_message. fold (actor_status a). rewrite Ha.
  rewrite decide_False by done.
  set (status := default _ _).
  assert (Hs : status = if CreateCheckpointRequest.status r =? 2 then CheckpointStatus.Final else CheckpointStatus.Provisional).
  { subst status. generalize (CreateCheckpointRequest.status r) as z. clear.
    intros z. unfold try_from. destruct (Z.ltb_spec z 0); [by destruct (Z.eqb_spec z 2); [lia|]|].
    destruct (Z.to_nat z) as [|[|[|n]]] eqn:Hz; cbn; destruct (Z.eqb_spec z 2); done || lia. }
  unfold WorkspaceActor.handle_create_checkpoint. cbv zeta. rewrite Hs. destruct a as [st fst].
  unfold actor_status in *. cbn in Ha.
  destruct (CreateCheckpointRequest.status r =? 2); [by rewrite decide_False by done|].
  rewrite decide_True by done. unfold WorkspaceActor.transition. cbn. by rewrite Ha.
Qed.

(** What the actor does with the decision. *)
Lemma actor_decision a decision cp :
  actor_status a = WorkspaceState.Blocked →
  actor_status (WorkspaceActor.handle_coordinator_cmd a (Runtime.checkpoint_command (Runtime.to_decision decision) cp)).1
  = if decision =? 2 then WorkspaceState.Failed else WorkspaceState.Active.
Proof.
  intros Ha. unfold Runtime.to_decision. destruct (decision =? 2); [|destruct (decision =? 3)];
    cbn [Runtime.checkpoint_command WorkspaceActor.handle_coordinator_cmd]; unfold WorkspaceActor.transition;
    fold (actor_status a); by rewrite Ha.
Qed.

(** C5. Checkpoint gates, through runtime, gate controller and actor.  A checkpoint of an
    active workspace is forwarded to its actor, which stays active only when the status
    is FINAL.  With PROVISIONAL a gate for it is pending; the answer to that gate is
    routed to the actor, which fails on REJECT and is active again on every other
    decision, UNSPECIFIED and unknown ones included.  With any other status the actor is
    blocked and no gate is opened. *)
Theorem checkpoint_gate_routes {St : Type} `{CheckpointStorage St} sha256 (self : Runtime.t St) ws r a
    (Hhandle : Coordinator.handle (Runtime.coordinator self) ws = Some {| wh_id := ws; wh_open := true |})
    (Hnode : is_Some (WorkspaceTree.get (Coordinator.tree (Runtime.coordinator self)) ws))
    (Hactor : actor_status a = WorkspaceState.Active) :
  let '(self', (cp, hash, _)) := Runtime.handle_create_checkpoint sha256 self ws r in
  let message := Runtime.checkpoint_message r hash in
  let a' := (WorkspaceActor.handle_agent_msg a message).1 in
  Runtime.agent_outbox self' = Runtime.agent_outbox self ++ [(ws, message)]
  ∧ actor_status a' = (if CreateCheckpointRequest.status r =? 2 then WorkspaceState.Active else WorkspaceState.Blocked)
  ∧ if CreateCheckpointRequest.status r =? 1
    then ∀ decision m id,
      let '(self'', applied) := Runtime.handle_respond_to_gate self' (GateResponse.mk (next_gate self) decision m id) in
      let command := Runtime.checkpoint_command (Runtime.to_decision decision) cp in
      applied = true
      ∧ Coordinator.outbox (Runtime.coordinator self'') = Coordinator.outbox (Runtime.coordinator self) ++ [(ws, command)]
      ∧ actor_status (WorkspaceActor.handle_coordinator_cmd a' command).1
        = (if decision =? 2 then WorkspaceState.Failed else WorkspaceState.Active)
    else GateController.pending_checkpoints (Runtime.gate_controller self')
         = GateController.pending_checkpoints (Runtime.gate_controller self).
Proof.
  pose proof (create_checkpoint_effect sha256 self ws r Hhandle Hnode) as He.
  destruct (Runtime.handle_create_checkpoint _ _ _ _) as [self' [[cp hash] rid]].
  destruct He as (_ & Hout & Hc & Hgates). cbv zeta. rewrite actor_checkpoint by done.
  split_and!; [done|done|]. destruct (Z.eqb_spec (CreateCheckpointRequest.status r) 1) as [H1|H1]; [|done].
  intros decision m id. unfold Runtime.handle_respond_to_gate. cbn [GateResponse.gate_id GateResponse.decision].
  unfold GateController.resolve_checkpoint. rewrite Hgates, lookup_insert_eq.
  cbn [pcg_workspace_id pcg_checkpoint_id]. unfold Coordinator.send_to. cbn [Runtime.coordinator set].
  rewrite Hc. unfold Coordinator.handle in Hhandle. rewrite Hhandle. cbn.
  split_and!; [done|done|]. apply actor_decision. rewrite actor_checkpoint by done. by rewrite H1.
Qed.

(** ** Goals *)

Lemma workspace_id_not_root n : is_u64 n → format_id "ws-" n ≠ "ws-root".
Proof.
  intros Hn Heq. change "ws-root" with ("ws-" +:+ "root") in Heq. unfold format_id in Heq.
  apply (inj (String.app "ws-")) in Heq. pose proof (parse_zero_pad 0 n Hn) as Hp. unfold zero_pad in Hp.
  cbn [Nat.sub zeros] in Hp. rewrite Heq in Hp. by vm_compute in Hp.
Qed.

Section Goals.
Context {St : Type} `{CheckpointStorage St} `{JsonText} `{HashOrder} (sha256 : bytes → bytes).

(** In a reachable state the next ids are fresh. *)
Lemma next_workspace_fresh used (self : Runtime.t St) :
  runtime_inv used self → used ≤ u64_max →
  WorkspaceTree.nodes (Coordinator.tree (Runtime.coordinator self)) !! next_workspace self = None
  ∧ TaskGraph.workspace_task (graph_of self) !! next_workspace self = None.
Proof.
  intros Hinv Hu. pose proof (ri_workspace _ _ Hinv).
  assert (Hno : ¬ is_workspace_id (Runtime.next_workspace_id self) (next_workspace self)).
  { intros (n & Hn & Heq). unfold next_workspace in Heq. apply format_id_inj in Heq; lia. }
  split; apply eq_None_not_Some; intros Hs.
  - destruct (ri_nodes _ _ Hinv _ Hs) as [Hroot|Hid]; [|done].
    apply (workspace_id_not_root (Runtime.next_workspace_id self)); [unfold is_u64; lia|done].
  - by apply Hno, (ri_bound _ _ Hinv).
Qed.

Lemma next_goal_fresh used (self : Runtime.t St) :
  runtime_inv used self → TaskGraph.tasks (graph_of self) !! next_goal_task self = None.
Proof.
  intros Hinv. apply eq_None_not_Some. intros Hs.
  destruct (ri_tasks _ _ Hinv _ Hs) as (n & Hn & [Heq|Heq]); unfold next_goal_task in Heq; [|done].
  apply (inj (String.app "task-")), format_id_inj in Heq; [lia|..|lia]. apply (ri_goal _ _ Hinv).
Qed.

(** The steps of the task of a new goal. *)
Lemma goal_task_assigned g id description ws :
  TaskGraph.tasks g !! id = None → TaskGraph.workspace_task g !! ws = None →
  ∃ g1, TaskGraph.add_task g (Runtime.new_task id description description []) = (g1, Ok tt)
    ∧ let g2 := (TaskGraph.transition g1 id TaskTrigger.Approve).1 in
      let g3 := (TaskGraph.transition (TaskGraph.bind g2 id ws).1 id TaskTrigger.Assign).1 in
      ∃ task, TaskGraph.tasks g3 !! id = Some task ∧ task_status task = TaskStatus.Assigned
        ∧ task_workspace_ref task = Some ws.
Proof.
  intros Hid Hws. unfold TaskGraph.add_task. cbn [task_id Runtime.new_task task_depends_on TaskGraph.add_deps].
  rewrite Hid. eexists. split; [done|]. cbv zeta.
  unfold TaskGraph.transition at 2. cbn [TaskGraph.tasks]. rewrite lookup_insert_eq. cbn.
  unfold TaskGraph.bind. cbn. rewrite insert_insert_eq, lookup_insert_eq. cbn. rewrite Hws. cbn.
  unfold TaskGraph.transition. cbn. rewrite insert_insert_eq, lookup_insert_eq. cbn.
  rewrite insert_insert_eq, lookup_insert_eq. eauto.
Qed.
End Goals.

(** C2. Submitting a goal, in every state the runtime can reach before its counters wrap:
    it is accepted, under a workspace id no node of the tree has; the workspace is then
    in the tree, idle, below the root and running; the goal's task is assigned and bound
    to it; an agent that binds to it is told the role and the context of the goal; and
    what agents of other workspaces are told does not change. *)
Theorem goal_submitted {St : Type} `{CheckpointStorage St} `{JsonText} `{HashOrder} (sha256 : bytes → bytes)
    config (storage : St) index ops now description context token
    (Hsmall : total_weight ops < u64_max) :
  ∃ self self' goal ws,
    runtime_run sha256 (Runtime.init config storage index) ops = Some self
    ∧ Runtime.handle_submit_goal now self description context = (self', Ok (goal, ws))
    ∧ WorkspaceTree.get (Coordinator.tree (Runtime.coordinator self)) ws = None
    ∧ (∃ node, WorkspaceTree.get (Coordinator.tree (Runtime.coordinator self')) ws = Some node
         ∧ node_status node = WorkspaceState.Idle ∧ node_parent node = Some "ws-root"
         ∧ node_task_id node = Some ("task-" +:+ goal))
    ∧ Coordinator.handle (Runtime.coordinator self') ws = Some {| wh_id := ws; wh_open := true |}
    ∧ (∃ task, TaskGraph.tasks (graph_of self') !! ("task-" +:+ goal) = Some task
         ∧ task_status task = TaskStatus.Assigned ∧ task_workspace_ref task = Some ws)
    ∧ (∃ r, Runtime.handle_bind self' ws token = Ok r ∧ BindResponse.role r = "worker"
         ∧ BindResponse.state r = to_i32 ProtoWorkspaceState.Idle
         ∧ ProtoEnvelope.payload <$> BindResponse.directive r = Some context)
    ∧ ∀ ws', ws' ≠ ws → Runtime.workspace_configs self' !! ws' = Runtime.workspace_configs self !! ws'.
Proof.
  destruct (runtime_inv_run sha256 0 (Runtime.init config storage index) ops (runtime_inv_init _ _ _))
    as (self & Hrun & Hinv); [lia|]. exists self.
  destruct (next_workspace_fresh _ self Hinv) as [Hnode Hbound]; [lia|].
  destruct (goal_task_assigned (graph_of self) (next_goal_task self) description (next_workspace self)
              (next_goal_fresh _ self Hinv) Hbound) as (g1 & Hadd & task & Htask & Hst & Href).
  destruct (tw_forest _ (ri_tree _ _ Hinv)) as [_ (root & Hroot & _) _ _ _ _]. rewrite (ri_root _ _ Hinv) in Hroot.
  assert (Hne : "ws-root" ≠ next_workspace self) by congruence.
  unfold Runtime.handle_submit_goal. cbv zeta. cbn [Runtime.coordinator set]. unfold graph_of, next_goal_task in Hadd.
  rewrite Hadd.
  set (cfg := Runtime.workspace_config _ _ _ _ _). set (self' := Runtime.start_workspace _ _ _ _).
  exists self', (format_id "goal-" (Runtime.next_goal_id self)), (next_workspace self).
  assert (Hget : WorkspaceTree.get (Coordinator.tree (Runtime.coordinator self')) (next_workspace self)
    = Some {| node_id := next_workspace self; node_parent := Some "ws-root"; node_children := [];
              node_owner := "system"; node_originator := Originator.System; node_status := WorkspaceState.Idle;
              node_task_id := Some (next_goal_task self) |}).
  { cbn. unfold WorkspaceTree.insert. cbn. unfold WorkspaceTree.get. rewrite (ri_root _ _ Hinv).
    fold (next_workspace self). rewrite Hnode, Hroot. cbn. by rewrite lookup_alter_ne, lookup_insert_eq. }
  split_and!; [done|done|done|by eexists| | | |].
  - cbn. unfold Coordinator.handle. cbn. by rewrite lookup_insert_eq.
  - exists task. split_and!; [|done|done]. exact Htask.
  - unfold Runtime.handle_bind. rewrite Hget. eexists. split; [done|]. cbn. unfold next_workspace.
    rewrite lookup_insert_eq. done.
  - intros ws' Hws'. cbn. by rewrite lookup_insert_ne.
Qed.

(** ** The trail index after a restart *)

(** The index has a row for each of the numbers 1 to [n]. *)
Definition covers (n : Z) (index : TrailIndex.t) : Prop :=
  ∀ i, 1 ≤ i ≤ n → i ∈ ie_sequence_number <$> TrailIndex.rows index.

Lemma insert_covered n index e :
  covers n index → n < 2 ^ 63 → 1 ≤ ie_sequence_number e ≤ n → (TrailIndex.insert index e).1 = index.
Proof.
  intros Hc Hn He. unfold TrailIndex.insert. cbn [to_row ie_sequence_number].
  assert (Has : as_i64 (ie_sequence_number e) = ie_sequence_number e).
  { unfold as_i64. destruct (Z.leb_spec (ie_sequence_number e) 9223372036854775807); lia. }
  rewrite Has, bool_decide_true by auto. done.
Qed.

Section Restart.
Context {S : Type} `{CheckpointStorage S} `{JsonText} (sha256 : bytes → bytes).
Context (n : Z) (Hn : n < 2 ^ 63).
Implicit Types self : Runtime.t S.

(** [self'] has used at most [k] more numbers than [self], all of them taken. *)
Definition hidden (k : Z) self self' : Prop :=
  covers n (Runtime.trail_index self) → 0 ≤ Runtime.stream_seq self → Runtime.stream_seq self + k ≤ n →
  Runtime.trail_index self' = Runtime.trail_index self
  ∧ Runtime.stream_seq self ≤ Runtime.stream_seq self' ≤ Runtime.stream_seq self + k.

Lemma hidden_same k self self' :
  0 ≤ k → Runtime.trail_index self' = Runtime.trail_index self → Runtime.stream_seq self' = Runtime.stream_seq self →
  hidden k self self'.
Proof. intros Hk Hi Hs _ _ _. split; [done|lia]. Qed.

Lemma hidden_trans k k' self self' self'' :
  hidden k self self' → hidden k' self' self'' → 0 ≤ k → 0 ≤ k' → hidden (k + k') self self''.
Proof.
  intros Ha Hb Hk Hk' Hc Hpos Hmax. destruct Ha as [Hi Hs]; [done|done|lia|].
  destruct Hb as [Hi' Hs']; [by rewrite Hi|lia|lia|]. split; [congruence|lia].
Qed.

Lemma hidden_escalation self signal : hidden 1 self (Runtime.fan_out_escalation self signal).
Proof.
  intros Hc Hpos Hk. cbn. rewrite wrap64_small by (unfold is_u64, u64_max; lia). split; [done|lia].
Qed.

Lemma hidden_emit self ws event body : hidden 1 self (Runtime.emit_trail_entry self ws event body).
Proof.
  intros Hc Hpos Hk. cbn. rewrite !wrap64_small by (unfold is_u64, u64_max; lia). split; [|lia].
  apply (insert_covered n); [done|done|cbn; lia].
Qed.

Lemma hidden_fan_out self event : hidden 2 self (Runtime.fan_out_event self event).
Proof.
  assert (Hemit : ∀ k self1 self2 ws event body, hidden k self self1 → 0 ≤ k ≤ 1 →
    Runtime.trail_index self2 = Runtime.trail_index (Runtime.emit_trail_entry self1 ws event body) →
    Runtime.stream_seq self2 = Runtime.stream_seq (Runtime.emit_trail_entry self1 ws event body) → hidden 2 self self2).
  { intros k self1 self2 ws e body Hh Hk Hi Hs Hc Hpos Hmax. rewrite Hi, Hs.
    destruct (hidden_trans k 1 _ _ _ Hh (hidden_emit self1 ws e body)); [lia|lia|done|done|lia|]. split; [done|lia]. }
  destruct event as [signal| | | | |]; cbn [Runtime.fan_out_event];
    match goal with |- context [Runtime.emit_trail_entry ?s ?ws ?e ?b] =>
      lazymatch s with
      | context [Runtime.fan_out_escalation] => apply (Hemit 1 s _ ws e b); [|done|done|done]
      | _ => by apply (Hemit 0 s _ ws e b); [apply hidden_same|..]
      end
    end.
  case_decide; [|by apply hidden_same]. eapply (hidden_trans 0 1); [|apply hidden_escalation|done|done].
  by apply hidden_same.
Qed.

Lemma hidden_event now self event self' :
  Runtime.on_workspace_event now self event = Some self' → hidden 2 self self'.
Proof.
  unfold Runtime.on_workspace_event. set (self1 := match event with EvSignal _ => _ | _ => _ end).
  assert (Hi : serves self self1) by (subst self1; destruct event; apply serves_touch || apply serves_refl).
  clearbody self1. destruct (Coordinator.handle_event _ _) as [c|]; [|done]. cbn [mbind option_bind]. intros [= <-].
  apply (hidden_trans 0 2 _ (self1 <| Runtime.coordinator := c |>)); [|apply hidden_fan_out|done|done].
  destruct Hi as [_ Hs Hi]. by apply hidden_same.
Qed.

Lemma quiet_decompose self tasks :
  Runtime.trail_index (Runtime.handle_decompose self tasks).1 = Runtime.trail_index self
  ∧ Runtime.stream_seq (Runtime.handle_decompose self tasks).1 = Runtime.stream_seq self.
Proof.
  revert self. induction tasks as [|d tasks IH]; intros self; cbn [Runtime.handle_decompose]; [done|].
  assert (Hone : Runtime.trail_index (Runtime.decompose_one self d).1 = Runtime.trail_index self
    ∧ Runtime.stream_seq (Runtime.decompose_one self d).1 = Runtime.stream_seq self).
  { unfold Runtime.decompose_one. cbv zeta. by repeat case_match. }
  destruct (Runtime.decompose_one self d) as [self1 id]. specialize (IH self1).
  destruct (Runtime.handle_decompose self1 tasks). cbn [fst] in *. destruct IH, Hone. split; congruence.
Qed.

Lemma hidden_step now self op self' :
  tree_wf (Coordinator.tree (Runtime.coordinator self)) →
  runtime_step sha256 now self op = Some self' → hidden 2 self self'.
Proof.
  intros Hwf Hstep. destruct (runtime_step_effect sha256 now self op Hwf) as (self'' & Heq & He).
  rewrite Hstep in Heq. injection Heq as <-.
  destruct op; cbn [effect] in He; try (destruct He; by apply hidden_same).
  - by eapply hidden_event.
  - cbn in Hstep. injection Hstep as <-. unfold Runtime.handle_submit_goal. cbv zeta.
    repeat case_match; by apply hidden_same.
  - cbn in Hstep. injection Hstep as <-. unfold Runtime.handle_dispatch. cbv zeta.
    repeat case_match; by apply hidden_same.
  - subst self'. destruct (quiet_decompose self tasks). by apply hidden_same.
Qed.

Lemma hidden_run self ops self' :
  tree_wf (Coordinator.tree (Runtime.coordinator self)) →
  runtime_run sha256 self ops = Some self' → hidden (2 * Z.of_nat (length ops)) self self'.
Proof.
  revert self. induction ops as [|[now op] ops IH]; intros self Hwf; cbn [runtime_run].
  { intros [= <-]. by apply hidden_same. }
  destruct (runtime_step_effect sha256 now self op Hwf) as (self1 & Hstep & [Ht _]%effect_evolves).
  rewrite Hstep. cbn [mbind option_bind length]. intros Hrun Hc Hpos Hk.
  destruct (hidden_step now self op self1 Hwf Hstep) as [Hi Hs]; [done|done|lia|].
  destruct (IH self1 (proj2 (proj2 Ht) Hwf) Hrun) as [Hi' Hs']; [by rewrite Hi|lia|lia|]. split; [congruence|lia].
Qed.
End Restart.

(** A restart over a persistent index: numbering starts again at one, so as long as
    the numbers are taken by the rows of the earlier run every new entry is refused; the
    index, and with it the answer to every trail query, stays what it was before. *)
Theorem restart_hides_trail {St : Type} `{CheckpointStorage St} `{JsonText} (sha256 : bytes → bytes)
    config (storage : St) index n ops
    (Hn : n < 2 ^ 63) (Hrows : covers n index) (Hlen : 2 * Z.of_nat (length ops) ≤ n) :
  ∃ self, runtime_run sha256 (Runtime.init config storage index) ops = Some self
    ∧ Runtime.trail_index self = index
    ∧ ∀ ws event actor limit,
        Runtime.query_trail_index self ws event actor limit
        = Runtime.query_trail_index (Runtime.init config storage index) ws event actor limit.
Proof.
  pose proof (ri_tree _ _ (runtime_inv_init config storage index)) as Hwf.
  destruct (runtime_run_evolves sha256 _ ops Hwf) as (self & Hrun & _). exists self.
  destruct (hidden_run sha256 n Hn _ ops self Hwf Hrun) as [Hi _]; [done|done|cbn; lia|].
  split_and!; [done|done|]. intros. unfold Runtime.query_trail_index. by rewrite Hi.
Qed.

(** ** Examples *)

Definition no_text : JsonText := λ _, [].

Definition fresh_runtime : Runtime.t InMemoryCheckpointStorage.t :=
  Runtime.init default_config InMemoryCheckpointStorage.new TrailIndex.open_in_memory.

Definition one_goal : list (Z * runtime_op) := [(7, OpSubmitGoal "build it" [1; 2])].

Definition after_goal : Runtime.t InMemoryCheckpointStorage.t :=
  default fresh_runtime (@runtime_run _ _ no_text (λ b, b) fresh_runtime one_goal).

Definition second_task : TaskDefinition.t := TaskDefinition.mk "check it" "" ["task-goal-0"] "worker" [] [].

Lemma dependent_tasks_never_ready_witness :
  let '(self', id) := Runtime.decompose_one after_goal second_task in
  id = Some "task-decompose-1"
  ∧ ∀ later, ∃ self'', @runtime_run _ _ no_text (λ b, b) self' later = Some self''
      ∧ ∀ tid, id = Some tid → tid ∉ ProtoTaskView.task_id <$> @Runtime.handle_get_ready_tasks _ canonical_order self''.
Proof.
  pose proof (@dependent_tasks_never_ready _ _ no_text canonical_order (λ b, b) default_config InMemoryCheckpointStorage.new
    TrailIndex.open_in_memory one_goal after_goal second_task "task-goal-0" eq_refl
    (list_elem_of_here _ _) eq_refl ltac:(done)) as Hw.
  assert (Hid : (Runtime.decompose_one after_goal second_task).2 = Some "task-decompose-1") by (vm_compute; done).
  destruct (Runtime.decompose_one after_goal second_task) as [self' id]. cbn [snd] in Hid. by split.
Defined.

Definition draft (status : Z) : CreateCheckpointRequest.t :=
  CreateCheckpointRequest.mk "draft" [4; 5] "first try" status 1 None "r1".

Lemma checkpoint_gate_routes_witness :
  let '(self', (cp, _, _)) := Runtime.handle_create_checkpoint (λ b, b) after_goal "ws-0" (draft 1) in
  ∃ self'', Runtime.handle_respond_to_gate self' (GateResponse.mk "gate-1" 0 [] "r2") = (self'', true)
    ∧ actor_status (WorkspaceActor.handle_coordinator_cmd
        (WorkspaceActor.handle_agent_msg sample_actor (Runtime.checkpoint_message (draft 1) "0405")).1
        (Runtime.checkpoint_command (Runtime.to_decision 0) cp)).1 = WorkspaceState.Active.
Proof.
  pose proof (checkpoint_gate_routes (λ b, b) after_goal "ws-0" (draft 1) sample_actor eq_refl (ex_intro _ _ eq_refl) eq_refl) as Hw.
  assert (Hh : (Runtime.handle_create_checkpoint (λ b, b) after_goal "ws-0" (draft 1)).2.1.2 = "0405") by (vm_compute; done).
  destruct (Runtime.handle_create_checkpoint _ _ _ _) as [self' [[cp hash] rid]]. cbn [fst snd] in Hh. subst hash.
  destruct Hw as (_ & _ & Hw). change (CreateCheckpointRequest.status (draft 1) =? 1) with true in Hw. cbv iota in Hw.
  specialize (Hw 0 [] "r2"). change (next_gate after_goal) with "gate-1" in Hw.
  destruct (Runtime.handle_respond_to_gate _ _) as [self'' applied]. destruct Hw as (-> & _ & Hw). by exists self''.
Defined.

Lemma goal_submitted_witness :
  total_weight one_goal < u64_max
  ∧ ∃ self' goal ws,
      Runtime.handle_submit_goal 8 after_goal "test it" [3] = (self', Ok (goal, ws))
      ∧ WorkspaceTree.get (Coordinator.tree (Runtime.coordinator after_goal)) ws = None
      ∧ is_Some (WorkspaceTree.get (Coordinator.tree (Runtime.coordinator self')) ws).
Proof.
  split; [done|].
  destruct (@goal_submitted _ _ no_text canonical_order (λ b, b) default_config InMemoryCheckpointStorage.new
    TrailIndex.open_in_memory one_goal 8 "test it" [3] "" ltac:(done))
    as (self & self' & goal & ws & Hrun & Hgoal & Hfree & (node & Hnode & _) & _).
  assert (self = after_goal) as -> by (unfold after_goal; fold fresh_runtime in Hrun; by rewrite Hrun).
  exists self', goal, ws. split_and!; [done|done|by exists node].
Defined.

(** The index left by a run that saw two changes of state. *)
Definition used_index : TrailIndex.t :=
  let change := OpEvent (StateChanged "ws-0" WorkspaceState.Idle WorkspaceState.Active) in
  Runtime.trail_index (default fresh_runtime (@runtime_run _ _ no_text (λ b, b) fresh_runtime [(1, change); (2, change)])).

Lemma restart_hides_trail_witness :
  length (TrailIndex.rows used_index) = 2%nat
  ∧ ∃ self, @runtime_run _ _ no_text (λ b, b)
        (Runtime.init default_config InMemoryCheckpointStorage.new used_index) [(9, OpEvent (EvError "ws-0" "lost"))] = Some self
      ∧ Runtime.trail_index self = used_index.
Proof.
  split; [vm_compute; done|].
  destruct (@restart_hides_trail _ _ no_text (λ b, b) default_config InMemoryCheckpointStorage.new
    used_index 2 [(9, OpEvent (EvError "ws-0" "lost"))]) as (self & Hrun & Hi & _); [done| |done|by exists self].
  intros i Hi. assert (i = 1 ∨ i = 2) as [-> | ->] by lia; by apply (bool_decide_unpack _); vm_compute.
Defined.
