(* ===== verification/Console.v ===== *)
(** * The console: sessions and who may act on them

    The session lifecycle of console-core's session_state.rs, the roles and the
    permission matrix of auth.rs and authorizer.rs, and the queries of console-db that
    move a session through its lifecycle.

    The database is its tables as maps from primary keys to rows, and a query is the
    function its SQL statement denotes; SQLite runs one statement at a time.  Times are
    the RFC 3339 texts the callers pass. *)

From S2P Require Import Prelude Types Std Float.

(** ** session_state.rs *)

Definition CONFIGURING : string := "configuring".
Definition VALIDATING : string := "validating".
Definition LAUNCHING : string := "launching".
Definition ACTIVE : string := "active".
Definition COMPLETED : string := "completed".
Definition FAILED : string := "failed".
Definition CANCELLED : string := "cancelled".

(** A violation carries no JSON value in the code modelled here. *)
Module Violation.
Record t : Type := mk { field : option string; code : string; message : string }.
End Violation.

Module ConsoleError.
Inductive t : Type :=
| Database (e : string)
| NotFound (entity id : string)
| Validation (message : string) (violations warnings : list Violation.t)
| Unauthenticated
| AccountLocked
| PasswordChangeRequired
| CsrfFailed
| PasswordTooWeak (e : string)
| Forbidden (e : string)
| LastAdmin
| Conflict (e : string)
| RateLimited
| Runtime (message : string) (grpc_status service method : option string)
| Internal (e : string).
End ConsoleError.

Definition is_terminal (state : string) : bool := bool_decide (state ∈ [COMPLETED; FAILED; CANCELLED]).

Definition legal_transitions : list (string * string) :=
  [(CONFIGURING, VALIDATING); (CONFIGURING, CANCELLED);
   (VALIDATING, CONFIGURING); (VALIDATING, LAUNCHING); (VALIDATING, CANCELLED);
   (LAUNCHING, ACTIVE); (LAUNCHING, FAILED); (LAUNCHING, CANCELLED);
   (ACTIVE, COMPLETED); (ACTIVE, FAILED); (ACTIVE, CANCELLED)].

Definition validate_transition (from to : string) : result unit ConsoleError.t :=
  if bool_decide ((from, to) ∈ legal_transitions) then Ok tt
  else Err (ConsoleError.Conflict ("Invalid state transition: " +:+ from +:+ " → " +:+ to)).

Inductive CancelAction : Type := NoOp | BestEffortAbort | AbortWorkspace.

Definition cancel_action_for_state (state : string) : option CancelAction :=
  if bool_decide (state ∈ [CONFIGURING; VALIDATING]) then Some NoOp
  else if bool_decide (state = LAUNCHING) then Some BestEffortAbort
  else if bool_decide (state = ACTIVE) then Some AbortWorkspace
  else None.

(** ** auth.rs and authorizer.rs *)

Module ConsoleRole.
Inductive t : Type := Admin | Operator | Viewer.
#[global] Instance t_dec : EqDecision t. Proof. solve_decision. Defined.

Definition level (self : t) : Z := match self with Admin => 2 | Operator => 1 | Viewer => 0 end.
Definition has_at_least (self required : t) : bool := level required <=? level self.

Definition fmt (self : t) : string :=
  match self with Admin => "admin" | Operator => "operator" | Viewer => "viewer" end.

Definition from_str (s : string) : result t string :=
  if bool_decide (s = "admin") then Ok Admin
  else if bool_decide (s = "operator") then Ok Operator
  else if bool_decide (s = "viewer") then Ok Viewer
  else Err ("unknown console role: " +:+ s).
End ConsoleRole.

Module AuthenticatedUser.
Record t : Type := mk { user_id : string; username : string; console_role : ConsoleRole.t }.
End AuthenticatedUser.

Module Action.
Inductive t : Type :=
| BrowseTaxonomy | ReloadTaxonomy
| ListOwnProfiles | ListAllProfiles | ViewOwnProfile | ViewAnyProfile | CreateProfile
| EditOwnProfile | EditAnyProfile | DeleteOwnProfile | DeleteAnyProfile | ExportProfile | ImportProfile
| ListOwnSessions | ListAllSessions | ViewOwnOversight | ViewAnyOversight | CreateSession
| CancelOwnSession | CancelAnySession | ApproveOwnGates | ApproveAnyGates
| HandleOwnEscalations | HandleAnyEscalations | InjectOwnDirectives | InjectAnyDirectives
| ListUsers | CreateUser | DisableUser | ChangeUserRole | ResetUserPassword
| ListOwnTokens | CreateOwnToken | RevokeOwnToken | ManageAnyTokens
| ViewAuditLog
| ViewSettings | ModifySettings.
#[global] Instance t_dec : EqDecision t. Proof. solve_decision. Defined.
End Action.

Definition is_allowed (role : ConsoleRole.t) (action : Action.t) : bool :=
  match action with
  | Action.BrowseTaxonomy | Action.ListOwnProfiles | Action.ViewOwnProfile | Action.ExportProfile
  | Action.ListOwnSessions | Action.ViewOwnOversight | Action.ListOwnTokens => true
  | Action.CreateProfile | Action.EditOwnProfile | Action.DeleteOwnProfile | Action.ImportProfile
  | Action.CreateSession | Action.CancelOwnSession | Action.ApproveOwnGates
  | Action.HandleOwnEscalations | Action.InjectOwnDirectives | Action.CreateOwnToken
  | Action.RevokeOwnToken | Action.ViewSettings | Action.ReloadTaxonomy =>
      match role with ConsoleRole.Operator | ConsoleRole.Admin => true | ConsoleRole.Viewer => false end
  | Action.ListAllProfiles | Action.ViewAnyProfile | Action.EditAnyProfile | Action.DeleteAnyProfile
  | Action.ListAllSessions | Action.ViewAnyOversight | Action.CancelAnySession
  | Action.ApproveAnyGates | Action.HandleAnyEscalations | Action.InjectAnyDirectives
  | Action.ListUsers | Action.CreateUser | Action.DisableUser | Action.ChangeUserRole
  | Action.ResetUserPassword | Action.ManageAnyTokens | Action.ViewAuditLog | Action.ModifySettings =>
      match role with ConsoleRole.Admin => true | _ => false end
  end.

(** The message of the error names the role and the action. *)
Definition authorize (user : AuthenticatedUser.t) (action : Action.t) :
    result unit (ConsoleRole.t * Action.t) :=
  if is_allowed (AuthenticatedUser.console_role user) action then Ok tt
  else Err (AuthenticatedUser.console_role user, action).

Definition authorize_owned (user : AuthenticatedUser.t) (own_action any_action : Action.t)
    (resource_owner_id : string) : result unit (ConsoleRole.t * Action.t) :=
  if bool_decide (AuthenticatedUser.user_id user = resource_owner_id)
  then authorize user own_action else authorize user any_action.

(** ** Rows and queries of console-db *)

Module SessionRow.
Record t : Type := mk {
  id : string;
  name : option string;
  owner_user_id : string;
  vertical : string;
  workflow : string;
  context : option string;
  coordinator_workspace_id : option string;
  state : string;
  created_at : string;
  launched_at : option string;
  closed_at : option string;
  budget_max_cost_micros : option Z;
  budget_max_tokens : option Z;
  budget_max_wall_time_ms : option Z;
}.
#[global] Instance eta_t : Settable t := λ r,
  mk (id r) (name r) (owner_user_id r) (vertical r) (workflow r) (context r)
    (coordinator_workspace_id r) (state r) (created_at r) (launched_at r) (closed_at r)
    (budget_max_cost_micros r) (budget_max_tokens r) (budget_max_wall_time_ms r).
End SessionRow.

Module SessionAssignmentRow.
Record t : Type := mk {
  id : string;
  session_id : string;
  role_ref : string;
  stage_id : option string;
  slot_position : Z;
  profile_id : string;
  profile_version : Z;
  workspace_id : option string;
  budget_max_cost_micros : option Z;
  budget_max_tokens : option Z;
  budget_max_wall_time_ms : option Z;
}.
#[global] Instance eta_t : Settable t := λ r,
  mk (id r) (session_id r) (role_ref r) (stage_id r) (slot_position r) (profile_id r)
    (profile_version r) (workspace_id r) (budget_max_cost_micros r) (budget_max_tokens r)
    (budget_max_wall_time_ms r).
End SessionAssignmentRow.

Module ProfileRow.
Record t : Type := mk {
  id : string;
  version : Z;
  name : string;
  description : option string;
  tags : option string;
  role_ref : string;
  llm_provider : string;
  llm_model : string;
  llm_temperature : option spec_float;
  llm_max_tokens : option Z;
  autonomy : string;
  tool_allowlist : option string;
  tool_denylist : option string;
  budget_max_cost_micros : option Z;
  budget_max_tokens : option Z;
  budget_max_wall_time_ms : option Z;
  budget_warning_threshold : option spec_float;
  owner_user_id : string;
  visibility : string;
  is_current : bool;
  created_at : string;
  deleted_at : option string;
}.
End ProfileRow.

Module Db.
Record t : Type := mk {
  sessions : gmap string SessionRow.t;
  session_assignments : gmap string SessionAssignmentRow.t;
  profiles : list ProfileRow.t;
}.
#[global] Instance eta_t : Settable t := λ r, mk (sessions r) (session_assignments r) (profiles r).
End Db.

(** [UPDATE .. WHERE id = ? AND p]: the row after the statement, if it matched. *)
Definition update_session (id : string) (p : SessionRow.t → bool) (f : SessionRow.t → SessionRow.t)
    (db : Db.t) : Db.t * bool :=
  match Db.sessions db !! id with
  | Some row => if p row then (db <| Db.sessions ::= <[id := f row]> |>, true) else (db, false)
  | None => (db, false)
  end.

Module Sessions.
Definition get_by_id (id : string) (db : Db.t) : option SessionRow.t := Db.sessions db !! id.

Definition transition_state (id from_state to_state now : string) : Db.t → Db.t * bool :=
  update_session id (λ row, bool_decide (SessionRow.state row = from_state))
    (if bool_decide (to_state = "active")
     then λ row, row <| SessionRow.state := to_state |> <| SessionRow.launched_at := Some now |>
     else if bool_decide (to_state ∈ ["completed"; "failed"; "cancelled"])
     then λ row, row <| SessionRow.state := to_state |> <| SessionRow.closed_at := Some now |>
     else λ row, row <| SessionRow.state := to_state |>).

(** The query after its SELECT, which read [seen] in an earlier statement. *)
Definition cancel (id now : string) (seen : option SessionRow.t) (db : Db.t) : Db.t * option string :=
  match seen with
  | None => (db, None)
  | Some session =>
      if bool_decide (SessionRow.state session ∈ ["completed"; "failed"; "cancelled"]) then (db, None)
      else
        let '(db, hit) := update_session id
          (λ row, bool_decide (SessionRow.state row ∉ ["completed"; "failed"; "cancelled"]))
          (λ row, row <| SessionRow.state := "cancelled" |> <| SessionRow.closed_at := Some now |>) db in
        (db, if hit then Some (SessionRow.state session) else None)
  end.

Definition set_coordinator_workspace_id (id workspace_id : string) : Db.t → Db.t * bool :=
  update_session id (λ _, true) (λ row, row <| SessionRow.coordinator_workspace_id := Some workspace_id |>).

Definition update_context (id context : string) : Db.t → Db.t * bool :=
  update_session id (λ row, bool_decide (SessionRow.state row = "configuring"))
    (λ row, row <| SessionRow.context := Some context |>).

(** [SELECT .. WHERE state = 'active'], in the order of the scan. *)
Definition list_active `{HashOrder} (db : Db.t) : list SessionRow.t :=
  filter (λ row, SessionRow.state row = "active") (values (Db.sessions db)).
End Sessions.

Module SessionAssignments.
Definition slot_le (a b : SessionAssignmentRow.t) : Prop :=
  SessionAssignmentRow.slot_position a ≤ SessionAssignmentRow.slot_position b.
#[global] Instance slot_le_dec : RelDecision slot_le. Proof. intros a b. apply Z.le_dec. Defined.

(** [ORDER BY slot_position ASC]; positions are unique within a session. *)
Definition list_by_session (session_id : string) (db : Db.t) : list SessionAssignmentRow.t :=
  merge_sort slot_le
    (filter (λ a, SessionAssignmentRow.session_id a = session_id)
       (map_to_list (Db.session_assignments db)).*2).

Definition set_workspace_id (id workspace_id : string) (db : Db.t) : Db.t :=
  db <| Db.session_assignments ::= alter (set SessionAssignmentRow.workspace_id (λ _, Some workspace_id)) id |>.
End SessionAssignments.

(** The statements of [SessionLauncher::finalize]: one transaction, rolled back when the
    session has left LAUNCHING. *)
Definition finalize_sql (session_id root_workspace_id now : string) (launched : list (string * string))
    (db : Db.t) : Db.t * bool :=
  let '(db', hit) := update_session session_id
    (λ row, bool_decide (SessionRow.state row = LAUNCHING))
    (λ row, row <| SessionRow.state := ACTIVE |>
                <| SessionRow.coordinator_workspace_id := Some root_workspace_id |>
                <| SessionRow.launched_at := Some now |>) db in
  if hit
  then (foldl (λ db '(assignment_id, workspace_id),
                 SessionAssignments.set_workspace_id assignment_id workspace_id db) db' launched, true)
  else (db, false).

Module Profiles.
Definition get_current (id : string) (db : Db.t) : option ProfileRow.t :=
  snd <$> list_find (λ p, ProfileRow.id p = id ∧ ProfileRow.is_current p = true
                          ∧ ProfileRow.deleted_at p = None) (Db.profiles db).
End Profiles.

(** ** Theory: the permission matrix *)

(** Roles are nested: whatever a role may do every role at or above it may do; the
    action on any resource implies the same action on one's own; and the matrix gives a
    viewer only reading, an operator everything on what they own. *)
Theorem roles_nested (r r' : ConsoleRole.t) (a : Action.t) (user : AuthenticatedUser.t) (owner : string) :
  (ConsoleRole.has_at_least r' r = true → is_allowed r a = true → is_allowed r' a = true)
  ∧ is_allowed ConsoleRole.Admin a = true
  ∧ ConsoleRole.from_str (ConsoleRole.fmt r) = Ok r
  ∧ (∀ own any, (own, any) ∈
       [(Action.ViewOwnProfile, Action.ViewAnyProfile); (Action.EditOwnProfile, Action.EditAnyProfile);
        (Action.DeleteOwnProfile, Action.DeleteAnyProfile); (Action.ViewOwnOversight, Action.ViewAnyOversight);
        (Action.CancelOwnSession, Action.CancelAnySession); (Action.ApproveOwnGates, Action.ApproveAnyGates);
        (Action.HandleOwnEscalations, Action.HandleAnyEscalations);
        (Action.InjectOwnDirectives, Action.InjectAnyDirectives)] →
     authorize_owned user own any owner = Ok tt ↔
     AuthenticatedUser.console_role user = ConsoleRole.Admin
     ∨ AuthenticatedUser.user_id user = owner
       ∧ (own ∈ [Action.ViewOwnProfile; Action.ViewOwnOversight]
          ∨ AuthenticatedUser.console_role user = ConsoleRole.Operator)).
Proof.
  split_and!; [by destruct r, r', a|by destruct a|by destruct r|].
  intros own any Hin. unfold authorize_owned, authorize.
  destruct (AuthenticatedUser.console_role user) eqn:Hr; case_bool_decide as Ho;
    repeat (apply elem_of_cons in Hin as [[= -> ->]|Hin]; [cbn; set_solver|]);
    by apply elem_of_nil in Hin.
Qed.

(** ** Theory: the lifecycle over a history of queries

    Queries of concurrent requests interleave statement by statement.  The pairs are
    those the launch handler, the launcher, the monitor and startup recovery pass to
    [transition_state]; [Finalize] is the launcher's transaction; the UPDATE of [Cancel] runs
    after any row its SELECT may have read. *)

Definition used_transitions : list (string * string) :=
  [(CONFIGURING, VALIDATING); (VALIDATING, CONFIGURING); (VALIDATING, LAUNCHING);
   (LAUNCHING, FAILED); (ACTIVE, FAILED); (ACTIVE, COMPLETED)].

Inductive query : Type :=
| Transition (id from to now : string)
| Finalize (id root now : string) (launched : list (string * string))
| Cancel (id now : string) (seen : option SessionRow.t)
| UpdateContext (id context : string)
| ListActive.

Definition query_ok (q : query) : Prop :=
  match q with Transition _ from to _ => (from, to) ∈ used_transitions | _ => True end.

Definition run_query (db : Db.t) (q : query) : Db.t :=
  match q with
  | Transition id from to now => (Sessions.transition_state id from to now db).1
  | Finalize id root now launched => (finalize_sql id root now launched db).1
  | Cancel id now seen => (Sessions.cancel id now seen db).1
  | UpdateContext id context => (Sessions.update_context id context db).1
  | ListActive => db
  end.

Definition legal (from to : string) : Prop := validate_transition from to = Ok tt.

(** A row is in a state of the schema's CHECK, is closed exactly when its state is
    terminal, and has its root workspace and its launch time when it is active. *)
Record row_ok (row : SessionRow.t) : Prop := {
  row_state : SessionRow.state row ∈
    [CONFIGURING; VALIDATING; LAUNCHING; ACTIVE; COMPLETED; FAILED; CANCELLED];
  row_closed : is_Some (SessionRow.closed_at row) ↔ is_terminal (SessionRow.state row) = true;
  row_active : SessionRow.state row = ACTIVE →
    is_Some (SessionRow.coordinator_workspace_id row) ∧ is_Some (SessionRow.launched_at row);
}.

(** How one query may change a row: a legal transition, or no change of state. *)
Definition row_step (row row' : SessionRow.t) : Prop :=
  row_ok row → row_ok row'
  ∧ (legal (SessionRow.state row) (SessionRow.state row')
     ∨ SessionRow.state row' = SessionRow.state row
       ∧ SessionRow.closed_at row' = SessionRow.closed_at row).

Lemma row_step_refl row : row_step row row.
Proof. intros ?. split; [done|]. by right. Qed.

Lemma update_session_rows id p f db id' row :
  (∀ row, p row = true → row_step row (f row)) →
  Db.sessions db !! id' = Some row →
  ∃ row', Db.sessions (update_session id p f db).1 !! id' = Some row' ∧ row_step row row'.
Proof.
  intros Hf Hrow. unfold update_session.
  destruct (Db.sessions db !! id) as [row0|] eqn:H0; [|by exists row; auto using row_step_refl].
  destruct (p row0) eqn:Hp; [|by exists row; auto using row_step_refl]. cbn.
  destruct (decide (id' = id)) as [->|Hne].
  - rewrite lookup_insert_eq. simplify_eq. eauto.
  - rewrite lookup_insert_ne by done. exists row. auto using row_step_refl.
Qed.

Lemma is_terminal_open state : is_terminal state = false ↔ state ∉ [COMPLETED; FAILED; CANCELLED].
Proof. unfold is_terminal. by rewrite bool_decide_eq_false. Qed.

Lemma row_open row : row_ok row → is_terminal (SessionRow.state row) = false → SessionRow.closed_at row = None.
Proof.
  intros [_ Hc _] Ht. destruct (SessionRow.closed_at row) eqn:E; [|done].
  destruct Hc as [Hc _]. rewrite Hc in Ht by eauto. done.
Qed.

Lemma closed_some (now : string) (b : bool) : b = true → is_Some (Some now) ↔ b = true.
Proof. intros ->. split; eauto. Qed.

Lemma closed_none (c : option string) (b : bool) : c = None → b = false → is_Some c ↔ b = true.
Proof. intros -> ->. split; [by intros [? [=]]|done]. Qed.

Lemma transition_row_step from to now row :
  (from, to) ∈ used_transitions → SessionRow.state row = from →
  row_step row ((if bool_decide (to = "active")
     then λ row, row <| SessionRow.state := to |> <| SessionRow.launched_at := Some now |>
     else if bool_decide (to ∈ ["completed"; "failed"; "cancelled"])
     then λ row, row <| SessionRow.state := to |> <| SessionRow.closed_at := Some now |>
     else λ row, row <| SessionRow.state := to |>) row).
Proof.
  intros Hin Hs Hok. pose proof (row_open row Hok) as Ho. rewrite Hs in *.
  unfold used_transitions in Hin.
  repeat (apply elem_of_cons in Hin as [[= -> ->]|Hin];
    [specialize (Ho eq_refl); split;
       [constructor; cbn; [apply (bool_decide_unpack _); vm_compute; exact I
          |first [by apply closed_some|by apply closed_none]|done]
       |left; reflexivity]|]).
  by apply elem_of_nil in Hin.
Qed.

Lemma finalize_row_step root now row :
  SessionRow.state row = LAUNCHING →
  row_step row (row <| SessionRow.state := ACTIVE |>
    <| SessionRow.coordinator_workspace_id := Some root |> <| SessionRow.launched_at := Some now |>).
Proof.
  intros Hs Hok. pose proof (row_open row Hok) as Ho. rewrite Hs in *. specialize (Ho eq_refl).
  split; [constructor; cbn|left; reflexivity].
  - apply (bool_decide_unpack _). vm_compute. exact I.
  - by apply closed_none.
  - eauto.
Qed.

Lemma cancel_row_step now row :
  SessionRow.state row ∉ ["completed"; "failed"; "cancelled"] →
  row_step row (row <| SessionRow.state := "cancelled" |> <| SessionRow.closed_at := Some now |>).
Proof.
  intros Hs Hok. destruct Hok as [Hstate _ _]. split; [constructor; cbn|].
  - apply (bool_decide_unpack _). vm_compute. exact I.
  - by apply closed_some.
  - done.
  - left. cbn. unfold COMPLETED, FAILED, CANCELLED in Hstate.
    repeat (apply elem_of_cons in Hstate as [Hstate|Hstate];
      [rewrite Hstate in *; first [reflexivity|exfalso; set_solver]|]).
    by apply elem_of_nil in Hstate.
Qed.

Lemma run_query_rows q db id row :
  query_ok q → Db.sessions db !! id = Some row →
  ∃ row', Db.sessions (run_query db q) !! id = Some row' ∧ row_step row row'.
Proof.
  destruct q as [qid from to now|qid root now launched|qid now seen|qid ctx|]; cbn [query_ok run_query];
    intros Hq Hrow; [| | | |by exists row; auto using row_step_refl].
  - apply update_session_rows; [|done]. intros r Hr%bool_decide_eq_true.
    by apply (transition_row_step from).
  - unfold finalize_sql.
    destruct (update_session_rows qid (λ row, bool_decide (SessionRow.state row = LAUNCHING))
      (λ row, row <| SessionRow.state := ACTIVE |> <| SessionRow.coordinator_workspace_id := Some root |>
                  <| SessionRow.launched_at := Some now |>) db id row) as (row' & Hrow' & Hstep); [|done|].
    { intros r Hr%bool_decide_eq_true. by apply finalize_row_step. }
    destruct (update_session _ _ _ db) as [db' hit]. cbn in Hrow'.
    destruct hit; [|by exists row; auto using row_step_refl]. cbn. exists row'. split; [|done].
    rewrite <-Hrow'. clear. revert db'. induction launched as [|[a w] l IH]; intros db'; [done|].
    cbn. by rewrite IH.
  - unfold Sessions.cancel. destruct seen as [session|]; [|by exists row; auto using row_step_refl].
    case_bool_decide; [by exists row; auto using row_step_refl|].
    destruct (update_session_rows qid (λ row, bool_decide (SessionRow.state row ∉ ["completed"; "failed"; "cancelled"]))
      (λ row, row <| SessionRow.state := "cancelled" |> <| SessionRow.closed_at := Some now |>) db id row)
      as (row' & Hrow' & Hstep); [|done|].
    { intros r Hr%bool_decide_eq_true. by apply cancel_row_step. }
    destruct (update_session _ _ _ db) as [db' hit]. by exists row'.
  - apply update_session_rows; [|done]. intros r Hr%bool_decide_eq_true [Hst Hc Ha].
    split; [constructor|]; cbn; auto.
Qed.

Lemma legal_terminal s s' : legal s s' → is_terminal s = false.
Proof.
  unfold legal, validate_transition. case_bool_decide as Hin; [intros _|done].
  unfold legal_transitions in Hin.
  repeat (apply elem_of_cons in Hin as [[= -> ->]|Hin]; [done|]). by apply elem_of_nil in Hin.
Qed.

(** C6. Under any interleaving of the queries that concurrent launches, cancellations,
    monitors and recovery send, the states a session goes through form a path of the
    lifecycle, a closed session keeps its state and its closing time, a session is
    closed exactly in a terminal state, and an active session has its root workspace. *)
Theorem sessions_lifecycle qs db id row
    (Hqs : Forall query_ok qs) (Hrow : Db.sessions db !! id = Some row) (Hok : row_ok row) :
  ∃ row', Db.sessions (foldl run_query db qs) !! id = Some row' ∧ row_ok row'
  ∧ rtc legal (SessionRow.state row) (SessionRow.state row')
  ∧ (is_terminal (SessionRow.state row) = true →
     SessionRow.state row' = SessionRow.state row ∧ SessionRow.closed_at row' = SessionRow.closed_at row).
Proof.
  induction qs as [|q qs IH] using rev_ind; [by exists row; eauto using rtc_refl|].
  apply Forall_app in Hqs as [Hqs Hq]. rewrite Forall_singleton in Hq.
  destruct (IH Hqs) as (row1 & Hrow1 & Hok1 & Hpath & Hterm).
  rewrite foldl_snoc. destruct (run_query_rows q _ id row1 Hq Hrow1) as (row2 & Hrow2 & Hstep).
  destruct (Hstep Hok1) as [Hok2 Hchange]. exists row2. split_and!; [done..| |].
  - destruct Hchange as [Hl|[-> _]]; [|done]. eapply rtc_r; [exact Hpath|exact Hl].
  - intros Ht. destruct (Hterm Ht) as [Hs Hc]. destruct Hchange as [Hl|[-> ->]]; [|done].
    apply legal_terminal in Hl. congruence.
Qed.

Lemma sessions_lifecycle_witness :
  let row := SessionRow.mk "s1" None "ann" "eng" "review" None None "configuring" "t0" None None None None None in
  let db := Db.mk {[ "s1" := row ]} ∅ [] in
  let qs := [Transition "s1" "configuring" "validating" "t1"; Transition "s1" "validating" "launching" "t1";
             Cancel "s1" "t2" (Some row); Finalize "s1" "ws-1" "t3" []; Transition "s1" "launching" "failed" "t4"] in
  ∃ row', Db.sessions (foldl run_query db qs) !! "s1" = Some row' ∧ SessionRow.state row' = "cancelled".
Proof.
  intros row db qs.
  assert (Hqs : Forall query_ok qs).
  { repeat constructor; apply (bool_decide_unpack _); vm_compute; exact I. }
  assert (Hok : row_ok row).
  { constructor; cbn; [apply (bool_decide_unpack _); vm_compute; exact I|by apply closed_none|done]. }
  destruct (sessions_lifecycle qs db "s1" row Hqs eq_refl Hok) as (row' & Hrow & _).
  exists row'. split; [exact Hrow|]. vm_compute in Hrow. injection Hrow as <-. reflexivity.
Defined.
