(* ===== verification/Api.v ===== *)
(** * Common parts of the console's HTTP interface (console-api: error.rs, middleware.rs;
    console-core: audit.rs)

    The errors of the API, cookies and the CSRF check, the audit entries, and requests as
    programs: a handler is the sequence of the database statements it runs, each of which
    may fail, so that requests can be run one by one or interleaved. *)

From Stdlib Require Import Ascii.
From S2P Require Import Prelude Types Std Proto Console.

(** ** error.rs *)

Module ErrorDetails.
Inductive t : Type :=
| Cause (message : string)
| Violations (violations warnings : list Violation.t)
| Rpc (grpc_status service method : option string)
| Grpc (code : Code.t) (service method : string)
| Service (service method : string).
End ErrorDetails.

Module ApiError.
Record t : Type := mk { status : Z; error : string; message : string; details : option ErrorDetails.t }.

(** [From<ConsoleError>] *)
Definition from (err : ConsoleError.t) : t :=
  match err with
  | ConsoleError.Database msg =>
      mk 500 "internal_error" "An internal error occurred" (Some (ErrorDetails.Cause msg))
  | ConsoleError.NotFound entity id => mk 404 "not_found" (entity +:+ " '" +:+ id +:+ "' not found") None
  | ConsoleError.Validation message violations warnings =>
      mk 422 "validation_failed" message (Some (ErrorDetails.Violations violations warnings))
  | ConsoleError.Unauthenticated => mk 401 "unauthenticated" "Authentication required" None
  | ConsoleError.AccountLocked =>
      mk 401 "account_locked" "Account is locked due to too many failed login attempts" None
  | ConsoleError.PasswordChangeRequired =>
      mk 403 "password_change_required" "You must change your password before continuing" None
  | ConsoleError.CsrfFailed => mk 403 "csrf_validation_failed" "CSRF token missing or invalid" None
  | ConsoleError.PasswordTooWeak reason => mk 422 "password_too_weak" reason None
  | ConsoleError.Forbidden reason => mk 403 "forbidden" reason None
  | ConsoleError.LastAdmin => mk 403 "last_admin" "Cannot remove the only admin account" None
  | ConsoleError.Conflict msg => mk 409 "conflict" msg None
  | ConsoleError.RateLimited => mk 429 "rate_limited" "Too many requests, please try again later" None
  | ConsoleError.Runtime message grpc_status service method =>
      mk 502 "runtime_error" message (Some (ErrorDetails.Rpc grpc_status service method))
  | ConsoleError.Internal msg => mk 500 "internal_error" msg None
  end.

Definition bad_request (message : string) : t := mk 400 "bad_request" message None.
Definition not_found (entity id : string) : t := from (ConsoleError.NotFound entity id).

Definition from_tonic (s : Status.t) (service method : string) : t :=
  let '(status, code, message) :=
    match Status.code s with
    | Code.NotFound => (404, "not_found", Status.message s)
    | Code.FailedPrecondition => (409, "conflict", Status.message s)
    | Code.Unavailable | Code.DeadlineExceeded => (503, "runtime_unavailable", Status.message s)
    | Code.PermissionDenied => (403, "forbidden", Status.message s)
    | _ => (502, "runtime_error", "runtime: " +:+ Status.message s)
    end in
  mk status code message (Some (ErrorDetails.Grpc (Status.code s) service method)).

Definition runtime_unavailable (service method : string) : t :=
  mk 503 "runtime_unavailable" (service +:+ "." +:+ method +:+ " unavailable: pool has no live channel")
    (Some (ErrorDetails.Service service method)).
End ApiError.

(** ** middleware.rs *)

(** The headers whose value is text, by name. *)
Abbreviation HeaderMap := (gmap string string).

Definition cookie_pair (name pair : string) : option string :=
  match split_once "="%char (trim_str pair) with
  | Some (k, v) => if bool_decide (trim_str k = name) then Some (trim_str v) else None
  | None => None
  end.

Definition extract_cookie (headers : HeaderMap) (name : string) : option string :=
  headers !! "cookie" ≫= λ text, head (omap (cookie_pair name) (split_on ";"%char text)).

Definition is_bearer_auth (headers : HeaderMap) : bool :=
  match headers !! "authorization" with Some v => starts_with "Bearer " v | None => false end.

Definition validate_csrf (headers : HeaderMap) (is_bearer_auth : bool) : result unit ConsoleError.t :=
  if is_bearer_auth then Ok tt
  else
    match extract_cookie headers "wcon_csrf", headers !! "x-csrf-token" with
    | Some cookie_value, Some header_value =>
        if bool_decide (cookie_value = header_value) then Ok tt else Err ConsoleError.CsrfFailed
    | _, _ => Err ConsoleError.CsrfFailed
    end.

Module RequestContext.
Record t : Type := mk { ip : string; user_agent : string }.
End RequestContext.

(** ** authorizer.rs: the text of a refusal *)

Definition action_debug (a : Action.t) : string :=
  match a with
  | Action.BrowseTaxonomy => "BrowseTaxonomy" | Action.ReloadTaxonomy => "ReloadTaxonomy"
  | Action.ListOwnProfiles => "ListOwnProfiles" | Action.ListAllProfiles => "ListAllProfiles"
  | Action.ViewOwnProfile => "ViewOwnProfile" | Action.ViewAnyProfile => "ViewAnyProfile"
  | Action.CreateProfile => "CreateProfile" | Action.EditOwnProfile => "EditOwnProfile"
  | Action.EditAnyProfile => "EditAnyProfile" | Action.DeleteOwnProfile => "DeleteOwnProfile"
  | Action.DeleteAnyProfile => "DeleteAnyProfile" | Action.ExportProfile => "ExportProfile"
  | Action.ImportProfile => "ImportProfile" | Action.ListOwnSessions => "ListOwnSessions"
  | Action.ListAllSessions => "ListAllSessions" | Action.ViewOwnOversight => "ViewOwnOversight"
  | Action.ViewAnyOversight => "ViewAnyOversight" | Action.CreateSession => "CreateSession"
  | Action.CancelOwnSession => "CancelOwnSession" | Action.CancelAnySession => "CancelAnySession"
  | Action.ApproveOwnGates => "ApproveOwnGates" | Action.ApproveAnyGates => "ApproveAnyGates"
  | Action.HandleOwnEscalations => "HandleOwnEscalations" | Action.HandleAnyEscalations => "HandleAnyEscalations"
  | Action.InjectOwnDirectives => "InjectOwnDirectives" | Action.InjectAnyDirectives => "InjectAnyDirectives"
  | Action.ListUsers => "ListUsers" | Action.CreateUser => "CreateUser" | Action.DisableUser => "DisableUser"
  | Action.ChangeUserRole => "ChangeUserRole" | Action.ResetUserPassword => "ResetUserPassword"
  | Action.ListOwnTokens => "ListOwnTokens" | Action.CreateOwnToken => "CreateOwnToken"
  | Action.RevokeOwnToken => "RevokeOwnToken" | Action.ManageAnyTokens => "ManageAnyTokens"
  | Action.ViewAuditLog => "ViewAuditLog" | Action.ViewSettings => "ViewSettings"
  | Action.ModifySettings => "ModifySettings"
  end.

Definition authorized (auth : AuthenticatedUser.t) (action : Action.t) : result unit ConsoleError.t :=
  result_map_err (λ e, ConsoleError.Forbidden (ConsoleRole.fmt e.1 +:+ " cannot perform " +:+ action_debug e.2))
    (authorize auth action).

(** ** audit.rs *)

Module AuditAction.
Inductive t : Set :=
| UserCreate | UserDisable | UserEnable | UserChangeRole | UserResetPassword
| AuthLogin | AuthLogout | AuthChangePassword | TokenCreate | TokenRevoke
| ProfileCreate | ProfileUpdate | ProfileDelete | ProfileClone | ProfileImport | ProfileVisibilityChange
| SessionCreate | SessionLaunch | SessionCancel | SessionGateApprove | SessionGateReject
| SessionEscalationRespond | SessionInjectDirective | SettingsUpdate.

Definition as_str (self : t) : string :=
  match self with
  | UserCreate => "user.create" | UserDisable => "user.disable" | UserEnable => "user.enable"
  | UserChangeRole => "user.change_role" | UserResetPassword => "user.reset_password"
  | AuthLogin => "auth.login" | AuthLogout => "auth.logout" | AuthChangePassword => "auth.change_password"
  | TokenCreate => "token.create" | TokenRevoke => "token.revoke"
  | ProfileCreate => "profile.create" | ProfileUpdate => "profile.update" | ProfileDelete => "profile.delete"
  | ProfileClone => "profile.clone" | ProfileImport => "profile.import"
  | ProfileVisibilityChange => "profile.visibility_change"
  | SessionCreate => "session.create" | SessionLaunch => "session.launch" | SessionCancel => "session.cancel"
  | SessionGateApprove => "session.gate_approve" | SessionGateReject => "session.gate_reject"
  | SessionEscalationRespond => "session.escalation_respond"
  | SessionInjectDirective => "session.inject_directive"
  | SettingsUpdate => "settings.update"
  end.

Definition target_kind (self : t) : string :=
  match self with
  | UserCreate | UserDisable | UserEnable | UserChangeRole | UserResetPassword
  | AuthLogin | AuthLogout | AuthChangePassword => "user"
  | TokenCreate | TokenRevoke => "token"
  | ProfileCreate | ProfileUpdate | ProfileDelete | ProfileClone | ProfileImport
  | ProfileVisibilityChange => "profile"
  | SessionCreate | SessionLaunch | SessionCancel | SessionGateApprove | SessionGateReject
  | SessionEscalationRespond | SessionInjectDirective => "session"
  | SettingsUpdate => "settings"
  end.
End AuditAction.

(** The objects the routes log. *)
Inductive AuditDetail :=
| UserDetail (username role : string)
| RoleDetail (new_role : string)
| NameDetail (name : string)
| VersionDetail (version : Z)
| RollbackDetail (rollback_from_version new_version : Z)
| SourceDetail (source_id : string)
| SessionDetail (vertical workflow : string)
| LaunchDetail (coordinator_workspace_id : string)
| CancelDetail (from_state reason : option string)
| CloneDetail (cloned_from : string)
| GateDetail (session_id decision : string) (reason : option string) (batch runtime_applied : bool)
| EscalationDetail (session_id response : string) (runtime_applied : bool)
| InjectDetail (workspace_id envelope_id : string).

Module AuditEntry.
Record t : Type := mk {
  user_id : string; action : AuditAction.t; target_id : string; detail : option AuditDetail; ip : string; user_agent : string;
}.
End AuditEntry.

(** The row written, but for its random id and its date. *)
Module AuditRow.
Record t : Type := mk {
  user_id : string; action : string; target_kind : string; target_id : string; detail : option AuditDetail;
  ip : string; user_agent : string;
}.
End AuditRow.

Definition audit_row (e : AuditEntry.t) : AuditRow.t :=
  AuditRow.mk (AuditEntry.user_id e) (AuditAction.as_str (AuditEntry.action e))
    (AuditAction.target_kind (AuditEntry.action e)) (AuditEntry.target_id e) (AuditEntry.detail e)
    (AuditEntry.ip e) (AuditEntry.user_agent e).

(** ** Requests as programs

    A statement reads and changes the state in one step and answers with a value or with
    the text of an error; the rest of the program depends on the answer. *)

Inductive prog (S A : Type) : Type :=
| Ret (a : A)
| Stmt (B : Type) (f : S → S * result B string) (k : result B string → prog S A).
Arguments Ret {S A} a.
Arguments Stmt {S A B} f k.

Fixpoint prog_bind {S A B} (p : prog S A) (q : A → prog S B) : prog S B :=
  match p with
  | Ret a => q a
  | Stmt f k => Stmt f (λ r, prog_bind (k r) q)
  end.

Notation "'let!' x ':=' p 'in' k" := (prog_bind p (λ x, k))
  (at level 10, x name, p at level 100, k at level 200) : wacp_scope.

(** [let x = p.await?;] *)
Notation "'let!?' x ':=' p 'in' k" :=
  (prog_bind p (λ r, match r with Ok x => k | Err e => Ret (Err e) end))
  (at level 10, x name, p at level 100, k at level 200) : wacp_scope.

(** [e?] where nothing is awaited. *)
Notation "'let!!' x ':=' e 'in' k" :=
  (match e with Ok x => k | Err err => Ret (Err err) end)
  (at level 10, x name, e at level 100, k at level 200) : wacp_scope.

(** A statement whose error the caller sees as it is, and one it ignores with [.ok()]. *)
Definition exec {S B} (f : S → S * result B string) : prog S (result B string) := Stmt f Ret.
Definition exec_ok {S B} (f : S → S * result B string) : prog S unit := Stmt f (λ _, Ret tt).

(** A query reads only. *)
Definition reads {S B} (f : S → B) : S → S * result B string := λ s, (s, Ok (f s)).

(** One statement: it runs, or fails without an effect. *)
Definition run_stmt {S B} (fault : option string) (f : S → S * result B string) (s : S) : S * result B string :=
  match fault with Some e => (s, Err e) | None => f s end.

(** A request run by itself; [faults] says which of its statements fail. *)
Fixpoint run_prog {S A} (faults : list (option string)) (p : prog S A) (s : S) : S * A :=
  match p with
  | Ret a => (s, a)
  | Stmt f k =>
      let '(s, r) := run_stmt (default None (head faults)) f s in run_prog (tail faults) (k r) s
  end.

(** Requests in progress; the schedule names the one whose next statement runs. *)
Definition prog_step {S A} (fault : option string) (p : prog S A) (s : S) : S * prog S A :=
  match p with
  | Ret a => (s, Ret a)
  | Stmt f k => let '(s, r) := run_stmt fault f s in (s, k r)
  end.

Fixpoint interleave {S A} (schedule : list (nat * option string)) (ps : list (prog S A)) (s : S) :
    S * list (prog S A) :=
  match schedule with
  | [] => (s, ps)
  | (i, fault) :: schedule =>
      match ps !! i with
      | Some p => let '(s, p) := prog_step fault p s in interleave schedule (<[i := p]> ps) s
      | None => interleave schedule ps s
      end
  end.

(** Every statement the program can run, whatever the answers to those before. *)
Fixpoint all_stmts {S A} (R : S → S → Prop) (p : prog S A) : Prop :=
  match p with
  | Ret _ => True
  | Stmt f k => (∀ s, R s (f s).1) ∧ ∀ r, all_stmts R (k r)
  end.

Lemma all_stmts_bind {S A B} R (p : prog S A) (q : A → prog S B) :
  all_stmts R p → (∀ a, all_stmts R (q a)) → all_stmts R (prog_bind p q).
Proof. intros Hp Hq. induction p as [a|C f k IH]; cbn in *; [done|]. naive_solver. Qed.

(** A relation that every statement respects holds of runs and of interleavings. *)
Lemma run_prog_rel {S A} (R : S → S → Prop) `{!PreOrder R} (p : prog S A) faults s :
  all_stmts R p → R s (run_prog faults p s).1.
Proof.
  revert faults s. induction p as [a|B f k IH]; intros faults s Hp; cbn; [reflexivity|].
  destruct Hp as [Hf Hk]. specialize (Hf s).
  destruct (default None (head faults)); cbn; [by apply IH|].
  destruct (f s) as [s' r]. cbn in Hf. etransitivity; [exact Hf|]. by apply IH.
Qed.

Lemma interleave_rel {S A} (R : S → S → Prop) `{!PreOrder R} schedule (ps : list (prog S A)) s :
  Forall (all_stmts R) ps → R s (interleave schedule ps s).1.
Proof.
  revert ps s. induction schedule as [|[i fault] schedule IH]; intros ps s Hps; cbn; [reflexivity|].
  destruct (ps !! i) as [p|] eqn:Hi; [|by apply IH].
  assert (Hp : all_stmts R p) by (by eapply Forall_lookup_1).
  destruct p as [a|B f k]; cbn.
  - apply IH. by apply Forall_insert.
  - destruct Hp as [Hf Hk]. specialize (Hf s). destruct fault as [e|]; cbn.
    + apply IH. by apply Forall_insert.
    + destruct (f s) as [s' r]. cbn in *. etransitivity; [exact Hf|]. apply IH. by apply Forall_insert.
Qed.

Lemma run_prog_bind {S A B} (p : prog S A) (q : A → prog S B) faults s :
  ∃ n, run_prog faults (prog_bind p q) s
       = let '(s, a) := run_prog faults p s in run_prog (drop n faults) (q a) s.
Proof.
  revert faults s. induction p as [a|C f k IH]; intros faults s; cbn; [by exists 0%nat|].
  destruct (run_stmt _ f s) as [s' r]. destruct (IH r (tail faults) s') as [n Hn].
  exists (1 + n)%nat. rewrite Hn. destruct (run_prog _ _ _). destruct faults; cbn; by rewrite ?drop_nil.
Qed.

Lemma run_bind_nil {S A B} (p : prog S A) (q : A → prog S B) s :
  run_prog [] (prog_bind p q) s = let '(s, a) := run_prog [] p s in run_prog [] (q a) s.
Proof. destruct (run_prog_bind p q [] s) as [n ->]. destruct (run_prog [] p s). by rewrite drop_nil. Qed.

(** *** What holds after a request run by itself, whichever of its statements fail *)

Definition prog_spec {S A} (P : S → Prop) (p : prog S A) (Q : A → S → Prop) : Prop :=
  ∀ faults s, P s → Q (run_prog faults p s).2 (run_prog faults p s).1.

Lemma prog_spec_ret {S A} (P : S → Prop) (a : A) (Q : A → S → Prop) : (∀ s, P s → Q a s) → prog_spec P (Ret a) Q.
Proof. intros HQ faults s. apply HQ. Qed.

Lemma prog_spec_bind {S A B} (P : S → Prop) (M : A → S → Prop) (Q : B → S → Prop) (p : prog S A) (q : A → prog S B) :
  prog_spec P p M → (∀ a, prog_spec (M a) (q a) Q) → prog_spec P (prog_bind p q) Q.
Proof.
  intros Hp Hq faults s Hs. destruct (run_prog_bind p q faults s) as [n ->].
  specialize (Hp faults s Hs). destruct (run_prog faults p s) as [s' a]. cbn in Hp. by apply Hq.
Qed.

Lemma prog_spec_stmt {S A B} (P : S → Prop) (Q : A → S → Prop) (f : S → S * result B string) k :
  (∀ s, P s → Q (k (f s).2) (f s).1) → (∀ e s, P s → Q (k (Err e)) s) → prog_spec P (Stmt f (λ r, Ret (k r))) Q.
Proof.
  intros Hf He faults s Hs. cbn. destruct (default None (head faults)) as [e|]; cbn; [by apply He|].
  specialize (Hf s Hs). by destruct (f s).
Qed.

Lemma prog_spec_mono {S A} (P P' : S → Prop) (Q Q' : A → S → Prop) (p : prog S A) :
  prog_spec P' p Q' → (∀ s, P s → P' s) → (∀ a s, Q' a s → Q a s) → prog_spec P p Q.
Proof. intros Hp HP HQ faults s Hs. by apply HQ, Hp, HP. Qed.

(** ** Cookies there and back *)

(** The characters of the URL-safe base64 alphabet. *)
Definition base64url (c : Ascii.ascii) : Prop :=
  48 ≤ char_code c ≤ 57 ∨ 65 ≤ char_code c ≤ 90 ∨ 97 ≤ char_code c ≤ 122 ∨ c = "-"%char ∨ c = "_"%char.

Definition base64url_text (s : string) : Prop := Forall base64url (chars s).

(** What a browser sends back for the Set-Cookie headers it got (RFC 6265): the pairs,
    without their attributes. *)
Definition cookie_header (set_cookie : list string) : string :=
  String.concat "; " ((λ s, default "" (head (split_on ";"%char s))) <$> set_cookie).

Lemma base64url_visible s : base64url_text s → Forall visible (chars s).
Proof.
  intros Hs. eapply Forall_impl; [exact Hs|]. unfold base64url, visible.
  intros c [?|[?|[?|[->| ->]]]]; [lia..|done|done].
Qed.

Lemma base64url_no_semicolon s : base64url_text s → ";"%char ∉ chars s.
Proof.
  intros Hs Hin. apply (proj1 (Forall_forall _ _) Hs) in Hin. unfold base64url, char_code in Hin. cbn in Hin.
  destruct Hin as [?|[?|[?|[[=]|[=]]]]]; lia.
Qed.

(** Two pairs, in a Cookie header. *)
Lemma cookies_split a b attrs attrs' :
  ";"%char ∉ chars a → ";"%char ∉ chars b →
  split_on ";"%char (cookie_header [a +:+ String ";" attrs; b +:+ String ";" attrs']) = [a; " " +:+ b].
Proof.
  intros Ha Hb. unfold cookie_header. cbn [fmap list_fmap]. rewrite !split_on_app by done. cbn [head default id from_option].
  change (String.concat "; " [a; b]) with (a +:+ String ";" (" " +:+ b)). rewrite split_on_app by done.
  f_equal. apply split_on_single. rewrite chars_app. intros Hin%elem_of_app. cbn in Hin. set_solver.
Qed.

(** A pair as the server reads it, with the space that precedes the second one or without. *)
Lemma cookie_pair_read name key value :
  split_once "="%char (key +:+ "=" +:+ value) = Some (key, value) →
  Forall visible (chars key) → Forall visible (chars value) →
  let pair := key +:+ "=" +:+ value in
  let r := if bool_decide (key = name) then Some value else None in
  cookie_pair name pair = r ∧ cookie_pair name (" " +:+ pair) = r.
Proof.
  intros Hsplit Hk Hv pair. assert (Hp : Forall visible (chars pair)).
  { unfold pair. rewrite !chars_app. rewrite !Forall_app. split_and!; [done| |done]. repeat constructor; done. }
  unfold cookie_pair. rewrite trim_str_visible, trim_str_space by done. unfold pair. rewrite Hsplit.
  by rewrite !trim_str_visible by done.
Qed.

Lemma login_cookies_back headers sid csrf attrs attrs' :
  base64url_text sid → base64url_text csrf →
  headers !! "cookie" = Some (cookie_header ["wcon_sid=" +:+ sid +:+ String ";" attrs;
                                             "wcon_csrf=" +:+ csrf +:+ String ";" attrs']) →
  extract_cookie headers "wcon_sid" = Some sid ∧ extract_cookie headers "wcon_csrf" = Some csrf.
Proof.
  intros Hs Hc Hh. pose proof (base64url_no_semicolon _ Hs) as Hs'. pose proof (base64url_no_semicolon _ Hc) as Hc'.
  change ("wcon_sid=" +:+ sid +:+ String ";" attrs) with (("wcon_sid=" +:+ sid) +:+ String ";" attrs) in Hh.
  change ("wcon_csrf=" +:+ csrf +:+ String ";" attrs') with (("wcon_csrf=" +:+ csrf) +:+ String ";" attrs') in Hh.
  unfold extract_cookie. rewrite Hh. cbn [mbind option_bind].
  rewrite cookies_split by (rewrite chars_app; intros Hin%elem_of_app; cbn in Hin; set_solver).
  assert (Hvis : ∀ s, base64url_text s → Forall visible (chars s)) by exact base64url_visible.
  destruct (cookie_pair_read "wcon_sid" "wcon_sid" sid eq_refl ltac:(repeat constructor; done) (Hvis _ Hs)) as [Hss _].
  destruct (cookie_pair_read "wcon_csrf" "wcon_sid" sid eq_refl ltac:(repeat constructor; done) (Hvis _ Hs)) as [Hsc _].
  destruct (cookie_pair_read "wcon_csrf" "wcon_csrf" csrf eq_refl ltac:(repeat constructor; done) (Hvis _ Hc)) as [_ Hcc].
  cbn [omap list_omap].
  change ("wcon_sid=" +:+ sid) with ("wcon_sid" +:+ "=" +:+ sid).
  change ("wcon_csrf=" +:+ csrf) with ("wcon_csrf" +:+ "=" +:+ csrf).
  by rewrite Hss, Hsc, Hcc.
Qed.
