(* ===== verification/Launch.v ===== *)
(** * Launching a session, and recovering sessions after a restart

    console-core's session_launcher.rs drives the runtime's coordinator service:
    submit the goal, decompose it, dispatch one workspace per assignment, then record
    the result; on failure it aborts what it created.  recovery.rs reconciles the
    active sessions with the runtime at startup.

    Everything the two meet outside the console is an [Env]: at each step the database
    may fail, other requests may have changed it first, the channel to the runtime may
    be missing, and the runtime answers as it likes.  A [World] holds the database, the
    calls made with their answers, and the number of steps taken.  serde_json is a
    parameter too. *)

From S2P Require Import Prelude Types Std Float Proto Console.

(** ** Types of session_launcher.rs *)

Module LaunchedAssignment.
Record t : Type := mk { assignment_id : string; workspace_id : string }.
End LaunchedAssignment.

Module LaunchOutcome.
Inductive t : Type :=
| Active (coordinator_workspace_id : string) (assignments : list LaunchedAssignment.t)
| AlreadyActive (state : string).
End LaunchOutcome.

Module LaunchStep.
Inductive t : Type := SubmitGoal | Decompose | Dispatch | Finalize.

Definition as_str (self : t) : string :=
  match self with
  | SubmitGoal => "submit_goal"
  | Decompose => "decompose"
  | Dispatch => "dispatch"
  | Finalize => "finalize"
  end.
End LaunchStep.

Module LaunchError.
Inductive t : Type :=
| SessionNotFound (id : string)
| UnexpectedState (state : string)
| NoAssignments
| PoolUnavailable
| Step (step : LaunchStep.t) (reason : string) (source : option Status.t) (recoverable : bool)
| Db (e : string).

Definition reason_code (self : t) : string :=
  match self with
  | SessionNotFound _ => "session_not_found"
  | UnexpectedState s => "unexpected_state_" +:+ s
  | NoAssignments => "no_assignments"
  | PoolUnavailable => "pool_unavailable"
  | Step step reason _ _ => "launch_" +:+ LaunchStep.as_str step +:+ ": " +:+ reason
  | Db msg => "db: " +:+ msg
  end.
End LaunchError.

Module DirectivePayload.
Record t : Type := mk {
  role : string;
  llm_provider : string;
  llm_model : string;
  llm_temperature : option spec_float;
  llm_max_tokens : option Z;
  autonomy : string;
  tools : list string;
  session_context : option string;
  slot_position : Z;
}.
End DirectivePayload.

Module PreparedDirective.
Record t : Type := mk {
  payload_bytes : list Z;
  tools : list string;
  budget : option ProtoResourceBudget.t;
}.
End PreparedDirective.

(** ** Types of recovery.rs *)

Inductive RecoveryFailureReason : Type :=
| StuckInLaunching
| WorkspaceMissing
| DbError (e : string)
| RuntimeError (e : string).

Inductive RecoveryOutcome : Type :=
| Resumed
| SyncedTerminal (state : string)
| Failed (reason : RecoveryFailureReason)
| SkippedUnavailable.

Module RecoveryReport.
Record t : Type := mk {
  resumed : list string;
  synced_terminal : list (string * string);
  failed : list (string * RecoveryFailureReason);
  skipped_unavailable : list string;
}.
#[global] Instance eta_t : Settable t := λ r,
  mk (resumed r) (synced_terminal r) (failed r) (skipped_unavailable r).
End RecoveryReport.

(** The monitors spawned, with the workspaces each watches: the root and the members. *)
Abbreviation ActiveSessionsMap := (gmap string (string * list string)).

Definition workspace_terminal (s : ProtoWorkspaceState.t) : bool :=
  match s with ProtoWorkspaceState.Closed | ProtoWorkspaceState.Failed => true | _ => false end.

(** ** The environment and the world *)

(** A call to the runtime with its answer. *)
Inductive call : Type :=
| CSubmitGoal (description context : string) (reply : result string Status.t)
| CDecompose (tasks : list TaskDefinition.t) (reply : result (list string) Status.t)
| CDispatch (req : DispatchRequest.t) (reply : result string Status.t)
| CAbort (workspace_id reason : string) (reply : result unit Status.t)
| CGetWorkspace (workspace_id : string) (reply : result ProtoWorkspaceState.t Status.t).

(** Indexed by the number of steps taken so far. *)
Class Env : Type := {
  others : nat → Db.t → Db.t;
  db_fault : nat → option string;
  channel : nat → bool;
  highway_channel : nat → bool;
  now_text : nat → string;
  submit_goal : nat → string → string → result string Status.t;
  decompose : nat → list TaskDefinition.t → result (list string) Status.t;
  dispatch : nat → DispatchRequest.t → result string Status.t;
  abort_workspace : nat → string → result unit Status.t;
  get_workspace : nat → string → result ProtoWorkspaceState.t Status.t;
  code_text : Code.t → string;
  string_list : string → option (list string);
  payload_to_vec : DirectivePayload.t → result (list Z) string;
}.

Module World.
Record t : Type := mk { db : Db.t; calls : list call; ticks : nat }.
#[global] Instance eta_t : Settable t := λ r, mk (db r) (calls r) (ticks r).
End World.

Definition M (A : Type) : Type := World.t → World.t * A.

Definition ret {A} (a : A) : M A := λ w, (w, a).
Definition bind {A B} (m : M A) (k : A → M B) : M B := λ w, let '(w, a) := m w in k a w.

Notation "'let*' x ':=' m 'in' k" := (bind m (λ x, k))
  (at level 10, x name, m at level 100, k at level 200) : wacp_scope.

(** Rust's [m.await?]: an error leaves the function. *)
Definition bind_ok {A B E} (m : M (result A E)) (k : A → M (result B E)) : M (result B E) :=
  bind m (λ r, match r with Ok a => k a | Err e => ret (Err e) end).

Notation "'let*?' x ':=' m 'in' k" := (bind_ok m (λ x, k))
  (at level 10, x name, m at level 100, k at level 200) : wacp_scope.

Section WithEnv.
Context `{Env}.

(** One database operation: the others go first, and it may fail. *)
Definition with_db {A} (f : nat → Db.t → Db.t * A) : M (result A string) := λ w,
  let n := World.ticks w in
  let db := others n (World.db w) in
  let w := w <| World.ticks := S n |> in
  match db_fault n with
  | Some e => (w <| World.db := db |>, Err e)
  | None => let '(db, a) := f n db in (w <| World.db := db |>, Ok a)
  end.

Definition query_db {A} (f : Db.t → A) : M (result A string) := with_db (λ _ db, (db, f db)).

(** Whether the pool has a live channel to the coordinator or the highway service. *)
Definition coordinator : M bool := λ w,
  (w <| World.ticks := S (World.ticks w) |>, channel (World.ticks w)).

Definition highway : M bool := λ w,
  (w <| World.ticks := S (World.ticks w) |>, highway_channel (World.ticks w)).

Definition rpc {A} (f : nat → result A Status.t) (event : result A Status.t → call) : M (result A Status.t) :=
  λ w, let r := f (World.ticks w) in
       (w <| World.ticks := S (World.ticks w) |> <| World.calls ::= (λ l, l ++ [event r]) |>, r).

(** ** SessionLauncher *)

Fixpoint abort_each (workspaces : list string) : M unit :=
  match workspaces with
  | [] => ret tt
  | ws :: workspaces =>
      let* _ := rpc (λ n, abort_workspace n ws) (CAbort ws "launch_rollback") in
      abort_each workspaces
  end.

Definition rollback (workspaces : list string) : M unit :=
  let* live := coordinator in
  if live then abort_each workspaces else ret tt.

Definition step_error (step : LaunchStep.t) (status : Status.t) (rollback_workspaces : list string) :
    M LaunchError.t :=
  let recoverable :=
    match Status.code status with
    | Code.Unavailable | Code.DeadlineExceeded | Code.ResourceExhausted => true
    | _ => false
    end in
  let reason := code_text (Status.code status) +:+ ": " +:+ Status.message status in
  let* _ := match rollback_workspaces with [] => ret tt | _ => rollback rollback_workspaces end in
  ret (LaunchError.Step step reason (Some status) recoverable).

(** The reason is only logged. *)
Definition mark_failed (session_id : string) : M unit :=
  let* _ := with_db (λ n, Sessions.transition_state session_id LAUNCHING FAILED (now_text n)) in
  ret tt.

Definition finalize (session_id root_workspace_id : string) (launched : list LaunchedAssignment.t) :
    M (result unit string) :=
  let*? hit := with_db (λ n, finalize_sql session_id root_workspace_id (now_text n)
    ((λ la, (LaunchedAssignment.assignment_id la, LaunchedAssignment.workspace_id la)) <$> launched)) in
  ret (if hit then Ok tt else Err "RowNotFound").

(** A list column: absent or malformed JSON is the empty list. *)
Definition list_column (col : option string) : list string := default [] (col ≫= string_list).

Definition or_else (a b : option Z) : option Z := match a with Some _ => a | None => b end.

Definition budget_of (session : SessionRow.t) (asgn : SessionAssignmentRow.t) (profile : option ProfileRow.t) :
    ProtoResourceBudget.t :=
  let pick a b := default 0 (Z.max 0 <$> or_else a b) in
  {| ProtoResourceBudget.max_tokens :=
       pick (SessionAssignmentRow.budget_max_tokens asgn) (SessionRow.budget_max_tokens session);
     ProtoResourceBudget.max_wall_time_ms :=
       pick (SessionAssignmentRow.budget_max_wall_time_ms asgn) (SessionRow.budget_max_wall_time_ms session);
     ProtoResourceBudget.max_storage_bytes := 0;
     ProtoResourceBudget.max_network_bytes := 0;
     ProtoResourceBudget.max_cost_micros :=
       pick (SessionAssignmentRow.budget_max_cost_micros asgn) (SessionRow.budget_max_cost_micros session);
     ProtoResourceBudget.warning_threshold :=
       default (S754_finite false 13421773 (-24))
         (f32_of_f64 <$> (profile ≫= ProfileRow.budget_warning_threshold)) |}.

Definition effective_tools (p : ProfileRow.t) : list string :=
  filter (λ t, t ∉ list_column (ProfileRow.tool_denylist p)) (list_column (ProfileRow.tool_allowlist p)).

Definition directive_payload (session : SessionRow.t) (asgn : SessionAssignmentRow.t)
    (profile : option ProfileRow.t) : DirectivePayload.t :=
  let mk provider model temperature max_tokens autonomy tools :=
    DirectivePayload.mk (SessionAssignmentRow.role_ref asgn) provider model temperature max_tokens autonomy
      tools (SessionRow.context session) (SessionAssignmentRow.slot_position asgn) in
  match profile with
  | Some p =>
      mk (ProfileRow.llm_provider p) (ProfileRow.llm_model p) (ProfileRow.llm_temperature p)
        (ProfileRow.llm_max_tokens p) (ProfileRow.autonomy p) (effective_tools p)
  | None => mk "" "" None None "supervised" []
  end.

Definition build_directive (session : SessionRow.t) (asgn : SessionAssignmentRow.t) :
    M (result PreparedDirective.t LaunchError.t) :=
  let* profile := query_db (Profiles.get_current (SessionAssignmentRow.profile_id asgn)) in
  ret (let? profile := result_map_err LaunchError.Db profile in
       let payload := directive_payload session asgn profile in
       let? payload_bytes :=
         result_map_err (λ e, LaunchError.Db ("directive serialization failed: " +:+ e))
           (payload_to_vec payload) in
       Ok (PreparedDirective.mk payload_bytes (DirectivePayload.tools payload)
             (Some (budget_of session asgn profile)))).

Fixpoint build_directives (session : SessionRow.t) (assignments : list SessionAssignmentRow.t) :
    M (result (list PreparedDirective.t) LaunchError.t) :=
  match assignments with
  | [] => ret (Ok [])
  | asgn :: assignments =>
      let*? d := build_directive session asgn in
      let*? ds := build_directives session assignments in
      ret (Ok (d :: ds))
  end.

Definition task_definition (session : SessionRow.t) (asgn : SessionAssignmentRow.t) (d : PreparedDirective.t) :
    TaskDefinition.t :=
  let role := SessionAssignmentRow.role_ref asgn in
  {| TaskDefinition.name := SessionRow.workflow session +:+ ":" +:+ role;
     TaskDefinition.description :=
       "role " +:+ role +:+ " slot " +:+ pretty (SessionAssignmentRow.slot_position asgn);
     TaskDefinition.depends_on := [];
     TaskDefinition.role := role;
     TaskDefinition.directive_payload := PreparedDirective.payload_bytes d;
     TaskDefinition.tools := PreparedDirective.tools d |}.

(** Step 3, one workspace per assignment.  [created] are the workspaces so far. *)
Fixpoint dispatch_each (session_id : string)
    (work : list (SessionAssignmentRow.t * PreparedDirective.t * string))
    (created : list string) (launched : list LaunchedAssignment.t) :
    M (result (list string * list LaunchedAssignment.t) LaunchError.t) :=
  match work with
  | [] => ret (Ok (created, launched))
  | (asgn, directive, task_id) :: work =>
      let req := DispatchRequest.mk task_id (SessionAssignmentRow.role_ref asgn)
        (PreparedDirective.payload_bytes directive) (PreparedDirective.tools directive)
        (PreparedDirective.budget directive) in
      let* reply := rpc (λ n, dispatch n req) (CDispatch req) in
      match reply with
      | Ok ws_id =>
          dispatch_each session_id work (created ++ [ws_id])
            (launched ++ [LaunchedAssignment.mk (SessionAssignmentRow.id asgn) ws_id])
      | Err status =>
          let* err := step_error LaunchStep.Dispatch status created in
          let* _ := mark_failed session_id in
          ret (Err err)
      end
  end.

(** Steps 2 to 5, once the goal has its root workspace. *)
Definition launch_tasks (session_id : string) (session : SessionRow.t)
    (assignments : list SessionAssignmentRow.t) (root_ws : string) :
    M (result LaunchOutcome.t LaunchError.t) :=
  let*? directives := build_directives session assignments in
  let tasks := (λ '(asgn, d), task_definition session asgn d) <$> zip assignments directives in
  let* reply := rpc (λ n, decompose n tasks) (CDecompose tasks) in
  match reply with
  | Err status =>
      let* err := step_error LaunchStep.Decompose status [root_ws] in
      let* _ := mark_failed session_id in
      ret (Err err)
  | Ok task_ids =>
      if negb (Nat.eqb (length task_ids) (length assignments)) then
        let err := LaunchError.Step LaunchStep.Decompose
          ("runtime decomposed " +:+ pretty (length task_ids) +:+ " of " +:+ pretty (length assignments)
           +:+ " tasks") None false in
        let* _ := rollback [root_ws] in
        let* _ := mark_failed session_id in
        ret (Err err)
      else
        let*? launched := dispatch_each session_id (zip (zip assignments directives) task_ids) [root_ws] [] in
        let* done := finalize session_id root_ws launched.2 in
        match done with
        | Ok _ => ret (Ok (LaunchOutcome.Active root_ws launched.2))
        | Err e =>
            let err := LaunchError.Step LaunchStep.Finalize ("finalize_db_failed: " +:+ e) None false in
            let* _ := rollback launched.1 in
            let* _ := mark_failed session_id in
            ret (Err err)
        end
  end.

Definition launch (session_id : string) : M (result LaunchOutcome.t LaunchError.t) :=
  let* found := query_db (Sessions.get_by_id session_id) in
  match found with
  | Err e => ret (Err (LaunchError.Db e))
  | Ok None => ret (Err (LaunchError.SessionNotFound session_id))
  | Ok (Some session) =>
      if negb (bool_decide (SessionRow.state session = LAUNCHING)) then
        ret (if bool_decide (SessionRow.state session ∈ [ACTIVE; COMPLETED; FAILED; CANCELLED])
             then Ok (LaunchOutcome.AlreadyActive (SessionRow.state session))
             else Err (LaunchError.UnexpectedState (SessionRow.state session)))
      else
        let* listed := query_db (SessionAssignments.list_by_session session_id) in
        match listed with
        | Err e => ret (Err (LaunchError.Db e))
        | Ok [] =>
            let* _ := mark_failed session_id in
            ret (Err LaunchError.NoAssignments)
        | Ok assignments =>
            let* live := coordinator in
            if negb live then ret (Err LaunchError.PoolUnavailable)
            else
              let description := default (SessionRow.workflow session) (SessionRow.name session) in
              let context := default "" (SessionRow.context session) in
              let* reply := rpc (λ n, submit_goal n description context) (CSubmitGoal description context) in
              match reply with
              | Err status =>
                  let* err := step_error LaunchStep.SubmitGoal status [] in
                  let* _ := mark_failed session_id in
                  ret (Err err)
              | Ok root_ws => launch_tasks session_id session assignments root_ws
              end
        end
  end.

(** ** recovery.rs *)

Definition recovery_mark_failed (session_id : string) : M unit :=
  let* _ := with_db (λ n, Sessions.transition_state session_id ACTIVE FAILED (now_text n)) in
  ret tt.

Definition recover_one (row : SessionRow.t) (active : ActiveSessionsMap) :
    M (ActiveSessionsMap * RecoveryOutcome) :=
  match SessionRow.coordinator_workspace_id row with
  | None =>
      let* _ := recovery_mark_failed (SessionRow.id row) in
      ret (active, Failed StuckInLaunching)
  | Some coord_ws =>
      let* live := highway in
      if negb live then ret (active, SkippedUnavailable)
      else
        let* view := rpc (λ n, get_workspace n coord_ws) (CGetWorkspace coord_ws) in
        match view with
        | Err s =>
            match Status.code s with
            | Code.NotFound =>
                let* _ := recovery_mark_failed (SessionRow.id row) in
                ret (active, Failed WorkspaceMissing)
            | Code.Unavailable | Code.DeadlineExceeded => ret (active, SkippedUnavailable)
            | _ =>
                let* _ := recovery_mark_failed (SessionRow.id row) in
                ret (active, Failed (RuntimeError (Status.message s)))
            end
        | Ok state =>
            if workspace_terminal state then
              let final_state := match state with ProtoWorkspaceState.Failed => FAILED | _ => COMPLETED end in
              let* _ := with_db (λ n, Sessions.transition_state (SessionRow.id row) ACTIVE final_state (now_text n)) in
              ret (active, SyncedTerminal final_state)
            else
              let* listed := query_db (SessionAssignments.list_by_session (SessionRow.id row)) in
              match listed with
              | Err e => ret (active, Failed (DbError e))
              | Ok assignments =>
                  ret (<[SessionRow.id row := (coord_ws, omap SessionAssignmentRow.workspace_id assignments)]> active,
                       Resumed)
              end
        end
  end.

Definition report_one (report : RecoveryReport.t) (id : string) (outcome : RecoveryOutcome) : RecoveryReport.t :=
  match outcome with
  | Resumed => report <| RecoveryReport.resumed ::= (λ l, l ++ [id]) |>
  | SyncedTerminal state => report <| RecoveryReport.synced_terminal ::= (λ l, l ++ [(id, state)]) |>
  | Failed reason => report <| RecoveryReport.failed ::= (λ l, l ++ [(id, reason)]) |>
  | SkippedUnavailable => report <| RecoveryReport.skipped_unavailable ::= (λ l, l ++ [id]) |>
  end.

Fixpoint recover_rows (rows : list SessionRow.t) (active : ActiveSessionsMap) (report : RecoveryReport.t) :
    M (ActiveSessionsMap * RecoveryReport.t) :=
  match rows with
  | [] => ret (active, report)
  | row :: rows =>
      let* r := recover_one row active in
      recover_rows rows r.1 (report_one report (SessionRow.id row) r.2)
  end.

Definition run_recovery `{HashOrder} (active : ActiveSessionsMap) : M (ActiveSessionsMap * RecoveryReport.t) :=
  let report := RecoveryReport.mk [] [] [] [] in
  let* rows := query_db Sessions.list_active in
  match rows with
  | Ok rows => recover_rows rows active report
  | Err _ => ret (active, report)
  end.
End WithEnv.

(** ** Theory: what a launch leaves behind *)

(** The workspaces the runtime created and those that were asked to abort, in order. *)
Definition created (l : list call) : list string :=
  omap (λ c, match c with
             | CSubmitGoal _ _ (Ok ws) | CDispatch _ (Ok ws) => Some ws
             | _ => None
             end) l.

Definition aborted (l : list call) : list string :=
  omap (λ c, match c with CAbort ws _ _ => Some ws | _ => None end) l.

(** The roles of the workspaces the runtime was asked to dispatch, in order. *)
Definition dispatched_roles (l : list call) : list string :=
  omap (λ c, match c with CDispatch req _ => Some (DispatchRequest.role req) | _ => None end) l.

Lemma created_app l l' : created (l ++ l') = created l ++ created l'.
Proof. apply omap_app. Qed.
Lemma dispatched_roles_app l l' : dispatched_roles (l ++ l') = dispatched_roles l ++ dispatched_roles l'.
Proof. apply omap_app. Qed.
Lemma aborted_app l l' : aborted (l ++ l') = aborted l ++ aborted l'.
Proof. apply omap_app. Qed.

(** [m] run in [w] ends in a world and a value that satisfy [Q], having made the calls
    that [Q] receives. *)
Definition ends {A} (m : M A) (w : World.t) (Q : list call → World.t → A → Prop) : Prop :=
  ∃ l w' a, m w = (w', a) ∧ World.calls w' = World.calls w ++ l ∧ Q l w' a.

Lemma ends_ret {A} (a : A) w (Q : list call → World.t → A → Prop) : Q [] w a → ends (ret a) w Q.
Proof. intros HQ. exists [], w, a. by rewrite app_nil_r. Qed.

Lemma ends_bind {A B} (m : M A) (k : A → M B) w (Q : list call → World.t → B → Prop) :
  ends m w (λ l w' a, ends (k a) w' (λ l' w'' b, Q (l ++ l') w'' b)) → ends (bind m k) w Q.
Proof.
  intros (l & w' & a & Hm & Hl & l' & w'' & b & Hk & Hl' & HQ).
  exists (l ++ l'), w'', b. unfold bind. rewrite Hm, Hk, Hl', Hl, app_assoc. done.
Qed.

Lemma ends_mono {A} (m : M A) w (P Q : list call → World.t → A → Prop) :
  (∀ l w' a, P l w' a → Q l w' a) → ends m w P → ends m w Q.
Proof. intros HPQ (l & w' & a & Hm & Hl & HP). exists l, w', a. auto. Qed.

Lemma ends_bind_ok {A B E} (m : M (result A E)) (k : A → M (result B E)) w Q :
  ends m w (λ l w' r, match r with
                      | Ok a => ends (k a) w' (λ l' w'' b, Q (l ++ l') w'' b)
                      | Err e => Q l w' (Err e)
                      end) →
  ends (bind_ok m k) w Q.
Proof.
  intros Hm. apply ends_bind. eapply ends_mono; [|exact Hm]. intros l w' [a|e] HQ; [done|].
  apply ends_ret. by rewrite app_nil_r.
Qed.

Section Theory.
Context `{Env}.

(** The database as the next statement finds it. *)
Definition next_read (w : World.t) : Db.t := others (World.ticks w) (World.db w).

Lemma ends_db_at {A} (f : nat → Db.t → Db.t * A) w (Q : list call → World.t → result A string → Prop) :
  let n := World.ticks w in let db := next_read w in
  (∀ e, db_fault n = Some e → Q [] (World.mk db (World.calls w) (S n)) (Err e)) →
  Q [] (World.mk (f n db).1 (World.calls w) (S n)) (Ok (f n db).2) →
  ends (with_db f) w Q.
Proof.
  intros n db Herr Hok. destruct (db_fault n) as [e|] eqn:Hf.
  - exists [], (World.mk db (World.calls w) (S n)), (Err e). split_and!; [|by rewrite app_nil_r|auto].
    unfold with_db. fold n. by rewrite Hf.
  - exists [], (World.mk (f n db).1 (World.calls w) (S n)), (Ok (f n db).2).
    split_and!; [|by rewrite app_nil_r|auto].
    unfold with_db. fold n. rewrite Hf. change (others n (World.db w)) with db. by destruct (f n db).
Qed.

Lemma ends_db {A} (f : nat → Db.t → Db.t * A) w (Q : list call → World.t → result A string → Prop) :
  (∀ n db e, db = others n (World.db w) → db_fault n = Some e →
     Q [] (World.mk db (World.calls w) (S n)) (Err e)) →
  (∀ n db, db = others n (World.db w) → Q [] (World.mk (f n db).1 (World.calls w) (S n)) (Ok (f n db).2)) →
  ends (with_db f) w Q.
Proof.
  intros Herr Hok. apply ends_db_at; [intros e He|]; auto.
Qed.

Lemma ends_rpc {A} (f : nat → result A Status.t) event w (Q : list call → World.t → result A Status.t → Prop) :
  (∀ n r, Q [event r] (World.mk (World.db w) (World.calls w ++ [event r]) n) r) → ends (rpc f event) w Q.
Proof.
  intros HQ. eexists [event (f (World.ticks w))], _, _. split_and!; [reflexivity|done|apply HQ].
Qed.

Lemma ends_coordinator w (Q : list call → World.t → bool → Prop) :
  (∀ n, Q [] (World.mk (World.db w) (World.calls w) (S n)) (channel n)) → ends coordinator w Q.
Proof.
  intros HQ. eexists [], _, _. split_and!; [reflexivity|by rewrite app_nil_r|apply HQ].
Qed.

(** ** The pieces of a launch *)

(** The channel never drops, and the database never fails. *)
Definition channel_up : Prop := ∀ n, channel n = true.
Definition db_up : Prop := ∀ n, db_fault n = None.

(** No other request touches the database meanwhile. *)
Definition quiet : Prop := ∀ n db, others n db = db.

(** The session is no longer LAUNCHING. *)
Definition left_launching (id : string) (w : World.t) : Prop :=
  ∀ row, Db.sessions (World.db w) !! id = Some row → SessionRow.state row ≠ LAUNCHING.

Lemma abort_each_ends wss w :
  ends (abort_each wss) w (λ l w' _, aborted l = wss ∧ created l = []).
Proof.
  revert w. induction wss as [|ws wss IH]; intros w; [by apply ends_ret|]. cbn [abort_each].
  apply ends_bind, ends_rpc. intros n r. eapply ends_mono; [|apply IH].
  intros l w' [] [Ha Hc]. by rewrite aborted_app, created_app, Ha, Hc.
Qed.

Lemma rollback_ends wss w :
  ends (rollback wss) w (λ l w' _, (channel_up → aborted l = wss) ∧ created l = []).
Proof.
  apply ends_bind, ends_coordinator. intros n. destruct (channel n) eqn:Hn.
  - eapply ends_mono; [|apply abort_each_ends]. naive_solver.
  - apply ends_ret. split; [|done]. intros Hup. by rewrite Hup in Hn.
Qed.

Lemma step_error_ends step status wss w :
  ends (step_error step status wss) w
    (λ l w' err, (channel_up → aborted l = wss) ∧ created l = []
       ∧ ∃ reason recoverable, err = LaunchError.Step step reason (Some status) recoverable).
Proof.
  apply ends_bind. destruct wss as [|ws wss].
  - apply ends_ret, ends_ret. eauto.
  - eapply ends_mono; [|apply rollback_ends]. intros l w' [] [Ha Hc]. apply ends_ret.
    rewrite app_nil_r. eauto.
Qed.

Lemma mark_failed_ends id w :
  ends (mark_failed id) w (λ l w' _, l = [] ∧ (db_up → left_launching id w')).
Proof.
  apply ends_bind, ends_db.
  - intros n db e _ He. apply ends_ret. split; [done|]. intros Hup. by rewrite Hup in He.
  - intros n db _. apply ends_ret. split; [done|]. intros _ row. cbn. unfold Sessions.transition_state, update_session.
    destruct (Db.sessions db !! id) as [row0|] eqn:H0; [|cbn; congruence].
    case_bool_decide as Hs; cbn; [|congruence]. rewrite lookup_insert_eq. by intros [= <-].
Qed.

(** An error that is reported after the session has been marked. *)
Lemma failed_ends {A} step status wss id w :
  ends (let* err := step_error step status wss in let* _ := mark_failed id in ret (Err err : result A _)) w
    (λ l w' r, (channel_up → aborted l = wss) ∧ created l = [] ∧ (db_up → left_launching id w')
       ∧ ∃ step reason source recoverable, r = Err (LaunchError.Step step reason source recoverable)).
Proof.
  apply ends_bind. eapply ends_mono; [|apply step_error_ends]. intros l w' err (Ha & Hc & reason & rec & ->).
  apply ends_bind. eapply ends_mono; [|apply mark_failed_ends]. intros l' w'' [] [-> Hl]. apply ends_ret.
  rewrite !app_nil_r. eauto 10.
Qed.

Lemma build_directives_ends session assignments w :
  ends (build_directives session assignments) w
    (λ l w' r, l = [] ∧ (quiet → World.db w' = World.db w)
       ∧ match r with
         | Ok ds => length ds = length assignments
         | Err e => ∃ msg, e = LaunchError.Db msg
         end).
Proof.
  revert w. induction assignments as [|asgn assignments IH]; intros w; [by apply ends_ret|].
  cbn [build_directives]. apply ends_bind_ok, ends_bind, ends_db.
  - intros n db e -> _. apply ends_ret. cbn. split_and!; [done|intros Hq; apply Hq|eauto].
  - intros n db ->. apply ends_ret. cbn.
    destruct (payload_to_vec _) as [bytes|e]; cbn; [|split_and!; [done|intros Hq; apply Hq|eauto]].
    apply ends_bind_ok. eapply ends_mono; [|apply IH]. intros l w' [ds|e] (-> & Hdb & Hr).
    + apply ends_ret. cbn in *. split_and!; [done|intros Hq; rewrite Hdb by done; apply Hq|by rewrite Hr].
    + cbn in *. split_and!; [done|intros Hq; rewrite Hdb by done; apply Hq|done].
Qed.

Definition workspaces_of (launched : list LaunchedAssignment.t) : list string :=
  LaunchedAssignment.workspace_id <$> launched.

Lemma dispatch_each_ends id work cr launched w :
  ends (dispatch_each id work cr launched) w
    (λ l w' r, match r with
      | Ok (cr', launched') =>
          aborted l = [] ∧ cr' = cr ++ created l ∧ workspaces_of launched' = workspaces_of launched ++ created l
          ∧ LaunchedAssignment.assignment_id <$> launched'
            = (LaunchedAssignment.assignment_id <$> launched) ++ ((λ x, SessionAssignmentRow.id x.1.1) <$> work)
          ∧ dispatched_roles l = (λ x, SessionAssignmentRow.role_ref x.1.1) <$> work
          ∧ World.db w' = World.db w
      | Err err =>
          (channel_up → aborted l = cr ++ created l) ∧ (db_up → left_launching id w')
          ∧ ∃ step reason source recoverable, err = LaunchError.Step step reason source recoverable
      end).
Proof.
  revert cr launched w. induction work as [|[[asgn d] task] work IH]; intros cr launched w; cbn [dispatch_each].
  { apply ends_ret. cbn. by rewrite !app_nil_r. }
  apply ends_bind, ends_rpc. intros n [ws|status].
  - eapply ends_mono; [|apply IH]. intros l w' [[cr' launched']|err].
    + intros (Ha & -> & Hw & Hid & Hro & Hdb).
      rewrite aborted_app, created_app, dispatched_roles_app, Ha, Hw, Hid, Hro. unfold workspaces_of.
      rewrite !fmap_app. cbn. by rewrite <-!app_assoc.
    + intros (Ha & Hl & He). split_and!; [|done..]. intros Hup.
      rewrite aborted_app, created_app, (Ha Hup). cbn. by rewrite <-app_assoc.
  - eapply ends_mono; [|apply (failed_ends LaunchStep.Dispatch status cr id)].
    intros l w' r (Ha & Hc & Hl & step & reason & src & rec & ->). split_and!; [|done|eauto].
    intros Hup. rewrite aborted_app, created_app, (Ha Hup), Hc. cbn. by rewrite app_nil_r.
Qed.
(** ** Launching *)

Definition pairs_of (launched : list LaunchedAssignment.t) : list (string * string) :=
  (λ la, (LaunchedAssignment.assignment_id la, LaunchedAssignment.workspace_id la)) <$> launched.

(** The database as the second statement of a launch finds it, whose first one reads the
    session. *)
Definition second_read (w : World.t) : Db.t := others (S (World.ticks w)) (next_read w).

(** The transaction that ends a launch; undisturbed, it runs on the database [w] has. *)
Definition finalized (id root : string) (launched : list LaunchedAssignment.t) (w w' : World.t) : Prop :=
  ∃ now db, finalize_sql id root now (pairs_of launched) db = (World.db w', true) ∧ (quiet → db = World.db w).

Definition launch_post (id : string) (w : World.t) (l : list call) (w' : World.t)
    (r : result LaunchOutcome.t LaunchError.t) :
    Prop :=
  match r with
  | Ok (LaunchOutcome.Active root launched) =>
      let assignments := SessionAssignments.list_by_session id (second_read w) in
      (∃ session, Sessions.get_by_id id (next_read w) = Some session ∧ SessionRow.state session = LAUNCHING)
      ∧ assignments ≠ [] ∧ aborted l = [] ∧ created l = root :: workspaces_of launched
      ∧ LaunchedAssignment.assignment_id <$> launched = SessionAssignmentRow.id <$> assignments
      ∧ dispatched_roles l = SessionAssignmentRow.role_ref <$> assignments
      ∧ finalized id root launched w w'
  | Ok (LaunchOutcome.AlreadyActive state) => l = [] ∧ state ∈ [ACTIVE; COMPLETED; FAILED; CANCELLED]
  | Err (LaunchError.Step _ _ _ _) =>
      (channel_up → aborted l = created l) ∧ (db_up → left_launching id w')
  | Err LaunchError.NoAssignments => l = [] ∧ (db_up → left_launching id w')
  | Err (LaunchError.Db _) => aborted l = [] ∧ (quiet → World.db w' = World.db w)
  | Err _ => l = [] ∧ (quiet → World.db w' = World.db w)
  end.

Lemma finalize_ends id root launched w :
  ends (finalize id root launched) w
    (λ l w' r, l = [] ∧ match r with
      | Ok _ => finalized id root launched w w'
      | Err _ => True
      end).
Proof.
  apply ends_bind_ok, ends_db; [done|]. intros n db Hdb. apply ends_ret. split; [done|].
  fold (pairs_of launched). destruct (finalize_sql _ _ _ _ _) as [db' []] eqn:Hf; cbn; [|done].
  exists (now_text n), db. split; [done|]. intros Hq. by rewrite Hdb, Hq.
Qed.

Lemma finalized_from id root launched w1 w2 w' :
  (quiet → World.db w1 = World.db w2) → finalized id root launched w1 w' → finalized id root launched w2 w'.
Proof. intros Heq (now & db & Hf & Hdb). exists now, db. split; [done|]. intros Hq. by rewrite Hdb, Heq. Qed.

Lemma zip_columns {B} (f : SessionAssignmentRow.t → B) assignments (ds : list PreparedDirective.t) (tasks : list string) :
  length ds = length assignments → length tasks = length assignments →
  (λ x, f x.1.1) <$> zip (zip assignments ds) tasks = f <$> assignments.
Proof.
  intros Hd Ht. rewrite <-(fst_zip assignments ds) at 2 by lia.
  rewrite <-(fst_zip (zip assignments ds) tasks) at 2 by (rewrite length_zip_with; lia).
  by rewrite <-!list_fmap_compose.
Qed.

Lemma launch_tasks_ends id session assignments root w :
  ends (launch_tasks id session assignments root) w
    (λ l w' r, match r with
      | Ok (LaunchOutcome.Active root' launched) =>
          root' = root ∧ aborted l = [] ∧ created l = workspaces_of launched
          ∧ LaunchedAssignment.assignment_id <$> launched = SessionAssignmentRow.id <$> assignments
          ∧ dispatched_roles l = SessionAssignmentRow.role_ref <$> assignments
          ∧ finalized id root launched w w'
      | Err (LaunchError.Step _ _ _ _) =>
          (channel_up → aborted l = root :: created l) ∧ (db_up → left_launching id w')
      | Err (LaunchError.Db _) => l = [] ∧ (quiet → World.db w' = World.db w)
      | _ => False
      end).
Proof.
  unfold launch_tasks. apply ends_bind_ok. eapply ends_mono; [|apply build_directives_ends].
  intros l w1 [ds|e] (-> & Hdb & Hds); [|by destruct Hds as [msg ->]]. apply ends_bind, ends_rpc. intros n [tasks|status].
  2: { eapply ends_mono; [|apply failed_ends].
       intros l w' r (Ha & Hc & Hl & step & reason & src & rec & ->). rewrite !app_nil_l, !aborted_app, !created_app.
       cbn. rewrite Hc. auto. }
  destruct (Nat.eqb_spec (length tasks) (length assignments)) as [Hlen|]; cbn [negb]; last first.
  { apply ends_bind. eapply ends_mono; [|apply rollback_ends]. intros l w' [] [Ha Hc].
    apply ends_bind. eapply ends_mono; [|apply mark_failed_ends]. intros l' w'' [] [-> Hl]. apply ends_ret.
    rewrite !app_nil_l, !aborted_app, !created_app, Hc. cbn. rewrite !app_nil_r. auto. }
  apply ends_bind_ok. eapply ends_mono; [|apply dispatch_each_ends].
  intros l w2 [[cr launched]|err]; last first.
  { intros (Ha & Hl & step & reason & src & rec & ->). rewrite !app_nil_l, !aborted_app, !created_app.
    cbn. auto. }
  intros (Ha & -> & Hw & Hid & Hro & Hdb'). cbn in Hw, Hid.
  rewrite (zip_columns SessionAssignmentRow.id) in Hid by congruence.
  rewrite (zip_columns SessionAssignmentRow.role_ref) in Hro by congruence. apply ends_bind.
  eapply ends_mono; [|apply finalize_ends]. intros l' w3 [[]|e] [-> Hf]; cbn [fst snd].
  - apply ends_ret. rewrite !app_nil_l, !aborted_app, !created_app, !dispatched_roles_app, Ha, Hro. cbn.
    rewrite !app_nil_r. split_and!; try done. eapply finalized_from, Hf. intros Hq. rewrite Hdb'. cbn. by apply Hdb.
  - apply ends_bind. eapply ends_mono; [|apply rollback_ends]. intros l' w4 [] [Ha' Hc].
    apply ends_bind. eapply ends_mono; [|apply mark_failed_ends]. intros l'' w5 [] [-> Hl]. apply ends_ret.
    rewrite !app_nil_l, !aborted_app, !created_app, Ha, Hc. cbn. rewrite !app_nil_r. auto.
Qed.

Lemma launch_ends id w : ends (launch id) w (launch_post id w).
Proof.
  assert (Hquiet : ∀ n n', quiet → others n' (others n (World.db w)) = World.db w).
  { intros n n' Hq. by rewrite !Hq. }
  apply ends_bind, ends_db_at; [intros e _|cbn [snd]].
  { apply ends_ret. split; [done|]. intros Hq. apply Hq. }
  destruct (Sessions.get_by_id id (next_read w)) as [session|] eqn:Hsession; last first.
  { apply ends_ret. split; [done|]. intros Hq. apply Hq. }
  case_bool_decide as Hs; cbn [negb]; last first.
  { apply ends_ret. case_bool_decide; [by split|]. split; [done|]. intros Hq. apply Hq. }
  apply ends_bind, ends_db_at; cbn [World.db World.ticks fst]; [intros e _|cbn [snd]].
  { apply ends_ret. split; [done|]. apply Hquiet. }
  change (next_read (World.mk _ _ _)) with (second_read w).
  destruct (SessionAssignments.list_by_session id (second_read w)) as [|a assignments] eqn:Has.
  { apply ends_bind. eapply ends_mono; [|apply mark_failed_ends]. intros l w' [] [-> Hl]. by apply ends_ret. }
  apply ends_bind, ends_coordinator. intros n1. destruct (channel n1); cbn [negb]; last first.
  { apply ends_ret. split; [done|]. apply Hquiet. }
  apply ends_bind, ends_rpc. intros n2 [root|status].
  - eapply ends_mono; [|apply launch_tasks_ends]. intros l w' [[root' launched|st]|[| | | |step reason src rec|e]];
      rewrite ?app_nil_l; try done.
    + intros (-> & Ha & Hc & Hid & Hro & Hf). cbn [launch_post].
      rewrite Has, aborted_app, created_app, dispatched_roles_app, Ha, Hc, Hro.
      split_and!; try done; [by exists session|]. eapply finalized_from, Hf. intros Hq. by apply Hquiet.
    + intros [-> Hdb]. split; [done|]. intros Hq. rewrite Hdb by done. by apply Hquiet.
  - eapply ends_mono; [|apply failed_ends].
    intros l w' r (Ha & Hc & Hl & step & reason & src & rec & ->). split; [|done].
    intros Hup. rewrite !app_nil_l, aborted_app, created_app, (Ha Hup), Hc. done.
Qed.
End Theory.

(** C3. Whatever the database, the other requests and the runtime do during a launch:
    success means that the session was read as LAUNCHING, that the only workspaces
    created are the root and one per assignment of the session, in slot order and with
    the role of the assignment, that none was aborted, and that the last thing done was
    the transaction that moved the session from LAUNCHING to ACTIVE with these
    workspaces on these assignments; a failed step aborts every workspace created, in
    order, and takes the session out of LAUNCHING, as long as the channel and the
    database stay up; a session past LAUNCHING causes no call at all. *)
Theorem launch_saga `{Env} id w :
  let '(w', r) := launch id w in
  ∃ l, World.calls w' = World.calls w ++ l ∧ launch_post id w l w' r.
Proof.
  destruct (launch_ends id w) as (l & w' & r & -> & Hl & Hpost). by exists l.
Qed.

(** ** Theory: recovery *)

Create HintDb keeps.

Section RecoveryTheory.
Context `{Env}.

(** [m] keeps a property of the database. *)
Definition keeps (P : Db.t → Prop) {A} (m : M A) : Prop := ∀ w, P (World.db w) → P (World.db (m w).1).

Lemma keeps_ret P {A} (a : A) : keeps P (ret a).
Proof. by intros w. Qed.

Lemma keeps_bind P {A B} (m : M A) (k : A → M B) : keeps P m → (∀ a, keeps P (k a)) → keeps P (bind m k).
Proof.
  intros Hm Hk w Hw. unfold bind. specialize (Hm w Hw). destruct (m w) as [w' a]. by apply Hk.
Qed.

Lemma keeps_with_db P {A} (f : nat → Db.t → Db.t * A) :
  quiet → (∀ n db, P db → P (f n db).1) → keeps P (with_db f).
Proof.
  intros Hq Hf w Hw. unfold with_db. rewrite Hq. destruct (db_fault _); [done|].
  specialize (Hf (World.ticks w) _ Hw). by destruct (f _ _).
Qed.

Lemma keeps_highway P : keeps P highway.
Proof. by intros w. Qed.

Lemma keeps_rpc P {A} (f : nat → result A Status.t) event : keeps P (rpc f event).
Proof. by intros w. Qed.

#[local] Hint Resolve keeps_ret keeps_highway keeps_rpc : keeps.

(** A transition out of ACTIVE does not touch a session in another state. *)
Lemma transition_keeps id row id' to now db :
  SessionRow.state row ≠ ACTIVE → Db.sessions db !! id = Some row →
  Db.sessions (Sessions.transition_state id' ACTIVE to now db).1 !! id = Some row.
Proof.
  intros Hs Hrow. unfold Sessions.transition_state, update_session.
  destruct (Db.sessions db !! id') as [row'|] eqn:H'; [|done]. case_bool_decide as Hs'; [|done]. cbn.
  rewrite lookup_insert_ne; [done|]. intros ->. congruence.
Qed.

Lemma recover_one_keeps id row row' active :
  quiet → SessionRow.state row ≠ ACTIVE →
  keeps (λ db, Db.sessions db !! id = Some row) (recover_one row' active).
Proof.
  intros Hq Hs.
  assert (Ht : ∀ id' to, keeps (λ db, Db.sessions db !! id = Some row)
    (with_db (λ n, Sessions.transition_state id' ACTIVE to (now_text n)))).
  { intros id' to. apply keeps_with_db; [done|]. intros n db. by apply transition_keeps. }
  assert (Hm : ∀ id', keeps (λ db, Db.sessions db !! id = Some row) (recovery_mark_failed id')).
  { intros id'. apply keeps_bind; auto with keeps. }
  assert (Hl : ∀ id', keeps (λ db, Db.sessions db !! id = Some row) (query_db (SessionAssignments.list_by_session id'))).
  { intros id'. by apply keeps_with_db. }
  unfold recover_one. destruct (SessionRow.coordinator_workspace_id row') as [ws|]; [|apply keeps_bind; auto with keeps].
  apply keeps_bind; [auto with keeps|]. intros []; cbn [negb]; [|auto with keeps].
  apply keeps_bind; [auto with keeps|]. intros [st|s].
  - destruct (workspace_terminal st); apply keeps_bind; auto with keeps. intros []; auto with keeps.
  - destruct (Status.code s); auto with keeps; apply keeps_bind; auto with keeps.
Qed.

Lemma run_recovery_keeps `{HashOrder} id row active :
  quiet → SessionRow.state row ≠ ACTIVE →
  keeps (λ db, Db.sessions db !! id = Some row) (run_recovery active).
Proof.
  intros Hq Hs. apply keeps_bind; [by apply keeps_with_db|]. intros [rows|]; [|auto with keeps].
  generalize (RecoveryReport.mk [] [] [] []) as report. revert active.
  induction rows as [|row' rows IH]; intros active report; cbn [recover_rows]; [auto with keeps|].
  apply keeps_bind; [by apply recover_one_keeps|auto].
Qed.
End RecoveryTheory.

(** A launch that ends in a database error or finds no channel leaves its session
    LAUNCHING, although the goal may have been submitted: no workspace is aborted; and
    startup recovery, which reads only active sessions, leaves it LAUNCHING for good. *)
Theorem stuck_in_launching `{Env} `{HashOrder} id w row
    (Hquiet : quiet) (Hrow : Db.sessions (World.db w) !! id = Some row)
    (Hstate : SessionRow.state row = LAUNCHING) :
  let '(w', r) := launch id w in
  match r with
  | Err (LaunchError.Db _) | Err LaunchError.PoolUnavailable =>
      ∃ l, World.calls w' = World.calls w ++ l ∧ aborted l = []
      ∧ ∀ active, Db.sessions (World.db (run_recovery active w').1) !! id = Some row
  | _ => True
  end.
Proof.
  destruct (launch_ends id w) as (l & w' & r & -> & Hl & Hpost).
  assert (Hkeep : World.db w' = World.db w → ∀ active,
    Db.sessions (World.db (run_recovery active w').1) !! id = Some row).
  { intros Hdb active. apply (run_recovery_keeps id row active Hquiet); [by rewrite Hstate|congruence]. }
  destruct r as [|[| | | | |e]]; try done; destruct Hpost as [Ha Hdb]; subst; exists l || exists []; auto.
Qed.

(** A runtime that answers every call, over a database with the given faults: the
    workspace [ws-b] has failed and every other one is active. *)
Definition env_with (fault : nat → option string) : Env := {|
  others _ db := db;
  db_fault := fault;
  channel _ := true;
  highway_channel _ := true;
  now_text _ := "2026-01-01T00:00:00Z";
  submit_goal _ _ _ := Ok "ws-root";
  decompose _ tasks := Ok (TaskDefinition.name <$> tasks);
  dispatch _ req := Ok ("ws-" +:+ DispatchRequest.task_id req);
  abort_workspace _ _ := Ok tt;
  get_workspace _ ws := Ok (if String.eqb ws "ws-b" then ProtoWorkspaceState.Failed else ProtoWorkspaceState.Active);
  code_text _ := "";
  string_list _ := None;
  payload_to_vec _ := Ok (as_bytes "{}");
|}.

(** A disk error while a directive is prepared: the root workspace exists, is not
    aborted, and the session stays LAUNCHING through recovery. *)
Definition env_disk_error : Env := env_with (λ n, if Nat.eqb n 4 then Some "disk I/O error" else None).

Definition session_row (id state : string) (ws : option string) : SessionRow.t :=
  SessionRow.mk id None "ann" "eng" "review" None ws state "t0" None None None None None.

Definition launching_row : SessionRow.t := session_row "s1" "launching" None.

Definition launching_world : World.t :=
  World.mk (Db.mk {[ "s1" := launching_row ]}
    {[ "a1" := SessionAssignmentRow.mk "a1" "s1" "reviewer" None 0 "p1" 1 None None None None ]} []) [] 0.

Lemma stuck_in_launching_witness :
  let H := env_disk_error in let H0 := canonical_order in
  let w' := (launch "s1" launching_world).1 in
  (launch "s1" launching_world).2 = Err (LaunchError.Db "disk I/O error")
  ∧ created (World.calls w') = ["ws-root"] ∧ aborted (World.calls w') = []
  ∧ Db.sessions (World.db (run_recovery ∅ w').1) !! "s1" = Some launching_row.
Proof.
  intros H H0 w'. split_and!; [vm_compute; reflexivity..|].
  pose proof (stuck_in_launching "s1" launching_world launching_row (λ n db, eq_refl) eq_refl eq_refl) as Hs.
  subst w'. destruct (launch "s1" launching_world) as [w' r] eqn:E. cbn [fst].
  assert (r = Err (LaunchError.Db "disk I/O error")) as ->.
  { apply (f_equal snd) in E. cbn [snd] in E. rewrite <-E. vm_compute. reflexivity. }
  destruct Hs as (l & _ & _ & Hk). apply Hk.
Defined.

(** ** Theory: what recovery decides *)

Section RecoveryExact.
Context `{Env}.

(** What an outcome says of the session's row after recovery. *)
Definition outcome_ok (row : SessionRow.t) (outcome : RecoveryOutcome) (row' : option SessionRow.t) : Prop :=
  match outcome with
  | Resumed | SkippedUnavailable => row' = Some row
  | SyncedTerminal state => state ∈ [COMPLETED; FAILED] ∧ SessionRow.state <$> row' = Some state
  | Failed _ => SessionRow.state <$> row' = Some FAILED
  end.

Lemma ends_highway w (Q : list call → World.t → bool → Prop) :
  (∀ n, Q [] (World.mk (World.db w) (World.calls w) (S n)) (highway_channel n)) → ends highway w Q.
Proof. intros HQ. eexists [], _, _. split_and!; [reflexivity|by rewrite app_nil_r|apply HQ]. Qed.

Lemma transition_active_ends id row to w :
  quiet → db_up → to ∈ [COMPLETED; FAILED] →
  Db.sessions (World.db w) !! id = Some row → SessionRow.state row = ACTIVE →
  ends (with_db (λ n, Sessions.transition_state id ACTIVE to (now_text n))) w
    (λ l w' _, ∃ row', SessionRow.state row' = to ∧ SessionRow.id row' = SessionRow.id row
       ∧ Db.sessions (World.db w') = <[id := row']> (Db.sessions (World.db w))).
Proof.
  intros Hq Hup Hto Hrow Hs. apply ends_db; [intros n db e _ He; by rewrite Hup in He|].
  intros n db ->. rewrite Hq. cbn. unfold Sessions.transition_state, update_session. rewrite Hrow, Hs.
  rewrite bool_decide_true by done. cbn. eexists. split_and!; [| |reflexivity]; repeat case_bool_decide; done.
Qed.

(** The result of one session: no other row changes, its own row is as the outcome
    says, and a monitor is registered exactly when it is resumed. *)
Definition recovered_one (row : SessionRow.t) (active : ActiveSessionsMap) (w : World.t)
    (l : list call) (w' : World.t) (r : ActiveSessionsMap * RecoveryOutcome) : Prop :=
  (∀ id, id ≠ SessionRow.id row → Db.sessions (World.db w') !! id = Db.sessions (World.db w) !! id)
  ∧ outcome_ok row r.2 (Db.sessions (World.db w') !! SessionRow.id row)
  ∧ match r.2 with
    | Resumed => ∃ ws members, SessionRow.coordinator_workspace_id row = Some ws
        ∧ r.1 = <[SessionRow.id row := (ws, members)]> active
    | _ => r.1 = active
    end.

Lemma recovered_failed row active w reason :
  quiet → db_up → Db.sessions (World.db w) !! SessionRow.id row = Some row → SessionRow.state row = ACTIVE →
  ends (let* _ := recovery_mark_failed (SessionRow.id row) in ret (active, Failed reason)) w
    (recovered_one row active w).
Proof.
  intros Hq Hup Hrow Hs. apply ends_bind, ends_bind.
  eapply ends_mono; [|apply (transition_active_ends _ row); [done|done|set_solver|done|done]].
  intros l w' r (row' & Hst & _ & Hdb). apply ends_ret, ends_ret. unfold recovered_one. rewrite Hdb. cbn.
  split_and!; [intros id Hne; by rewrite lookup_insert_ne|rewrite lookup_insert_eq; cbn; by rewrite Hst|done].
Qed.

Lemma recover_one_ends row active w :
  quiet → db_up → Db.sessions (World.db w) !! SessionRow.id row = Some row → SessionRow.state row = ACTIVE →
  ends (recover_one row active) w (recovered_one row active w).
Proof.
  intros Hq Hup Hrow Hs.
  assert (Hskip : ∀ l w1, Db.sessions (World.db w1) = Db.sessions (World.db w) →
    recovered_one row active w l w1 (active, SkippedUnavailable)).
  { intros l w1 Hw1. unfold recovered_one. rewrite Hw1. by split_and!. }
  unfold recover_one. destruct (SessionRow.coordinator_workspace_id row) as [ws|] eqn:Hws;
    [|by apply recovered_failed].
  apply ends_bind, ends_highway. intros n. destruct (highway_channel n); cbn [negb];
    [|by apply ends_ret, Hskip].
  apply ends_bind, ends_rpc. intros n1 [st|status]; cbn [World.db].
  - destruct (workspace_terminal st).
    + apply ends_bind. set (final := match st with ProtoWorkspaceState.Failed => FAILED | _ => COMPLETED end).
      assert (Hfinal : final ∈ [COMPLETED; FAILED]) by (subst final; destruct st; set_solver).
      eapply ends_mono; [|apply (transition_active_ends _ row); done].
      intros l w' r (row' & Hst & _ & Hdb). apply ends_ret. unfold recovered_one. rewrite Hdb. cbn.
      split_and!; [intros id Hne; by rewrite lookup_insert_ne|done| |done].
      rewrite lookup_insert_eq. cbn. by rewrite Hst.
    + apply ends_bind, ends_db; [intros n2 db e _ He; by rewrite Hup in He|]. intros n2 db ->. rewrite Hq.
      apply ends_ret. unfold recovered_one. cbn. split_and!; [done|done|eauto].
  - destruct (Status.code status);
      first [by apply ends_ret, Hskip
            |eapply ends_mono; [|by apply recovered_failed]; by intros l w' r Hr].
Qed.
Definition reported (report : RecoveryReport.t) : list string :=
  RecoveryReport.resumed report ++ (RecoveryReport.synced_terminal report).*1
  ++ (RecoveryReport.failed report).*1 ++ RecoveryReport.skipped_unavailable report.

Definition report_all (outs : list (string * RecoveryOutcome)) (report : RecoveryReport.t) : RecoveryReport.t :=
  foldl (λ report '(id, o), report_one report id o) report outs.

Lemma reported_all outs report : reported (report_all outs report) ≡ₚ reported report ++ outs.*1.
Proof.
  revert report. induction outs as [|[id o] outs IH]; intros report; cbn; [by rewrite app_nil_r|].
  unfold report_all in *. cbn. rewrite IH. unfold reported. destruct o; cbn; rewrite ?fmap_app; cbn; solve_Permutation.
Qed.

Lemma report_all_in outs report :
  let r := report_all outs report in
  (∀ id, id ∈ RecoveryReport.resumed r ↔ id ∈ RecoveryReport.resumed report ∨ (id, Resumed) ∈ outs)
  ∧ (∀ id st, (id, st) ∈ RecoveryReport.synced_terminal r ↔
       (id, st) ∈ RecoveryReport.synced_terminal report ∨ (id, SyncedTerminal st) ∈ outs)
  ∧ (∀ id reason, (id, reason) ∈ RecoveryReport.failed r ↔
       (id, reason) ∈ RecoveryReport.failed report ∨ (id, Failed reason) ∈ outs)
  ∧ (∀ id, id ∈ RecoveryReport.skipped_unavailable r ↔
       id ∈ RecoveryReport.skipped_unavailable report ∨ (id, SkippedUnavailable) ∈ outs).
Proof.
  revert report. induction outs as [|[id0 o] outs IH]; intros report r; [set_solver|].
  destruct (IH (report_one report id0 o)) as (H1 & H2 & H3 & H4). subst r.
  change (report_all ((id0, o) :: outs) report) with (report_all outs (report_one report id0 o)).
  split_and!; intros; rewrite ?H1, ?H2, ?H3, ?H4, elem_of_cons; destruct o; cbn;
    rewrite ?elem_of_snoc; naive_solver.
Qed.

Lemma recover_rows_ends rows active report w :
  quiet → db_up → NoDup (SessionRow.id <$> rows) →
  Forall (λ row, Db.sessions (World.db w) !! SessionRow.id row = Some row ∧ SessionRow.state row = ACTIVE) rows →
  ends (recover_rows rows active report) w (λ l w' r, ∃ outs,
    outs.*1 = SessionRow.id <$> rows ∧ r.2 = report_all outs report
    ∧ (∀ id, id ∉ outs.*1 → Db.sessions (World.db w') !! id = Db.sessions (World.db w) !! id
                            ∧ r.1 !! id = active !! id)
    ∧ (∀ id o, (id, o) ∈ outs → ∃ row, Db.sessions (World.db w) !! id = Some row
         ∧ outcome_ok row o (Db.sessions (World.db w') !! id)
         ∧ (o = Resumed → ∃ ws members, SessionRow.coordinator_workspace_id row = Some ws
              ∧ r.1 !! id = Some (ws, members))
         ∧ (o ≠ Resumed → r.1 !! id = active !! id))).
Proof.
  intros Hq Hup. revert active report w. induction rows as [|row rows IH]; intros active report w Hnd Hall.
  { apply ends_ret. exists []. split_and!; set_solver. }
  cbn [recover_rows]. apply Forall_cons in Hall as [[Hrow Hs] Hall].
  rewrite fmap_cons in Hnd. apply NoDup_cons in Hnd as [Hnew Hnd].
  apply ends_bind. eapply ends_mono; [|by apply recover_one_ends].
  intros l w1 [active1 o] (Hother & Hok & Hact). cbn [fst snd] in *.
  eapply ends_mono; [|apply IH; [done|]]; last first.
  { apply Forall_forall. intros row' Hin. rewrite Forall_forall in Hall. destruct (Hall row' Hin) as [Hr' Hs'].
    split; [|done]. rewrite Hother; [done|]. intros Heq. apply Hnew. rewrite <-Heq. by apply list_elem_of_fmap_2. }
  intros l' w2 [active2 report2] (outs & Hids & Hrep & Hrest & Houts). cbn [fst snd] in *.
  exists ((SessionRow.id row, o) :: outs). rewrite !fmap_cons. cbn [fst]. rewrite <-Hids in *.
  assert (Hact1 : ∀ id, id ≠ SessionRow.id row → active1 !! id = active !! id).
  { intros id Hne. destruct o; try by rewrite Hact.
    destruct Hact as (ws & members & _ & ->). by rewrite lookup_insert_ne. }
  split_and!; [done|by rewrite Hrep| |].
  - intros id [Hne Hnin]%not_elem_of_cons. destruct (Hrest id Hnin) as [-> ->].
    rewrite Hother, Hact1 by done. done.
  - intros id o' [[= -> ->]|Hin]%elem_of_cons.
    + destruct (Hrest _ Hnew) as [-> ->]. exists row. split_and!; [done..| |].
      * intros ->. destruct Hact as (ws & members & ? & ->). exists ws, members. by rewrite lookup_insert_eq.
      * intros Hne. by destruct o; rewrite ?Hact.
    + assert (id ≠ SessionRow.id row) by (intros ->; apply Hnew; by apply (list_elem_of_fmap_2 fst) in Hin).
      destruct (Houts id o' Hin) as (row' & Hr' & Hok' & Hres & Hnres).
      exists row'. rewrite Hother in Hr' by done. rewrite Hact1 in Hnres by done. auto.
Qed.

(** Every session is stored under its own id. *)
Definition keyed (db : Db.t) : Prop := ∀ id row, Db.sessions db !! id = Some row → SessionRow.id row = id.

Lemma list_active_rows `{HashOrder} db : keyed db →
  NoDup (SessionRow.id <$> Sessions.list_active db)
  ∧ Forall (λ row, Db.sessions db !! SessionRow.id row = Some row ∧ SessionRow.state row = ACTIVE)
      (Sessions.list_active db).
Proof.
  intros Hkeys. split.
  - eapply (sublist_NoDup _ (SessionRow.id <$> values (Db.sessions db))); [|apply fmap_sublist, sublist_filter].
    replace (SessionRow.id <$> values (Db.sessions db)) with (hash_iter (Db.sessions db)).*1;
      [apply hash_iter_NoDup|].
    unfold values. rewrite <-list_fmap_compose. apply list_fmap_ext. intros i [k row] Hin%list_elem_of_lookup_2. cbn.
    symmetry. by apply Hkeys, elem_of_hash_iter.
  - apply Forall_forall. intros row [Hs Hin]%list_elem_of_filter. split; [|done].
    apply elem_of_values in Hin as [k Hk]. by rewrite (Hkeys k row Hk).
Qed.

Lemma run_recovery_ends `{HashOrder} active w :
  quiet → db_up → keyed (World.db w) →
  ends (run_recovery active) w (λ l w' r, ∃ outs,
    outs.*1 = SessionRow.id <$> Sessions.list_active (World.db w)
    ∧ r.2 = report_all outs (RecoveryReport.mk [] [] [] [])
    ∧ (∀ id, id ∉ outs.*1 → Db.sessions (World.db w') !! id = Db.sessions (World.db w) !! id
                            ∧ r.1 !! id = active !! id)
    ∧ (∀ id o, (id, o) ∈ outs → ∃ row, Db.sessions (World.db w) !! id = Some row
         ∧ outcome_ok row o (Db.sessions (World.db w') !! id)
         ∧ (o = Resumed → ∃ ws members, SessionRow.coordinator_workspace_id row = Some ws
              ∧ r.1 !! id = Some (ws, members))
         ∧ (o ≠ Resumed → r.1 !! id = active !! id))).
Proof.
  intros Hq Hup Hkeys. apply ends_bind, ends_db; [intros n db e _ He; by rewrite Hup in He|].
  intros n db ->. rewrite Hq. destruct (list_active_rows _ Hkeys).
  by apply (recover_rows_ends _ active _ (World.mk (World.db w) (World.calls w) (S n))).
Qed.
End RecoveryExact.

(** Startup recovery, when nothing else uses the database and it does not fail:
    every active session is reported exactly once; a resumed one keeps its row and gets
    a monitor on its root workspace; a skipped one keeps its row; a synchronised one is
    in the reported terminal state and a failed one is FAILED; no other session changes
    and no other monitor is registered. *)
Theorem recovery_exact_states `{Env} `{HashOrder} w
    (Hquiet : quiet) (Hup : db_up) (Hkeys : keyed (World.db w)) :
  let '(w', (active, report)) := run_recovery ∅ w in
  let before id := Db.sessions (World.db w) !! id in
  let after id := Db.sessions (World.db w') !! id in
  reported report ≡ₚ SessionRow.id <$> Sessions.list_active (World.db w)
  ∧ (∀ id, id ∉ reported report → after id = before id ∧ active !! id = None)
  ∧ (∀ id, id ∈ RecoveryReport.resumed report → after id = before id
       ∧ ∃ row ws members, before id = Some row ∧ SessionRow.coordinator_workspace_id row = Some ws
         ∧ active !! id = Some (ws, members))
  ∧ (∀ id, id ∈ RecoveryReport.skipped_unavailable report → after id = before id ∧ active !! id = None)
  ∧ (∀ id state, (id, state) ∈ RecoveryReport.synced_terminal report →
       state ∈ [COMPLETED; FAILED] ∧ SessionRow.state <$> after id = Some state ∧ active !! id = None)
  ∧ (∀ id reason, (id, reason) ∈ RecoveryReport.failed report →
       SessionRow.state <$> after id = Some FAILED ∧ active !! id = None).
Proof.
  destruct (run_recovery_ends ∅ w Hquiet Hup Hkeys)
    as (l & w' & [active report] & -> & _ & outs & Hids & Hrep & Hrest & Houts).
  cbn [fst snd] in *.
  destruct (report_all_in outs (RecoveryReport.mk [] [] [] [])) as (H1 & H2 & H3 & H4).
  pose proof (reported_all outs (RecoveryReport.mk [] [] [] [])) as Hperm. rewrite <-Hrep in *. cbn in *.
  assert (Hno : ∀ id o, (id, o) ∈ outs → o ≠ Resumed → active !! id = None).
  { intros id o Hin Hne. destruct (Houts id o Hin) as (row & _ & _ & _ & Hn). by apply Hn. }
  split_and!; [by rewrite Hperm, Hids|intros id; rewrite Hperm; apply Hrest|..].
  - intros id [?%elem_of_nil|Hin]%H1; [done|]. destruct (Houts _ _ Hin) as (row & Hrow & Hok & Hres & _).
    destruct (Hres eq_refl) as (ws & members & ? & ?). split; [cbn in *; congruence|eauto 6].
  - intros id [?%elem_of_nil|Hin]%H4; [done|]. destruct (Houts _ _ Hin) as (row & Hrow & Hok & _).
    split; [cbn in *; congruence|by eapply Hno].
  - intros id st [?%elem_of_nil|Hin]%H2; [done|]. destruct (Houts _ _ Hin) as (row & Hrow & [? ?] & _).
    split_and!; [done|done|by eapply Hno].
  - intros id st [?%elem_of_nil|Hin]%H3; [done|]. destruct (Houts _ _ Hin) as (row & Hrow & Hok & _).
    split; [done|by eapply Hno].
Qed.

(** Four sessions: one with a live root workspace, one whose root failed, one without a
    root and one still LAUNCHING, which recovery does not see. *)
Definition restart_world : World.t :=
  World.mk (Db.mk {[ "a" := session_row "a" "active" (Some "ws-a"); "b" := session_row "b" "active" (Some "ws-b");
                     "c" := session_row "c" "active" None; "d" := session_row "d" "launching" None ]}
    ∅ []) [] 0.

Lemma recovery_exact_states_witness :
  let H := env_with (λ _, None) in let H0 := canonical_order in
  let '(w', (active, report)) := run_recovery ∅ restart_world in
  reported report ≡ₚ ["a"; "b"; "c"]
  ∧ active !! "a" = Some ("ws-a", [])
  ∧ RecoveryReport.synced_terminal report = [("b", FAILED)]
  ∧ RecoveryReport.failed report = [("c", StuckInLaunching)]
  ∧ SessionRow.state <$> Db.sessions (World.db w') !! "b" = Some FAILED
  ∧ Db.sessions (World.db w') !! "d" = Db.sessions (World.db restart_world) !! "d".
Proof.
  intros H H0.
  assert (Hk : keyed (World.db restart_world)).
  { intros id row. apply (map_Forall_to_list (λ id row, SessionRow.id row = id)). vm_compute. repeat constructor. }
  pose proof (recovery_exact_states restart_world (λ n db, eq_refl) (λ n, eq_refl) Hk) as Hs.
  destruct (run_recovery ∅ restart_world) as [w' [active report]] eqn:E.
  destruct Hs as (Hrep & Hrest & _ & _ & Hsync & Hfail).
  assert (active = {[ "a" := ("ws-a", []) ]}) as ->.
  { apply (f_equal (fst ∘ snd)) in E. cbn [compose fst snd] in E. rewrite <-E. vm_compute. reflexivity. }
  assert (report = RecoveryReport.mk ["a"] [("b", FAILED)] [("c", StuckInLaunching)] []) as ->.
  { apply (f_equal (snd ∘ snd)) in E. cbn [compose fst snd] in E. rewrite <-E. vm_compute. reflexivity. }
  split_and!; [done|reflexivity|done|done| |].
  - by apply (Hsync "b" FAILED); left.
  - apply (Hrest "d"). vm_compute. set_solver.
Defined.
