(* ===== verification/Monitor.v ===== *)
(** * Session monitor (console-core: session_monitor.rs, event_enricher.rs,
    refusal_synthesizer.rs)

    The console's view of a running session: four drivers keep the highway streams of
    the runtime open and feed one channel, and the monitor's loop filters the events to
    the workspaces of the session, keeps the pending gates, escalations and refusals,
    broadcasts frames and closes the session when its root workspace ends.  The
    broadcast channel is the list of frames sent.  The JSON of entry bodies and the text
    of dates are parameters; the stream connections a driver meets are its input. *)

From S2P Require Import Prelude Types Std Float Proto Fsm Trail Recovery Console.

(** chrono's [from_timestamp] followed by [to_rfc3339]. *)
Class Rfc3339 : Type := rfc3339 : Z → Z → option string.

(** [serde_json::Map::get] *)
Definition object_get `{Json} (o : list (string * Value)) (k : string) : option Value :=
  (λ r, snd (snd r)) <$> list_find (λ kv, kv.1 = k) o.

(** ** refusal_synthesizer.rs *)

Module RefusalLayer.
Inductive t : Set := ToolLayer | AgentLayer | CoordinatorLayer.
End RefusalLayer.

Module Refusal.
Record t : Type := mk {
  id : string;
  layer : RefusalLayer.t;
  workspace_id : string;
  actor : string;
  code : option string;
  reason : option string;
  sequence_number : Z;
}.
End Refusal.

Definition parse_body `{Json} (body : bytes) : option string * option string :=
  match from_slice body with
  | None => (None, None)
  | Some value =>
      let obj := as_object value in
      (obj ≫= λ o, object_get o "code" ≫= as_str, obj ≫= λ o, object_get o "reason" ≫= as_str)
  end.

Definition refusal_layer (event_type : string) : option RefusalLayer.t :=
  if bool_decide (event_type = "tool_call_refused") then Some RefusalLayer.ToolLayer
  else if bool_decide (event_type = "agent_refused") then Some RefusalLayer.AgentLayer
  else if bool_decide (event_type = "coordinator_refused") then Some RefusalLayer.CoordinatorLayer
  else None.

Definition detect `{Json} (entry : ProtoTrailEntry.t) : option Refusal.t :=
  match refusal_layer (ProtoTrailEntry.event_type entry) with
  | None => None
  | Some layer =>
      let '(code, reason) := parse_body (ProtoTrailEntry.body entry) in
      Some (Refusal.mk (ProtoTrailEntry.id entry) layer (ProtoTrailEntry.workspace_id entry)
              (ProtoTrailEntry.actor entry) code reason (ProtoTrailEntry.sequence_number entry))
  end.

(** ** event_enricher.rs *)

Module EnrichedTrailEntry.
Record t : Type := mk {
  id : string;
  timestamp : string;
  sequence_number : Z;
  workspace_id : string;
  workspace_label : string;
  actor : string;
  event_type : string;
  summary : string;
  body_len : Z;
}.
End EnrichedTrailEntry.

Module EnrichedGate.
Record t : Type := mk {
  gate_id : string;
  type_ : string;
  workspace_id : string;
  workspace_label : string;
  task_id : string;
  timeout_ms : Z;
  fallback_action : string;
  created_at : string;
  subject_len : Z;
}.
End EnrichedGate.

Module EnrichedEscalation.
Record t : Type := mk {
  escalation_id : string;
  workspace_id : string;
  workspace_label : string;
  owner : string;
  created_at : string;
  context_len : Z;
}.
End EnrichedEscalation.

Definition gate_type_string (t : ProtoGateType.t) : string :=
  match t with
  | ProtoGateType.Unspecified => "unspecified"
  | ProtoGateType.TaskApproval => "task_approval"
  | ProtoGateType.WorkspaceCreate => "workspace_create"
  | ProtoGateType.EnvelopeDelivery => "envelope_delivery"
  | ProtoGateType.Integration => "integration"
  | ProtoGateType.ConflictResolution => "conflict_resolution"
  | ProtoGateType.WorkspaceAbort => "workspace_abort"
  | ProtoGateType.CheckpointApproval => "checkpoint_approval"
  end.

Definition summarize_trail (event_type : string) (body : bytes) : string :=
  let body_preview :=
    if (length body <=? 64)%nat then from_utf8_lossy body
    else "<" +:+ pretty (N.of_nat (length body)) +:+ " bytes>" in
  if bool_decide (event_type = "envelope_delivered") then "envelope delivered (" +:+ body_preview +:+ ")"
  else if bool_decide (event_type = "signal") then "signal (" +:+ body_preview +:+ ")"
  else if bool_decide (event_type = "checkpoint") then "checkpoint (" +:+ body_preview +:+ ")"
  else if bool_decide (event_type = "gate_created") then "gate created"
  else if bool_decide (event_type = "gate_resolved") then "gate resolved"
  else if bool_decide (event_type = "escalation_created") then "escalation created"
  else if bool_decide (event_type = "state_change") then "state change (" +:+ body_preview +:+ ")"
  else event_type +:+ " (" +:+ body_preview +:+ ")".

(** Written twice in the source, here and in the monitor. *)
Definition timestamp_rfc3339 `{Rfc3339} (ts : option ProtoTimestamp.t) : string :=
  match ts with
  | None => ""
  | Some ts =>
      let secs := as_i64 (ProtoTimestamp.physical_us ts / 1000000) in
      let nanos := wrap32 (ProtoTimestamp.physical_us ts mod 1000000 * 1000) in
      match rfc3339 secs nanos with
      | Some dt =>
          if ProtoTimestamp.logical ts =? 0 then dt
          else dt +:+ "#" +:+ pretty (Z.to_N (ProtoTimestamp.logical ts))
      | None => ""
      end
  end.

Definition enrich_trail `{Rfc3339} (raw : ProtoTrailEntry.t) (workspace_label : option string) :
    EnrichedTrailEntry.t :=
  EnrichedTrailEntry.mk (ProtoTrailEntry.id raw) (timestamp_rfc3339 (ProtoTrailEntry.timestamp raw))
    (ProtoTrailEntry.sequence_number raw) (ProtoTrailEntry.workspace_id raw)
    (default (ProtoTrailEntry.workspace_id raw) workspace_label) (ProtoTrailEntry.actor raw)
    (ProtoTrailEntry.event_type raw)
    (summarize_trail (ProtoTrailEntry.event_type raw) (ProtoTrailEntry.body raw))
    (Z.of_nat (length (ProtoTrailEntry.body raw))).

Definition enrich_gate `{Rfc3339} (raw : ProtoGateEvent.t) (workspace_label : option string) : EnrichedGate.t :=
  EnrichedGate.mk (ProtoGateEvent.gate_id raw) (gate_type_string (ProtoGateType.get (ProtoGateEvent.type raw)))
    (ProtoGateEvent.workspace_id raw) (default (ProtoGateEvent.workspace_id raw) workspace_label)
    (ProtoGateEvent.task_id raw) (ProtoGateEvent.timeout_ms raw) (ProtoGateEvent.fallback_action raw)
    (timestamp_rfc3339 (ProtoGateEvent.created_at raw)) (Z.of_nat (length (ProtoGateEvent.subject raw))).

Definition enrich_escalation `{Rfc3339} (raw : ProtoEscalationEvent.t) (workspace_label : option string) :
    EnrichedEscalation.t :=
  EnrichedEscalation.mk (ProtoEscalationEvent.escalation_id raw) (ProtoEscalationEvent.workspace_id raw)
    (default (ProtoEscalationEvent.workspace_id raw) workspace_label) (ProtoEscalationEvent.owner raw)
    (timestamp_rfc3339 (ProtoEscalationEvent.created_at raw))
    (Z.of_nat (length (ProtoEscalationEvent.context raw))).

(** ** session_monitor.rs: data *)

Module PendingState.
Record t : Type := mk {
  gates : list EnrichedGate.t;
  escalations : list EnrichedEscalation.t;
  refusals : list Refusal.t;
}.
#[global] Instance eta_t : Settable t := λ r, mk (gates r) (escalations r) (refusals r).
Definition default : t := mk [] [] [].
End PendingState.

Module MonitorSnapshot.
Record t : Type := mk {
  session_id : string;
  workspaces : gmap string string;
  pending_gates : nat;
  pending_escalations : nat;
  pending_refusals : nat;
}.
End MonitorSnapshot.

(** The reply channel of a snapshot is its number. *)
Inductive MonitorCmd := Shutdown | Snapshot (reply : nat).

Module WorkspaceSet.
Record t : Type := mk { root : string; members : gset string }.
Definition new (root : string) (assignments : list string) : t := mk root (list_to_set assignments ∪ {[root]}).
Definition contains (self : t) (ws : string) : bool := bool_decide (ws ∈ members self).
End WorkspaceSet.

Module Channel.
Inductive t : Set := Trail | Gates | Escalations | Workspaces | Refusals | Session | Control.
End Channel.

Module WorkspaceChange.
Record t : Type := mk {
  workspace_id : string;
  previous : string;
  current : string;
  trigger : string;
  timestamp : string;
}.
End WorkspaceChange.

Module FrameEvent.
Inductive t : Type :=
| Trail (entry : EnrichedTrailEntry.t)
| Gate (gate : EnrichedGate.t)
| Escalation (escalation : EnrichedEscalation.t)
| WorkspaceChange (change : WorkspaceChange.t)
| Refusal (refusal : Refusal.t)
| SessionLifecycle (state : string) (reason : option string)
| Lag (refresh_hint : list string) (reason : string)
| MonitorError (stream : string) (transient : bool) (message : string).
End FrameEvent.

Module Frame.
Record t : Type := mk { channel : Channel.t; session_id : string; event : FrameEvent.t }.
End Frame.

Module MonitorConfig.
Record t : Type := mk {
  broadcast_capacity : Z;
  reconnect_initial : Z;
  reconnect_max : Z;
  reconnect_failure_cap : Z;
}.
Definition default : t := mk 256 (from_millis 200) (from_secs 30) 30.
End MonitorConfig.

Module StreamEvent.
Inductive t : Type :=
| Trail (raw : ProtoTrailEntry.t)
| Gate (raw : ProtoGateEvent.t)
| Escalation (raw : ProtoEscalationEvent.t)
| WorkspaceChange (raw : ProtoWorkspaceStateChange.t)
| Lag (stream : string) (attempt : Z) (reason : string)
| Fatal (stream : string) (reason : string).
End StreamEvent.

(** ** session_monitor.rs: the monitor *)

Definition workspace_state_string (s : ProtoWorkspaceState.t) : string :=
  match s with
  | ProtoWorkspaceState.Unspecified => "unspecified"
  | ProtoWorkspaceState.Idle => "idle"
  | ProtoWorkspaceState.Active => "active"
  | ProtoWorkspaceState.Blocked => "blocked"
  | ProtoWorkspaceState.Suspended => "suspended"
  | ProtoWorkspaceState.Migrating => "migrating"
  | ProtoWorkspaceState.Integrating => "integrating"
  | ProtoWorkspaceState.Conflicted => "conflicted"
  | ProtoWorkspaceState.Closed => "closed"
  | ProtoWorkspaceState.Failed => "failed"
  end.

Definition parse_gate_id `{Json} (body : bytes) : option string :=
  from_slice body ≫= λ v, get v "gate_id" ≫= as_str.

Definition lag_refresh_hint (stream : string) : list string :=
  if bool_decide (stream = "gates") then ["gates"]
  else if bool_decide (stream = "escalations") then ["escalations"]
  else if bool_decide (stream = "workspace_changes") then ["workspaces"]
  else [].

Definition process_workspace_view (view : ProtoWorkspaceView.t) (labels states : gmap string string) :
    gmap string string * gmap string string :=
  (if is_empty (ProtoWorkspaceView.role view) then labels
   else <[ProtoWorkspaceView.id view := ProtoWorkspaceView.role view]> labels,
   <[ProtoWorkspaceView.id view
     := workspace_state_string (ProtoWorkspaceState.get (ProtoWorkspaceView.state view))]> states).

Definition retain_gates (gate_id : string) : list EnrichedGate.t → list EnrichedGate.t :=
  filter (λ g, EnrichedGate.gate_id g ≠ gate_id).

Module Monitor.
Record t : Type := mk {
  session_id : string;
  workspaces : WorkspaceSet.t;
  broadcast : list Frame.t;
  pending : PendingState.t;
  workspace_labels : gmap string string;
  workspace_states : gmap string string;
}.
#[global] Instance eta_t : Settable t := λ r,
  mk (session_id r) (workspaces r) (broadcast r) (pending r) (workspace_labels r) (workspace_states r).

(** The monitor that [spawn] runs. *)
Definition spawn (session_id : string) (workspaces : WorkspaceSet.t) : t :=
  mk session_id workspaces [] PendingState.default ∅ ∅.

Section Operations.
Context `{Json} `{Rfc3339}.

(** [self.broadcast_tx.send(Frame { .. })] *)
Definition send (channel : Channel.t) (event : FrameEvent.t) (self : t) : t :=
  self <| broadcast ::= λ l, l ++ [Frame.mk channel (session_id self) event] |>.

(** [highway] is the client of the pool, if there is one. *)
Definition seed_workspace_labels `{HashOrder} (highway : option (string → result ProtoWorkspaceView.t Status.t))
    (self : t) : t :=
  match highway with
  | None => self
  | Some get_workspace =>
      foldl (λ self ws,
        match get_workspace ws with
        | Ok view =>
            let '(labels, states) := process_workspace_view view (workspace_labels self) (workspace_states self) in
            self <| workspace_labels := labels |> <| workspace_states := states |>
        | Err _ => self
        end) self (set_iter (WorkspaceSet.members (workspaces self)))
  end.

Definition handle_trail (self : t) (raw : ProtoTrailEntry.t) : t :=
  let self :=
    match detect raw with
    | Some refusal =>
        send Channel.Refusals (FrameEvent.Refusal refusal)
          (self <| pending ::= set PendingState.refusals (λ l, l ++ [refusal]) |>)
    | None => self
    end in
  let self :=
    if bool_decide (ProtoTrailEntry.event_type raw = "gate_resolved") then
      match parse_gate_id (ProtoTrailEntry.body raw) with
      | Some gate_id => self <| pending ::= set PendingState.gates (retain_gates gate_id) |>
      | None => self
      end
    else self in
  let label := workspace_labels self !! ProtoTrailEntry.workspace_id raw in
  send Channel.Trail (FrameEvent.Trail (enrich_trail raw label)) self.

Definition handle_change (self : t) (raw : ProtoWorkspaceStateChange.t) : t * option string :=
  let current := ProtoWorkspaceState.get (ProtoWorkspaceStateChange.current raw) in
  let prev := workspace_state_string (ProtoWorkspaceState.get (ProtoWorkspaceStateChange.previous raw)) in
  let curr := workspace_state_string current in
  let ws := ProtoWorkspaceStateChange.workspace_id raw in
  let self := self <| workspace_states ::= <[ws := curr]> |> in
  let change := WorkspaceChange.mk ws prev curr (ProtoWorkspaceStateChange.trigger raw)
                  (timestamp_rfc3339 (ProtoWorkspaceStateChange.timestamp raw)) in
  let self := send Channel.Workspaces (FrameEvent.WorkspaceChange change) self in
  if bool_decide (ws = WorkspaceSet.root (workspaces self))
     && bool_decide (current ∈ [ProtoWorkspaceState.Closed; ProtoWorkspaceState.Failed]) then
    let terminal := if decide (current = ProtoWorkspaceState.Failed) then FAILED else COMPLETED in
    (send Channel.Session
       (FrameEvent.SessionLifecycle terminal (Some (ProtoWorkspaceStateChange.trigger raw))) self,
     Some terminal)
  else (self, None).

(** [Some] is the terminal state the session has reached. *)
Definition handle_event (self : t) (ev : StreamEvent.t) : t * option string :=
  match ev with
  | StreamEvent.Trail raw =>
      if negb (WorkspaceSet.contains (workspaces self) (ProtoTrailEntry.workspace_id raw)) then (self, None)
      else (handle_trail self raw, None)
  | StreamEvent.Gate raw =>
      if negb (WorkspaceSet.contains (workspaces self) (ProtoGateEvent.workspace_id raw)) then (self, None)
      else
        let label := workspace_labels self !! ProtoGateEvent.workspace_id raw in
        let enriched := enrich_gate raw label in
        (send Channel.Gates (FrameEvent.Gate enriched)
           (self <| pending ::= set PendingState.gates (λ l, l ++ [enriched]) |>), None)
  | StreamEvent.Escalation raw =>
      if negb (WorkspaceSet.contains (workspaces self) (ProtoEscalationEvent.workspace_id raw)) then (self, None)
      else
        let label := workspace_labels self !! ProtoEscalationEvent.workspace_id raw in
        let enriched := enrich_escalation raw label in
        (send Channel.Escalations (FrameEvent.Escalation enriched)
           (self <| pending ::= set PendingState.escalations (λ l, l ++ [enriched]) |>), None)
  | StreamEvent.WorkspaceChange raw =>
      if negb (WorkspaceSet.contains (workspaces self) (ProtoWorkspaceStateChange.workspace_id raw))
      then (self, None)
      else handle_change self raw
  | StreamEvent.Lag stream attempt reason =>
      (send Channel.Control
         (FrameEvent.Lag (lag_refresh_hint stream)
            (stream +:+ " reconnected after " +:+ pretty (Z.to_N attempt) +:+ " attempts: " +:+ reason)) self,
       None)
  | StreamEvent.Fatal stream reason =>
      (send Channel.Control (FrameEvent.MonitorError stream false reason) self, Some FAILED)
  end.

(** A database error is dropped by the caller. *)
Definition record_terminal (self : t) (to_state now : string) (db_fault : bool) (db : Db.t) : Db.t :=
  if db_fault then db else (Sessions.transition_state (session_id self) ACTIVE to_state now db).1.

Definition snapshot (self : t) : MonitorSnapshot.t :=
  MonitorSnapshot.mk (session_id self) (workspace_states self)
    (length (PendingState.gates (pending self))) (length (PendingState.escalations (pending self)))
    (length (PendingState.refusals (pending self))).
End Operations.
End Monitor.

(** ** The loop of the monitor

    [commands_open] says that a handle of the monitor exists.  The loop keeps a sender
    of the event channel, so that channel never reports its end. *)

Module MonitorLoop.
Record t : Type := mk {
  monitor : Monitor.t;
  commands : list MonitorCmd;
  commands_open : bool;
  events : list StreamEvent.t;
  replies : list (nat * MonitorSnapshot.t);
  running : bool;
}.
#[global] Instance eta_t : Settable t := λ r,
  mk (monitor r) (commands r) (commands_open r) (events r) (replies r) (running r).

Definition start (monitor : Monitor.t) : t := mk monitor [] true [] [] true.

Section Loop.
Context `{Json} `{Rfc3339}.

(** One turn of the biased [select!]: a command first, else an event, else it waits. *)
Definition turn (now : string) (db_fault : bool) (self : t) (db : Db.t) : t * Db.t :=
  if negb (running self) then (self, db)
  else
    match commands self with
    | Shutdown :: _ => (self <| running := false |>, db)
    | Snapshot reply :: rest =>
        (self <| commands := rest |> <| replies ::= λ l, l ++ [(reply, Monitor.snapshot (monitor self))] |>, db)
    | [] =>
        if negb (commands_open self) then (self <| running := false |>, db)
        else
          match events self with
          | [] => (self, db)
          | ev :: rest =>
              let '(m, terminal) := Monitor.handle_event (monitor self) ev in
              let self := self <| monitor := m |> <| events := rest |> in
              match terminal with
              | Some to_state =>
                  (self <| running := false |>, Monitor.record_terminal m to_state now db_fault db)
              | None => (self, db)
              end
          end
    end.
End Loop.
End MonitorLoop.

(** ** The stream drivers *)

(** The sender of the event channel: what was sent, and how many more sends the monitor
    will accept before it is gone, if it goes. *)
Module Tx.
Record t : Type := mk { sent : list StreamEvent.t; room : option nat }.

Definition send (ev : StreamEvent.t) (tx : t) : t * bool :=
  match room tx with
  | Some O => (tx, false)
  | Some (S n) => (mk (sent tx ++ [ev]) (Some n), true)
  | None => (mk (sent tx ++ [ev]) None, true)
  end.
End Tx.

(** A connection as a driver meets it: whether the pool has a channel, what the subscribe
    call answers, the messages and the error or end that follows them. *)
Module Connection.
Record t (A : Type) : Type := mk {
  highway : bool;
  subscribe : result unit string;
  messages : list A;
  closing : option string;
}.
Arguments mk {A}.
Arguments highway {A}.
Arguments subscribe {A}.
Arguments messages {A}.
Arguments closing {A}.
End Connection.

Fixpoint forward {A} (wrap : A → StreamEvent.t) (messages : list A) (closing : option string) (tx : Tx.t) :
    Tx.t * result unit string :=
  match messages with
  | [] => (tx, match closing with Some e => Err e | None => Ok tt end)
  | item :: messages =>
      let '(tx, ok) := Tx.send (wrap item) tx in
      if ok then forward wrap messages closing tx else (tx, Ok tt)
  end.

(** The body shared by the four drivers. *)
Definition subscribe_and_recv {A} (wrap : A → StreamEvent.t) (c : Connection.t A) (tx : Tx.t) :
    Tx.t * result unit string :=
  if negb (Connection.highway c) then (tx, Err "highway unavailable")
  else match Connection.subscribe c with
       | Err e => (tx, Err e)
       | Ok _ => forward wrap (Connection.messages c) (Connection.closing c) tx
       end.

Definition trail_driver : Connection.t ProtoTrailEntry.t → Tx.t → Tx.t * result unit string :=
  subscribe_and_recv StreamEvent.Trail.
Definition gates_driver : Connection.t ProtoGateEvent.t → Tx.t → Tx.t * result unit string :=
  subscribe_and_recv StreamEvent.Gate.
Definition escalations_driver : Connection.t ProtoEscalationEvent.t → Tx.t → Tx.t * result unit string :=
  subscribe_and_recv StreamEvent.Escalation.
Definition workspace_changes_driver :
    Connection.t ProtoWorkspaceStateChange.t → Tx.t → Tx.t * result unit string :=
  subscribe_and_recv StreamEvent.WorkspaceChange.

Module DriverState.
Record t : Type := mk { tx : Tx.t; backoff : Z; failures : Z; attempts : Z; slept : list Z }.
End DriverState.

(** A driver waiting for its next connection, one that has returned, and one whose
    doubling of the delay panicked. *)
Inductive DriverRun := Waiting (st : DriverState.t) | Returned (tx : Tx.t) (slept : list Z) | Panicked.

Section Driver.
Context {A : Type} (stream_name : string) (cfg : MonitorConfig.t)
  (driver : Connection.t A → Tx.t → Tx.t * result unit string).

Definition driver_start (tx : Tx.t) : DriverState.t :=
  DriverState.mk tx (MonitorConfig.reconnect_initial cfg) 0 0 [].

(** The two counters are 32-bit; [failures] stops at the cap. *)
Fixpoint run_stream_driver (st : DriverState.t) (conns : list (Connection.t A)) : DriverRun :=
  match conns with
  | [] => Waiting st
  | c :: conns =>
      let '(tx, r) := driver c (DriverState.tx st) in
      let tx := match r with
                | Ok _ => tx
                | Err reason => (Tx.send (StreamEvent.Lag stream_name (DriverState.attempts st) reason) tx).1
                end in
      let failures := wrap32 (DriverState.failures st + 1) in
      let attempts := wrap32 (DriverState.attempts st + 1) in
      if MonitorConfig.reconnect_failure_cap cfg <=? failures then
        let reason := "reconnect cap " +:+ pretty (Z.to_N failures) +:+ " exceeded" in
        Returned (Tx.send (StreamEvent.Fatal stream_name reason) tx).1 (DriverState.slept st)
      else
        let slept := DriverState.slept st ++ [DriverState.backoff st] in
        match duration_mul (DriverState.backoff st) 2 with
        | None => Panicked
        | Some d =>
            run_stream_driver
              (DriverState.mk tx (Z.min d (MonitorConfig.reconnect_max cfg)) failures attempts slept) conns
        end
  end.
End Driver.

(** ** Theory: what is pending *)

(** The monitor handling an event, and the routes that answer a gate or an escalation,
    which drop it from the shared state. *)
Inductive monitor_op :=
| Handle (ev : StreamEvent.t)
| ResolveGate (gate_id : string)
| ResolveEscalation (escalation_id : string).

Section Pending.
Context `{Json} `{Rfc3339}.
Implicit Types self : Monitor.t.

Definition monitor_step self (op : monitor_op) : Monitor.t :=
  match op with
  | Handle ev => (Monitor.handle_event self ev).1
  | ResolveGate gid => self <| Monitor.pending ::= set PendingState.gates (retain_gates gid) |>
  | ResolveEscalation eid =>
      self <| Monitor.pending ::= set PendingState.escalations
                (filter (λ e, EnrichedEscalation.escalation_id e ≠ eid)) |>
  end.

Definition monitor_run self (ops : list monitor_op) : Monitor.t := foldl monitor_step self ops.

(** What removes a gate. *)
Definition ends_gate (ws : WorkspaceSet.t) (gate_id : string) (op : monitor_op) : Prop :=
  match op with
  | ResolveGate gid => gid = gate_id
  | Handle (StreamEvent.Trail raw) =>
      WorkspaceSet.contains ws (ProtoTrailEntry.workspace_id raw) = true
      ∧ ProtoTrailEntry.event_type raw = "gate_resolved"
      ∧ parse_gate_id (ProtoTrailEntry.body raw) = Some gate_id
  | _ => False
  end.

Definition ends_escalation (escalation_id : string) (op : monitor_op) : Prop := op = ResolveEscalation escalation_id.

(** What no operation changes. *)
Lemma handle_event_fixed self ev :
  Monitor.workspaces (Monitor.handle_event self ev).1 = Monitor.workspaces self
  ∧ Monitor.workspace_labels (Monitor.handle_event self ev).1 = Monitor.workspace_labels self
  ∧ Monitor.session_id (Monitor.handle_event self ev).1 = Monitor.session_id self.
Proof. destruct ev; cbn; unfold Monitor.handle_trail, Monitor.handle_change; cbv zeta; by repeat case_match. Qed.

Lemma monitor_run_fixed self ops :
  Monitor.workspaces (monitor_run self ops) = Monitor.workspaces self
  ∧ Monitor.workspace_labels (monitor_run self ops) = Monitor.workspace_labels self
  ∧ Monitor.session_id (monitor_run self ops) = Monitor.session_id self.
Proof.
  revert self. induction ops as [|op ops IH]; intros self; [done|]. cbn [monitor_run foldl].
  fold (monitor_run (monitor_step self op) ops). destruct (IH (monitor_step self op)) as (-> & -> & ->). destruct op; [apply handle_event_fixed|done|done].
Qed.

Lemma handle_trail_pending self raw :
  PendingState.gates (Monitor.pending (Monitor.handle_trail self raw))
  = (if bool_decide (ProtoTrailEntry.event_type raw = "gate_resolved")
     then match parse_gate_id (ProtoTrailEntry.body raw) with
          | Some gid => retain_gates gid (PendingState.gates (Monitor.pending self))
          | None => PendingState.gates (Monitor.pending self)
          end
     else PendingState.gates (Monitor.pending self))
  ∧ PendingState.escalations (Monitor.pending (Monitor.handle_trail self raw))
    = PendingState.escalations (Monitor.pending self)
  ∧ PendingState.refusals (Monitor.pending (Monitor.handle_trail self raw))
    = PendingState.refusals (Monitor.pending self) ++ option_list (detect raw).
Proof.
  unfold Monitor.handle_trail. cbv zeta.
  destruct (detect raw); destruct (parse_gate_id _); case_bool_decide; cbn; rewrite ?app_nil_r; done.
Qed.

Lemma handle_change_pending self raw : Monitor.pending (Monitor.handle_change self raw).1 = Monitor.pending self.
Proof. unfold Monitor.handle_change. cbv zeta. by destruct (_ && _). Qed.

Definition adds_gate (ws : WorkspaceSet.t) (labels : gmap string string) (g : EnrichedGate.t) (op : monitor_op) : Prop :=
  ∃ raw, op = Handle (StreamEvent.Gate raw) ∧ ProtoGateEvent.workspace_id raw ∈ WorkspaceSet.members ws
    ∧ g = enrich_gate raw (labels !! ProtoGateEvent.workspace_id raw).

Lemma contains_true ws w : WorkspaceSet.contains ws w = true ↔ w ∈ WorkspaceSet.members ws.
Proof. apply bool_decide_eq_true. Qed.

Lemma gates_step self op g :
  g ∈ PendingState.gates (Monitor.pending (monitor_step self op))
  ↔ adds_gate (Monitor.workspaces self) (Monitor.workspace_labels self) g op
    ∨ g ∈ PendingState.gates (Monitor.pending self) ∧ ¬ ends_gate (Monitor.workspaces self) (EnrichedGate.gate_id g) op.
Proof.
  unfold adds_gate, ends_gate.
  destruct op as [[raw|raw|raw|raw|s n r|s r]|gid|eid]; cbn [monitor_step Monitor.handle_event];
    try (destruct (WorkspaceSet.contains _ _) eqn:Hc; cbn [negb fst]); try (naive_solver; fail).
  - rewrite (proj1 (handle_trail_pending self raw)).
    case_bool_decide; [destruct (parse_gate_id _) as [gid|]|]; 
      [unfold retain_gates; rewrite list_elem_of_filter| |]; naive_solver.
  - cbn. rewrite elem_of_app, list_elem_of_singleton. apply contains_true in Hc. naive_solver.
  - split; [by right; split; [|intros []]|]. intros [(? & [= <-] & Hm%contains_true & _)|[? _]]; congruence.
  - rewrite handle_change_pending. naive_solver.
  - cbn. unfold retain_gates. rewrite list_elem_of_filter. naive_solver.
Qed.

Definition adds_escalation (ws : WorkspaceSet.t) (labels : gmap string string) (e : EnrichedEscalation.t)
    (op : monitor_op) : Prop :=
  ∃ raw, op = Handle (StreamEvent.Escalation raw) ∧ ProtoEscalationEvent.workspace_id raw ∈ WorkspaceSet.members ws
    ∧ e = enrich_escalation raw (labels !! ProtoEscalationEvent.workspace_id raw).

Lemma escalations_step self op e :
  e ∈ PendingState.escalations (Monitor.pending (monitor_step self op))
  ↔ adds_escalation (Monitor.workspaces self) (Monitor.workspace_labels self) e op
    ∨ e ∈ PendingState.escalations (Monitor.pending self)
      ∧ ¬ ends_escalation (EnrichedEscalation.escalation_id e) op.
Proof.
  unfold adds_escalation, ends_escalation.
  destruct op as [[raw|raw|raw|raw|s n r|s r]|gid|eid]; cbn [monitor_step Monitor.handle_event];
    try (destruct (WorkspaceSet.contains _ _) eqn:Hc; cbn [negb fst]); try (naive_solver; fail).
  - rewrite (proj1 (proj2 (handle_trail_pending self raw))). naive_solver.
  - cbn. rewrite elem_of_app, list_elem_of_singleton. apply contains_true in Hc. naive_solver.
  - split; [by right; split|]. intros [(? & [= <-] & Hm%contains_true & _)|[? _]]; congruence.
  - rewrite handle_change_pending. naive_solver.
  - cbn. rewrite list_elem_of_filter. naive_solver.
Qed.

Definition adds_refusal (ws : WorkspaceSet.t) (r : Refusal.t) (op : monitor_op) : Prop :=
  ∃ raw, op = Handle (StreamEvent.Trail raw) ∧ ProtoTrailEntry.workspace_id raw ∈ WorkspaceSet.members ws
    ∧ detect raw = Some r.

Lemma refusals_step self op r :
  r ∈ PendingState.refusals (Monitor.pending (monitor_step self op))
  ↔ adds_refusal (Monitor.workspaces self) r op ∨ r ∈ PendingState.refusals (Monitor.pending self).
Proof.
  unfold adds_refusal.
  destruct op as [[raw|raw|raw|raw|s n rs|s rs]|gid|eid]; cbn [monitor_step Monitor.handle_event];
    try (destruct (WorkspaceSet.contains _ _) eqn:Hc; cbn [negb fst]); try (naive_solver; fail).
  - rewrite (proj2 (proj2 (handle_trail_pending self raw))), elem_of_app. apply contains_true in Hc.
    assert (Hin : r ∈ option_list (detect raw) ↔ detect raw = Some r).
    { destruct (detect raw); cbn; rewrite ?list_elem_of_singleton, ?elem_of_nil; naive_solver. }
    rewrite Hin. split; [intros [?|?]; eauto 6|]. intros [(raw' & [= <-] & _ & ?)|?]; auto.
  - split; [by right|]. intros [(? & [= <-] & Hm%contains_true & _)|?]; congruence.
  - rewrite handle_change_pending. naive_solver.
Qed.

(** The workspace a frame is about. *)
Definition frame_workspace (ev : FrameEvent.t) : option string :=
  match ev with
  | FrameEvent.Trail e => Some (EnrichedTrailEntry.workspace_id e)
  | FrameEvent.Gate g => Some (EnrichedGate.workspace_id g)
  | FrameEvent.Escalation e => Some (EnrichedEscalation.workspace_id e)
  | FrameEvent.WorkspaceChange c => Some (WorkspaceChange.workspace_id c)
  | FrameEvent.Refusal r => Some (Refusal.workspace_id r)
  | _ => None
  end.

Definition in_scope self (f : Frame.t) : Prop :=
  Frame.session_id f = Monitor.session_id self
  ∧ ∀ w, frame_workspace (Frame.event f) = Some w → w ∈ WorkspaceSet.members (Monitor.workspaces self).

Lemma detect_workspace raw r : detect raw = Some r → Refusal.workspace_id r = ProtoTrailEntry.workspace_id raw.
Proof. unfold detect. destruct (refusal_layer _); [|done]. destruct (parse_body _). by intros [= <-]. Qed.

(** An event appends frames, all in scope. *)
Lemma handle_event_frames self ev :
  ∃ l, Monitor.broadcast (Monitor.handle_event self ev).1 = Monitor.broadcast self ++ l ∧ Forall (in_scope self) l.
Proof.
  unfold in_scope. destruct ev as [raw|raw|raw|raw|s n rs|s rs]; cbn [Monitor.handle_event];
    try (destruct (WorkspaceSet.contains _ _) eqn:Hc; cbn [negb fst];
         [apply contains_true in Hc|exists []; by rewrite app_nil_r]);
    try (eexists; split; [done|]; apply Forall_singleton; cbn; by split; [|intros w [= <-]]).
  - unfold Monitor.handle_trail. cbv zeta.
    destruct (detect raw) as [r|] eqn:Hr; [apply detect_workspace in Hr|];
      (case_bool_decide; [destruct (parse_gate_id _)|]); cbn; rewrite <-?app_assoc; eexists; (split; [done|]);
      repeat (apply Forall_cons; split; [split; [done|]; intros w [= <-]; congruence|]); done.
  - unfold Monitor.handle_change. cbv zeta. destruct (_ && _); cbn; rewrite <-?app_assoc; eexists; (split; [done|]);
      repeat (apply Forall_cons; split; [split; [done|]; by intros w [= <-]|]); done.
Qed.

Lemma monitor_run_snoc self ops op : monitor_run self (ops ++ [op]) = monitor_step (monitor_run self ops) op.
Proof. unfold monitor_run. by rewrite foldl_app. Qed.

Lemma monitor_run_frames self ops :
  Forall (in_scope self) (Monitor.broadcast self) → Forall (in_scope self) (Monitor.broadcast (monitor_run self ops)).
Proof.
  intros Hinit. induction ops as [|op ops IH] using rev_ind; [done|]. rewrite monitor_run_snoc.
  destruct op as [ev| |]; [|done|done]. cbn.
  destruct (handle_event_frames (monitor_run self ops) ev) as (l & -> & Hl). apply Forall_app. split; [done|].
  destruct (monitor_run_fixed self ops) as (Hw & _ & Hs). eapply Forall_impl; [exact Hl|].
  intros f. unfold in_scope. by rewrite Hw, Hs.
Qed.

(** Seeding only learns labels and states. *)
Lemma seed_fixed `{HashOrder} highway self :
  let self' := Monitor.seed_workspace_labels highway self in
  Monitor.workspaces self' = Monitor.workspaces self ∧ Monitor.session_id self' = Monitor.session_id self
  ∧ Monitor.pending self' = Monitor.pending self ∧ Monitor.broadcast self' = Monitor.broadcast self.
Proof.
  destruct highway as [get_workspace|]; [|done]. cbn. generalize (set_iter (WorkspaceSet.members (Monitor.workspaces self))).
  intros l. revert self. induction l as [|w l IH]; intros self; [done|]. cbn.
  destruct (get_workspace w); [|apply IH]. match goal with |- context [foldl _ ?s l] => destruct (IH s) as (-> & -> & -> & ->) end.
  done.
Qed.
End Pending.

(** C20. What the monitor of a session shows, after any sequence of stream events and
    answers.  A gate is pending exactly when its event came from a workspace of the
    session and neither an answer nor a gate_resolved entry naming it came since; an
    escalation likewise, until it is answered; every refusal seen stays.  Every frame
    broadcast carries the session's id and is about a workspace of the session. *)
Theorem monitor_exact `{Json} `{Rfc3339} `{HashOrder} highway session_id (ws : WorkspaceSet.t) (ops : list monitor_op) :
  let self0 := Monitor.seed_workspace_labels highway (Monitor.spawn session_id ws) in
  let self := monitor_run self0 ops in
  let label w := Monitor.workspace_labels self0 !! w in
  (∀ g, g ∈ PendingState.gates (Monitor.pending self) ↔
     ∃ raw, since (Handle (StreamEvent.Gate raw)) (ends_gate ws (ProtoGateEvent.gate_id raw)) ops
       ∧ ProtoGateEvent.workspace_id raw ∈ WorkspaceSet.members ws
       ∧ g = enrich_gate raw (label (ProtoGateEvent.workspace_id raw)))
  ∧ (∀ e, e ∈ PendingState.escalations (Monitor.pending self) ↔
     ∃ raw, since (Handle (StreamEvent.Escalation raw))
              (ends_escalation (ProtoEscalationEvent.escalation_id raw)) ops
       ∧ ProtoEscalationEvent.workspace_id raw ∈ WorkspaceSet.members ws
       ∧ e = enrich_escalation raw (label (ProtoEscalationEvent.workspace_id raw)))
  ∧ (∀ r, r ∈ PendingState.refusals (Monitor.pending self) ↔
     ∃ raw, Handle (StreamEvent.Trail raw) ∈ ops
       ∧ ProtoTrailEntry.workspace_id raw ∈ WorkspaceSet.members ws ∧ detect raw = Some r)
  ∧ ∀ f, f ∈ Monitor.broadcast self →
      Frame.session_id f = session_id ∧ ∀ w, frame_workspace (Frame.event f) = Some w → w ∈ WorkspaceSet.members ws.
Proof.
  intros self0 self label. subst self.
  destruct (seed_fixed highway (Monitor.spawn session_id ws)) as (Hws & Hsid & Hp & Hb). fold self0 in Hws, Hsid, Hp, Hb.
  cbn in Hws, Hsid, Hp, Hb.
  assert (Hfix : ∀ ops, Monitor.workspaces (monitor_run self0 ops) = ws
    ∧ Monitor.workspace_labels (monitor_run self0 ops) = Monitor.workspace_labels self0).
  { intros ops'. destruct (monitor_run_fixed self0 ops') as (-> & -> & _). done. }
  split_and!.
  - intros g. rewrite (history_exact (λ ops, PendingState.gates (Monitor.pending (monitor_run self0 ops)))
      (adds_gate ws (Monitor.workspace_labels self0) g) (ends_gate ws (EnrichedGate.gate_id g))).
    + split; [intros (op & (raw & -> & Hm & ->) & Hs); by exists raw|].
      intros (raw & Hs & Hm & ->). eexists. split; [by exists raw|done].
    + cbn. by rewrite Hp.
    + intros ops' op. rewrite monitor_run_snoc, gates_step. by destruct (Hfix ops') as [-> ->].
  - intros e. rewrite (history_exact (λ ops, PendingState.escalations (Monitor.pending (monitor_run self0 ops)))
      (adds_escalation ws (Monitor.workspace_labels self0) e) (ends_escalation (EnrichedEscalation.escalation_id e))).
    + split; [intros (op & (raw & -> & Hm & ->) & Hs); by exists raw|].
      intros (raw & Hs & Hm & ->). eexists. split; [by exists raw|done].
    + cbn. by rewrite Hp.
    + intros ops' op. rewrite monitor_run_snoc, escalations_step. by destruct (Hfix ops') as [-> ->].
  - intros r. rewrite (history_exact (λ ops, PendingState.refusals (Monitor.pending (monitor_run self0 ops)))
      (adds_refusal ws r) (λ _, False)).
    + unfold adds_refusal. setoid_rewrite since_never. naive_solver.
    + cbn. by rewrite Hp.
    + intros ops' op. rewrite monitor_run_snoc, refusals_step. destruct (Hfix ops') as [-> _]. naive_solver.
  - intros f Hf. pose proof (monitor_run_frames self0 ops) as Hall. rewrite Hb, Forall_nil, Forall_forall in Hall.
    destruct (Hall I f Hf) as [Hs Hw]. rewrite Hws in Hw. by rewrite Hs.
Qed.

(** ** Theory: the loop and the database *)

Inductive loop_op :=
| Command (cmd : MonitorCmd)
| Event (ev : StreamEvent.t)
| CloseCommands
| Turn (now : string) (db_fault : bool)
| Answer (op : monitor_op)
| Others (q : query).

Section Loop.
Context `{Json} `{Rfc3339}.
Import MonitorLoop.

(** Sending to the loop, its turns, the routes and the other users of the database.  A
    loop that has ended has dropped its receivers. *)
Definition loop_step (s : t * Db.t) (op : loop_op) : t * Db.t :=
  let '(self, db) := s in
  match op with
  | Command cmd => (if running self then self <| commands ::= λ l, l ++ [cmd] |> else self, db)
  | Event ev => (if running self then self <| events ::= λ l, l ++ [ev] |> else self, db)
  | CloseCommands => (self <| commands_open := false |>, db)
  | Turn now db_fault => turn now db_fault self db
  | Answer (Handle _) => (self, db)
  | Answer op => (self <| monitor ::= λ m, monitor_step m op |>, db)
  | Others q => (self, run_query db q)
  end.

Definition loop_run (s : t * Db.t) (ops : list loop_op) : t * Db.t := foldl loop_step s ops.

Definition others_queries (ops : list loop_op) : list query :=
  omap (λ op, match op with Others q => Some q | _ => None end) ops.

(** The database as the others make it. *)
Definition db_of (db : Db.t) (ops : list loop_op) : Db.t := foldl run_query db (others_queries ops).

Lemma db_of_snoc db ops op :
  db_of db (ops ++ [op]) = match op with Others q => run_query (db_of db ops) q | _ => db_of db ops end.
Proof.
  unfold db_of, others_queries. rewrite omap_app, foldl_app. by destruct op.
Qed.

Lemma handle_event_terminal self ev st :
  (Monitor.handle_event self ev).2 = Some st → st = COMPLETED ∨ st = FAILED.
Proof.
  destruct ev; cbn [Monitor.handle_event]; try done; try (by destruct (WorkspaceSet.contains _ _));
    [|intros [= <-]; by right].
  destruct (WorkspaceSet.contains _ _); cbn; [|done]. unfold Monitor.handle_change. cbv zeta.
  destruct (_ && _); cbn; [|done]. case_decide; intros [= <-]; auto.
Qed.

(** A turn: the session id stays, and the database changes only with the turn that ends
    the loop, by a query of the monitor. *)
Lemma turn_effect now fault self db :
  let '(self', db') := turn now fault self db in
  Monitor.session_id (monitor self') = Monitor.session_id (monitor self)
  ∧ (running self = false → running self' = false)
  ∧ (db' = db ∨ running self = true ∧ running self' = false ∧ fault = false
       ∧ ∃ st, (st = COMPLETED ∨ st = FAILED)
           ∧ db' = run_query db (Transition (Monitor.session_id (monitor self)) ACTIVE st now)).
Proof.
  unfold turn. destruct (running self) eqn:Hr; cbn [negb]; [|by split_and!; auto].
  destruct (commands self) as [|[|reply] rest]; [|by split_and!; auto|by split_and!; auto].
  destruct (commands_open self); cbn [negb]; [|by split_and!; auto].
  destruct (events self) as [|ev rest]; [by split_and!; auto|].
  destruct (handle_event_fixed (monitor self) ev) as (_ & _ & Hs).
  pose proof (handle_event_terminal (monitor self) ev) as Ht.
  destruct (Monitor.handle_event (monitor self) ev) as [m [st|]]; cbn [fst snd] in *; [|by split_and!; auto].
  cbn. split_and!; [done|done|]. unfold Monitor.record_terminal. destruct fault; [by left|].
  right. split_and!; [done|done|done|]. exists st. split; [by apply Ht|]. by rewrite Hs.
Qed.

Lemma loop_step_end s op : running s.1 = false → running (loop_step s op).1 = false.
Proof.
  destruct s as [self db]. cbn. intros Hr. destruct op as [| | |now fault|[]|]; cbn; rewrite ?Hr; try done.
  unfold turn. by rewrite Hr.
Qed.

(** The session id of the monitor is fixed. *)
Lemma loop_run_session s ops :
  Monitor.session_id (monitor (loop_run s ops).1) = Monitor.session_id (monitor s.1).
Proof.
  induction ops as [|op ops IH] using rev_ind; [done|]. unfold loop_run. rewrite foldl_app. fold (loop_run s ops).
  rewrite <-IH. destruct (loop_run s ops) as [self db]. cbn.
  destruct op as [| | |now fault|[]|]; cbn; try (destruct (running self)); try done; pose proof (turn_effect now fault self db) as Ht;
    destruct (turn _ _ _ _); apply Ht.
Qed.
End Loop.

(** C12. The monitor and the database, over any interleaving of commands, events, turns of
    the loop, answers and the queries of everybody else: either the monitor has not
    touched the database, or its loop has ended and, at one turn, it ran one query, the
    transition of its own session from active to completed or failed.  So a session
    that was closed by someone else first is left alone. *)
Theorem monitor_closes_once `{Json} `{Rfc3339} (m : Monitor.t) (db : Db.t) (ops : list loop_op) :
  let '(self, db') := loop_run (MonitorLoop.start m, db) ops in
  db' = db_of db ops
  ∨ MonitorLoop.running self = false
    ∧ ∃ before now after st, ops = before ++ Turn now false :: after
        ∧ (st = COMPLETED ∨ st = FAILED)
        ∧ query_ok (Transition (Monitor.session_id m) ACTIVE st now)
        ∧ db' = db_of (run_query (db_of db before) (Transition (Monitor.session_id m) ACTIVE st now)) after
        ∧ MonitorLoop.running (loop_run (MonitorLoop.start m, db) before).1 = true.
Proof.
  induction ops as [|op ops IH] using rev_ind; [by left|].
  pose proof (loop_run_session (MonitorLoop.start m, db) ops) as Hsid.
  unfold loop_run at 1. rewrite foldl_app. fold (loop_run (MonitorLoop.start m, db) ops).
  pose proof (λ H, loop_step_end (loop_run (MonitorLoop.start m, db) ops) op H) as Hend.
  destruct (loop_run (MonitorLoop.start m, db) ops) as [self db1] eqn:Hrun. cbn [foldl fst] in *.
  destruct IH as [-> | (Hr & before & now & after & st & -> & Hst & Hq & -> & Hb)].
  - rewrite db_of_snoc. destruct op as [| | |now fault|[]|]; cbn [loop_step]; try by left.
    pose proof (turn_effect now fault self (db_of db ops)) as Ht. destruct (MonitorLoop.turn _ _ _ _) as [self' db'].
    destruct Ht as (_ & _ & [-> | (Hr & Hr' & -> & st & Hst & ->)]); [by left|].
    right. split; [done|]. exists ops, now, [], st. rewrite Hsid. split_and!; [done|done| |done|by rewrite Hrun].
    unfold query_ok, used_transitions. destruct Hst as [-> | ->]; set_solver.
  - specialize (Hend Hr). destruct (loop_step _ op) as [self' db'] eqn:Hstep. right. split; [done|].
    exists before, now, (after ++ [op]), st. rewrite <-app_assoc. split_and!; [done|done|done| |done].
    rewrite db_of_snoc. destruct op as [| | |now' fault|[]|]; cbn [loop_step] in Hstep; try congruence.
    unfold MonitorLoop.turn in Hstep. rewrite Hr in Hstep. cbn in Hstep. by injection Hstep as <- <-.
Qed.

(** ** Theory: the drivers *)

(** The k-th delay. *)
Definition delay (cfg : MonitorConfig.t) (k : nat) : Z :=
  match k with
  | O => MonitorConfig.reconnect_initial cfg
  | _ => Z.min (MonitorConfig.reconnect_initial cfg * 2 ^ Z.of_nat k) (MonitorConfig.reconnect_max cfg)
  end.

(** How many connections a driver tries. *)
Definition tries (cfg : MonitorConfig.t) : nat := Z.to_nat (Z.max 1 (MonitorConfig.reconnect_failure_cap cfg)).

(** No doubling leaves the range of durations. *)
Record cfg_ok (cfg : MonitorConfig.t) : Prop := {
  co_initial : 0 ≤ MonitorConfig.reconnect_initial cfg * 2 ≤ DURATION_MAX;
  co_max : 0 ≤ MonitorConfig.reconnect_max cfg * 2 ≤ DURATION_MAX;
  co_cap : 0 ≤ MonitorConfig.reconnect_failure_cap cfg ≤ u32_max;
}.

(** What a driver sends for its connection number [k]. *)
Definition conn_events {A} (wrap : A → StreamEvent.t) (name : string) (k : nat) (c : Connection.t A) :
    list StreamEvent.t :=
  let lag reason := StreamEvent.Lag name (Z.of_nat k) reason in
  if negb (Connection.highway c) then [lag "highway unavailable"]
  else match Connection.subscribe c with
       | Err e => [lag e]
       | Ok _ => (wrap <$> Connection.messages c) ++ option_list (lag <$> Connection.closing c)
       end.

Definition tx_step {A} (wrap : A → StreamEvent.t) (name : string) (k : nat) (c : Connection.t A) (tx : Tx.t) : Tx.t :=
  let '(tx, r) := subscribe_and_recv wrap c tx in
  match r with Ok _ => tx | Err reason => (Tx.send (StreamEvent.Lag name (Z.of_nat k) reason) tx).1 end.

Fixpoint tx_after {A} (wrap : A → StreamEvent.t) (name : string) (k : nat) (conns : list (Connection.t A)) (tx : Tx.t) :
    Tx.t :=
  match conns with
  | [] => tx
  | c :: conns => tx_after wrap name (S k) conns (tx_step wrap name k c tx)
  end.

Lemma forward_open {A} (wrap : A → StreamEvent.t) messages closing s :
  forward wrap messages closing (Tx.mk s None)
  = (Tx.mk (s ++ (wrap <$> messages)) None, match closing with Some e => Err e | None => Ok tt end).
Proof.
  revert s. induction messages as [|x l IH]; intros s; cbn; [by rewrite app_nil_r|].
  rewrite IH. cbn. by rewrite <-app_assoc.
Qed.

Lemma tx_step_open {A} (wrap : A → StreamEvent.t) name k c s :
  tx_step wrap name k c (Tx.mk s None) = Tx.mk (s ++ conn_events wrap name k c) None.
Proof.
  unfold tx_step, subscribe_and_recv, conn_events. destruct (Connection.highway c); cbn [negb]; [|done].
  destruct (Connection.subscribe c); [|done]. rewrite forward_open.
  destruct (Connection.closing c); cbn; rewrite ?app_nil_r, ?app_assoc; done.
Qed.

Lemma tx_after_open {A} (wrap : A → StreamEvent.t) name k conns s :
  tx_after wrap name k conns (Tx.mk s None)
  = Tx.mk (s ++ mjoin (imap (λ i, conn_events wrap name (k + i)) conns)) None.
Proof.
  revert k s. induction conns as [|c conns IH]; intros k s; cbn [tx_after]; [by rewrite app_nil_r|].
  rewrite tx_step_open, IH, <-app_assoc, imap_cons, Nat.add_0_r.
  rewrite (imap_ext _ ((λ i, conn_events wrap name (k + i)) ∘ S)); [done|].
  intros i x _. cbn. by rewrite Nat.add_succ_r.
Qed.

Lemma delay_next cfg k :
  cfg_ok cfg → duration_mul (delay cfg k) 2 = Some (delay cfg k * 2)
    ∧ Z.min (delay cfg k * 2) (MonitorConfig.reconnect_max cfg) = delay cfg (S k).
Proof.
  intros [Hi Hm _]. unfold duration_mul.
  assert (Hle : delay cfg k * 2 ≤ DURATION_MAX) by (destruct k; unfold delay; lia).
  split; [by destruct (Z.leb_spec (delay cfg k * 2) DURATION_MAX); [|lia]|].
  unfold delay. destruct k as [|k]; [by rewrite Z.pow_1_r|].
  rewrite (Nat2Z.inj_succ (S k)), Z.pow_succ_r by lia. lia.
Qed.

Lemma run_stream_driver_from {A} (wrap : A → StreamEvent.t) name cfg k tx conns :
  cfg_ok cfg → (k < tries cfg)%nat →
  let st k tx := DriverState.mk tx (delay cfg k) (Z.of_nat k) (Z.of_nat k) (delay cfg <$> seq 0 k) in
  run_stream_driver name cfg (subscribe_and_recv wrap) (st k tx) conns
  = if decide (k + length conns < tries cfg)%nat
    then Waiting (st (k + length conns)%nat (tx_after wrap name k conns tx))
    else Returned (Tx.send (StreamEvent.Fatal name ("reconnect cap " +:+ pretty (N.of_nat (tries cfg)) +:+ " exceeded"))
                     (tx_after wrap name k (take (tries cfg - k) conns) tx)).1 (delay cfg <$> seq 0 (tries cfg - 1)).
Proof.
  intros Hok. cbv zeta. revert k tx. induction conns as [|c conns IH]; intros k tx Hk; cbn [run_stream_driver length].
  { rewrite decide_True by lia. by rewrite Nat.add_0_r. }
  cbn [DriverState.tx DriverState.failures DriverState.attempts DriverState.slept DriverState.backoff].
  assert (Hstep : (let '(tx', r) := subscribe_and_recv wrap c tx in
    match r with Ok _ => tx' | Err reason => (Tx.send (StreamEvent.Lag name (Z.of_nat k) reason) tx').1 end)
    = tx_step wrap name k c tx) by done.
  destruct (subscribe_and_recv wrap c tx) as [tx' r]. rewrite Hstep.
  pose proof (co_cap _ Hok). 
  assert (Hw : wrap32 (Z.of_nat k + 1) = Z.of_nat (S k)).
  { unfold wrap32. rewrite Z.mod_small; unfold tries, u32_max in *; lia. }
  rewrite Hw. destruct (Z.leb_spec (MonitorConfig.reconnect_failure_cap cfg) (Z.of_nat (S k))) as [Hcap|Hcap].
  - assert (Ht : tries cfg = S k) by (unfold tries in *; lia). rewrite decide_False by lia.
    rewrite Ht, Nat.sub_succ, Nat.sub_0_r. replace (S k - k)%nat with 1%nat by lia. cbn [take tx_after].
    do 5 f_equal.
  - destruct (delay_next cfg k Hok) as [-> Hnext]. rewrite Hnext.
    assert (Ht : (S k < tries cfg)%nat) by (unfold tries in *; lia).
    rewrite <-fmap_snoc, <-seq_S. rewrite (IH (S k)) by done. rewrite Nat.add_succ_comm.
    case_decide; [done|]. replace (tries cfg - k)%nat with (S (tries cfg - S k)) by lia. done.
Qed.

(** A stream driver of an attached monitor: its messages and a lag notice per failed
    connection go to the monitor in order; delays start at the initial one and double up
    to the maximum; after [max 1 cap] connections, however much each of them delivered,
    it reports a fatal error and returns, and before that it is waiting for the next. *)
Theorem driver_budget {A} (wrap : A → StreamEvent.t) name cfg (conns : list (Connection.t A)) (Hok : cfg_ok cfg) :
  let n := tries cfg in
  let sent := mjoin (imap (conn_events wrap name) (take n conns)) in
  match run_stream_driver name cfg (subscribe_and_recv wrap) (driver_start cfg (Tx.mk [] None)) conns with
  | Waiting st =>
      (length conns < n)%nat ∧ Tx.sent (DriverState.tx st) = sent
      ∧ DriverState.slept st = delay cfg <$> seq 0 (length conns)
  | Returned tx slept =>
      (n ≤ length conns)%nat
      ∧ Tx.sent tx = sent ++ [StreamEvent.Fatal name ("reconnect cap " +:+ pretty (N.of_nat n) +:+ " exceeded")]
      ∧ slept = delay cfg <$> seq 0 (n - 1)
  | Panicked => False
  end.
Proof.
  cbv zeta. change (driver_start cfg (Tx.mk [] None)) with
    (DriverState.mk (Tx.mk [] None) (delay cfg 0) (Z.of_nat 0) (Z.of_nat 0) (delay cfg <$> seq 0 0)).
  rewrite run_stream_driver_from by (done || (unfold tries; lia)). cbn [Nat.add].
  rewrite Nat.sub_0_r, !tx_after_open. case_decide; cbn; (split; [lia|]).
  - by rewrite take_ge by lia.
  - done.
Qed.

Lemma driver_budget_witness :
  let cfg := MonitorConfig.mk 256 200 300 3 in
  let ok := Connection.mk true (Ok tt) [7%nat] None in
  cfg_ok cfg
  ∧ match run_stream_driver "gates" cfg (subscribe_and_recv (λ n, StreamEvent.Lag "x" (Z.of_nat n) ""))
            (driver_start cfg (Tx.mk [] None)) [ok; ok; ok; ok] with
    | Returned tx slept =>
        Tx.sent tx = [StreamEvent.Lag "x" 7 ""; StreamEvent.Lag "x" 7 ""; StreamEvent.Lag "x" 7 "";
                      StreamEvent.Fatal "gates" "reconnect cap 3 exceeded"]
        ∧ slept = [200; 300]
    | _ => False
    end.
Proof.
  intros cfg ok. assert (Hok : cfg_ok cfg) by (split; cbn; unfold DURATION_MAX, from_secs, u64_max, u32_max; lia).
  split; [done|].
  pose proof (driver_budget (λ n, StreamEvent.Lag "x" (Z.of_nat n) "") "gates" cfg [ok; ok; ok; ok] Hok) as Hw.
  vm_compute in Hw |- *. exact (proj2 Hw).
Defined.
