(* ===== verification/Oversight.v ===== *)
(** * Oversight routes (console-api: routes/highway.rs, routes/highway_pending.rs,
    pagination.rs)

    The HTTP handlers through which people answer gates and escalations, inject
    directives and list what is pending.  A handler takes the state of the console, the
    authenticated user and the request and returns the state and the answer.  Behind the
    highway client is the runtime of [Runtime]; the faults of the database, of the audit
    log and of the connection are inputs.  Base64 and the text of JSON values are
    parameters.  An HTTP status is its number; the details of an error are a tagged value
    instead of JSON text. *)

From Stdlib Require Import Ascii.
From S2P Require Import Prelude Types Std Float Proto Fsm Tree TaskGraph Gate Workspace Integration.
From S2P Require Import Migration Orchestrator Trail Index Stores Recovery Config Runtime Console.
From S2P Require Import Monitor Api.

(** ** routes/highway.rs *)

(** [serde_json::to_vec] of a value of a request body; a failure is the empty vector. *)
Class JsonWrite : Type := { json_value : Type; to_vec : json_value → option bytes }.

(** What the outside does to a request: database and audit errors, whether the pool has
    a highway channel, and which calls fail, with or without having reached the
    runtime. *)
Module Outside.
Record t : Type := mk {
  db_fault : option string;
  audit_fault : bool;
  channel : bool;
  call_fault : nat → option (bool * Status.t);
}.
End Outside.

(** The state of the console that the routes use, with the runtime behind the pool.  Of
    a monitor's handle they use the shared pending state. *)
Module AppState.
Record t {St : Type} : Type := mk {
  db : Db.t;
  audit_log : list AuditRow.t;
  active_sessions : gmap string PendingState.t;
  runtime : Runtime.t St;
}.
Arguments t : clear implicits.
Arguments mk {St}.
#[global] Instance eta_t {St} : Settable (t St) := λ r,
  mk (db r) (audit_log r) (active_sessions r) (runtime r).
End AppState.

Module GateResolveRequest.
Record t `{JsonWrite} : Type := mk {
  decision : string; reason : option string; modifications : option json_value;
}.
End GateResolveRequest.

Module BatchGateItem.
Record t : Type := mk { gate_id : string; decision : string; reason : option string }.
End BatchGateItem.

(** The entries of a batch answer, by their status. *)
Inductive BatchResult :=
| BatchBadRequest (gate_id message : string)
| BatchApplied (gate_id : string) (applied : bool)
| BatchRejected (gate_id : string) (code : Code.t) (message : string).

Module EscalationAnswer.
Record t `{JsonWrite} : Type := mk { response : string; context : option json_value }.
End EscalationAnswer.

Module InjectDirectiveRequest.
Record t `{JsonWrite} : Type := mk { workspace_id : string; content : json_value; envelope_type : option string }.
End InjectDirectiveRequest.

Definition parse_gate_decision (s : string) : result ProtoGateDecision.t ApiError.t :=
  if bool_decide (s = "approve") then Ok ProtoGateDecision.Approve
  else if bool_decide (s = "reject") then Ok ProtoGateDecision.Reject
  else if bool_decide (s = "modify") then Ok ProtoGateDecision.Modify
  else Err (ApiError.bad_request
              ("unknown gate decision '" +:+ s +:+ "' (expected approve|reject|modify)")).

Definition audit_action_for_decision (d : ProtoGateDecision.t) : AuditAction.t :=
  match d with
  | ProtoGateDecision.Reject => AuditAction.SessionGateReject
  | _ => AuditAction.SessionGateApprove
  end.

Definition check_session_action_access (auth : AuthenticatedUser.t) (session : SessionRow.t) :
    result unit ApiError.t :=
  if decide (AuthenticatedUser.console_role auth = ConsoleRole.Admin) then Ok tt
  else if bool_decide (SessionRow.owner_user_id session = AuthenticatedUser.user_id auth) then Ok tt
  else Err (ApiError.from (ConsoleError.Forbidden
              "Only the session owner or an admin can perform actions on this session")).

Section Routes.
Context {St : Type} `{CheckpointStorage St} `{JsonWrite} (out : Outside.t).
Implicit Types state : AppState.t St.

(** The checks every action starts with: CSRF, the session, the caller. *)
Definition guarded_session state (auth : AuthenticatedUser.t) (headers : HeaderMap) (sid : string) :
    result SessionRow.t ApiError.t :=
  match validate_csrf headers (is_bearer_auth headers) with
  | Err e => Err (ApiError.from e)
  | Ok _ =>
      match Outside.db_fault out with
      | Some e => Err (ApiError.from (ConsoleError.Database e))
      | None =>
          match Sessions.get_by_id sid (AppState.db state) with
          | None => Err (ApiError.not_found "session" sid)
          | Some session =>
              match check_session_action_access auth session with
              | Ok _ => Ok session
              | Err e => Err e
              end
          end
      end
  end.

(** The [i]-th call of a request to the runtime. *)
Definition call {A} (i : nat) (f : Runtime.t St → Runtime.t St * result A Status.t) state :
    AppState.t St * result A Status.t :=
  match Outside.call_fault out i with
  | Some (false, s) => (state, Err s)
  | Some (true, s) => (state <| AppState.runtime ::= λ rt, (f rt).1 |>, Err s)
  | None => let '(rt, r) := f (AppState.runtime state) in (state <| AppState.runtime := rt |>, r)
  end.

Definition log_audit (entry : AuditEntry.t) state : AppState.t St :=
  if Outside.audit_fault out then state
  else state <| AppState.audit_log ::= λ l, l ++ [audit_row entry] |>.

Definition prune_gate (sid gid : string) state : AppState.t St :=
  state <| AppState.active_sessions ::= alter (set PendingState.gates (retain_gates gid)) sid |>.

Definition prune_escalation (sid eid : string) state : AppState.t St :=
  state <| AppState.active_sessions ::=
    alter (set PendingState.escalations (filter (λ e, EnrichedEscalation.escalation_id e ≠ eid))) sid |>.

Definition respond_to_gate (req : GateResponse.t) (rt : Runtime.t St) : Runtime.t St * result bool Status.t :=
  let '(rt, applied) := Runtime.handle_respond_to_gate rt req in (rt, Ok applied).

Definition body_bytes (v : option json_value) : bytes :=
  match v with Some v => default [] (to_vec v) | None => [] end.

Definition resolve_gate state (auth : AuthenticatedUser.t) (ctx : RequestContext.t) (headers : HeaderMap)
    (sid gid : string) (body : GateResolveRequest.t) : AppState.t St * result (string * bool) ApiError.t :=
  match guarded_session state auth headers sid with
  | Err e => (state, Err e)
  | Ok session =>
      match parse_gate_decision (GateResolveRequest.decision body) with
      | Err e => (state, Err e)
      | Ok decision =>
          let modifications := body_bytes (GateResolveRequest.modifications body) in
          if negb (Outside.channel out)
          then (state, Err (ApiError.runtime_unavailable "HighwayService" "RespondToGate"))
          else
            let req := GateResponse.mk gid (to_i32 decision) modifications "" in
            match call 0 (respond_to_gate req) state with
            | (state, Err s) => (state, Err (ApiError.from_tonic s "HighwayService" "RespondToGate"))
            | (state, Ok applied) =>
                let state := log_audit (AuditEntry.mk (AuthenticatedUser.user_id auth)
                  (audit_action_for_decision decision) gid
                  (Some (GateDetail sid (GateResolveRequest.decision body) (GateResolveRequest.reason body) false applied))
                  (RequestContext.ip ctx) (RequestContext.user_agent ctx)) state in
                (prune_gate sid gid state, Ok (gid, applied))
            end
      end
  end.

(** The loop over the items of a batch; [i] counts the calls made. *)
Fixpoint resolve_items (auth : AuthenticatedUser.t) (ctx : RequestContext.t) (sid : string) (i : nat)
    (items : list BatchGateItem.t) state : AppState.t St * list BatchResult :=
  match items with
  | [] => (state, [])
  | item :: items =>
      let gid := BatchGateItem.gate_id item in
      match parse_gate_decision (BatchGateItem.decision item) with
      | Err _ =>
          let '(state, results) := resolve_items auth ctx sid i items state in
          (state, BatchBadRequest gid ("unknown decision '" +:+ BatchGateItem.decision item +:+ "'") :: results)
      | Ok decision =>
          match call i (respond_to_gate (GateResponse.mk gid (to_i32 decision) [] "")) state with
          | (state, Ok applied) =>
              let state := log_audit (AuditEntry.mk (AuthenticatedUser.user_id auth)
                (audit_action_for_decision decision) gid
                (Some (GateDetail sid (BatchGateItem.decision item) (BatchGateItem.reason item) true applied))
                (RequestContext.ip ctx) (RequestContext.user_agent ctx)) state in
              let state := prune_gate sid gid state in
              let '(state, results) := resolve_items auth ctx sid (S i) items state in
              (state, BatchApplied gid applied :: results)
          | (state, Err s) =>
              let '(state, results) := resolve_items auth ctx sid (S i) items state in
              (state, BatchRejected gid (Status.code s) (Status.message s) :: results)
          end
      end
  end.

Definition batch_resolve_gates state (auth : AuthenticatedUser.t) (ctx : RequestContext.t) (headers : HeaderMap)
    (sid : string) (gates : list BatchGateItem.t) : AppState.t St * result (list BatchResult) ApiError.t :=
  match guarded_session state auth headers sid with
  | Err e => (state, Err e)
  | Ok session =>
      if negb (Outside.channel out)
      then (state, Err (ApiError.runtime_unavailable "HighwayService" "RespondToGate"))
      else let '(state, results) := resolve_items auth ctx sid 0 gates state in (state, Ok results)
  end.

Definition escalation_action (eid : string) (body : EscalationAnswer.t) : option EscalationResponse.Action :=
  if bool_decide (EscalationAnswer.response body = "abort") then Some (EscalationResponse.AbortAction true)
  else if bool_decide (EscalationAnswer.response body = "delegate")
  then Some (EscalationResponse.DelegateToCoordinator true)
  else if bool_decide (EscalationAnswer.response body = "feedback")
  then Some (EscalationResponse.Feedback (ProtoEnvelope.mk "" "" "" "feedback"
         (body_bytes (EscalationAnswer.context body)) eid None
         (to_i32 ProtoEnvelopePriority.Normal) (to_i32 ProtoEnvelopeOrigin.Unspecified)))
  else None.

Definition respond_escalation state (auth : AuthenticatedUser.t) (ctx : RequestContext.t) (headers : HeaderMap)
    (sid eid : string) (body : EscalationAnswer.t) : AppState.t St * result (string * bool) ApiError.t :=
  match guarded_session state auth headers sid with
  | Err e => (state, Err e)
  | Ok session =>
      match escalation_action eid body with
      | None =>
          (state, Err (ApiError.bad_request ("unknown escalation response '" +:+ EscalationAnswer.response body
                         +:+ "' (expected feedback|abort|delegate)")))
      | Some action =>
          if negb (Outside.channel out)
          then (state, Err (ApiError.runtime_unavailable "HighwayService" "RespondToEscalation"))
          else
            let req := EscalationResponse.mk eid (Some action) "" in
            match call 0 (λ rt, let '(rt, applied) := Runtime.handle_respond_to_escalation rt req in (rt, Ok applied))
                    state with
            | (state, Err s) => (state, Err (ApiError.from_tonic s "HighwayService" "RespondToEscalation"))
            | (state, Ok applied) =>
                let state := log_audit (AuditEntry.mk (AuthenticatedUser.user_id auth)
                  AuditAction.SessionEscalationRespond eid
                  (Some (EscalationDetail sid (EscalationAnswer.response body) applied))
                  (RequestContext.ip ctx) (RequestContext.user_agent ctx)) state in
                (prune_escalation sid eid state, Ok (eid, applied))
            end
      end
  end.

Definition inject_directive state (auth : AuthenticatedUser.t) (ctx : RequestContext.t) (headers : HeaderMap)
    (sid : string) (body : InjectDirectiveRequest.t) : AppState.t St * result string ApiError.t :=
  match guarded_session state auth headers sid with
  | Err e => (state, Err e)
  | Ok session =>
      if negb (bool_decide (SessionRow.state session = ACTIVE))
      then (state, Err (ApiError.from (ConsoleError.Conflict
              "Directives can only be injected into active sessions")))
      else if negb (Outside.channel out)
      then (state, Err (ApiError.runtime_unavailable "HighwayService" "InjectEnvelope"))
      else
        let ws := InjectDirectiveRequest.workspace_id body in
        let req := InjectEnvelopeRequest.mk ws (default "directive" (InjectDirectiveRequest.envelope_type body))
                     (default [] (to_vec (InjectDirectiveRequest.content body)))
                     (to_i32 ProtoEnvelopePriority.Normal) "" in
        match call 0 (λ rt, Runtime.handle_inject_envelope rt req) state with
        | (state, Err s) => (state, Err (ApiError.from_tonic s "HighwayService" "InjectEnvelope"))
        | (state, Ok (envelope_id, _)) =>
            (log_audit (AuditEntry.mk (AuthenticatedUser.user_id auth) AuditAction.SessionInjectDirective sid
               (Some (InjectDetail ws envelope_id)) (RequestContext.ip ctx) (RequestContext.user_agent ctx)) state,
             Ok envelope_id)
        end
  end.
End Routes.

(** ** pagination.rs *)

Definition DEFAULT_LIMIT : Z := 50.
Definition MAX_LIMIT : Z := 200.

(** The URL-safe base64 engine. *)
Class Base64 : Type := { b64_encode : bytes → string; b64_decode : string → option bytes }.

Module PaginationParams.
Record t : Type := mk { limit : option Z; cursor : option string }.

Definition effective_limit (self : t) : nat := Z.to_nat (Z.min (Z.max 1 (default DEFAULT_LIMIT (limit self))) MAX_LIMIT).

Definition decode_cursor `{Base64} (self : t) : option string :=
  cursor self ≫= λ c, b64_decode c ≫= from_utf8.
End PaginationParams.

Definition encode_cursor `{Base64} (sort_key : string) : string := b64_encode (as_bytes sort_key).

Module Page.
Record t (T : Type) : Type := mk { items : list T; cursor : option string; has_more : bool }.
Arguments mk {T}.
Arguments items {T}.
Arguments cursor {T}.
Arguments has_more {T}.
End Page.

Definition after_cursor (cursor : option string) (key : string) : bool :=
  match cursor with Some c => str_lt c key | None => true end.

(** The page cut from the items after the cursor. *)
Definition cut_page `{Base64} {T} (key : T → string) (limit : nat) (filtered : list T) : Page.t T :=
  let has_more := (limit <? length filtered)%nat in
  let page := take limit filtered in
  Page.mk page (if has_more then (λ item, encode_cursor (key item)) <$> last page else None) has_more.

(** For items that are already sorted. *)
Definition paginate `{Base64} {T} (sort_key : T → string) (items : list T) (params : PaginationParams.t) : Page.t T :=
  let cursor_value := PaginationParams.decode_cursor params in
  cut_page sort_key (PaginationParams.effective_limit params)
    (filter (λ item, after_cursor cursor_value (sort_key item)) items).

(** ** routes/highway_pending.rs *)

Module PendingItem.
Record t (T : Type) : Type := mk { session_id : string; inner : T }.
Arguments mk {T}.
Arguments session_id {T}.
Arguments inner {T}.
End PendingItem.

(** The field of the serialized item that is its id. *)
Class ItemId (T : Type) : Type := item_id : T → string.
#[global] Instance gate_item_id : ItemId EnrichedGate.t := EnrichedGate.gate_id.
#[global] Instance escalation_item_id : ItemId EnrichedEscalation.t := EnrichedEscalation.escalation_id.
#[global] Instance refusal_item_id : ItemId Refusal.t := Refusal.id.

Definition sort_key (session_id item_id : string) : string :=
  session_id +:+ String (Ascii.ascii_of_nat 31) item_id.

Definition item_sort_key `{ItemId T} (item : PendingItem.t T) : string :=
  sort_key (PendingItem.session_id item) (item_id (PendingItem.inner item)).

Definition key_le `{ItemId T} (a b : PendingItem.t T) : Prop := str_le (item_sort_key a) (item_sort_key b) = true.
#[global] Instance key_le_dec `{ItemId T} : RelDecision (key_le (T := T)).
Proof. intros a b. apply bool_eq_dec. Defined.

Definition build_page `{Base64} `{ItemId T} (items : list (PendingItem.t T)) (params : PaginationParams.t) :
    Page.t (PendingItem.t T) :=
  let cursor_value := PaginationParams.decode_cursor params in
  let filtered := filter (λ item, after_cursor cursor_value (item_sort_key item)) items in
  cut_page item_sort_key (PaginationParams.effective_limit params) (merge_sort key_le filtered).

Module PendingParams.
Record t : Type := mk { limit : option Z; cursor : option string; session_id : option string }.
End PendingParams.

(** The rows of an owner, newest first; the filters by state and date are not used here. *)
Definition newer (a b : SessionRow.t) : Prop := str_le (SessionRow.created_at b) (SessionRow.created_at a) = true.
#[global] Instance newer_dec : RelDecision newer.
Proof. intros a b. apply bool_eq_dec. Defined.

Definition list_by_owner `{HashOrder} (owner_user_id : string) (limit : nat) (db : Db.t) : list SessionRow.t :=
  take limit (merge_sort newer
    (filter (λ row, SessionRow.owner_user_id row = owner_user_id) (values (Db.sessions db)))).

Definition visible (owned : option (gset string)) (sid : string) : bool :=
  match owned with None => true | Some set => bool_decide (sid ∈ set) end.

Definition enforce_session_scope (owned : option (gset string)) (sid : string) : result unit ApiError.t :=
  match owned with
  | None => Ok tt
  | Some set =>
      if bool_decide (sid ∈ set) then Ok tt
      else Err (ApiError.from (ConsoleError.Forbidden "Cannot view pending items for a session you do not own"))
  end.

Definition require (auth : AuthenticatedUser.t) (action : Action.t) : result unit ApiError.t :=
  result_map_err ApiError.from (authorized auth action).

Section Pending.
Context {St : Type} `{HashOrder} `{Base64} (out : Outside.t).
Implicit Types state : AppState.t St.

Definition owned_sessions state (auth : AuthenticatedUser.t) : result (option (gset string)) ApiError.t :=
  if decide (AuthenticatedUser.console_role auth = ConsoleRole.Admin) then Ok None
  else
    match Outside.db_fault out with
    | Some e => Err (ApiError.from (ConsoleError.Database e))
    | None =>
        Ok (Some (list_to_set (SessionRow.id <$>
          list_by_owner (AuthenticatedUser.user_id auth) 1000 (AppState.db state))))
    end.

Definition collect {T} (pick : PendingState.t → list T) (owned : option (gset string)) (scope : option string) state :
    list (PendingItem.t T) :=
  mjoin ((λ '(sid, pending),
    if negb (visible owned sid) then []
    else match scope with
         | Some s => if bool_decide (s = sid) then PendingItem.mk sid <$> pick pending else []
         | None => PendingItem.mk sid <$> pick pending
         end) <$> hash_iter (AppState.active_sessions state)).

(** The body of the three aggregations. *)
Definition aggregate `{ItemId T} (pick : PendingState.t → list T) state (auth : AuthenticatedUser.t)
    (params : PendingParams.t) : result (Page.t (PendingItem.t T)) ApiError.t :=
  let? owned := owned_sessions state auth in
  let? _ := match PendingParams.session_id params with
            | Some sid => enforce_session_scope owned sid
            | None => Ok tt
            end in
  Ok (build_page (collect pick owned (PendingParams.session_id params) state)
        (PaginationParams.mk (PendingParams.limit params) (PendingParams.cursor params))).

Definition pending_gates state (auth : AuthenticatedUser.t) (params : PendingParams.t) :
    result (Page.t (PendingItem.t EnrichedGate.t)) ApiError.t :=
  let? _ := require auth Action.ApproveOwnGates in aggregate PendingState.gates state auth params.

Definition pending_escalations state (auth : AuthenticatedUser.t) (params : PendingParams.t) :
    result (Page.t (PendingItem.t EnrichedEscalation.t)) ApiError.t :=
  let? _ := require auth Action.HandleOwnEscalations in aggregate PendingState.escalations state auth params.

Definition pending_refusals state (auth : AuthenticatedUser.t) (params : PendingParams.t) :
    result (Page.t (PendingItem.t Refusal.t)) ApiError.t :=
  let? _ := require auth Action.ViewOwnOversight in aggregate PendingState.refusals state auth params.
End Pending.

(** ** Theory: the order and the pages *)

Section Pages.
Context `{Base64} {T : Type} `{ItemId T}.
Implicit Types items l : list (PendingItem.t T).

#[export] Instance key_le_total : Total (key_le (T := T)).
Proof. intros a b. apply blob_le_total. Qed.
#[export] Instance key_le_trans : Transitive (key_le (T := T)).
Proof. intros a b c. apply blob_le_trans. Qed.

Lemma key_lt_le (a b : PendingItem.t T) :
  str_lt (item_sort_key a) (item_sort_key b) = true ↔ key_le a b ∧ item_sort_key a ≠ item_sort_key b.
Proof.
  unfold str_lt, key_le, str_le. rewrite negb_true_iff. split.
  - intros Hlt. destruct (blob_le_total (as_bytes (item_sort_key a)) (as_bytes (item_sort_key b))) as [Hle|Hle]; [|congruence].
    split; [done|]. intros Heq. rewrite Heq, blob_le_refl in Hlt. done.
  - intros [Hle Hne]. apply not_true_is_false. intros Hge. by apply Hne, as_bytes_inj, blob_le_antisymm.
Qed.

(** The items in the order the pages show them. *)
Definition listing items : list (PendingItem.t T) := merge_sort key_le items.

Lemma sorted_unique l1 l2 :
  NoDup (item_sort_key <$> l1) → StronglySorted key_le l1 → StronglySorted key_le l2 → l1 ≡ₚ l2 → l1 = l2.
Proof.
  intros Hnd Hs1 Hs2 Hp. apply (StronglySorted_unique_strong key_le); [|done|done|done].
  intros x y Hx Hy Hxy Hyx. rewrite <-Hp in Hy.
  assert (Hk : item_sort_key x = item_sort_key y) by (by apply as_bytes_inj, blob_le_antisymm).
  apply list_elem_of_lookup in Hx as [i Hi], Hy as [j Hj].
  assert (i = j) as ->; [|congruence].
  eapply (NoDup_lookup _ i j); [exact Hnd| |]; rewrite list_lookup_fmap, ?Hi, ?Hj; cbn; [done|by rewrite Hk].
Qed.

Lemma StronglySorted_filter (P : PendingItem.t T → bool) l :
  StronglySorted key_le l → StronglySorted key_le (filter P l).
Proof.
  induction 1 as [|x l Hl IH Hx]; [constructor|]. rewrite filter_cons. case_decide; [|done].
  constructor; [done|]. apply Forall_forall. intros y [_ Hy]%list_elem_of_filter. rewrite Forall_forall in Hx. auto.
Qed.

(** Filtering first or sorting first. *)
Lemma sort_filter (P : PendingItem.t T → bool) items :
  NoDup (item_sort_key <$> items) → merge_sort key_le (filter P items) = filter P (listing items).
Proof.
  intros Hnd. apply sorted_unique.
  - rewrite merge_sort_Permutation. eapply sublist_NoDup; [exact Hnd|]. apply (fmap_sublist item_sort_key), sublist_filter.
  - apply StronglySorted_merge_sort; apply _.
  - apply StronglySorted_filter, StronglySorted_merge_sort; apply _.
  - unfold listing. rewrite !merge_sort_Permutation. done.
Qed.

(** What follows an item in a strictly sorted list. *)
Lemma filter_after pre x post :
  StronglySorted key_le (pre ++ x :: post) → NoDup (item_sort_key <$> pre ++ x :: post) →
  filter (λ y, str_lt (item_sort_key x) (item_sort_key y)) (pre ++ x :: post) = post.
Proof.
  intros Hs Hnd. rewrite fmap_app, fmap_cons in Hnd. apply NoDup_app in Hnd as (_ & Hpre & Hpost).
  apply NoDup_cons in Hpost as [Hx _]. apply StronglySorted_app in Hs as (Hle & _ & Hs).
  apply StronglySorted_inv in Hs as [_ Hge]. rewrite Forall_forall in Hge.
  rewrite filter_app, filter_cons, decide_False.
  - rewrite (list_filter_none _ pre), (list_filter_id _ post).
    + done.
    + intros y Hy. apply Is_true_true, key_lt_le. split; [by apply Hge|].
      intros Heq. apply Hx. rewrite Heq. by apply list_elem_of_fmap_2.
    + intros y Hy Hlt%Is_true_true%key_lt_le. destruct Hlt as [Hlt Hne]. apply Hne.
      apply as_bytes_inj, blob_le_antisymm; [done|]. apply (Hle y x); [done|left].
  - intros Hlt%Is_true_true%key_lt_le. by destruct Hlt.
Qed.

(** The cursors a client can hold: none, or the key of the item that ended the last
    page.  [pos] is the number of items shown so far. *)
Definition cursor_at items (pos : nat) : option string :=
  match pos with
  | O => None
  | S n => (λ item, encode_cursor (item_sort_key item)) <$> listing items !! n
  end.

(** Keys are text, and a key survives the engine. *)
Record cursors_ok items : Prop := {
  ck_distinct : NoDup (item_sort_key <$> items);
  ck_decode : ∀ b, b64_decode (b64_encode b) = Some b;
  ck_text : ∀ item, item ∈ items → from_utf8 (as_bytes (item_sort_key item)) = Some (item_sort_key item);
}.

Lemma listing_perm items : listing items ≡ₚ items.
Proof. apply merge_sort_Permutation. Qed.

Lemma build_page_at items limit pos :
  cursors_ok items → (pos ≤ length items)%nat →
  build_page items (PaginationParams.mk limit (cursor_at items pos))
  = cut_page item_sort_key (PaginationParams.effective_limit (PaginationParams.mk limit None)) (drop pos (listing items)).
Proof.
  intros [Hnd Hdec Htxt] Hpos. unfold build_page. cbv zeta. rewrite sort_filter by done.
  change (PaginationParams.effective_limit (PaginationParams.mk limit (cursor_at items pos)))
    with (PaginationParams.effective_limit (PaginationParams.mk limit None)).
  f_equal. unfold PaginationParams.decode_cursor. cbn [PaginationParams.cursor]. destruct pos as [|n]; cbn [cursor_at].
  { apply list_filter_id. intros. done. }
  destruct (lookup_lt_is_Some_2 (listing items) n) as [x Hx]; [rewrite listing_perm; lia|].
  rewrite Hx. cbn [fmap option_fmap option_map mbind option_bind]. unfold encode_cursor. rewrite Hdec. cbn [mbind option_bind].
  rewrite Htxt by (rewrite <-listing_perm; by eapply list_elem_of_lookup_2). cbn [after_cursor].
  pose proof (take_drop_middle _ _ _ Hx) as Hmid. rewrite <-Hmid at 1.
  apply filter_after; rewrite Hmid; [apply StronglySorted_merge_sort; apply _|by rewrite listing_perm].
Qed.

(** Following the cursors from a position. *)
Fixpoint walk (fetch : option string → Page.t (PendingItem.t T)) (fuel : nat) (cursor : option string) :
    option (list (Page.t (PendingItem.t T))) :=
  match fuel with
  | O => None
  | S fuel =>
      let page := fetch cursor in
      match Page.cursor page with
      | None => Some [page]
      | Some c => cons page <$> walk fetch fuel (Some c)
      end
  end.

Lemma walk_from items limit fuel pos :
  cursors_ok items → (pos ≤ length items)%nat → (length items - pos < fuel)%nat →
  ∃ pages, walk (λ c, build_page items (PaginationParams.mk limit c)) fuel (cursor_at items pos) = Some pages
    ∧ mjoin (Page.items <$> pages) = drop pos (listing items)
    ∧ Forall (λ p, (length (Page.items p) ≤ PaginationParams.effective_limit (PaginationParams.mk limit None))%nat) pages.
Proof.
  intros Hok. revert pos. induction fuel as [|fuel IH]; intros pos Hpos Hfuel; [lia|]. cbn [walk].
  rewrite build_page_at by done. set (lim := PaginationParams.effective_limit _).
  assert (Hlim : (1 ≤ lim)%nat) by (subst lim; unfold PaginationParams.effective_limit, MAX_LIMIT; lia).
  pose proof (length_drop (listing items) pos) as Hlen. rewrite (Permutation_length (listing_perm items)) in Hlen.
  unfold cut_page. cbn [Page.cursor]. destruct (Nat.ltb_spec lim (length (drop pos (listing items)))) as [Hmore|Hlast].
  - assert (Hc : (λ item, encode_cursor (item_sort_key item)) <$> last (take lim (drop pos (listing items)))
      = cursor_at items (pos + lim)).
    { destruct lim as [|l]; [lia|]. rewrite Nat.add_succ_r. cbn [cursor_at]. rewrite last_lookup, length_take, Nat.min_l by lia.
      cbn [pred]. rewrite lookup_take, lookup_drop, decide_True by lia. done. }
    rewrite Hc. destruct (IH (pos + lim)%nat) as (pages & Hw & Hj & Hf); [lia|lia|].
    destruct (cursor_at items (pos + lim)) as [c|] eqn:Hcur; [|].
    + rewrite Hw. eexists. split; [done|]. split.
      * transitivity (take lim (drop pos (listing items)) ++ mjoin (Page.items <$> pages)); [done|].
        rewrite Hj, <-drop_drop. apply take_drop.
      * constructor; [cbn; rewrite length_take; lia|done].
    + destruct lim as [|l]; [lia|]. rewrite Nat.add_succ_r in Hcur. cbn in Hcur.
      destruct (lookup_lt_is_Some_2 (listing items) (pos + l)) as [x Hx]; [rewrite listing_perm; lia|]. by rewrite Hx in Hcur.
  - eexists. split; [done|]. cbn. rewrite app_nil_r, take_ge by done. split; [done|].
    constructor; [done|constructor].
Qed.
End Pages.

(** ** Theory: what a user can list *)

Section Listing.
Context {St : Type} `{HashOrder} `{Base64} (out : Outside.t).
Implicit Types state : AppState.t St.

(** The sessions whose items a user is shown: all for an admin, else those the query of
    their sessions returns, which stops at 1000. *)
Definition sees state (auth : AuthenticatedUser.t) (sid : string) : Prop :=
  AuthenticatedUser.console_role auth = ConsoleRole.Admin
  ∨ sid ∈ SessionRow.id <$> list_by_owner (AuthenticatedUser.user_id auth) 1000 (AppState.db state).

(** Rows are stored under their id. *)
Definition rows_keyed state : Prop :=
  ∀ k row, Db.sessions (AppState.db state) !! k = Some row → SessionRow.id row = k.

Definition owns state (auth : AuthenticatedUser.t) (sid : string) (row : SessionRow.t) : Prop :=
  Db.sessions (AppState.db state) !! sid = Some row ∧ SessionRow.owner_user_id row = AuthenticatedUser.user_id auth.

(** The sessions of the user that are as new as [row]. *)
Definition as_new state (auth : AuthenticatedUser.t) (row : SessionRow.t) : list SessionRow.t :=
  filter (λ r, newer r row)
    (filter (λ r, SessionRow.owner_user_id r = AuthenticatedUser.user_id auth) (values (Db.sessions (AppState.db state)))).

#[local] Instance newer_total : Total newer.
Proof. intros a b. apply blob_le_total. Qed.
#[local] Instance newer_trans : Transitive newer.
Proof. intros a b c Hab Hbc. unfold newer, str_le in *. by eapply blob_le_trans. Qed.

Lemma owned_sees state auth :
  Outside.db_fault out = None →
  ∃ owned, owned_sessions out state auth = Ok owned ∧ ∀ sid, visible owned sid = true ↔ sees state auth sid.
Proof.
  intros Hdb. unfold owned_sessions, sees. case_decide as Hadmin.
  { exists None. split; [done|]. intros sid. cbn. tauto. }
  rewrite Hdb. eexists. split; [done|]. intros sid. cbn [visible]. rewrite bool_decide_eq_true, elem_of_list_to_set. tauto.
Qed.

Lemma elem_of_owner_list owner n db row :
  row ∈ list_by_owner owner n db → SessionRow.owner_user_id row = owner ∧ ∃ k, Db.sessions db !! k = Some row.
Proof.
  unfold list_by_owner. set (l := merge_sort _ _). intros Hin. assert (row ∈ l) as Hl.
  { rewrite <-(take_drop n l). apply elem_of_app. by left. }
  subst l. rewrite merge_sort_Permutation in Hl. by rewrite list_elem_of_filter, elem_of_values in Hl.
Qed.

(** What the query leaves out of a user's sessions is older than 1000 others. *)
Lemma sees_owned state auth sid :
  rows_keyed state → AuthenticatedUser.console_role auth ≠ ConsoleRole.Admin →
  (sees state auth sid → ∃ row, owns state auth sid row)
  ∧ ∀ row, owns state auth sid row → ¬ sees state auth sid → (1000 ≤ length (as_new state auth row))%nat.
Proof.
  intros Hkeys Hrole. split.
  - intros [?|Hin]; [done|]. apply list_elem_of_fmap in Hin as (row & -> & Hin).
    apply elem_of_owner_list in Hin as (Hown & k & Hk). exists row. by rewrite (Hkeys _ _ Hk).
  - intros row [Hrow Hown] Hno. unfold sees, list_by_owner in Hno.
    set (mine := filter (λ r, SessionRow.owner_user_id r = AuthenticatedUser.user_id auth)
                   (values (Db.sessions (AppState.db state)))) in *.
    assert (Hin : row ∈ merge_sort newer mine).
    { rewrite merge_sort_Permutation. apply list_elem_of_filter. split; [done|]. apply elem_of_values. eauto. }
    pose proof (StronglySorted_merge_sort newer mine) as Hsorted.
    rewrite <-(take_drop 1000 (merge_sort newer mine)) in Hin, Hsorted. apply elem_of_app in Hin as [Hin|Hin].
    { destruct Hno. right. apply list_elem_of_fmap. exists row. split; [symmetry; by apply Hkeys|done]. }
    assert (Hall : Forall (λ r, newer r row) (take 1000 (merge_sort newer mine))).
    { apply Forall_forall. intros r Hr. eapply StronglySorted_app_1_elem_of; [exact Hsorted|done..]. }
    assert (Hlen : length (take 1000 (merge_sort newer mine)) = 1000%nat).
    { apply length_take_le. destruct (decide (1000 ≤ length (merge_sort newer mine))%nat); [done|].
      rewrite drop_ge in Hin by lia. by apply elem_of_nil in Hin. }
    unfold as_new. fold mine. set (sorted := merge_sort newer mine) in *.
    assert (Hperm : filter (λ r, newer r row) mine ≡ₚ filter (λ r, newer r row) sorted)
      by (by rewrite <-(merge_sort_Permutation newer mine)).
    rewrite (Permutation_length Hperm), <-(take_drop 1000 sorted), filter_app, length_app.
    rewrite (list_filter_id (λ r, newer r row) (take 1000 sorted)); [lia|]. by apply Forall_forall.
Qed.

Lemma elem_of_collect {T} (pick : PendingState.t → list T) owned scope state item :
  item ∈ collect pick owned scope state ↔
  visible owned (PendingItem.session_id item) = true
  ∧ (∀ s, scope = Some s → s = PendingItem.session_id item)
  ∧ ∃ pending, AppState.active_sessions state !! PendingItem.session_id item = Some pending
      ∧ PendingItem.inner item ∈ pick pending.
Proof.
  unfold collect. rewrite list_elem_of_join. setoid_rewrite list_elem_of_fmap. split.
  - intros (l & Hl & [sid pending] & -> & Hin%elem_of_hash_iter).
    destruct (visible owned sid) eqn:Hv; cbn in Hl; [|by apply elem_of_nil in Hl].
    assert (item ∈ PendingItem.mk sid <$> pick pending ∧ ∀ s, scope = Some s → s = sid) as [Hi Hs].
    { destruct scope as [s|]; [|done]. case_bool_decide; [naive_solver|by apply elem_of_nil in Hl]. }
    apply list_elem_of_fmap in Hi as (x & -> & Hx). cbn. eauto.
  - intros (Hv & Hs & pending & Hp & Hx). destruct item as [sid x]. cbn in *.
    exists (PendingItem.mk sid <$> pick pending). split; [by apply list_elem_of_fmap_2|].
    exists (sid, pending). split; [|by apply elem_of_hash_iter]. rewrite Hv. cbn.
    destruct scope as [s|]; [|done]. by rewrite bool_decide_true by auto.
Qed.

Lemma collect_sublist {T} (pick : PendingState.t → list T) owned scope state :
  collect pick owned scope state `sublist_of` collect pick None scope state.
Proof.
  unfold collect. induction (hash_iter (AppState.active_sessions state)) as [|[sid pending] l IH]; [done|].
  rewrite !fmap_cons. apply (sublist_app (A := PendingItem.t T)); [|exact IH]. cbn.
  destruct (visible owned sid); [done|apply sublist_nil_l].
Qed.

Lemma cursors_ok_sublist `{ItemId T} (items items' : list (PendingItem.t T)) :
  items `sublist_of` items' → cursors_ok items' → cursors_ok items.
Proof.
  intros Hsub [Hnd Hdec Htxt]. split; [|done|].
  - eapply sublist_NoDup; [exact Hnd|]. by apply (fmap_sublist item_sort_key).
  - intros item Hin. apply Htxt. by eapply (sublist_subseteq items).
Qed.
End Listing.

(** C21. The listing of pending gates.  A user who may list gates and follows the cursors
    from the first page sees, in pages of at most the limit and in the order of their
    keys, every pending gate of the sessions the query of their sessions returns - of every
    session if they are an admin - exactly once, and nothing else; asked for one session,
    its gates only, and a refusal if it is not among them.  The query returns sessions the
    user owns, and leaves one out only when 1000 others are as new.  Others are refused.
    The keys of the pending gates, session and gate id, are distinct and valid text. *)
Theorem pending_gates_exact {St : Type} `{HashOrder} `{Base64} (out : Outside.t) (state : AppState.t St)
    (auth : AuthenticatedUser.t) (limit : option Z) (scope : option string)
    (Hdb : Outside.db_fault out = None) (Hrows : rows_keyed state)
    (Hkeys : cursors_ok (collect PendingState.gates None scope state)) :
  let fetch c := pending_gates out state auth (PendingParams.mk limit c scope) in
  if is_allowed (AuthenticatedUser.console_role auth) Action.ApproveOwnGates then
    (∀ s, scope = Some s → ¬ sees state auth s → ∀ c, ∃ e, fetch c = Err e ∧ ApiError.status e = 403)
    ∧ ((∀ s, scope = Some s → sees state auth s) →
       ∃ fetched pages,
         (∀ c, fetch c = Ok (fetched c))
         ∧ (∃ fuel, walk fetched fuel None = Some pages)
         ∧ Forall (λ p, (length (Page.items p) ≤ PaginationParams.effective_limit (PaginationParams.mk limit None))%nat) pages
         ∧ StronglySorted key_le (mjoin (Page.items <$> pages))
         ∧ NoDup (item_sort_key <$> mjoin (Page.items <$> pages))
         ∧ ∀ sid g, PendingItem.mk sid g ∈ mjoin (Page.items <$> pages) ↔
             sees state auth sid ∧ (∀ s, scope = Some s → s = sid)
             ∧ ∃ pending, AppState.active_sessions state !! sid = Some pending ∧ g ∈ PendingState.gates pending)
    ∧ (AuthenticatedUser.console_role auth ≠ ConsoleRole.Admin → ∀ sid,
         (sees state auth sid → ∃ row, owns state auth sid row)
         ∧ ∀ row, owns state auth sid row → ¬ sees state auth sid → (1000 ≤ length (as_new state auth row))%nat)
  else ∀ c, ∃ e, fetch c = Err e ∧ ApiError.status e = 403.
Proof.
  intros fetch. destruct (owned_sees out state auth Hdb) as (owned & Hown & Hsees).
  destruct (is_allowed _ _) eqn:Hallow; subst fetch; cbv beta; unfold pending_gates, require, authorized, authorize; rewrite Hallow;
    [|intros c; by eexists].
  unfold aggregate. rewrite Hown. cbn [PendingParams.session_id PendingParams.limit PendingParams.cursor].
  split_and!; [| |by intros Hrole sid; apply sees_owned].
  - intros s -> Hno c. rewrite <-Hsees in Hno. destruct owned as [set|]; [|by destruct Hno]. cbn in *.
    destruct (bool_decide (s ∈ set)); [by destruct Hno|]. by eexists.
  - intros Hyes. set (items := collect PendingState.gates owned scope state).
    assert (Hok : cursors_ok items) by (eapply cursors_ok_sublist; [apply collect_sublist|exact Hkeys]).
    destruct (walk_from items limit (S (length items)) 0 Hok) as (pages & Hw & Hj & Hf); [lia|lia|].
    exists (λ c, build_page items (PaginationParams.mk limit c)), pages. rewrite Hj, drop_0.
    split_and!; [|by eexists|done|apply StronglySorted_merge_sort; apply _|by rewrite listing_perm; apply Hok|].
    + intros c. destruct scope as [s|]; [|done]. specialize (Hyes s eq_refl). rewrite <-Hsees in Hyes.
      destruct owned as [set|]; [|done]. cbn in *. by rewrite Hyes.
    + intros sid g. rewrite listing_perm. subst items. rewrite elem_of_collect. cbn. by rewrite Hsees.
Qed.

(** ** Theory: answering a gate *)

(** C37. Who can answer a gate through the console.  For a request past its CSRF check on a
    session that exists, an admin or the owner of that session - whatever their role -
    answers any checkpoint gate pending in the runtime: the decision goes to the actor of
    the gate's workspace and the answer is logged under their name.  The gate need not
    belong to the session named in the path, nor does the listing of any other session
    change.  Everybody else gets a 403 and nothing happens. *)
Theorem gate_answer_unscoped {St : Type} `{CheckpointStorage St} `{JsonWrite} (out : Outside.t) (state : AppState.t St)
    auth ctx headers sid gid body session decision gate
    (Hcsrf : validate_csrf headers (is_bearer_auth headers) = Ok tt)
    (Hout : Outside.db_fault out = None ∧ Outside.audit_fault out = false ∧ Outside.channel out = true
            ∧ Outside.call_fault out 0 = None)
    (Hsession : Sessions.get_by_id sid (AppState.db state) = Some session)
    (Hdecision : parse_gate_decision (GateResolveRequest.decision body) = Ok decision)
    (Hgate : GateController.pending_checkpoints (Runtime.gate_controller (AppState.runtime state)) !! gid = Some gate)
    (Hactor : Coordinator.handle (Runtime.coordinator (AppState.runtime state)) (pcg_workspace_id gate)
              = Some {| wh_id := pcg_workspace_id gate; wh_open := true |}) :
  let '(state', answer) := resolve_gate out state auth ctx headers sid gid body in
  if bool_decide (AuthenticatedUser.console_role auth = ConsoleRole.Admin)
     || bool_decide (SessionRow.owner_user_id session = AuthenticatedUser.user_id auth)
  then
    answer = Ok (gid, true)
    ∧ Coordinator.outbox (Runtime.coordinator (AppState.runtime state'))
      = Coordinator.outbox (Runtime.coordinator (AppState.runtime state))
        ++ [(pcg_workspace_id gate,
             Runtime.checkpoint_command (Runtime.to_decision (to_i32 decision)) (pcg_checkpoint_id gate))]
    ∧ (∃ row, AppState.audit_log state' = AppState.audit_log state ++ [row]
         ∧ AuditRow.user_id row = AuthenticatedUser.user_id auth ∧ AuditRow.target_id row = gid)
    ∧ ∀ sid', sid' ≠ sid → AppState.active_sessions state' !! sid' = AppState.active_sessions state !! sid'
  else state' = state ∧ ∃ e, answer = Err e ∧ ApiError.status e = 403.
Proof.
  destruct Hout as (Hdb & Haudit & Hchan & Hcall). unfold resolve_gate, guarded_session.
  rewrite Hcsrf, Hdb, Hsession. unfold check_session_action_access.
  case_decide as Hadmin; [rewrite (bool_decide_true (_ = ConsoleRole.Admin)) by done
    |rewrite (bool_decide_false (_ = ConsoleRole.Admin)) by done; case_bool_decide as Hown]; cbn [orb]; [..|by eauto].
  all: rewrite Hdecision, Hchan; cbn [negb]; unfold call; rewrite Hcall; unfold respond_to_gate, Runtime.handle_respond_to_gate;
    cbn [GateResponse.gate_id GateResponse.decision]; unfold GateController.resolve_checkpoint; rewrite Hgate;
    cbn [Runtime.coordinator set]; unfold Coordinator.send_to, Coordinator.handle in *; cbn; rewrite Hactor; cbn.
  all: unfold log_audit; rewrite Haudit; cbn; split_and!; [done|done|by eexists|].
  all: intros sid' Hne; by rewrite lookup_alter_ne.
Qed.

(** ** Theory: from the runtime's event to the monitor's decision *)

(** A subscriber that is attached and has room. *)
Definition listening {A} (tx : Sub.t A) : Prop := Sub.closed tx = false ∧ (length (Sub.queue tx) < Sub.capacity tx)%nat.

Lemma retain_listening {A} (x : A) tx :
  listening tx → Sub.retain x [tx] = [Sub.mk (Sub.capacity tx) (Sub.queue tx ++ [x]) false].
Proof.
  intros [Hc Hr]. cbn. unfold Sub.try_send. rewrite Hc. destruct (Nat.leb_spec (Sub.capacity tx) (length (Sub.queue tx))); [lia|done].
Qed.

(** The verdict on a change of state of a workspace. *)
Definition verdict (ws : WorkspaceSet.t) (w : string) (to : WorkspaceState.t) : option string :=
  if bool_decide (w = WorkspaceSet.root ws ∧ w ∈ WorkspaceSet.members ws) then
    match to with
    | WorkspaceState.Closed => Some COMPLETED
    | WorkspaceState.Failed => Some FAILED
    | _ => None
    end
  else None.

Lemma change_verdict `{Json} `{Rfc3339} (m : Monitor.t) w prev to trigger ts :
  (Monitor.handle_event m (StreamEvent.WorkspaceChange
     (ProtoWorkspaceStateChange.mk w prev (to_i32 (workspace_state_to_proto to)) trigger ts))).2
  = verdict (Monitor.workspaces m) w to.
Proof.
  unfold verdict. cbn [Monitor.handle_event ProtoWorkspaceStateChange.workspace_id].
  destruct (WorkspaceSet.contains (Monitor.workspaces m) w) eqn:Hc; cbn [negb].
  - apply contains_true in Hc. unfold Monitor.handle_change. cbv zeta.
    cbn [ProtoWorkspaceStateChange.current ProtoWorkspaceStateChange.workspace_id Monitor.send Monitor.workspaces set].
    rewrite workspace_state_wire. destruct (decide (w = WorkspaceSet.root (Monitor.workspaces m))) as [Hw|Hw].
    + rewrite (bool_decide_true (_ ∧ _)), (bool_decide_true (w = _)) by done. by destruct to.
    + rewrite (bool_decide_false (_ ∧ _)), (bool_decide_false (w = _)) by tauto. done.
  - rewrite bool_decide_false; [done|]. intros [_ Hm%contains_true]. congruence.
Qed.

(** From the runtime to the monitor, through the stream of state changes: an event of
    a workspace actor ends a session exactly when it moves the session's root workspace
    to closed or failed, or reports it terminated there, and the session is then
    completed or failed accordingly; no other event of the runtime ends a session. *)
Theorem session_end_detected {St : Type} `{CheckpointStorage St} `{JsonText} `{Json} `{Rfc3339}
    (self : Runtime.t St) (event : WorkspaceEvent) tx (m : Monitor.t)
    (Hsubs : Runtime.ws_change_subs self = [tx]) (Hopen : listening tx) :
  ∃ items,
    Runtime.ws_change_subs (Runtime.fan_out_event self event)
    = [Sub.mk (Sub.capacity tx) (Sub.queue tx ++ items) false]
    ∧ omap (λ raw, (Monitor.handle_event m (StreamEvent.WorkspaceChange raw)).2) items
      = option_list match event with
        | StateChanged w _ to => verdict (Monitor.workspaces m) w to
        | Terminated archived => verdict (Monitor.workspaces m) (aw_id archived) (aw_terminal_state archived)
        | _ => None
        end.
Proof.
  assert (Hsame : [tx] = [Sub.mk (Sub.capacity tx) (Sub.queue tx ++ []) false]).
  { destruct tx as [cap q cl]. destruct Hopen as [Hcl _]. cbn in *. by rewrite Hcl, app_nil_r. }
  destruct event as [signal|w from to|archived|cp|w snap|w msg]; cbn [Runtime.fan_out_event];
    try (exists []; split; [rewrite <-Hsame, <-Hsubs; try case_decide; done|done]).
  - exists [ProtoWorkspaceStateChange.mk w (to_i32 (workspace_state_to_proto from))
              (to_i32 (workspace_state_to_proto to)) (change_trigger from to) None].
    split; [rewrite <-(retain_listening _ tx Hopen), <-Hsubs; done|]. cbn [omap list_omap]. rewrite change_verdict.
    by destruct (verdict _ _ _).
  - exists [ProtoWorkspaceStateChange.mk (aw_id archived) 0
              (to_i32 (workspace_state_to_proto (aw_terminal_state archived))) "terminated" None].
    split; [rewrite <-(retain_listening _ tx Hopen), <-Hsubs; done|]. cbn [omap list_omap]. rewrite change_verdict.
    by destruct (verdict _ _ _).
Qed.

(** The trail the runtime streams never mentions a refusal or the resolution of a gate:
    whatever entry an event of an actor puts on the trail stream, a monitor that handles
    it keeps its pending gates, escalations and refusals as they are. *)
Theorem runtime_trail_keeps_pending {St : Type} `{CheckpointStorage St} `{JsonText} `{Json} `{Rfc3339}
    (self : Runtime.t St) (event : WorkspaceEvent) tx (m : Monitor.t)
    (Hsubs : Runtime.trail_subs self = [tx]) (Hopen : listening tx) :
  ∃ entry,
    Runtime.trail_subs (Runtime.fan_out_event self event)
    = [Sub.mk (Sub.capacity tx) (Sub.queue tx ++ [entry]) false]
    ∧ Monitor.pending (Monitor.handle_event m (StreamEvent.Trail entry)).1 = Monitor.pending m.
Proof.
  assert (Hemit : ∀ (self1 : Runtime.t St) ws ev body, Runtime.trail_subs self1 = [tx] → refusal_layer ev = None → ev ≠ "gate_resolved" →
    ∃ entry, Runtime.trail_subs (Runtime.emit_trail_entry self1 ws ev body)
      = [Sub.mk (Sub.capacity tx) (Sub.queue tx ++ [entry]) false]
      ∧ Monitor.pending (Monitor.handle_event m (StreamEvent.Trail entry)).1 = Monitor.pending m).
  { intros self1 ws ev body Hs Hr Hg. eexists. split.
    - rewrite <-(retain_listening _ tx Hopen), <-Hs. done.
    - cbn [Monitor.handle_event]. destruct (WorkspaceSet.contains _ _); [|done]. cbn [negb fst].
      unfold Monitor.handle_trail, detect. cbv zeta. cbn [ProtoTrailEntry.event_type]. rewrite Hr.
      by rewrite bool_decide_false by done. }
  destruct event as [signal|w from to|archived|cp|w snap|w msg]; cbn [Runtime.fan_out_event]; try (by apply Hemit).
  apply Hemit; [|done|done]. by case_decide.
Qed.

(** ** Examples *)

Definition no_text : JsonText := λ _, [].
Definition no_json : Json := {|
  Value := unit; from_slice _ := None; get _ _ := None; as_str _ := None; as_u64 _ := None; as_object _ := None |}.
Definition no_dates : Rfc3339 := λ _ _, None.
Definition unit_json : JsonWrite := {| json_value := unit; to_vec _ := None |}.

(** An engine that writes a decimal number. *)
Definition decimal_engine : Base64 := {|
  b64_encode b := pretty (N.pos (encode b));
  b64_decode s := parse_digits 0 (chars s) ≫= λ z, decode (Z.to_pos z);
|}.

Lemma decimal_decode b : b64_decode (Base64 := decimal_engine) (b64_encode (Base64 := decimal_engine) b) = Some b.
Proof.
  cbn. unfold pretty, pretty_N. rewrite decide_False by done. rewrite parse_pretty_go. cbn. apply decode_encode.
Qed.

Definition quiet_day : Outside.t := Outside.mk None false true (λ _, None).

Definition row_of (sid owner : string) : SessionRow.t :=
  SessionRow.mk sid None owner "v" "w" None (Some "ws-root") ACTIVE "2026-01-01" None None None None None.

(** A goal runs in workspace ws-0 and has asked for approval of a checkpoint. *)
Definition asking_runtime : Runtime.t InMemoryCheckpointStorage.t :=
  let self := Runtime.init default_config InMemoryCheckpointStorage.new TrailIndex.open_in_memory in
  let self := (Runtime.handle_submit_goal 7 self "build it" [1]).1 in
  (Runtime.handle_create_checkpoint (λ b, b) self "ws-0"
     (CreateCheckpointRequest.mk "draft" [4] "first try" 1 1 None "")).1.

(** Two sessions: a viewer owns one, the goal belongs to the other. *)
Definition two_sessions : AppState.t InMemoryCheckpointStorage.t :=
  AppState.mk (Db.mk {[ "s1" := row_of "s1" "vera"; "s2" := row_of "s2" "olaf" ]} ∅ []) []
    {[ "s2" := PendingState.mk [enrich_gate (H := no_dates) (ProtoGateEvent.mk "gate-1" 7 [] "ws-0" "" 0 "" None) None] [] [] ]}
    asking_runtime.

Lemma gate_answer_unscoped_witness :
  let '(state', answer) := resolve_gate (H0 := unit_json) quiet_day two_sessions
    (AuthenticatedUser.mk "vera" "vera" ConsoleRole.Viewer) (RequestContext.mk "" "")
    {[ "authorization" := "Bearer t" ]} "s1" "gate-1" (@GateResolveRequest.mk unit_json "reject" None None) in
  answer = Ok ("gate-1", true)
  ∧ AppState.active_sessions state' !! "s2" = AppState.active_sessions two_sessions !! "s2".
Proof.
  pose proof (gate_answer_unscoped (H0 := unit_json) quiet_day two_sessions
    (AuthenticatedUser.mk "vera" "vera" ConsoleRole.Viewer) (RequestContext.mk "" "")
    {[ "authorization" := "Bearer t" ]} "s1" "gate-1" (@GateResolveRequest.mk unit_json "reject" None None)
    (row_of "s1" "vera") ProtoGateDecision.Reject
    {| pcg_gate_id := "gate-1"; pcg_workspace_id := "ws-0"; pcg_checkpoint_id := "cp-0"; pcg_checkpoint_type := "draft";
       pcg_timeout_ms := GateController.default_timeout_ms (Runtime.gate_controller asking_runtime);
       pcg_fallback := GateController.default_fallback (Runtime.gate_controller asking_runtime); pcg_created_at := 0 |}
    eq_refl (conj eq_refl (conj eq_refl (conj eq_refl eq_refl))) eq_refl eq_refl eq_refl eq_refl) as Hw.
  destruct (resolve_gate _ _ _ _ _ _ _ _) as [state' answer]. cbn [bool_decide orb] in Hw.
  destruct Hw as (-> & _ & _ & Hother). split; [done|]. by apply Hother.
Defined.

Lemma pending_gates_exact_witness :
  let olaf := AuthenticatedUser.mk "olaf" "olaf" ConsoleRole.Operator in
  let H := canonical_order in let H0 := decimal_engine in
  rows_keyed two_sessions
  ∧ cursors_ok (collect PendingState.gates None None two_sessions)
  ∧ ∃ fetched pages, (∀ c, pending_gates quiet_day two_sessions olaf (PendingParams.mk None c None) = Ok (fetched c))
      ∧ (∃ fuel, walk fetched fuel None = Some pages)
      ∧ ∃ g, PendingItem.mk "s2" g ∈ mjoin (Page.items <$> pages).
Proof.
  intros olaf H H0.
  assert (Hrows : rows_keyed two_sessions).
  { intros k row. cbn. rewrite lookup_insert_Some, lookup_singleton_Some. intros [[<- <-]|[_ [<- <-]]]; done. }
  assert (Hok : cursors_ok (collect PendingState.gates None None two_sessions)).
  { split; [|apply decimal_decode|].
    - apply (bool_decide_unpack _). vm_compute. done.
    - intros item Hin. apply elem_of_collect in Hin as (_ & _ & pending & Hp & Hi). destruct item as [sid g]. cbn in *.
      apply lookup_singleton_Some in Hp as [<- <-]. cbn in Hi. apply list_elem_of_singleton in Hi as ->.
      vm_compute. done. }
  split_and!; [done|done|].
  destruct (pending_gates_exact quiet_day two_sessions olaf None None eq_refl Hrows Hok) as (_ & Hyes & _).
  destruct Hyes as (fetched & pages & Hf & Hw & _ & _ & _ & Hall); [done|].
  exists fetched, pages. split_and!; [done|done|]. eexists. apply Hall. split_and!.
  - right. vm_compute. left.
  - done.
  - eexists. split; [done|]. left.
Defined.

Definition watching : Monitor.t := Monitor.spawn "s2" (WorkspaceSet.new "ws-0" ["ws-1"]).

Definition watched_runtime : Runtime.t InMemoryCheckpointStorage.t :=
  asking_runtime <| Runtime.ws_change_subs := [Sub.mk 8 [] false] |> <| Runtime.trail_subs := [Sub.mk 8 [] false] |>.

Lemma session_end_detected_witness :
  ∃ items, Runtime.ws_change_subs (Runtime.fan_out_event (H0 := no_text) watched_runtime
      (StateChanged "ws-0" WorkspaceState.Integrating WorkspaceState.Closed)) = [Sub.mk 8 items false]
    ∧ omap (λ raw, (Monitor.handle_event (H := no_json) (H0 := no_dates) watching (StreamEvent.WorkspaceChange raw)).2) items
      = [COMPLETED].
Proof.
  destruct (session_end_detected (H0 := no_text) (H1 := no_json) (H2 := no_dates) watched_runtime
    (StateChanged "ws-0" WorkspaceState.Integrating WorkspaceState.Closed) (Sub.mk 8 [] false) watching eq_refl
    ltac:(split; [done|cbn; lia])) as (items & Heq & Hv).
  exists items. split; [exact Heq|]. rewrite Hv. vm_compute. done.
Defined.

Lemma runtime_trail_keeps_pending_witness :
  ∃ entry, Runtime.trail_subs (Runtime.fan_out_event (H0 := no_text) watched_runtime (EvError "ws-0" "lost"))
      = [Sub.mk 8 [entry] false]
    ∧ Monitor.pending (Monitor.handle_event (H := no_json) (H0 := no_dates) watching (StreamEvent.Trail entry)).1
      = Monitor.pending watching.
Proof.
  destruct (runtime_trail_keeps_pending (H0 := no_text) (H1 := no_json) (H2 := no_dates) watched_runtime
    (EvError "ws-0" "lost") (Sub.mk 8 [] false) watching eq_refl ltac:(split; [done|cbn; lia])) as (entry & Heq & Hp).
  exists entry. by split.
Defined.
