(* ===== verification/Accounts.v ===== *)
(** * Accounts of the console (console-api: routes/auth.rs, routes/users.rs,
    routes/tokens.rs and the extractors of middleware.rs; console-core: authenticator.rs,
    rate_limit.rs, password.rs, bootstrap.rs; console-db: the queries on users,
    user_sessions, api_tokens and login_attempts)

    Handlers are programs over the tables: see [Api].  SHA-256, Argon2, random tokens and
    the text of a date are parameters; the clock readings and random values of a request
    are inputs.  The texts of database errors are shortened. *)

From Stdlib Require Import Ascii.
From S2P Require Import Prelude Types Std Float SerdeJson Trail Index Console Api Oversight.

(** ** The tables *)

Module UserRow.
Record t : Type := mk {
  id : string; username : string; username_lower : string; display_name : string;
  password_hash : string; console_role : string; must_change_password : bool;
  disabled_at : option string; created_at : string; updated_at : string;
}.
#[global] Instance eta_t : Settable t := λ r,
  mk (id r) (username r) (username_lower r) (display_name r) (password_hash r) (console_role r)
    (must_change_password r) (disabled_at r) (created_at r) (updated_at r).
End UserRow.

Module UserSessionRow.
Record t : Type := mk {
  id : string; user_id : string; token_hash : string; ip : string; user_agent : string;
  created_at : string; expires_at : string;
}.
End UserSessionRow.

Module ApiTokenRow.
Record t : Type := mk {
  id : string; user_id : string; name : string; token_hash : string; created_at : string;
  expires_at : option string; last_used_at : option string; revoked_at : option string;
}.
#[global] Instance eta_t : Settable t := λ r,
  mk (id r) (user_id r) (name r) (token_hash r) (created_at r) (expires_at r) (last_used_at r) (revoked_at r).
End ApiTokenRow.

Module LoginAttempt.
Record t : Type := mk { ip : string; username : string; attempted_at : string; success : bool }.
End LoginAttempt.

Module Accounts.
Record t : Type := mk {
  users : gmap string UserRow.t;
  user_sessions : gmap string UserSessionRow.t;
  api_tokens : gmap string ApiTokenRow.t;
  login_attempts : gmap string LoginAttempt.t;
  audit_log : list AuditRow.t;
}.
#[global] Instance eta_t : Settable t := λ r,
  mk (users r) (user_sessions r) (api_tokens r) (login_attempts r) (audit_log r).
End Accounts.

(** SQLite's [LOWER]: the ASCII letters. *)
Fixpoint sql_lower (s : string) : string :=
  match s with EmptyString => "" | String c s => String (ascii_lower c) (sql_lower s) end.

(** The rows of a table that satisfy the condition of a query, and the one row where a
    unique column is compared. *)
Definition rows {V} (p : V → bool) (m : gmap string V) : list V := filter (λ v, Is_true (p v)) (map_to_list m).*2.
Definition find_row {V} (p : V → bool) (m : gmap string V) : option V := head (rows p m).

(** [UPDATE .. SET .. WHERE id = ? AND ..], and whether a row was changed. *)
Definition update_row {V} (id : string) (p : V → bool) (f : V → V) (m : gmap string V) : gmap string V * bool :=
  match m !! id with
  | Some v => if p v then (<[id := f v]> m, true) else (m, false)
  | None => (m, false)
  end.

(** [a > b] on texts. *)
Definition text_gt (a b : string) : bool := str_lt b a.

Definition ROLES : list string := ["admin"; "operator"; "viewer"].

Module Users.
Import Accounts.

Definition get_by_id (id : string) (db : t) : option UserRow.t := users db !! id.

Definition get_by_username (username : string) (db : t) : option UserRow.t :=
  find_row (λ u, bool_decide (UserRow.username_lower u = sql_lower username)) (users db).

Definition username_le (a b : UserRow.t) : Prop :=
  str_le (UserRow.username_lower a) (UserRow.username_lower b) = true.
#[global] Instance username_le_dec : RelDecision username_le.
Proof. intros a b. unfold username_le. apply _. Defined.

(** A negative limit is none. *)
Definition list_users (include_disabled : bool) (limit : Z) (after_cursor : option string) (db : t) :
    list UserRow.t :=
  let found := rows (λ u, (include_disabled || negb (bool_decide (is_Some (UserRow.disabled_at u))))
                          && match after_cursor with
                             | Some c => text_gt (UserRow.username_lower u) c
                             | None => true
                             end) (users db) in
  let sorted := merge_sort username_le found in
  if limit <? 0 then sorted else take (Z.to_nat limit) sorted.

Definition insert_user (id username display_name password_hash console_role : string)
    (must_change_password : bool) (now : string) (db : t) : t * result unit string :=
  let lower := sql_lower username in
  if bool_decide (is_Some (users db !! id)) then (db, Err "UNIQUE constraint failed: users.id")
  else if bool_decide (is_Some (get_by_username username db)) then (db, Err "UNIQUE constraint failed: users.username_lower")
  else if negb (bool_decide (console_role ∈ ROLES)) then (db, Err "CHECK constraint failed: console_role")
  else (db <| users ::= <[id := UserRow.mk id username lower display_name password_hash console_role
                                  must_change_password None now now]> |>, Ok tt).

Definition update (id : string) (p : UserRow.t → bool) (f : UserRow.t → UserRow.t) (db : t) : t * result bool string :=
  let '(m, changed) := update_row id p f (users db) in (db <| users := m |>, Ok changed).

Definition update_password (id password_hash now : string) : t → t * result bool string :=
  update id (λ _, true) (λ u, u <| UserRow.password_hash := password_hash |>
    <| UserRow.must_change_password := false |> <| UserRow.updated_at := now |>).

(** The check constraint is evaluated for the row updated, if there is one. *)
Definition update_role (id console_role now : string) (db : t) : t * result bool string :=
  if bool_decide (is_Some (users db !! id)) && negb (bool_decide (console_role ∈ ROLES))
  then (db, Err "CHECK constraint failed: console_role")
  else update id (λ _, true)
         (λ u, u <| UserRow.console_role := console_role |> <| UserRow.updated_at := now |>) db.

Definition disable_user (id now : string) : t → t * result bool string :=
  update id (λ u, negb (bool_decide (is_Some (UserRow.disabled_at u))))
    (λ u, u <| UserRow.disabled_at := Some now |> <| UserRow.updated_at := now |>).

Definition enable_user (id now : string) : t → t * result bool string :=
  update id (λ u, bool_decide (is_Some (UserRow.disabled_at u)))
    (λ u, u <| UserRow.disabled_at := None |> <| UserRow.updated_at := now |>).

Definition set_must_change_password (id now : string) : t → t * result bool string :=
  update id (λ _, true) (λ u, u <| UserRow.must_change_password := true |> <| UserRow.updated_at := now |>).

Definition is_active_admin (u : UserRow.t) : bool :=
  bool_decide (UserRow.console_role u = "admin") && negb (bool_decide (is_Some (UserRow.disabled_at u))).

Definition count_active_admins (db : t) : Z := Z.of_nat (length (rows is_active_admin (users db))).

Definition count_active_admins_setup_complete (db : t) : Z :=
  Z.of_nat (length (rows (λ u, is_active_admin u && negb (UserRow.must_change_password u)) (users db))).

Definition count_users (db : t) : Z := Z.of_nat (size (users db)).
End Users.

Module UserSessions.
Import Accounts.

Definition get_by_token_hash (token_hash now : string) (db : t) : option UserSessionRow.t :=
  find_row (λ s, bool_decide (UserSessionRow.token_hash s = token_hash)
                 && text_gt (UserSessionRow.expires_at s) now) (user_sessions db).

Definition insert_session (row : UserSessionRow.t) (db : t) : t * result unit string :=
  if bool_decide (is_Some (user_sessions db !! UserSessionRow.id row))
  then (db, Err "UNIQUE constraint failed: user_sessions.id")
  else if bool_decide (is_Some (find_row (λ s, bool_decide (UserSessionRow.token_hash s = UserSessionRow.token_hash row))
                                  (user_sessions db)))
  then (db, Err "UNIQUE constraint failed: user_sessions.token_hash")
  else if negb (bool_decide (is_Some (users db !! UserSessionRow.user_id row)))
  then (db, Err "FOREIGN KEY constraint failed")
  else (db <| user_sessions ::= <[UserSessionRow.id row := row]> |>, Ok tt).

Definition delete_user_sessions (user_id : string) (db : t) : t * result Z string :=
  (db <| user_sessions ::= filter (λ kv, UserSessionRow.user_id kv.2 ≠ user_id) |>,
   Ok (Z.of_nat (length (rows (λ s, bool_decide (UserSessionRow.user_id s = user_id)) (user_sessions db))))).

Definition cleanup_expired (now : string) (db : t) : t * result Z string :=
  (db <| user_sessions ::= filter (λ kv, Is_true (text_gt (UserSessionRow.expires_at kv.2) now)) |>,
   Ok (Z.of_nat (length (rows (λ s, negb (text_gt (UserSessionRow.expires_at s) now)) (user_sessions db))))).
End UserSessions.

Module ApiTokens.
Import Accounts.

Definition is_live (now : string) (k : ApiTokenRow.t) : bool :=
  negb (bool_decide (is_Some (ApiTokenRow.revoked_at k)))
  && match ApiTokenRow.expires_at k with Some e => text_gt e now | None => true end.

Definition get_by_token_hash (token_hash now : string) (db : t) : option ApiTokenRow.t :=
  find_row (λ k, bool_decide (ApiTokenRow.token_hash k = token_hash) && is_live now k) (api_tokens db).

Definition newest_first (a b : ApiTokenRow.t) : Prop :=
  str_le (ApiTokenRow.created_at b) (ApiTokenRow.created_at a) = true.
#[global] Instance newest_first_dec : RelDecision newest_first.
Proof. intros a b. unfold newest_first. apply _. Defined.

Definition list_by_user (user_id : string) (db : t) : list ApiTokenRow.t :=
  merge_sort newest_first
    (rows (λ k, bool_decide (ApiTokenRow.user_id k = user_id)
                && negb (bool_decide (is_Some (ApiTokenRow.revoked_at k)))) (api_tokens db)).

Definition get_by_id (id : string) (db : t) : option ApiTokenRow.t := api_tokens db !! id.

Definition insert_token (row : ApiTokenRow.t) (db : t) : t * result unit string :=
  if bool_decide (is_Some (api_tokens db !! ApiTokenRow.id row))
  then (db, Err "UNIQUE constraint failed: api_tokens.id")
  else if bool_decide (is_Some (find_row (λ k, bool_decide (ApiTokenRow.token_hash k = ApiTokenRow.token_hash row))
                                  (api_tokens db)))
  then (db, Err "UNIQUE constraint failed: api_tokens.token_hash")
  else if negb (bool_decide (is_Some (users db !! ApiTokenRow.user_id row)))
  then (db, Err "FOREIGN KEY constraint failed")
  else (db <| api_tokens ::= <[ApiTokenRow.id row := row]> |>, Ok tt).

Definition update (id : string) (p : ApiTokenRow.t → bool) (f : ApiTokenRow.t → ApiTokenRow.t) (db : t) :
    t * result bool string :=
  let '(m, changed) := update_row id p f (api_tokens db) in (db <| api_tokens := m |>, Ok changed).

Definition revoke_token (id now : string) : t → t * result bool string :=
  update id (λ k, negb (bool_decide (is_Some (ApiTokenRow.revoked_at k))))
    (λ k, k <| ApiTokenRow.revoked_at := Some now |>).

Definition update_last_used (id now : string) : t → t * result bool string :=
  update id (λ _, true) (λ k, k <| ApiTokenRow.last_used_at := Some now |>).
End ApiTokens.

Module LoginAttempts.
Import Accounts.

Definition record_attempt (id ip username attempted_at : string) (success : bool) (db : t) : t * result unit string :=
  if bool_decide (is_Some (login_attempts db !! id)) then (db, Err "UNIQUE constraint failed: login_attempts.id")
  else (db <| login_attempts ::= <[id := LoginAttempt.mk ip username attempted_at success]> |>, Ok tt).

Definition count_failed (p : LoginAttempt.t → bool) (since_ : string) (db : t) : Z :=
  Z.of_nat (length (rows (λ a, p a && text_gt (LoginAttempt.attempted_at a) since_ && negb (LoginAttempt.success a))
                      (login_attempts db))).

Definition count_failed_by_ip (ip since_ : string) : t → Z :=
  count_failed (λ a, bool_decide (LoginAttempt.ip a = ip)) since_.
Definition count_failed_by_username (username since_ : string) : t → Z :=
  count_failed (λ a, bool_decide (LoginAttempt.username a = username)) since_.

Definition clear_for_username (username : string) (db : t) : t * result unit string :=
  (db <| login_attempts ::=
     filter (λ kv, ¬ (LoginAttempt.username kv.2 = username ∧ LoginAttempt.success kv.2 = false)) |>, Ok tt).

Definition cleanup_before (before : string) (db : t) : t * result unit string :=
  (db <| login_attempts ::= filter (λ kv, Is_true (negb (str_lt (LoginAttempt.attempted_at kv.2) before))) |>, Ok tt).
End LoginAttempts.

(** ** Parameters and inputs *)

(** Argon2: hashing with a salt and verification against a PHC text, with the texts of
    their errors. *)
Class Argon2 : Type := {
  hash_with_salt : string → list Z → result string string;
  verify_phc : string → string → result bool string;
}.

(** chrono: the text of an instant, in nanoseconds, and the addition of days, which
    panics out of its range. *)
Class Chrono : Type := {
  to_rfc3339 : Z → string;
  add_days : Z → Z → option Z;
}.

(** What a request reads of the clock, in order, and of the random generator: the
    identifiers, the two tokens in base64url, the salt. *)
Module Inputs.
Record t : Type := mk {
  clock : nat → Z; ids : nat → string; token : string; csrf : string; salt : list Z;
}.
End Inputs.

(** An answer: its status, the cookies it sets and its body. *)
Module Response.
Record t : Type := mk { status : Z; set_cookie : list string; body : Value.t }.
End Response.

Definition opt_text (o : option string) : Value.t :=
  match o with Some s => Value.String s | None => Value.Null end.

Definition no_content : Response.t := Response.mk 204 [] Value.Null.

(** A statement whose error becomes [ConsoleError::Database]. *)
Definition dbx {B} (f : Accounts.t → Accounts.t * result B string) : prog Accounts.t (result B ConsoleError.t) :=
  Stmt f (λ r, Ret (result_map_err ConsoleError.Database r)).

(** [log_audit(..).await.ok()]; the log refers to an existing user. *)
Definition insert_entry (row : AuditRow.t) (db : Accounts.t) : Accounts.t * result unit string :=
  if bool_decide (is_Some (Accounts.users db !! AuditRow.user_id row))
  then (db <| Accounts.audit_log ::= λ l, l ++ [row] |>, Ok tt)
  else (db, Err "FOREIGN KEY constraint failed").

Definition log (user_id : string) (action : AuditAction.t) (target_id : string) (detail : option AuditDetail)
    (ctx : RequestContext.t) : prog Accounts.t unit :=
  exec_ok (insert_entry (audit_row (AuditEntry.mk user_id action target_id detail
                                      (RequestContext.ip ctx) (RequestContext.user_agent ctx)))).

(** The bodies of the requests, and the file of the bootstrap token: its path, and its text
    when it exists and can be read. *)

Module TokenFile.
Record t : Type := mk { path : string; exists_ : bool; text : option string }.
End TokenFile.

Module LoginRequest.
Record t : Type := mk { username : string; password : string }.
End LoginRequest.

Module ChangePasswordRequest.
Record t : Type := mk { current_password : string; new_password : string }.
End ChangePasswordRequest.

Module CreateUserRequest.
Record t : Type := mk { username : string; display_name : string; password : string; console_role : string }.
End CreateUserRequest.

Module UpdateUserRequest.
Record t : Type := mk { console_role : option string; disabled : option bool }.
End UpdateUserRequest.

Module CreateTokenRequest.
Record t : Type := mk { name : string; expires_in_days : option Z }.
End CreateTokenRequest.

Section handlers.
Context (sha256 : list Z → list Z) `{Argon2} `{Chrono}.

(** ** authenticator.rs *)

Definition hash_token (token : string) : string := hex_encode (sha256 (as_bytes token)).

(** The user of an id, unless disabled. *)
Definition load_identity (user_id : string) : prog Accounts.t (result AuthenticatedUser.t ConsoleError.t) :=
  let!? user := dbx (reads (Users.get_by_id user_id)) in
  let!! user := ok_or user ConsoleError.Unauthenticated in
  if bool_decide (is_Some (UserRow.disabled_at user)) then Ret (Err ConsoleError.Unauthenticated)
  else
    let!! role := result_map_err ConsoleError.Internal (ConsoleRole.from_str (UserRow.console_role user)) in
    Ret (Ok (AuthenticatedUser.mk (UserRow.id user) (UserRow.username user) role)).

Definition authenticate_cookie_allow_pending_change (now : Z) (cookie_value : string) :
    prog Accounts.t (result AuthenticatedUser.t ConsoleError.t) :=
  let!? session := dbx (reads (UserSessions.get_by_token_hash (hash_token cookie_value) (to_rfc3339 now))) in
  let!! session := ok_or session ConsoleError.Unauthenticated in
  load_identity (UserSessionRow.user_id session).

Definition authenticate_cookie (now : Z) (cookie_value : string) :
    prog Accounts.t (result AuthenticatedUser.t ConsoleError.t) :=
  let!? user := authenticate_cookie_allow_pending_change now cookie_value in
  let!? user_row := dbx (reads (Users.get_by_id (AuthenticatedUser.user_id user))) in
  let!! user_row := ok_or user_row ConsoleError.Unauthenticated in
  if UserRow.must_change_password user_row then Ret (Err ConsoleError.PasswordChangeRequired)
  else Ret (Ok user).

Definition authenticate_bearer (now : Z) (token : string) :
    prog Accounts.t (result AuthenticatedUser.t ConsoleError.t) :=
  if negb (starts_with "wcon_t_" token) then Ret (Err ConsoleError.Unauthenticated)
  else
    let now := to_rfc3339 now in
    let!? api_token := dbx (reads (ApiTokens.get_by_token_hash (hash_token token) now)) in
    let!! api_token := ok_or api_token ConsoleError.Unauthenticated in
    let! _ := exec_ok (ApiTokens.update_last_used (ApiTokenRow.id api_token) now) in
    load_identity (ApiTokenRow.user_id api_token).

(** ** middleware.rs: the extractors *)

Definition Auth_from_request_parts (headers : HeaderMap) (now : Z) :
    prog Accounts.t (result AuthenticatedUser.t ConsoleError.t) :=
  match headers !! "authorization" ≫= strip_prefix "Bearer " with
  | Some token => authenticate_bearer now token
  | None =>
      match extract_cookie headers "wcon_sid" with
      | Some cookie_value => authenticate_cookie now cookie_value
      | None => Ret (Err ConsoleError.Unauthenticated)
      end
  end.

Definition AuthAllowPendingChange_from_request_parts (headers : HeaderMap) (now : Z) :
    prog Accounts.t (result AuthenticatedUser.t ConsoleError.t) :=
  let!! cookie_value := ok_or (extract_cookie headers "wcon_sid") ConsoleError.Unauthenticated in
  authenticate_cookie_allow_pending_change now cookie_value.

(** [peer] is the address of the connection, when the server knows it. *)
Definition RequestContext_from_request_parts (headers : HeaderMap) (peer : option string) : RequestContext.t :=
  let ip :=
    match headers !! "x-forwarded-for" with
    | Some s => trim_str (default "" (head (split_on ","%char s)))
    | None => default "unknown" peer
    end in
  RequestContext.mk ip (default "unknown" (headers !! "user-agent")).

(** ** rate_limit.rs *)

Definition MAX_FAILED_PER_IP : Z := 20.
Definition MAX_FAILED_PER_ACCOUNT : Z := 5.
Definition WINDOW_MINUTES : Z := 15.

Definition check_login_rate_limit (now : Z) (ip username : string) : prog Accounts.t (result unit ConsoleError.t) :=
  let window_start := to_rfc3339 (now - from_secs (60 * WINDOW_MINUTES)) in
  let!? ip_count := dbx (reads (LoginAttempts.count_failed_by_ip ip window_start)) in
  if MAX_FAILED_PER_IP <=? ip_count then Ret (Err ConsoleError.RateLimited)
  else
    let!? account_count := dbx (reads (LoginAttempts.count_failed_by_username username window_start)) in
    if MAX_FAILED_PER_ACCOUNT <=? account_count then Ret (Err ConsoleError.AccountLocked)
    else Ret (Ok tt).

(** [record_login_attempt(..).await.ok()] *)
Definition record_login_attempt (id : string) (now : Z) (ip username : string) (success : bool) :
    prog Accounts.t unit :=
  exec_ok (LoginAttempts.record_attempt id ip username (to_rfc3339 now) success).

Definition cleanup_old_attempts (now : Z) : prog Accounts.t (result unit ConsoleError.t) :=
  dbx (LoginAttempts.cleanup_before (to_rfc3339 (now - from_secs (60 * 60 * 24)))).

(** ** password.rs *)

Definition hash_password (password : string) (salt : list Z) : result string ConsoleError.t :=
  result_map_err (λ e, ConsoleError.Internal ("password hashing failed: " +:+ e)) (hash_with_salt password salt).

Definition verify_password (password hash : string) : result bool ConsoleError.t :=
  result_map_err (λ e, ConsoleError.Internal ("invalid password hash: " +:+ e)) (verify_phc password hash).

Definition validate_password_strength (password : string) : result unit ConsoleError.t :=
  if str_len password <? 12
  then Err (ConsoleError.PasswordTooWeak "Password must be at least 12 characters")
  else Ok tt.

(** ** bootstrap.rs *)

Inductive BootstrapResult : Type :=
| AlreadyBootstrapped
| Bootstrapped (username password : string).

Definition bootstrap_if_needed (inputs : Inputs.t) : prog Accounts.t (result BootstrapResult ConsoleError.t) :=
  let!? count := dbx (reads Users.count_users) in
  if 0 <? count then Ret (Ok AlreadyBootstrapped)
  else
    let password := Inputs.token inputs in
    let!! password_hash := hash_password password (Inputs.salt inputs) in
    let!? _ := dbx (Users.insert_user (Inputs.ids inputs 0) "admin" "Administrator" password_hash "admin" true
                      (to_rfc3339 (Inputs.clock inputs 0))) in
    Ret (Ok (Bootstrapped "admin" password)).

(** ** routes/auth.rs *)

Definition bootstrap_state (file : TokenFile.t) : prog Accounts.t (result Response.t ConsoleError.t) :=
  let!? admin_count := dbx (reads Users.count_active_admins_setup_complete) in
  let has_admin := 0 <? admin_count in
  let token := if negb has_admin && TokenFile.exists_ file then trim_str <$> TokenFile.text file else None in
  Ret (Ok (Response.mk 200 [] (Value.Object
    {[ "has_admin_user" := Value.Bool has_admin; "bootstrap_token_path" := Value.String (TokenFile.path file);
       "bootstrap_token" := opt_text token ]}))).

(** Every refusal after the limits records a failed attempt. *)
Definition refuse_login (inputs : Inputs.t) (ctx : RequestContext.t) (username : string) :
    prog Accounts.t (result Response.t ConsoleError.t) :=
  let! _ := record_login_attempt (Inputs.ids inputs 0) (Inputs.clock inputs 1) (RequestContext.ip ctx) username false in
  Ret (Err ConsoleError.Unauthenticated).

Definition login (inputs : Inputs.t) (ctx : RequestContext.t) (body : LoginRequest.t) :
    prog Accounts.t (result Response.t ConsoleError.t) :=
  let username := LoginRequest.username body in
  let!? _ := check_login_rate_limit (Inputs.clock inputs 0) (RequestContext.ip ctx) username in
  let!? user := dbx (reads (Users.get_by_username username)) in
  match user with
  | None => refuse_login inputs ctx username
  | Some user =>
      if bool_decide (is_Some (UserRow.disabled_at user)) then refuse_login inputs ctx username
      else
        let!! valid := verify_password (LoginRequest.password body) (UserRow.password_hash user) in
        if negb valid then refuse_login inputs ctx username
        else
          let! _ := record_login_attempt (Inputs.ids inputs 0) (Inputs.clock inputs 1)
                      (RequestContext.ip ctx) username true in
          let! _ := exec_ok (UserSessions.delete_user_sessions (UserRow.id user)) in
          let session_token := Inputs.token inputs in
          let now := Inputs.clock inputs 2 in
          let expires := now + from_secs (60 * 60 * 24) in
          let!? _ := dbx (UserSessions.insert_session
                            (UserSessionRow.mk (Inputs.ids inputs 1) (UserRow.id user) (hash_token session_token)
                               (RequestContext.ip ctx) (RequestContext.user_agent ctx)
                               (to_rfc3339 now) (to_rfc3339 expires))) in
          let! _ := log (UserRow.id user) AuditAction.AuthLogin (UserRow.id user) None ctx in
          Ret (Ok (Response.mk 200
            ["wcon_sid=" +:+ session_token +:+ "; HttpOnly; Secure; SameSite=Strict; Path=/; Max-Age=86400";
             "wcon_csrf=" +:+ Inputs.csrf inputs +:+ "; Secure; SameSite=Strict; Path=/; Max-Age=86400"]
            (Value.Object {[ "user_id" := Value.String (UserRow.id user);
                             "username" := Value.String (UserRow.username user);
                             "console_role" := Value.String (UserRow.console_role user);
                             "must_change_password" := Value.Bool (UserRow.must_change_password user) ]})))
  end.

Definition logout (auth : AuthenticatedUser.t) (ctx : RequestContext.t) (headers : HeaderMap) :
    prog Accounts.t (result Response.t ConsoleError.t) :=
  let!! _ := validate_csrf headers (is_bearer_auth headers) in
  let! _ := exec_ok (UserSessions.delete_user_sessions (AuthenticatedUser.user_id auth)) in
  let! _ := log (AuthenticatedUser.user_id auth) AuditAction.AuthLogout (AuthenticatedUser.user_id auth) None ctx in
  Ret (Ok (Response.mk 204
    ["wcon_sid=; HttpOnly; Secure; SameSite=Strict; Path=/; Max-Age=0";
     "wcon_csrf=; Secure; SameSite=Strict; Path=/; Max-Age=0"] Value.Null)).

Definition whoami (auth : AuthenticatedUser.t) : Value.t :=
  Value.Object {[ "user_id" := Value.String (AuthenticatedUser.user_id auth);
                  "username" := Value.String (AuthenticatedUser.username auth);
                  "console_role" := Value.String (ConsoleRole.fmt (AuthenticatedUser.console_role auth)) ]}.

Definition change_password (inputs : Inputs.t) (auth : AuthenticatedUser.t) (ctx : RequestContext.t)
    (headers : HeaderMap) (body : ChangePasswordRequest.t) : prog Accounts.t (result Response.t ConsoleError.t) :=
  let!! _ := validate_csrf headers (is_bearer_auth headers) in
  let!? user := dbx (reads (Users.get_by_id (AuthenticatedUser.user_id auth))) in
  let!! user := ok_or user ConsoleError.Unauthenticated in
  let!! valid := verify_password (ChangePasswordRequest.current_password body) (UserRow.password_hash user) in
  if negb valid then Ret (Err ConsoleError.Unauthenticated)
  else
    let!! _ := validate_password_strength (ChangePasswordRequest.new_password body) in
    let!! new_hash := hash_password (ChangePasswordRequest.new_password body) (Inputs.salt inputs) in
    let!? _ := dbx (Users.update_password (AuthenticatedUser.user_id auth) new_hash
                      (to_rfc3339 (Inputs.clock inputs 0))) in
    let! _ := log (AuthenticatedUser.user_id auth) AuditAction.AuthChangePassword
                (AuthenticatedUser.user_id auth) None ctx in
    Ret (Ok no_content).

(** ** routes/users.rs *)

Definition list_users_json (u : UserRow.t) : Value.t :=
  Value.Object {[ "id" := Value.String (UserRow.id u); "username" := Value.String (UserRow.username u);
                  "display_name" := Value.String (UserRow.display_name u);
                  "console_role" := Value.String (UserRow.console_role u);
                  "disabled_at" := opt_text (UserRow.disabled_at u);
                  "created_at" := Value.String (UserRow.created_at u);
                  "updated_at" := Value.String (UserRow.updated_at u) ]}.

Definition list_users (auth : AuthenticatedUser.t) (limit : Z) (cursor : option string) :
    prog Accounts.t (result Response.t ConsoleError.t) :=
  let!! _ := authorized auth Action.ListUsers in
  let!? rows := dbx (reads (Users.list_users true limit cursor)) in
  Ret (Ok (Response.mk 200 [] (Value.Array (list_users_json <$> rows)))).

Definition create_user (inputs : Inputs.t) (auth : AuthenticatedUser.t) (ctx : RequestContext.t)
    (headers : HeaderMap) (body : CreateUserRequest.t) : prog Accounts.t (result Response.t ConsoleError.t) :=
  let!! _ := validate_csrf headers (is_bearer_auth headers) in
  let!! _ := authorized auth Action.CreateUser in
  let!! _ := validate_password_strength (CreateUserRequest.password body) in
  let!! password_hash := hash_password (CreateUserRequest.password body) (Inputs.salt inputs) in
  let id := Inputs.ids inputs 0 in
  let username := CreateUserRequest.username body in
  let role := CreateUserRequest.console_role body in
  let!? _ := dbx (Users.insert_user id username (CreateUserRequest.display_name body) password_hash role false
                    (to_rfc3339 (Inputs.clock inputs 0))) in
  let! _ := log (AuthenticatedUser.user_id auth) AuditAction.UserCreate id (Some (UserDetail username role)) ctx in
  Ret (Ok (Response.mk 201 [] (Value.Object
    {[ "id" := Value.String id; "username" := Value.String username; "console_role" := Value.String role ]}))).

Definition get_user (auth : AuthenticatedUser.t) (id : string) : prog Accounts.t (result Response.t ConsoleError.t) :=
  let!! _ := authorized auth Action.ListUsers in
  let!? user := dbx (reads (Users.get_by_id id)) in
  let!! user := ok_or user (ConsoleError.NotFound "user" id) in
  Ret (Ok (Response.mk 200 [] (Value.assign "must_change_password"
    (Value.Bool (UserRow.must_change_password user)) (list_users_json user)))).

(** The guard of both branches: refuse when there is no second active admin. *)
Definition last_admin_guard : prog Accounts.t (result unit ConsoleError.t) :=
  let!? admin_count := dbx (reads Users.count_active_admins) in
  if admin_count <=? 1 then Ret (Err ConsoleError.LastAdmin) else Ret (Ok tt).

Definition update_user_role (now : string) (auth : AuthenticatedUser.t) (ctx : RequestContext.t) (id role : string) :
    prog Accounts.t (result unit ConsoleError.t) :=
  let!! _ := authorized auth Action.ChangeUserRole in
  let!? user := dbx (reads (Users.get_by_id id)) in
  let!! user := ok_or user (ConsoleError.NotFound "user" id) in
  let!? _ := (if bool_decide (UserRow.console_role user = "admin") && negb (bool_decide (role = "admin"))
              then last_admin_guard else Ret (Ok tt)) in
  let!? _ := dbx (Users.update_role id role now) in
  let! _ := log (AuthenticatedUser.user_id auth) AuditAction.UserChangeRole id (Some (RoleDetail role)) ctx in
  Ret (Ok tt).

Definition update_user_disabled (now : string) (auth : AuthenticatedUser.t) (ctx : RequestContext.t) (id : string)
    (disabled : bool) : prog Accounts.t (result unit ConsoleError.t) :=
  let!! _ := authorized auth Action.DisableUser in
  if disabled then
    let!? user := dbx (reads (Users.get_by_id id)) in
    let!! user := ok_or user (ConsoleError.NotFound "user" id) in
    let!? _ := (if bool_decide (UserRow.console_role user = "admin") then last_admin_guard else Ret (Ok tt)) in
    let!? _ := dbx (Users.disable_user id now) in
    let! _ := log (AuthenticatedUser.user_id auth) AuditAction.UserDisable id None ctx in
    Ret (Ok tt)
  else
    let!? _ := dbx (Users.enable_user id now) in
    let! _ := log (AuthenticatedUser.user_id auth) AuditAction.UserEnable id None ctx in
    Ret (Ok tt).

Definition update_user (inputs : Inputs.t) (auth : AuthenticatedUser.t) (ctx : RequestContext.t)
    (headers : HeaderMap) (id : string) (body : UpdateUserRequest.t) :
    prog Accounts.t (result Response.t ConsoleError.t) :=
  let!! _ := validate_csrf headers (is_bearer_auth headers) in
  let now := to_rfc3339 (Inputs.clock inputs 0) in
  let!? _ := match UpdateUserRequest.console_role body with
             | Some role => update_user_role now auth ctx id role
             | None => Ret (Ok tt)
             end in
  let!? _ := match UpdateUserRequest.disabled body with
             | Some disabled => update_user_disabled now auth ctx id disabled
             | None => Ret (Ok tt)
             end in
  Ret (Ok no_content).

Definition reset_password (inputs : Inputs.t) (auth : AuthenticatedUser.t) (ctx : RequestContext.t)
    (headers : HeaderMap) (id : string) : prog Accounts.t (result Response.t ConsoleError.t) :=
  let!! _ := validate_csrf headers (is_bearer_auth headers) in
  let!! _ := authorized auth Action.ResetUserPassword in
  let!? _ := dbx (Users.set_must_change_password id (to_rfc3339 (Inputs.clock inputs 0))) in
  let! _ := log (AuthenticatedUser.user_id auth) AuditAction.UserResetPassword id None ctx in
  Ret (Ok no_content).

Definition unlock_user (auth : AuthenticatedUser.t) (headers : HeaderMap) (id : string) :
    prog Accounts.t (result Response.t ConsoleError.t) :=
  let!! _ := validate_csrf headers (is_bearer_auth headers) in
  let!! _ := authorized auth Action.DisableUser in
  let!? user := dbx (reads (Users.get_by_id id)) in
  let!! user := ok_or user (ConsoleError.NotFound "user" id) in
  let! _ := exec_ok (LoginAttempts.clear_for_username (UserRow.username user)) in
  Ret (Ok no_content).

(** ** routes/tokens.rs *)

Definition token_json (owner : bool) (k : ApiTokenRow.t) : Value.t :=
  let v := Value.Object {[ "id" := Value.String (ApiTokenRow.id k); "name" := Value.String (ApiTokenRow.name k);
                           "created_at" := Value.String (ApiTokenRow.created_at k);
                           "expires_at" := opt_text (ApiTokenRow.expires_at k);
                           "last_used_at" := opt_text (ApiTokenRow.last_used_at k) ]} in
  if owner then Value.assign "user_id" (Value.String (ApiTokenRow.user_id k)) v else v.

Definition list_tokens (auth : AuthenticatedUser.t) : prog Accounts.t (result Response.t ConsoleError.t) :=
  let!! _ := authorized auth Action.ListOwnTokens in
  let!? rows := dbx (reads (ApiTokens.list_by_user (AuthenticatedUser.user_id auth))) in
  Ret (Ok (Response.mk 200 [] (Value.Array (token_json false <$> rows)))).

Definition list_user_tokens (auth : AuthenticatedUser.t) (user_id : string) :
    prog Accounts.t (result Response.t ConsoleError.t) :=
  let!! _ := authorized auth Action.ManageAnyTokens in
  let!? rows := dbx (reads (ApiTokens.list_by_user user_id)) in
  Ret (Ok (Response.mk 200 [] (Value.Array (token_json true <$> rows)))).

(** [None] is the panic of chrono on a number of days out of its range, before anything
    is written. *)
Definition create_token (inputs : Inputs.t) (auth : AuthenticatedUser.t) (ctx : RequestContext.t)
    (headers : HeaderMap) (body : CreateTokenRequest.t) :
    option (prog Accounts.t (result Response.t ConsoleError.t)) :=
  match validate_csrf headers (is_bearer_auth headers), authorized auth Action.CreateOwnToken with
  | Err e, _ => Some (Ret (Err e))
  | Ok _, Err e => Some (Ret (Err e))
  | Ok _, Ok _ =>
      let raw_token := "wcon_t_" +:+ Inputs.token inputs in
      let id := Inputs.ids inputs 0 in
      let now := Inputs.clock inputs 0 in
      let name := CreateTokenRequest.name body in
      expires_at ← match CreateTokenRequest.expires_in_days body with
                   | Some d => at_ ← add_days now d; Some (Some (to_rfc3339 at_))
                   | None => Some None
                   end;
      Some (
        let!? _ := dbx (ApiTokens.insert_token
                          (ApiTokenRow.mk id (AuthenticatedUser.user_id auth) name (hash_token raw_token)
                             (to_rfc3339 now) expires_at None None)) in
        let! _ := log (AuthenticatedUser.user_id auth) AuditAction.TokenCreate id (Some (NameDetail name)) ctx in
        Ret (Ok (Response.mk 201 [] (Value.Object
          {[ "id" := Value.String id; "name" := Value.String name; "token" := Value.String raw_token;
             "expires_at" := opt_text expires_at ]}))))
  end.

(** The end of both ways to revoke. *)
Definition revoke (inputs : Inputs.t) (auth : AuthenticatedUser.t) (ctx : RequestContext.t) (id : string) :
    prog Accounts.t (result Response.t ConsoleError.t) :=
  let!? _ := dbx (ApiTokens.revoke_token id (to_rfc3339 (Inputs.clock inputs 0))) in
  let! _ := log (AuthenticatedUser.user_id auth) AuditAction.TokenRevoke id None ctx in
  Ret (Ok no_content).

Definition revoke_token (inputs : Inputs.t) (auth : AuthenticatedUser.t) (ctx : RequestContext.t)
    (headers : HeaderMap) (id : string) : prog Accounts.t (result Response.t ConsoleError.t) :=
  let!! _ := validate_csrf headers (is_bearer_auth headers) in
  let!? token := dbx (reads (ApiTokens.get_by_id id)) in
  let!! token := ok_or token (ConsoleError.NotFound "token" id) in
  let!! _ := authorized auth (if bool_decide (ApiTokenRow.user_id token = AuthenticatedUser.user_id auth)
                             then Action.RevokeOwnToken else Action.ManageAnyTokens) in
  revoke inputs auth ctx id.

(** The user in the path is not looked at. *)
Definition revoke_user_token (inputs : Inputs.t) (auth : AuthenticatedUser.t) (ctx : RequestContext.t)
    (headers : HeaderMap) (_user_id id : string) : prog Accounts.t (result Response.t ConsoleError.t) :=
  let!! _ := validate_csrf headers (is_bearer_auth headers) in
  let!! _ := authorized auth Action.ManageAnyTokens in
  revoke inputs auth ctx id.
End handlers.

(** ** Requests

    The extractors and then the handler, as the router composes them.  [None] is a
    panic. *)

Module Request.
Record t : Type := mk { headers : HeaderMap; peer : option string; auth_now : Z; inputs : Inputs.t }.
End Request.

Inductive endpoint : Type :=
| Login (body : LoginRequest.t)
| Logout
| ChangePassword (body : ChangePasswordRequest.t)
| CreateUser (body : CreateUserRequest.t)
| UpdateUser (id : string) (body : UpdateUserRequest.t)
| ResetPassword (id : string)
| UnlockUser (id : string)
| CreateToken (body : CreateTokenRequest.t)
| RevokeToken (id : string)
| RevokeUserToken (user_id id : string).

Section requests.
Context (sha256 : list Z → list Z) `{Argon2} `{Chrono}.
Abbreviation answer := (option (result Response.t ConsoleError.t)).

Definition returns (p : prog Accounts.t (result Response.t ConsoleError.t)) : prog Accounts.t answer :=
  let! r := p in Ret (Some r).

Definition authenticated (r : Request.t) (k : AuthenticatedUser.t → prog Accounts.t answer) : prog Accounts.t answer :=
  let! auth := Auth_from_request_parts sha256 (Request.headers r) (Request.auth_now r) in
  match auth with Ok user => k user | Err e => Ret (Some (Err e)) end.

Definition serve (r : Request.t) (e : endpoint) : prog Accounts.t answer :=
  let headers := Request.headers r in
  let inputs := Request.inputs r in
  let ctx := RequestContext_from_request_parts headers (Request.peer r) in
  match e with
  | Login body => returns (login sha256 inputs ctx body)
  | Logout => authenticated r (λ auth, returns (logout auth ctx headers))
  | ChangePassword body =>
      let! auth := AuthAllowPendingChange_from_request_parts sha256 headers (Request.auth_now r) in
      match auth with
      | Ok auth => returns (change_password inputs auth ctx headers body)
      | Err e => Ret (Some (Err e))
      end
  | CreateUser body => authenticated r (λ auth, returns (create_user inputs auth ctx headers body))
  | UpdateUser id body => authenticated r (λ auth, returns (update_user inputs auth ctx headers id body))
  | ResetPassword id => authenticated r (λ auth, returns (reset_password inputs auth ctx headers id))
  | UnlockUser id => authenticated r (λ auth, returns (unlock_user auth headers id))
  | CreateToken body =>
      authenticated r (λ auth, match create_token sha256 inputs auth ctx headers body with
                               | Some p => returns p
                               | None => Ret None
                               end)
  | RevokeToken id => authenticated r (λ auth, returns (revoke_token inputs auth ctx headers id))
  | RevokeUserToken user_id id => authenticated r (λ auth, returns (revoke_user_token inputs auth ctx headers user_id id))
  end.

(** Requests one after the other, each with the statements of it that fail. *)
Definition serve_all (history : list (Request.t * endpoint * list (option string))) (db : Accounts.t) : Accounts.t :=
  fold_left (λ db '(r, e, faults), (run_prog faults (serve r e) db).1) history db.
End requests.

(** *** What the statements respect

    A relation on the tables that every statement of the handlers respects. *)

Record respected (R : Accounts.t → Accounts.t → Prop) : Prop := {
  rs_pre : PreOrder R;
  rs_insert_user : ∀ id username display_name hash role must_change now db,
    R db (Users.insert_user id username display_name hash role must_change now db).1;
  rs_update_password : ∀ id hash now db, R db (Users.update_password id hash now db).1;
  rs_must_change : ∀ id now db, R db (Users.set_must_change_password id now db).1;
  rs_insert_session : ∀ row db, R db (UserSessions.insert_session row db).1;
  rs_delete_sessions : ∀ id db, R db (UserSessions.delete_user_sessions id db).1;
  rs_insert_token : ∀ row db, ApiTokenRow.revoked_at row = None → R db (ApiTokens.insert_token row db).1;
  rs_revoke_token : ∀ id now db, R db (ApiTokens.revoke_token id now db).1;
  rs_last_used : ∀ id now db, R db (ApiTokens.update_last_used id now db).1;
  rs_record : ∀ id ip username at_ success db, R db (LoginAttempts.record_attempt id ip username at_ success db).1;
  rs_clear : ∀ username db, R db (LoginAttempts.clear_for_username username db).1;
  rs_log : ∀ row db, R db (insert_entry row db).1;
}.

(** The statements of [update_user]. *)
Record respected_roles (R : Accounts.t → Accounts.t → Prop) : Prop := {
  rs_update_role : ∀ id role now db, R db (Users.update_role id role now db).1;
  rs_disable_user : ∀ id now db, R db (Users.disable_user id now db).1;
  rs_enable_user : ∀ id now db, R db (Users.enable_user id now db).1;
}.

Definition is_update (e : endpoint) : bool := match e with UpdateUser _ _ => true | _ => false end.

(** [stmt HR] closes the goal that a statement of the list respects the relation. *)
Ltac stmt HR :=
  first
    [ apply (rs_insert_user _ HR) | apply (rs_update_password _ HR) | apply (rs_must_change _ HR)
    | apply (rs_insert_session _ HR) | apply (rs_delete_sessions _ HR) | apply (rs_insert_token _ HR); reflexivity
    | apply (rs_revoke_token _ HR) | apply (rs_last_used _ HR) | apply (rs_record _ HR) | apply (rs_clear _ HR)
    | apply (rs_log _ HR) ].

Section respect.
Context (sha256 : list Z → list Z) `{Argon2} `{Chrono} (R : Accounts.t → Accounts.t → Prop) (HR : respected R).

Lemma all_dbx {B} (f : Accounts.t → Accounts.t * result B string) : (∀ db, R db (f db).1) → all_stmts R (dbx f).
Proof. by split. Qed.

Lemma all_exec_ok {B} (f : Accounts.t → Accounts.t * result B string) : (∀ db, R db (f db).1) → all_stmts R (exec_ok f).
Proof. by split. Qed.

Lemma all_reads {B} (f : Accounts.t → B) db : R db (reads f db).1.
Proof. destruct HR as [[] ]. cbn. reflexivity. Qed.

Lemma all_ret {A} (a : A) : all_stmts R (Ret (S := Accounts.t) a).
Proof. exact I. Qed.

Ltac walk :=
  repeat first
    [ apply all_ret
    | apply all_dbx; intros; first [apply all_reads | stmt HR]
    | apply all_exec_ok; intros; stmt HR
    | apply all_stmts_bind
    | progress intros
    | case_match ].

Lemma identity_respects id : all_stmts R (load_identity id).
Proof. unfold load_identity. walk. Qed.

Lemma pending_respects now c : all_stmts R (authenticate_cookie_allow_pending_change sha256 now c).
Proof. unfold authenticate_cookie_allow_pending_change. walk; apply identity_respects. Qed.

Lemma auth_respects headers now : all_stmts R (Auth_from_request_parts sha256 headers now).
Proof.
  unfold Auth_from_request_parts, authenticate_bearer, authenticate_cookie.
  walk; apply identity_respects || apply pending_respects.
Qed.

Lemma create_token_respects i auth ctx h body p : create_token sha256 i auth ctx h body = Some p → all_stmts R p.
Proof.
  intros Hp. unfold create_token in Hp.
  destruct (validate_csrf _ _); [|by injection Hp as <-]. destruct (authorized _ _); [|by injection Hp as <-].
  apply bind_Some in Hp as (expires & _ & Hp). apply (inj Some) in Hp. subst p. unfold log. walk.
Qed.

Lemma update_user_respects (Hroles : respected_roles R) i auth ctx h id body :
  all_stmts R (update_user i auth ctx h id body).
Proof.
  assert (Hguard : all_stmts R last_admin_guard) by (unfold last_admin_guard; walk).
  unfold update_user, update_user_role, update_user_disabled, log.
  repeat first
    [ apply Hguard | apply all_ret
    | apply all_dbx; intros; first [apply all_reads | apply (rs_update_role _ Hroles)
        | apply (rs_disable_user _ Hroles) | apply (rs_enable_user _ Hroles)]
    | apply all_exec_ok; intros; stmt HR
    | apply all_stmts_bind | progress intros | case_match ].
Qed.

Lemma serve_respects r e : (is_update e = true → respected_roles R) → all_stmts R (serve sha256 r e).
Proof.
  intros Hroles. destruct e; cbn [serve]; unfold authenticated, returns.
  - unfold login, check_login_rate_limit, refuse_login, record_login_attempt, log. walk.
  - unfold logout, log. walk; apply auth_respects.
  - unfold AuthAllowPendingChange_from_request_parts, change_password, log. walk; apply pending_respects.
  - unfold create_user, log. walk; apply auth_respects.
  - walk; [apply auth_respects|]. by apply update_user_respects, Hroles.
  - unfold reset_password, log. walk; apply auth_respects.
  - unfold unlock_user. walk; apply auth_respects.
  - walk; [apply auth_respects|]. by eapply create_token_respects.
  - unfold revoke_token, revoke, log. walk; apply auth_respects.
  - unfold revoke_user_token, revoke, log. walk; apply auth_respects.
Qed.
End respect.

(** ** The tables stay well formed *)

Lemma elem_of_rows {V} (p : V → bool) (m : gmap string V) v :
  v ∈ rows p m ↔ ∃ k, m !! k = Some v ∧ p v = true.
Proof.
  unfold rows. rewrite list_elem_of_filter, list_elem_of_fmap. split.
  - intros [Hp ([k v'] & -> & Hin)]. exists k. split; [by apply elem_of_map_to_list|]. by apply Is_true_true.
  - intros (k & Hk & Hp). split; [by apply Is_true_true|]. exists (k, v). split; [done|]. by apply elem_of_map_to_list.
Qed.

Lemma find_row_Some {V} (p : V → bool) (m : gmap string V) v :
  find_row p m = Some v → ∃ k, m !! k = Some v ∧ p v = true.
Proof. intros Hv%head_Some_elem_of. by apply elem_of_rows. Qed.

Lemma find_row_None {V} (p : V → bool) (m : gmap string V) k v :
  find_row p m = None → m !! k = Some v → p v = false.
Proof.
  unfold find_row. intros Hn%head_None Hk. destruct (p v) eqn:Hp; [|done].
  assert (Hin : v ∈ rows p m) by (apply elem_of_rows; by exists k). rewrite Hn in Hin. by apply elem_of_nil in Hin.
Qed.

(** The keys are the ids, the unique columns unique, the references met. *)
Record tables_ok (db : Accounts.t) : Prop := {
  ok_users : ∀ id u, Accounts.users db !! id = Some u →
    UserRow.id u = id ∧ UserRow.username_lower u = sql_lower (UserRow.username u) ∧ UserRow.console_role u ∈ ROLES;
  ok_names : ∀ id id' u u', Accounts.users db !! id = Some u → Accounts.users db !! id' = Some u' →
    UserRow.username_lower u = UserRow.username_lower u' → id = id';
  ok_sessions : ∀ id s, Accounts.user_sessions db !! id = Some s →
    UserSessionRow.id s = id ∧ is_Some (Accounts.users db !! UserSessionRow.user_id s);
  ok_session_hashes : ∀ id id' s s', Accounts.user_sessions db !! id = Some s → Accounts.user_sessions db !! id' = Some s' →
    UserSessionRow.token_hash s = UserSessionRow.token_hash s' → id = id';
  ok_tokens : ∀ id k, Accounts.api_tokens db !! id = Some k →
    ApiTokenRow.id k = id ∧ is_Some (Accounts.users db !! ApiTokenRow.user_id k);
  ok_token_hashes : ∀ id id' k k', Accounts.api_tokens db !! id = Some k → Accounts.api_tokens db !! id' = Some k' →
    ApiTokenRow.token_hash k = ApiTokenRow.token_hash k' → id = id';
  ok_log : Forall (λ row, is_Some (Accounts.users db !! AuditRow.user_id row)) (Accounts.audit_log db);
}.

Definition keeps_ok (db db' : Accounts.t) : Prop := tables_ok db → tables_ok db'.

#[global] Instance keeps_ok_pre : PreOrder keeps_ok.
Proof. split; unfold keeps_ok; repeat intro; auto. Qed.

Lemma update_user_ok id p f db :
  (∀ u, UserRow.id (f u) = UserRow.id u ∧ UserRow.username (f u) = UserRow.username u
        ∧ UserRow.username_lower (f u) = UserRow.username_lower u
        ∧ (UserRow.console_role u ∈ ROLES → UserRow.console_role (f u) ∈ ROLES)) →
  keeps_ok db (Users.update id p f db).1.
Proof.
  intros Hf Hok. unfold Users.update, update_row.
  destruct (Accounts.users db !! id) as [v|] eqn:Hv; [|by destruct db]. destruct (p v); [|by destruct db].
  destruct (Hf v) as (Hid & Hn & Hl & Hr). destruct Hok as [Hu Hnames Hs Hsh Hk Hkh Hlog].
  assert (Hsome : ∀ x, is_Some (Accounts.users db !! x) → is_Some (<[id := f v]> (Accounts.users db) !! x)).
  { intros x Hx. rewrite lookup_insert. case_decide; [by eexists|done]. }
  destruct (Hu id v Hv) as (Hvid & Hvl & Hvr).
  split; cbn.
  - intros x u. rewrite lookup_insert. case_decide; [|apply Hu].
    intros [= <-]. subst x. rewrite Hid, Hl, Hn. auto.
  - assert (Hold : ∀ x u, <[id := f v]> (Accounts.users db) !! x = Some u →
              ∃ u0, Accounts.users db !! x = Some u0 ∧ UserRow.username_lower u = UserRow.username_lower u0).
    { intros x u. rewrite lookup_insert. case_decide; [|by exists u]. intros [= <-]. subst x. by exists v. }
    intros x x' u u' (u0 & Hx & ->)%Hold (u0' & Hx' & ->)%Hold. by apply Hnames.
  - intros x s Hx. destruct (Hs x s Hx). auto.
  - exact Hsh.
  - intros x k Hx. destruct (Hk x k Hx). auto.
  - exact Hkh.
  - eapply Forall_impl; [exact Hlog|]. auto.
Qed.

Lemma insert_user_ok id username display_name hash role must_change now db :
  keeps_ok db (Users.insert_user id username display_name hash role must_change now db).1.
Proof.
  intros Hok. unfold Users.insert_user. case_bool_decide as Hid; [done|]. case_bool_decide as Hname; [done|].
  case_bool_decide as Hrole; cbn [negb]; [|done]. destruct Hok as [Hu Hnames Hs Hsh Hk Hkh Hlog].
  apply eq_None_not_Some in Hid, Hname. set (new := UserRow.mk _ _ _ _ _ _ _ _ _ _).
  assert (Hsome : ∀ x, is_Some (Accounts.users db !! x) → is_Some (<[id := new]> (Accounts.users db) !! x)).
  { intros x Hx. rewrite lookup_insert. case_decide; [by eexists|done]. }
  assert (Hfresh : ∀ x u, Accounts.users db !! x = Some u → UserRow.username_lower u ≠ sql_lower username).
  { intros x u Hx Heq. unfold Users.get_by_username in Hname. eapply find_row_None in Hname; [|exact Hx].
    cbn in Hname. by rewrite bool_decide_true in Hname. }
  split; cbn.
  - intros x u. rewrite lookup_insert. case_decide; [|apply Hu]. intros [= <-]. by subst x.
  - intros x x' u u'. rewrite !lookup_insert. case_decide; case_decide; try congruence.
    + intros [= <-] Hx' Heq. by destruct (Hfresh x' u' Hx').
    + intros Hx [= <-] Heq. by destruct (Hfresh x u Hx).
    + apply Hnames.
  - intros x s Hx. destruct (Hs x s Hx). auto.
  - exact Hsh.
  - intros x k Hx. destruct (Hk x k Hx). auto.
  - exact Hkh.
  - eapply Forall_impl; [exact Hlog|]. auto.
Qed.

(** Changes to the other tables leave the users alone. *)
Lemma sessions_ok db m :
  (∀ id s, m !! id = Some s → UserSessionRow.id s = id ∧ is_Some (Accounts.users db !! UserSessionRow.user_id s)) →
  (∀ id id' s s', m !! id = Some s → m !! id' = Some s' →
     UserSessionRow.token_hash s = UserSessionRow.token_hash s' → id = id') →
  tables_ok db → tables_ok (db <| Accounts.user_sessions := m |>).
Proof. intros H1 H2 []. by split. Qed.

Lemma tokens_ok db m :
  (∀ id k, m !! id = Some k → ApiTokenRow.id k = id ∧ is_Some (Accounts.users db !! ApiTokenRow.user_id k)) →
  (∀ id id' k k', m !! id = Some k → m !! id' = Some k' →
     ApiTokenRow.token_hash k = ApiTokenRow.token_hash k' → id = id') →
  tables_ok db → tables_ok (db <| Accounts.api_tokens := m |>).
Proof. intros H1 H2 []. by split. Qed.

Lemma insert_session_ok row db : keeps_ok db (UserSessions.insert_session row db).1.
Proof.
  intros Hok. unfold UserSessions.insert_session. case_bool_decide as Hid; [done|].
  case_bool_decide as Hhash; [done|]. case_bool_decide as Hfk; cbn [negb]; [|done].
  apply eq_None_not_Some in Hid, Hhash. pose proof Hok as [_ _ Hs Hsh _ _ _].
  assert (Hfresh : ∀ x s, Accounts.user_sessions db !! x = Some s → UserSessionRow.token_hash s ≠ UserSessionRow.token_hash row).
  { intros x s Hx Heq. eapply find_row_None in Hhash; [|exact Hx]. cbn in Hhash. by rewrite bool_decide_true in Hhash. }
  apply sessions_ok; [| |done].
  - intros x s. rewrite lookup_insert. case_decide; [|apply Hs]. intros [= <-]. by subst x.
  - intros x x' s s'. rewrite !lookup_insert. case_decide; case_decide; try congruence.
    + intros [= <-] Hx' Heq. by destruct (Hfresh x' s' Hx').
    + intros Hx [= <-] Heq. by destruct (Hfresh x s Hx).
    + apply Hsh.
Qed.

Lemma delete_sessions_ok id db : keeps_ok db (UserSessions.delete_user_sessions id db).1.
Proof.
  intros Hok. pose proof Hok as [_ _ Hs Hsh _ _ _]. apply sessions_ok; [| |done].
  - intros x s [Hx _]%map_lookup_filter_Some. by apply Hs.
  - intros x x' s s' [Hx _]%map_lookup_filter_Some [Hx' _]%map_lookup_filter_Some. by apply Hsh.
Qed.

Lemma insert_token_ok row db : keeps_ok db (ApiTokens.insert_token row db).1.
Proof.
  intros Hok. unfold ApiTokens.insert_token. case_bool_decide as Hid; [done|].
  case_bool_decide as Hhash; [done|]. case_bool_decide as Hfk; cbn [negb]; [|done].
  apply eq_None_not_Some in Hid, Hhash. pose proof Hok as [_ _ _ _ Hk Hkh _].
  assert (Hfresh : ∀ x k, Accounts.api_tokens db !! x = Some k → ApiTokenRow.token_hash k ≠ ApiTokenRow.token_hash row).
  { intros x k Hx Heq. eapply find_row_None in Hhash; [|exact Hx]. cbn in Hhash. by rewrite bool_decide_true in Hhash. }
  apply tokens_ok; [| |done].
  - intros x k. rewrite lookup_insert. case_decide; [|apply Hk]. intros [= <-]. by subst x.
  - intros x x' k k'. rewrite !lookup_insert. case_decide; case_decide; try congruence.
    + intros [= <-] Hx' Heq. by destruct (Hfresh x' k' Hx').
    + intros Hx [= <-] Heq. by destruct (Hfresh x k Hx).
    + apply Hkh.
Qed.

Lemma update_token_ok id p f db :
  (∀ k, ApiTokenRow.id (f k) = ApiTokenRow.id k ∧ ApiTokenRow.user_id (f k) = ApiTokenRow.user_id k
        ∧ ApiTokenRow.token_hash (f k) = ApiTokenRow.token_hash k) →
  keeps_ok db (ApiTokens.update id p f db).1.
Proof.
  intros Hf Hok. unfold ApiTokens.update, update_row.
  destruct (Accounts.api_tokens db !! id) as [v|] eqn:Hv; [|by destruct db]. destruct (p v); [|by destruct db].
  destruct (Hf v) as (Hid & Hu & Hh). pose proof Hok as [_ _ _ _ Hk Hkh _].
  assert (Hold : ∀ x k, <[id := f v]> (Accounts.api_tokens db) !! x = Some k →
            ∃ k0, Accounts.api_tokens db !! x = Some k0 ∧ ApiTokenRow.id k = ApiTokenRow.id k0
              ∧ ApiTokenRow.user_id k = ApiTokenRow.user_id k0 ∧ ApiTokenRow.token_hash k = ApiTokenRow.token_hash k0).
  { intros x k. rewrite lookup_insert. case_decide; [|by exists k]. intros [= <-]. subst x. by exists v. }
  apply tokens_ok; [| |done].
  - intros x k (k0 & Hx & -> & -> & _)%Hold. by apply Hk.
  - intros x x' k k' (k0 & Hx & _ & _ & ->)%Hold (k0' & Hx' & _ & _ & ->)%Hold. by apply Hkh.
Qed.

Lemma respected_ok : respected keeps_ok.
Proof.
  split; intros.
  - apply _.
  - apply insert_user_ok.
  - by apply update_user_ok.
  - by apply update_user_ok.
  - apply insert_session_ok.
  - apply delete_sessions_ok.
  - apply insert_token_ok.
  - by apply update_token_ok.
  - by apply update_token_ok.
  - intros []. unfold LoginAttempts.record_attempt. case_bool_decide; by split.
  - intros []. by split.
  - intros Hok. unfold insert_entry. case_bool_decide; [|done]. destruct Hok. split; try done.
    apply Forall_app. by rewrite Forall_singleton.
Qed.

Lemma respected_roles_ok : respected_roles keeps_ok.
Proof.
  split; intros; [|by apply update_user_ok..].
  unfold Users.update_role. case_bool_decide as Hrow; cbn [andb].
  - case_bool_decide; cbn [negb]; [by apply update_user_ok|done].
  - apply eq_None_not_Some in Hrow. unfold Users.update, update_row. rewrite Hrow. by destruct db.
Qed.

(** C8. Whatever requests are in progress, however their statements interleave and
    whichever fail, the tables stay well formed: rows under their ids, no two users of one
    name, roles of the list, no two sessions or tokens of one hash, and no row that
    refers to a missing user. *)
Theorem tables_stay_ok sha256 `{Argon2} `{Chrono} (requests : list (Request.t * endpoint))
    (schedule : list (nat * option string)) (db : Accounts.t) (Hok : tables_ok db) :
  tables_ok (interleave schedule ((λ re, serve sha256 re.1 re.2) <$> requests) db).1.
Proof.
  refine (interleave_rel keeps_ok schedule _ db _ Hok).
  apply Forall_fmap, Forall_true. intros re. apply serve_respects; [apply respected_ok|]. intros _. apply respected_roles_ok.
Qed.

(** ** Who is let in *)

Section authentication.
Context (sha256 : list Z → list Z) `{Argon2} `{Chrono}.

(** The identity of an enabled user. *)
Definition is_user (db : Accounts.t) (uid : string) (u : UserRow.t) (user : AuthenticatedUser.t) : Prop :=
  Accounts.users db !! uid = Some u ∧ UserRow.disabled_at u = None
  ∧ AuthenticatedUser.user_id user = uid ∧ AuthenticatedUser.username user = UserRow.username u
  ∧ ConsoleRole.fmt (AuthenticatedUser.console_role user) = UserRow.console_role u.

(** The credentials that admit a user. *)
Definition bearer_admits (db : Accounts.t) (now : Z) (token : string) (user : AuthenticatedUser.t) : Prop :=
  starts_with "wcon_t_" token = true
  ∧ ∃ id k u, Accounts.api_tokens db !! id = Some k ∧ ApiTokenRow.token_hash k = hash_token sha256 token
    ∧ ApiTokenRow.revoked_at k = None
    ∧ (∀ e, ApiTokenRow.expires_at k = Some e → text_gt e (to_rfc3339 now) = true)
    ∧ is_user db (ApiTokenRow.user_id k) u user.

Definition cookie_admits (db : Accounts.t) (now : Z) (cookie : string) (user : AuthenticatedUser.t) : Prop :=
  ∃ id s u, Accounts.user_sessions db !! id = Some s ∧ UserSessionRow.token_hash s = hash_token sha256 cookie
  ∧ text_gt (UserSessionRow.expires_at s) (to_rfc3339 now) = true
  ∧ is_user db (UserSessionRow.user_id s) u user ∧ UserRow.must_change_password u = false.

Lemma load_identity_spec db uid :
  tables_ok db →
  (run_prog [] (load_identity uid) db).1 = db
  ∧ ∀ user, (run_prog [] (load_identity uid) db).2 = Ok user ↔ ∃ u, is_user db uid u user.
Proof.
  intros Hok. cbn. unfold Users.get_by_id. destruct (Accounts.users db !! uid) as [u|] eqn:Hu; cbn.
  - destruct (ok_users _ Hok _ _ Hu) as (Hid & _ & Hrole).
    destruct (UserRow.disabled_at u) as [d|] eqn:Hd; cbn.
    + split; [done|]. intros user. split; [done|]. intros (u' & Hu' & Hd' & _). simplify_eq.
    + assert (Hparse : ∃ role, ConsoleRole.from_str (UserRow.console_role u) = Ok role ∧ ConsoleRole.fmt role = UserRow.console_role u).
      { unfold ROLES in Hrole. repeat (apply elem_of_cons in Hrole as [->|Hrole]; [eexists; split; reflexivity|]).
        by apply elem_of_nil in Hrole. }
      destruct Hparse as (role & -> & Hfmt). cbn. split; [done|]. intros [uid' name role']. split.
      * intros [= <- <- <-]. exists u. unfold is_user. cbn. repeat split; done.
      * intros (u' & Hu' & _ & Hi & Hn & Hr). cbn in *. simplify_eq. rewrite <-Hfmt in Hr.
        assert (role' = role) as -> by (destruct role, role'; done). done.
  - split; [done|]. intros user. split; [done|]. intros (u' & Hu' & _). congruence.
Qed.

(** The row of a hash is the only one. *)
Lemma token_found db now h :
  tables_ok db →
  match ApiTokens.get_by_token_hash h now db with
  | Some k => ∃ id, Accounts.api_tokens db !! id = Some k ∧ ApiTokenRow.token_hash k = h ∧ ApiTokens.is_live now k = true
      ∧ ∀ id' k', Accounts.api_tokens db !! id' = Some k' → ApiTokenRow.token_hash k' = h → id' = id ∧ k' = k
  | None => ∀ id k, Accounts.api_tokens db !! id = Some k → ApiTokenRow.token_hash k = h → ApiTokens.is_live now k = false
  end.
Proof.
  intros Hok. unfold ApiTokens.get_by_token_hash. destruct (find_row _ _) as [k|] eqn:Hf.
  - apply find_row_Some in Hf as (id & Hid & [Hh Hl]%andb_prop). apply bool_decide_eq_true in Hh.
    exists id. repeat split; try done; [|].
    + eapply (ok_token_hashes _ Hok); [done|done|congruence].
    + assert (id' = id) as -> by (eapply (ok_token_hashes _ Hok); [done|done|congruence]). congruence.
  - intros id k Hid Hh. eapply find_row_None in Hf; [|exact Hid]. cbn in Hf. by rewrite bool_decide_true in Hf.
Qed.

Lemma session_found db now h :
  tables_ok db →
  match UserSessions.get_by_token_hash h now db with
  | Some s => ∃ id, Accounts.user_sessions db !! id = Some s ∧ UserSessionRow.token_hash s = h
      ∧ text_gt (UserSessionRow.expires_at s) now = true
      ∧ ∀ id' s', Accounts.user_sessions db !! id' = Some s' → UserSessionRow.token_hash s' = h → id' = id ∧ s' = s
  | None => ∀ id s, Accounts.user_sessions db !! id = Some s → UserSessionRow.token_hash s = h →
      text_gt (UserSessionRow.expires_at s) now = false
  end.
Proof.
  intros Hok. unfold UserSessions.get_by_token_hash. destruct (find_row _ _) as [s|] eqn:Hf.
  - apply find_row_Some in Hf as (id & Hid & [Hh Hl]%andb_prop). apply bool_decide_eq_true in Hh.
    exists id. repeat split; try done; [|].
    + eapply (ok_session_hashes _ Hok); [done|done|congruence].
    + assert (id' = id) as -> by (eapply (ok_session_hashes _ Hok); [done|done|congruence]). congruence.
  - intros id s Hid Hh. eapply find_row_None in Hf; [|exact Hid]. cbn in Hf. by rewrite bool_decide_true in Hf.
Qed.

Lemma is_live_spec now k :
  ApiTokens.is_live now k = true
  ↔ ApiTokenRow.revoked_at k = None ∧ ∀ e, ApiTokenRow.expires_at k = Some e → text_gt e now = true.
Proof.
  unfold ApiTokens.is_live. rewrite andb_true_iff, negb_true_iff, bool_decide_eq_false, <-eq_None_not_Some.
  destruct (ApiTokenRow.expires_at k); naive_solver.
Qed.

Lemma is_user_last_used db id now uid u user :
  is_user (ApiTokens.update_last_used id now db).1 uid u user ↔ is_user db uid u user.
Proof. unfold is_user, ApiTokens.update_last_used, ApiTokens.update. by destruct (update_row _ _ _ _). Qed.

Lemma bearer_spec db now token user :
  tables_ok db →
  (run_prog [] (authenticate_bearer sha256 now token) db).2 = Ok user ↔ bearer_admits db now token user.
Proof.
  intros Hok. unfold authenticate_bearer, bearer_admits.
  destruct (starts_with "wcon_t_" token); cbn [negb]; [|split; [done|by intros [? _]]].
  cbn. pose proof (token_found db (to_rfc3339 now) (hash_token sha256 token) Hok) as Hf.
  destruct (ApiTokens.get_by_token_hash _ _ db) as [k|]; cbn.
  - destruct Hf as (id & Hid & Hh & Hl & Huniq). destruct (proj1 (is_live_spec _ _) Hl) as [Hrev Hexp].
    destruct (ApiTokens.update_last_used (ApiTokenRow.id k) (to_rfc3339 now) db) as [db' r'] eqn:Hdb'.
    assert (Hok' : tables_ok db').
    { pose proof (rs_last_used _ respected_ok (ApiTokenRow.id k) (to_rfc3339 now) db Hok) as Hx. by rewrite Hdb' in Hx. }
    pose proof (load_identity_spec db' (ApiTokenRow.user_id k) Hok') as [_ Hspec].
    rewrite Hspec. assert (Hu : ∀ u, is_user db' (ApiTokenRow.user_id k) u user ↔ is_user db (ApiTokenRow.user_id k) u user).
    { intros u. pose proof (is_user_last_used db (ApiTokenRow.id k) (to_rfc3339 now) (ApiTokenRow.user_id k) u user) as Hx.
      by rewrite Hdb' in Hx. }
    setoid_rewrite Hu. split.
    + intros [u Hisu]. split; [done|]. by exists id, k, u.
    + intros (_ & id' & k' & u & Hid' & Hh' & _ & _ & Hisu). destruct (Huniq id' k' Hid' Hh') as [-> ->]. by exists u.
  - split; [done|]. intros (_ & id & k & u & Hid & Hh & Hrev & Hexp & _).
    specialize (Hf id k Hid Hh). pose proof (proj2 (is_live_spec (to_rfc3339 now) k) (conj Hrev Hexp)). congruence.
Qed.

Lemma cookie_spec db now cookie user :
  tables_ok db →
  (run_prog [] (authenticate_cookie sha256 now cookie) db).2 = Ok user ↔ cookie_admits db now cookie user.
Proof.
  intros Hok. unfold authenticate_cookie, cookie_admits, authenticate_cookie_allow_pending_change.
  rewrite run_bind_nil. cbn [prog_bind dbx reads run_prog run_stmt head default tail result_map_err].
  pose proof (session_found db (to_rfc3339 now) (hash_token sha256 cookie) Hok) as Hf.
  destruct (UserSessions.get_by_token_hash _ _ db) as [s|]; cbn [ok_or].
  - destruct Hf as (id & Hid & Hh & Hl & Huniq).
    pose proof (load_identity_spec db (UserSessionRow.user_id s) Hok) as [Hdb Hspec].
    destruct (run_prog [] (load_identity (UserSessionRow.user_id s)) db) as [db' r]. cbn [fst snd] in *. subst db'.
    destruct r as [user'|e].
    + destruct (proj1 (Hspec user') eq_refl) as (u & Hu). pose proof Hu as (Hlook & _ & Hid' & _).
      cbn. unfold Users.get_by_id. rewrite Hid', Hlook. cbn.
      assert (Hsame : ∀ user u', is_user db (UserSessionRow.user_id s) u' user → user = user' ∧ u' = u).
      { intros user0 u' Hu'. assert (Ok user' = Ok user0 :> result _ ConsoleError.t) as [= ->] by (apply Hspec; by exists u').
        split; [done|]. destruct Hu' as [Hl' _]. congruence. }
      destruct (UserRow.must_change_password u) eqn:Hmc; cbn.
      * split; [done|]. intros (id0 & s0 & u0 & Hid0 & Hh0 & _ & Hu0 & Hm0). destruct (Huniq id0 s0 Hid0 Hh0) as [-> ->].
        destruct (Hsame _ _ Hu0) as [-> ->]. congruence.
      * split.
        -- intros [= <-]. by exists id, s, u.
        -- intros (id0 & s0 & u0 & Hid0 & Hh0 & _ & Hu0 & Hm0). destruct (Huniq id0 s0 Hid0 Hh0) as [-> ->].
           by destruct (Hsame _ _ Hu0) as [-> ->].
    + cbn. split; [done|]. intros (id0 & s0 & u0 & Hid0 & Hh0 & _ & Hu0 & _). destruct (Huniq id0 s0 Hid0 Hh0) as [-> ->].
      assert (Err e = Ok user) by (apply Hspec; by exists u0). done.
  - cbn. split; [done|]. intros (id & s & u & Hid & Hh & Hexp & _). specialize (Hf id s Hid Hh). congruence.
Qed.

(** Revocation is never undone. *)
Definition revoked_stays (id : string) (db db' : Accounts.t) : Prop :=
  ∀ k, Accounts.api_tokens db !! id = Some k → is_Some (ApiTokenRow.revoked_at k) →
  ∃ k', Accounts.api_tokens db' !! id = Some k' ∧ is_Some (ApiTokenRow.revoked_at k')
        ∧ ApiTokenRow.token_hash k' = ApiTokenRow.token_hash k.

#[local] Instance revoked_stays_pre id : PreOrder (revoked_stays id).
Proof.
  split; [intros db k Hk Hr; by exists k|]. intros db1 db2 db3 H12 H23 k Hk Hr.
  destruct (H12 k Hk Hr) as (k2 & Hk2 & Hr2 & Hh2). destruct (H23 k2 Hk2 Hr2) as (k3 & Hk3 & Hr3 & Hh3).
  exists k3. split; [done|]. split; [done|]. congruence.
Qed.

Lemma same_tokens_stay id db db' : Accounts.api_tokens db' = Accounts.api_tokens db → revoked_stays id db db'.
Proof. intros Heq k Hk Hr. exists k. by rewrite Heq. Qed.

Lemma update_token_stays id x p f db :
  (∀ k, ApiTokenRow.token_hash (f k) = ApiTokenRow.token_hash k
        ∧ (is_Some (ApiTokenRow.revoked_at k) → is_Some (ApiTokenRow.revoked_at (f k)))) →
  revoked_stays id db (ApiTokens.update x p f db).1.
Proof.
  intros Hf k Hk Hr. unfold ApiTokens.update, update_row.
  destruct (Accounts.api_tokens db !! x) as [v|] eqn:Hv; [|by exists k]. destruct (p v); [|by exists k].
  cbn. rewrite lookup_insert. case_decide; [|by exists k]. subst x. simplify_eq.
  destruct (Hf k) as [Hh Hr']. exists (f k). auto.
Qed.

Lemma respected_revoked id : respected (revoked_stays id).
Proof.
  split; intros.
  7: { unfold ApiTokens.insert_token. case_bool_decide as Hid; [done|]. intros k Hk Hr.
       repeat case_match; try (by exists k). cbn. exists k. rewrite lookup_insert_ne; [done|].
       intros <-. by destruct Hid. }
  7, 8: by apply update_token_stays.
  1: apply _.
  all: apply same_tokens_stay.
  - unfold Users.insert_user. by repeat case_match.
  - unfold Users.update_password, Users.update. by destruct (update_row _ _ _ _).
  - unfold Users.set_must_change_password, Users.update. by destruct (update_row _ _ _ _).
  - unfold UserSessions.insert_session. by repeat case_match.
  - done.
  - unfold LoginAttempts.record_attempt. by repeat case_match.
  - done.
  - unfold insert_entry. by repeat case_match.
Qed.

Lemma respected_roles_revoked id : respected_roles (revoked_stays id).
Proof.
  split; intros; apply same_tokens_stay.
  - unfold Users.update_role, Users.update. by repeat case_match.
  - unfold Users.disable_user, Users.update. by destruct (update_row _ _ _ _).
  - unfold Users.enable_user, Users.update. by destruct (update_row _ _ _ _).
Qed.

(** A statement that fails can only refuse. *)
Lemma load_identity_faults faults db db' uid user :
  Accounts.users db' = Accounts.users db →
  (run_prog faults (load_identity uid) db).2 = Ok user → (run_prog [] (load_identity uid) db').2 = Ok user.
Proof.
  intros Hu. cbn. unfold Users.get_by_id. rewrite Hu. destruct (default None (head faults)); [done|]. cbn.
  destruct (Accounts.users db !! uid) as [u|]; cbn; [|done].
  case_bool_decide; [done|]. by destruct (ConsoleRole.from_str (UserRow.console_role u)).
Qed.

Lemma bearer_faults faults db now token user :
  (run_prog faults (authenticate_bearer sha256 now token) db).2 = Ok user →
  (run_prog [] (authenticate_bearer sha256 now token) db).2 = Ok user.
Proof.
  unfold authenticate_bearer. destruct (starts_with "wcon_t_" token); cbn [negb]; [|done].
  cbn -[load_identity]. destruct (default None (head faults)); [done|]. cbn -[load_identity].
  destruct (ApiTokens.get_by_token_hash _ _ db) as [k|]; cbn -[load_identity]; [|done].
  assert (Hu : Accounts.users (ApiTokens.update_last_used (ApiTokenRow.id k) (to_rfc3339 now) db).1 = Accounts.users db).
  { unfold ApiTokens.update_last_used, ApiTokens.update. by destruct (update_row _ _ _ _). }
  destruct (ApiTokens.update_last_used (ApiTokenRow.id k) (to_rfc3339 now) db) as [db' r'] eqn:Hdb'. cbn [fst] in Hu.
  destruct (default None (head (tail faults))); cbn -[load_identity]; rewrite ?Hdb'; by apply load_identity_faults.
Qed.

Lemma cookie_faults faults db now cookie user :
  (run_prog faults (authenticate_cookie sha256 now cookie) db).2 = Ok user →
  (run_prog [] (authenticate_cookie sha256 now cookie) db).2 = Ok user.
Proof.
  unfold authenticate_cookie, authenticate_cookie_allow_pending_change. cbn.
  destruct (default None (head faults)); [done|]. cbn.
  destruct (UserSessions.get_by_token_hash _ _ db) as [s|]; cbn; [|done].
  destruct (default None (head (tail faults))); [done|]. cbn.
  destruct (Users.get_by_id (UserSessionRow.user_id s) db) as [u|]; cbn; [|done].
  case_bool_decide; [done|]. destruct (ConsoleRole.from_str (UserRow.console_role u)); cbn; [|done].
  destruct (default None (head (tail (tail faults)))); cbn; [done|].
  unfold Users.get_by_id. destruct (Accounts.users db !! UserRow.id u) as [row|]; cbn; [|done].
  by destruct (UserRow.must_change_password row).
Qed.

(** C7. Who is let in.  When no statement fails, a request is authenticated as a user exactly
    when it carries a bearer token of the console's form that is in the table, not revoked
    and not expired, or, without a bearer header, the cookie of an unexpired session; when
    the user of the row exists and is not disabled, and, with a cookie, need not change the
    password: a bearer token is let in although the change is due.  The identity is that of
    the user's row.  When statements fail nobody else is let in. *)
Theorem authentication_exact db headers now user (Hok : tables_ok db) :
  let admitted :=
    match headers !! "authorization" ≫= strip_prefix "Bearer " with
    | Some token => bearer_admits db now token user
    | None => ∃ cookie, extract_cookie headers "wcon_sid" = Some cookie ∧ cookie_admits db now cookie user
    end in
  ((run_prog [] (Auth_from_request_parts sha256 headers now) db).2 = Ok user ↔ admitted)
  ∧ ∀ faults, (run_prog faults (Auth_from_request_parts sha256 headers now) db).2 = Ok user → admitted.
Proof.
  cbv zeta. unfold Auth_from_request_parts.
  destruct (headers !! "authorization" ≫= strip_prefix "Bearer ") as [token|].
  - split; [by apply bearer_spec|]. intros faults Hin%bearer_faults. by apply bearer_spec.
  - destruct (extract_cookie headers "wcon_sid") as [cookie|].
    + pose proof (cookie_spec db now cookie user Hok) as Hspec. split; [naive_solver|].
      intros faults Hin%cookie_faults. naive_solver.
    + cbn. split; [split; [done|by intros (? & ? & _)]|done].
Qed.

(** C24. A revoked token stays dead: after any requests, interleaved and failing in any way,
    no token text with its hash authenticates anyone, at any time. *)
Theorem revocation_final (requests : list (Request.t * endpoint)) schedule db id k token now user
    (Hok : tables_ok db) (Hk : Accounts.api_tokens db !! id = Some k)
    (Hrev : is_Some (ApiTokenRow.revoked_at k)) (Hh : ApiTokenRow.token_hash k = hash_token sha256 token) :
  let db' := (interleave schedule ((λ re, serve sha256 re.1 re.2) <$> requests) db).1 in
  (run_prog [] (authenticate_bearer sha256 now token) db').2 ≠ Ok user.
Proof.
  intros db'.
  assert (Hok' : tables_ok db').
  { refine (interleave_rel keeps_ok schedule _ db _ Hok).
    apply Forall_fmap, Forall_true. intros re. apply serve_respects; [apply respected_ok|]. intros _. apply respected_roles_ok. }
  assert (Hstay : revoked_stays id db db').
  { apply (interleave_rel (revoked_stays id) schedule).
    apply Forall_fmap, Forall_true. intros re. apply serve_respects; [apply respected_revoked|]. intros _. apply respected_roles_revoked. }
  destruct (Hstay k Hk Hrev) as (k' & Hk' & [r Hr'] & Hh').
  rewrite bearer_spec by done. intros (_ & id0 & k0 & u0 & Hid0 & Hh0 & Hr0 & _).
  assert (id0 = id) as -> by (eapply (ok_token_hashes _ Hok'); [done|done|congruence]). congruence.
Qed.
End authentication.

(** ** There is always an admin, unless requests overlap *)

Definition admin_at (db : Accounts.t) (id : string) : Prop :=
  ∃ u, Accounts.users db !! id = Some u ∧ Users.is_active_admin u = true.

Definition has_admin (db : Accounts.t) : Prop := ∃ id, admin_at db id.

Lemma rows_delete {V} (p : V → bool) (m : gmap string V) id v :
  m !! id = Some v → length (rows p m) = ((if p v then 1 else 0) + length (rows p (delete id m)))%nat.
Proof.
  intros Hid. unfold rows. rewrite <-(insert_delete_id m id v Hid) at 1.
  rewrite (map_to_list_insert (delete id m)) by apply lookup_delete_eq.
  rewrite fmap_cons, filter_cons. cbn [snd]. case_decide as Hp; destruct (p v); done.
Qed.

Lemma rows_nonempty {V} (p : V → bool) (m : gmap string V) :
  (0 < length (rows p m))%nat ↔ ∃ k v, m !! k = Some v ∧ p v = true.
Proof.
  split.
  - destruct (rows p m) as [|v l] eqn:Hr; cbn; [lia|]. intros _.
    assert (Hin : v ∈ rows p m) by (rewrite Hr; left). apply elem_of_rows in Hin as (k & Hk & Hp). by exists k, v.
  - intros (k & v & Hk & Hp). assert (Hin : v ∈ rows p m) by (apply elem_of_rows; by exists k).
    destruct (rows p m); [by apply elem_of_nil in Hin|cbn; lia].
Qed.

Lemma two_admins db id : 1 < Users.count_active_admins db → ∃ id', id' ≠ id ∧ admin_at db id'.
Proof.
  unfold Users.count_active_admins. intros Hc.
  assert (Hd : (0 < length (rows Users.is_active_admin (delete id (Accounts.users db))))%nat).
  { destruct (Accounts.users db !! id) as [v|] eqn:Hv.
    - pose proof (rows_delete Users.is_active_admin _ id v Hv) as Hl. destruct (Users.is_active_admin v); lia.
    - rewrite delete_id by done. lia. }
  apply rows_nonempty in Hd as (k & v & Hk & Hp). apply lookup_delete_Some in Hk as [Hne Hk].
  exists k. split; [congruence|]. by exists v.
Qed.

Definition keeps {A} (p : prog Accounts.t A) : Prop :=
  ∀ faults db, has_admin db → has_admin (run_prog faults p db).1.

Definition admin_rel (db db' : Accounts.t) : Prop := has_admin db → has_admin db'.
#[local] Instance admin_rel_pre : PreOrder admin_rel.
Proof. split; unfold admin_rel; repeat intro; auto. Qed.

Lemma keeps_stmts {A} (p : prog Accounts.t A) : all_stmts admin_rel p → keeps p.
Proof. intros Hp faults db. by apply (run_prog_rel admin_rel). Qed.

Lemma admin_keeps_bind {A B} (p : prog Accounts.t A) (q : A → prog Accounts.t B) :
  keeps p → (∀ a, keeps (q a)) → keeps (prog_bind p q).
Proof.
  intros Hp Hq faults db Hdb. destruct (run_prog_bind p q faults db) as [n ->].
  specialize (Hp faults db Hdb). destruct (run_prog faults p db) as [db' a]. by apply Hq.
Qed.

(** Reading, and writing anything but roles and the date of disabling. *)
Lemma same_admins db db' : Accounts.users db' = Accounts.users db → admin_rel db db'.
Proof. intros Heq [id (u & Hu & Ha)]. exists id, u. by rewrite Heq. Qed.

Lemma update_user_admins id p f db :
  (∀ u, Users.is_active_admin u = true → Users.is_active_admin (f u) = true) →
  admin_rel db (Users.update id p f db).1.
Proof.
  intros Hf [x (u & Hu & Ha)]. unfold Users.update, update_row.
  destruct (Accounts.users db !! id) as [v|] eqn:Hv; [|by exists x, u]. destruct (p v); [|by exists x, u].
  destruct (decide (x = id)) as [->|Hne].
  - exists id, (f v). cbn. rewrite lookup_insert_eq. simplify_eq. auto.
  - exists x, u. cbn. by rewrite lookup_insert_ne.
Qed.

(** An update of one user leaves another admin. *)
Lemma update_other id p f db : 1 < Users.count_active_admins db → has_admin (Users.update id p f db).1.
Proof.
  intros (x & Hne & u & Hu & Ha)%(two_admins db id). unfold Users.update, update_row.
  destruct (Accounts.users db !! id) as [v|]; [|by exists x, u]. destruct (p v); [|by exists x, u].
  exists x, u. cbn. by rewrite lookup_insert_ne.
Qed.

Lemma log_keeps {A} uid action target detail ctx (a : A) :
  keeps (let! _ := log uid action target detail ctx in Ret a).
Proof.
  apply keeps_stmts. split; [|done]. intros db. apply same_admins. unfold insert_entry. by case_bool_decide.
Qed.

Lemma guard_spec faults db :
  run_prog faults last_admin_guard db
  = (db, match default None (head faults) with
         | Some e => Err (ConsoleError.Database e)
         | None => if Users.count_active_admins db <=? 1 then Err ConsoleError.LastAdmin else Ok tt
         end).
Proof. cbn. destruct (default None (head faults)); cbn; [done|]. by destruct (_ <=? 1). Qed.

Section last_admin.
Context (sha256 : list Z → list Z) `{Argon2} `{Chrono}.

(** After the guard, when it applies, an update keeps an admin; after it does not, when
    the update does not demote. *)
Lemma guarded_update {B} (guarded : bool) (upd : Accounts.t → Accounts.t * result bool string)
    (k : result bool string → prog Accounts.t (result B ConsoleError.t)) faults db :
  (∀ r, keeps (k r)) →
  has_admin db →
  (1 < Users.count_active_admins db → has_admin (upd db).1) →
  (guarded = false → has_admin (upd db).1) →
  has_admin (run_prog faults
    (let!? _ := (if guarded then last_admin_guard else Ret (Ok tt)) in Stmt upd k) db).1.
Proof.
  intros Hk Hdb H1 H2.
  assert (Htail : ∀ faults, has_admin (upd db).1 → has_admin (run_prog faults (Stmt upd k) db).1).
  { intros fs Hupd. cbn. destruct (default None (head fs)) as [e|]; cbn; [by apply Hk|].
    destruct (upd db) as [db' r]. by apply Hk. }
  destruct guarded; [|by apply Htail, H2].
  destruct (run_prog_bind last_admin_guard
    (λ r, match r with Ok _ => Stmt upd k | Err e => Ret (Err e) end) faults db) as [n ->].
  rewrite guard_spec. destruct (default None (head faults)); [done|].
  destruct (Z.leb_spec (Users.count_active_admins db) 1); [done|]. by apply Htail, H1.
Qed.

Lemma update_user_role_keeps now auth ctx id role : keeps (update_user_role now auth ctx id role).
Proof.
  intros faults db Hdb. unfold update_user_role. destruct (authorized auth _); [|done].
  cbn [prog_bind dbx run_prog]. destruct (default None (head faults)) as [e|]; [done|]. cbn [run_stmt reads result_map_err].
  unfold Users.get_by_id. destruct (Accounts.users db !! id) as [user|] eqn:Hu; [|done]. cbn [ok_or].
  apply (guarded_update (bool_decide (UserRow.console_role user = "admin") && negb (bool_decide (role = "admin")))).
  - intros [b|e]; cbn; [apply log_keeps|by intros ??].
  - done.
  - intros Hc. unfold Users.update_role. destruct (bool_decide (is_Some _) && _); [done|]. by apply update_other.
  - intros Hg. unfold Users.update_role. destruct (bool_decide (is_Some _) && _); [done|]. destruct Hdb as [x (u & Hx & Ha)].
    unfold Users.update, update_row. rewrite Hu. cbn.
    destruct (decide (x = id)) as [->|Hne]; [|exists x, u; cbn; by rewrite lookup_insert_ne].
    simplify_eq. unfold Users.is_active_admin in Ha. apply andb_prop in Ha as [Hrole Hdis].
    rewrite Hrole in Hg. cbn in Hg. apply negb_false_iff, bool_decide_eq_true in Hg. subst role.
    eexists id, _. cbn. rewrite lookup_insert_eq. split; [reflexivity|]. unfold Users.is_active_admin. cbn. by rewrite Hdis.
Qed.

Lemma update_user_disabled_keeps now auth ctx id disabled : keeps (update_user_disabled now auth ctx id disabled).
Proof.
  intros faults db Hdb. unfold update_user_disabled. destruct (authorized auth _); [|done]. destruct disabled.
  - cbn [prog_bind dbx run_prog]. destruct (default None (head faults)) as [e|]; [done|]. cbn [run_stmt reads result_map_err].
    unfold Users.get_by_id. destruct (Accounts.users db !! id) as [user|] eqn:Hu; [|done]. cbn [ok_or].
    apply (guarded_update (bool_decide (UserRow.console_role user = "admin"))).
    + intros [b|e]; cbn; [apply log_keeps|by intros ??].
    + done.
    + apply update_other.
    + intros Hg. destruct Hdb as [x (u & Hx & Ha)].
      unfold Users.disable_user, Users.update, update_row. rewrite Hu. destruct (negb (bool_decide (is_Some _))); [|by exists x, u].
      destruct (decide (x = id)) as [->|Hne]; [|exists x, u; cbn; by rewrite lookup_insert_ne].
      simplify_eq. unfold Users.is_active_admin in Ha. by rewrite Hg in Ha.
  - revert faults db Hdb. apply admin_keeps_bind; [|intros [b|e]; [apply log_keeps|by intros ??]].
    apply keeps_stmts. split; [|done]. intros db. apply update_user_admins. intros u Ha. unfold Users.is_active_admin in *.
    cbn. apply andb_prop in Ha as [-> _]. done.
Qed.

Lemma respected_admins : respected admin_rel.
Proof.
  split; intros.
  - apply _.
  - unfold Users.insert_user. repeat (case_bool_decide; cbn [negb]; try done). intros [x (u & Hx & Ha)].
    exists x, u. cbn. rewrite lookup_insert_ne; [done|]. intros <-. naive_solver.
  - by apply update_user_admins.
  - by apply update_user_admins.
  - apply same_admins. unfold UserSessions.insert_session. by repeat case_match.
  - by apply same_admins.
  - apply same_admins. unfold ApiTokens.insert_token. by repeat case_match.
  - apply same_admins. unfold ApiTokens.revoke_token, ApiTokens.update. by destruct (update_row _ _ _ _).
  - apply same_admins. unfold ApiTokens.update_last_used, ApiTokens.update. by destruct (update_row _ _ _ _).
  - apply same_admins. unfold LoginAttempts.record_attempt. by repeat case_match.
  - by apply same_admins.
  - apply same_admins. unfold insert_entry. by repeat case_match.
Qed.

Lemma admin_keeps_ret {A} (a : A) : keeps (Ret a).
Proof. by intros ??. Qed.

Lemma serve_keeps r e : keeps (serve sha256 r e).
Proof.
  destruct (is_update e) eqn:He.
  - destruct e as [| | | |id body| | | | |]; try discriminate. cbn [serve]. unfold authenticated, returns.
    apply admin_keeps_bind; [by apply keeps_stmts, auth_respects, respected_admins|].
    intros [auth|err]; [|apply admin_keeps_ret]. apply admin_keeps_bind; [|intros; apply admin_keeps_ret].
    unfold update_user. destruct (validate_csrf _ _); [|apply admin_keeps_ret].
    apply admin_keeps_bind; [destruct (UpdateUserRequest.console_role body); [apply update_user_role_keeps|apply admin_keeps_ret]|].
    intros [[]|err]; [|apply admin_keeps_ret].
    apply admin_keeps_bind; [destruct (UpdateUserRequest.disabled body); [apply update_user_disabled_keeps|apply admin_keeps_ret]|].
    intros [[]|err]; apply admin_keeps_ret.
  - apply keeps_stmts, serve_respects; [apply respected_admins|]. by rewrite He.
Qed.

(** C23. Served one after the other, whatever they are and whichever of their statements
    fail, requests never leave the console without an active admin. *)
Theorem last_admin_kept (history : list (Request.t * endpoint * list (option string))) db (Hadmin : has_admin db) :
  has_admin (serve_all sha256 history db).
Proof.
  unfold serve_all. apply fold_left_inv; [|done]. intros db' [[r e] faults] _. apply serve_keeps.
Qed.

(** The statements of a demotion: the user, the admins, the update, the log. *)
Lemma demotion_steps inputs (auth : AuthenticatedUser.t) ctx headers id role :
  AuthenticatedUser.console_role auth = ConsoleRole.Admin → validate_csrf headers (is_bearer_auth headers) = Ok tt →
  update_user inputs auth ctx headers id (UpdateUserRequest.mk (Some role) None)
  = let now := to_rfc3339 (Inputs.clock inputs 0) in
    let! r := (let!? user := dbx (reads (Users.get_by_id id)) in
               let!! user := ok_or user (ConsoleError.NotFound "user" id) in
               let!? _ := (if bool_decide (UserRow.console_role user = "admin") && negb (bool_decide (role = "admin"))
                           then last_admin_guard else Ret (Ok tt)) in
               let!? _ := dbx (Users.update_role id role now) in
               let! _ := log (AuthenticatedUser.user_id auth) AuditAction.UserChangeRole id (Some (RoleDetail role)) ctx in
               Ret (Ok tt)) in
    match r with Ok _ => Ret (Ok no_content) | Err e => Ret (Err e) end.
Proof.
  intros Hrole Hcsrf. unfold update_user, update_user_role, authorized, authorize. rewrite Hcsrf, Hrole. reflexivity.
Qed.

Lemma active_admin_role u : Users.is_active_admin u = true → bool_decide (UserRow.console_role u = "admin") = true.
Proof. unfold Users.is_active_admin. by intros [? _]%andb_prop. Qed.

Lemma update_role_eq id u role now db :
  Accounts.users db !! id = Some u → role ∈ ROLES →
  ∃ db', Users.update_role id role now db = (db', Ok true)
  ∧ Accounts.users db' = <[id := u <| UserRow.console_role := role |> <| UserRow.updated_at := now |>]> (Accounts.users db).
Proof.
  intros Hu Hr. unfold Users.update_role. rewrite (bool_decide_true (role ∈ ROLES)), andb_false_r by done.
  unfold Users.update, update_row. rewrite Hu. by eexists.
Qed.

Lemma insert_entry_eq row db : ∃ db' r, insert_entry row db = (db', r) ∧ Accounts.users db' = Accounts.users db.
Proof. unfold insert_entry. case_bool_decide; by do 2 eexists. Qed.

Lemma no_third_admin db a b x ua ub :
  a ≠ b → Accounts.users db !! a = Some ua → Accounts.users db !! b = Some ub →
  Users.is_active_admin ua = true → Users.is_active_admin ub = true → Users.count_active_admins db = 2 →
  x ≠ a → x ≠ b → ¬ admin_at db x.
Proof.
  intros Hab Ha Hb Haa Hba Htwo Hxa Hxb (u & Hx & Hu). unfold Users.count_active_admins in Htwo.
  rewrite (rows_delete _ _ a ua Ha), Haa in Htwo.
  rewrite (rows_delete _ _ b ub) in Htwo by (by rewrite lookup_delete_ne). rewrite Hba in Htwo.
  assert (Hpos : (0 < length (rows Users.is_active_admin (delete b (delete a (Accounts.users db)))))%nat).
  { apply rows_nonempty. exists x, u. by rewrite !lookup_delete_ne. }
  lia.
Qed.

(** C38. The guard is a check before the update, not part of it: two admins who demote each
    other at the same time, both reading the number of admins before either update, both
    succeed, and no active admin is left. *)
Theorem last_admin_race inputs a b ua ub role (auth auth' : AuthenticatedUser.t) ctx headers db
    (Hab : a ≠ b) (Ha : Accounts.users db !! a = Some ua) (Hb : Accounts.users db !! b = Some ub)
    (Haa : Users.is_active_admin ua = true) (Hba : Users.is_active_admin ub = true)
    (Htwo : Users.count_active_admins db = 2)
    (Hauth : AuthenticatedUser.console_role auth = ConsoleRole.Admin)
    (Hauth' : AuthenticatedUser.console_role auth' = ConsoleRole.Admin)
    (Hcsrf : validate_csrf headers (is_bearer_auth headers) = Ok tt)
    (Hrole : role ∈ ["operator"; "viewer"]) :
  let demote auth id := update_user inputs auth ctx headers id (UpdateUserRequest.mk (Some role) None) in
  ∃ schedule db',
    interleave schedule [demote auth b; demote auth' a] db = (db', [Ret (Ok no_content); Ret (Ok no_content)])
    ∧ ¬ has_admin db'.
Proof.
  cbv beta zeta. rewrite !demotion_steps by done.
  exists [(0, None); (0, None); (1, None); (1, None); (0, None); (0, None); (1, None); (1, None)]%nat.
  assert (Hne : bool_decide (role = "admin") = false) by (apply bool_decide_eq_false; set_solver).
  assert (Hin : role ∈ ROLES) by (unfold ROLES; set_solver).
  unfold log, exec_ok, last_admin_guard, dbx, reads, Users.get_by_id.
  cbn -[Users.update_role Users.count_active_admins insert_entry].
  rewrite Hb. cbn -[Users.update_role Users.count_active_admins insert_entry].
  rewrite (active_admin_role ub), Hne by done. cbn -[Users.update_role Users.count_active_admins insert_entry].
  rewrite ?Htwo. cbn -[Users.update_role Users.count_active_admins insert_entry].
  rewrite Ha. cbn -[Users.update_role Users.count_active_admins insert_entry].
  rewrite (active_admin_role ua), ?Hne by done. cbn -[Users.update_role Users.count_active_admins insert_entry].
  rewrite ?Htwo. cbn -[Users.update_role Users.count_active_admins insert_entry].
  destruct (update_role_eq b ub role (to_rfc3339 (Inputs.clock inputs 0)) db Hb Hin) as (db1 & Hup1 & Hu1).
  rewrite Hup1. cbn -[Users.update_role insert_entry].
  match goal with |- context [insert_entry ?row db1] => destruct (insert_entry_eq row db1) as (db2 & r2 & Hlog2 & Hu2) end.
  rewrite Hlog2. cbn -[Users.update_role insert_entry].
  assert (Ha2 : Accounts.users db2 !! a = Some ua) by (by rewrite Hu2, Hu1, lookup_insert_ne).
  destruct (update_role_eq a ua role (to_rfc3339 (Inputs.clock inputs 0)) db2 Ha2 Hin) as (db3 & Hup3 & Hu3).
  rewrite Hup3. cbn -[insert_entry].
  match goal with |- context [insert_entry ?row db3] => destruct (insert_entry_eq row db3) as (db4 & r4 & Hlog4 & Hu4) end.
  rewrite Hlog4. cbn.
  exists db4. split; [done|]. intros [x (u & Hx & Hxa)]. rewrite Hu4, Hu3, Hu2, Hu1 in Hx.
  destruct (decide (x = a)) as [->|Hxa']; [rewrite lookup_insert_eq in Hx; injection Hx as <-|rewrite lookup_insert_ne in Hx by done].
  { unfold Users.is_active_admin in Hxa. cbn in Hxa. by rewrite Hne in Hxa. }
  destruct (decide (x = b)) as [->|Hxb']; [rewrite lookup_insert_eq in Hx; injection Hx as <-|rewrite lookup_insert_ne in Hx by done].
  { unfold Users.is_active_admin in Hxa. cbn in Hxa. by rewrite Hne in Hxa. }
  apply (no_third_admin db a b x ua ub); try done. by exists u.
Qed.
End last_admin.

(** ** Logging in *)

Section login.
Context (sha256 : list Z → list Z) `{Argon2} `{Chrono}.

Lemma limit_spec now ip username db :
  let since_ := to_rfc3339 (now - from_secs (60 * WINDOW_MINUTES)) in
  run_prog [] (check_login_rate_limit now ip username) db
  = (db, if MAX_FAILED_PER_IP <=? LoginAttempts.count_failed_by_ip ip since_ db then Err ConsoleError.RateLimited
         else if MAX_FAILED_PER_ACCOUNT <=? LoginAttempts.count_failed_by_username username since_ db
         then Err ConsoleError.AccountLocked else Ok tt).
Proof. cbn. destruct (_ <=? _); [done|]. cbn. by destruct (_ <=? _). Qed.

Lemma refuse_spec faults inputs ctx username db :
  (run_prog faults (refuse_login inputs ctx username) db).2 = Err ConsoleError.Unauthenticated.
Proof. cbn. by destruct (run_stmt _ _ db). Qed.

Lemma refused faults inputs ctx username db db' resp :
  run_prog faults (refuse_login inputs ctx username) db ≠ (db', Ok resp).
Proof. intros Heq. pose proof (refuse_spec faults inputs ctx username db) as Hr. by rewrite Heq in Hr. Qed.

(** Whether the statement of that number fails. *)
Definition fails (faults : list (option string)) (n : nat) : bool :=
  bool_decide (is_Some (default None (faults !! n))).

Lemma fails_head faults n : bool_decide (is_Some (default None (head (drop n faults)))) = fails faults n.
Proof. unfold fails. by rewrite <-(Nat.add_0_r n), <-lookup_drop, Nat.add_0_r, head_lookup. Qed.

(** The session row and the answer of a login. *)
Definition login_row (inputs : Inputs.t) (ctx : RequestContext.t) (u : UserRow.t) : UserSessionRow.t :=
  UserSessionRow.mk (Inputs.ids inputs 1) (UserRow.id u) (hash_token sha256 (Inputs.token inputs))
    (RequestContext.ip ctx) (RequestContext.user_agent ctx) (to_rfc3339 (Inputs.clock inputs 2))
    (to_rfc3339 (Inputs.clock inputs 2 + from_secs (60 * 60 * 24))).

Definition login_answer (inputs : Inputs.t) (u : UserRow.t) (resp : Response.t) : Prop :=
  Response.status resp = 200
  ∧ (∃ attrs attrs', Response.set_cookie resp = ["wcon_sid=" +:+ Inputs.token inputs +:+ String ";" attrs;
                                                 "wcon_csrf=" +:+ Inputs.csrf inputs +:+ String ";" attrs'])
  ∧ Response.body resp = Value.Object {[ "user_id" := Value.String (UserRow.id u);
      "username" := Value.String (UserRow.username u); "console_role" := Value.String (UserRow.console_role u);
      "must_change_password" := Value.Bool (UserRow.must_change_password u) ]}.

(** What a login that succeeds has found and done, whichever of its statements failed; the
    fifth is the deletion of the old sessions. *)
Lemma login_ok faults inputs ctx body db db' resp :
  run_prog faults (login sha256 inputs ctx body) db = (db', Ok resp) →
  ∃ u db0, let row := login_row inputs ctx u in
  Users.get_by_username (LoginRequest.username body) db = Some u ∧ UserRow.disabled_at u = None
  ∧ verify_password (LoginRequest.password body) (UserRow.password_hash u) = Ok true
  ∧ login_answer inputs u resp
  ∧ UserSessions.insert_session row db0 = (db0 <| Accounts.user_sessions ::= <[UserSessionRow.id row := row]> |>, Ok tt)
  ∧ Accounts.user_sessions db0
    = (if fails faults 4 then Accounts.user_sessions db
       else filter (λ kv, UserSessionRow.user_id kv.2 ≠ UserRow.id u) (Accounts.user_sessions db))
  ∧ Accounts.users db' = Accounts.users db
  ∧ Accounts.user_sessions db' = <[UserSessionRow.id row := row]> (Accounts.user_sessions db0).
Proof.
  unfold login, check_login_rate_limit. cbn [prog_bind dbx reads run_prog].
  destruct (default None (head faults)) as [e|]; cbn [run_stmt reads prog_bind result_map_err]; [done|].
  destruct (_ <=? _); [done|]. cbn [prog_bind dbx reads run_prog].
  destruct (default None (head (tail faults))) as [e|]; cbn [run_stmt reads prog_bind result_map_err]; [done|].
  destruct (_ <=? _); [done|]. cbn [prog_bind dbx reads run_prog].
  destruct (default None (head (tail (tail faults)))) as [e|]; cbn [run_stmt reads prog_bind result_map_err]; [done|].
  destruct (Users.get_by_username _ db) as [u|] eqn:Hu; [|by intros ?%refused].
  case_bool_decide as Hdis; [by intros ?%refused|]. apply eq_None_not_Some in Hdis.
  destruct (verify_password _ _) as [[]|e] eqn:Hv; cbn [negb]; [|by intros ?%refused|done].
  cbn [prog_bind record_login_attempt exec_ok dbx run_prog].
  destruct (run_stmt _ (LoginAttempts.record_attempt _ _ _ _ _) db) as [db1 r1] eqn:Hrec.
  assert (H1 : Accounts.users db1 = Accounts.users db ∧ Accounts.user_sessions db1 = Accounts.user_sessions db).
  { unfold run_stmt, LoginAttempts.record_attempt in Hrec. repeat case_match; by simplify_eq. }
  destruct (run_stmt _ (UserSessions.delete_user_sessions _) db1) as [db2 r2] eqn:Hdel.
  destruct (run_stmt _ (UserSessions.insert_session _) db2) as [db3 r3] eqn:Hins.
  destruct r3 as [[]|e]; cbn [result_map_err prog_bind log exec_ok run_prog]; [|done].
  destruct (run_stmt _ (insert_entry _) db3) as [db4 r4] eqn:Hlog. intros [= <- <-].
  change (UserSessionRow.mk _ _ _ _ _ _ _) with (login_row inputs ctx u) in Hins.
  assert (H4 : Accounts.users db4 = Accounts.users db3 ∧ Accounts.user_sessions db4 = Accounts.user_sessions db3).
  { unfold run_stmt, insert_entry in Hlog. repeat case_match; by simplify_eq. }
  destruct H1 as [Hu1 Hs1]. destruct H4 as [Hu4 Hs4].
  assert (H2 : Accounts.users db2 = Accounts.users db1 ∧ Accounts.user_sessions db2
    = (if fails faults 4 then Accounts.user_sessions db1
       else filter (λ kv, UserSessionRow.user_id kv.2 ≠ UserRow.id u) (Accounts.user_sessions db1))).
  { rewrite <-(fails_head faults 4). replace (drop 4 faults) with (tail (tail (tail (tail faults)))) by (by destruct faults as [|? [|? [|? [|? ?]]]]).
    unfold run_stmt, UserSessions.delete_user_sessions in Hdel.
    destruct (default None (head (tail (tail (tail (tail faults)))))); by injection Hdel as <- _. }
  destruct H2 as [Hu2 Hs2].
  assert (H3 : UserSessions.insert_session (login_row inputs ctx u) db2 = (db3, Ok ())).
  { unfold run_stmt in Hins. by destruct (default None (head (tail (tail (tail (tail (tail faults))))))). }
  assert (Hdb3 : db3 = db2 <| Accounts.user_sessions ::= <[UserSessionRow.id (login_row inputs ctx u) := login_row inputs ctx u]> |>).
  { unfold UserSessions.insert_session in H3. repeat case_bool_decide; cbn [negb] in H3; congruence. }
  exists u, db2. cbv zeta. rewrite Hu4, Hs4, H3, Hdb3, Hs2, Hs1. cbn. rewrite Hu2, Hu1. split_and!; try done.
  - unfold login_answer. cbn. split_and!; [done| |done]. by eexists _, _.
  - by rewrite Hs2, Hs1.
Qed.

(** The row just inserted is found by its hash. *)
Lemma find_new_session db0 db' row h now :
  UserSessions.insert_session row db0 = (db0 <| Accounts.user_sessions ::= <[UserSessionRow.id row := row]> |>, Ok tt) →
  UserSessionRow.token_hash row = h → text_gt (UserSessionRow.expires_at row) now = true →
  Accounts.user_sessions db' = <[UserSessionRow.id row := row]> (Accounts.user_sessions db0) →
  UserSessions.get_by_token_hash h now db' = Some row.
Proof.
  intros Hins Hh Hexp Hs. unfold UserSessions.insert_session in Hins.
  case_bool_decide; [done|]. case_bool_decide as Hnone; [done|]. apply eq_None_not_Some in Hnone.
  clear Hins. unfold UserSessions.get_by_token_hash. destruct (find_row _ (Accounts.user_sessions db')) as [s|] eqn:Hf.
  - apply find_row_Some in Hf as (id & Hid & [Hhs _]%andb_prop). apply bool_decide_eq_true in Hhs.
    rewrite Hs, lookup_insert in Hid. case_decide; [congruence|].
    eapply find_row_None in Hnone; [|exact Hid]. cbn in Hnone. rewrite bool_decide_true in Hnone by congruence. done.
  - eapply find_row_None in Hf; [|rewrite Hs; apply lookup_insert_eq]. cbn in Hf.
    by rewrite bool_decide_true, Hexp in Hf.
Qed.

Lemma role_parses text : text ∈ ROLES → ∃ role, ConsoleRole.from_str text = Ok role ∧ ConsoleRole.fmt role = text.
Proof.
  unfold ROLES. intros Hin. repeat (apply elem_of_cons in Hin as [->|Hin]; [eexists; split; reflexivity|]).
  by apply elem_of_nil in Hin.
Qed.

(** The sessions after a login: the new one and those that were kept. *)
Lemma login_sessions (failed : bool) uid row db db0 db' :
  UserSessions.insert_session row db0 = (db0 <| Accounts.user_sessions ::= <[UserSessionRow.id row := row]> |>, Ok tt) →
  Accounts.user_sessions db0
  = (if failed then Accounts.user_sessions db
     else filter (λ kv, UserSessionRow.user_id kv.2 ≠ uid) (Accounts.user_sessions db)) →
  Accounts.user_sessions db' = <[UserSessionRow.id row := row]> (Accounts.user_sessions db0) →
  UserSessionRow.user_id row = uid → ∀ id s, Accounts.user_sessions db' !! id = Some s ↔
    s = row ∧ id = UserSessionRow.id s
    ∨ Accounts.user_sessions db !! id = Some s ∧ (UserSessionRow.user_id s = uid → failed = true).
Proof.
  intros Hins Hs0 Hs' Huid id s. rewrite Hs', lookup_insert. unfold UserSessions.insert_session in Hins.
  case_bool_decide as Hnew; [done|]. clear Hins. apply eq_None_not_Some in Hnew.
  rewrite Hs0 in *. destruct failed; case_decide as Hid; subst; try naive_solver.
  - rewrite map_lookup_filter_None in Hnew. split; [naive_solver|]. intros [[-> _]|[Hs Hne]]; [done|].
    destruct Hnew as [Hn|Hn]; [congruence|]. destruct (Hn _ Hs). cbn. intros Heq. by specialize (Hne Heq).
  - rewrite map_lookup_filter_Some. cbn. split; [naive_solver|]. intros [[-> ->]|[Hs Hne]]; [done|].
    split; [done|]. intros Heq. by specialize (Hne Heq).
Qed.

Lemma find_by_name db id u spelling :
  tables_ok db → Accounts.users db !! id = Some u → sql_lower spelling = UserRow.username_lower u →
  Users.get_by_username spelling db = Some u.
Proof.
  intros Hok Hu Hs. unfold Users.get_by_username. destruct (find_row _ _) as [u'|] eqn:Hf.
  - apply find_row_Some in Hf as (id' & Hid' & Hn). apply bool_decide_eq_true in Hn.
    assert (id' = id) as -> by (eapply (ok_names _ Hok); [done|done|congruence]). congruence.
  - eapply find_row_None in Hf; [|exact Hu]. cbn in Hf. by rewrite bool_decide_true in Hf.
Qed.

(** Fewer rows match in a part of a table. *)
Lemma rows_filter_le {V} (p : V → bool) (P : string * V → Prop) `{∀ x, Decision (P x)} (m : gmap string V) :
  (length (rows p (filter P m)) ≤ length (rows p m))%nat.
Proof.
  induction m as [|k v m Hk IH] using map_ind; [done|].
  assert (Hlen : ∀ m' : gmap string V, m' !! k = None →
    length (rows p (<[k := v]> m')) = ((if p v then 1 else 0) + length (rows p m'))%nat).
  { intros m' Hm'. rewrite (rows_delete p _ k v) by apply lookup_insert_eq. by rewrite delete_insert_id. }
  rewrite (Hlen m) by done. rewrite map_filter_insert. case_decide.
  - rewrite Hlen; [lia|]. apply map_lookup_filter_None. left. done.
  - rewrite delete_id by done. lia.
Qed.

Lemma rows_filter_eq {V} (p : V → bool) (P : string * V → Prop) `{∀ x, Decision (P x)} (m : gmap string V) :
  (∀ k v, m !! k = Some v → p v = true → P (k, v)) → length (rows p (filter P m)) = length (rows p m).
Proof.
  induction m as [|k v m Hk IH] using map_ind; [done|]. intros HP.
  assert (Hlen : ∀ m' : gmap string V, m' !! k = None →
    length (rows p (<[k := v]> m')) = ((if p v then 1 else 0) + length (rows p m'))%nat).
  { intros m' Hm'. rewrite (rows_delete p _ k v) by apply lookup_insert_eq. by rewrite delete_insert_id. }
  assert (IH' : length (rows p (filter P m)) = length (rows p m)).
  { apply IH. intros k' v' Hk'. apply HP. rewrite lookup_insert_ne; congruence. }
  rewrite (Hlen m) by done. rewrite map_filter_insert. case_decide as Hd.
  - rewrite Hlen; [lia|]. apply map_lookup_filter_None. left. done.
  - rewrite delete_id by done. destruct (p v) eqn:Hp; [|lia]. destruct Hd. apply HP; [apply lookup_insert_eq|done].
Qed.

Lemma clear_count_ip name ip since_ db :
  LoginAttempts.count_failed_by_ip ip since_ (LoginAttempts.clear_for_username name db).1
  ≤ LoginAttempts.count_failed_by_ip ip since_ db.
Proof. unfold LoginAttempts.count_failed_by_ip, LoginAttempts.count_failed. cbn. apply inj_le, rows_filter_le. Qed.

Lemma clear_count_other name spelling since_ db :
  spelling ≠ name →
  LoginAttempts.count_failed_by_username spelling since_ (LoginAttempts.clear_for_username name db).1
  = LoginAttempts.count_failed_by_username spelling since_ db.
Proof.
  intros Hne. unfold LoginAttempts.count_failed_by_username, LoginAttempts.count_failed. cbn. f_equal.
  apply rows_filter_eq. intros k a _ Hp [Hn _]. cbn in Hn.
  apply andb_prop in Hp as [[?%bool_decide_eq_true _]%andb_prop _]. congruence.
Qed.

(** C22. A login that succeeds, whichever of its statements failed, checked the password of
    the enabled user of that name, in any case of its letters.  It sends the token of a new
    session of the user and a CSRF token as cookies.  Requests that send these back, as a
    browser does, are authenticated as that user until the session expires, or are asked
    for the password change that is due, and pass the CSRF check with the token sent.  The
    new session is the only one of the user, unless the deletion of the old ones failed,
    which the login ignores; then those stay beside it.  Sessions of others stay. *)
Theorem login_round_trip faults inputs ctx body db db' resp headers t (Hok : tables_ok db)
    (Hlogin : run_prog faults (login sha256 inputs ctx body) db = (db', Ok resp))
    (Htoken : base64url_text (Inputs.token inputs)) (Hcsrf : base64url_text (Inputs.csrf inputs))
    (Hbearer : headers !! "authorization" = None)
    (Hcookie : headers !! "cookie" = Some (cookie_header (Response.set_cookie resp)))
    (Hheader : headers !! "x-csrf-token" = Some (Inputs.csrf inputs))
    (Hfresh : text_gt (to_rfc3339 (Inputs.clock inputs 2 + from_secs (60 * 60 * 24))) (to_rfc3339 t) = true) :
  ∃ u role, Users.get_by_username (LoginRequest.username body) db = Some u ∧ UserRow.disabled_at u = None
  ∧ verify_password (LoginRequest.password body) (UserRow.password_hash u) = Ok true
  ∧ ConsoleRole.fmt role = UserRow.console_role u ∧ login_answer inputs u resp
  ∧ (∀ id s, Accounts.user_sessions db' !! id = Some s ↔
       s = login_row inputs ctx u ∧ id = UserSessionRow.id s
       ∨ Accounts.user_sessions db !! id = Some s ∧ (UserSessionRow.user_id s = UserRow.id u → fails faults 4 = true))
  ∧ validate_csrf headers (is_bearer_auth headers) = Ok tt
  ∧ (run_prog [] (Auth_from_request_parts sha256 headers t) db').2
    = if UserRow.must_change_password u then Err ConsoleError.PasswordChangeRequired
      else Ok (AuthenticatedUser.mk (UserRow.id u) (UserRow.username u) role).
Proof.
  destruct (login_ok _ _ _ _ _ _ _ Hlogin) as (u & db0 & Hu & Hdis & Hpw & Hans & Hins & Hs0 & Hu' & Hs').
  set (row := login_row inputs ctx u) in *.
  pose proof Hu as (k & Hk & _)%find_row_Some. destruct (ok_users _ Hok _ _ Hk) as (Hid & _ & Hrole). subst k.
  destruct (role_parses _ Hrole) as (role & Hparse & Hfmt). exists u, role. do 5 (split; [done|]).
  pose proof Hans as (_ & (attrs & attrs' & Hset) & _). rewrite Hset in Hcookie.
  destruct (login_cookies_back headers _ _ attrs attrs' Htoken Hcsrf Hcookie) as [Hsid Hcs].
  split_and!.
  - by apply login_sessions with db0.
  - unfold validate_csrf, is_bearer_auth. rewrite Hbearer, Hcs, Hheader. by rewrite bool_decide_true.
  - assert (Hfind : UserSessions.get_by_token_hash (hash_token sha256 (Inputs.token inputs)) (to_rfc3339 t) db' = Some row)
      by (by apply (find_new_session db0)).
    unfold Auth_from_request_parts. rewrite Hbearer, Hsid.
    unfold authenticate_cookie, authenticate_cookie_allow_pending_change, load_identity.
    cbn [prog_bind dbx reads run_prog run_stmt head default tail result_map_err mbind option_bind].
    rewrite Hfind. cbn [ok_or prog_bind dbx reads run_prog run_stmt head default tail result_map_err].
    unfold Users.get_by_id. rewrite Hu'. cbn [UserSessionRow.user_id row login_row]. rewrite Hk.
    cbn [ok_or prog_bind]. rewrite Hdis. cbn -[ConsoleRole.from_str]. rewrite Hparse. cbn. rewrite Hu', Hk. cbn.
    by destruct (UserRow.must_change_password u).
Qed.

(** Failed logins are counted by the name as it was typed, users are found whatever
    its letter case, and unlocking clears the failures under the name as it is stored:
    while an account is locked for one spelling it is open for another, and an unlock
    that succeeds leaves it locked for every spelling but the stored one. *)
Theorem lockout_by_spelling auth headers id u spelling now ip db (Hok : tables_ok db)
    (Hu : Accounts.users db !! id = Some u) (Hsame : sql_lower spelling = UserRow.username_lower u)
    (Hother : spelling ≠ UserRow.username u)
    (Hadmin : AuthenticatedUser.console_role auth = ConsoleRole.Admin)
    (Hcsrf : validate_csrf headers (is_bearer_auth headers) = Ok tt)
    (since_ := to_rfc3339 (now - from_secs (60 * WINDOW_MINUTES)))
    (Hip : LoginAttempts.count_failed_by_ip ip since_ db < MAX_FAILED_PER_IP)
    (Hlocked : MAX_FAILED_PER_ACCOUNT ≤ LoginAttempts.count_failed_by_username spelling since_ db)
    (Hopen : LoginAttempts.count_failed_by_username (UserRow.username u) since_ db < MAX_FAILED_PER_ACCOUNT) :
  let unlocked := run_prog [] (unlock_user auth headers id) db in
  let db' := unlocked.1 in
  unlocked.2 = Ok no_content
  ∧ Users.get_by_username spelling db' = Some u ∧ Users.get_by_username (UserRow.username u) db' = Some u
  ∧ (run_prog [] (check_login_rate_limit now ip spelling) db).2 = Err ConsoleError.AccountLocked
  ∧ (run_prog [] (check_login_rate_limit now ip (UserRow.username u)) db).2 = Ok tt
  ∧ (run_prog [] (check_login_rate_limit now ip spelling) db').2 = Err ConsoleError.AccountLocked.
Proof.
  unfold unlock_user, authorized, authorize. rewrite Hcsrf, Hadmin.
  cbn [result_map_err is_allowed prog_bind dbx reads run_prog run_stmt head default tail exec_ok].
  unfold Users.get_by_id. rewrite Hu. cbn [ok_or prog_bind run_prog run_stmt head default tail].
  set (db' := (LoginAttempts.clear_for_username (UserRow.username u) db).1).
  change (LoginAttempts.clear_for_username (UserRow.username u) db) with (db', Ok (E := string) tt). cbn [fst snd].
  split; [done|]. split; [by apply (find_by_name db id)|].
  split; [apply (find_by_name db id); try done; symmetry; by apply (ok_users _ Hok id u)|].
  rewrite !limit_spec. fold since_. cbn [snd].
  destruct (Z.leb_spec MAX_FAILED_PER_IP (LoginAttempts.count_failed_by_ip ip since_ db)); [lia|].
  destruct (Z.leb_spec MAX_FAILED_PER_ACCOUNT (LoginAttempts.count_failed_by_username spelling since_ db)); [|lia].
  destruct (Z.leb_spec MAX_FAILED_PER_ACCOUNT (LoginAttempts.count_failed_by_username (UserRow.username u) since_ db)); [lia|].
  split; [done|]. split; [done|].
  pose proof (clear_count_ip (UserRow.username u) ip since_ db) as Hcip.
  pose proof (clear_count_other (UserRow.username u) spelling since_ db Hother) as Hcn. fold db' in Hcip, Hcn.
  destruct (Z.leb_spec MAX_FAILED_PER_IP (LoginAttempts.count_failed_by_ip ip since_ db')); [lia|].
  destruct (Z.leb_spec MAX_FAILED_PER_ACCOUNT (LoginAttempts.count_failed_by_username spelling since_ db')); [done|lia].
Qed.
End login.

Section change.
Context `{Argon2} `{Chrono}.

(** A password change that succeeds checked the current password and the length of the
    new one, and replaces the hash and clears the obligation to change it, in that row
    only.  It ends no session: the cookies and tokens of the user stay as they were. *)
Theorem change_password_effect inputs auth ctx headers body db db' resp
    (Hrun : run_prog [] (change_password inputs auth ctx headers body) db = (db', Ok resp)) :
  let uid := AuthenticatedUser.user_id auth in
  ∃ u hash, Accounts.users db !! uid = Some u
  ∧ verify_password (ChangePasswordRequest.current_password body) (UserRow.password_hash u) = Ok true
  ∧ 12 ≤ str_len (ChangePasswordRequest.new_password body)
  ∧ hash_password (ChangePasswordRequest.new_password body) (Inputs.salt inputs) = Ok hash
  ∧ Accounts.users db' = <[uid := u <| UserRow.password_hash := hash |> <| UserRow.must_change_password := false |>
                                    <| UserRow.updated_at := to_rfc3339 (Inputs.clock inputs 0) |>]> (Accounts.users db)
  ∧ Accounts.user_sessions db' = Accounts.user_sessions db ∧ Accounts.api_tokens db' = Accounts.api_tokens db.
Proof.
  intros uid. unfold change_password in Hrun. destruct (validate_csrf _ _); [|done].
  cbn [prog_bind dbx reads run_prog run_stmt head default tail result_map_err] in Hrun.
  unfold Users.get_by_id in Hrun. fold uid in Hrun. destruct (Accounts.users db !! uid) as [u|] eqn:Hu; [|done].
  cbn [ok_or] in Hrun. destruct (verify_password _ _) as [[]|] eqn:Hv; cbn [negb] in Hrun; [|done..].
  unfold validate_password_strength in Hrun. destruct (Z.ltb_spec (str_len (ChangePasswordRequest.new_password body)) 12); [done|].
  destruct (hash_password _ _) as [hash|] eqn:Hh; [|done].
  cbn [prog_bind dbx run_prog run_stmt head default tail log exec_ok] in Hrun.
  unfold Users.update_password, Users.update, update_row in Hrun. rewrite Hu in Hrun.
  cbn [prog_bind result_map_err run_prog run_stmt head default tail] in Hrun. unfold insert_entry in Hrun.
  exists u, hash. do 4 (split; [done|]).
  case_bool_decide; injection Hrun as <- _; done.
Qed.
End change.

(** ** A console with two admins *)

Module Sample.
#[local] Instance argon2 : Argon2 := {|
  hash_with_salt p _ := Ok ("$" +:+ p);
  verify_phc p h := Ok (bool_decide (h = "$" +:+ p));
|}.
#[local] Instance chrono : Chrono := {|
  to_rfc3339 t := pretty t;
  add_days t d := Some (t + d);
|}.

Definition digest (bytes : list Z) : list Z := bytes.
Definition inputs : Inputs.t := Inputs.mk (λ _, 2000000000000000000) (λ n, "id" +:+ pretty n) "tok" "csrf" [1].
Definition ctx : RequestContext.t := RequestContext.mk "127.0.0.1" "browser".
Definition late : string := "9".

Definition empty : Accounts.t := Accounts.mk ∅ ∅ ∅ ∅ [].
Definition users : Accounts.t :=
  (Users.insert_user "u2" "Bob" "Bob" "$secret" "admin" false "0"
    (Users.insert_user "u1" "Ann" "Ann" "$secret" "admin" false "0" empty).1).1.
Definition session : UserSessionRow.t := UserSessionRow.mk "s1" "u1" (hash_token digest "cookie") "ip" "ua" "0" late.
Definition token : ApiTokenRow.t := ApiTokenRow.mk "k1" "u2" "ci" (hash_token digest "wcon_t_x") "0" None None None.
Definition tables : Accounts.t :=
  (ApiTokens.insert_token token (UserSessions.insert_session session users).1).1.
Definition revoked : Accounts.t := (ApiTokens.revoke_token "k1" "1" tables).1.

(** Five failures under another spelling of Ann's name. *)
Definition locked : Accounts.t :=
  fold_left (λ db n, (LoginAttempts.record_attempt ("a" +:+ pretty n) "ip" "ANN" late false db).1) (seq 0 5) tables.

Lemma token_text : base64url_text (Inputs.token inputs).
Proof. repeat constructor; unfold base64url; vm_compute; intuition congruence. Qed.
Lemma csrf_text : base64url_text (Inputs.csrf inputs).
Proof. repeat constructor; unfold base64url; vm_compute; intuition congruence. Qed.

Lemma tables_ok_sample : tables_ok tables.
Proof.
  apply insert_token_ok, insert_session_ok, insert_user_ok, insert_user_ok.
  split; cbn; try done; intros *; rewrite ?lookup_empty; done.
Qed.
End Sample.

#[local] Existing Instances Sample.argon2 Sample.chrono.

(** The tables stay well formed under two requests at once, one of whose statements
    fails. *)
Lemma tables_stay_ok_witness :
  let r := Request.mk {[ "authorization" := "Bearer wcon_t_x" ]} None 0 Sample.inputs in
  let requests := [(r, CreateUser (CreateUserRequest.mk "Cid" "Cid" "long enough password" "viewer"));
                   (r, RevokeToken "k1")] in
  tables_ok (interleave [(0, None); (1, None); (0, None); (1, Some "disk full"); (1, None); (0, None); (0, None)]%nat
    ((λ re, serve Sample.digest re.1 re.2) <$> requests) Sample.tables).1.
Proof. intros r requests. apply (tables_stay_ok), Sample.tables_ok_sample. Defined.

(** Ann's cookie lets Ann in. *)
Lemma authentication_exact_witness :
  (run_prog [] (Auth_from_request_parts Sample.digest {[ "cookie" := "a=b; wcon_sid=cookie" ]} 1) Sample.tables).2
  = Ok (AuthenticatedUser.mk "u1" "Ann" ConsoleRole.Admin).
Proof.
  apply (authentication_exact Sample.digest Sample.tables _ 1 _ Sample.tables_ok_sample).
  change (∃ cookie, extract_cookie {[ "cookie" := "a=b; wcon_sid=cookie" ]} "wcon_sid" = Some cookie
    ∧ cookie_admits Sample.digest Sample.tables 1 cookie (AuthenticatedUser.mk "u1" "Ann" ConsoleRole.Admin)).
  exists "cookie". split; [reflexivity|].
  exists "s1", Sample.session, (UserRow.mk "u1" "Ann" "ann" "Ann" "$secret" "admin" false None "0" "0").
  repeat split; reflexivity.
Defined.

Lemma revocation_final_witness :
  let r := Request.mk {[ "authorization" := "Bearer wcon_t_x" ]} None 0 Sample.inputs in
  (run_prog [] (authenticate_bearer Sample.digest 5 "wcon_t_x")
     (interleave [(0, None)]%nat [serve Sample.digest r Logout] Sample.revoked).1).2
  ≠ Ok (AuthenticatedUser.mk "u2" "Bob" ConsoleRole.Admin).
Proof.
  intros r.
  apply (revocation_final Sample.digest [(r, Logout)] [(0, None)]%nat
           Sample.revoked "k1" (Sample.token <| ApiTokenRow.revoked_at := Some "1" |>)).
  - apply update_token_ok; [done|]. apply Sample.tables_ok_sample.
  - reflexivity.
  - by eexists.
  - reflexivity.
Defined.

(** Ann demotes Bob and Bob then Ann, one after the other. *)
Lemma last_admin_kept_witness :
  let request h id := (Request.mk h None 0 Sample.inputs, UpdateUser id (UpdateUserRequest.mk (Some "viewer") None), []) in
  has_admin (serve_all Sample.digest
    [request {[ "authorization" := "Bearer wcon_t_x" ]} "u1"; request {[ "authorization" := "Bearer wcon_t_x" ]} "u2"]
    Sample.tables).
Proof.
  intros request. apply (last_admin_kept Sample.digest).
  exists "u1". eexists. split; reflexivity.
Defined.

Lemma last_admin_race_witness :
  let headers : HeaderMap := {[ "authorization" := "Bearer wcon_t_x" ]} in
  let demote auth id :=
    update_user Sample.inputs auth Sample.ctx headers id (UpdateUserRequest.mk (Some "viewer") None) in
  ∃ schedule db',
    interleave schedule [demote (AuthenticatedUser.mk "u1" "Ann" ConsoleRole.Admin) "u2";
                         demote (AuthenticatedUser.mk "u2" "Bob" ConsoleRole.Admin) "u1"] Sample.tables
    = (db', [Ret (Ok no_content); Ret (Ok no_content)]) ∧ ¬ has_admin db'.
Proof.
  intros headers. eapply (last_admin_race Sample.inputs "u1" "u2" _ _ "viewer"); try reflexivity; [done|set_solver].
Defined.

(** Ann logs in while the old sessions cannot be deleted, and is let in with the new
    cookie. *)
Lemma login_round_trip_witness :
  let faults := [None; None; None; None; Some "database is locked"] in
  let headers := {[ "cookie" := "wcon_sid=tok; wcon_csrf=csrf"; "x-csrf-token" := "csrf" ]} in
  ∃ db' resp,
  run_prog faults (login Sample.digest Sample.inputs Sample.ctx (LoginRequest.mk "ANN" "secret")) Sample.tables
  = (db', Ok resp) ∧ size (Accounts.user_sessions db') = 2%nat
  ∧ (run_prog [] (Auth_from_request_parts Sample.digest headers 2000000000000000001) db').2
    = Ok (AuthenticatedUser.mk "u1" "Ann" ConsoleRole.Admin).
Proof.
  intros faults headers. eexists _, _. split; [reflexivity|]. split; [reflexivity|].
  epose proof (login_round_trip Sample.digest faults Sample.inputs Sample.ctx (LoginRequest.mk "ANN" "secret")
                 Sample.tables _ _ headers 2000000000000000001 Sample.tables_ok_sample eq_refl
                 Sample.token_text Sample.csrf_text eq_refl eq_refl eq_refl eq_refl)
    as (u & role & Hu & _ & _ & Hrole & _ & _ & _ & Hauth).
  rewrite Hauth. vm_compute in Hu. injection Hu as <-. by destruct role.
Defined.

Lemma lockout_by_spelling_witness :
  let db' := (run_prog [] (unlock_user (AuthenticatedUser.mk "u2" "Bob" ConsoleRole.Admin)
                             {[ "authorization" := "Bearer wcon_t_x" ]} "u1") Sample.locked).1 in
  (run_prog [] (check_login_rate_limit 0 "ip" "Ann") Sample.locked).2 = Ok tt
  ∧ (run_prog [] (check_login_rate_limit 0 "ip" "ANN") db').2 = Err ConsoleError.AccountLocked.
Proof.
  assert (Hok : tables_ok Sample.locked).
  { unfold Sample.locked. apply fold_left_inv; [|apply Sample.tables_ok_sample].
    intros db n _. apply (rs_record _ respected_ok). }
  pose proof (lockout_by_spelling (AuthenticatedUser.mk "u2" "Bob" ConsoleRole.Admin) {[ "authorization" := "Bearer wcon_t_x" ]}
    "u1" (UserRow.mk "u1" "Ann" "ann" "Ann" "$secret" "admin" false None "0" "0") "ANN" 0 "ip" Sample.locked Hok) as Hl. cbv zeta in Hl.
  do 8 (specialize (Hl ltac:(vm_compute; done))).
  destruct Hl as (_ & _ & _ & _ & Hopen & Hlocked).
  exact (conj Hopen Hlocked).
Defined.

Lemma change_password_effect_witness :
  ∃ db' resp,
  run_prog [] (change_password Sample.inputs (AuthenticatedUser.mk "u1" "Ann" ConsoleRole.Admin) Sample.ctx
    {[ "authorization" := "Bearer wcon_t_x" ]} (ChangePasswordRequest.mk "secret" "a longer secret")) Sample.tables = (db', Ok resp)
  ∧ Accounts.user_sessions db' = Accounts.user_sessions Sample.tables.
Proof.
  eexists _, _. split; [reflexivity|].
  epose proof (change_password_effect Sample.inputs (AuthenticatedUser.mk "u1" "Ann" ConsoleRole.Admin) Sample.ctx
    {[ "authorization" := "Bearer wcon_t_x" ]} (ChangePasswordRequest.mk "secret" "a longer secret") Sample.tables _ _ eq_refl)
    as (_ & _ & _ & _ & _ & _ & _ & Hs & _). exact Hs.
Defined.
