(* ===== verification/Catalog.v ===== *)
(** * The catalog of roles, tools and verticals (wacp-taxonomy: vertical.rs;
    console-core: taxonomy.rs, taxonomy_builder.rs)

    The index the console builds from the resolved taxonomy of the protocol and the
    manifests of the verticals, and serves from memory. *)

From S2P Require Import Prelude Types Std Float SerdeJson Taxonomy.

(** ** vertical.rs: the manifest of a vertical *)

Module FieldType.
Inductive t : Set := String | Number | Boolean | Enum.
End FieldType.

Module ContextField.
Record t : Type := mk {
  field_type : FieldType.t; required : bool; description : string;
  enum_values : option (list string); default : option Value.t;
}.
End ContextField.

Module ToolPolicyKind.
Inductive t : Set := RequiresCheckpoint | RequiresGate | BudgetLimited | ClassificationGated.
End ToolPolicyKind.

Module ToolPolicy.
Record t : Type := mk {
  kind : ToolPolicyKind.t; description : string; checkpoint_type : option string;
  matching_field : option string; expires_after_ms : option Z; gate_condition : option string;
  budget_field : option string; blocked_classifications : option (list string); override_flag : option string;
}.
End ToolPolicy.

Module CheckpointField.
Record t : Type := mk {
  name : string; field_type : FieldType.t; description : string; enum_values : option (list string);
}.
End CheckpointField.

Module CheckpointSchema.
Record t : Type := mk { description : string; fields : list CheckpointField.t }.
End CheckpointSchema.

Module QualityCriterion.
Record t : Type := mk { id : string; name : string; description : string; weight : spec_float }.
End QualityCriterion.

Module TaskTypeDescriptor.
Record t : Type := mk {
  id : string; name : string; description : string; workflow_id : string; keywords : list string;
}.
End TaskTypeDescriptor.

Module WorkflowSummary.
Record t : Type := mk {
  id : string; name : string; description : string; stage_count : Z; gated_stage_count : Z;
}.
End WorkflowSummary.

Module ProfileSummary.
Record t : Type := mk { role_id : string; autonomy : string }.
End ProfileSummary.

Module ToolSummary.
Record t : Type := mk { name : string; description : string }.
End ToolSummary.

Module VerticalManifest.
Record t : Type := mk {
  id : string; name : string; defining_constraint : string;
  context_schema : gmap string ContextField.t;
  tool_policies : gmap string ToolPolicy.t;
  checkpoint_types : gmap string CheckpointSchema.t;
  quality_criteria : list QualityCriterion.t;
  task_types : list TaskTypeDescriptor.t;
  workflows : list WorkflowSummary.t;
  profiles : list ProfileSummary.t;
  tools : list ToolSummary.t;
}.
End VerticalManifest.

(** *** Serialize

    [fields] is a struct: the fields whose value is [None] are skipped. *)

Definition fields (l : list (string * option Value.t)) : Value.t :=
  Value.Object (list_to_map (omap (λ '(k, v), (k,.) <$> v) l)).

Definition text (s : string) : option Value.t := Some (Value.String s).
Definition texts (l : list string) : Value.t := Value.of_strings l.

Definition field_type_value (ty : FieldType.t) : Value.t :=
  Value.String match ty with
               | FieldType.String => "string" | FieldType.Number => "number"
               | FieldType.Boolean => "boolean" | FieldType.Enum => "enum"
               end.

Definition context_field_value (f : ContextField.t) : Value.t :=
  fields [("type", Some (field_type_value (ContextField.field_type f)));
          ("required", Some (Value.Bool (ContextField.required f)));
          ("description", text (ContextField.description f));
          ("enum_values", texts <$> ContextField.enum_values f);
          ("default", ContextField.default f)].

Definition policy_kind_value (k : ToolPolicyKind.t) : Value.t :=
  Value.String match k with
               | ToolPolicyKind.RequiresCheckpoint => "requires_checkpoint"
               | ToolPolicyKind.RequiresGate => "requires_gate"
               | ToolPolicyKind.BudgetLimited => "budget_limited"
               | ToolPolicyKind.ClassificationGated => "classification_gated"
               end.

Definition tool_policy_value (p : ToolPolicy.t) : Value.t :=
  fields [("kind", Some (policy_kind_value (ToolPolicy.kind p)));
          ("description", text (ToolPolicy.description p));
          ("checkpoint_type", Value.String <$> ToolPolicy.checkpoint_type p);
          ("matching_field", Value.String <$> ToolPolicy.matching_field p);
          ("expires_after_ms", Value.of_uint <$> ToolPolicy.expires_after_ms p);
          ("gate_condition", Value.String <$> ToolPolicy.gate_condition p);
          ("budget_field", Value.String <$> ToolPolicy.budget_field p);
          ("blocked_classifications", texts <$> ToolPolicy.blocked_classifications p);
          ("override_flag", Value.String <$> ToolPolicy.override_flag p)].

Definition checkpoint_field_value (f : CheckpointField.t) : Value.t :=
  fields [("name", text (CheckpointField.name f));
          ("type", Some (field_type_value (CheckpointField.field_type f)));
          ("description", text (CheckpointField.description f));
          ("enum_values", texts <$> CheckpointField.enum_values f)].

Definition checkpoint_schema_value (s : CheckpointSchema.t) : Value.t :=
  fields [("description", text (CheckpointSchema.description s));
          ("fields", Some (Value.Array (checkpoint_field_value <$> CheckpointSchema.fields s)))].

Definition quality_criterion_value (q : QualityCriterion.t) : Value.t :=
  fields [("id", text (QualityCriterion.id q)); ("name", text (QualityCriterion.name q));
          ("description", text (QualityCriterion.description q));
          ("weight", Some (Value.of_f64 (QualityCriterion.weight q)))].

Definition task_type_value (t : TaskTypeDescriptor.t) : Value.t :=
  fields [("id", text (TaskTypeDescriptor.id t)); ("name", text (TaskTypeDescriptor.name t));
          ("description", text (TaskTypeDescriptor.description t));
          ("workflow_id", text (TaskTypeDescriptor.workflow_id t));
          ("keywords", Some (texts (TaskTypeDescriptor.keywords t)))].

Definition workflow_value (w : WorkflowSummary.t) : Value.t :=
  fields [("id", text (WorkflowSummary.id w)); ("name", text (WorkflowSummary.name w));
          ("description", text (WorkflowSummary.description w));
          ("stage_count", Some (Value.of_uint (WorkflowSummary.stage_count w)));
          ("gated_stage_count", Some (Value.of_uint (WorkflowSummary.gated_stage_count w)))].

Definition profile_summary_value (p : ProfileSummary.t) : Value.t :=
  fields [("role_id", text (ProfileSummary.role_id p)); ("autonomy", text (ProfileSummary.autonomy p))].

Definition tool_summary_value (t : ToolSummary.t) : Value.t :=
  fields [("name", text (ToolSummary.name t)); ("description", text (ToolSummary.description t))].

Definition manifest_value (m : VerticalManifest.t) : Value.t :=
  fields [("id", text (VerticalManifest.id m)); ("name", text (VerticalManifest.name m));
          ("defining_constraint", text (VerticalManifest.defining_constraint m));
          ("context_schema", Some (Value.Object (context_field_value <$> VerticalManifest.context_schema m)));
          ("tool_policies", Some (Value.Object (tool_policy_value <$> VerticalManifest.tool_policies m)));
          ("checkpoint_types", Some (Value.Object (checkpoint_schema_value <$> VerticalManifest.checkpoint_types m)));
          ("quality_criteria", Some (Value.Array (quality_criterion_value <$> VerticalManifest.quality_criteria m)));
          ("task_types", Some (Value.Array (task_type_value <$> VerticalManifest.task_types m)));
          ("workflows", Some (Value.Array (workflow_value <$> VerticalManifest.workflows m)));
          ("profiles", Some (Value.Array (profile_summary_value <$> VerticalManifest.profiles m)));
          ("tools", Some (Value.Array (tool_summary_value <$> VerticalManifest.tools m)))].

(** ** taxonomy.rs: the index *)

Module RoleEntry.
Record t : Type := mk {
  name : string; base_role : string; extends : option string; capabilities_added : list string;
  capabilities_removed : list string; tools : list string; vertical : option string;
}.
End RoleEntry.

Module ToolEntry.
Record t : Type := mk {
  name : string; description : string; vertical : option string; roles : list string; policy : option ToolPolicy.t;
}.
End ToolEntry.

Module EnvelopeTypeEntry.
Record t : Type := mk {
  name : string; description : string; sender_roles : list string; receiver_roles : list string;
}.
End EnvelopeTypeEntry.

Module CheckpointTypeEntry.
Record t : Type := mk { name : string; description : string; allowed_roles : list string }.
End CheckpointTypeEntry.

Module VerticalCheckpointType.
Record t : Type := mk { description : string; fields : list CheckpointField.t; required_by : list string }.
#[global] Instance eta_t : Settable t := λ r, mk (description r) (fields r) (required_by r).
End VerticalCheckpointType.

Module VerticalEntry.
Record t : Type := mk {
  id : string; name : string; load_error : option string; defining_constraint : string; roles : list string;
  context_schema : gmap string ContextField.t; tool_policies : gmap string ToolPolicy.t;
  checkpoint_types : gmap string VerticalCheckpointType.t;
  quality_criteria : list QualityCriterion.t; task_types : list TaskTypeDescriptor.t;
  workflows : list WorkflowSummary.t; default_profiles : list ProfileSummary.t; tools : list ToolSummary.t;
  raw_manifest : Value.t;
}.
End VerticalEntry.

Module TaxonomyIndex.
Record t : Type := mk {
  roles : gmap string RoleEntry.t;
  tools : gmap string ToolEntry.t;
  envelope_types : gmap string EnvelopeTypeEntry.t;
  checkpoint_types : gmap string CheckpointTypeEntry.t;
  verticals : gmap string VerticalEntry.t;
}.
#[global] Instance eta_t : Settable t := λ r,
  mk (roles r) (tools r) (envelope_types r) (checkpoint_types r) (verticals r).

Definition default : t := mk ∅ ∅ ∅ ∅ ∅.

Definition get_role (self : t) (id : string) : option RoleEntry.t := roles self !! id.
Definition get_tool (self : t) (name : string) : option ToolEntry.t := tools self !! name.
Definition get_vertical (self : t) (id : string) : option VerticalEntry.t := verticals self !! id.

(** [is_none_or]: a filter that is absent passes. *)
Definition none_or {A} (o : option A) (p : A → bool) : bool := match o with Some a => p a | None => true end.

(** [sort_by_key], which is stable. *)
Definition by_key {V} (key : V → string) (a b : V) : Prop := text_le (key a) (key b).
#[global] Instance by_key_dec {V} (key : V → string) : RelDecision (by_key key).
Proof. intros a b. unfold by_key. apply _. Defined.

Definition list_roles `{HashOrder} (self : t) (base_role vertical : option string) : list RoleEntry.t :=
  merge_sort (by_key RoleEntry.name)
    (filter (λ r, Is_true (none_or base_role (λ br, bool_decide (RoleEntry.base_role r = br))
                           && none_or vertical (λ v, bool_decide (RoleEntry.vertical r = Some v))))
       (values (roles self))).

Definition list_tools `{HashOrder} (self : t) (vertical : option string) (has_policy : option bool) :
    list ToolEntry.t :=
  merge_sort (by_key ToolEntry.name)
    (filter (λ t, Is_true (none_or vertical (λ v, bool_decide (ToolEntry.vertical t = Some v))
                           && none_or has_policy (λ hp, Bool.eqb hp (bool_decide (is_Some (ToolEntry.policy t))))))
       (values (tools self))).

Definition list_verticals `{HashOrder} (self : t) : list VerticalEntry.t :=
  merge_sort (by_key VerticalEntry.id) (values (verticals self)).
Definition list_envelope_types `{HashOrder} (self : t) : list EnvelopeTypeEntry.t :=
  merge_sort (by_key EnvelopeTypeEntry.name) (values (envelope_types self)).
Definition list_checkpoint_types `{HashOrder} (self : t) : list CheckpointTypeEntry.t :=
  merge_sort (by_key CheckpointTypeEntry.name) (values (checkpoint_types self)).
End TaxonomyIndex.

(** ** taxonomy_builder.rs *)

Module BuildResult.
Record t : Type := mk { index : TaxonomyIndex.t; warnings : list string }.
End BuildResult.

Definition base_role_entries : list (string * RoleEntry.t) :=
  [("coordinator", RoleEntry.mk "coordinator" "coordinator" None [] [] [] None);
   ("worker", RoleEntry.mk "worker" "worker" None ["send: query → coordinator"; "create: artifact"] [] [] None);
   ("observer", RoleEntry.mk "observer" "observer" None ["create: observation"] [] [] None)].

Definition base_envelope_entries : list (string * EnvelopeTypeEntry.t) :=
  (λ '(name, desc, senders, receivers), (name, EnvelopeTypeEntry.mk name desc senders receivers)) <$>
  [("directive", "Task assignment from coordinator to worker", ["coordinator"], ["worker"]);
   ("feedback", "Status report from worker to coordinator", ["worker"], ["coordinator"]);
   ("query", "Information request from worker to coordinator", ["worker"], ["coordinator"])].

Definition base_checkpoint_entries : list (string * CheckpointTypeEntry.t) :=
  (λ '(name, desc, roles), (name, CheckpointTypeEntry.mk name desc roles)) <$>
  [("artifact", "Work product created by a worker", ["worker"]);
   ("observation", "Monitoring record created by an observer", ["observer"])].

Definition insert_all {V} (l : list (string * V)) (m : gmap string V) : gmap string V :=
  fold_left (λ m '(k, v), <[k := v]> m) l m.

(** [entry(k).or_insert_with(..)] for each pair. *)
Definition or_insert_all {V} (l : list (string * V)) (m : gmap string V) : gmap string V :=
  fold_left (λ m '(k, v), match m !! k with Some _ => m | None => <[k := v]> m end) l m.

Definition insert_base_roles (index : TaxonomyIndex.t) : TaxonomyIndex.t :=
  index <| TaxonomyIndex.roles ::= insert_all base_role_entries |>
        <| TaxonomyIndex.envelope_types ::= insert_all base_envelope_entries |>
        <| TaxonomyIndex.checkpoint_types ::= insert_all base_checkpoint_entries |>.

Definition base_role_str (b : BaseRole.t) : string :=
  match b with
  | BaseRole.Coordinator => "coordinator" | BaseRole.Worker => "worker" | BaseRole.Observer => "observer"
  end.

Definition push_new (x : string) (l : list string) : list string := if bool_decide (x ∈ l) then l else l ++ [x].

(** The senders and the receivers of each envelope type. *)
Definition group_permissions (perms : list EnvelopePermissionRow) : gmap string (list string * list string) :=
  fold_left (λ m perm,
    let entry := default ([], []) (m !! er_envelope_type perm) in
    <[er_envelope_type perm := (push_new (er_sender_role perm) entry.1, push_new (er_receiver_role perm) entry.2)]> m)
    perms ∅.

Section builder.
Context `{HashOrder}.

Definition insert_protocol_taxonomy (index : TaxonomyIndex.t) (taxonomy : Taxonomy.t) : TaxonomyIndex.t :=
  index
    <| TaxonomyIndex.roles ::= insert_all
         ((λ '(name, resolved),
             (name, RoleEntry.mk name (base_role_str (rr_base resolved)) (Some (base_role_str (rr_base resolved)))
                      (set_iter (rr_capabilities resolved)) [] [] None))
          <$> hash_iter (Taxonomy.resolved_roles taxonomy)) |>
    <| TaxonomyIndex.envelope_types ::= or_insert_all
         ((λ '(name, (senders, receivers)), (name, EnvelopeTypeEntry.mk name "" senders receivers))
          <$> hash_iter (group_permissions (Taxonomy.envelope_permissions taxonomy))) |>
    <| TaxonomyIndex.checkpoint_types ::= or_insert_all
         ((λ '(name, permitted), (name, CheckpointTypeEntry.mk name "" (set_iter permitted)))
          <$> hash_iter (Taxonomy.checkpoint_types taxonomy)) |>.

(** The cross links of the tool policies, in the order of the map: the checkpoint types
    with the tools that require them, and the warnings. *)
Definition cross_link (vertical_id : string) (policies : list (string * ToolPolicy.t))
    (cps : gmap string VerticalCheckpointType.t) (warnings : list string) :
    gmap string VerticalCheckpointType.t * list string :=
  fold_left (λ '(cps, warnings) '(tool_name, policy),
    match ToolPolicy.kind policy, ToolPolicy.checkpoint_type policy with
    | ToolPolicyKind.RequiresCheckpoint, Some cp_type =>
        match cps !! cp_type with
        | Some cp => (<[cp_type := cp <| VerticalCheckpointType.required_by ::= λ l, l ++ [tool_name] |>]> cps, warnings)
        | None =>
            (cps, warnings ++ ["vertical '" +:+ vertical_id +:+ "': tool '" +:+ tool_name
                               +:+ "' references checkpoint type '" +:+ cp_type
                               +:+ "' not declared in this vertical's checkpoint_types"])
        end
    | _, _ => (cps, warnings)
    end) policies (cps, warnings).

Definition vertical_role_ids (manifest : VerticalManifest.t) : list string :=
  dedup (sort_texts (ProfileSummary.role_id <$> VerticalManifest.profiles manifest)).

Definition insert_vertical (index : TaxonomyIndex.t) (manifest : VerticalManifest.t) (warnings : list string) :
    TaxonomyIndex.t * list string :=
  let vertical_id := VerticalManifest.id manifest in
  let qualified_roles := (λ r, vertical_id +:+ ":" +:+ r) <$> vertical_role_ids manifest in
  let all_tool_names := ToolSummary.name <$> VerticalManifest.tools manifest in
  let role_entries :=
    (λ q, (q, RoleEntry.mk q "worker" (Some "worker") [] [] all_tool_names (Some vertical_id))) <$> qualified_roles in
  let tool_entries :=
    (λ tool, (ToolSummary.name tool,
       ToolEntry.mk (ToolSummary.name tool) (ToolSummary.description tool) (Some vertical_id) qualified_roles
         (VerticalManifest.tool_policies manifest !! ToolSummary.name tool))) <$> VerticalManifest.tools manifest in
  let cps :=
    (λ s, VerticalCheckpointType.mk (CheckpointSchema.description s) (CheckpointSchema.fields s) [])
    <$> VerticalManifest.checkpoint_types manifest in
  let '(cps, warnings) :=
    cross_link vertical_id (hash_iter (VerticalManifest.tool_policies manifest)) cps warnings in
  let cps := set VerticalCheckpointType.required_by sort_texts <$> cps in
  let entry := VerticalEntry.mk vertical_id (VerticalManifest.name manifest) None
    (VerticalManifest.defining_constraint manifest) qualified_roles (VerticalManifest.context_schema manifest)
    (VerticalManifest.tool_policies manifest) cps (VerticalManifest.quality_criteria manifest)
    (VerticalManifest.task_types manifest) (VerticalManifest.workflows manifest) (VerticalManifest.profiles manifest)
    (VerticalManifest.tools manifest) (manifest_value manifest) in
  (index <| TaxonomyIndex.roles ::= insert_all role_entries |>
         <| TaxonomyIndex.tools ::= insert_all tool_entries |>
         <| TaxonomyIndex.verticals ::= <[vertical_id := entry]> |>, warnings).

Definition failed_entry (id error : string) : VerticalEntry.t :=
  VerticalEntry.mk id id (Some error) "" [] ∅ ∅ ∅ [] [] [] [] [] Value.Null.

Definition insert_failed_vertical (index : TaxonomyIndex.t) (id error : string) : TaxonomyIndex.t :=
  index <| TaxonomyIndex.verticals ::= <[id := failed_entry id error]> |>.

Definition build_index (taxonomy : option Taxonomy.t) (manifests : list VerticalManifest.t)
    (failed_verticals : list (string * string)) : BuildResult.t :=
  let index := insert_base_roles TaxonomyIndex.default in
  let index := match taxonomy with Some tax => insert_protocol_taxonomy index tax | None => index end in
  let '(index, warnings) :=
    fold_left (λ '(index, warnings) manifest, insert_vertical index manifest warnings) manifests (index, []) in
  let index := fold_left (λ index '(id, error), insert_failed_vertical index id error) failed_verticals index in
  BuildResult.mk index warnings.
End builder.

(** ** Theory *)

(** *** Maps filled pair by pair *)

(** The value of the last pair with the key. *)
Definition last_value {V} (k : string) (l : list (string * V)) : option V :=
  fold_left (λ acc '(k', v), if decide (k' = k) then Some v else acc) l None.

Lemma last_value_snoc {V} k (l : list (string * V)) k' v :
  last_value k (l ++ [(k', v)]) = if decide (k' = k) then Some v else last_value k l.
Proof. unfold last_value. by rewrite fold_left_app. Qed.

Lemma last_value_elem {V} k (l : list (string * V)) v : last_value k l = Some v → (k, v) ∈ l.
Proof.
  induction l as [|[k' v'] l IH] using rev_ind; [done|]. rewrite last_value_snoc. case_decide; set_solver.
Qed.

Lemma last_value_is_Some {V} k (l : list (string * V)) : is_Some (last_value k l) ↔ k ∈ l.*1.
Proof.
  induction l as [|[k' v'] l IH] using rev_ind; [cbn; split; [by intros []|by intros ?%elem_of_nil]|].
  rewrite last_value_snoc, fmap_app. case_decide; [set_solver|]. rewrite IH. set_solver.
Qed.

Lemma lookup_insert_all {V} (l : list (string * V)) m k :
  insert_all l m !! k = match last_value k l with Some v => Some v | None => m !! k end.
Proof.
  unfold insert_all. induction l as [|[k' v'] l IH] using rev_ind; [done|].
  rewrite fold_left_app, last_value_snoc. cbn. rewrite lookup_insert. by repeat case_decide.
Qed.

Lemma insert_all_Some {V} (l : list (string * V)) m k v :
  insert_all l m !! k = Some v → (k, v) ∈ l ∨ m !! k = Some v.
Proof.
  rewrite lookup_insert_all. destruct (last_value k l) eqn:Hl; [|by right].
  intros [= <-]. left. by apply last_value_elem.
Qed.

Lemma insert_all_is_Some {V} (l : list (string * V)) m k :
  is_Some (insert_all l m !! k) ↔ k ∈ l.*1 ∨ is_Some (m !! k).
Proof.
  rewrite lookup_insert_all, <-last_value_is_Some.
  destruct (last_value k l); split; [eauto..|tauto|]. by intros [[]|].
Qed.

Lemma insert_all_perm {V} (l l' : list (string * V)) m : l ≡ₚ l' → NoDup l.*1 → insert_all l m = insert_all l' m.
Proof.
  intros Hp Hnd. apply map_eq. intros k. rewrite !lookup_insert_all.
  assert (Heq : last_value k l = last_value k l'); [|by rewrite Heq].
  destruct (last_value k l) as [v|] eqn:Hl; symmetry.
  - apply last_value_elem in Hl. rewrite Hp in Hl.
    destruct (last_value k l') as [v'|] eqn:Hl'; [|].
    + apply last_value_elem in Hl'. f_equal. rewrite Hp in Hnd.
      apply list_elem_of_lookup in Hl as [i Hi], Hl' as [j Hj].
      assert (i = j) as ->; [|congruence].
      eapply NoDup_lookup; [exact Hnd|rewrite list_lookup_fmap, Hi; done|rewrite list_lookup_fmap, Hj; done].
    + apply eq_None_not_Some in Hl'. destruct Hl'. apply last_value_is_Some. apply list_elem_of_fmap. by exists (k, v).
  - apply eq_None_not_Some. intros Hs%last_value_is_Some. rewrite <-Hp in Hs.
    apply last_value_is_Some in Hs. rewrite Hl in Hs. by destruct Hs.
Qed.

(** *** Policies that require a checkpoint *)

Definition requires (c : string) (policy : ToolPolicy.t) : bool :=
  match ToolPolicy.kind policy, ToolPolicy.checkpoint_type policy with
  | ToolPolicyKind.RequiresCheckpoint, Some c' => bool_decide (c' = c)
  | _, _ => false
  end.

Definition requirers (c : string) (policies : list (string * ToolPolicy.t)) : list string :=
  (filter (λ kv, Is_true (requires c kv.2)) policies).*1.

(** The warning about a tool, when its policy names a checkpoint type that is not declared. *)
Definition dangling (vertical_id : string) (declared : gset string) (kv : string * ToolPolicy.t) : option string :=
  match ToolPolicy.kind kv.2, ToolPolicy.checkpoint_type kv.2 with
  | ToolPolicyKind.RequiresCheckpoint, Some c =>
      if bool_decide (c ∈ declared) then None
      else Some ("vertical '" +:+ vertical_id +:+ "': tool '" +:+ kv.1 +:+ "' references checkpoint type '" +:+ c
                 +:+ "' not declared in this vertical's checkpoint_types")
  | _, _ => None
  end.

Lemma requirers_cons c tool policy policies :
  requirers c ((tool, policy) :: policies)
  = if requires c policy then tool :: requirers c policies else requirers c policies.
Proof. unfold requirers. rewrite filter_cons. cbn. by destruct (requires c policy). Qed.

Lemma omap_cons {A B} (f : A → option B) x l :
  omap f (x :: l) = match f x with Some y => y :: omap f l | None => omap f l end.
Proof. done. Qed.

Lemma cross_link_spec vertical_id policies cps warnings :
  let out := cross_link vertical_id policies cps warnings in
  (∀ c, out.1 !! c = (λ cp, cp <| VerticalCheckpointType.required_by ::= λ l, l ++ requirers c policies |>) <$> cps !! c)
  ∧ out.2 = warnings ++ omap (dangling vertical_id (dom cps)) policies.
Proof.
  unfold cross_link. revert cps warnings. induction policies as [|[tool policy] policies IH]; intros cps warnings.
  { cbn. split; [|by rewrite app_nil_r]. intros c. unfold requirers.
    destruct (cps !! c) as [[]|]; cbn; [|done]. unfold set. cbn. by rewrite app_nil_r. }
  cbn [fold_left]. cbv zeta. rewrite omap_cons. unfold dangling at 1. cbn [fst snd].
  assert (Hcons : ∀ c, requirers c ((tool, policy) :: policies)
            = if requires c policy then tool :: requirers c policies else requirers c policies)
    by (intros c; apply requirers_cons).
  unfold requires in Hcons.
  destruct (ToolPolicy.kind policy) eqn:Hkind, (ToolPolicy.checkpoint_type policy) as [cp_type|] eqn:Hcp;
    try (edestruct IH as [IH1 IH2]; split; [intros c; rewrite Hcons; apply IH1|apply IH2]).
  destruct (cps !! cp_type) as [cp|] eqn:Hlook.
  - destruct (IH (<[cp_type := cp <| VerticalCheckpointType.required_by ::= λ l, l ++ [tool] |>]> cps) warnings) as [IH1 IH2].
    rewrite bool_decide_true by (apply elem_of_dom; by exists cp). split.
    + intros c. rewrite IH1, Hcons, lookup_insert. case_decide; case_bool_decide; try done. subst c. rewrite Hlook.
      destruct cp. cbn. unfold set. cbn. by rewrite <-app_assoc.
    + rewrite IH2. f_equal. f_equal. f_equal. apply dom_insert_lookup_L. by exists cp.
  - rewrite bool_decide_false by (by apply not_elem_of_dom).
    edestruct IH as [IH1 IH2]. split.
    + intros c. rewrite IH1, Hcons. case_bool_decide; [|done]. subst c. by rewrite Hlook.
    + rewrite IH2. by rewrite <-app_assoc.
Qed.

(** *** What the index holds

    The entries a manifest gives, without the order in which its maps are iterated. *)

Definition qualified (m : VerticalManifest.t) : list string :=
  (λ r, VerticalManifest.id m +:+ ":" +:+ r) <$> vertical_role_ids m.

Definition role_of (m : VerticalManifest.t) (q : string) : RoleEntry.t :=
  RoleEntry.mk q "worker" (Some "worker") [] [] (ToolSummary.name <$> VerticalManifest.tools m)
    (Some (VerticalManifest.id m)).

Definition tool_of (m : VerticalManifest.t) (tool : ToolSummary.t) : ToolEntry.t :=
  ToolEntry.mk (ToolSummary.name tool) (ToolSummary.description tool) (Some (VerticalManifest.id m)) (qualified m)
    (VerticalManifest.tool_policies m !! ToolSummary.name tool).

Definition checkpoint_of (m : VerticalManifest.t) (c : string) (s : CheckpointSchema.t) : VerticalCheckpointType.t :=
  VerticalCheckpointType.mk (CheckpointSchema.description s) (CheckpointSchema.fields s)
    (sort_texts (requirers c (map_to_list (VerticalManifest.tool_policies m)))).

Definition entry_of (m : VerticalManifest.t) : VerticalEntry.t :=
  VerticalEntry.mk (VerticalManifest.id m) (VerticalManifest.name m) None (VerticalManifest.defining_constraint m)
    (qualified m) (VerticalManifest.context_schema m) (VerticalManifest.tool_policies m)
    (map_imap (λ c s, Some (checkpoint_of m c s)) (VerticalManifest.checkpoint_types m))
    (VerticalManifest.quality_criteria m) (VerticalManifest.task_types m) (VerticalManifest.workflows m)
    (VerticalManifest.profiles m) (VerticalManifest.tools m) (manifest_value m).

Definition role_entries (m : VerticalManifest.t) : list (string * RoleEntry.t) := (λ q, (q, role_of m q)) <$> qualified m.
Definition tool_entries (m : VerticalManifest.t) : list (string * ToolEntry.t) :=
  (λ t, (ToolSummary.name t, tool_of m t)) <$> VerticalManifest.tools m.

Section spec.
Context `{HashOrder}.

Definition dangling_of (m : VerticalManifest.t) : list string :=
  omap (dangling (VerticalManifest.id m) (dom (VerticalManifest.checkpoint_types m)))
    (hash_iter (VerticalManifest.tool_policies m)).

Lemma insert_vertical_spec index m warnings :
  insert_vertical index m warnings
  = (index <| TaxonomyIndex.roles ::= insert_all (role_entries m) |>
           <| TaxonomyIndex.tools ::= insert_all (tool_entries m) |>
           <| TaxonomyIndex.verticals ::= <[VerticalManifest.id m := entry_of m]> |>, warnings ++ dangling_of m).
Proof.
  unfold insert_vertical. cbv zeta. set (cps0 := _ <$> VerticalManifest.checkpoint_types m).
  destruct (cross_link_spec (VerticalManifest.id m) (hash_iter (VerticalManifest.tool_policies m)) cps0 warnings) as [Hcps Hw].
  destruct (cross_link _ _ _ _) as [cps w]. cbn [fst snd] in *.
  assert (Heq : set VerticalCheckpointType.required_by sort_texts <$> cps
                = map_imap (λ c s, Some (checkpoint_of m c s)) (VerticalManifest.checkpoint_types m)).
  { apply map_eq. intros c. rewrite lookup_fmap, Hcps, map_lookup_imap. subst cps0. rewrite lookup_fmap.
    destruct (VerticalManifest.checkpoint_types m !! c) as [s|]; [|done]. cbn. unfold set, checkpoint_of. cbn.
    f_equal. f_equal. apply sort_texts_perm. unfold requirers. by rewrite hash_iter_perm. }
  rewrite Heq, Hw. unfold dangling_of. subst cps0. rewrite dom_fmap_L.
  reflexivity.
Qed.

(** The index after the manifests. *)
Lemma insert_verticals_spec manifests index warnings :
  fold_left (λ '(index, warnings) manifest, insert_vertical index manifest warnings) manifests (index, warnings)
  = (TaxonomyIndex.mk
       (insert_all (manifests ≫= role_entries) (TaxonomyIndex.roles index))
       (insert_all (manifests ≫= tool_entries) (TaxonomyIndex.tools index))
       (TaxonomyIndex.envelope_types index) (TaxonomyIndex.checkpoint_types index)
       (insert_all ((λ m, (VerticalManifest.id m, entry_of m)) <$> manifests) (TaxonomyIndex.verticals index)),
     warnings ++ (manifests ≫= dangling_of)).
Proof.
  revert index warnings. induction manifests as [|m manifests IH]; intros index warnings.
  { cbn. destruct index. by rewrite app_nil_r. }
  cbn [fold_left]. rewrite insert_vertical_spec, IH. unfold insert_all. cbn.
  by rewrite !fold_left_app, <-app_assoc.
Qed.
End spec.

Section exact.
Context `{HashOrder}.

Lemma last_value_hash_iter {V W} (f : string → V → W) (m : gmap string V) k :
  last_value k ((λ kv, (kv.1, f kv.1 kv.2)) <$> hash_iter m) = f k <$> m !! k.
Proof.
  destruct (last_value k _) as [w|] eqn:Hl.
  - apply last_value_elem, list_elem_of_fmap in Hl as ([k' v] & [= -> ->] & Hin).
    apply elem_of_hash_iter in Hin. by rewrite Hin.
  - destruct (m !! k) as [v|] eqn:Hk; [|done]. apply eq_None_not_Some in Hl. destruct Hl.
    apply last_value_is_Some. rewrite <-list_fmap_compose. apply list_elem_of_fmap. exists (k, v).
    split; [done|]. by apply elem_of_hash_iter.
Qed.

Lemma last_value_fmap {V W} (f : V → W) (l : list (string * V)) k :
  last_value k ((λ kv, (kv.1, f kv.2)) <$> l) = f <$> last_value k l.
Proof.
  induction l as [|[k' v] l IH] using rev_ind; [done|]. rewrite fmap_app. cbn.
  rewrite !last_value_snoc. by case_decide.
Qed.

Definition derived_role (name : string) (r : ResolvedRole) : RoleEntry.t :=
  RoleEntry.mk name (base_role_str (rr_base r)) (Some (base_role_str (rr_base r)))
    (set_iter (rr_capabilities r)) [] [] None.

(** The role of the protocol with the name. *)
Definition protocol_role (taxonomy : option Taxonomy.t) (id : string) : option RoleEntry.t :=
  match taxonomy ≫= λ t, Taxonomy.resolved_roles t !! id with
  | Some r => Some (derived_role id r)
  | None => last_value id base_role_entries
  end.

(** What the manifests declare, by name and in their order. *)
Definition declared_verticals (manifests : list VerticalManifest.t) : list (string * VerticalManifest.t) :=
  (λ m, (VerticalManifest.id m, m)) <$> manifests.
Definition declared_tools (manifests : list VerticalManifest.t) : list (string * (VerticalManifest.t * ToolSummary.t)) :=
  manifests ≫= λ m, (λ t, (ToolSummary.name t, (m, t))) <$> VerticalManifest.tools m.
Definition declared_roles (manifests : list VerticalManifest.t) : list (string * (VerticalManifest.t * string)) :=
  manifests ≫= λ m, (λ q, (q, (m, q))) <$> qualified m.

Lemma tool_entries_declared manifests :
  manifests ≫= tool_entries = (λ kv, (kv.1, tool_of kv.2.1 kv.2.2)) <$> declared_tools manifests.
Proof.
  unfold declared_tools, tool_entries. induction manifests as [|m ms IH]; [done|]. cbn. rewrite fmap_app, IH.
  f_equal. by rewrite <-list_fmap_compose.
Qed.

Lemma role_entries_declared manifests :
  manifests ≫= role_entries = (λ kv, (kv.1, role_of kv.2.1 kv.2.2)) <$> declared_roles manifests.
Proof.
  unfold declared_roles, role_entries. induction manifests as [|m ms IH]; [done|]. cbn. rewrite fmap_app, IH.
  f_equal. by rewrite <-list_fmap_compose.
Qed.

Lemma failed_spec failed index :
  fold_left (λ index '(id, error), insert_failed_vertical index id error) failed index
  = index <| TaxonomyIndex.verticals ::= insert_all ((λ kv, (kv.1, failed_entry kv.1 kv.2)) <$> failed) |>.
Proof.
  revert index. induction failed as [|[id e] failed IH]; intros index; [by destruct index|]. cbn. by rewrite IH.
Qed.

Lemma last_failed failed id :
  last_value id ((λ kv, (kv.1, failed_entry kv.1 kv.2)) <$> failed) = failed_entry id <$> last_value id failed.
Proof.
  induction failed as [|[k e] failed IH] using rev_ind; [done|]. rewrite fmap_app. cbn.
  rewrite !last_value_snoc. case_decide; [by subst|done].
Qed.

Lemma base_roles_spec id :
  TaxonomyIndex.roles (insert_base_roles TaxonomyIndex.default) !! id = last_value id base_role_entries.
Proof.
  change (insert_all base_role_entries ∅ !! id = last_value id base_role_entries).
  rewrite lookup_insert_all, lookup_empty. by destruct (last_value id _).
Qed.

Lemma protocol_roles_spec tax id :
  TaxonomyIndex.roles (insert_protocol_taxonomy (insert_base_roles TaxonomyIndex.default) tax) !! id
  = protocol_role (Some tax) id.
Proof.
  unfold insert_protocol_taxonomy, set. cbn [TaxonomyIndex.roles TaxonomyIndex.eta_t].
  rewrite lookup_insert_all, base_roles_spec.
  rewrite (list_fmap_ext _ (λ kv, (kv.1, derived_role kv.1 kv.2)) (hash_iter (Taxonomy.resolved_roles tax)))
    by (by intros _ [] _).
  rewrite last_value_hash_iter. unfold protocol_role. cbn. by destruct (Taxonomy.resolved_roles tax !! id).
Qed.

Section built.
Context (taxonomy : option Taxonomy.t) (manifests : list VerticalManifest.t) (failed : list (string * string)).
Let built := build_index taxonomy manifests failed.
Let index := BuildResult.index built.

(** The builder in one step. *)
Lemma build_index_spec :
  let index0 := match taxonomy with
                | Some tax => insert_protocol_taxonomy (insert_base_roles TaxonomyIndex.default) tax
                | None => insert_base_roles TaxonomyIndex.default
                end in
  built = BuildResult.mk
    (TaxonomyIndex.mk
       (insert_all (manifests ≫= role_entries) (TaxonomyIndex.roles index0))
       (insert_all (manifests ≫= tool_entries) (TaxonomyIndex.tools index0))
       (TaxonomyIndex.envelope_types index0) (TaxonomyIndex.checkpoint_types index0)
       (insert_all ((λ kv, (kv.1, failed_entry kv.1 kv.2)) <$> failed)
          (insert_all ((λ m, (VerticalManifest.id m, entry_of m)) <$> manifests) (TaxonomyIndex.verticals index0))))
    (manifests ≫= dangling_of).
Proof. intros index0. subst built. unfold build_index. fold index0. by rewrite insert_verticals_spec, failed_spec. Qed.

Lemma get_vertical_spec id :
  TaxonomyIndex.get_vertical index id =
  match last_value id failed with
  | Some e => Some (failed_entry id e)
  | None => entry_of <$> last_value id (declared_verticals manifests)
  end.
Proof.
  unfold index, TaxonomyIndex.get_vertical. rewrite build_index_spec. cbn [BuildResult.index TaxonomyIndex.verticals].
  rewrite !lookup_insert_all, last_failed. destruct (last_value id failed); [done|]. cbn [fmap option_fmap option_map].
  unfold declared_verticals. rewrite <-(last_value_fmap entry_of), <-list_fmap_compose. cbn.
  assert (Hv : TaxonomyIndex.verticals match taxonomy with
    | Some tax => insert_protocol_taxonomy (insert_base_roles TaxonomyIndex.default) tax
    | None => insert_base_roles TaxonomyIndex.default end = ∅) by (by destruct taxonomy).
  rewrite Hv, lookup_empty. by destruct (last_value id _).
Qed.

Lemma get_tool_spec name :
  TaxonomyIndex.get_tool index name = (λ mt, tool_of mt.1 mt.2) <$> last_value name (declared_tools manifests).
Proof.
  unfold index, TaxonomyIndex.get_tool. rewrite build_index_spec. cbn [BuildResult.index TaxonomyIndex.tools].
  assert (Ht : TaxonomyIndex.tools match taxonomy with
    | Some tax => insert_protocol_taxonomy (insert_base_roles TaxonomyIndex.default) tax
    | None => insert_base_roles TaxonomyIndex.default end = ∅) by (by destruct taxonomy).
  rewrite Ht, lookup_insert_all, tool_entries_declared, lookup_empty, (last_value_fmap (λ mt, tool_of mt.1 mt.2)).
  by destruct (last_value name _).
Qed.

Lemma get_role_spec id :
  TaxonomyIndex.get_role index id =
  match last_value id (declared_roles manifests) with
  | Some mq => Some (role_of mq.1 mq.2)
  | None => protocol_role taxonomy id
  end.
Proof.
  unfold index, TaxonomyIndex.get_role. rewrite build_index_spec. cbn [BuildResult.index TaxonomyIndex.roles].
  rewrite lookup_insert_all, role_entries_declared, (last_value_fmap (λ mq, role_of mq.1 mq.2)).
  destruct (last_value id (declared_roles manifests)); [done|].
  destruct taxonomy as [tax|]; [apply protocol_roles_spec|apply base_roles_spec].
Qed.

(** C25. The index holds what the manifests declare.  Of several that declare a
    vertical, a tool (also in different verticals) or a role, the last wins, without a
    warning; a vertical whose manifest could not be fetched is a stub with the error,
    over any manifest of that id; the roles and tools of a vertical are those of its
    manifest; each checkpoint type lists, sorted, the tools whose policy requires it;
    and the warnings are exactly the policies that name a checkpoint type their manifest
    does not declare.  Only the order of the warnings and of the capabilities of a
    protocol role depends on how maps iterate. *)
Theorem catalog_exact :
  (∀ id, TaxonomyIndex.get_vertical index id =
     match last_value id failed with
     | Some e => Some (failed_entry id e)
     | None => entry_of <$> last_value id (declared_verticals manifests)
     end)
  ∧ (∀ name, TaxonomyIndex.get_tool index name =
       (λ mt, tool_of mt.1 mt.2) <$> last_value name (declared_tools manifests))
  ∧ (∀ id, TaxonomyIndex.get_role index id =
       match last_value id (declared_roles manifests) with
       | Some mq => Some (role_of mq.1 mq.2)
       | None => protocol_role taxonomy id
       end)
  ∧ BuildResult.warnings built = manifests ≫= dangling_of.
Proof.
  split; [apply get_vertical_spec|]. split; [apply get_tool_spec|]. split; [apply get_role_spec|].
  by rewrite build_index_spec.
Qed.

Lemma declared_role_Some q m : m ∈ manifests → q ∈ qualified m → is_Some (TaxonomyIndex.get_role index q).
Proof.
  intros Hm Hq. rewrite get_role_spec.
  destruct (last_value q (declared_roles manifests)) eqn:Hl; [eauto|].
  apply eq_None_not_Some in Hl. destruct Hl. apply last_value_is_Some. unfold declared_roles.
  apply list_elem_of_fmap. exists (q, (m, q)). split; [done|]. apply list_elem_of_bind. exists m. split; [|done].
  apply list_elem_of_fmap. by exists q.
Qed.

Lemma declared_role_inv q mq : last_value q (declared_roles manifests) = Some mq → mq.1 ∈ manifests ∧ mq.2 = q ∧ q ∈ qualified mq.1.
Proof.
  intros Hl%last_value_elem. apply list_elem_of_bind in Hl as (m & Hin & Hm).
  apply list_elem_of_fmap in Hin as (q' & [= -> ->] & Hq). done.
Qed.

Lemma declared_tool_Some name m : m ∈ manifests → name ∈ ToolSummary.name <$> VerticalManifest.tools m →
  is_Some (TaxonomyIndex.get_tool index name).
Proof.
  intros Hm (t & -> & Ht)%list_elem_of_fmap. rewrite get_tool_spec, fmap_is_Some. apply last_value_is_Some.
  unfold declared_tools. apply list_elem_of_fmap. exists (ToolSummary.name t, (m, t)). split; [done|].
  apply list_elem_of_bind. exists m. split; [|done]. apply list_elem_of_fmap. by exists t.
Qed.

(** The references of the index resolve, whatever the manifests: the tools a role lists,
    the roles a tool lists and the roles of a vertical are in the index, under their own
    names. *)
Theorem catalog_closed :
  (∀ q r, TaxonomyIndex.get_role index q = Some r →
     RoleEntry.name r = q ∧ ∀ name, name ∈ RoleEntry.tools r → is_Some (TaxonomyIndex.get_tool index name))
  ∧ (∀ name t, TaxonomyIndex.get_tool index name = Some t →
       ToolEntry.name t = name ∧ ∀ q, q ∈ ToolEntry.roles t → is_Some (TaxonomyIndex.get_role index q))
  ∧ (∀ id v, TaxonomyIndex.get_vertical index id = Some v →
       VerticalEntry.id v = id ∧ ∀ q, q ∈ VerticalEntry.roles v → is_Some (TaxonomyIndex.get_role index q)).
Proof.
  split; [|split].
  - intros q r. rewrite get_role_spec. destruct (last_value q (declared_roles manifests)) as [mq|] eqn:Hl.
    + apply declared_role_inv in Hl as (Hm & Hq & _). intros [= <-]. split; [done|]. intros name. by apply declared_tool_Some.
    + unfold protocol_role. destruct (_ ≫= _) as [rr|]; [intros [= <-]; split; [done|]; by intros ? ?%elem_of_nil|].
      intros Hb%last_value_elem. unfold base_role_entries in Hb.
      repeat (apply elem_of_cons in Hb as [[= -> ->]|Hb]; [split; [done|]; by intros ? ?%elem_of_nil|]). by apply elem_of_nil in Hb.
  - intros name t. rewrite get_tool_spec. destruct (last_value name (declared_tools manifests)) as [[m tool]|] eqn:Hl; [|done].
    intros [= <-]. apply last_value_elem, list_elem_of_bind in Hl as (m' & (t' & [= -> <- <-] & Ht)%list_elem_of_fmap & Hm).
    split; [done|]. intros q. by apply declared_role_Some.
  - intros id v. rewrite get_vertical_spec. destruct (last_value id failed) as [e|].
    { intros [= <-]. split; [done|]. by intros ? ?%elem_of_nil. }
    destruct (last_value id (declared_verticals manifests)) as [m|] eqn:Hl; [|done]. intros [= <-].
    apply last_value_elem, list_elem_of_fmap in Hl as (m' & [= -> ->] & Hm).
    split; [done|]. intros q. by apply declared_role_Some.
Qed.
End built.
End exact.
