(* ===== verification/Agents.v ===== *)
(** * Profiles of agents (console-core: profile_validation.rs, profile_yaml.rs; console-db:
    queries/profiles.rs; console-api: routes/profiles.rs)

    A profile is a list of versions, of which one is current.  Handlers are programs over
    the tables (see [Api]); the texts of JSON and YAML and the decimal text of a float are
    parameters, clock readings and random identifiers are inputs. *)

From Stdlib Require Import Ascii.
From S2P Require Import Prelude Types Std Float SerdeJson Taxonomy Proto Console Providers Api Accounts Catalog.

(** ** The store: the tables of [Console] and of [Accounts] *)

Module Store.
Record t : Type := mk { console : Db.t; accounts : Accounts.t }.
#[global] Instance eta_t : Settable t := λ r, mk (console r) (accounts r).
End Store.

(** How a handler ends without an answer: an error, or a panic. *)
Inductive failure : Type :=
| Failed (e : ConsoleError.t)
| Panicked.

(** [map_err(ApiError::from)] *)
Definition lift {A} (r : result A ConsoleError.t) : result A failure := result_map_err Failed r.

(** A query and a statement whose error becomes [ConsoleError::Database]. *)
Definition ask {B} (f : Store.t → B) : prog Store.t (result B failure) :=
  Stmt (reads f) (λ r, Ret (lift (result_map_err ConsoleError.Database r))).
Definition run {B} (f : Store.t → Store.t * result B string) : prog Store.t (result B failure) :=
  Stmt f (λ r, Ret (lift (result_map_err ConsoleError.Database r))).
(** [.ok().flatten()] and [unwrap_or_default()]: an error is the default. *)
Definition ask_or {B} (d : B) (f : Store.t → B) : prog Store.t B :=
  Stmt (reads f) (λ r, Ret match r with Ok b => b | Err _ => d end).

Definition store_log (user_id : string) (action : AuditAction.t) (target_id : string) (detail : option AuditDetail)
    (ctx : RequestContext.t) : prog Store.t unit :=
  exec_ok (λ s, let '(a, r) := insert_entry (audit_row (AuditEntry.mk user_id action target_id detail
                                 (RequestContext.ip ctx) (RequestContext.user_agent ctx))) (Store.accounts s) in
                (s <| Store.accounts := a |>, r)).

(** ** queries/profiles.rs *)

#[global] Instance profile_eta : Settable ProfileRow.t := λ r,
  ProfileRow.mk (ProfileRow.id r) (ProfileRow.version r) (ProfileRow.name r) (ProfileRow.description r)
    (ProfileRow.tags r) (ProfileRow.role_ref r) (ProfileRow.llm_provider r) (ProfileRow.llm_model r)
    (ProfileRow.llm_temperature r) (ProfileRow.llm_max_tokens r) (ProfileRow.autonomy r)
    (ProfileRow.tool_allowlist r) (ProfileRow.tool_denylist r) (ProfileRow.budget_max_cost_micros r)
    (ProfileRow.budget_max_tokens r) (ProfileRow.budget_max_wall_time_ms r) (ProfileRow.budget_warning_threshold r)
    (ProfileRow.owner_user_id r) (ProfileRow.visibility r) (ProfileRow.is_current r) (ProfileRow.created_at r)
    (ProfileRow.deleted_at r).

(** A float column: SQLite keeps NaN as NULL. *)
Definition sql_real (x : option spec_float) : option spec_float :=
  match x with Some S754_nan => None | x => x end.

(** SQLite's [LIKE] on the characters of a pattern and a text: without case for ASCII. *)
Fixpoint sql_like (p s : list string) : bool :=
  match p with
  | [] => match s with [] => true | _ => false end
  | c :: p =>
      if bool_decide (c = "%") then
        (fix any (s : list string) : bool :=
           sql_like p s || match s with [] => false | _ :: s => any s end) s
      else
        match s with
        | [] => false
        | d :: s => (bool_decide (c = "_") || bool_decide (sql_lower c = sql_lower d)) && sql_like p s
        end
  end.

Definition like (pattern s : string) : bool := sql_like (utf8_chars pattern) (utf8_chars s).

Module ProfileQueries.
Import ProfileRow.

(** [is_current = 1 AND deleted_at IS NULL] *)
Definition live (p : t) : bool := is_current p && negb (bool_decide (is_Some (deleted_at p))).

Definition profiles (s : Store.t) : list t := Db.profiles (Store.console s).

Definition on_profiles (f : list t → list t) (s : Store.t) : Store.t := s <| Store.console ::= set Db.profiles f |>.

Definition get_current (id : string) (s : Store.t) : option t := Profiles.get_current id (Store.console s).

Definition get_version (id_ : string) (version_ : Z) (s : Store.t) : option t :=
  snd <$> list_find (λ p, id p = id_ ∧ version p = version_) (profiles s).

Definition name_le (a b : t) : Prop := text_le (name a) (name b).
#[global] Instance name_le_dec : RelDecision name_le. Proof. intros a b. unfold name_le. apply _. Defined.

(** A negative limit is none. *)
Definition list_visible (viewer_user_id : string) (is_admin : bool) (role_ref_ search : option string) (limit : Z)
    (after_cursor : option string) (s : Store.t) : list t :=
  let found := filter (λ p, Is_true (
      live p
      && (is_admin || bool_decide (owner_user_id p = viewer_user_id) || bool_decide (visibility p = "shared"))
      && match role_ref_ with Some r => bool_decide (role_ref p = r) | None => true end
      && match search with
         | Some q => let pattern := "%" +:+ q +:+ "%" in
                     like pattern (name p) || match description p with Some d => like pattern d | None => false end
         | None => true
         end
      && match after_cursor with Some c => text_gt (name p) c | None => true end)) (profiles s) in
  let sorted := merge_sort name_le found in
  if limit <? 0 then sorted else take (Z.to_nat limit) sorted.

Definition version_ge (a b : t) : Prop := version b ≤ version a.
#[global] Instance version_ge_dec : RelDecision version_ge. Proof. intros a b. unfold version_ge. apply _. Defined.

Definition list_versions (id_ : string) (s : Store.t) : list t :=
  merge_sort version_ge (filter (λ p, id p = id_) (profiles s)).

Definition name_exists_for_user (name_ owner : string) (exclude_id : option string) (s : Store.t) : bool :=
  existsb (λ p, bool_decide (name p = name_) && bool_decide (owner_user_id p = owner) && live p
                && match exclude_id with Some e => negb (bool_decide (id p = e)) | None => true end) (profiles s).

Definition in_unit (x : spec_float) : bool := f64_ge x (S754_zero false) && f64_ge (f64_of_Z 1) x.

Definition insert_profile (row : t) (s : Store.t) : Store.t * result unit string :=
  if bool_decide (is_Some (get_version (id row) (version row) s)) then (s, Err "UNIQUE constraint failed: profiles.id, profiles.version")
  else if negb (bool_decide (autonomy row ∈ ["autonomous"; "assisted"; "supervised"]))
  then (s, Err "CHECK constraint failed: autonomy")
  else if negb (bool_decide (visibility row ∈ ["private"; "shared"])) then (s, Err "CHECK constraint failed: visibility")
  else if negb (match sql_real (budget_warning_threshold row) with Some x => in_unit x | None => true end)
  then (s, Err "CHECK constraint failed: budget_warning_threshold")
  else if negb (bool_decide (is_Some (Accounts.users (Store.accounts s) !! owner_user_id row)))
  then (s, Err "FOREIGN KEY constraint failed")
  else (on_profiles (λ l, l ++ [row <| llm_temperature ::= sql_real |> <| budget_warning_threshold ::= sql_real |>]) s, Ok tt).

(** [UPDATE profiles SET is_current = 0 WHERE id = ? AND is_current = 1] *)
Definition unset_current (id_ : string) (s : Store.t) : Store.t * result unit string :=
  (on_profiles (fmap (λ p, if bool_decide (id p = id_) then p <| is_current := false |> else p)) s, Ok tt).

Definition create_new_version (id_ : string) (new_row : t) : prog Store.t (result unit failure) :=
  let!? _ := run (unset_current id_) in
  run (insert_profile new_row).

Definition soft_delete (id_ now : string) (s : Store.t) : Store.t * result bool string :=
  let hit p := bool_decide (id p = id_) && negb (bool_decide (is_Some (deleted_at p))) in
  (on_profiles (fmap (λ p, if hit p then p <| deleted_at := Some now |> else p)) s, Ok (existsb hit (profiles s))).

(** Sessions that are not over and have an assignment of the profile: each once. *)
Definition find_active_sessions_for_profile (profile_id : string) (s : Store.t) : list string :=
  let db := Store.console s in
  let open_session a :=
    match Db.sessions db !! SessionAssignmentRow.session_id a with
    | Some row => negb (bool_decide (SessionRow.state row ∈ ["completed"; "failed"; "cancelled"]))
    | None => false
    end in
  remove_dups (SessionAssignmentRow.session_id <$>
    filter (λ a, SessionAssignmentRow.profile_id a = profile_id ∧ Is_true (open_session a))
      (map_to_list (Db.session_assignments db)).*2).
End ProfileQueries.

(** ** profile_validation.rs *)

Module ValidationViolation.
Record t : Type := mk { code : string; message : string; field : option string }.
End ValidationViolation.

Module ValidationWarning.
Record t : Type := mk { code : string; message : string }.
End ValidationWarning.

Module ValidationResult.
Record t : Type := mk { violations : list ValidationViolation.t; warnings : list ValidationWarning.t }.
Definition is_valid (self : t) : bool := match violations self with [] => true | _ => false end.
End ValidationResult.

Module ProfileInput.
Record t : Type := mk {
  name : string; description : option string; tags : option string; role_ref : string;
  llm_provider : string; llm_model : string; llm_temperature : option spec_float; llm_max_tokens : option Z;
  autonomy : string; tool_allowlist : option string; tool_denylist : option string;
  budget_max_cost_micros : option Z; budget_max_tokens : option Z; budget_max_wall_time_ms : option Z;
  budget_warning_threshold : option spec_float; visibility : string; owner_user_id : string;
  exclude_id : option string;
}.
End ProfileInput.

(** [Display] of [f64]. *)
Class FloatText : Type := { display_f64 : spec_float → string }.

(** [(lo..=hi).contains(&x)] *)
Definition in_range (lo hi x : spec_float) : bool := f64_ge x lo && f64_ge hi x.

Definition ends_with (sfx s : string) : bool := bool_decide (is_Some (strip_suffix sfx s)).

(** [violations.push] when the condition holds. *)
Definition push_if (b : bool) (code message field : string) : list ValidationViolation.t :=
  if b then [ValidationViolation.mk code message (Some field)] else [].

Definition holds {A} (p : A → bool) (o : option A) : bool := match o with Some a => p a | None => false end.

Section validation.
Context `{JsonCodec} `{FloatText}.
Import ProfileInput.

(** The first tag that is too long is reported with its first 50 bytes: [None] is the panic
    of that slice. *)
Definition check_tags (tags : option string) : option (list ValidationViolation.t) :=
  match tags with
  | None => Some []
  | Some tags_json =>
      match read_strings tags_json with
      | Some tags =>
          match find (λ tag, 50 <? str_len tag) tags with
          | Some tag =>
              short ← slice_to tag 50;
              Some (push_if true "INVALID_TAGS" ("Tag '" +:+ short +:+ "' exceeds 50 characters") "tags")
          | None => Some []
          end
      | None => Some (push_if true "INVALID_TAGS" "Tags must be a JSON array of strings" "tags")
      end
  end.

Definition check_budget (field : string) (val : option Z) : list ValidationViolation.t :=
  push_if (holds (λ v, v <? 0) val) "INVALID_BUDGET" (field +:+ " must be non-negative") field.

Definition check_fields (input : t) : option (list ValidationViolation.t) :=
  tag_violations ← check_tags (tags input);
  Some (
    push_if (is_empty (name input) || (200 <? str_len (name input)))
      "INVALID_NAME" "Name must be 1–200 characters" "name"
    ++ push_if (is_empty (llm_provider input)) "INVALID_PROVIDER" "LLM provider is required" "llm_provider"
    ++ push_if (is_empty (llm_model input)) "INVALID_MODEL" "LLM model is required" "llm_model"
    ++ push_if (holds (λ t, negb (in_range (S754_zero false) (f64_of_Z 2) t)) (llm_temperature input))
         "INVALID_TEMPERATURE"
         ("Temperature must be 0.0–2.0, got " +:+ default "" (display_f64 <$> llm_temperature input)) "llm_temperature"
    ++ push_if (holds (λ mt, mt <=? 0) (llm_max_tokens input))
         "INVALID_MAX_TOKENS" "Max tokens must be a positive integer" "llm_max_tokens"
    ++ push_if (negb (bool_decide (autonomy input ∈ ["autonomous"; "assisted"; "supervised"])))
         "INVALID_AUTONOMY"
         ("Autonomy must be one of: autonomous, assisted, supervised; got '" +:+ autonomy input +:+ "'") "autonomy"
    ++ push_if (holds (λ th, negb (in_range (S754_zero false) (f64_of_Z 1) th)) (budget_warning_threshold input))
         "INVALID_THRESHOLD"
         ("Budget warning threshold must be 0.0–1.0, got " +:+ default "" (display_f64 <$> budget_warning_threshold input))
         "budget_warning_threshold"
    ++ check_budget "budget_max_cost_micros" (budget_max_cost_micros input)
    ++ check_budget "budget_max_tokens" (budget_max_tokens input)
    ++ check_budget "budget_max_wall_time_ms" (budget_max_wall_time_ms input)
    ++ tag_violations
    ++ push_if (negb (bool_decide (visibility input ∈ ["private"; "shared"])))
         "INVALID_VISIBILITY" ("Visibility must be 'private' or 'shared', got '" +:+ visibility input +:+ "'") "visibility").

(** A list of tools: absent or malformed JSON is the empty list. *)
Definition tool_list (col : option string) : list string := default [] (col ≫= read_strings).

Definition check_tool (index : TaxonomyIndex.t) (role_ref : string) (role_vertical : option string) (tool_name : string) :
    list ValidationViolation.t :=
  match TaxonomyIndex.get_tool index tool_name with
  | None =>
      push_if true "UNKNOWN_TOOL" ("Tool '" +:+ tool_name +:+ "' not found in taxonomy") "tool_allowlist"
  | Some tool =>
      match role_vertical with
      | Some rv =>
          push_if (negb (bool_decide (ToolEntry.vertical tool = Some rv))) "TOOL_NOT_IN_ROLE_VERTICAL"
            ("Tool '" +:+ tool_name +:+ "' belongs to vertical '" +:+ default "none" (ToolEntry.vertical tool)
             +:+ "' but role '" +:+ role_ref +:+ "' is in '" +:+ rv +:+ "'") "tool_allowlist"
      | None => []
      end
  end.

(** The tools of the role, or of the allowlist when it has any, without the denied ones. *)
Definition allowed_tools (role : RoleEntry.t) (allowlist denylist : list string) : list string :=
  filter (λ t, t ∉ denylist) (match allowlist with [] => RoleEntry.tools role | _ => allowlist end).

Definition high_impact_suffixes : list string :=
  ["_execute"; "_write"; "_deploy"; "_delete"; "_rotate"; "_launch"; "_submit"].

Definition tool_warnings (index : TaxonomyIndex.t) (autonomy : string) (role : RoleEntry.t) (tools : list string) :
    list ValidationWarning.t :=
  ((λ t, ValidationWarning.mk "TOOL_HAS_RUNTIME_POLICY" ("Tool '" +:+ t +:+ "' has a runtime-enforced policy"))
   <$> filter (λ t, Is_true (holds (λ tool, bool_decide (is_Some (ToolEntry.policy tool)))
                              (TaxonomyIndex.get_tool index t))) tools)
  ++ (if bool_decide (autonomy = "autonomous") && bool_decide (RoleEntry.base_role role = "worker") then
        match find (λ t, existsb (λ sfx, ends_with sfx t) high_impact_suffixes) tools with
        | Some t => [ValidationWarning.mk "AUTONOMOUS_WORKER_HIGH_IMPACT"
                       ("Autonomous worker with high-impact tool '" +:+ t +:+ "'")]
        | None => []
        end
      else []).

Definition check_taxonomy (input : t) (index : TaxonomyIndex.t) :
    list ValidationViolation.t * list ValidationWarning.t :=
  let role := TaxonomyIndex.get_role index (role_ref input) in
  let allowlist := tool_list (tool_allowlist input) in
  let denylist := tool_list (tool_denylist input) in
  let violations :=
    push_if (negb (bool_decide (is_Some role))) "UNKNOWN_ROLE"
      ("Role '" +:+ role_ref input +:+ "' not found in taxonomy") "role_ref"
    ++ ((allowlist ++ denylist) ≫= check_tool index (role_ref input) (role ≫= RoleEntry.vertical)) in
  match role with
  | Some r =>
      if bool_decide (is_Some (RoleEntry.vertical r)) then
        let effective_tools := allowed_tools r allowlist denylist in
        (violations ++ push_if (bool_decide (effective_tools = [])) "EMPTY_TOOL_SET"
                         "Effective tool set is empty after applying allow/deny lists" "tool_allowlist",
         tool_warnings index (autonomy input) r effective_tools)
      else (violations, [])
  | None => (violations, [])
  end.

Definition validate_profile (input : t) (index : TaxonomyIndex.t) : prog Store.t (option ValidationResult.t) :=
  match check_fields input with
  | None => Ret None
  | Some fields =>
      let '(taxonomy, warnings) := check_taxonomy input index in
      let! duplicate :=
        ask_or false (ProfileQueries.name_exists_for_user (name input) (owner_user_id input) (exclude_id input)) in
      Ret (Some (ValidationResult.mk
        (fields ++ taxonomy
         ++ push_if duplicate "DUPLICATE_NAME" ("You already have a profile named '" +:+ name input +:+ "'") "name")
        warnings))
  end.
End validation.

(** ** profile_yaml.rs *)

Module LlmConfig.
Record t : Type := mk { provider : string; model : string; temperature : option spec_float; max_tokens : option Z }.
End LlmConfig.

Module ToolConfig.
Record t : Type := mk { allow : option (list string); deny : option (list string) }.
End ToolConfig.

Module BudgetConfig.
Record t : Type := mk {
  max_cost_micros : option Z; max_tokens : option Z; max_wall_time_ms : option Z; warning_threshold : option spec_float;
}.
End BudgetConfig.

Module ProfileData.
Record t : Type := mk {
  name : string; description : option string; tags : option (list string); role : string; llm : LlmConfig.t;
  autonomy : string; tools : option ToolConfig.t; budget : option BudgetConfig.t;
}.
End ProfileData.

Module ProfileYaml.
Record t : Type := mk { format_version : Z; profile : ProfileData.t }.
End ProfileYaml.

(** serde_yaml on this type, with the texts of its errors. *)
Class YamlCodec : Type := {
  yaml_to_string : ProfileYaml.t → result string string;
  yaml_from_str : string → result ProfileYaml.t string;
}.

(** [ConsoleError::validation] *)
Definition validation_error (code message : string) : ConsoleError.t :=
  ConsoleError.Validation message [Violation.mk None code message] [].

Section yaml.
Context `{JsonCodec} `{YamlCodec}.

Definition export_data (row : ProfileRow.t) : ProfileYaml.t :=
  let tags := match ProfileRow.tags row ≫= read_strings with Some [] => None | tags => tags end in
  let allow := ProfileRow.tool_allowlist row ≫= read_strings in
  let deny := ProfileRow.tool_denylist row ≫= read_strings in
  let tools := match allow, deny with None, None => None | _, _ => Some (ToolConfig.mk allow deny) end in
  let budget :=
    match ProfileRow.budget_max_cost_micros row, ProfileRow.budget_max_tokens row,
          ProfileRow.budget_max_wall_time_ms row, ProfileRow.budget_warning_threshold row with
    | None, None, None, None => None
    | cost, tokens, time, threshold => Some (BudgetConfig.mk cost tokens time threshold)
    end in
  ProfileYaml.mk 1
    (ProfileData.mk (ProfileRow.name row) (ProfileRow.description row) tags (ProfileRow.role_ref row)
       (LlmConfig.mk (ProfileRow.llm_provider row) (ProfileRow.llm_model row) (ProfileRow.llm_temperature row)
          (ProfileRow.llm_max_tokens row))
       (ProfileRow.autonomy row) tools budget).

Definition export_yaml (row : ProfileRow.t) : result string ConsoleError.t :=
  result_map_err (λ e, ConsoleError.Internal ("YAML serialization failed: " +:+ e)) (yaml_to_string (export_data row)).

Definition parse_import_yaml (yaml : string) : result ProfileData.t ConsoleError.t :=
  let? parsed := result_map_err (λ e, validation_error "INVALID_YAML" ("Failed to parse YAML: " +:+ e)) (yaml_from_str yaml) in
  if negb (ProfileYaml.format_version parsed =? 1)
  then Err (validation_error "UNSUPPORTED_FORMAT_VERSION"
              ("Expected format_version 1, got " +:+ pretty (ProfileYaml.format_version parsed)))
  else Ok (ProfileYaml.profile parsed).

Definition strings_json (l : list string) : string := to_string (Value.of_strings l).

Definition import_data_to_row (data : ProfileData.t) : ProfileRow.t :=
  let llm := ProfileData.llm data in
  {| ProfileRow.id := ""; ProfileRow.version := 1; ProfileRow.name := ProfileData.name data;
     ProfileRow.description := ProfileData.description data;
     ProfileRow.tags := strings_json <$> ProfileData.tags data;
     ProfileRow.role_ref := ProfileData.role data;
     ProfileRow.llm_provider := LlmConfig.provider llm; ProfileRow.llm_model := LlmConfig.model llm;
     ProfileRow.llm_temperature := LlmConfig.temperature llm; ProfileRow.llm_max_tokens := LlmConfig.max_tokens llm;
     ProfileRow.autonomy := ProfileData.autonomy data;
     ProfileRow.tool_allowlist := strings_json <$> (ProfileData.tools data ≫= ToolConfig.allow);
     ProfileRow.tool_denylist := strings_json <$> (ProfileData.tools data ≫= ToolConfig.deny);
     ProfileRow.budget_max_cost_micros := ProfileData.budget data ≫= BudgetConfig.max_cost_micros;
     ProfileRow.budget_max_tokens := ProfileData.budget data ≫= BudgetConfig.max_tokens;
     ProfileRow.budget_max_wall_time_ms := ProfileData.budget data ≫= BudgetConfig.max_wall_time_ms;
     ProfileRow.budget_warning_threshold := ProfileData.budget data ≫= BudgetConfig.warning_threshold;
     ProfileRow.owner_user_id := ""; ProfileRow.visibility := "private"; ProfileRow.is_current := true;
     ProfileRow.created_at := ""; ProfileRow.deleted_at := None |}.
End yaml.

(** ** routes/profiles.rs *)

Module CreateProfileRequest.
Record t : Type := mk {
  name : string; description : option string; tags : option (list string); role_ref : string;
  llm_provider : string; llm_model : string; llm_temperature : option spec_float; llm_max_tokens : option Z;
  autonomy : string; tool_allowlist : option (list string); tool_denylist : option (list string);
  budget_max_cost_micros : option Z; budget_max_tokens : option Z; budget_max_wall_time_ms : option Z;
  budget_warning_threshold : option spec_float; visibility : string;
}.
End CreateProfileRequest.

Definition check_profile_read_access (auth : AuthenticatedUser.t) (profile : ProfileRow.t) : result unit ConsoleError.t :=
  if match AuthenticatedUser.console_role auth with ConsoleRole.Admin => true | _ => false end then Ok tt
  else if bool_decide (ProfileRow.owner_user_id profile = AuthenticatedUser.user_id auth) then Ok tt
  else if bool_decide (ProfileRow.visibility profile = "shared") then Ok tt
  else Err (ConsoleError.Forbidden "You do not have access to this profile").

Definition check_profile_write_access (auth : AuthenticatedUser.t) (profile : ProfileRow.t) : result unit ConsoleError.t :=
  if match AuthenticatedUser.console_role auth with ConsoleRole.Admin => true | _ => false end
  then authorized auth Action.EditAnyProfile
  else if bool_decide (ProfileRow.owner_user_id profile = AuthenticatedUser.user_id auth)
  then authorized auth Action.EditOwnProfile
  else Err (ConsoleError.Forbidden "Only the owner or an admin can edit this profile").

Definition to_validation_error (result : ValidationResult.t) : ConsoleError.t :=
  ConsoleError.Validation "Profile validation failed"
    ((λ v, Violation.mk (ValidationViolation.field v) (ValidationViolation.code v) (ValidationViolation.message v))
     <$> ValidationResult.violations result)
    ((λ w, Violation.mk None (ValidationWarning.code w) (ValidationWarning.message w))
     <$> ValidationResult.warnings result).

Definition warnings_value (l : list ValidationWarning.t) : Value.t :=
  Value.Array ((λ w, Value.Object {[ "code" := Value.String (ValidationWarning.code w);
                                     "message" := Value.String (ValidationWarning.message w) ]}) <$> l).

(** The current version of a profile, or 404. *)
Definition fetch_current (id : string) : prog Store.t (result ProfileRow.t failure) :=
  let!? current := ask (ProfileQueries.get_current id) in
  Ret (lift (ok_or current (ConsoleError.NotFound "profile" id))).

Definition derive_display_name (profile : ProfileRow.t) (viewer_user_id : string) : prog Store.t string :=
  if bool_decide (ProfileRow.visibility profile = "shared")
     && negb (bool_decide (ProfileRow.owner_user_id profile = viewer_user_id))
  then
    let! user := ask_or None (λ s, Users.get_by_id (ProfileRow.owner_user_id profile) (Store.accounts s)) in
    Ret (default (ProfileRow.owner_user_id profile) (UserRow.display_name <$> user) +:+ "'s " +:+ ProfileRow.name profile)
  else Ret (ProfileRow.name profile).

Section routes.
Context `{JsonCodec} `{FloatText} `{YamlCodec}.
Abbreviation answer := (result Response.t failure).

(** The fields of a row that [input] validates: a row with the texts of its lists. *)
Definition input_of (row : ProfileRow.t) (visibility owner : string) (exclude_id : option string) : ProfileInput.t :=
  {| ProfileInput.name := ProfileRow.name row; ProfileInput.description := ProfileRow.description row;
     ProfileInput.tags := ProfileRow.tags row; ProfileInput.role_ref := ProfileRow.role_ref row;
     ProfileInput.llm_provider := ProfileRow.llm_provider row; ProfileInput.llm_model := ProfileRow.llm_model row;
     ProfileInput.llm_temperature := ProfileRow.llm_temperature row;
     ProfileInput.llm_max_tokens := ProfileRow.llm_max_tokens row; ProfileInput.autonomy := ProfileRow.autonomy row;
     ProfileInput.tool_allowlist := ProfileRow.tool_allowlist row;
     ProfileInput.tool_denylist := ProfileRow.tool_denylist row;
     ProfileInput.budget_max_cost_micros := ProfileRow.budget_max_cost_micros row;
     ProfileInput.budget_max_tokens := ProfileRow.budget_max_tokens row;
     ProfileInput.budget_max_wall_time_ms := ProfileRow.budget_max_wall_time_ms row;
     ProfileInput.budget_warning_threshold := ProfileRow.budget_warning_threshold row;
     ProfileInput.visibility := visibility; ProfileInput.owner_user_id := owner;
     ProfileInput.exclude_id := exclude_id |}.

(** The row of a request body. *)
Definition row_of (body : CreateProfileRequest.t) (id : string) (version : Z) (owner now : string) : ProfileRow.t :=
  {| ProfileRow.id := id; ProfileRow.version := version; ProfileRow.name := CreateProfileRequest.name body;
     ProfileRow.description := CreateProfileRequest.description body;
     ProfileRow.tags := strings_json <$> CreateProfileRequest.tags body;
     ProfileRow.role_ref := CreateProfileRequest.role_ref body;
     ProfileRow.llm_provider := CreateProfileRequest.llm_provider body;
     ProfileRow.llm_model := CreateProfileRequest.llm_model body;
     ProfileRow.llm_temperature := CreateProfileRequest.llm_temperature body;
     ProfileRow.llm_max_tokens := CreateProfileRequest.llm_max_tokens body;
     ProfileRow.autonomy := CreateProfileRequest.autonomy body;
     ProfileRow.tool_allowlist := strings_json <$> CreateProfileRequest.tool_allowlist body;
     ProfileRow.tool_denylist := strings_json <$> CreateProfileRequest.tool_denylist body;
     ProfileRow.budget_max_cost_micros := CreateProfileRequest.budget_max_cost_micros body;
     ProfileRow.budget_max_tokens := CreateProfileRequest.budget_max_tokens body;
     ProfileRow.budget_max_wall_time_ms := CreateProfileRequest.budget_max_wall_time_ms body;
     ProfileRow.budget_warning_threshold := CreateProfileRequest.budget_warning_threshold body;
     ProfileRow.owner_user_id := owner; ProfileRow.visibility := CreateProfileRequest.visibility body;
     ProfileRow.is_current := true; ProfileRow.created_at := now; ProfileRow.deleted_at := None |}.

(** The validation every writing route but the rollback runs: its warnings. *)
Definition validated (index : TaxonomyIndex.t) (input : ProfileInput.t) :
    prog Store.t (result (list ValidationWarning.t) failure) :=
  let! validation := validate_profile input index in
  Ret match validation with
      | None => Err Panicked
      | Some v => if ValidationResult.is_valid v then Ok (ValidationResult.warnings v)
                  else Err (Failed (to_validation_error v))
      end.

(** The end of the routes that make a new profile. *)
Definition insert_new (auth : AuthenticatedUser.t) (ctx : RequestContext.t) (row : ProfileRow.t) (action : AuditAction.t)
    (detail : AuditDetail) (warnings : list ValidationWarning.t) : prog Store.t answer :=
  let!? _ := run (ProfileQueries.insert_profile row) in
  let! _ := store_log (AuthenticatedUser.user_id auth) action (ProfileRow.id row) (Some detail) ctx in
  Ret (Ok (Response.mk 201 [] (Value.Object
    {[ "id" := Value.String (ProfileRow.id row); "version" := Value.of_int 1; "warnings" := warnings_value warnings ]}))).

Definition create_profile (index : TaxonomyIndex.t) (id now : string) (auth : AuthenticatedUser.t) (ctx : RequestContext.t)
    (headers : HeaderMap) (body : CreateProfileRequest.t) : prog Store.t answer :=
  let!! _ := lift (validate_csrf headers (is_bearer_auth headers)) in
  let!! _ := lift (authorized auth Action.CreateProfile) in
  let row := row_of body id 1 (AuthenticatedUser.user_id auth) now in
  let!? warnings := validated index (input_of row (ProfileRow.visibility row) (AuthenticatedUser.user_id auth) None) in
  insert_new auth ctx row AuditAction.ProfileCreate (NameDetail (ProfileRow.name row)) warnings.

(** The entry of a listing: the name of the role is its own reference when it is unknown. *)
Definition profile_item (index : TaxonomyIndex.t) (display_name : string) (p : ProfileRow.t) : Value.t :=
  let role := TaxonomyIndex.get_role index (ProfileRow.role_ref p) in
  Value.Object {[ "id" := Value.String (ProfileRow.id p); "name" := Value.String (ProfileRow.name p);
    "display_name" := Value.String display_name; "description" := opt_text (ProfileRow.description p);
    "role_ref" := Value.String (ProfileRow.role_ref p);
    "role_name" := Value.String (default (ProfileRow.role_ref p) (RoleEntry.name <$> role));
    "vertical" := opt_text (role ≫= RoleEntry.vertical); "autonomy" := Value.String (ProfileRow.autonomy p);
    "visibility" := Value.String (ProfileRow.visibility p); "owner_user_id" := Value.String (ProfileRow.owner_user_id p);
    "version" := Value.of_int (ProfileRow.version p); "created_at" := Value.String (ProfileRow.created_at p) ]}.

Fixpoint profile_items (index : TaxonomyIndex.t) (viewer : string) (rows : list ProfileRow.t) :
    prog Store.t (list Value.t) :=
  match rows with
  | [] => Ret []
  | p :: rows =>
      let! display_name := derive_display_name p viewer in
      let! rest := profile_items index viewer rows in
      Ret (profile_item index display_name p :: rest)
  end.

Definition list_profiles (index : TaxonomyIndex.t) (auth : AuthenticatedUser.t) (role_ref search : option string) (limit : Z)
    (cursor : option string) : prog Store.t answer :=
  let!! _ := lift (authorized auth Action.ListOwnProfiles) in
  let is_admin := match AuthenticatedUser.console_role auth with ConsoleRole.Admin => true | _ => false end in
  let!? rows := ask (ProfileQueries.list_visible (AuthenticatedUser.user_id auth) is_admin role_ref search limit cursor) in
  let! items := profile_items index (AuthenticatedUser.user_id auth) rows in
  Ret (Ok (Response.mk 200 [] (Value.Array items))).

(** A column of JSON text, [null] when it is absent or malformed. *)
Definition json_column (col : option string) : Value.t := default Value.Null (col ≫= from_str).

Definition get_profile (index : TaxonomyIndex.t) (auth : AuthenticatedUser.t) (id : string) : prog Store.t answer :=
  let!? profile := fetch_current id in
  let!! _ := lift (check_profile_read_access auth profile) in
  let! display_name := derive_display_name profile (AuthenticatedUser.user_id auth) in
  let available := default [] (RoleEntry.tools <$> TaxonomyIndex.get_role index (ProfileRow.role_ref profile)) in
  let gated := filter (λ t, Is_true (holds (λ tool, bool_decide (is_Some (ToolEntry.policy tool)))
                                       (TaxonomyIndex.get_tool index t))) available in
  Ret (Ok (Response.mk 200 [] (
    foldr (λ kv, Value.assign kv.1 kv.2) (profile_item index display_name profile)
      [("tags", json_column (ProfileRow.tags profile));
       ("llm_provider", Value.String (ProfileRow.llm_provider profile));
       ("llm_model", Value.String (ProfileRow.llm_model profile));
       ("llm_temperature", Value.of_opt Value.of_f64 (ProfileRow.llm_temperature profile));
       ("llm_max_tokens", Value.of_opt Value.of_int (ProfileRow.llm_max_tokens profile));
       ("tool_allowlist", json_column (ProfileRow.tool_allowlist profile));
       ("tool_denylist", json_column (ProfileRow.tool_denylist profile));
       ("available_tools", Value.of_strings available); ("policy_gated_tools", Value.of_strings gated);
       ("budget_max_cost_micros", Value.of_opt Value.of_int (ProfileRow.budget_max_cost_micros profile));
       ("budget_max_tokens", Value.of_opt Value.of_int (ProfileRow.budget_max_tokens profile));
       ("budget_max_wall_time_ms", Value.of_opt Value.of_int (ProfileRow.budget_max_wall_time_ms profile));
       ("budget_warning_threshold", Value.of_opt Value.of_f64 (ProfileRow.budget_warning_threshold profile))]))).
End routes.

(** *** Versions *)

Section versions.
Context `{JsonCodec} `{FloatText} `{YamlCodec}.
Abbreviation answer := (result Response.t failure).

(** Versions are counted from 1 by the requests themselves, so [version + 1] fits an
    [i64]. *)
Definition update_profile (index : TaxonomyIndex.t) (now : string) (auth : AuthenticatedUser.t) (ctx : RequestContext.t)
    (headers : HeaderMap) (id : string) (body : CreateProfileRequest.t) : prog Store.t answer :=
  let!! _ := lift (validate_csrf headers (is_bearer_auth headers)) in
  let!? current := fetch_current id in
  let!! _ := lift (check_profile_write_access auth current) in
  let new_version := ProfileRow.version current + 1 in
  let new_row := row_of body id new_version (ProfileRow.owner_user_id current) now in
  let!? warnings := validated index (input_of new_row (ProfileRow.visibility new_row) (ProfileRow.owner_user_id current) (Some id)) in
  let!? _ := ProfileQueries.create_new_version id new_row in
  let! _ := store_log (AuthenticatedUser.user_id auth) AuditAction.ProfileUpdate id (Some (VersionDetail new_version)) ctx in
  Ret (Ok (Response.mk 200 [] (Value.Object
    {[ "version" := Value.of_int new_version; "warnings" := warnings_value warnings ]}))).

Definition delete_profile (now : string) (auth : AuthenticatedUser.t) (ctx : RequestContext.t) (headers : HeaderMap)
    (id : string) : prog Store.t answer :=
  let!! _ := lift (validate_csrf headers (is_bearer_auth headers)) in
  let!? profile := fetch_current id in
  let!! _ := lift (check_profile_write_access auth profile) in
  let!? _ := run (ProfileQueries.soft_delete id now) in
  let! _ := store_log (AuthenticatedUser.user_id auth) AuditAction.ProfileDelete id None ctx in
  let! affected := ask_or [] (ProfileQueries.find_active_sessions_for_profile id) in
  Ret (Ok (Response.mk 200 [] (Value.Object {[ "warnings" := Value.Array
    ((λ sid, Value.Object {[ "session_id" := Value.String sid;
        "message" := Value.String ("Session '" +:+ sid +:+ "' uses this profile in a non-terminal state") ]}) <$> affected) ]}))).

Definition version_item (v : ProfileRow.t) : Value.t :=
  Value.Object {[ "version" := Value.of_int (ProfileRow.version v); "name" := Value.String (ProfileRow.name v);
    "role_ref" := Value.String (ProfileRow.role_ref v); "autonomy" := Value.String (ProfileRow.autonomy v);
    "is_current" := Value.Bool (ProfileRow.is_current v); "created_at" := Value.String (ProfileRow.created_at v) ]}.

(** Access is checked against the current version, if there is one. *)
Definition list_versions (auth : AuthenticatedUser.t) (id : string) : prog Store.t answer :=
  let!? current := ask (ProfileQueries.get_current id) in
  let!! _ := match current with Some p => lift (check_profile_read_access auth p) | None => Ok tt end in
  let!? versions := ask (ProfileQueries.list_versions id) in
  Ret (Ok (Response.mk 200 [] (Value.Array (version_item <$> versions)))).

(** A live, current row with the configuration of another. *)
Definition with_config (source : ProfileRow.t) (id : string) (version : Z) (name owner visibility now : string) : ProfileRow.t :=
  {| ProfileRow.id := id; ProfileRow.version := version; ProfileRow.name := name;
     ProfileRow.description := ProfileRow.description source; ProfileRow.tags := ProfileRow.tags source;
     ProfileRow.role_ref := ProfileRow.role_ref source; ProfileRow.llm_provider := ProfileRow.llm_provider source;
     ProfileRow.llm_model := ProfileRow.llm_model source; ProfileRow.llm_temperature := ProfileRow.llm_temperature source;
     ProfileRow.llm_max_tokens := ProfileRow.llm_max_tokens source; ProfileRow.autonomy := ProfileRow.autonomy source;
     ProfileRow.tool_allowlist := ProfileRow.tool_allowlist source;
     ProfileRow.tool_denylist := ProfileRow.tool_denylist source;
     ProfileRow.budget_max_cost_micros := ProfileRow.budget_max_cost_micros source;
     ProfileRow.budget_max_tokens := ProfileRow.budget_max_tokens source;
     ProfileRow.budget_max_wall_time_ms := ProfileRow.budget_max_wall_time_ms source;
     ProfileRow.budget_warning_threshold := ProfileRow.budget_warning_threshold source;
     ProfileRow.owner_user_id := owner; ProfileRow.visibility := visibility;
     ProfileRow.is_current := true; ProfileRow.created_at := now; ProfileRow.deleted_at := None |}.

Definition rollback (now : string) (auth : AuthenticatedUser.t) (ctx : RequestContext.t) (headers : HeaderMap)
    (id : string) (version : Z) : prog Store.t answer :=
  let!! _ := lift (validate_csrf headers (is_bearer_auth headers)) in
  let!? current := fetch_current id in
  let!! _ := lift (check_profile_write_access auth current) in
  let!? target := ask (ProfileQueries.get_version id version) in
  let!! target := lift (ok_or target (ConsoleError.NotFound "profile_version" (id +:+ "@v" +:+ pretty version))) in
  let new_version := ProfileRow.version current + 1 in
  let new_row := with_config target id new_version (ProfileRow.name target) (ProfileRow.owner_user_id current)
                   (ProfileRow.visibility current) now in
  let!? _ := ProfileQueries.create_new_version id new_row in
  let! _ := store_log (AuthenticatedUser.user_id auth) AuditAction.ProfileUpdate id
              (Some (RollbackDetail version new_version)) ctx in
  Ret (Ok (Response.mk 200 [] (Value.Object {[ "version" := Value.of_int new_version ]}))).

Definition clone_profile (index : TaxonomyIndex.t) (new_id now : string) (auth : AuthenticatedUser.t)
    (ctx : RequestContext.t) (headers : HeaderMap) (id : string) : prog Store.t answer :=
  let!! _ := lift (validate_csrf headers (is_bearer_auth headers)) in
  let!! _ := lift (authorized auth Action.CreateProfile) in
  let!? source := fetch_current id in
  let!! _ := lift (check_profile_read_access auth source) in
  let row := with_config source new_id 1 (ProfileRow.name source +:+ " (copy)") (AuthenticatedUser.user_id auth) "private" now in
  let!? warnings := validated index (input_of row "private" (AuthenticatedUser.user_id auth) None) in
  insert_new auth ctx row AuditAction.ProfileClone (SourceDetail id) warnings.

(** The text of the answer, served as [application/x-yaml]. *)
Definition export_profile (auth : AuthenticatedUser.t) (id : string) : prog Store.t (result string failure) :=
  let!! _ := lift (authorized auth Action.ExportProfile) in
  let!? profile := fetch_current id in
  let!! _ := lift (check_profile_read_access auth profile) in
  Ret (lift (export_yaml profile)).

Definition import_profile (index : TaxonomyIndex.t) (id now : string) (auth : AuthenticatedUser.t) (ctx : RequestContext.t)
    (headers : HeaderMap) (yaml : string) : prog Store.t answer :=
  let!! _ := lift (validate_csrf headers (is_bearer_auth headers)) in
  let!! _ := lift (authorized auth Action.ImportProfile) in
  let!! data := lift (parse_import_yaml yaml) in
  let row := (import_data_to_row data) <| ProfileRow.id := id |>
               <| ProfileRow.owner_user_id := AuthenticatedUser.user_id auth |> <| ProfileRow.created_at := now |> in
  let!? warnings := validated index (input_of row "private" (AuthenticatedUser.user_id auth) None) in
  insert_new auth ctx row AuditAction.ProfileImport (NameDetail (ProfileRow.name row)) warnings.
End versions.

(** ** Theory: validation *)

Lemma push_if_nil b code message field : push_if b code message field = [] ↔ b = false.
Proof. by destruct b. Qed.

Lemma holds_false {A} (p : A → bool) o : holds p o = false ↔ ∀ a, o = Some a → p a = false.
Proof. destruct o; cbn; naive_solver. Qed.

Lemma find_split {A} (p : A → bool) l :
  match find p l with
  | Some x => ∃ before after, l = before ++ x :: after ∧ p x = true ∧ Forall (λ y, p y = false) before
  | None => Forall (λ y, p y = false) l
  end.
Proof.
  induction l as [|y l IH]; cbn; [done|]. destruct (p y) eqn:Hy.
  - by exists [], l.
  - destruct (find p l) as [x|]; [|by constructor]. destruct IH as (b & a & -> & Hx & Hb).
    exists (y :: b), a. split; [done|]. split; [done|]. by constructor.
Qed.

Section validity.
Context `{JsonCodec} `{FloatText}.
Import ProfileInput.

Definition budget_ok (b : option Z) : Prop := ∀ v, b = Some v → 0 ≤ v.

(** The rules on the fields. *)
Record fields_ok (input : t) : Prop := {
  fo_name : 1 ≤ str_len (name input) ≤ 200;
  fo_provider : llm_provider input ≠ "";
  fo_model : llm_model input ≠ "";
  fo_temperature : ∀ x, llm_temperature input = Some x → in_range (S754_zero false) (f64_of_Z 2) x = true;
  fo_max_tokens : ∀ n, llm_max_tokens input = Some n → 0 < n;
  fo_autonomy : autonomy input ∈ ["autonomous"; "assisted"; "supervised"];
  fo_threshold : ∀ x, budget_warning_threshold input = Some x → in_range (S754_zero false) (f64_of_Z 1) x = true;
  fo_cost : budget_ok (budget_max_cost_micros input);
  fo_tokens : budget_ok (budget_max_tokens input);
  fo_time : budget_ok (budget_max_wall_time_ms input);
  fo_tags : ∀ text, tags input = Some text → ∃ l, read_strings text = Some l ∧ Forall (λ tag, str_len tag ≤ 50) l;
  fo_visibility : visibility input ∈ ["private"; "shared"];
}.

(** The rules on the role and the tools. *)
Record tools_ok (input : t) (index : TaxonomyIndex.t) (role : RoleEntry.t) : Prop := {
  to_role : TaxonomyIndex.get_role index (role_ref input) = Some role;
  to_known : ∀ name, name ∈ tool_list (tool_allowlist input) ++ tool_list (tool_denylist input) →
    ∃ tool, TaxonomyIndex.get_tool index name = Some tool
            ∧ ∀ v, RoleEntry.vertical role = Some v → ToolEntry.vertical tool = Some v;
  to_some : is_Some (RoleEntry.vertical role) →
    ∃ name, (name ∉ tool_list (tool_denylist input))
            ∧ (name ∈ tool_list (tool_allowlist input)
               ∨ tool_list (tool_allowlist input) = [] ∧ name ∈ RoleEntry.tools role);
}.

(** The name is not that of another live profile of the owner. *)
Definition name_free (input : t) (s : Store.t) : Prop :=
  ∀ p, p ∈ ProfileQueries.profiles s → ProfileQueries.live p = true → ProfileRow.name p = name input →
       ProfileRow.owner_user_id p = owner_user_id input → exclude_id input = Some (ProfileRow.id p).

(** The first tag that is too long is cut in the middle of a character. *)
Definition bad_cut (input : t) : Prop :=
  ∃ text before tag after, tags input = Some text ∧ read_strings text = Some (before ++ tag :: after)
    ∧ Forall (λ tag, str_len tag ≤ 50) before ∧ 50 < str_len tag ∧ slice_to tag 50 = None.

Lemma check_tags_spec tags :
  match check_tags tags with
  | Some vs => vs = [] ↔ ∀ text, tags = Some text → ∃ l, read_strings text = Some l ∧ Forall (λ tag, str_len tag ≤ 50) l
  | None => ∃ text before tag after, tags = Some text ∧ read_strings text = Some (before ++ tag :: after)
              ∧ Forall (λ tag, str_len tag ≤ 50) before ∧ 50 < str_len tag ∧ slice_to tag 50 = None
  end.
Proof.
  assert (Hle : ∀ l, Forall (λ tag, (50 <? str_len tag) = false) l ↔ Forall (λ tag, str_len tag ≤ 50) l).
  { intros l. apply Forall_iff. intros tag. rewrite Z.ltb_ge. done. }
  destruct tags as [text|]; cbn; [|by split]. destruct (read_strings text) as [l|] eqn:Hr; cbn.
  2: { split; [done|]. intros Hall. destruct (Hall text eq_refl) as (l & Hl & _). congruence. }
  pose proof (find_split (λ tag, 50 <? str_len tag) l) as Hf. destruct (find _ l) as [tag|].
  - destruct Hf as (before & after & -> & Hlong%Z.ltb_lt & Hb). rewrite Hle in Hb.
    destruct (slice_to tag 50) eqn:Hs; cbn; [|by exists text, before, tag, after].
    split; [done|]. intros Hall. destruct (Hall text eq_refl) as (l' & Hl' & Hf'). simplify_eq.
    apply Forall_app in Hf' as [_ Hf']. apply Forall_cons in Hf' as [? _]. lia.
  - split; [|done]. intros _ ? [= <-]. exists l. split; [done|]. by apply Hle.
Qed.

Lemma str_len_pos s : s ≠ "" ↔ 1 ≤ str_len s.
Proof. unfold str_len. destruct s; cbn; split; [done|lia|lia|done]. Qed.

Lemma check_fields_spec input :
  match check_fields input with
  | Some vs => vs = [] ↔ fields_ok input
  | None => bad_cut input
  end.
Proof.
  unfold check_fields. pose proof (check_tags_spec (tags input)) as Htags.
  destruct (check_tags (tags input)) as [tvs|]; cbn; [|exact Htags].
  unfold check_budget. rewrite !app_nil, !push_if_nil, !holds_false, Htags, orb_false_iff, !is_empty_spec, Z.ltb_ge, !negb_false_iff, !bool_decide_eq_true.
  split.
  - intros ([Hn Hn'] & Hp & Hm & Ht & Hmt & Ha & Hth & Hc & Htk & Hw & Htg & Hv). apply str_len_pos in Hn.
    split; try done; unfold budget_ok.
    + intros x Hx. specialize (Ht x Hx). by apply negb_false_iff in Ht.
    + intros n Hx. specialize (Hmt n Hx). by apply Z.leb_gt in Hmt.
    + intros x Hx. specialize (Hth x Hx). by apply negb_false_iff in Hth.
    + intros v Hx. specialize (Hc v Hx). by apply Z.ltb_ge in Hc.
    + intros v Hx. specialize (Htk v Hx). by apply Z.ltb_ge in Htk.
    + intros v Hx. specialize (Hw v Hx). by apply Z.ltb_ge in Hw.
  - intros []. rewrite str_len_pos. unfold budget_ok in *. repeat split; try done; try lia; intros.
    + by apply negb_false_iff, fo_temperature0.
    + by apply Z.leb_gt, fo_max_tokens0.
    + by apply negb_false_iff, fo_threshold0.
    + by apply Z.ltb_ge, fo_cost0.
    + by apply Z.ltb_ge, fo_tokens0.
    + by apply Z.ltb_ge, fo_time0.
Qed.

Lemma check_tool_spec index role_ref vertical name :
  check_tool index role_ref vertical name = []
  ↔ ∃ tool, TaxonomyIndex.get_tool index name = Some tool ∧ ∀ v, vertical = Some v → ToolEntry.vertical tool = Some v.
Proof.
  unfold check_tool. destruct (TaxonomyIndex.get_tool index name) as [tool|].
  - destruct vertical as [v|]; [|naive_solver]. rewrite push_if_nil, negb_false_iff, bool_decide_eq_true. naive_solver.
  - split; [done|]. by intros (? & ? & _).
Qed.

Lemma allowed_tools_some role allow deny :
  allowed_tools role allow deny ≠ []
  ↔ ∃ name, (name ∉ deny) ∧ (name ∈ allow ∨ allow = [] ∧ name ∈ RoleEntry.tools role).
Proof.
  assert (Hin : ∀ name, name ∈ allowed_tools role allow deny
            ↔ (name ∉ deny) ∧ (name ∈ allow ∨ allow = [] ∧ name ∈ RoleEntry.tools role)).
  { intros name. unfold allowed_tools. rewrite list_elem_of_filter.
    destruct allow; [rewrite elem_of_nil|]; naive_solver. }
  split.
  - destruct (allowed_tools role allow deny) as [|name l]; [done|]. intros _. exists name. apply Hin. left.
  - intros (name & Hname) Hnil. apply Hin in Hname. rewrite Hnil in Hname. by apply elem_of_nil in Hname.
Qed.

Lemma bind_nil {A B} (f : A → list B) l : l ≫= f = [] ↔ ∀ x, x ∈ l → f x = [].
Proof.
  induction l as [|x l IH]; cbn.
  - split; [by intros _ x ?%elem_of_nil|done].
  - rewrite app_nil, IH. setoid_rewrite elem_of_cons. naive_solver.
Qed.

Lemma check_taxonomy_spec input index : (check_taxonomy input index).1 = [] ↔ ∃ role, tools_ok input index role.
Proof.
  unfold check_taxonomy. destruct (TaxonomyIndex.get_role index (role_ref input)) as [r|] eqn:Hr.
  2: { cbn. split; [done|]. intros [role []]. congruence. }
  cbn [mbind option_bind]. set (vs := push_if (negb _) _ _ _ ++ _).
  assert (Hvs : vs = [] ↔ ∀ name, name ∈ tool_list (tool_allowlist input) ++ tool_list (tool_denylist input) →
    ∃ tool, TaxonomyIndex.get_tool index name = Some tool
            ∧ ∀ v, RoleEntry.vertical r = Some v → ToolEntry.vertical tool = Some v).
  { subst vs. rewrite app_nil, bind_nil. setoid_rewrite check_tool_spec. 
    rewrite push_if_nil, negb_false_iff, bool_decide_eq_true. split; [by intros []|]. by split. }
  case_bool_decide as Hv; cbn [fst].
  - rewrite app_nil, Hvs, push_if_nil, bool_decide_eq_false, allowed_tools_some. split.
    + intros [Hk Hs]. exists r. by split.
    + intros [role [Hrole Hk Hs]]. rewrite Hr in Hrole. simplify_eq. split; [done|]. by apply Hs.
  - rewrite Hvs. split; [intros Hk; exists r; by split|]. intros [role [Hrole Hk _]]. by simplify_eq.
Qed.

Lemma name_exists_spec input s :
  ProfileQueries.name_exists_for_user (name input) (owner_user_id input) (exclude_id input) s = false ↔ name_free input s.
Proof.
  unfold ProfileQueries.name_exists_for_user. rewrite <-not_true_iff_false, existsb_exists. unfold name_free. split.
  - intros Hno p Hp Hlive Hname Howner. destruct (decide (exclude_id input = Some (ProfileRow.id p))) as [|Hne]; [done|].
    destruct Hno. exists p. split; [by apply list_elem_of_In|]. rewrite Hlive, !bool_decide_true by done. cbn.
    destruct (exclude_id input); [|done]. rewrite bool_decide_false by congruence. done.
  - intros Hfree (p & Hp%list_elem_of_In & Hall).
    apply andb_prop in Hall as [[[Hn%bool_decide_eq_true Ho%bool_decide_eq_true]%andb_prop Hl]%andb_prop He].
    specialize (Hfree p Hp Hl Hn Ho). rewrite Hfree, bool_decide_true in He by done. done.
Qed.

Lemma bad_cut_spec faults input s index :
  bad_cut input → (run_prog faults (validate_profile input index) s).2 = None.
Proof.
  intros (text & before & tag & after & Ht & Hr & Hb & Hlong & Hs). unfold validate_profile, check_fields, check_tags.
  rewrite Ht, Hr. pose proof (find_split (λ tag, 50 <? str_len tag) (before ++ tag :: after)) as Hf.
  destruct (find _ _) as [tag'|].
  - destruct Hf as (b & a & Heq & Hl & Hb'). assert (tag' = tag) as ->; [|by rewrite Hs].
    clear -Heq Hl Hb' Hb Hlong. apply Z.ltb_lt in Hl. revert b Heq Hb'.
    induction before as [|x before IH]; intros [|y b] Heq Hb'; cbn in Heq; simplify_eq; try done.
    + apply Forall_cons in Hb' as [?%Z.ltb_ge _]. lia.
    + apply Forall_cons in Hb as [? _]. lia.
    + apply Forall_cons in Hb as [_ ?], Hb' as [_ ?]. by eapply IH.
  - apply Forall_app in Hf as [_ Hf]. apply Forall_cons in Hf as [?%Z.ltb_ge _]. lia.
Qed.

(** C27. A profile is valid exactly when its fields keep their rules; its role and every tool
    its two lists name are in the index, and, when the role is of a vertical, the tools are
    of that vertical and the lists leave it at least one; and no other live profile of the
    owner has the name, or the query for it failed.  A list that is no JSON list of strings
    counts as empty, and an empty list allows every tool of the role.  The validation does
    not return exactly when the first tag that is too long cannot be cut at byte 50. *)
Theorem profile_validation_exact faults input index s :
  let r := (run_prog faults (validate_profile input index) s).2 in
  (r = None ↔ bad_cut input)
  ∧ ∀ v, r = Some v →
      ValidationResult.is_valid v = true
      ↔ fields_ok input ∧ (∃ role, tools_ok input index role)
        ∧ (is_Some (default None (head faults)) ∨ name_free input s).
Proof.
  intros r. split; [split; [|apply bad_cut_spec]|].
  - subst r. unfold validate_profile. pose proof (check_fields_spec input) as Hf.
    destruct (check_fields input); [|done]. destruct (check_taxonomy input index). cbn. by destruct (default None (head faults)).
  - intros v. subst r. unfold validate_profile. pose proof (check_fields_spec input) as Hf.
    destruct (check_fields input) as [vs|]; [|done]. pose proof (check_taxonomy_spec input index) as Ht.
    destruct (check_taxonomy input index) as [tvs ws]. cbn [fst] in Ht.
    rewrite <-Hf, <-Ht, <-name_exists_spec. unfold ValidationResult.is_valid.
    cbn -[ProfileQueries.name_exists_for_user app].
    destruct (default None (head faults)) as [e|]; cbn [snd]; intros [= <-]; cbn [ValidationResult.violations].
    + rewrite app_nil_r. destruct vs, tvs; naive_solver.
    + destruct vs, tvs, (ProfileQueries.name_exists_for_user _ _ _ _); cbn; naive_solver.
Qed.

End validity.

(** ** Theory: export and import *)

Section yaml_theory.
Context `{JsonCodec} `{YamlCodec}.

(** A list column as the routes write it: absent, or the text of a list that reads back. *)
Definition list_text (col : option string) (l : option (list string)) : Prop :=
  col = strings_json <$> l ∧ ∀ x, l = Some x → read_strings (strings_json x) = Some x.

Lemma list_text_read col l : list_text col l → col ≫= read_strings = l.
Proof. intros [-> Hl]. destruct l as [l|]; [|done]. cbn. by apply Hl. Qed.

(** Importing what was exported gives the profile back as the first version of a new
    private one: every field is the same but the id, the version, the owner, the visibility and the
    dates, when the tags, if there are any, are not the empty list and YAML reads back what
    it wrote. *)
Theorem yaml_round_trip (row : ProfileRow.t) (text : string) tags allow deny
    (Htags : list_text (ProfileRow.tags row) tags) (Hne : tags ≠ Some [])
    (Hallow : list_text (ProfileRow.tool_allowlist row) allow)
    (Hdeny : list_text (ProfileRow.tool_denylist row) deny)
    (Hexport : export_yaml row = Ok text) (Hyaml : yaml_from_str text = Ok (export_data row)) :
  ∃ data, parse_import_yaml text = Ok data
  ∧ import_data_to_row data
    = with_config row "" 1 (ProfileRow.name row) "" "private" "".
Proof.
  exists (ProfileYaml.profile (export_data row)). unfold parse_import_yaml. rewrite Hyaml. split; [done|].
  apply list_text_read in Htags as Ht, Hallow as Ha, Hdeny as Hd.
  unfold import_data_to_row, export_data, with_config. rewrite Ht, Ha, Hd. cbn.
  destruct Htags as [-> _], Hallow as [-> _], Hdeny as [-> _]. destruct row. cbn.
  f_equal; try done.
  - by destruct tags as [[]|].
  - by destruct allow, deny.
  - by destruct allow, deny.
  - by repeat case_match.
  - by repeat case_match.
  - by repeat case_match.
  - by repeat case_match.
Qed.
End yaml_theory.

(** ** Theory: the versions of a profile *)

(** A request that writes profiles, with its inputs. *)
Module Call.
Record t : Type := mk {
  index : TaxonomyIndex.t; new_id : string; now : string; auth : AuthenticatedUser.t; ctx : RequestContext.t;
  headers : HeaderMap;
}.
End Call.

Inductive profile_request : Type :=
| CreateProfile (body : CreateProfileRequest.t)
| UpdateProfile (id : string) (body : CreateProfileRequest.t)
| DeleteProfile (id : string)
| RollbackProfile (id : string) (version : Z)
| CloneProfile (id : string)
| ImportProfile (yaml : string).

(** Every version of a profile is kept, numbered from 1 in order, and only the last can be
    the current one. *)
Definition versions_of (id : string) (s : Store.t) : list ProfileRow.t :=
  filter (λ p, ProfileRow.id p = id) (ProfileQueries.profiles s).

Definition linear_at (id : string) (s : Store.t) : Prop :=
  let l := versions_of id s in
  ProfileRow.version <$> l = seqZ 1 (Z.of_nat (length l))
  ∧ ∀ p, p ∈ l → ProfileRow.is_current p = true → ProfileRow.version p = Z.of_nat (length l).

Definition linear (s : Store.t) : Prop := ∀ id, linear_at id s.

(** No current version, and as many versions as given. *)
Definition none_current (id : string) (n : Z) (s : Store.t) : Prop :=
  Z.of_nat (length (versions_of id s)) = n ∧ ∀ p, p ∈ versions_of id s → ProfileRow.is_current p = false.

Lemma same_linear s s' : ProfileQueries.profiles s' = ProfileQueries.profiles s → linear s → linear s'.
Proof. intros Heq Hl id. unfold linear_at, versions_of. rewrite Heq. apply Hl. Qed.

Lemma get_current_Some id s p :
  ProfileQueries.get_current id s = Some p →
  p ∈ versions_of id s ∧ ProfileRow.is_current p = true ∧ ProfileRow.deleted_at p = None.
Proof.
  unfold ProfileQueries.get_current, Profiles.get_current, versions_of.
  destruct (list_find _ _) as [[i p']|] eqn:Hf; [|done]. intros [= <-].
  apply list_find_Some in Hf as (Hi & (Hid & Hc & Hd) & _). split; [|done].
  apply list_elem_of_filter. split; [done|]. by eapply list_elem_of_lookup_2.
Qed.

Lemma get_version_is_Some id v s :
  is_Some (ProfileQueries.get_version id v s) ↔ v ∈ ProfileRow.version <$> versions_of id s.
Proof.
  unfold ProfileQueries.get_version, versions_of. rewrite fmap_is_Some, list_elem_of_fmap. split.
  - intros [[i p] (Hi & [Hid Hv] & _)%list_find_Some]. exists p. split; [done|]. apply list_elem_of_filter.
    split; [done|]. by eapply list_elem_of_lookup_2.
  - intros (p & -> & [Hid Hin]%list_elem_of_filter). apply (list_find_elem_of _ _ p); done.
Qed.

(** Changing rows without their ids and versions. *)
Lemma versions_fmap (g : ProfileRow.t → ProfileRow.t) id s :
  (∀ p, ProfileRow.id (g p) = ProfileRow.id p) →
  versions_of id (ProfileQueries.on_profiles (fmap g) s) = g <$> versions_of id s.
Proof.
  intros Hg. unfold versions_of, ProfileQueries.profiles. cbn. induction (Db.profiles (Store.console s)) as [|p l IH]; [done|].
  rewrite fmap_cons, !filter_cons, Hg, IH. by case_decide.
Qed.

Lemma linear_fmap (g : ProfileRow.t → ProfileRow.t) s :
  (∀ p, ProfileRow.id (g p) = ProfileRow.id p ∧ ProfileRow.version (g p) = ProfileRow.version p
        ∧ (ProfileRow.is_current (g p) = true → ProfileRow.is_current p = true)) →
  linear s → linear (ProfileQueries.on_profiles (fmap g) s).
Proof.
  intros Hg Hl id. destruct (Hl id) as [Hv Hc]. unfold linear_at. rewrite versions_fmap by apply Hg.
  rewrite length_fmap, <-list_fmap_compose. split.
  - rewrite <-Hv. apply list_fmap_ext. intros ? p _. cbn. apply Hg.
  - intros ? (p & -> & Hp)%list_elem_of_fmap Hcur. destruct (Hg p) as (_ & -> & Hcur'). by apply Hc, Hcur'.
Qed.

Lemma unset_linear id s :
  linear s → linear (ProfileQueries.unset_current id s).1
             ∧ none_current id (Z.of_nat (length (versions_of id s))) (ProfileQueries.unset_current id s).1.
Proof.
  intros Hl. cbn [ProfileQueries.unset_current fst]. split.
  - apply linear_fmap; [|done]. intros p. by case_bool_decide.
  - split; rewrite versions_fmap by (intros p; by case_bool_decide); [by rewrite length_fmap|].
    intros ? (p & -> & [Hid _]%list_elem_of_filter)%list_elem_of_fmap. by rewrite bool_decide_true.
Qed.

Lemma soft_delete_linear id now s : linear s → linear (ProfileQueries.soft_delete id now s).1.
Proof. intros Hl. cbn. apply linear_fmap; [|done]. intros p. by destruct (_ && _). Qed.

(** What an insert does to the versions. *)
Lemma insert_profile_spec row s :
  (ProfileQueries.insert_profile row s).1 = s
  ∨ ∃ row', ProfileRow.id row' = ProfileRow.id row ∧ ProfileRow.version row' = ProfileRow.version row
    ∧ ProfileRow.is_current row' = ProfileRow.is_current row ∧ ProfileRow.deleted_at row' = ProfileRow.deleted_at row
    ∧ ProfileQueries.profiles (ProfileQueries.insert_profile row s).1 = ProfileQueries.profiles s ++ [row']
    ∧ (ProfileQueries.insert_profile row s).2 = Ok tt
    ∧ ProfileRow.version row ∉ ProfileRow.version <$> versions_of (ProfileRow.id row) s.
Proof.
  unfold ProfileQueries.insert_profile. case_bool_decide as Hdup; [by left|].
  repeat (match goal with |- context [if negb ?b then _ else _] => destruct (negb b) end; [by left|]).
  right. exists (row <| ProfileRow.llm_temperature ::= sql_real |> <| ProfileRow.budget_warning_threshold ::= sql_real |>).
  do 6 (split; [reflexivity|]). intros Hin. by apply Hdup, get_version_is_Some.
Qed.

Lemma insert_linear row s :
  linear s →
  none_current (ProfileRow.id row) (ProfileRow.version row - 1) s
  ∨ ProfileRow.version row = 1 →
  linear (ProfileQueries.insert_profile row s).1.
Proof.
  intros Hl Hrow. destruct (insert_profile_spec row s) as [->|(row' & Hid & Hv & Hc & _ & Hp & _ & Hfresh)]; [done|].
  intros id. unfold linear_at, versions_of. rewrite Hp, filter_app. fold (versions_of id s).
  destruct (Hl id) as [Hvs Hcs]. rewrite filter_cons, filter_nil. case_decide as Hd; [|by rewrite app_nil_r].
  assert (Hn : none_current id (ProfileRow.version row - 1) s).
  { rewrite <-Hd, Hid. destruct Hrow as [|Hone]; [done|]. rewrite Hd in Hid. rewrite <-Hid, Hone in *.
    destruct (versions_of id s) as [|p l] eqn:Hnil; [split; [by rewrite Hnil|]; rewrite Hnil; by intros ? ?%elem_of_nil|].
    destruct Hfresh. rewrite Hvs. apply elem_of_seqZ. cbn. lia. }
  destruct Hn as [Hlen Hnone]. rewrite length_app, fmap_app. cbn. split.
  - rewrite Hvs, Nat2Z.inj_add, seqZ_app by lia. f_equal. rewrite Hv, Hlen. unfold seqZ. rewrite (Nat2Z.id 1). cbn. f_equal. lia.
  - intros p [Hin| ->%list_elem_of_singleton]%elem_of_app Hcur; [by rewrite (Hnone p Hin) in Hcur|]. rewrite Hv. lia.
Qed.

Lemma validated_same `{JsonCodec} `{FloatText} (P : Store.t → Prop) index input :
  prog_spec P (validated index input) (λ _ s, P s).
Proof.
  unfold validated, validate_profile. destruct (check_fields input); [|by apply prog_spec_ret].
  destruct (check_taxonomy input index) as [tvs ws]. cbn [prog_bind ask_or]. by apply prog_spec_stmt.
Qed.

(** Writing the log leaves the profiles alone. *)
Lemma log_same (P : Store.t → Prop) uid action target detail ctx :
  (∀ s a, P s → P (s <| Store.accounts := a |>)) → prog_spec P (store_log uid action target detail ctx) (λ _ s, P s).
Proof.
  intros HP. unfold store_log, exec_ok. apply (prog_spec_stmt P (λ _ s, P s) _ (λ _, tt)); [|done].
  intros s Hs. destruct (insert_entry _ _) as [a r]. by apply HP.
Qed.

Lemma fetch_spec (P : Store.t → Prop) id :
  prog_spec P (fetch_current id) (λ r s, P s ∧ ∀ p, r = Ok p → ProfileQueries.get_current id s = Some p).
Proof.
  unfold fetch_current, ask. cbn [prog_bind]. intros faults s Hs. cbn.
  destruct (default None (head faults)); cbn; [done|]. split; [done|]. intros p.
  destruct (ProfileQueries.get_current id s); [by intros [= <-]|done].
Qed.

Section serving.
Context `{JsonCodec} `{FloatText} `{YamlCodec}.

Definition serve_profile (c : Call.t) (r : profile_request) : prog Store.t (result Response.t failure) :=
  let '(Call.mk index new_id now auth ctx headers) := c in
  match r with
  | CreateProfile body => create_profile index new_id now auth ctx headers body
  | UpdateProfile id body => update_profile index now auth ctx headers id body
  | DeleteProfile id => delete_profile now auth ctx headers id
  | RollbackProfile id version => rollback now auth ctx headers id version
  | CloneProfile id => clone_profile index new_id now auth ctx headers id
  | ImportProfile yaml => import_profile index new_id now auth ctx headers yaml
  end.

Definition serve_profiles (history : list (Call.t * profile_request * list (option string))) (s : Store.t) : Store.t :=
  fold_left (λ s '(c, r, faults), (run_prog faults (serve_profile c r) s).1) history s.

(** A condition on the store that the statements of the requests keep: a next version is
    inserted after the current ones were unset, a first version at any time. *)
Record stable (I : Store.t → Prop) : Prop := {
  st_accounts : ∀ s a, I s → I (s <| Store.accounts := a |>);
  st_delete : ∀ id now s, I s → I (ProfileQueries.soft_delete id now s).1;
  st_unset : ∀ id s, I s → I (ProfileQueries.unset_current id s).1;
  st_first : ∀ row s, ProfileRow.version row = 1 → I s → I (ProfileQueries.insert_profile row s).1;
  st_next : ∀ row p s, I s → ProfileQueries.get_current (ProfileRow.id row) s = Some p →
    ProfileRow.version row = ProfileRow.version p + 1 →
    I (ProfileQueries.insert_profile row (ProfileQueries.unset_current (ProfileRow.id row) s).1).1;
}.

Section stability.
Context (I : Store.t → Prop) (HI : stable I).
Abbreviation keeping p := (prog_spec I p (λ _ s, I s)).

Lemma log_stable {A} uid action target detail ctx (a : A) :
  keeping (let! _ := store_log uid action target detail ctx in Ret a).
Proof. eapply prog_spec_bind; [apply log_same, HI|]. intros []. by apply prog_spec_ret. Qed.

Lemma insert_new_stable auth ctx row action detail ws :
  ProfileRow.version row = 1 → keeping (insert_new auth ctx row action detail ws).
Proof.
  intros Hv. unfold insert_new. eapply (prog_spec_bind _ (λ _ s, I s)).
  - apply prog_spec_stmt; [|done]. intros s Hs. by apply HI.
  - intros [[]|e]; [apply log_stable|by apply prog_spec_ret].
Qed.

Lemma new_version_stable id row p :
  ProfileRow.id row = id → ProfileRow.version row = ProfileRow.version p + 1 →
  prog_spec (λ s, I s ∧ ProfileQueries.get_current id s = Some p)
    (ProfileQueries.create_new_version id row) (λ _ s, I s).
Proof.
  intros Hid Hv faults s [Hs Hp]. unfold ProfileQueries.create_new_version, run. cbn -[ProfileQueries.insert_profile].
  destruct (default None (head faults)); cbn -[ProfileQueries.insert_profile]; [done|].
  destruct (default None (head (tail faults))); cbn -[ProfileQueries.insert_profile]; [by apply (st_unset _ HI id s)|].
  subst id. pose proof (st_next _ HI row p s Hs Hp Hv) as Hnext. cbn -[ProfileQueries.insert_profile] in Hnext.
  by destruct (ProfileQueries.insert_profile row _).
Qed.

(** A request that finds the current version and then writes with it. *)
Lemma fetched_stable {A} id (k : ProfileRow.t → prog Store.t (result A failure)) :
  (∀ p, prog_spec (λ s, I s ∧ ProfileQueries.get_current id s = Some p) (k p) (λ _ s, I s)) →
  keeping (let!? p := fetch_current id in k p).
Proof.
  intros Hk. eapply prog_spec_bind; [apply (fetch_spec I)|]. intros [p|e]; [|apply prog_spec_ret; by intros s []].
  eapply prog_spec_mono; [apply (Hk p)| |done]. intros s [Hs Hp]. auto.
Qed.

Lemma create_stable index id now auth ctx headers body : keeping (create_profile index id now auth ctx headers body).
Proof.
  unfold create_profile. destruct (lift (validate_csrf _ _)); [|by apply prog_spec_ret].
  destruct (lift (authorized _ _)); [|by apply prog_spec_ret].
  eapply prog_spec_bind; [apply validated_same|]. intros [ws|e]; [by apply insert_new_stable|by apply prog_spec_ret].
Qed.

Lemma import_stable index id now auth ctx headers yaml : keeping (import_profile index id now auth ctx headers yaml).
Proof.
  unfold import_profile. destruct (lift (validate_csrf _ _)); [|by apply prog_spec_ret].
  destruct (lift (authorized _ _)); [|by apply prog_spec_ret]. destruct (lift (parse_import_yaml _)); [|by apply prog_spec_ret].
  eapply prog_spec_bind; [apply validated_same|]. intros [ws|e]; [by apply insert_new_stable|by apply prog_spec_ret].
Qed.

Lemma clone_stable index id now auth ctx headers source : keeping (clone_profile index id now auth ctx headers source).
Proof.
  unfold clone_profile. destruct (lift (validate_csrf _ _)); [|by apply prog_spec_ret].
  destruct (lift (authorized _ _)); [|by apply prog_spec_ret]. apply fetched_stable. intros p.
  destruct (lift (check_profile_read_access _ _)); [|apply prog_spec_ret; by intros s []].
  eapply prog_spec_bind; [apply validated_same|]. intros [ws|e]; [|apply prog_spec_ret; by intros s []].
  eapply prog_spec_mono; [by apply insert_new_stable|by intros s []|done].
Qed.

Lemma delete_stable now auth ctx headers id : keeping (delete_profile now auth ctx headers id).
Proof.
  unfold delete_profile. destruct (lift (validate_csrf _ _)); [|by apply prog_spec_ret]. apply fetched_stable. intros p.
  destruct (lift (check_profile_write_access _ _)); [|apply prog_spec_ret; by intros s []].
  eapply (prog_spec_bind _ (λ _ s, I s)).
  { apply prog_spec_stmt; [|by intros e s []]. intros s [Hs _]. by apply (st_delete _ HI). }
  intros [b|e]; [|by apply prog_spec_ret]. eapply prog_spec_bind; [apply log_same, HI|]. intros [].
  eapply (prog_spec_bind _ (λ _ s, I s)); [by apply prog_spec_stmt|]. intros l. by apply prog_spec_ret.
Qed.

Lemma update_stable index now auth ctx headers id body : keeping (update_profile index now auth ctx headers id body).
Proof.
  unfold update_profile. destruct (lift (validate_csrf _ _)); [|by apply prog_spec_ret]. apply fetched_stable. intros p.
  destruct (lift (check_profile_write_access _ _)); [|apply prog_spec_ret; by intros s []].
  eapply prog_spec_bind; [apply validated_same|]. intros [ws|e]; [|apply prog_spec_ret; by intros s []].
  eapply prog_spec_bind; [by apply (new_version_stable _ _ p)|]. intros [[]|e]; [apply log_stable|by apply prog_spec_ret].
Qed.

Lemma rollback_stable now auth ctx headers id version : keeping (rollback now auth ctx headers id version).
Proof.
  unfold rollback. destruct (lift (validate_csrf _ _)); [|by apply prog_spec_ret]. apply fetched_stable. intros p.
  destruct (lift (check_profile_write_access _ _)); [|apply prog_spec_ret; by intros s []].
  eapply (prog_spec_bind _ (λ _ s, I s ∧ ProfileQueries.get_current id s = Some p)); [by apply prog_spec_stmt|].
  intros [target|e]; [|apply prog_spec_ret; by intros s []].
  destruct (lift (ok_or target _)); [|apply prog_spec_ret; by intros s []].
  eapply prog_spec_bind; [by apply (new_version_stable _ _ p)|]. intros [[]|e]; [apply log_stable|by apply prog_spec_ret].
Qed.

Lemma serve_profiles_stable history s : I s → I (serve_profiles history s).
Proof.
  intros Hs. unfold serve_profiles. apply fold_left_inv; [|done]. intros s' [[c r] faults] _.
  assert (Hserve : keeping (serve_profile c r)); [|apply Hserve].
  destruct c, r; cbn [serve_profile]; auto using create_stable, update_stable, delete_stable, rollback_stable, clone_stable, import_stable.
Qed.
End stability.
End serving.

(** What a row says besides whether it is current or deleted. *)
Definition config_of (p : ProfileRow.t) : ProfileRow.t :=
  with_config p (ProfileRow.id p) (ProfileRow.version p) (ProfileRow.name p) (ProfileRow.owner_user_id p)
    (ProfileRow.visibility p) (ProfileRow.created_at p).

Definition history_kept (s0 s : Store.t) : Prop :=
  (config_of <$> ProfileQueries.profiles s0) `prefix_of` (config_of <$> ProfileQueries.profiles s).

Lemma kept_fmap g s0 s :
  (∀ p, config_of (g p) = config_of p) → history_kept s0 s → history_kept s0 (ProfileQueries.on_profiles (fmap g) s).
Proof.
  intros Hg Hk. unfold history_kept. cbn. rewrite <-list_fmap_compose.
  rewrite (list_fmap_ext (config_of ∘ g) config_of) by (intros; apply Hg). exact Hk.
Qed.

Lemma kept_insert row s0 s : history_kept s0 s → history_kept s0 (ProfileQueries.insert_profile row s).1.
Proof.
  intros Hk. destruct (insert_profile_spec row s) as [->|(row' & _ & _ & _ & _ & Hp & _)]; [done|].
  unfold history_kept. rewrite Hp, fmap_app. by apply prefix_app_r.
Qed.

Lemma kept_stable s0 : stable (history_kept s0).
Proof.
  assert (Hunset : ∀ id s, history_kept s0 s → history_kept s0 (ProfileQueries.unset_current id s).1).
  { intros id s. apply kept_fmap. intros p. by case_bool_decide. }
  split; [done| |done| |].
  - intros id now s. apply kept_fmap. intros p. by destruct (_ && _).
  - intros row s _. apply kept_insert.
  - intros row p s Hs _ _. by apply kept_insert, Hunset.
Qed.

Lemma linear_stable : stable linear.
Proof.
  split.
  - intros s a. by apply same_linear.
  - intros. by apply soft_delete_linear.
  - intros. by apply unset_linear.
  - intros. apply insert_linear; auto.
  - intros row p s Hl Hp Hv. destruct (unset_linear (ProfileRow.id row) s Hl) as [Hl' Hn].
    apply insert_linear; [done|]. left.
    apply get_current_Some in Hp as (Hin & Hc & _). rewrite <-(proj2 (Hl _) p Hin Hc) in Hn.
    by replace (ProfileRow.version row - 1) with (ProfileRow.version p) by lia.
Qed.

(** No live version is left of a profile that once had one. *)
Definition gone (id : string) (s : Store.t) : Prop :=
  versions_of id s ≠ [] ∧ ∀ p, p ∈ versions_of id s → ProfileQueries.live p = false.

Lemma gone_current id s : gone id s → ProfileQueries.get_current id s = None.
Proof.
  intros [_ Hg]. destruct (ProfileQueries.get_current id s) as [p|] eqn:Hp; [|done].
  apply get_current_Some in Hp as (Hin & Hc & Hd). specialize (Hg p Hin). unfold ProfileQueries.live in Hg.
  by rewrite Hc, Hd in Hg.
Qed.

Lemma gone_fmap g id s :
  (∀ p, ProfileRow.id (g p) = ProfileRow.id p ∧ (ProfileQueries.live (g p) = true → ProfileQueries.live p = true)) →
  gone id s → gone id (ProfileQueries.on_profiles (fmap g) s).
Proof.
  intros Hg [Hne Hall]. split; rewrite versions_fmap by apply Hg.
  - by destruct (versions_of id s).
  - intros ? (p & -> & Hp)%list_elem_of_fmap. apply not_true_is_false. intros Hl%Hg. by rewrite (Hall p Hp) in Hl.
Qed.

Lemma gone_insert_other row id s :
  ProfileRow.id row ≠ id → gone id s → gone id (ProfileQueries.insert_profile row s).1.
Proof.
  intros Hne Hg. destruct (insert_profile_spec row s) as [->|(row' & Hid & _ & _ & _ & Hp & _)]; [done|].
  unfold gone, versions_of. rewrite Hp, filter_app, filter_cons, filter_nil. fold (versions_of id s).
  rewrite decide_False by congruence. by rewrite app_nil_r.
Qed.

Lemma gone_unset id id' s : gone id s → gone id (ProfileQueries.unset_current id' s).1.
Proof. apply gone_fmap. intros p. by case_bool_decide. Qed.

Lemma gone_stable id : stable (λ s, linear s ∧ gone id s).
Proof.
  destruct linear_stable as [La Ld Lu Lf Ln]. split.
  - intros s a [Hl Hg]. auto.
  - intros id' now s [Hl Hg]. split; [auto|]. apply gone_fmap; [|done]. intros p. destruct (_ && _); [|done].
    split; [done|]. unfold ProfileQueries.live. cbn. by rewrite andb_false_r.
  - intros id' s [Hl Hg]. split; [auto|]. by apply gone_unset.
  - intros row s Hv [Hl Hg]. split; [auto|]. destruct (decide (ProfileRow.id row = id)) as [Hid|]; [|by apply gone_insert_other].
    destruct (insert_profile_spec row s) as [->|(_ & _ & _ & _ & _ & _ & _ & Hfresh)]; [done|].
    destruct Hfresh. rewrite Hv, Hid, (proj1 (Hl id)). apply elem_of_seqZ. destruct Hg as [Hne _].
    destruct (versions_of id s); [done|]. cbn. lia.
  - intros row p s [Hl Hg] Hp Hv. split; [by eapply Ln|].
    apply gone_insert_other; [|by apply gone_unset]. intros Heq. rewrite Heq, (gone_current id s Hg) in Hp. done.
Qed.

Section version_theorems.
Context `{JsonCodec} `{FloatText} `{YamlCodec}.

(** C26. Served one after the other, whatever they are and whichever of their statements
    fail, the requests keep the history of every profile: the versions are numbered from 1
    without a gap, only the last one can be current, and no version that was once written
    changes or disappears. *)
Theorem versions_linear history s (Hl : linear s) :
  linear (serve_profiles history s) ∧ history_kept s (serve_profiles history s).
Proof.
  split; [by apply (serve_profiles_stable linear linear_stable)|].
  apply (serve_profiles_stable (history_kept s) (kept_stable s)). unfold history_kept. done.
Qed.

(** The first two statements of an update that succeeds by itself, and what is left of it. *)
Lemma update_prefix index now auth ctx headers id body s p s' resp :
  ProfileQueries.get_current id s = Some p →
  run_prog [] (update_profile index now auth ctx headers id body) s = (s', Ok resp) →
  ∃ k1 k2 k3 k4 row, ProfileRow.id row = id ∧ ProfileRow.version row = ProfileRow.version p + 1
  ∧ (ProfileQueries.insert_profile row (ProfileQueries.unset_current id s).1).2 = Ok tt
  ∧ prog_step None (update_profile index now auth ctx headers id body) s = (s, k1)
  ∧ prog_step None k1 s = (s, k2)
  ∧ (∀ s, prog_step None k2 s = ((ProfileQueries.unset_current id s).1, k3))
  ∧ (∀ s, prog_step None k3 s
          = ((ProfileQueries.insert_profile row s).1,
             match (ProfileQueries.insert_profile row s).2 with
             | Ok _ => k4
             | Err e => Ret (Err (Failed (ConsoleError.Database e)))
             end))
  ∧ ∀ s, ∃ a, prog_step None k4 s = (s <| Store.accounts := a |>, Ret (Ok resp)).
Proof.
  intros Hp. unfold update_profile. destruct (lift (validate_csrf _ _)); [|done].
  unfold fetch_current, ask. cbn [prog_bind run_prog run_stmt head default tail reads prog_step]. rewrite Hp. cbn [lift result_map_err ok_or prog_bind].
  destruct (check_profile_write_access auth p); cbn [lift result_map_err]; [|done].
  set (row := row_of body id (ProfileRow.version p + 1) (ProfileRow.owner_user_id p) now).
  unfold validated, validate_profile. destruct (check_fields _) as [vs|]; [|done].
  destruct (check_taxonomy _ _) as [tvs ws].
  unfold ask_or. cbn [prog_bind run_prog run_stmt head default tail reads].
  destruct (ValidationResult.is_valid _) eqn:Hvalid; [|done].
  unfold ProfileQueries.create_new_version, run. cbn [prog_bind run_prog run_stmt head default tail].
  cbn [ProfileQueries.unset_current]. set (s1 := ProfileQueries.on_profiles _ s). cbn [lift result_map_err prog_bind run_prog run_stmt head default tail].
  destruct (ProfileQueries.insert_profile row s1) as [s2 [[]|e]] eqn:Hins; [|done].
  cbn [lift result_map_err prog_bind store_log exec_ok run_prog run_stmt head default tail].
  destruct (insert_entry _ _) as [a' r'] eqn:Hlog. intros [= _ <-].
  eexists _, _, _, (let! _ := store_log (AuthenticatedUser.user_id auth) AuditAction.ProfileUpdate id
                      (Some (VersionDetail (ProfileRow.version p + 1))) ctx in Ret (Ok _)), row.
  split; [done|]. split; [done|]. split; [cbn [fst ProfileQueries.unset_current]; fold s1; by rewrite Hins|].
  split; [reflexivity|]. split; [cbn [prog_step run_stmt reads prog_bind]; rewrite Hvalid; reflexivity|]. split; [reflexivity|].
  split.
  - intros s3. cbn [prog_step run_stmt prog_bind lift result_map_err].
    destruct (ProfileQueries.insert_profile row s3) as [s4 [[]|e]]; reflexivity.
  - intros s3. cbn [prog_step run_stmt prog_bind store_log exec_ok].
    match goal with |- context [insert_entry ?r ?s] => destruct (insert_entry r s) as [acc r0] end. by exists acc.
Qed.

Lemma interleave_step {S A} i (q q' : prog S A) schedule ps (s s' : S) :
  ps !! i = Some q → prog_step None q s = (s', q') →
  interleave ((i, None) :: schedule) ps s = interleave schedule (<[i := q']> ps) s'.
Proof. intros Hq Hstep. cbn. by rewrite Hq, Hstep. Qed.

Lemma insert_unchanged row s :
  (ProfileQueries.insert_profile row s).1 = s → (ProfileQueries.insert_profile row s).2 = Ok tt → False.
Proof.
  unfold ProfileQueries.insert_profile. case_bool_decide; [done|].
  repeat (match goal with |- context [if negb ?b then _ else _] => destruct (negb b) end; [done|]).
  cbn. intros Heq%(f_equal (length ∘ ProfileQueries.profiles)) _. cbn in Heq. rewrite length_app in Heq. cbn in Heq.
  unfold ProfileQueries.profiles in Heq. lia.
Qed.

(** C39. A new version is written in two statements without a transaction.  Of two updates of
    a profile at the same time, each of which succeeds by itself, one can succeed and the
    other fail on the version number after it has taken the mark from the current version:
    then no version is current, and whatever is asked afterwards nobody finds the profile
    again. *)
Theorem update_race_loses_profile index now auth ctx headers id body index' now' auth' ctx' headers' body' s p s1 s2 resp resp'
    (Hl : linear s) (Hp : ProfileQueries.get_current id s = Some p)
    (Hrun : run_prog [] (update_profile index now auth ctx headers id body) s = (s1, Ok resp))
    (Hrun' : run_prog [] (update_profile index' now' auth' ctx' headers' id body') s = (s2, Ok resp')) :
  ∃ schedule s' e,
    interleave schedule [update_profile index now auth ctx headers id body;
                         update_profile index' now' auth' ctx' headers' id body'] s
    = (s', [Ret (Ok resp); Ret (Err (Failed (ConsoleError.Database e)))])
    ∧ ∀ history, ProfileQueries.get_current id (serve_profiles history s') = None.
Proof.
  destruct (update_prefix _ _ _ _ _ _ _ _ _ _ _ Hp Hrun) as (a1 & a2 & a3 & a4 & row & Hid & Hv & Hins & HA1 & HA2 & HA3 & HA4 & HA5).
  destruct (update_prefix _ _ _ _ _ _ _ _ _ _ _ Hp Hrun') as (b1 & b2 & b3 & b4 & row' & Hid' & Hv' & _ & HB1 & HB2 & HB3 & HB4 & _).
  exists [(0, None); (0, None); (1, None); (1, None); (0, None); (0, None); (1, None); (1, None); (0, None)]%nat.
  do 2 (erewrite interleave_step; [|reflexivity|eassumption]). cbn [insert list_insert].
  do 2 (erewrite interleave_step; [|reflexivity|eassumption]). cbn [insert list_insert].
  do 2 (erewrite interleave_step; [|reflexivity|eauto]). rewrite Hins. cbn [insert list_insert].
  set (sa := (ProfileQueries.insert_profile row _).1).
  do 2 (erewrite interleave_step; [|reflexivity|eauto]). cbn [insert list_insert].
  set (sb := (ProfileQueries.unset_current id sa).1).
  assert (Hsa : linear sa ∧ ProfileRow.version row ∈ ProfileRow.version <$> versions_of id sa).
  { subst sa id. split; [by apply (st_next _ linear_stable row p)|].
    destruct (insert_profile_spec row (ProfileQueries.unset_current (ProfileRow.id row) s).1)
      as [Hsame|(r & Hr & Hrv & _ & _ & Hps & _ & _)]; [by apply insert_unchanged in Hsame; [|done]|].
    unfold versions_of. rewrite Hps, filter_app, filter_cons, filter_nil, decide_True, fmap_app by done.
    apply elem_of_app. right. rewrite <-Hrv. left. }
  destruct Hsa as [Hla Hva]. destruct (unset_linear id sa Hla) as [Hlb [Hlen Hnone]]. fold sb in Hlb, Hlen, Hnone.
  assert (Hvb : ProfileRow.version <$> versions_of id sb = ProfileRow.version <$> versions_of id sa).
  { by rewrite (proj1 (Hlb id)), (proj1 (Hla id)), Hlen. }
  assert (Hdup : ProfileQueries.insert_profile row' sb
                 = (sb, Err "UNIQUE constraint failed: profiles.id, profiles.version")).
  { unfold ProfileQueries.insert_profile. rewrite bool_decide_true; [done|].
    apply get_version_is_Some. by rewrite Hid', Hv', <-Hv, Hvb. }
  rewrite Hdup. cbn [fst snd]. destruct (HA5 sb) as [acc Hacc].
  erewrite interleave_step; [|reflexivity|exact Hacc]. cbn [insert list_insert interleave].
  eexists _, _. split; [reflexivity|]. intros history.
  assert (Hgone : linear (sb <| Store.accounts := acc |>) ∧ gone id (sb <| Store.accounts := acc |>)).
  { split; [by apply (st_accounts _ linear_stable)|]. split.
    - intros Hnil. change (versions_of id sb = []) in Hnil. rewrite <-Hvb, Hnil in Hva. by apply elem_of_nil in Hva.
    - intros q Hq. unfold ProfileQueries.live. by rewrite (Hnone q Hq). }
  by apply gone_current, (serve_profiles_stable _ (gone_stable id) history).
Qed.
End version_theorems.

(** Who asks for the versions of a profile without a live version is not asked who they
    are: every authenticated user gets them, private or not. *)
Lemma versions_unguarded auth id s :
  gone id s →
  (run_prog [] (list_versions auth id) s).2
  = Ok (Response.mk 200 [] (Value.Array (version_item <$> ProfileQueries.list_versions id s))).
Proof. intros Hg%gone_current. unfold list_versions, ask. cbn. by rewrite Hg. Qed.

(** ** A profile of one of the two admins *)

Module SampleProfile.
#[local] Instance json : JsonCodec := {| from_str _ := Some (Value.of_strings ["fast"]); to_string _ := "[fast]" |}.
#[local] Instance decimal : FloatText := {| display_f64 _ := "1" |}.

Definition index : TaxonomyIndex.t := BuildResult.index (build_index (H := canonical_order) None [] []).
Definition ann : AuthenticatedUser.t := AuthenticatedUser.mk "u1" "Ann" ConsoleRole.Admin.
Definition ctx : RequestContext.t := RequestContext.mk "127.0.0.1" "browser".
Definition headers : HeaderMap := {[ "authorization" := "Bearer wcon_t_x" ]}.
Definition body (name : string) : CreateProfileRequest.t :=
  CreateProfileRequest.mk name None (Some ["fast"]) "worker" "anthropic" "model" None (Some 100) "assisted" None None
    None (Some 1000) None None "private".
Definition row : ProfileRow.t := row_of (body "Builder") "p1" 1 "u1" "0".
#[local] Instance yaml : YamlCodec := {| yaml_to_string _ := Ok "yaml"; yaml_from_str _ := Ok (export_data row) |}.

Definition call : Call.t := Call.mk index "p1" "0" ann ctx headers.
Definition empty : Store.t := Store.mk (Db.mk ∅ ∅ []) Sample.tables.
Definition store : Store.t := serve_profiles [(call, CreateProfile (body "Builder"), [])] empty.
Definition update (name : string) : prog Store.t (result Response.t failure) :=
  update_profile index "0" ann ctx headers "p1" (body name).
Definition answer : Response.t :=
  Response.mk 200 [] (Value.Object {[ "version" := Value.of_int 2; "warnings" := warnings_value [] ]}).

Lemma empty_linear : linear empty.
Proof. intros id. split; [done|]. by intros p ?%elem_of_nil. Qed.
End SampleProfile.

#[local] Existing Instances SampleProfile.json SampleProfile.decimal SampleProfile.yaml.

Lemma yaml_round_trip_witness :
  ∃ data, parse_import_yaml "yaml" = Ok data ∧ ProfileRow.tags (import_data_to_row data) = Some "[fast]".
Proof.
  destruct (yaml_round_trip SampleProfile.row "yaml" (Some ["fast"]) None None) as (data & Hparse & Hrow).
  - split; [done|]. by intros x [= <-].
  - done.
  - by split.
  - by split.
  - done.
  - done.
  - exists data. split; [exact Hparse|]. by rewrite Hrow.
Defined.

(** Three versions, of which an insert of the last fails. *)
Lemma versions_linear_witness :
  linear (serve_profiles
    [(SampleProfile.call, CreateProfile (SampleProfile.body "Builder"), []);
     (SampleProfile.call, UpdateProfile "p1" (SampleProfile.body "Tester"), []);
     (SampleProfile.call, RollbackProfile "p1" 1, [None; None; None; Some "disk full"])] SampleProfile.empty).
Proof. exact (proj1 (versions_linear _ _ SampleProfile.empty_linear)). Defined.

Lemma update_race_loses_profile_witness :
  ∃ schedule s' e,
    interleave schedule [SampleProfile.update "Tester"; SampleProfile.update "Writer"] SampleProfile.store
    = (s', [Ret (Ok SampleProfile.answer); Ret (Err (Failed (ConsoleError.Database e)))])
    ∧ ∀ history, ProfileQueries.get_current "p1" (serve_profiles history s') = None.
Proof.
  assert (Hl : linear SampleProfile.store).
  { unfold SampleProfile.store. apply (serve_profiles_stable linear linear_stable), SampleProfile.empty_linear. }
  assert (Hrun : ∀ (x : Store.t * result Response.t failure) r, x.2 = Ok r → x = (x.1, Ok r)) by (intros [] ? [= ->]; done).
  apply (update_race_loses_profile SampleProfile.index "0" SampleProfile.ann SampleProfile.ctx SampleProfile.headers
    "p1" (SampleProfile.body "Tester") SampleProfile.index "0" SampleProfile.ann SampleProfile.ctx SampleProfile.headers
    (SampleProfile.body "Writer") SampleProfile.store SampleProfile.row
    (run_prog [] (SampleProfile.update "Tester") SampleProfile.store).1
    (run_prog [] (SampleProfile.update "Writer") SampleProfile.store).1 SampleProfile.answer SampleProfile.answer Hl).
  - vm_compute. reflexivity.
  - apply Hrun. vm_compute. reflexivity.
  - apply Hrun. vm_compute. reflexivity.
Defined.
